(* ===== verification/_CoqProject ===== *)
-Q . S2P
Prelude.v
RustStr.v
FsModel.v
World.v
Models.v
FsFacts.v
Frame.v
Fsx.v
Workspace.v
Environment.v
Activity.v
Diff.v
Memory.v
Protocol.v
Changes.v
Engine.v
Exec.v
FsxProps.v
Layout.v
MergeFacts.v
ChangesProps.v
Concrete.v
Demo.v
MergeProps.v
ActivityProps.v
TracebackProps.v
MergeFrame.v
Progress.v
MergeTotal.v
Truncate.v
History.v
Rollout.v
TruncateProps.v
HistoryProps.v
RolloutProps.v
ChatProtocol.v
ChatTools.v
ChatLoop.v
ChatFsProps.v
ChatRunFacts.v
ChatProps.v
ChatDemo.v
StreamText.v
StreamFacts.v
StreamLaws.v
StreamProps.v
ShellCommand.v
ShellProps.v
PatchFormat.v
PatchStream.v
PatchGrammar.v
PatchStreamFacts.v
ExecFs.v
Permissions.v
PermFacts.v
SandboxRoots.v
Profiles.v
PermProps.v
SandboxProps.v
Bwrap.v
BwrapProps.v
ExecPolicy.v
PolicyFile.v
ExecApproval.v
ExecPolicyProps.v
ApprovalProps.v
PolicyProps.v
ExecDemo.v
PatchApply.v
PatchHunks.v
PatchSeek.v
PatchLaws.v
PatchProps.v
PatchVerify.v
SandboxManager.v
LinuxRun.v
SafetyProps.v
PermDemo.v
NetPolicy.v
NetProps.v
