(* ===== verification/Prelude.v ===== *)
(** * Verification of CodexStudy: the safe workflow, the chat agent and the
      code around the agent that decides what it may do

    This library models parts of the Rust workspace [src/codex-rs] and proves
    them correct.  Definitions keep the names of the functions, types and
    fields they translate.

    ** The program and its parts

    - The safe workflow, [codex-new-core]: a task works in an isolated copy of
      a project; its changes are detected by hashes, reviewed, merged into the
      project file by file or hunk by hunk, and can be rolled back.  Timelines,
      task records, memory and tracebacks are kept next to it.
    - The chat agent, [chat-agent-core]: a loop that asks a model for the next
      action, asks the user to approve mutating actions, executes tools and
      ends within its guardrails.
    - The patch tool, [apply-patch]: patches are parsed (also while they
      arrive), verified, and applied through an executor file system
      ([file-system], [exec-server]) with a record of what was changed.
    - Streamed text, [utils/stream-parser]: hidden tags, citations and plans
      are taken out of the assistant's text while it arrives in chunks.
    - Command approval, [shell-command], [execpolicy] and [core]'s
      [exec_policy.rs]: a command is split into plain commands, these are
      matched against the rules of a policy and lists of safe and dangerous
      commands, and the command runs, needs approval or is refused; accepted
      prompts amend the policy and its file.
    - Permissions, [protocol] and [sandboxing]: which paths a file-system
      policy lets the agent read and write, the roots a sandbox is given, the
      legacy policies, permission profiles and the permissions added to them,
      and the choice of a sandbox; [core]'s [safety.rs] and [apply_patch.rs]
      decide on this ground whether a patch is applied without asking; the
      Linux helper, [linux-sandbox], turns the policy into the mounts of
      bubblewrap and cleans up after it.
    - The network policy, [network-proxy]: which hosts a sandboxed command may
      reach through the proxy, within what managed configuration permits, and
      the state its tasks share.
    - Conversation history, [core] and [utils]: the items of a conversation,
      truncated outputs, what is sent to the model, rollbacks, compactions, and
      the history rebuilt from the record of a thread.

    ** Foundations

    - [Prelude]: outcomes ([Ok], [Err], [Panic]) and the [?] operator on sums,
      automation, lists.  [RustStr]: the string API, on UTF-8 bytes.
      [FsModel]: paths, a file system with directories, symbolic links and I/O
      errors, the world and its effect monad.  [World]: the parameters for
      executables and clocks, serialization as an interface with round-trip
      laws ([Serde], [SerdeOk]).
    - [FsFacts], [Frame], [Exec], [Progress]: the calls of [std::fs] on
      well-formed trees; a frame logic (what a function can touch, however it
      ends); a calculus of successful runs; one of runs that must succeed.
    - [Concrete]: instances of the parameters for closed examples.

    ** The safe workflow ([src/codex-rs/codex-new-core/src])

    - [Models] ([models.rs], [manifest.rs], [error.rs]), [Fsx] ([fsx.rs]),
      [Workspace] ([git.rs], [workspace.rs]), [Environment]
      ([environment.rs], [test_commands.rs]), [Activity] ([activity.rs],
      [sessions.rs], [recovery.rs], [review.rs], [policy.rs]), [Diff]
      ([diff.rs]), [Memory] ([memory.rs], [traceback.rs]), [Protocol]
      ([protocol.rs], timeline payloads), [Changes] and [Engine] ([engine.rs]).
    - [FsxProps], [Layout], [MergeFacts], [MergeProps]: a merge of whole files
      refines the update of the accepted files, a conflict refuses it without
      effect, and a rollback undoes it.  [Progress], [MergeTotal]: when these
      operations succeed.  [MergeFrame]: what a merge can touch and that
      its lock is released, however it ends.  [ChangesProps]:
      change detection is complete, refreshing touches neither tree, merging
      everything synchronizes the trees.
    - [ActivityProps], [TracebackProps]:
      timelines are read back in pages, the disposition of a review, the
      recovery of manifests, memory is only extended, conversations get their own task, the
      original of a file is restored whatever was recorded after its first
      edit ([since]).  [Demo]: concrete runs and findings.

    ** The chat agent ([src/codex-rs/chat-agent-core/src])

    - [ChatProtocol] ([protocol/], [state/], [session/]),
      [ChatTools] ([executor/]), [ChatLoop] ([planner/], [loop_control/],
      [runtime.rs]).
    - [ChatRunFacts], [ChatProps]: nothing is edited or executed
      without approval, the loop ends and stays within the guardrails, a paused
      run reports what it waits for.  [ChatFsProps]:
      replacements, containment in the workspace, bounded output.  [ChatDemo]: concrete runs and findings.

    ** Patches and streamed text

    - [PatchFormat] ([parser.rs]), [PatchStream] ([streaming_parser.rs]),
      [PatchApply], [PatchHunks] ([seek_sequence.rs], [lib.rs]), [PatchVerify]
      ([invocation.rs], [lib.rs]) of [src/codex-rs/apply-patch/src]; [ExecFs]:
      [utils/absolute-path] and the direct file system of [exec-server].
    - [PatchGrammar], [PatchStreamFacts]: the documented grammar
      as syntax trees; both parsers read back exactly those whose updates have
      changes and whose contexts have lines ([patch_accepted]).  [PatchSeek], [PatchLaws],
      [PatchProps]: lines are found where they should be, applying refines a
      specification on file contents for every file system with the laws
      [FileLaws], an exact delta undoes it; [PatchVerify] ends with what a
      verified patch guarantees.
    - [StreamText] ([src/codex-rs/utils/stream-parser/src]), [StreamFacts],
      [StreamLaws] (the contract of a streamed parser, as a class),
      [StreamProps]: the output does not
      depend on how the text is cut, and is what the specification says.

    ** Command approval

    - [ShellCommand] ([src/codex-rs/shell-command/src]), [ExecPolicy]
      ([decision.rs], [rule.rs], [policy.rs], [executable_name.rs] of
      [src/codex-rs/execpolicy/src]), [PolicyFile] ([parser.rs], [amend.rs];
      [requirements_exec_policy.rs] of [src/codex-rs/config/src]),
      [ExecApproval] ([src/codex-rs/core/src/exec_policy.rs]).
    - [ShellProps]: which scripts are plain commands, which git commands are
      known to be safe.  [ExecPolicyProps]: the rules that apply to a command,
      as a relation ([applies]), and that the strictest decides.
      [ApprovalProps]: exactly when a command runs without a prompt, and what
      an accepted amendment changes.  [PolicyProps]: what is written to the
      policy file, every policy of a session is well-formed and keeps the rules
      of the requirements, and the examples of a policy file hold.  [ExecDemo]: witnesses and
      findings.

    ** Permissions and sandboxes

    - [Permissions] ([src/codex-rs/protocol/src/permissions.rs]: policies, the
      access of a path, protected metadata, adding roots), [SandboxRoots] (the
      roots and denied reads of that file, the legacy policies of
      [protocol.rs], the canonicalization of [utils/absolute-path]),
      [Profiles] ([models.rs], and [policy_transforms.rs] of
      [src/codex-rs/sandboxing/src]), [SandboxManager] ([manager.rs],
      [landlock.rs]; [safety.rs] and [apply_patch.rs] of
      [src/codex-rs/core/src]); of [src/codex-rs/linux-sandbox/src], [Bwrap]
      ([bwrap.rs]) and [LinuxRun] ([linux_run_main.rs]).  A directory of the
      state is a [path], the list of its names; a path as a caller spells it is
      an [os_path].
    - [PermFacts]: the reference definition of access, [nearest_access]: the
      entry of the nearest ancestor decides.  [PermProps]: the code computes
      it; metadata is protected; denials survive every operation on a policy;
      added roots only add.  [SandboxProps]: writable roots promise no more
      than the policy, the matcher of denied reads is exact, legacy policies
      make the round trip, an intersection stays within the request and the
      grant.  [SafetyProps]: what runs without a sandbox or without asking.
      [BwrapProps]: the mounts of bubblewrap are given a meaning, [shown],
      what a path inside shows after all flags, the fresh [/proc] included
      ([flags_around]); nothing beyond the policy can be written, what
      is denied is hidden, what is allowed stays; the walk for denied patterns
      finds every match.  [LinuxRun] ends with sandboxes that run at the same
      time ([host_step], with mount targets and protected paths, on one host
      with one registry) and the invariant of their registry: a cleanup of
      mount targets never removes what another sandbox still uses.  [PermDemo]: witnesses and
      findings.
    - Where the theorems speak of a [plain_path], its names are those of a
      normalized path (not empty, [.] or [..], and without separators), as in
      every [AbsolutePathBuf]; the theorems on writable roots, on mounts and
      on the registry are for a file system without symbolic links (the
      definitions follow links as the code does).

    ** The network policy ([src/codex-rs/network-proxy/src])

    - [NetPolicy]: hosts, addresses and patterns ([policy.rs]), the settings
      ([config.rs]), the constraints of managed configuration ([state.rs]), the
      decision for a host with its audit event ([runtime.rs],
      [network_policy.rs], [connect_policy.rs]), and the state the tasks of the
      proxy share.  [ConfigState] is the record of the code.  An update reads
      the state, computes, and installs its result if the configuration has
      not changed: [update_loop] runs over the states its rounds read and find
      when they write, so whatever other tasks do in between is covered.  The
      rounds of the code are not bounded either; the loop ends with the given
      list, and what is shown is what holds when an update succeeds.
    - [NetProps]: the IPv4 addresses that are not public, as ranges; the
      hosts a pattern covers ([covered]: a glob it is compiled to matches them);
      the language of a plain pattern ([lang]), which the compiled sets and the
      check of constraints both decide, so a managed allowlist confines the
      configured one; the steps of a proxy ([proxy_step]) keep its sets consistent with
      its configuration, so no sequence of reloads and updates lets a denied
      host through or an allowed one reach addresses that count as local; an
      update of the lists keeps what concurrent updates did to other hosts.  It ends with concrete states, witnesses and
      findings.
    - The glob compiler, the [url] crate, name resolution and the interception
      hooks are parameters ([NetEnv]) with the laws [HostGlobLaws].  What is
      said of the language of a pattern is for those that are compiled as they
      are written ([plain_pattern]), and of managed constraints for those read
      alike by both checks ([read_alike]);
      [managed_allowlist_bypassed] shows why.

    ** Conversation history

    - [Truncate] ([src/codex-rs/utils/string/src/truncate.rs],
      [utils/output-truncation], the policies of [protocol.rs], and
      [unified_exec/head_tail_buffer.rs] of [src/codex-rs/core/src]), [History]
      ([models.rs], [items.rs], [context/], [event_mapping.rs],
      [context_manager/normalize.rs], [context_manager/history.rs]), [Rollout]
      ([thread_rollout_truncation.rs], [compact.rs],
      [session/rollout_reconstruction.rs]).  A [ContextManager] is the record
      of the code; the loops that scan a rollout are folds over their
      variables ([ReverseScan]).
    - [TruncateProps]: a truncated text keeps whole characters of both ends
      within its budget; the buffer of a command holds the first and last bytes
      however they arrive.  [HistoryProps]: a prompt pairs calls and outputs,
      whatever was recorded; removing an item removes its partner; a rollback
      refines [before_turn], the items before a turn.  [RolloutProps]: the
      history rebuilt from a record is the one playing the record gives
      ([replay_all]), the turns of a record are those of its history, what a
      compaction keeps; and where a rollback loses history.
    - A rewrite of a history is sequential here; a [serde_json::Value] is its
      text, and the settings of a turn that the history only passes on are one
      value.

    ** Conventions and bounds

    - An error is a value; a panic is [Panic] or [None].  Effects made before
      an error are kept: functions thread the world or the file system.
    - Recursion that is not structural runs on fuel.  The chat loop takes
      [max_turns + 1] units and [run_terminates] shows that they are enough.
      The parsers of patches take one unit per line, each step consuming a
      line; the walks over syntax trees one per node ([plain_commands_exact]
      shows that every node is seen); the streaming parsers one more than the
      pending bytes, each step consuming a byte; the walk for denied patterns
      one more than the depth of the tree ([glob_files_finds] shows that it
      reaches every match).
    - [usize] and [u64] are [N] or [nat]; additions that saturate in the code
      saturate in the model.  Lists stay below [isize::MAX] in memory, so
      lengths do not wrap.
    - Executables (git, ripgrep, shells), the model, clocks, random
      identifiers, SHA-256, JSON and TOML text, the XML of hook prompts and the
      sizes of images ([HistoryEnv]), Tree-sitter and PowerShell
      parsers, the Starlark evaluator, shlex, diffing, globs, which processes
      are alive, the identities of files ([BwrapEnv], [RunEnv]) and the environment of
      the process ([ProcessEnv]) are parameters; laws they are known to have are classes or
      hypotheses ([SerdeOk], [FileLaws], [JsonText]), each with an instance.
    - A child process has its effect on the files at the moment it is started.
      A directory walk sees one snapshot.  Callbacks are the log of their
      calls.  Only the Unix branches are modelled, for Linux where systems
      differ; file names are UTF-8; the standard output can be written to.

    ** Not modelled, and why

    - The upstream agent ([core] apart from approval and history, so the
      requests and tools of a turn), the application server,
      the model clients and what of the sandbox helpers is system calls (the
      filters of Landlock and seccomp, the proxy bridge of [proxy_routing.rs],
      forks, signals and the monitor thread of [linux_run_main.rs], starting
      bubblewrap), the servers of the network proxy and its TLS interception:
      asynchronous programs around remote services, JSON-RPC
      transport and kernel features.
    - The terminal interface, the desktop client and the command line:
      rendering and process glue.
    - State stores and the files of rollouts: SQLite and JSON-lines persistence.
    - Of modelled crates: Windows branches, the display of policy errors,
      summaries of commands for the interface ([parse_command.rs]), the
      executor's sandboxed and remote file systems, the macOS and Windows
      sandboxes, the JSON of permission profiles. *)

From Stdlib Require Export Ascii String.
From stdpp Require Export base tactics list strings gmap sorting pretty.

#[global] Open Scope string_scope.
#[global] Open Scope list_scope.
#[global] Open Scope nat_scope.

(** ** Outcomes

    A Rust function of the modelled crates ends in one of three ways: it
    returns [Ok v], it returns [Err e], or it panics (an out-of-range slice, a
    [splice] whose start is past the end of the vector, ...). *)
Inductive outcome (E A : Type) : Type :=
| Ok (a : A)
| Err (e : E)
| Panic (why : string).
Arguments Ok {E A} a.
Arguments Err {E A} e.
Arguments Panic {E A} why.

Definition is_ok {E A} (o : outcome E A) : bool :=
  match o with Ok _ => true | _ => false end.

Lemma is_ok_split {E A W} (r : outcome E A * W) :
  is_ok (fst r) = true → ∃ a w, r = (Ok a, w).
Proof. destruct r as [[] w]; [eauto|done..]. Qed.

(** [Result::ok]: forgets the error. *)
Definition ok_opt {E A} (o : outcome E A) : option A :=
  match o with Ok a => Some a | _ => None end.

(** ** Automation shared by the whole library *)

Create HintDb frame discriminated.
Create Rewrite HintDb rust.

(** Splits the innermost [match]/[if] of the goal, keeping the equation. *)
Ltac case_one :=
  match goal with
  | |- context [match ?x with _ => _ end] =>
      lazymatch x with
      | context [match _ with _ => _ end] => fail
      | _ => destruct x eqn:?
      end
  end.

(** The same in a hypothesis. *)
Ltac case_one_in H :=
  match type of H with
  | context [match ?x with _ => _ end] =>
      lazymatch x with
      | context [match _ with _ => _ end] => fail
      | _ => destruct x eqn:?
      end
  end.

(** Turns boolean tests into propositions. *)
Ltac to_prop :=
  repeat match goal with
  | H : _ && _ = true |- _ => apply andb_true_iff in H as [? ?]
  | H : _ || _ = false |- _ => apply orb_false_iff in H as [? ?]
  | H : negb _ = true |- _ => apply negb_true_iff in H
  | H : negb _ = false |- _ => apply negb_false_iff in H
  | H : bool_decide _ = true |- _ => apply bool_decide_eq_true in H
  | H : bool_decide _ = false |- _ => apply bool_decide_eq_false in H
  | H : Nat.leb _ _ = true |- _ => apply Nat.leb_le in H
  | H : Nat.leb _ _ = false |- _ => apply Nat.leb_gt in H
  | H : Nat.ltb _ _ = true |- _ => apply Nat.ltb_lt in H
  | H : Nat.ltb _ _ = false |- _ => apply Nat.ltb_ge in H
  | H : N.leb _ _ = true |- _ => apply N.leb_le in H
  | H : N.leb _ _ = false |- _ => apply N.leb_gt in H
  | H : N.ltb _ _ = true |- _ => apply N.ltb_lt in H
  | H : N.ltb _ _ = false |- _ => apply N.ltb_ge in H
  | H : N.eqb _ _ = true |- _ => apply N.eqb_eq in H
  | H : N.eqb _ _ = false |- _ => apply N.eqb_neq in H
  | H : String.eqb _ _ = true |- _ => apply String.eqb_eq in H
  | H : String.eqb _ _ = false |- _ => apply String.eqb_neq in H
  end.

(** ** Lists *)

Section lists.
Context {A B : Type}.

(** [iter().find]. *)
Fixpoint find_first (f : A → bool) (l : list A) : option A :=
  match l with
  | [] => None
  | x :: l' => if f x then Some x else find_first f l'
  end.

Lemma find_first_Some f l x :
  find_first f l = Some x → x ∈ l ∧ f x = true.
Proof.
  induction l as [|y l IH]; simpl; [done|].
  destruct (f y) eqn:Hy; intros H; simplify_eq.
  - split; [left|done].
  - destruct (IH H). split; [by right|done].
Qed.

Lemma find_first_None f l x :
  find_first f l = None → x ∈ l → f x = false.
Proof.
  induction l as [|y l IH]; simpl; [by inversion 2|].
  destruct (f y) eqn:Hy; [done|]. intros H.
  rewrite elem_of_cons. intros [->|?]; [done|auto].
Qed.

Lemma existsb_exists_elem (f : A → bool) l :
  existsb f l = true ↔ ∃ x, x ∈ l ∧ f x = true.
Proof. rewrite existsb_exists. by setoid_rewrite list_elem_of_In. Qed.

Lemma elem_of_concat_map {C : Type} (f : C → list A) l x :
  x ∈ concat (map f l) ↔ ∃ y, y ∈ l ∧ x ∈ f y.
Proof. rewrite <- flat_map_concat_map, list_elem_of_In, in_flat_map. by setoid_rewrite list_elem_of_In. Qed.

Lemma existsb_false_elem (f : A → bool) l :
  existsb f l = false ↔ ∀ x, x ∈ l → f x = false.
Proof.
  split.
  - intros H x Hx. apply not_true_is_false. intros Hf.
    assert (existsb f l = true) by (apply existsb_exists_elem; eauto).
    congruence.
  - intros H. apply not_true_is_false.
    rewrite existsb_exists_elem. intros (x & Hx & Hf).
    rewrite (H x Hx) in Hf. done.
Qed.

(** [Vec::splice(start..end, repl)]; [None] where Rust panics (the range is
    decreasing or runs past the end of the vector). *)
Definition splice (l : list A) (start stop : nat) (repl : list A)
  : option (list A) :=
  if bool_decide (start ≤ stop ∧ stop ≤ length l)
  then Some (take start l ++ repl ++ drop stop l)
  else None.

(** The last [n] elements: [v.split_off(v.len() - n)] when [n < v.len()]. *)
Definition last_n (n : nat) (l : list A) : list A := drop (length l - n) l.

Lemma length_last_n n l : length (last_n n l) = Nat.min n (length l).
Proof. unfold last_n. rewrite length_drop. lia. Qed.

Lemma last_n_suffix n l : ∃ k, l = k ++ last_n n l.
Proof. exists (take (length l - n) l). unfold last_n. by rewrite take_drop. Qed.
End lists.

(** [sort_by] and [sort_by_key] are stable: elements that are equal for the
    order stay as they were. *)
Fixpoint insert_sorted {A : Type} (le : A → A → bool) (x : A) (l : list A) : list A :=
  match l with
  | [] => [x]
  | y :: l' => if le x y then x :: l else y :: insert_sorted le x l'
  end.
Definition sort_by {A : Type} (le : A → A → bool) (l : list A) : list A :=
  foldr (insert_sorted le) [] l.

Section sort_by.
Context {A : Type} (le : A → A → bool).

Lemma insert_sorted_Permutation x l : insert_sorted le x l ≡ₚ x :: l.
Proof.
  induction l as [|y l IH]; [done|]. simpl. destruct (le x y); [done|].
  rewrite IH. apply Permutation_swap.
Qed.

Lemma sort_by_Permutation l : sort_by le l ≡ₚ l.
Proof. induction l as [|x l IH]; [done|]. simpl. by rewrite insert_sorted_Permutation, IH. Qed.

Lemma sort_by_sorted `{!Total (λ x y, Is_true (le x y))} `{!Transitive (λ x y, Is_true (le x y))} l :
  StronglySorted (λ x y, Is_true (le x y)) (sort_by le l).
Proof.
  induction l as [|x l IH]; [constructor|]. simpl.
  induction (sort_by le l) as [|y k IHk]; simpl; [by repeat constructor|].
  apply StronglySorted_inv in IH as [S F]. destruct (le x y) eqn:E.
  - constructor; [by constructor|]. constructor; [by rewrite E|].
    eapply Forall_impl; [exact F|]. intros z Z. simpl in *.
    apply (transitivity (y := y) (R := λ x y, Is_true (le x y))); [by rewrite E|done].
  - constructor; [by apply IHk|]. rewrite insert_sorted_Permutation. constructor; [|done].
    destruct (total (λ x y, Is_true (le x y)) y x) as [T|T]; [done|]. by rewrite E in T.
Qed.

(** Elements of one class keep their order. *)
Lemma sort_by_stable (f : A → bool) l :
  (∀ x y, f x = true → f y = true → le x y = true) →
  List.filter f (sort_by le l) = List.filter f l.
Proof.
  intros C. induction l as [|x l IH]; [done|]. simpl. rewrite <- IH. clear IH.
  induction (sort_by le l) as [|y k IHk]; simpl; [done|].
  destruct (le x y) eqn:E; simpl; [done|]. rewrite IHk.
  destruct (f x) eqn:Fx, (f y) eqn:Fy; try done. by rewrite (C x y) in E.
Qed.
End sort_by.

(** A numeric key orders totally. *)
Section key_order.
Context {A : Type} (key : A → nat).
#[export] Instance key_le_total : Total (λ x y, Is_true (key x <=? key y)).
Proof. intros x y. rewrite !Is_true_true, !Nat.leb_le. lia. Qed.
#[export] Instance key_le_trans : Transitive (λ x y, Is_true (key x <=? key y)).
Proof. intros x y z. rewrite !Is_true_true, !Nat.leb_le. lia. Qed.
End key_order.

(** The keys of a [BTreeMap<String, _>] or the elements of a
    [BTreeSet<String>], in the order Rust iterates them. *)
Definition btree_keys (s : gset string) : list string :=
  merge_sort String.le (elements s).

Lemma btree_keys_elem s k : k ∈ btree_keys s ↔ k ∈ s.
Proof.
  unfold btree_keys. rewrite merge_sort_Permutation. apply elem_of_elements.
Qed.

Lemma btree_keys_NoDup s : NoDup (btree_keys s).
Proof.
  unfold btree_keys. rewrite merge_sort_Permutation. apply NoDup_elements.
Qed.

Lemma btree_keys_sorted s : StronglySorted String.le (btree_keys s).
Proof. apply (StronglySorted_merge_sort _). Qed.

(** The entries of a [BTreeMap<String, _>] in iteration order. *)
Definition btree_list {A} (m : gmap string A) : list (string * A) :=
  omap (λ k, pair k <$> m !! k) (btree_keys (dom m)).
Definition btree_values {A} (m : gmap string A) : list A := map snd (btree_list m).

Lemma btree_list_elem {A} (m : gmap string A) k a :
  (k, a) ∈ btree_list m ↔ m !! k = Some a.
Proof.
  unfold btree_list. rewrite list_elem_of_omap. split.
  - intros (k' & _ & H). destruct (m !! k') eqn:E; naive_solver.
  - intros H. exists k. split; [|by rewrite H].
    apply btree_keys_elem, elem_of_dom. eauto.
Qed.

(** A [BTreeSet<usize>] in iteration order. *)
Definition btree_N (s : gset N) : list N := merge_sort N.le (elements s).

Lemma btree_N_elem s k : k ∈ btree_N s ↔ k ∈ s.
Proof. unfold btree_N. rewrite merge_sort_Permutation. apply elem_of_elements. Qed.

Lemma btree_N_nil s : btree_N s = [] ↔ s = ∅.
Proof.
  unfold btree_N. split.
  - intros Hn. apply leibniz_equiv, elements_empty_iff, Permutation_nil_r.
    rewrite <- Hn. by rewrite merge_sort_Permutation.
  - intros ->. done.
Qed.

(** ** Machine integers *)

Definition u64_max : N := 18446744073709551615.
Definition u32_max : N := 4294967295.

(** [u64::saturating_add]. *)
Definition u64_sat_add (a b : N) : N := N.min u64_max (a + b).

Lemma u64_sat_add_bound a b : (u64_sat_add a b ≤ u64_max)%N.
Proof. unfold u64_sat_add. lia. Qed.

(** * The [?] operator on results

    [Result<A, E>] of the crates verified from here on is the sum [E + A];
    [let? x := m in k] is [let x = m?; k]. *)

Declare Scope result_scope.
Delimit Scope result_scope with result.

Definition and_then {E A B : Type} (m : E + A) (k : A → E + B) : E + B :=
  match m with inl e => inl e | inr a => k a end.

(** [map_err]. *)
Definition map_err {E F A : Type} (f : E → F) (m : E + A) : F + A :=
  match m with inl e => inl (f e) | inr a => inr a end.

(** [ok]. *)
Definition ok_of {E A : Type} (m : E + A) : option A :=
  match m with inl _ => None | inr a => Some a end.

Notation "'let?' x := m 'in' k" := (and_then m (λ x, k))
  (at level 10, x pattern, m at level 100, k at level 200) : result_scope.
#[global] Open Scope result_scope.

Lemma and_then_inr {E A B : Type} (m : E + A) (k : A → E + B) b :
  and_then m k = inr b ↔ ∃ a, m = inr a ∧ k a = inr b.
Proof. destruct m; simpl; naive_solver. Qed.

Lemma and_then_assoc {E A B C : Type} (m : E + A) (k : A → E + B) (l : B → E + C) :
  and_then (and_then m k) l = and_then m (λ a, and_then (k a) l).
Proof. by destruct m. Qed.

(** [try_fold]: a loop whose body can fail. *)
Fixpoint try_fold {E S A : Type} (f : S → A → E + S) (s : S) (l : list A) : E + S :=
  match l with
  | [] => inr s
  | a :: l' => let? s' := f s a in try_fold f s' l'
  end.

Lemma try_fold_app {E S A : Type} (f : S → A → E + S) s l k :
  try_fold f s (l ++ k) = (let? s' := try_fold f s l in try_fold f s' k).
Proof. revert s. induction l as [|a l IH]; intros s; simpl; [done|]. destruct (f s a); simpl; auto. Qed.

(** What every step of a loop keeps holds after it. *)
Lemma try_fold_inv {E S A : Type} (I : S → Prop) (f : S → A → E + S) l s s' :
  (∀ s a s', I s → f s a = inr s' → I s') → I s → try_fold f s l = inr s' → I s'.
Proof.
  intros Hf. revert s. induction l as [|a l IH]; simpl; intros s Hs; [by intros [= <-]|].
  intros (s1 & E1 & E2)%and_then_inr. eauto.
Qed.

(** Changes the last element, [v.last_mut()]. *)
Fixpoint update_last {A : Type} (f : A → A) (l : list A) : list A :=
  match l with
  | [] => []
  | [x] => [f x]
  | x :: l' => x :: update_last f l'
  end.

Lemma update_last_snoc {A : Type} (f : A → A) l x : update_last f (l ++ [x]) = l ++ [f x].
Proof.
  induction l as [|y l IH]; [done|]. simpl. rewrite IH. destruct l as [|z l]; done.
Qed.

Lemma length_update_last {A : Type} (f : A → A) l : length (update_last f l) = length l.
Proof. induction l as [|x [|y l] IH]; simpl in *; auto. Qed.
