(* ===== verification/RustStr.v ===== *)
(** * Rust strings

    A Rust [String] or [&str] is modelled by the [string] of its UTF-8 bytes.
    This file models the part of the standard library's string API that the
    verified crates use: [lines], [split], [trim], [split_whitespace],
    [contains], [strip_prefix], [replace], [parse::<usize>], [chars]
    counting, ASCII case folding, and [join].  The Unicode White_Space
    characters are recognised by their UTF-8 encodings. *)

From S2P Require Import Prelude.

Implicit Types s t p : string.
Implicit Types c : ascii.

Definition bytes : string → list ascii := list_ascii_of_string.
Definition of_bytes : list ascii → string := string_of_list_ascii.

Lemma of_bytes_bytes s : of_bytes (bytes s) = s.
Proof. apply string_of_list_ascii_of_string. Qed.

Lemma bytes_of_bytes l : bytes (of_bytes l) = l.
Proof. apply list_ascii_of_string_of_list_ascii. Qed.

#[global] Instance bytes_inj : Inj (=) (=) bytes.
Proof. intros s t H. by rewrite <- (of_bytes_bytes s), H, of_bytes_bytes. Qed.

#[global] Instance of_bytes_inj : Inj (=) (=) of_bytes.
Proof. intros s t H. by rewrite <- (bytes_of_bytes s), H, bytes_of_bytes. Qed.

Lemma bytes_app s t : bytes (s +:+ t) = bytes s ++ bytes t.
Proof. induction s as [|c s IH]; simpl; [done|]. by f_equal. Qed.

Lemma of_bytes_app l k : of_bytes (l ++ k) = of_bytes l +:+ of_bytes k.
Proof. apply (inj bytes). by rewrite bytes_app, !bytes_of_bytes. Qed.

Lemma length_bytes s : length (bytes s) = String.length s.
Proof. induction s as [|c s IH]; simpl; [done|]. by f_equal. Qed.

Lemma str_app_assoc s t p : s +:+ (t +:+ p) = (s +:+ t) +:+ p.
Proof. apply (inj bytes). by rewrite !bytes_app, (assoc (++)). Qed.

Lemma str_app_nil_r s : s +:+ "" = s.
Proof. apply (inj bytes). by rewrite bytes_app, app_nil_r. Qed.

Lemma str_length_app s t :
  String.length (s +:+ t) = String.length s + String.length t.
Proof. by rewrite <- !length_bytes, bytes_app, length_app. Qed.

(** ** Characters *)

Definition newline : ascii := "010".
Definition cr : ascii := "013".
Definition code (c : ascii) : N := N_of_ascii c.
Definition nl : string := String newline "".
(** A double quote, built from its code. *)
Definition dquote : string := String (ascii_of_N 34) "".

Definition is_ascii_digit c : bool := (48 <=? code c)%N && (code c <=? 57)%N.

(** The one-byte characters of the Unicode White_Space property. *)
Definition ws1 c : bool :=
  ((9 <=? code c)%N && (code c <=? 13)%N) || (code c =? 32)%N.
(** U+0085 and U+00A0. *)
Definition ws2 c d : bool :=
  (code c =? 194)%N && ((code d =? 133)%N || (code d =? 160)%N).
(** U+1680, U+2000 to U+200A, U+2028, U+2029, U+202F, U+205F, U+3000. *)
Definition ws3 c d e : bool :=
  ((code c =? 225)%N && (code d =? 154)%N && (code e =? 128)%N)
  || ((code c =? 226)%N && (code d =? 128)%N
      && (((128 <=? code e)%N && (code e <=? 138)%N)
          || (code e =? 168)%N || (code e =? 169)%N || (code e =? 175)%N))
  || ((code c =? 226)%N && (code d =? 129)%N && (code e =? 159)%N)
  || ((code c =? 227)%N && (code d =? 128)%N && (code e =? 128)%N).

(** [char::to_ascii_lowercase], byte by byte. *)
Definition lower c : ascii :=
  if (65 <=? code c)%N && (code c <=? 90)%N then ascii_of_N (code c + 32) else c.
Definition to_ascii_lowercase s : string := of_bytes (map lower (bytes s)).

(** UTF-8 continuation bytes do not start a character. *)
Definition is_cont c : bool := (128 <=? code c)%N && (code c <? 192)%N.
Definition char_count s : nat := length (List.filter (λ c, negb (is_cont c)) (bytes s)).

(** [s.chars().take(n)]: the bytes before the start of the [n+1]st
    character. *)
Fixpoint take_chars_go (n : nat) (l : list ascii) : list ascii :=
  match l with
  | [] => []
  | c :: l' =>
      if is_cont c then c :: take_chars_go n l'
      else match n with 0 => [] | S n' => c :: take_chars_go n' l' end
  end.
Definition take_chars (n : nat) s : string := of_bytes (take_chars_go n (bytes s)).

(** The horizontal ellipsis, U+2026. *)
Definition ellipsis : string :=
  of_bytes [ascii_of_N 226; ascii_of_N 128; ascii_of_N 166].

(** ** Trimming *)

Fixpoint ltrim (l : list ascii) : list ascii :=
  match l with
  | c :: l1 =>
      if ws1 c then ltrim l1 else
      match l1 with
      | d :: l2 =>
          if ws2 c d then ltrim l2 else
          match l2 with
          | e :: l3 => if ws3 c d e then ltrim l3 else l
          | [] => l
          end
      | [] => l
      end
  | [] => []
  end.

(** On the reversed bytes. *)
Fixpoint ltrim_rev (l : list ascii) : list ascii :=
  match l with
  | c :: l1 =>
      if ws1 c then ltrim_rev l1 else
      match l1 with
      | d :: l2 =>
          if ws2 d c then ltrim_rev l2 else
          match l2 with
          | e :: l3 => if ws3 e d c then ltrim_rev l3 else l
          | [] => l
          end
      | [] => l
      end
  | [] => []
  end.

Definition rtrim (l : list ascii) : list ascii := reverse (ltrim_rev (reverse l)).
Definition trim_start s : string := of_bytes (ltrim (bytes s)).
Definition trim_end s : string := of_bytes (rtrim (bytes s)).
Definition trim s : string := of_bytes (rtrim (ltrim (bytes s))).

(** [s.trim().is_empty()]. *)
Definition is_blank s : bool := bool_decide (trim s = "").

(** [trim_start_matches(c)] and [trim_matches(c)] for an ASCII [c]. *)
Fixpoint drop_char (c : ascii) (l : list ascii) : list ascii :=
  match l with
  | d :: l' => if Ascii.eqb c d then drop_char c l' else l
  | [] => []
  end.
Definition trim_start_char c s : string := of_bytes (drop_char c (bytes s)).
Definition trim_end_char c s : string := of_bytes (reverse (drop_char c (reverse (bytes s)))).
Definition count_char c s : nat := length (List.filter (Ascii.eqb c) (bytes s)).
Definition trim_matches_char c s : string :=
  of_bytes (reverse (drop_char c (reverse (drop_char c (bytes s))))).

(** [ch.is_whitespace()] for some character. *)
Fixpoint has_whitespace_go (l : list ascii) : bool :=
  match l with
  | [] => false
  | c :: l1 =>
      ws1 c
      || match l1 with
         | d :: e :: _ => ws2 c d || ws3 c d e
         | [d] => ws2 c d
         | [] => false
         end
      || has_whitespace_go l1
  end.
Definition has_whitespace (s : string) : bool := has_whitespace_go (bytes s).

(** ** Splitting *)

(** [s.split(c)] for an ASCII [c]: never empty. *)
Fixpoint split_go (c : ascii) (cur : list ascii) (l : list ascii)
  : list (list ascii) :=
  match l with
  | [] => [reverse cur]
  | d :: l' =>
      if Ascii.eqb c d then reverse cur :: split_go c [] l'
      else split_go c (d :: cur) l'
  end.
Definition split_char c s : list string := map of_bytes (split_go c [] (bytes s)).

Definition strip_cr (l : list ascii) : list ascii :=
  match reverse l with
  | c :: l' => if Ascii.eqb c cr then reverse l' else l
  | [] => l
  end.

(** [str::lines]: the terminator of each line is dropped together with a
    carriage return before it; a last line without terminator is kept as it
    is, and an empty one is not a line. *)
Fixpoint lines_go (cur : list ascii) (l : list ascii) : list (list ascii) :=
  match l with
  | [] => match cur with [] => [] | _ => [reverse cur] end
  | d :: l' =>
      if Ascii.eqb newline d then strip_cr (reverse cur) :: lines_go [] l'
      else lines_go (d :: cur) l'
  end.
Definition lines s : list string := map of_bytes (lines_go [] (bytes s)).

(** [split_whitespace]: the maximal runs without White_Space characters. *)
Definition push_word (cur : list ascii) (ws : list (list ascii)) :=
  match cur with [] => ws | _ => reverse cur :: ws end.
Fixpoint words_go (cur : list ascii) (l : list ascii) : list (list ascii) :=
  match l with
  | [] => push_word cur []
  | c :: l1 =>
      if ws1 c then push_word cur (words_go [] l1) else
      match l1 with
      | d :: l2 =>
          if ws2 c d then push_word cur (words_go [] l2) else
          match l2 with
          | e :: l3 =>
              if ws3 c d e then push_word cur (words_go [] l3)
              else words_go (c :: cur) l1
          | [] => words_go (c :: cur) l1
          end
      | [] => words_go (c :: cur) l1
      end
  end.
Definition split_whitespace s : list string := map of_bytes (words_go [] (bytes s)).

(** ** Searching *)

Fixpoint strip_prefix p s : option string :=
  match p, s with
  | EmptyString, _ => Some s
  | String c p', String d s' =>
      if Ascii.eqb c d then strip_prefix p' s' else None
  | _, EmptyString => None
  end.

Definition starts_with p s : bool :=
  match strip_prefix p s with Some _ => true | None => false end.

Fixpoint contains p s : bool :=
  starts_with p s ||
  match s with EmptyString => false | String _ s' => contains p s' end.

Definition rev_str s : string := of_bytes (reverse (bytes s)).
Definition strip_suffix p s : option string :=
  rev_str <$> strip_prefix (rev_str p) (rev_str s).
Definition ends_with p s : bool :=
  match strip_suffix p s with Some _ => true | None => false end.

(** [s.split_once(c)] for an ASCII [c]. *)
Fixpoint split_once_go (c : ascii) (pre : list ascii) s : option (string * string) :=
  match s with
  | EmptyString => None
  | String d s' =>
      if Ascii.eqb c d then Some (of_bytes (reverse pre), s')
      else split_once_go c (d :: pre) s'
  end.
Definition split_once c s : option (string * string) := split_once_go c [] s.

(** [s.split_once(p)] for a string [p]. *)
Fixpoint split_once_str p s : option (string * string) :=
  match strip_prefix p s with
  | Some rest => Some ("", rest)
  | None =>
      match s with
      | EmptyString => None
      | String c s' =>
          match split_once_str p s' with
          | Some (before, after) => Some (String c before, after)
          | None => None
          end
      end
  end.

(** [s.split(p).next()]: the text before the first occurrence of [p] (all of
    it when there is none), for a non-empty [p]. *)
Fixpoint before_first p s : string :=
  if starts_with p s then ""
  else match s with EmptyString => "" | String c s' => String c (before_first p s') end.

(** [s.replace(c, t)] for an ASCII [c]. *)
Fixpoint replace_char c t s : string :=
  match s with
  | EmptyString => ""
  | String d s' =>
      if Ascii.eqb c d then t +:+ replace_char c t s' else String d (replace_char c t s')
  end.

(** [v.join(sep)]. *)
Fixpoint join_with (sep : string) (l : list string) : string :=
  match l with
  | [] => ""
  | [s] => s
  | s :: l' => s +:+ sep +:+ join_with sep l'
  end.

Definition concat_str (l : list string) : string := foldr String.append "" l.

(** ** Decimal numbers: [str::parse::<usize>] on a 64-bit target *)

Definition digit_val c : N := code c - 48.
Fixpoint digits_go (acc : N) (l : list ascii) : option N :=
  match l with
  | [] => Some acc
  | c :: l' =>
      if is_ascii_digit c then
        let acc' := (acc * 10 + digit_val c)%N in
        if (acc' <=? u64_max)%N then digits_go acc' l' else None
      else None
  end.
Definition parse_usize s : option N :=
  match bytes s with
  | [] => None
  | c :: l =>
      if (code c =? 43)%N then match l with [] => None | _ => digits_go 0 l end
      else digits_go 0 (c :: l)
  end.

(** ** Case, prefixes and lines *)

Lemma lower_idemp c : lower (lower c) = lower c.
Proof. destruct c as [[] [] [] [] [] [] [] []]; reflexivity. Qed.
Lemma to_ascii_lowercase_idemp s : to_ascii_lowercase (to_ascii_lowercase s) = to_ascii_lowercase s.
Proof.
  unfold to_ascii_lowercase. rewrite bytes_of_bytes, map_map. f_equal. apply map_ext, lower_idemp.
Qed.

Lemma strip_prefix_app p r : strip_prefix p (p +:+ r) = Some r.
Proof. induction p as [|c p IH]; simpl; [done|]. by rewrite Ascii.eqb_refl. Qed.

Lemma strip_prefix_Some p s r : strip_prefix p s = Some r ↔ s = p +:+ r.
Proof.
  split; [|intros ->; apply strip_prefix_app].
  revert s. induction p as [|c p IH]; intros [|d s]; simpl; try naive_solver.
  destruct (Ascii.eqb_spec c d) as [->|]; [|done]. intros ->%IH. done.
Qed.

Lemma lines_go_line cur l r :
  newline ∉ l →
  lines_go cur (l ++ newline :: r) = strip_cr (reverse cur ++ l) :: lines_go [] r.
Proof.
  revert cur. induction l as [|c l IH]; intros cur Hl; cbn [lines_go app].
  { by rewrite app_nil_r. }
  apply not_elem_of_cons in Hl as [Hne Hl].
  destruct (Ascii.eqb_spec newline c); [done|].
  rewrite IH by done. by rewrite reverse_cons, <- (assoc (++)).
Qed.
