(* ===== verification/FsModel.v ===== *)
(** * The file system, the world and the effect monad

    Paths are lists of components below the root directory; [join] is
    [Path::join] on Unix ([/] separates, empty and [.] components vanish, an
    absolute argument replaces the base, [..] stays a component and is
    interpreted when the path is resolved).  A file system maps paths to
    regular files, directories and symbolic links; [resolve] is the kernel's
    path walk, with its limit of 40 links.  The pure functions [fs_*] are the
    calls of [std::fs] that the crates make, with the errors they return; the
    monad [M] threads the world (file system, clock ticks, drawn UUIDs)
    through a Rust function and keeps the effects made before an error. *)

From S2P Require Import Prelude RustStr.

(** ** Paths *)

Abbreviation path := (list string).

Definition comps (s : string) : path :=
  List.filter (λ c, negb (String.eqb c "") && negb (String.eqb c "."))
    (split_char "/" s).

Definition is_absolute (s : string) : bool := starts_with "/" s.

(** [Path::join]. *)
Definition join (p : path) (s : string) : path :=
  if is_absolute s then comps s else p ++ comps s.

(** [Path::parent]. *)
Definition parent (p : path) : option path :=
  match p with [] => None | _ => Some (removelast p) end.

(** [Path::file_name]. *)
Definition file_name (p : path) : option string :=
  match last p with
  | Some c => if String.eqb c ".." then None else Some c
  | None => None
  end.

(** [Path::file_stem]: the name up to its last dot, unless that is its first
    character; [..] has no file name. *)
Definition file_stem (p : path) : option string :=
  name ← file_name p;
  Some match split_once "." (rev_str name) with
       | Some (_, before) => if String.eqb before "" then name else rev_str before
       | None => name
       end.

(** [to_string_lossy] and [display]. *)
Definition display (p : path) : string := "/" +:+ join_with "/" p.

(** [Path::strip_prefix]. *)
Fixpoint strip_path (r p : path) : option path :=
  match r, p with
  | [], _ => Some p
  | c :: r', d :: p' => if String.eqb c d then strip_path r' p' else None
  | _, [] => None
  end.

(** A component that [join] appends as it is. *)
Definition plain_name (s : string) : bool :=
  negb (String.eqb s "") && negb (String.eqb s ".") && negb (String.eqb s "..")
  && negb (existsb (Ascii.eqb "/") (bytes s)).

Definition no_dotdot (p : path) : Prop := Forall (λ c, c ≠ "..") p.

(** ** File systems *)

Inductive node :=
| File (content : string)
| Dir
| Link (target : path).

#[global] Instance node_eq_dec : EqDecision node.
Proof. solve_decision. Defined.

Abbreviation fsys := (gmap path node).

(** [std::io::ErrorKind], the kinds the modelled calls return. *)
Inductive io_kind :=
| NotFound | AlreadyExists | NotADirectory | IsADirectory
| InvalidInput | InvalidData | FilesystemLoop | OtherIo.

#[global] Instance io_kind_eq_dec : EqDecision io_kind.
Proof. solve_decision. Defined.

(** The root directory always exists. *)
Definition look (fs : fsys) (p : path) : option node :=
  match p with [] => Some Dir | _ => fs !! p end.

Definition max_links : nat := 40.

(** The walk from the directory [cur] along [rest]; every component but the
    last must be a directory, the last one need not exist.  A link is
    replaced by its target, at most [links] times. *)
Fixpoint resolve_go (links : nat) (fs : fsys) : path → path → io_kind + path :=
  fix go (cur rest : path) : io_kind + path :=
    match rest with
    | [] => inr cur
    | c :: rest' =>
        if String.eqb c ".." then go (removelast cur) rest' else
        match fs !! (cur ++ [c]) with
        | Some (Link t) =>
            match links with
            | O => inl FilesystemLoop
            | S links' => resolve_go links' fs [] (t ++ rest')
            end
        | Some Dir => go (cur ++ [c]) rest'
        | Some (File _) =>
            match rest' with [] => inr (cur ++ [c]) | _ => inl NotADirectory end
        | None =>
            match rest' with [] => inr (cur ++ [c]) | _ => inl NotFound end
        end
    end.

Definition resolve (fs : fsys) (p : path) : io_kind + path :=
  resolve_go max_links fs [] p.

(** [resolve] that does not follow a link in the last component. *)
Definition lresolve (fs : fsys) (p : path) : io_kind + path :=
  match last p with
  | None => inr []
  | Some c =>
      if String.eqb c ".." then resolve fs p else
      match resolve fs (removelast p) with
      | inl k => inl k
      | inr d =>
          match look fs d with
          | Some Dir => inr (d ++ [c])
          | Some _ => inl NotADirectory
          | None => inl NotFound
          end
      end
  end.

(** [fs::metadata] and [fs::symlink_metadata]. *)
Definition stat (fs : fsys) (p : path) : io_kind + (path * node) :=
  match resolve fs p with
  | inl k => inl k
  | inr q => match look fs q with Some n => inr (q, n) | None => inl NotFound end
  end.
Definition lstat (fs : fsys) (p : path) : io_kind + node :=
  match lresolve fs p with
  | inl k => inl k
  | inr q => match look fs q with Some n => inr n | None => inl NotFound end
  end.

Definition fs_exists (fs : fsys) (p : path) : bool :=
  match stat fs p with inr _ => true | inl _ => false end.
Definition fs_is_file (fs : fsys) (p : path) : bool :=
  match stat fs p with inr (_, File _) => true | _ => false end.
Definition fs_is_dir (fs : fsys) (p : path) : bool :=
  match stat fs p with inr (_, Dir) => true | _ => false end.

(** [fs::read]. *)
Definition fs_read (fs : fsys) (p : path) : io_kind + string :=
  match stat fs p with
  | inl k => inl k
  | inr (_, File s) => inr s
  | inr _ => inl IsADirectory
  end.

(** [fs::read_to_string]. *)
Definition utf8_in (lo hi : N) (c : ascii) : bool :=
  (lo <=? code c)%N && (code c <=? hi)%N.

(** The length of the well-formed character ([inr]) or of the maximal
    ill-formed prefix ([inl]) at the head of a byte list. *)
Definition utf8_step (b : ascii) (l : list ascii) : nat + nat :=
  let cont := utf8_in 128 191 in
  let three (ok2 : ascii → bool) :=
    match l with
    | c :: l' => if ok2 c then
                   match l' with d :: _ => if cont d then inr 3 else inl 2 | [] => inl 2 end
                 else inl 1
    | [] => inl 1
    end in
  let four (ok2 : ascii → bool) :=
    match l with
    | c :: l' =>
        if ok2 c then
          match l' with
          | d :: l'' =>
              if cont d then
                match l'' with e :: _ => if cont e then inr 4 else inl 3 | [] => inl 3 end
              else inl 2
          | [] => inl 2
          end
        else inl 1
    | [] => inl 1
    end in
  if utf8_in 0 127 b then inr 1
  else if utf8_in 194 223 b then
    match l with c :: _ => if cont c then inr 2 else inl 1 | [] => inl 1 end
  else if (code b =? 224)%N then three (utf8_in 160 191)
  else if (code b =? 237)%N then three (utf8_in 128 159)
  else if utf8_in 225 239 b then three cont
  else if (code b =? 240)%N then four (utf8_in 144 191)
  else if (code b =? 244)%N then four (utf8_in 128 143)
  else if utf8_in 241 243 b then four cont
  else inl 1.

Fixpoint utf8_valid_go (skip : nat) (l : list ascii) : bool :=
  match l with
  | [] => true
  | b :: l' =>
      match skip with
      | S k => utf8_valid_go k l'
      | O => match utf8_step b l' with
             | inr n => utf8_valid_go (pred n) l'
             | inl _ => false
             end
      end
  end.
Definition utf8_valid (s : string) : bool := utf8_valid_go 0 (bytes s).

(** U+FFFD. *)
Definition replacement_char : list ascii :=
  [ascii_of_N 239; ascii_of_N 191; ascii_of_N 189].

(** [String::from_utf8_lossy]: each ill-formed maximal prefix becomes one
    U+FFFD.  [keep] bytes are copied and then [skip] bytes are dropped. *)
Fixpoint lossy_go (keep skip : nat) (l : list ascii) : list ascii :=
  match l with
  | [] => []
  | b :: l' =>
      match keep, skip with
      | S k, _ => b :: lossy_go k skip l'
      | O, S k => lossy_go O k l'
      | O, O => match utf8_step b l' with
                | inr n => b :: lossy_go (pred n) O l'
                | inl n => replacement_char ++ lossy_go O (pred n) l'
                end
      end
  end.
Definition from_utf8_lossy (s : string) : string := of_bytes (lossy_go 0 0 (bytes s)).

Definition fs_read_to_string (fs : fsys) (p : path) : io_kind + string :=
  match fs_read fs p with
  | inl k => inl k
  | inr s => if utf8_valid s then inr s else inl InvalidData
  end.

(** [fs::write]: creates or truncates. *)
Definition fs_write (fs : fsys) (p : path) (s : string) : io_kind + fsys :=
  match resolve fs p with
  | inl k => inl k
  | inr q =>
      match look fs q with
      | Some Dir => inl IsADirectory
      | _ => inr (<[q := File s]> fs)
      end
  end.

(** [OpenOptions::new().create(true).append(true)] then [write_all]. *)
Definition fs_append (fs : fsys) (p : path) (s : string) : io_kind + fsys :=
  match resolve fs p with
  | inl k => inl k
  | inr q =>
      match look fs q with
      | Some Dir => inl IsADirectory
      | Some (File old) => inr (<[q := File (old +:+ s)]> fs)
      | _ => inr (<[q := File s]> fs)
      end
  end.

(** [fs::remove_file]: removes the entry itself, not what a link points to. *)
Definition fs_remove_file (fs : fsys) (p : path) : io_kind + fsys :=
  match lresolve fs p with
  | inl k => inl k
  | inr q =>
      match look fs q with
      | None => inl NotFound
      | Some Dir => inl IsADirectory
      | Some _ => inr (delete q fs)
      end
  end.

(** [fs::copy]: the source must be a regular file; the destination is opened
    with truncation before the source is read, so copying a file onto itself
    empties it. *)
Definition fs_copy (fs : fsys) (src dst : path) : io_kind + fsys :=
  match stat fs src with
  | inl k => inl k
  | inr (qs, File s) =>
      match resolve fs dst with
      | inl k => inl k
      | inr qd =>
          match look fs qd with
          | Some Dir => inl IsADirectory
          | _ => inr (<[qd := File (if bool_decide (qs = qd) then "" else s)]> fs)
          end
      end
  | inr _ => inl InvalidInput
  end.

(** [fs::create_dir_all]: existing directories (or links to directories) on
    the way are kept, missing ones are created. *)
Fixpoint mkdirs (fs : fsys) (cur rest : path) : io_kind + fsys :=
  match rest with
  | [] => inr fs
  | c :: rest' =>
      if String.eqb c ".." then mkdirs fs (removelast cur) rest' else
      match fs !! (cur ++ [c]) with
      | None => mkdirs (<[cur ++ [c] := Dir]> fs) (cur ++ [c]) rest'
      | Some Dir => mkdirs fs (cur ++ [c]) rest'
      | Some (File _) => inl (match rest' with [] => AlreadyExists | _ => NotADirectory end)
      | Some (Link t) =>
          match stat fs (cur ++ [c]) with
          | inr (q, Dir) => mkdirs fs q rest'
          | inr _ => inl NotADirectory
          | inl k => inl (match k with NotFound => AlreadyExists | _ => k end)
          end
      end
  end.
Definition fs_create_dir_all (fs : fsys) (p : path) : io_kind + fsys :=
  mkdirs fs [] p.

(** [std::os::unix::fs::symlink(target, at)]. *)
Definition fs_symlink (fs : fsys) (target at_ : path) : io_kind + fsys :=
  match lresolve fs at_ with
  | inl k => inl k
  | inr q =>
      match look fs q with
      | Some _ => inl AlreadyExists
      | None => inr (<[q := Link target]> fs)
      end
  end.

(** [WalkDir::new(root).follow_links(false)]: the root and everything below
    it, as paths relative to the root.  The order in which a directory lists
    its entries is not specified by the operating system; no modelled caller
    depends on it. *)
Definition fs_walk (fs : fsys) (root : path) : io_kind + list (path * node) :=
  match stat fs root with
  | inl k => inl k
  | inr (q, n) =>
      inr (([], n) :: omap (λ '(p, m), match strip_path q p with
                                       | Some (c :: rel) => Some (c :: rel, m)
                                       | _ => None
                                       end) (map_to_list fs))
  end.

(** [fs::read_dir]: the names of the direct entries. *)
Definition fs_read_dir (fs : fsys) (p : path) : io_kind + list string :=
  match stat fs p with
  | inl k => inl k
  | inr (q, Dir) =>
      inr (omap (λ '(r, _), match strip_path q r with
                            | Some [c] => Some c
                            | _ => None
                            end) (map_to_list fs))
  | inr _ => inl NotADirectory
  end.

(** The text [io::Error] displays for these kinds on Linux. *)
Definition io_message (k : io_kind) : string :=
  match k with
  | NotFound => "No such file or directory (os error 2)"
  | AlreadyExists => "File exists (os error 17)"
  | NotADirectory => "Not a directory (os error 20)"
  | IsADirectory => "Is a directory (os error 21)"
  | InvalidInput =>
      "the source path is neither a regular file nor a symlink to a regular file"
  | InvalidData => "stream did not contain valid UTF-8"
  | FilesystemLoop => "Too many levels of symbolic links (os error 40)"
  | OtherIo => "Input/output error (os error 5)"
  end.
