(* ===== verification/World.v ===== *)
(** * The code outside the repository, effects and serialization

    The parameters that stand for code the repository does not contain, the
    monad of the engine's operations, and the interfaces through which
    records are serialized. *)

From S2P Require Import Prelude RustStr FsModel.

(** * The world, the code outside the repository, and the effect monad *)

(** ** Code outside the repository

    What the crates call and the repository does not contain is an argument
    of the model: the digest of the [sha2] crate, the clock and its formatting
    ([chrono]), random identifiers ([uuid]), the process environment, the
    [git] executable and the shell.  Successive readings of the clock and
    successive identifiers are indexed by the number of earlier ones. *)

(** [std::process::Output]; the exit code is [None] for a process ended by a
    signal, and [out_status] is the text the exit status displays. *)
Record cmd_output := {
  out_code : option Z;
  out_status : string;
  out_stdout : string;
  out_stderr : string
}.

(** [ExitStatus::success]. *)
Definition success (o : cmd_output) : bool := bool_decide (out_code o = Some 0%Z).

(** One event of the output of a child process: a line read from one of its
    two pipes ([true] is the standard output), or the end of one pipe. *)
Inductive pipe_event :=
| PipeLine (is_stdout : bool) (text : string)
| PipeClosed.

Class Sys := {
  (** [format!("{:x}", Sha256::digest(bytes))] *)
  sha256_hex : string → string;
  (** [Utc::now()], in nanoseconds *)
  utc_now : nat → Z;
  (** [DateTime::format("%Y-%m-%d_%H%M")] *)
  format_minute : Z → string;
  (** [Uuid::new_v4().to_string()] *)
  uuid_v4 : nat → string;
  (** [env::var_os] *)
  env_var : string → option string;
  (** [git <args>] run in a directory *)
  git_run : path → list string → fsys → (io_kind + cmd_output) * fsys;
  (** [sh -lc <command>] run in a directory with extra environment: the pipe
      events in the order they arrive and the exit code *)
  shell_run : path → gmap string string → string → fsys →
              (io_kind + (list pipe_event * option Z)) * fsys;
  (** [toml::to_string] of a table of strings under a two-level key *)
  toml_shell_policy : string → gmap string string → option string
}.

(** ** The world and the monad *)

Record world := World {
  w_fs : fsys;
  w_ticks : nat;
  w_uuids : nat
}.

Definition set_fs (fs : fsys) (w : world) : world :=
  {| w_fs := fs; w_ticks := w_ticks w; w_uuids := w_uuids w |}.

Definition M (E A : Type) : Type := world → outcome E A * world.

(** [From<std::io::Error>] for an error type. *)
Class FromIo (E : Type) := from_io : io_kind → E.

#[global] Instance M_ret E : MRet (M E) := λ A a w, (Ok a, w).
#[global] Instance M_bind E : MBind (M E) := λ A B f m w,
  match m w with
  | (Ok a, w') => f a w'
  | (Err e, w') => (Err e, w')
  | (Panic s, w') => (Panic s, w')
  end.
#[global] Instance M_fmap E : FMap (M E) := λ A B f m w,
  match m w with
  | (Ok a, w') => (Ok (f a), w')
  | (Err e, w') => (Err e, w')
  | (Panic s, w') => (Panic s, w')
  end.

Section prims.
Context {E : Type}.

Definition throw {A} (e : E) : M E A := λ w, (Err e, w).
Definition panic {A} (why : string) : M E A := λ w, (Panic why, w).

(** [Result] as a value: [.ok()], [.is_ok()], [let _ = ...]. *)
Definition attempt {E' A} (m : M E' A) : M E (E' + A) := λ w,
  match m w with
  | (Ok a, w') => (Ok (inr a), w')
  | (Err e, w') => (Ok (inl e), w')
  | (Panic s, w') => (Panic s, w')
  end.

(** [m] with a guard whose [Drop] runs [fin] however [m] ends. *)
Definition finally {A} (m : M E A) (fin : fsys → fsys) : M E A := λ w,
  let (r, w') := m w in (r, set_fs (fin (w_fs w')) w').

(** [opt.ok_or_else(e)?]. *)
Definition ok_or {A} (o : option A) (e : E) : M E A :=
  match o with Some a => mret a | None => throw e end.

(** A [for] loop over a list with an accumulator. *)
Fixpoint foldM {A B} (f : B → A → M E B) (acc : B) (l : list A) : M E B :=
  match l with
  | [] => mret acc
  | x :: l' => acc' ← f acc x; foldM f acc' l'
  end.

Definition forM_ {A} (l : list A) (f : A → M E unit) : M E unit :=
  foldM (λ _ x, f x) tt l.

Definition get_fs : M E fsys := λ w, (Ok (w_fs w), w).

Context `{Sys}.
Definition now : M E Z := λ w,
  (Ok (utc_now (w_ticks w)),
   {| w_fs := w_fs w; w_ticks := S (w_ticks w); w_uuids := w_uuids w |}).
Definition new_uuid : M E string := λ w,
  (Ok (uuid_v4 (w_uuids w)),
   {| w_fs := w_fs w; w_ticks := w_ticks w; w_uuids := S (w_uuids w) |}).

Context `{FromIo E}.
Definition lift_fs (f : fsys → io_kind + fsys) : M E unit := λ w,
  match f (w_fs w) with
  | inr fs => (Ok tt, set_fs fs w)
  | inl k => (Err (from_io k), w)
  end.
Definition lift_read {A} (f : fsys → io_kind + A) : M E A := λ w,
  match f (w_fs w) with
  | inr a => (Ok a, w)
  | inl k => (Err (from_io k), w)
  end.
Definition lift_cmd {A} (f : fsys → (io_kind + A) * fsys) : M E A := λ w,
  match f (w_fs w) with
  | (inr a, fs) => (Ok a, set_fs fs w)
  | (inl k, fs) => (Err (from_io k), set_fs fs w)
  end.

Definition exists_ (p : path) : M E bool := λ w, (Ok (fs_exists (w_fs w) p), w).
Definition is_file (p : path) : M E bool := λ w, (Ok (fs_is_file (w_fs w) p), w).
Definition is_dir (p : path) : M E bool := λ w, (Ok (fs_is_dir (w_fs w) p), w).
Definition read (p : path) : M E string := lift_read (λ fs, fs_read fs p).
Definition read_to_string (p : path) : M E string :=
  lift_read (λ fs, fs_read_to_string fs p).
Definition write (p : path) (s : string) : M E unit :=
  lift_fs (λ fs, fs_write fs p s).
Definition append_file (p : path) (s : string) : M E unit :=
  lift_fs (λ fs, fs_append fs p s).
Definition remove_file (p : path) : M E unit := lift_fs (λ fs, fs_remove_file fs p).
Definition copy (src dst : path) : M E unit := lift_fs (λ fs, fs_copy fs src dst).
Definition create_dir_all (p : path) : M E unit :=
  lift_fs (λ fs, fs_create_dir_all fs p).
Definition symlink (target at_ : path) : M E unit :=
  lift_fs (λ fs, fs_symlink fs target at_).
Definition walk_dir (root : path) : M E (list (path * node)) :=
  lift_read (λ fs, fs_walk fs root).
Definition read_dir (p : path) : M E (list string) :=
  lift_read (λ fs, fs_read_dir fs p).

(** [if let Some(parent) = path.parent() { fs::create_dir_all(parent)?; }]. *)
Definition create_parent (p : path) : M E unit :=
  match parent p with Some d => create_dir_all d | None => mret tt end.
End prims.

(** * Serialization interfaces

    [serde_json::Value], the [Serialize] side of the types that appear in
    timeline payloads, and the interface [Serde] through which the crates
    persist their records: [serde_json::to_vec_pretty] /
    [serde_json::from_slice] for whole files and [serde_json::to_string] /
    [serde_json::from_str] for the lines of the timeline.  The clients use
    the records only through the laws of [SerdeOk]: what is written is read
    back, and a compact encoding is one non-blank line of UTF-8 text. *)

(** [serde_json::Value]. *)
Inductive json :=
| JNull
| JBool (b : bool)
| JNum (z : Z)
| JStr (s : string)
| JArr (l : list json)
| JObj (fields : list (string * json)).

(** [serde::Serialize] into a [Value]. *)
Class Serialize (A : Type) := to_value : A → json.

#[global] Instance ser_json : Serialize json := λ v, v.
#[global] Instance ser_bool : Serialize bool := JBool.
#[global] Instance ser_string : Serialize string := JStr.
#[global] Instance ser_N : Serialize N := λ n, JNum (Z.of_N n).
#[global] Instance ser_nat : Serialize nat := λ n, JNum (Z.of_nat n).
#[global] Instance ser_Z : Serialize Z := JNum.
#[global] Instance ser_option {A} `{Serialize A} : Serialize (option A) :=
  λ o, match o with Some a => to_value a | None => JNull end.
#[global] Instance ser_list {A} `{Serialize A} : Serialize (list A) :=
  λ l, JArr (map to_value l).
(** [PathBuf]. *)
Definition ser_path (p : path) : json := JStr (display p).

(** [value.get(key)] on an object. *)
Definition json_get (key : string) (v : json) : option json :=
  match v with
  | JObj fields => snd <$> find_first (λ kv, String.eqb key (fst kv)) fields
  | _ => None
  end.

(** Whole-file and one-line encodings of a type, and their laws. *)
Class Serde (A : Type) := {
  to_vec_pretty : A → string;
  from_slice : string → option A;
  to_line : A → string;
  from_line : string → option A
}.

Class SerdeOk (A : Type) `{Serde A} := {
  from_slice_to_vec a : from_slice (to_vec_pretty a) = Some a;
  from_line_to_line a : from_line (to_line a) = Some a;
  to_line_no_newline a : newline ∉ bytes (to_line a);
  to_line_no_cr a : cr ∉ bytes (to_line a);
  to_line_not_blank a : is_blank (to_line a) = false;
  to_line_utf8 a : utf8_valid (to_line a) = true
}.

#[export] Hint Rewrite @from_slice_to_vec @from_line_to_line : rust.
