(* ===== verification/Models.v ===== *)
(** * Data model of codex-new-core

    The records and enumerations of [models.rs], [manifest.rs], [error.rs],
    [traceback.rs] and [workspace.rs].  [String] is [string], [PathBuf] is
    [path], [DateTime<Utc>] is a number of nanoseconds, [usize], [u64] and
    [u32] are [N], counts of list elements are [nat]. *)

From S2P Require Import Prelude RustStr FsModel World.

(** ** error.rs *)

Inductive CodexNewError :=
| PathOutsideProject (p : string)
| MergeConflictErr (p : string) (expected found : option string)
| RollbackConflict (p : string) (expected found : option string)
| GitErr (message : string)
| Io (kind : io_kind)
| Json
| Other (message : string).

#[global] Instance codex_from_io : FromIo CodexNewError := Io.

(** The crate's [Result<T>], with its effects. *)
Abbreviation R := (M CodexNewError).

(** ** models.rs: projects and tasks *)

Inductive WorkspaceStrategy := Auto | Worktree | Copy.

#[global] Instance WorkspaceStrategy_eq_dec : EqDecision WorkspaceStrategy.
Proof. solve_decision. Defined.

Record ProjectSettings := {
  workspace_strategy : WorkspaceStrategy;
  keep_days : N;
  require_review : bool;
  require_tests : bool;
  protect_sensitive_files : bool;
  default_test_commands : list string
}.

Definition ProjectSettings_default : ProjectSettings := {|
  workspace_strategy := Auto;
  keep_days := 30;
  require_review := true;
  require_tests := false;
  protect_sensitive_files := true;
  default_test_commands := []
|}.

Record ProjectRecord := {
  proj_id : string;
  proj_name : string;
  root_path : path;
  proj_created_at : Z;
  proj_updated_at : Z;
  git_root : option path;
  default_branch : option string;
  settings : ProjectSettings
}.

Inductive TaskStatus :=
| Created | PreparingWorkspace | WorkspaceReady | AgentQueued | AgentRunning
| AgentInterrupted | AgentFailed | ChangesDetected | SummaryReady
| ReviewPending | Reviewing | ReviewBlocked | ReviewPassed | ReviewFailed
| TestingPending | TestingRunning | TestingPassed | TestingFailed
| MergeQueued | MergeReady | Merging | Merged | RollbackAvailable
| RollingBack | RollbackFailed | WorkspaceConflict | MergeConflict
| EnvironmentBroken | Superseded | Abandoned | Archived.

#[global] Instance TaskStatus_eq_dec : EqDecision TaskStatus.
Proof. solve_decision. Defined.

(** [TaskStatus::is_terminal]. *)
Definition is_terminal (s : TaskStatus) : bool :=
  match s with
  | Merged | Superseded | Abandoned | Archived => true
  | _ => false
  end.

Record TaskRecord := {
  task_id : string;
  task_project_id : string;
  task_title : string;
  task_status : TaskStatus;
  task_original_root : path;
  task_workspace_root : path;
  task_created_at : Z;
  task_updated_at : Z;
  task_completed_at : option Z;
  task_manifest_path : path;
  task_summary_path : path
}.

Inductive ChangedFileStatus := Added | Modified | Deleted.

#[global] Instance ChangedFileStatus_eq_dec : EqDecision ChangedFileStatus.
Proof. solve_decision. Defined.

Record ChangedFile := {
  cf_path : string;
  cf_status : ChangedFileStatus;
  before_hash : option string;
  after_ai_hash : option string;
  after_merge_hash : option string;
  merged_hunks : option (list N);
  accepted : bool;
  merge_status : string
}.

#[global] Instance ChangedFile_eq_dec : EqDecision ChangedFile.
Proof. solve_decision. Defined.

(** ** models.rs: the timeline *)

Inductive TimelineEventKind :=
| WorkspaceCreated | AgentStarted | AgentCompleted | AgentPlan | AgentNote
| FileRead | FileEditStarted | FileEditCompleted | DiffGenerated
| DiffUpdated | CommandStarted | CommandOutput | CommandCompleted
| ReviewCompleted | TestStarted | TestCompleted | MergeStarted
| MergeCompleted | RollbackCompleted | ErrorEvent | SummaryGenerated.

#[global] Instance TimelineEventKind_eq_dec : EqDecision TimelineEventKind.
Proof. solve_decision. Defined.

Record TimelineEvent := {
  ev_id : string;
  ev_task_id : string;
  ev_seq : N;
  ev_kind : TimelineEventKind;
  ev_created_at : Z;
  ev_payload : json
}.

Record TaskActivityFeed := {
  feed_task_id : string;
  latest_seq : N;
  feed_events : list TimelineEvent
}.

(** ** models.rs: merge and rollback requests *)

Record HunkSelection := { hs_path : string; hunk_index : N }.
Record LineSelection := { ls_path : string; ls_line : N }.

Inductive MergeSelection :=
| MAll
| MFiles (paths : list string)
| MHunks (hunks : list HunkSelection)
| MLines (lines : list LineSelection).

Inductive RollbackSelection :=
| RAll
| RFiles (paths : list string)
| RHunks (hunks : list HunkSelection).

Record MergeRequest := { mr_selection : MergeSelection }.
Record RollbackRequest := { rr_selection : RollbackSelection }.

Record MergeOutcome := {
  mo_task_id : string;
  accepted_paths : list string;
  skipped_paths : list string;
  mo_changed_files : list ChangedFile
}.

Record RollbackOutcome := {
  ro_task_id : string;
  restored_paths : list string;
  ro_skipped_paths : list string
}.

Record TestOutcome := {
  command_run_id : string;
  to_command : string;
  to_environment : string;
  to_status : string;
  to_exit_code : option Z;
  to_stdout_path : path;
  to_stderr_path : path
}.

Inductive TaskReusePolicy :=
| ReuseActive
| ForceNew
| ForkFromTask (fork_task_id : string).

Record ConversationBinding := {
  cb_project_id : string;
  cb_conversation_id : string;
  active_task_id : option string;
  cb_created_at : Z;
  cb_updated_at : Z
}.

(** ** models.rs: environments *)

Inductive EnvironmentStrategy :=
| InheritProject | InheritTask | RebindAuto | ManualProfile.

Inductive SharedPathKind :=
| VirtualEnv | NodeModules | Toolchain | Cache | Wrapper | OtherShared.

#[global] Instance EnvironmentStrategy_eq_dec : EqDecision EnvironmentStrategy.
Proof. solve_decision. Defined.
#[global] Instance SharedPathKind_eq_dec : EqDecision SharedPathKind.
Proof. solve_decision. Defined.

Record SharedPathMount := {
  mount_kind : SharedPathKind;
  mount_source : path;
  target_hint : option path;
  read_only : bool
}.

Record DetectedTool := {
  ecosystem : string;
  tool_name : string;
  executable : path;
  version_hint : option string
}.

Record EnvironmentValidation := {
  is_valid : bool;
  checked_at : Z;
  notes : list string
}.

Record EnvironmentBinding := {
  profile_id : string;
  eb_project_id : string;
  eb_workspace_root : path;
  environment_root : path;
  eb_strategy : EnvironmentStrategy;
  fingerprint : string;
  detected_at : Z;
  env_vars : gmap string string;
  path_entries : list path;
  shared_paths : list SharedPathMount;
  detected_tools : list DetectedTool;
  validation : EnvironmentValidation
}.

(** ** models.rs: summaries and memory *)

Record CandidateMemory := {
  cm_kind : string;
  cm_title : string;
  cm_detail : string;
  evidence_paths : list string
}.

Record StructuredTaskSummary := {
  sum_task_id : string;
  user_goal : string;
  ai_result : string;
  files_changed : list string;
  decisions : list string;
  sum_tests : list string;
  risks : list string;
  blockers : list string;
  recovery_hints : list string;
  candidate_memory : list CandidateMemory
}.

Inductive CandidateMemoryStatus := Pending | Same | CompatibleUpdate | Conflict.

#[global] Instance CandidateMemoryStatus_eq_dec : EqDecision CandidateMemoryStatus.
Proof. solve_decision. Defined.

Record CandidateMemoryRecord := {
  cmr_id : string;
  candidate : CandidateMemory;
  cmr_status : CandidateMemoryStatus
}.

Record ProjectMemoryRecord := {
  pm_id : string;
  pm_kind : string;
  pm_title : string;
  pm_detail : string;
  pm_evidence_paths : list string;
  pm_updated_at : Z
}.

Record MemoryApplyOutcome := {
  applied : list string;
  skipped : list string;
  conflicts : list string
}.

(** ** models.rs: diffs *)

Record DiffStats := {
  ds_changed_files : nat;
  added_files : nat;
  modified_files : nat;
  deleted_files : nat
}.

Record DiffHunk := {
  dh_header : string;
  before_start : N;
  before_lines : N;
  after_start : N;
  after_lines : N;
  dh_preview : list string
}.

Record FileDiff := {
  fd_path : string;
  fd_status : ChangedFileStatus;
  is_binary : bool;
  is_lockfile_fd : bool;
  fd_hunks : list DiffHunk
}.

Record RiskMarker := {
  rm_kind : string;
  rm_path : option string;
  rm_message : string
}.

Record DiffBundle := {
  db_files : list FileDiff;
  db_stats : DiffStats;
  risk_markers : list RiskMarker
}.

(** ** models.rs: reviews *)

Inductive ReviewSeverity := Info | Warning | High.
#[global] Instance ReviewSeverity_eq_dec : EqDecision ReviewSeverity.
Proof. solve_decision. Defined.
Inductive ReviewDisposition := Informational | NeedsUserApproval | Blocked.

#[global] Instance ReviewDisposition_eq_dec : EqDecision ReviewDisposition.
Proof. solve_decision. Defined.

Record ReviewIssue := {
  severity : ReviewSeverity;
  ri_path : option string;
  ri_message : string
}.

Record ReviewReport := {
  disposition : ReviewDisposition;
  issues : list ReviewIssue;
  rr_summary : string
}.

(** ** models.rs: commands *)

Inductive CommandExecutionKind := Generic | TestKind.

#[global] Instance CommandExecutionKind_eq_dec : EqDecision CommandExecutionKind.
Proof. solve_decision. Defined.

Inductive CommandRunStatus := Running | Succeeded | Failed.

#[global] Instance CommandRunStatus_eq_dec : EqDecision CommandRunStatus.
Proof. solve_decision. Defined.

Inductive CommandOutputStream := Stdout | Stderr.

Record CommandExecutionRequest := {
  rq_command : string;
  use_environment_binding : bool;
  env_overrides : gmap string string;
  rq_profile_id : option string;
  rq_title : option string;
  rq_kind : CommandExecutionKind;
  rq_retry_of : option string
}.

Record CommandRunRecord := {
  run_id : string;
  run_task_id : string;
  run_kind : CommandExecutionKind;
  run_title : option string;
  run_command : string;
  run_cwd : path;
  environment_profile : option string;
  environment_fingerprint : option string;
  run_retry_of : option string;
  started_at : Z;
  run_completed_at : option Z;
  run_status : CommandRunStatus;
  run_exit_code : option Z;
  stdout_path : path;
  stderr_path : path;
  stdout_bytes : N;
  stderr_bytes : N;
  diagnosis : option string;
  failure_summary : option string;
  next_step : option string
}.

Record MergePolicy := {
  require_user_approval : bool;
  require_clean_review : bool;
  require_test_pass : bool;
  blocked_file_patterns : list string;
  sensitive_file_patterns : list string;
  max_auto_merge_files : N;
  allow_lockfile_merge_without_reason : bool;
  allow_binary_merge : bool
}.

Definition MergePolicy_default : MergePolicy := {|
  require_user_approval := true;
  require_clean_review := true;
  require_test_pass := false;
  blocked_file_patterns := [];
  sensitive_file_patterns := [".env"; ".env.local"; ".env.production"];
  max_auto_merge_files := 25;
  allow_lockfile_merge_without_reason := false;
  allow_binary_merge := false
|}.

Record ResolveTaskRequest := {
  rt_project_id : string;
  rt_title : string;
  conversation_id : option string;
  reuse_policy : TaskReusePolicy
}.

Record TestExecutionRequest := {
  te_command : string;
  te_use_environment_binding : bool;
  te_env_overrides : gmap string string;
  te_profile_id : option string;
  te_retry_of : option string;
  te_title : option string
}.

(** ** manifest.rs *)

Record TaskManifest := {
  m_task_id : string;
  m_project_id : string;
  original_root : path;
  workspace_root : path;
  m_created_at : Z;
  m_updated_at : Z;
  m_status : TaskStatus;
  base_revision : option string;
  environment_binding : option EnvironmentBinding;
  changed_files : list ChangedFile
}.

(** ** models.rs: responses *)

Record ResolveTaskResponse := {
  rs_task : TaskRecord;
  rs_manifest : TaskManifest;
  reused_existing : bool;
  conversation_binding : option ConversationBinding
}.

Record TaskOverview := {
  ov_task : TaskRecord;
  ov_manifest : TaskManifest;
  ov_environment : option EnvironmentBinding;
  latest_summary : option StructuredTaskSummary;
  ov_diff : DiffBundle;
  ov_review : option ReviewReport;
  latest_event_seq : N;
  recent_activity : list TimelineEvent;
  command_runs : list CommandRunRecord;
  timeline_path : path
}.

(** ** traceback.rs *)

Record TracebackEntry := {
  tb_path : string;
  original_hash : option string;
  workspace_hash : option string;
  revision : N;
  tb_created_at : Z;
  tb_updated_at : Z
}.

Inductive TracebackRestoreTarget := Project | Workspace.

Record TracebackRestoreOutcome := {
  tro_path : string;
  tro_target : TracebackRestoreTarget;
  tro_revision : N
}.

(** [TracebackIndex]: entries by path. *)
Abbreviation TracebackIndex := (gmap string TracebackEntry).

(** ** The persisted types *)
Class Codecs := {
  serde_project :: Serde ProjectRecord;
  serde_task :: Serde TaskRecord;
  serde_manifest :: Serde TaskManifest;
  serde_conversation :: Serde ConversationBinding;
  serde_event :: Serde TimelineEvent;
  serde_run :: Serde CommandRunRecord;
  serde_summary :: Serde StructuredTaskSummary;
  serde_candidates :: Serde (list CandidateMemoryRecord);
  serde_memory :: Serde (gmap string ProjectMemoryRecord);
  serde_traceback :: Serde TracebackIndex;
  serde_review :: Serde ReviewReport;
  serde_test :: Serde TestOutcome;
  serde_value :: Serde json
}.

(** [serde_json::from_slice(bytes)?]. *)
Definition from_json {A} `{Serde A} (s : string) : R A := ok_or (from_slice s) Json.

(** ** Field updates *)

Definition set_status (s : TaskStatus) (m : TaskManifest) : TaskManifest := {|
  m_task_id := m_task_id m; m_project_id := m_project_id m;
  original_root := original_root m; workspace_root := workspace_root m;
  m_created_at := m_created_at m; m_updated_at := m_updated_at m;
  m_status := s; base_revision := base_revision m;
  environment_binding := environment_binding m; changed_files := changed_files m |}.

Definition set_updated_at (t : Z) (m : TaskManifest) : TaskManifest := {|
  m_task_id := m_task_id m; m_project_id := m_project_id m;
  original_root := original_root m; workspace_root := workspace_root m;
  m_created_at := m_created_at m; m_updated_at := t;
  m_status := m_status m; base_revision := base_revision m;
  environment_binding := environment_binding m; changed_files := changed_files m |}.

Definition set_changed_files (l : list ChangedFile) (m : TaskManifest) : TaskManifest := {|
  m_task_id := m_task_id m; m_project_id := m_project_id m;
  original_root := original_root m; workspace_root := workspace_root m;
  m_created_at := m_created_at m; m_updated_at := m_updated_at m;
  m_status := m_status m; base_revision := base_revision m;
  environment_binding := environment_binding m; changed_files := l |}.

Definition set_workspace_root (p : path) (m : TaskManifest) : TaskManifest := {|
  m_task_id := m_task_id m; m_project_id := m_project_id m;
  original_root := original_root m; workspace_root := p;
  m_created_at := m_created_at m; m_updated_at := m_updated_at m;
  m_status := m_status m; base_revision := base_revision m;
  environment_binding := environment_binding m; changed_files := changed_files m |}.

Definition set_environment (b : option EnvironmentBinding) (m : TaskManifest)
  : TaskManifest := {|
  m_task_id := m_task_id m; m_project_id := m_project_id m;
  original_root := original_root m; workspace_root := workspace_root m;
  m_created_at := m_created_at m; m_updated_at := m_updated_at m;
  m_status := m_status m; base_revision := base_revision m;
  environment_binding := b; changed_files := changed_files m |}.

Definition set_validation (v : EnvironmentValidation) (b : EnvironmentBinding)
  : EnvironmentBinding := {|
  profile_id := profile_id b; eb_project_id := eb_project_id b;
  eb_workspace_root := eb_workspace_root b; environment_root := environment_root b;
  eb_strategy := eb_strategy b; fingerprint := fingerprint b;
  detected_at := detected_at b; env_vars := env_vars b;
  path_entries := path_entries b; shared_paths := shared_paths b;
  detected_tools := detected_tools b; validation := v |}.
