(* ===== verification/FsFacts.v ===== *)
(** * Facts about the file system model

    [fs_ok Z fs] is the invariant of a file system: every entry's ancestors
    are directories, and symbolic links occur only at paths in [Z].  A path
    that is [clear] of [Z] resolves to itself, and on such paths the calls of
    [std::fs] reduce to finite-map updates.  Every call preserves [fs_ok]. *)

From S2P Require Import Prelude RustStr FsModel.

Implicit Types (fs : fsys) (p q r : path) (Z : path → Prop).

(** ** Definitions *)

Definition file_of fs p : option string :=
  match fs !! p with Some (File s) => Some s | _ => None end.

Definition wf_tree fs : Prop :=
  ∀ p q n, fs !! p = Some n → q `prefix_of` p → q ≠ p → q ≠ [] → fs !! q = Some Dir.

Definition links_in Z fs : Prop := ∀ p t, fs !! p = Some (Link t) → Z p.

Record fs_ok Z fs : Prop := {
  ok_tree : wf_tree fs;
  ok_links : links_in Z fs;
  ok_root : fs !! [] = None
}.

Record clear Z p : Prop := {
  clear_dots : no_dotdot p;
  clear_links : ∀ q, q `prefix_of` p → ¬ Z q
}.

(** No links at all. *)
Definition no_links : path → Prop := λ _, False.

(** ** Prefixes *)

Lemma prefix_snoc_inv q p (c : string) :
  q `prefix_of` p ++ [c] → q `prefix_of` p ∨ q = p ++ [c].
Proof.
  intros [k Hk]. destruct k as [|x k _] using rev_ind.
  - right. by rewrite app_nil_r in Hk.
  - left. rewrite (assoc (++)) in Hk. apply app_inj_tail in Hk as [-> _].
    by exists k.
Qed.

Lemma prefix_ne_length q p : q `prefix_of` p → q ≠ p → length q < length p.
Proof.
  intros [k ->] Hne. rewrite length_app. destruct k; simpl; [|lia].
  by rewrite app_nil_r in Hne.
Qed.

(** Of two ancestors of a path the shorter one is above the other. *)
Lemma prefix_shorter r k p :
  r `prefix_of` p → k `prefix_of` p → length r ≤ length k → r `prefix_of` k.
Proof.
  intros Pr Pk L. destruct (prefix_weak_total _ _ _ Pr Pk) as [|[[|x l] ->]]; [done| |].
  - by rewrite app_nil_r.
  - rewrite length_app in L. simpl in L. lia.
Qed.

Lemma strip_path_Some r p k : strip_path r p = Some k ↔ p = r ++ k.
Proof.
  revert p. induction r as [|c r IH]; intros [|d p]; simpl; try naive_solver.
  destruct (String.eqb_spec c d) as [->|]; [rewrite IH|]; naive_solver.
Qed.

Lemma clear_prefix Z p q : clear Z p → q `prefix_of` p → clear Z q.
Proof.
  intros [Hd Hl] [k ->]. split.
  - by apply Forall_app in Hd as [? _].
  - intros q' Hq'. apply Hl. by apply prefix_app_r.
Qed.

Lemma clear_snoc Z p c :
  clear Z p → c ≠ ".." → ¬ Z (p ++ [c]) → clear Z (p ++ [c]).
Proof.
  intros [Hd Hl] Hc Hz. split.
  - apply Forall_app. split; [done|]. by constructor.
  - intros q [?| ->]%prefix_snoc_inv; auto.
Qed.

Lemma clear_no_links p : no_dotdot p → clear no_links p.
Proof. intros. split; [done|]. by intros q _ ?. Qed.

(** ** Resolution of clear paths *)

Section resolve.
Context (Z : path → Prop) (fs : fsys) (Hfs : fs_ok Z fs).

Lemma resolve_go_clear l rest cur q :
  clear Z (cur ++ rest) →
  resolve_go l fs cur rest = inr q →
  q = cur ++ rest ∧
  (∀ x, cur `prefix_of` x → x `prefix_of` cur ++ rest → x ≠ cur ++ rest →
        x ≠ cur → fs !! x = Some Dir).
Proof.
  revert cur. induction rest as [|c rest IH]; intros cur Hcl.
  - assert (∀ l, resolve_go l fs cur [] = inr cur) as -> by (by intros []).
    intros [= <-]. rewrite app_nil_r. split; [done|].
    intros x H1 H2 H3 _. destruct H3. by apply (anti_symm prefix).
  - assert (Hc : c ≠ "..").
    { destruct Hcl as [Hd _]. apply Forall_app in Hd as [_ Hd].
      by inversion Hd. }
    assert (Hnl : ∀ t, fs !! (cur ++ [c]) ≠ Some (Link t)).
    { intros t Ht. apply (ok_links Z fs Hfs) in Ht.
      apply (clear_links Z _ Hcl _ ) in Ht; [done|]. exists rest.
      by rewrite <- (assoc (++)). }
    assert (Hgo : resolve_go l fs cur (c :: rest) =
      match fs !! (cur ++ [c]) with
      | Some Dir => resolve_go l fs (cur ++ [c]) rest
      | Some (File _) => match rest with [] => inr (cur ++ [c]) | _ => inl NotADirectory end
      | Some (Link _) => inl FilesystemLoop
      | None => match rest with [] => inr (cur ++ [c]) | _ => inl NotFound end
      end).
    { rewrite <- String.eqb_neq in Hc.
      destruct l; simpl; rewrite Hc;
        destruct (fs !! (cur ++ [c])) as [[| |t]|] eqn:E; try done;
        by destruct (Hnl t). }
    rewrite Hgo. clear Hgo.
    assert (Happ : cur ++ c :: rest = (cur ++ [c]) ++ rest)
      by (by rewrite <- (assoc (++))).
    destruct (fs !! (cur ++ [c])) as [[s| |t]|] eqn:E.
    + destruct rest; [|done]. intros [= <-]. split; [done|].
      intros x H1 H2 H3 H4. apply prefix_snoc_inv in H2 as [H2| ->]; [|done].
      destruct H4. by apply (anti_symm prefix).
    + intros Hr. rewrite Happ in *. apply IH in Hr as [-> Hr]; [|done].
      split; [done|]. intros x H1 H2 H3 H4.
      destruct (decide (x = cur ++ [c])) as [->|]; [done|].
      apply Hr; try done.
      destruct H1 as [[|d k] ->].
      { by rewrite app_nil_r in H4. }
      destruct H2 as [k2 H2]. rewrite <- !(assoc (++)) in H2.
      apply (inj (app cur)) in H2. simplify_eq/=. exists k.
      by rewrite <- (assoc (++)).
    + done.
    + destruct rest; [|done]. intros [= <-]. split; [done|].
      intros x H1 H2 H3 H4. apply prefix_snoc_inv in H2 as [H2| ->]; [|done].
      destruct H4. by apply (anti_symm prefix).
Qed.

Lemma resolve_clear p q :
  clear Z p → resolve fs p = inr q →
  q = p ∧ ∀ x, x `prefix_of` p → x ≠ p → x ≠ [] → fs !! x = Some Dir.
Proof.
  intros Hcl Hr. apply (resolve_go_clear _ _ []) in Hr as [-> Hr]; [|done].
  split; [done|]. intros x Hx Hne Hn. apply Hr; auto using prefix_nil.
Qed.

(** A clear path whose ancestors are directories resolves to itself. *)
Lemma resolve_go_ok l rest cur :
  clear Z (cur ++ rest) →
  (∀ x, cur `prefix_of` x → x `prefix_of` cur ++ rest → x ≠ cur ++ rest →
        x ≠ cur → fs !! x = Some Dir) →
  resolve_go l fs cur rest = inr (cur ++ rest).
Proof.
  revert cur. induction rest as [|c rest IH]; intros cur Hcl Hdir.
  { rewrite app_nil_r. by destruct l. }
  assert (Hc : String.eqb c ".." = false).
  { apply String.eqb_neq. destruct Hcl as [Hd _].
    apply Forall_app in Hd as [_ Hd]. by inversion Hd. }
  assert (Happ : cur ++ c :: rest = (cur ++ [c]) ++ rest)
    by (by rewrite <- (assoc (++))).
  destruct rest as [|d rest'].
  - destruct (fs !! (cur ++ [c])) as [[| |t]|] eqn:E;
      try (destruct l; simpl; rewrite Hc, E; done).
    apply (ok_links Z fs Hfs) in E.
    by apply (clear_links Z _ Hcl) in E.
  - assert (E : fs !! (cur ++ [c]) = Some Dir).
    { apply Hdir.
      - by exists [c].
      - exists (d :: rest'). by rewrite <- (assoc (++)).
      - intros Heq%(f_equal length). rewrite !length_app in Heq. simpl in Heq. lia.
      - intros Heq%(f_equal length). rewrite !length_app in Heq. simpl in Heq. lia. }
    rewrite Happ in Hcl, Hdir |- *. rewrite <- (IH (cur ++ [c])); [|done|].
    + by destruct l; simpl; rewrite Hc, E.
    + intros x H1 H2 H3 H4. apply Hdir; try done.
      * etrans; [|done]. by exists [c].
      * intros ->. apply prefix_length in H1. rewrite length_app in H1.
        simpl in H1. lia.
Qed.

Lemma resolve_present p n :
  clear Z p → fs !! p = Some n → resolve fs p = inr p.
Proof.
  intros Hcl Hn. apply (resolve_go_ok _ _ []); [done|].
  intros x _ Hx Hne Hn'. by apply (ok_tree Z fs Hfs p x n).
Qed.

Lemma look_ne p : p ≠ [] → look fs p = fs !! p.
Proof. by destruct p. Qed.

Lemma stat_clear p q n :
  clear Z p → stat fs p = inr (q, n) → q = p ∧ look fs p = Some n.
Proof.
  unfold stat. intros Hcl. destruct (resolve fs p) as [|q'] eqn:Hr; [done|].
  apply resolve_clear in Hr as [-> _]; [|done].
  destruct (look fs p) eqn:Hl; [|done]. intros [= -> ->]. done.
Qed.

Lemma stat_present p n : clear Z p → fs !! p = Some n → stat fs p = inr (p, n).
Proof.
  intros Hcl Hn. unfold stat. rewrite (resolve_present p n) by done.
  destruct p; [|by simpl; rewrite Hn].
  by rewrite (ok_root Z fs Hfs) in Hn.
Qed.

Lemma file_of_stat p s :
  clear Z p → file_of fs p = Some s ↔ stat fs p = inr (p, File s).
Proof.
  intros Hcl. unfold file_of. split.
  - destruct (fs !! p) as [[| |]|] eqn:E; try done. intros [= ->].
    by apply stat_present.
  - intros Hs. apply stat_clear in Hs as [_ Hl]; [|done].
    destruct p; [done|]. simpl in Hl. by rewrite Hl.
Qed.

Lemma is_file_clear p :
  clear Z p → fs_is_file fs p = bool_decide (is_Some (file_of fs p)).
Proof.
  intros Hcl. unfold fs_is_file.
  destruct (file_of fs p) as [s|] eqn:E.
  - rewrite (proj1 (file_of_stat p s Hcl) E). done.
  - destruct (stat fs p) as [|[q [s| |]]] eqn:Hs; try done.
    assert (q = p) as -> by (by apply stat_clear in Hs as [-> _]).
    by rewrite (proj2 (file_of_stat p s Hcl) Hs) in E.
Qed.

Lemma exists_false_clear p :
  clear Z p → fs_exists fs p = false → fs !! p = None.
Proof.
  intros Hcl. unfold fs_exists. intros He.
  destruct (fs !! p) as [n|] eqn:E; [|done].
  by rewrite (stat_present p n) in He.
Qed.

Lemma exists_true_clear p :
  clear Z p → fs_exists fs p = true → p = [] ∨ is_Some (fs !! p).
Proof.
  intros Hcl. unfold fs_exists.
  destruct (stat fs p) as [|[q n]] eqn:Hs; [done|]. intros _.
  apply stat_clear in Hs as [_ Hl]; [|done]. destruct p; [by left|right; eauto].
Qed.

Lemma exists_file_clear p :
  clear Z p → is_Some (fs !! p) → fs_exists fs p = true.
Proof.
  intros Hcl [n Hn]. unfold fs_exists. by rewrite (stat_present p n).
Qed.

Lemma read_clear p s :
  clear Z p → fs_read fs p = inr s ↔ file_of fs p = Some s.
Proof.
  intros Hcl. rewrite file_of_stat by done. unfold fs_read. split.
  - destruct (stat fs p) as [|[q [s'| |]]] eqn:Hs; try done.
    intros [= ->]. f_equal. f_equal.
    by apply stat_clear in Hs as [-> _].
  - by intros ->.
Qed.
End resolve.

(** ** Effects of the calls on clear paths *)

Section effects.
Context (Z : path → Prop) (fs : fsys) (Hfs : fs_ok Z fs).

Definition parents_dir (fs' : fsys) p : Prop :=
  ∀ x, x `prefix_of` p → x ≠ p → x ≠ [] → fs' !! x = Some Dir.

Lemma wf_tree_insert_file p s :
  p ≠ [] → parents_dir fs p → fs !! p ≠ Some Dir →
  wf_tree (<[p := File s]> fs).
Proof.
  intros Hp Hpar Hnd x q n Hx Hq Hne Hq0.
  destruct (decide (x = p)) as [->|Hxp].
  - rewrite lookup_insert_ne by done. by apply Hpar.
  - rewrite lookup_insert_ne in Hx by done.
    assert (Hd : fs !! q = Some Dir) by (by apply (ok_tree Z fs Hfs x q n)).
    rewrite lookup_insert_ne; [done|]. by intros <-.
Qed.

Lemma fs_ok_insert_file p s :
  p ≠ [] → parents_dir fs p → fs !! p ≠ Some Dir →
  fs_ok Z (<[p := File s]> fs).
Proof.
  intros Hp Hpar Hnd. split.
  - by apply wf_tree_insert_file.
  - intros x t. rewrite lookup_insert_Some.
    intros [[_ ?]|[_ ?]]; [done|]. by apply (ok_links Z fs Hfs x t).
  - rewrite lookup_insert_ne by done. apply (ok_root Z fs Hfs).
Qed.

Lemma fs_ok_delete p : fs !! p ≠ Some Dir → fs_ok Z (delete p fs).
Proof.
  intros Hnd. split.
  - intros x q n Hx Hq Hne Hq0. apply lookup_delete_Some in Hx as [Hxp Hx].
    assert (Hd : fs !! q = Some Dir) by (by apply (ok_tree Z fs Hfs x q n)).
    rewrite lookup_delete_ne; [done|]. by intros <-.
  - intros x t Hx. apply lookup_delete_Some in Hx as [_ Hx].
    by apply (ok_links Z fs Hfs x t).
  - apply lookup_delete_None. right. apply (ok_root Z fs Hfs).
Qed.

Lemma write_clear p s fs' :
  clear Z p → fs_write fs p s = inr fs' →
  p ≠ [] ∧ fs' = <[p := File s]> fs ∧ fs_ok Z fs'.
Proof.
  unfold fs_write. intros Hcl. destruct (resolve fs p) as [|q] eqn:Hr; [done|].
  apply (resolve_clear Z fs Hfs) in Hr as [-> Hpar]; [|done].
  destruct p as [|c p]; [done|].
  destruct (look fs (c :: p)) as [[| |]|] eqn:Hl; simpl in Hl; try done;
    intros [= <-]; (split; [done|]); (split; [done|]);
    apply fs_ok_insert_file; try done; by rewrite Hl.
Qed.

Lemma append_clear p s fs' :
  clear Z p → fs_append fs p s = inr fs' →
  p ≠ [] ∧ fs' = <[p := File (default "" (file_of fs p) +:+ s)]> fs ∧ fs_ok Z fs'.
Proof.
  unfold fs_append. intros Hcl. destruct (resolve fs p) as [|q] eqn:Hr; [done|].
  apply (resolve_clear Z fs Hfs) in Hr as [-> Hpar]; [|done].
  destruct p as [|c p]; [done|]. unfold file_of.
  destruct (look fs (c :: p)) as [[| |]|] eqn:Hl; simpl in Hl; try done;
    intros [= <-]; rewrite Hl; (split; [done|]); (split; [done|]);
    apply fs_ok_insert_file; try done; by rewrite Hl.
Qed.

Lemma lresolve_clear p q :
  clear Z p → lresolve fs p = inr q →
  q = p ∧ (p ≠ [] → parents_dir fs p).
Proof.
  unfold lresolve. intros Hcl.
  destruct p as [|c p _] using rev_ind; [by intros [= <-]|].
  rewrite last_snoc, removelast_last.
  destruct (String.eqb_spec c "..") as [->|Hc].
  { destruct Hcl as [Hd _]. apply Forall_app in Hd as [_ Hd]. by inversion Hd. }
  destruct (resolve fs p) as [|d] eqn:Hr; [done|].
  apply (resolve_clear Z fs Hfs) in Hr as [-> Hpar];
    [|by eapply clear_prefix; [|by exists [c]]].
  destruct (look fs p) as [[| |]|] eqn:Hl; try done. intros [= <-].
  split; [done|]. intros _ x Hx Hne Hx0.
  apply prefix_snoc_inv in Hx as [Hx| ->]; [|done].
  destruct (decide (x = p)) as [->|]; [|by apply Hpar].
  by destruct p.
Qed.

Lemma remove_clear p fs' :
  clear Z p → fs_remove_file fs p = inr fs' →
  fs' = delete p fs ∧ fs_ok Z fs' ∧ fs !! p ≠ Some Dir.
Proof.
  unfold fs_remove_file. intros Hcl.
  destruct (lresolve fs p) as [|q] eqn:Hr; [done|].
  apply lresolve_clear in Hr as [-> _]; [|done].
  destruct p as [|c p]; [done|].
  destruct (look fs (c :: p)) as [[| |]|] eqn:Hl; simpl in Hl; try done;
    intros [= <-]; (split; [done|]); split; try (by rewrite Hl);
    apply fs_ok_delete; by rewrite Hl.
Qed.

Lemma copy_clear src dst fs' :
  clear Z src → clear Z dst → fs_copy fs src dst = inr fs' →
  ∃ s, file_of fs src = Some s ∧ dst ≠ [] ∧
    fs' = <[dst := File (if bool_decide (src = dst) then "" else s)]> fs ∧
    fs_ok Z fs'.
Proof.
  unfold fs_copy. intros Hs Hd.
  destruct (stat fs src) as [|[qs [s| |]]] eqn:Hst; try done.
  assert (qs = src) as -> by (by apply (stat_clear Z fs Hfs) in Hst as [-> _]).
  apply (file_of_stat Z fs Hfs) in Hst; [|done].
  destruct (resolve fs dst) as [|q] eqn:Hr; [done|].
  apply (resolve_clear Z fs Hfs) in Hr as [-> Hpar]; [|done].
  destruct dst as [|c p]; [done|].
  destruct (look fs (c :: p)) as [[| |]|] eqn:Hl; simpl in Hl; try done;
    intros [= <-]; exists s; (split; [done|]); (split; [done|]); (split; [done|]);
    apply fs_ok_insert_file; try done; by rewrite Hl.
Qed.

Lemma symlink_clear t p fs' :
  clear Z p → fs_symlink fs t p = inr fs' → p ≠ [] ∧ fs' = <[p := Link t]> fs.
Proof.
  unfold fs_symlink. intros Hcl.
  destruct (lresolve fs p) as [|q] eqn:Hr; [done|].
  apply lresolve_clear in Hr as [-> _]; [|done].
  destruct (look fs p) eqn:Hl; [done|]. intros [= <-].
  split; [|done]. by intros ->.
Qed.
End effects.

(** Creating directories only adds directories, on the way to the path. *)
Definition grows_dirs (p : path) (fs fs' : fsys) : Prop :=
  ∀ q, fs' !! q = fs !! q ∨
       (fs !! q = None ∧ fs' !! q = Some Dir ∧ q `prefix_of` p ∧ q ≠ []).

Lemma mkdirs_clear Z rest cur fs fs' :
  fs_ok Z fs → clear Z (cur ++ rest) → (cur = [] ∨ fs !! cur = Some Dir) →
  mkdirs fs cur rest = inr fs' →
  grows_dirs (cur ++ rest) fs fs' ∧ fs_ok Z fs' ∧
  (rest = [] ∨ fs' !! (cur ++ rest) = Some Dir).
Proof.
  revert cur fs. induction rest as [|c rest IH]; intros cur fs Hfs Hcl Hcur; simpl.
  { intros [= <-]. split; [by left|]. split; [done|by left]. }
  assert (Happ : cur ++ c :: rest = (cur ++ [c]) ++ rest)
    by (by rewrite <- (assoc (++))).
  assert (Hc : c ≠ "..").
  { destruct Hcl as [Hd _]. apply Forall_app in Hd as [_ Hd]. by inversion Hd. }
  rewrite <- String.eqb_neq in Hc. rewrite Hc.
  assert (Hpre : cur ++ [c] `prefix_of` cur ++ c :: rest)
    by (rewrite Happ; by apply prefix_app_r).
  assert (Hne : cur ++ [c] ≠ []) by (by destruct cur).
  destruct (fs !! (cur ++ [c])) as [[s| |t]|] eqn:E.
  - by intros.
  - rewrite Happ in *. intros Hm.
    apply IH in Hm as (Hg & Hok & Hlast); [|done..|by right].
    split; [done|]. split; [done|]. right.
    destruct Hlast as [-> |]; [|done]. rewrite app_nil_r.
    destruct (Hg (cur ++ [c])) as [->|(? & _)]; congruence.
  - exfalso. apply (clear_links Z _ Hcl _ Hpre). by apply (ok_links Z fs Hfs _ t).
  - assert (Hok1 : fs_ok Z (<[cur ++ [c] := Dir]> fs)).
    { split.
      - intros x q n Hx Hq Hqx Hq0. destruct (decide (x = cur ++ [c])) as [->|Hx1].
        + rewrite lookup_insert_ne by done.
          apply prefix_snoc_inv in Hq as [Hq| ->]; [|done].
          destruct (decide (q = cur)) as [->|]; [by destruct Hcur|].
          destruct Hcur as [-> | Hcur]; [by apply prefix_nil_inv in Hq|].
          by apply (ok_tree Z fs Hfs cur q Dir).
        + rewrite lookup_insert_ne in Hx by done.
          assert (Hd : fs !! q = Some Dir) by (by apply (ok_tree Z fs Hfs x q n)).
          rewrite lookup_insert_ne; [done|]. intros <-. congruence.
      - intros x t. rewrite lookup_insert_Some.
        intros [[_ ?]|[_ ?]]; [done|]. by apply (ok_links Z fs Hfs x t).
      - rewrite lookup_insert_ne by done. apply (ok_root Z fs Hfs). }
    rewrite Happ in *. intros Hm.
    apply IH in Hm as (Hg & Hok & Hlast); [|done..|right; by rewrite lookup_insert_eq].
    split; [|split; [done|]].
    + intros q. destruct (Hg q) as [Hq|(Hq1 & Hq2 & Hq3)].
      * rewrite Hq. destruct (decide (q = cur ++ [c])) as [->|].
        { right. rewrite lookup_insert_eq. done. }
        left. by rewrite lookup_insert_ne.
      * right. apply lookup_insert_None in Hq1 as [? ?]. done.
    + right. destruct Hlast as [-> |]; [|done]. rewrite app_nil_r.
      destruct (Hg (cur ++ [c])) as [->|(Hq1 & ? & _)]; [by rewrite lookup_insert_eq|done].
Qed.

Lemma create_dir_all_clear Z fs p fs' :
  fs_ok Z fs → clear Z p → fs_create_dir_all fs p = inr fs' →
  grows_dirs p fs fs' ∧ fs_ok Z fs' ∧ (p = [] ∨ fs' !! p = Some Dir).
Proof. intros Hfs Hcl Hm. apply (mkdirs_clear Z p []); auto. Qed.

Lemma grows_dirs_file p fs fs' q : grows_dirs p fs fs' → file_of fs' q = file_of fs q.
Proof.
  intros Hg. unfold file_of.
  destruct (Hg q) as [->|(-> & -> & _)]; done.
Qed.

(** ** File contents after an update *)

Lemma file_of_insert_eq fs p s : file_of (<[p := File s]> fs) p = Some s.
Proof. unfold file_of. by rewrite lookup_insert_eq. Qed.
Lemma file_of_insert_ne fs p q n : p ≠ q → file_of (<[p := n]> fs) q = file_of fs q.
Proof. intros. unfold file_of. by rewrite lookup_insert_ne. Qed.
Lemma file_of_delete_eq fs p : file_of (delete p fs) p = None.
Proof. unfold file_of. by rewrite lookup_delete_eq. Qed.
Lemma file_of_delete_ne fs p q : p ≠ q → file_of (delete p fs) q = file_of fs q.
Proof. intros. unfold file_of. by rewrite lookup_delete_ne. Qed.

(** ** [lstat] at clear paths *)

Section lstat.
Context (Z : path → Prop) (fs : fsys) (Hfs : fs_ok Z fs).

Lemma lstat_present p n : clear Z p → fs !! p = Some n → lstat fs p = inr n.
Proof.
  intros Hcl Hn. unfold lstat, lresolve.
  destruct p as [|c p _] using rev_ind; [by rewrite (ok_root Z fs Hfs) in Hn|].
  rewrite last_snoc, removelast_last.
  assert (Hc : c ≠ "..").
  { pose proof (clear_dots Z _ Hcl) as Hd. apply Forall_app in Hd as [_ Hd].
    by inversion Hd. }
  apply String.eqb_neq in Hc. rewrite Hc.
  assert (Hp : p = [] ∨ fs !! p = Some Dir).
  { destruct (decide (p = [])); [by left|right].
    apply (ok_tree Z fs Hfs (p ++ [c]) p n); [done|by apply prefix_app_r| |done].
    intros Heq%(f_equal length). rewrite length_app in Heq. simpl in Heq. lia. }
  destruct Hp as [->|Hd].
  - simpl in *. by rewrite Hn.
  - rewrite (resolve_present Z fs Hfs p Dir);
      [|by eapply clear_prefix; [|apply prefix_app_r]|done].
    destruct p as [|x p]; simpl in *; [by rewrite Hn|]. rewrite Hd. simpl. by rewrite Hn.
Qed.

Lemma lstat_look p n : clear Z p → lstat fs p = inr n → look fs p = Some n.
Proof.
  intros Hcl. unfold lstat. destruct (lresolve fs p) as [|q] eqn:Hr; [done|].
  apply (lresolve_clear Z fs Hfs) in Hr as [-> _]; [|done].
  by destruct (look fs p) as [m|]; [intros [= ->]|].
Qed.
End lstat.
