(* ===== verification/Frame.v ===== *)
(** * A frame logic for effectful functions

    [stable Rel m] says that running [m] relates the file systems before and
    after by [Rel], whatever the outcome.  The relation used is
    [keeps_files K]: the contents of the regular files at the paths of [K] are
    unchanged.  It carries the invariant [store_ok]: the tree is well formed,
    links occur only in [Z], and every entry satisfies a per-path invariant
    [I]. *)

From S2P Require Import Prelude RustStr FsModel World FsFacts.

(** ** The judgement and its structural rules *)

Definition stable {E A : Type} (Rel : fsys → fsys → Prop) (m : M E A) : Prop :=
  ∀ w, Rel (w_fs w) (w_fs (m w).2).

Section rules.
Context {Rel : fsys → fsys → Prop} `{!PreOrder Rel}.
Context {E : Type}.

Lemma stable_ret {A} (a : A) : stable (E:=E) Rel (mret a).
Proof. by intros w. Qed.

Lemma stable_bind {A B} (m : M E A) (f : A → M E B) :
  stable Rel m → (∀ a, stable Rel (f a)) → stable Rel (m ≫= f).
Proof.
  intros Hm Hf w. specialize (Hm w). unfold mbind, M_bind.
  destruct (m w) as [[a|e|s] w']; simpl in *; [|done..].
  etrans; [done|apply Hf].
Qed.

(** The continuation only matters for values the first part can return. *)
Lemma stable_bind_post {A B} (P : A → Prop) (m : M E A) (f : A → M E B) :
  stable Rel m → (∀ w a w', m w = (Ok a, w') → P a) →
  (∀ a, P a → stable Rel (f a)) → stable Rel (m ≫= f).
Proof.
  intros Hm HP Hf w. specialize (Hm w). specialize (HP w). unfold mbind, M_bind.
  destruct (m w) as [[a|e|s] w']; simpl in *; [|done..].
  etrans; [done|]. apply Hf. by eapply HP.
Qed.

Lemma stable_fmap {A B} (f : A → B) (m : M E A) :
  stable Rel m → stable Rel (f <$> m).
Proof.
  intros Hm w. specialize (Hm w). unfold fmap, M_fmap.
  by destruct (m w) as [[a|e|s] w'].
Qed.

Lemma stable_throw {A} (e : E) : stable (A:=A) Rel (throw e).
Proof. by intros w. Qed.

Lemma stable_panic {A} s : stable (A:=A) (E:=E) Rel (panic s).
Proof. by intros w. Qed.

Lemma stable_attempt {E' A} (m : M E' A) :
  stable Rel m → stable (E:=E) Rel (attempt m).
Proof.
  intros Hm w. specialize (Hm w). unfold attempt.
  by destruct (m w) as [[a|e|s] w'].
Qed.

Lemma stable_finally {A} (m : M E A) fin :
  stable Rel m → (∀ fs, Rel fs (fin fs)) → stable Rel (finally m fin).
Proof.
  intros Hm Hf w. specialize (Hm w). unfold finally.
  destruct (m w) as [r w']; simpl in *. etrans; [done|apply Hf].
Qed.

Lemma stable_ok_or {A} (o : option A) (e : E) : stable Rel (ok_or o e).
Proof. destruct o; [apply stable_ret|apply stable_throw]. Qed.

Lemma stable_foldM {A B} (f : B → A → M E B) acc l :
  (∀ acc x, x ∈ l → stable Rel (f acc x)) → stable Rel (foldM f acc l).
Proof.
  revert acc. induction l as [|x l IH]; intros acc Hf; simpl; [apply stable_ret|].
  apply stable_bind; [apply Hf; left|]. intros acc'. apply IH.
  intros. apply Hf. by right.
Qed.

Lemma stable_forM_ {A} (f : A → M E unit) l :
  (∀ x, x ∈ l → stable Rel (f x)) → stable Rel (forM_ l f).
Proof. intros. apply stable_foldM. auto. Qed.

Lemma stable_get_fs : stable (E:=E) Rel get_fs.
Proof. by intros w. Qed.

Context `{Sys}.
Lemma stable_now : stable (E:=E) Rel now.
Proof. by intros w. Qed.
Lemma stable_new_uuid : stable (E:=E) Rel new_uuid.
Proof. by intros w. Qed.

Context `{FromIo E}.
Lemma stable_lift_read {A} (f : fsys → io_kind + A) : stable Rel (lift_read f).
Proof. intros w. unfold lift_read. by destruct (f (w_fs w)). Qed.
Lemma stable_read p : stable Rel (read p).
Proof. apply stable_lift_read. Qed.
Lemma stable_read_to_string p : stable Rel (read_to_string p).
Proof. apply stable_lift_read. Qed.
Lemma stable_walk_dir p : stable Rel (walk_dir p).
Proof. apply stable_lift_read. Qed.
Lemma stable_read_dir p : stable Rel (read_dir p).
Proof. apply stable_lift_read. Qed.
Lemma stable_exists p : stable (E:=E) Rel (exists_ p).
Proof. by intros w. Qed.
Lemma stable_is_file p : stable (E:=E) Rel (is_file p).
Proof. by intros w. Qed.
Lemma stable_is_dir p : stable (E:=E) Rel (is_dir p).
Proof. by intros w. Qed.

Lemma stable_lift_fs f :
  (∀ fs fs', f fs = inr fs' → Rel fs fs') → stable Rel (lift_fs f).
Proof.
  intros Hf w. unfold lift_fs. destruct (f (w_fs w)) eqn:Hw; simpl; [done|].
  by apply Hf.
Qed.

Lemma stable_lift_cmd {A} (f : fsys → (io_kind + A) * fsys) :
  (∀ fs, Rel fs (f fs).2) → stable Rel (lift_cmd f).
Proof.
  intros Hf w. unfold lift_cmd. specialize (Hf (w_fs w)).
  by destruct (f (w_fs w)) as [[] fs'].
Qed.
End rules.

#[export] Hint Resolve stable_ret stable_throw stable_panic stable_ok_or
  stable_get_fs stable_now stable_new_uuid stable_read stable_read_to_string
  stable_walk_dir stable_read_dir stable_exists stable_is_file stable_is_dir
  : frame.

#[export] Hint Extern 0 (PreOrder _) => apply _ : frame.

(** ** Stores and the files they keep *)

Section keeps.
Context (Z : path → Prop) (I : path → node → Prop).

Record store_ok (fs : fsys) : Prop := {
  st_fs : fs_ok Z fs;
  st_nodes : ∀ p n, fs !! p = Some n → I p n
}.

(** Directories may be created on the way to [p]. *)
Definition dirs_to (p : path) : Prop := ∀ q, q `prefix_of` p → I q Dir.

(** Every proper prefix of [p] may be a directory. *)
Definition parents_to (p : path) : Prop := ∀ q, q `prefix_of` p → q ≠ p → I q Dir.

Definition keeps_files (K : path → Prop) (fs fs' : fsys) : Prop :=
  store_ok fs → store_ok fs' ∧ ∀ p, K p → file_of fs' p = file_of fs p.

#[global] Instance keeps_files_preorder K : PreOrder (keeps_files K).
Proof.
  split.
  - intros fs Hok. done.
  - intros a b c Hab Hbc Ha. destruct (Hab Ha) as [Hb Eb].
    destruct (Hbc Hb) as [Hc Ec]. split; [done|]. intros p Hp.
    by rewrite Ec, Eb.
Qed.

Lemma store_ok_insert fs p n :
  store_ok fs → fs_ok Z (<[p := n]> fs) → I p n → store_ok (<[p := n]> fs).
Proof.
  intros Hok Hfs HI. split; [done|]. intros q n'.
  rewrite lookup_insert_Some. intros [[<- <-]|[_ Hq]]; [done|].
  by apply (st_nodes fs Hok).
Qed.

Lemma store_ok_delete fs p :
  store_ok fs → fs_ok Z (delete p fs) → store_ok (delete p fs).
Proof.
  intros Hok Hfs. split; [done|]. intros q n [_ Hq]%lookup_delete_Some.
  by apply (st_nodes fs Hok).
Qed.

Lemma store_ok_grow p fs fs' :
  store_ok fs → grows_dirs p fs fs' → fs_ok Z fs' → dirs_to p → store_ok fs'.
Proof.
  intros Hok Hg Hfs Hd. split; [done|]. intros q n Hq.
  destruct (Hg q) as [He|(_ & He & Hpre & _)]; rewrite He in Hq.
  - by apply (st_nodes fs Hok).
  - simplify_eq. by apply Hd.
Qed.

Section prims.
Context {E : Type} `{!FromIo E}.
Implicit Types K : path → Prop.

(** The continuation only matters for values returned from good stores. *)
Lemma keeps_bind_post {A B} K (P : A → Prop) (m : M E A) (f : A → M E B) :
  stable (keeps_files K) m →
  (∀ w a w', store_ok (w_fs w) → m w = (Ok a, w') → P a) →
  (∀ a, P a → stable (keeps_files K) (f a)) → stable (keeps_files K) (m ≫= f).
Proof.
  intros Hm HP Hf w Hok. specialize (Hm w Hok). specialize (HP w). unfold mbind, M_bind.
  destruct (m w) as [[a|e|s] w']; simpl in *; [|done..].
  destruct Hm as [Hok' Hk]. destruct (Hf a (HP _ _ Hok eq_refl) w' Hok') as [Hok2 Hk2].
  split; [done|]. intros p Hp. by rewrite Hk2, Hk.
Qed.

Lemma stable_write K p s :
  clear Z p → ¬ K p → I p (File s) → stable (keeps_files K) (write p s).
Proof.
  intros Hcl HK HI. apply stable_lift_fs. intros fs fs' Hw Hok.
  apply (write_clear Z fs (st_fs fs Hok)) in Hw as (Hp & -> & Hfs); [|done].
  split; [by apply store_ok_insert|].
  intros q Hq. apply file_of_insert_ne. by intros ->.
Qed.

Lemma stable_append K p s :
  clear Z p → ¬ K p → (∀ s', I p (File s')) → stable (keeps_files K) (append_file p s).
Proof.
  intros Hcl HK HI. apply stable_lift_fs. intros fs fs' Hw Hok.
  apply (append_clear Z fs (st_fs fs Hok)) in Hw as (Hp & -> & Hfs); [|done].
  split; [by apply store_ok_insert|].
  intros q Hq. apply file_of_insert_ne. by intros ->.
Qed.

Lemma stable_remove K p : clear Z p → ¬ K p → stable (keeps_files K) (remove_file p).
Proof.
  intros Hcl HK. apply stable_lift_fs. intros fs fs' Hw Hok.
  apply (remove_clear Z fs (st_fs fs Hok)) in Hw as (-> & Hfs & _); [|done].
  split; [by apply store_ok_delete|].
  intros q Hq. apply file_of_delete_ne. by intros ->.
Qed.

Lemma stable_copy K src dst :
  clear Z src → clear Z dst → ¬ K dst → (∀ s, I dst (File s)) →
  stable (keeps_files K) (copy src dst).
Proof.
  intros Hs Hd HK HI. apply stable_lift_fs. intros fs fs' Hw Hok.
  apply (copy_clear Z fs (st_fs fs Hok)) in Hw as (s & _ & _ & -> & Hfs); [|done..].
  split; [by apply store_ok_insert|].
  intros q Hq. apply file_of_insert_ne. by intros ->.
Qed.

Lemma stable_mkdir K p :
  clear Z p → dirs_to p → stable (keeps_files K) (create_dir_all p).
Proof.
  intros Hcl Hd. apply stable_lift_fs. intros fs fs' Hw Hok.
  apply (create_dir_all_clear Z fs) in Hw as (Hg & Hfs & _);
    [|by apply st_fs|done].
  split; [by apply (store_ok_grow p fs)|].
  intros q Hq. by apply (grows_dirs_file p).
Qed.

Lemma parent_prefix p d : parent p = Some d → d `prefix_of` p.
Proof.
  destruct p as [|c p _] using rev_ind; [done|].
  unfold parent. destruct (p ++ [c]) as [|x l] eqn:E'; [done|].
  rewrite <- E', removelast_last. intros [= <-]. by apply prefix_app_r.
Qed.

Lemma parent_snoc (p : path) c : parent (p ++ [c]) = Some p.
Proof.
  unfold parent. destruct (p ++ [c]) as [|x l] eqn:E'; [by destruct p|].
  by rewrite <- E', removelast_last.
Qed.

Lemma dirs_to_parent p d : parents_to p → parent p = Some d → dirs_to d.
Proof.
  intros Hp Hd q Hq. apply Hp; [etrans; [done|by apply parent_prefix]|]. intros ->.
  destruct p as [|c p _] using rev_ind; [done|].
  rewrite parent_snoc in Hd. simplify_eq.
  apply prefix_length in Hq. rewrite length_app in Hq. simpl in Hq. lia.
Qed.

Lemma stable_create_parent K p :
  clear Z p → parents_to p → stable (keeps_files K) (create_parent p).
Proof.
  intros Hcl Hp. unfold create_parent. destruct (parent p) as [d|] eqn:Hd.
  - apply stable_mkdir; [|by apply (dirs_to_parent p)].
    eapply clear_prefix; [done|]. by apply parent_prefix.
  - apply stable_ret.
Qed.

(** Removing a file and ignoring errors, as the guards do. *)
Lemma release_keeps K p fs :
  clear Z p → ¬ K p →
  keeps_files K fs (match fs_remove_file fs p with inr fs' => fs' | inl _ => fs end).
Proof.
  intros Hcl HK Hok. destruct (fs_remove_file fs p) as [|fs'] eqn:Hr; [done|].
  apply (remove_clear Z fs (st_fs fs Hok)) in Hr as (-> & Hfs & _); [|done].
  split; [by apply store_ok_delete|].
  intros q Hq. apply file_of_delete_ne. by intros ->.
Qed.
End prims.
End keeps.

(** Using a frame at one run. *)
Lemma keeps_run {E A : Type} Z I K (m : M E A) w r w' :
  stable (keeps_files Z I K) m → store_ok Z I (w_fs w) → m w = (r, w') →
  store_ok Z I (w_fs w') ∧ ∀ q, K q → file_of (w_fs w') q = file_of (w_fs w) q.
Proof. intros Hm Hok Hw. specialize (Hm w Hok). by rewrite Hw in Hm. Qed.
