(* ===== verification/Fsx.v ===== *)
(** * fsx.rs: project copies, snapshots, checked joins

    The operations of [codex-new-core/src/fsx.rs] on the modelled file
    system. *)

From S2P Require Import Prelude RustStr FsModel World Models.

Section fsx.
Context `{Sys}.

Definition DEFAULT_IGNORES : list string :=
  [".git"; ".venv"; "venv"; "node_modules"; "target"; "dist"; "build";
   ".next"; ".turbo"; ".cache"].

(** [ignored]: some component is one of the default ignores. *)
Definition ignored (relative : path) : bool :=
  existsb (λ c, existsb (String.eqb c) DEFAULT_IGNORES) relative.

Definition hash_of (s : string) : string := "sha256:" +:+ sha256_hex s.

(** [file_hash]: a missing file and a non-file (a link is not followed) have
    no hash. *)
Definition file_hash (p : path) : R (option string) :=
  fs ← get_fs;
  match lstat fs p with
  | inl NotFound => mret None
  | inl k => throw (Io k)
  | inr (File _) => s ← read p; mret (Some (hash_of s))
  | inr _ => mret None
  end.

(** [copy_project]: every directory and regular file below [source] that is
    not ignored. *)
Definition copy_entry (source destination : path) (entry : path * node) : R unit :=
  let relative := fst entry in
  if bool_decide (relative = []) || ignored relative then mret tt else
  let destination_path := destination ++ relative in
  match snd entry with
  | Dir => create_dir_all destination_path
  | File _ =>
      _ ← create_parent destination_path;
      copy (source ++ relative) destination_path
  | Link _ => mret tt
  end.

(** [WalkDir] with its errors turned into [anyhow] errors. *)
Definition walk (root : path) : R (list (path * node)) :=
  r ← attempt (E' := io_kind) (walk_dir (H0 := λ k, k) root);
  match r with
  | inr entries => mret entries
  | inl k => throw (Other ("IO error for operation on " +:+ display root +:+ ": "
                           +:+ io_message k))
  end.

Definition copy_project (source destination : path) : R unit :=
  _ ← create_dir_all destination;
  entries ← walk source;
  forM_ entries (copy_entry source destination).

(** [checked_join]: refuses absolute paths and parent components. *)
Definition checked_join_opt (root : path) (relative : string) : option path :=
  if is_absolute relative || existsb (String.eqb "..") (comps relative)
  then None else Some (join root relative).

Definition checked_join (root : path) (relative : string) : R path :=
  ok_or (checked_join_opt root relative) (PathOutsideProject relative).

(** [copy_file_or_remove]. *)
Definition copy_file_or_remove (source_root destination_root : path) (p : string)
  : R unit :=
  source ← checked_join source_root p;
  destination ← checked_join destination_root p;
  b ← is_file source;
  if (b : bool) then
    _ ← create_parent destination;
    copy source destination
  else
    e ← exists_ destination;
    if (e : bool) then remove_file destination else mret tt.

(** [encode_path]: both separators become two underscores. *)
Definition backslash : ascii := ascii_of_N 92.
Definition encode_path (p : string) : string :=
  replace_char "/" "__" (replace_char backslash "__" p).

Definition snapshot_blob_path (snapshot_root : path) (p : string) : path :=
  join snapshot_root (encode_path p +:+ ".blob").
Definition snapshot_missing_path (snapshot_root : path) (p : string) : path :=
  join snapshot_root (encode_path p +:+ ".missing").

(** [snapshot_file]: saves the file as a blob, or its absence as a marker. *)
Definition snapshot_file (source_root snapshot_root : path) (p : string) : R unit :=
  source ← checked_join source_root p;
  let destination := snapshot_blob_path snapshot_root p in
  let missing_marker := snapshot_missing_path snapshot_root p in
  _ ← create_parent destination;
  b ← is_file source;
  if (b : bool) then
    e ← exists_ missing_marker;
    _ ← (if (e : bool) then remove_file missing_marker else mret tt);
    copy source destination
  else
    e ← exists_ destination;
    _ ← (if (e : bool) then remove_file destination else mret tt);
    write missing_marker "".

Definition snapshot_blob_exists (snapshot_root : path) (p : string) : R bool :=
  exists_ (snapshot_blob_path snapshot_root p).

(** [restore_snapshot]. *)
Definition restore_snapshot (snapshot_root destination_root : path) (p : string)
  : R unit :=
  let snapshot := snapshot_blob_path snapshot_root p in
  let missing_marker := snapshot_missing_path snapshot_root p in
  destination ← checked_join destination_root p;
  m ← exists_ missing_marker;
  if (m : bool) then
    d ← exists_ destination;
    if (d : bool) then remove_file destination else mret tt
  else
    s ← exists_ snapshot;
    if (s : bool) then
      _ ← create_parent destination;
      copy snapshot destination
    else
      d ← exists_ destination;
      if (d : bool) then remove_file destination else mret tt.

(** [link_dir_if_missing], Unix branch. *)
Definition link_dir_if_missing (source dest : path) : R unit :=
  e ← exists_ dest;
  if (e : bool) then mret tt else
  _ ← create_parent dest;
  symlink source dest.
End fsx.
