(* ===== verification/Workspace.v ===== *)
(** * git.rs and workspace.rs: the git command line, and preparing the isolated
      workspace of a task

    The functions of [codex-new-core/src/git.rs], the repository lookup of
    [git-utils/src/info.rs], and [codex-new-core/src/workspace.rs].  The [git]
    executable itself is the parameter [git_run]. *)

From S2P Require Import Prelude RustStr FsModel World Models Fsx.

Section git.
Context `{Sys}.

(** [find_ancestor_git_entry]: the nearest ancestor with a [.git] entry. *)
Fixpoint find_ancestor_git (fs : fsys) (fuel : nat) (base : path) : option path :=
  if fs_exists fs (join base ".git") then Some base else
  match fuel, parent base with
  | S fuel', Some d => find_ancestor_git fs fuel' d
  | _, _ => None
  end.

Definition get_git_repo_root (fs : fsys) (base_dir : path) : option path :=
  if fs_is_dir fs base_dir then find_ancestor_git fs (length base_dir) base_dir
  else match parent base_dir with
       | Some base => find_ancestor_git fs (length base) base
       | None => None
       end.

Definition git (cwd : path) (args : list string) : R cmd_output :=
  lift_cmd (git_run cwd args).

(** [Command::new("git")....output().ok()?]. *)
Definition git_ok (cwd : path) (args : list string) : R (option cmd_output) :=
  r ← attempt (git cwd args);
  mret (match r with inr o => Some o | inl _ => None end).

Definition head_revision (p : path) : R (option string) :=
  o ← git_ok p ["rev-parse"; "HEAD"];
  mret (match o with
        | Some out =>
            if negb (success out) then None
            else if negb (utf8_valid (out_stdout out)) then None
            else let hash := trim (out_stdout out) in
                 if String.eqb hash "" then None else Some hash
        | None => None
        end).

Definition branch_name (p : path) : R (option string) :=
  o ← git_ok p ["rev-parse"; "--abbrev-ref"; "HEAD"];
  mret (match o with
        | Some out =>
            if negb (success out) then None
            else if negb (utf8_valid (out_stdout out)) then None
            else let branch := trim (out_stdout out) in
                 if String.eqb branch "" || String.eqb branch "HEAD" then None
                 else Some branch
        | None => None
        end).

Definition has_changes (p : path) : R bool :=
  o ← git_ok p ["status"; "--porcelain"];
  mret (match o with
        | Some out => success out && negb (String.eqb (out_stdout out) "")
        | None => false
        end).

Definition branch_exists (repo : path) (branch : string) : R bool :=
  o ← git repo ["show-ref"; "--verify"; "--quiet"; "refs/heads/" +:+ branch];
  mret (success o).

(** The loop of [worktree_for_branch] over the porcelain listing. *)
Fixpoint worktree_scan (branch : string) (current_path : option path) (ls : list string)
  : option path :=
  match ls with
  | [] => None
  | line :: ls' =>
      match strip_prefix "worktree " line with
      | Some p => worktree_scan branch (Some (join [] p)) ls'
      | None =>
          match strip_prefix "branch " line with
          | Some branch_ref =>
              if bool_decide (strip_prefix "refs/heads/" branch_ref = Some branch)
              then current_path
              else worktree_scan branch current_path ls'
          | None => worktree_scan branch current_path ls'
          end
      end
  end.

Definition worktree_for_branch (repo : path) (branch : string) : R (option path) :=
  o ← git_ok repo ["worktree"; "list"; "--porcelain"];
  mret (match o with
        | Some out =>
            if negb (success out) then None
            else worktree_scan branch None (lines (from_utf8_lossy (out_stdout out)))
        | None => None
        end).

Definition create_worktree (repo destination : path) (branch : string) : R unit :=
  e ← exists_ destination;
  if (e : bool) then mret tt else
  _ ← create_parent destination;
  b ← branch_exists repo branch;
  taken ← (if (b : bool) then worktree_for_branch repo branch else mret None);
  if bool_decide (is_Some (taken : option path))
  then throw (GitErr ("branch " +:+ branch +:+ " is already checked out elsewhere"))
  else
    o ← git repo ["worktree"; "add"; "-B"; branch; display destination];
    if success o then mret tt
    else throw (GitErr ("git worktree add failed with status " +:+ out_status o)).

Definition prune_worktrees (repo : path) : R unit :=
  o ← git repo ["worktree"; "prune"];
  if success o then mret tt
  else throw (GitErr ("git worktree prune failed with status " +:+ out_status o)).

Definition workspace_diff (workspace : path) : R string :=
  o ← git workspace ["diff"; "--binary"; "HEAD"];
  if success o then mret (from_utf8_lossy (out_stdout o))
  else throw (GitErr (from_utf8_lossy (out_stderr o))).
End git.

Record PreparedWorkspace := {
  pw_task_id : string;
  pw_workspace_root : path;
  pw_strategy : WorkspaceStrategy;
  pw_branch_name : option string;
  pw_base_revision : option string
}.

Section workspace.
Context `{Sys}.

(** [s.get(..n)]: [None] when [n] is out of range or not a character
    boundary. *)
Definition get_prefix (n : nat) (s : string) : option string :=
  if (n <=? String.length s) &&
     match drop n (bytes s) with c :: _ => negb (is_cont c) | [] => true end
  then Some (of_bytes (take n (bytes s))) else None.

(** [short_task_id]. *)
Definition short_task_id (task_id : string) : string :=
  default task_id (get_prefix 8 task_id).

(** The characters [sanitize_path_component] replaces, and the control
    characters. *)
Definition sanitized_byte (c : ascii) : bool :=
  existsb (λ n, (code c =? n)%N) [47; 92; 58; 42; 63; 34; 60; 62; 124]%N
  || (code c <? 32)%N || (code c =? 127)%N.

(** Bytes of the two-byte control characters U+0080 to U+009F become one
    underscore. *)
Fixpoint sanitize_go (l : list ascii) : list ascii :=
  match l with
  | [] => []
  | c :: l1 =>
      if sanitized_byte c then "_"%char :: sanitize_go l1 else
      match l1 with
      | d :: l2 =>
          if (code c =? 194)%N && (128 <=? code d)%N && (code d <=? 159)%N
          then "_"%char :: sanitize_go l2
          else c :: sanitize_go l1
      | [] => [c]
      end
  end.

Definition sanitize_path_component (value : string) : string :=
  let trimmed := trim (trim_matches_char "_" (of_bytes (sanitize_go (bytes value)))) in
  if String.eqb trimmed "" then "project" else trimmed.

Definition workspace_task_root (fs : fsys) (workspaces_root : path)
    (project : ProjectRecord) (task_id : string) (created_at : Z) : path :=
  let legacy := join (join workspaces_root (proj_id project)) task_id in
  if fs_exists fs legacy then legacy else
  join (join workspaces_root (sanitize_path_component (proj_name project)))
    (format_minute created_at +:+ "_" +:+ short_task_id task_id).

(** [&task_id[..8.min(task_id.len())]]; slicing inside a character panics. *)
Definition id_prefix (task_id : string) : R string :=
  match get_prefix (Nat.min 8 (String.length task_id)) task_id with
  | Some s => mret s
  | None => panic "byte index is not a char boundary"
  end.

Definition prepare_workspace (project : ProjectRecord) (task_id : string)
    (workspaces_root : path) (created_at : Z) : R PreparedWorkspace :=
  fs ← get_fs;
  let task_root := workspace_task_root fs workspaces_root project task_id created_at in
  use_worktree ←
    match workspace_strategy (settings project) with
    | Worktree => mret true
    | Copy => mret false
    | Auto =>
        match git_root project with
        | Some _ => b ← has_changes (root_path project); mret (negb b)
        | None => mret false
        end
    end;
  let worktree (root : path) (branch : string) (git_dir : path) :=
    rev ← head_revision git_dir;
    mret {| pw_task_id := task_id; pw_workspace_root := root;
            pw_strategy := Worktree; pw_branch_name := Some branch;
            pw_base_revision := rev |} in
  let by_copy :=
    let root := join task_root "copy" in
    _ ← copy_project (root_path project) root;
    rev ← match git_root project with
          | Some d => head_revision d
          | None => mret None
          end;
    mret {| pw_task_id := task_id; pw_workspace_root := root;
            pw_strategy := Copy; pw_branch_name := None;
            pw_base_revision := rev |} in
  match (use_worktree : bool), git_root project with
  | true, Some git_dir =>
      let root := join task_root "worktree" in
      let branch := "codex-new/task/" +:+ short_task_id task_id in
      e ← exists_ root;
      if (e : bool) then worktree root branch git_dir else
      r ← attempt (create_worktree git_dir root branch);
      match (r : CodexNewError + unit) with
      | inr _ => worktree root branch git_dir
      | inl _ =>
          suffix ← id_prefix task_id;
          let unique_branch := branch +:+ "-" +:+ suffix in
          _ ← attempt (prune_worktrees git_dir);
          r2 ← attempt (create_worktree git_dir root unique_branch);
          match (r2 : CodexNewError + unit) with
          | inr _ => worktree root unique_branch git_dir
          | inl _ => by_copy
          end
      end
  | _, _ => by_copy
  end.
End workspace.
