(* ===== verification/Environment.v ===== *)
(** * environment.rs and test_commands.rs: project environments

    Detection of the tools of a project, the binding stored in a task's
    manifest, its validation, and what is installed in an isolated workspace
    (directory links, [.codex/config.toml]).  Unix branches of [cfg!(windows)].
    The entries of [PATH] are taken to be absolute. *)

From S2P Require Import Prelude RustStr FsModel World Models Fsx.

Record EnvironmentCandidate := {
  c_environment_root : path;
  c_env_vars : gmap string string;
  c_path_entries : list path;
  c_shared_paths : list SharedPathMount;
  c_detected_tools : list DetectedTool;
  c_score : Z;
  c_notes : list string
}.

Section environment.
Context `{Sys}.

(** [env::split_paths]. *)
Definition split_paths (s : string) : list path := map (join []) (split_char ":" s).

(** [env::join_paths]: an entry must not contain the separator. *)
Definition join_paths (l : list path) : option string :=
  let names := map display l in
  if existsb (contains ":") names then None else Some (join_with ":" names).

Definition candidate_paths (entry : path) (tool : string) : list path := [join entry tool].

Definition find_on_path (fs : fsys) (tool : string) : option path :=
  match env_var "PATH" with
  | None => None
  | Some p =>
      find_first (fs_exists fs)
        (concat (map (λ entry, candidate_paths entry tool) (split_paths p)))
  end.

Definition detect_tools (fs : fsys) (eco : string) (tools : list string)
  : list DetectedTool :=
  omap (λ tool, (λ p, {| ecosystem := eco; tool_name := tool; executable := p;
                         version_hint := None |}) <$> find_on_path fs tool) tools.

Definition detect_python (fs : fsys) (project_root : path) : option EnvironmentCandidate :=
  venv ← find_first (fs_exists fs)
           (map (λ name, join project_root (trim name)) [".venv"; "venv"]);
  let python := join (join venv "bin") "python" in
  bin_dir ← parent python;
  Some {| c_environment_root := project_root;
          c_env_vars := {[ "VIRTUAL_ENV" := display venv ]};
          c_path_entries := [bin_dir];
          c_shared_paths := [{| mount_kind := VirtualEnv; mount_source := venv;
                                target_hint := Some bin_dir; read_only := true |}];
          c_detected_tools := [{| ecosystem := "python"; tool_name := "python";
                                  executable := python; version_hint := None |}];
          c_score := 100;
          c_notes := ["Detected project virtual environment."] |}.

Definition detect_node (fs : fsys) (project_root : path) : option EnvironmentCandidate :=
  if negb (fs_exists fs (join project_root "package.json")) then None else
  let bin_dir := join (join project_root "node_modules") ".bin" in
  let has_bin := fs_exists fs bin_dir in
  Some {| c_environment_root := project_root;
          c_env_vars := ∅;
          c_path_entries := if has_bin then [bin_dir] else [];
          c_shared_paths :=
            if has_bin then
              [{| mount_kind := NodeModules; mount_source := join project_root "node_modules";
                  target_hint := Some bin_dir; read_only := true |}]
            else [];
          c_detected_tools := detect_tools fs "node" ["node"; "npm"; "pnpm"; "yarn"; "bun"];
          c_score := if has_bin then 100 else 20;
          c_notes :=
            "Detected Node project metadata."
            :: (if has_bin then ["Detected project-local node_modules/.bin."] else []) |}.

Definition env_entry (key : string) (m : gmap string string) : gmap string string :=
  match env_var key with Some v => <[key := v]> m | None => m end.

Definition detect_rust (fs : fsys) (project_root : path) : option EnvironmentCandidate :=
  if negb (fs_exists fs (join project_root "Cargo.toml")) then None else
  Some {| c_environment_root := project_root;
          c_env_vars := env_entry "RUSTUP_HOME" (env_entry "CARGO_HOME" ∅);
          c_path_entries := [];
          c_shared_paths := [];
          c_detected_tools := detect_tools fs "rust" ["cargo"; "rustc"; "rustup"];
          c_score := 60;
          c_notes := ["Detected Rust project metadata."] |}.

Definition wrapper_mount (p : path) : SharedPathMount :=
  {| mount_kind := Wrapper; mount_source := p; target_hint := None; read_only := true |}.

Definition detect_java (fs : fsys) (project_root : path) : option EnvironmentCandidate :=
  let gradlew := join project_root "gradlew" in
  let mvnw := join project_root "mvnw" in
  if negb (fs_exists fs gradlew) && negb (fs_exists fs mvnw)
     && negb (fs_exists fs (join project_root "pom.xml")) then None else
  Some {| c_environment_root := project_root;
          c_env_vars := ∅;
          c_path_entries := [];
          c_shared_paths :=
            (if fs_exists fs gradlew then [wrapper_mount gradlew] else [])
            ++ (if fs_exists fs mvnw then [wrapper_mount mvnw] else []);
          c_detected_tools := detect_tools fs "java" ["java"; "javac"];
          c_score := 40;
          c_notes := ["Detected Java wrapper or build metadata."] |}.

Definition option_list {A} (o : option A) : list A :=
  match o with Some a => [a] | None => [] end.

Definition discover_environment_candidates (fs : fsys) (project_root : path)
  : list EnvironmentCandidate :=
  option_list (detect_python fs project_root)
  ++ option_list (detect_node fs project_root)
  ++ option_list (detect_rust fs project_root)
  ++ option_list (detect_java fs project_root)
  ++ [{| c_environment_root := project_root;
         c_env_vars := ∅;
         c_path_entries := match env_var "PATH" with
                           | Some p => split_paths p
                           | None => []
                           end;
         c_shared_paths := [];
         c_detected_tools := [];
         c_score := 1;
         c_notes := ["Using inherited shell environment."] |}].

(** [Iterator::max_by_key]: the last of the greatest elements. *)
Fixpoint max_by_score (best : EnvironmentCandidate) (l : list EnvironmentCandidate)
  : EnvironmentCandidate :=
  match l with
  | [] => best
  | c :: l' => max_by_score (if (c_score best <=? c_score c)%Z then c else best) l'
  end.

Definition fingerprint_environment (project : ProjectRecord) (ws : path)
    (c : EnvironmentCandidate) : string :=
  sha256_hex
    (concat_str
      ([proj_id project; display (root_path project); display ws;
        display (c_environment_root c)]
       ++ concat (map (λ kv, [fst kv; snd kv]) (btree_list (c_env_vars c)))
       ++ map display (c_path_entries c))).

(** [&s[..n]]. *)
Definition slice_to (n : nat) (s : string) : R string :=
  if n <=? String.length s then mret (of_bytes (take n (bytes s)))
  else panic "byte index out of range".

Definition bind_environment (project : ProjectRecord) (ws : path)
    (c : EnvironmentCandidate) (strategy : EnvironmentStrategy) : R EnvironmentBinding :=
  let fp := fingerprint_environment project ws c in
  short ← slice_to 12 fp;
  t1 ← now;
  t2 ← now;
  mret {| profile_id := "env_" +:+ short;
          eb_project_id := proj_id project;
          eb_workspace_root := ws;
          environment_root := c_environment_root c;
          eb_strategy := strategy;
          fingerprint := fp;
          detected_at := t1;
          env_vars := c_env_vars c;
          path_entries := c_path_entries c;
          shared_paths := c_shared_paths c;
          detected_tools := c_detected_tools c;
          validation := {| is_valid := true; checked_at := t2; notes := c_notes c |} |}.

Definition detect_environment_binding (project : ProjectRecord) (ws : path)
  : R (option EnvironmentBinding) :=
  fs ← get_fs;
  match discover_environment_candidates fs (root_path project) with
  | [] => mret None
  | c :: l =>
      b ← bind_environment project ws (max_by_score c l) InheritProject;
      mret (Some b)
  end.

(** [validate_environment_binding]. *)
Definition missing_mounts (fs : fsys) (b : EnvironmentBinding) : list string :=
  omap (λ m, if fs_exists fs (mount_source m) then None
             else Some ("Missing shared path: " +:+ display (mount_source m)))
    (shared_paths b).
Definition missing_tools (fs : fsys) (b : EnvironmentBinding) : list string :=
  omap (λ t, if fs_exists fs (executable t) then None
             else Some ("Missing tool " +:+ tool_name t +:+ ": " +:+ display (executable t)))
    (detected_tools b).

Definition no_tools_note : string :=
  "No project-local venv/node tools detected; shell uses .codex/config.toml plus system PATH.".

Definition validate_environment_binding (b : EnvironmentBinding)
  : R EnvironmentValidation :=
  fs ← get_fs;
  let missing := missing_mounts fs b ++ missing_tools fs b in
  t ← now;
  mret {| is_valid := bool_decide (missing = []);
          checked_at := t;
          notes := missing ++
                   (if bool_decide (length (detected_tools b) = 0)
                    then [no_tools_note] else []) |}.

(** [build_command_environment]; the overrides win. *)
Definition build_command_environment (b : option EnvironmentBinding)
    (overrides : gmap string string) : gmap string string :=
  let base :=
    match b with
    | None => ∅
    | Some b =>
        match path_entries b with
        | [] => env_vars b
        | entries =>
            let inherited :=
              match env_var "PATH" with Some p => split_paths p | None => [] end in
            match join_paths (entries ++ inherited) with
            | Some v => <["PATH" := v]> (env_vars b)
            | None => env_vars b
            end
        end
    end in
  overrides ∪ base.

(** [materialize_shared_paths]: the binding is only changed at the end. *)
Definition mount_dest (ws : path) (k : SharedPathKind) : option path :=
  match k with
  | VirtualEnv => Some (join ws ".venv")
  | NodeModules => Some (join ws "node_modules")
  | Toolchain | Cache | Wrapper | OtherShared => None
  end.

Definition materialize_one (ws : path) (linked : list string) (m : SharedPathMount)
  : R (list string) :=
  match mount_dest ws (mount_kind m) with
  | None => mret linked
  | Some dest =>
      e ← exists_ dest;
      if (e : bool) then mret linked else
      d ← is_dir (mount_source m);
      if negb (d : bool) then mret linked else
      _ ← link_dir_if_missing (mount_source m) dest;
      mret (linked ++ [display dest +:+ " -> " +:+ display (mount_source m)])
  end.

Definition add_notes (l : list string) (v : EnvironmentValidation) : EnvironmentValidation :=
  {| is_valid := is_valid v; checked_at := checked_at v; notes := notes v ++ l |}.

Definition materialize_shared_paths (ws : path) (b : EnvironmentBinding)
  : R (list string * EnvironmentBinding) :=
  linked ← foldM (materialize_one ws) [] (shared_paths b);
  mret (linked,
        match linked with
        | [] => b
        | _ => set_validation
                 (add_notes (map (λ e, "Linked from original project: " +:+ e) linked)
                    (validation b)) b
        end).

(** [write_shell_environment_config]. *)
Definition config_header : string :=
  "# Generated by CodexStudy security mode." +:+ nl +:+
  "# Shell commands in this isolated workspace inherit the linked project environment."
  +:+ nl.

Definition shell_path_value (entries : list path) : string :=
  let prefix := join_with ":" (map display entries) in
  let inherited := default "" (env_var "PATH") in
  if String.eqb inherited "" then prefix
  else if String.eqb prefix "" then inherited
  else prefix +:+ ":" +:+ inherited.

Definition write_shell_environment_config (ws : path) (b : EnvironmentBinding) : R unit :=
  let codex_dir := join ws ".codex" in
  _ ← create_dir_all codex_dir;
  let set := match path_entries b with
             | [] => env_vars b
             | entries => <["PATH" := shell_path_value entries]> (env_vars b)
             end in
  body ← ok_or (toml_shell_policy "core" set) (Other "toml");
  write (join codex_dir "config.toml") (config_header +:+ body).

(** [configure_isolated_workspace_environment]: returns the binding after its
    mutations. *)
Definition configure_isolated_workspace_environment (ws : path) (b : EnvironmentBinding)
  : R EnvironmentBinding :=
  r ← materialize_shared_paths ws b;
  let b1 := snd (r : list string * EnvironmentBinding) in
  v ← validate_environment_binding b1;
  let b2 := set_validation v b1 in
  _ ← (if is_valid v || bool_decide (length (detected_tools b2) ≠ 0)
       then (_ ← attempt (E' := CodexNewError) (write_shell_environment_config ws b2);
             mret tt)
       else mret tt);
  mret b2.

(** ** test_commands.rs *)

(** [dedupe_commands]. *)
Definition dedupe_commands (commands : list string) : list string :=
  foldl (λ seen command,
    if is_blank command || existsb (String.eqb command) seen then seen
    else seen ++ [command]) [] commands.

Definition node_runner (fs : fsys) (project_root : path) : string :=
  if fs_exists fs (join project_root "pnpm-lock.yaml") then "pnpm"
  else if fs_exists fs (join project_root "bun.lockb")
          || fs_exists fs (join project_root "bun.lock") then "bun"
  else if fs_exists fs (join project_root "yarn.lock") then "yarn"
  else "npm".

Definition detect_node_test_commands `{Serde json} (fs : fsys) (project_root : path)
  : list string :=
  match fs_read fs (join project_root "package.json") with
  | inl _ => []
  | inr bytes =>
      match from_slice bytes with
      | None => []
      | Some value =>
          match json_get "scripts" value with
          | Some (JObj scripts) =>
              let has key := existsb (λ kv, String.eqb key (fst kv)) scripts in
              let commands :=
                omap (λ key, if has key
                             then Some (node_runner fs project_root +:+ " run " +:+ key)
                             else None)
                  ["test"; "test:unit"; "test:ci"; "check"; "lint"] in
              match commands with
              | [] => if has "test" then ["npm test"] else []
              | _ => commands
              end
          | _ => []
          end
      end
  end.

Definition detect_rust_test_commands (fs : fsys) (project_root : path) : list string :=
  if negb (fs_exists fs (join project_root "Cargo.toml")) then [] else ["cargo test"].

Definition detect_python_test_commands (fs : fsys) (project_root : path) : list string :=
  if negb (fs_exists fs (join project_root "pyproject.toml"))
     && negb (fs_exists fs (join project_root "pytest.ini"))
     && negb (fs_exists fs (join project_root "setup.cfg"))
     && negb (fs_exists fs (join project_root "requirements.txt")) then []
  else if fs_exists fs (join project_root ".venv") || fs_exists fs (join project_root "venv")
  then [".venv/bin/python -m pytest"; "python -m pytest"]
  else ["python -m pytest"; "pytest"].

Definition detect_just_test_commands (fs : fsys) (project_root : path) : list string :=
  if negb (fs_exists fs (join project_root "justfile"))
     && negb (fs_exists fs (join project_root "Justfile")) then [] else ["just test"].

Definition detect_test_commands `{Serde json} (fs : fsys) (project_root : path)
  : list string :=
  dedupe_commands
    (detect_node_test_commands fs project_root
     ++ detect_rust_test_commands fs project_root
     ++ detect_python_test_commands fs project_root
     ++ detect_just_test_commands fs project_root).

Definition merge_detected_test_commands `{Serde json} (fs : fsys) (project_root : path)
    (existing : list string) : list string :=
  dedupe_commands (existing ++ detect_test_commands fs project_root).
End environment.
