(* ===== verification/Activity.v ===== *)
(** * codex-new-core: timelines, command runs, task records, recovery, review

    [activity.rs], [sessions.rs], [recovery.rs], [review.rs] and [policy.rs]. *)

From S2P Require Import Prelude RustStr FsModel World Models Fsx Workspace.

Section activity.
Context `{Sys} `{Codecs}.

(** ** activity.rs *)

Definition timeline_file (task_root : path) : path := join task_root "timeline.jsonl".

(** [append_timeline_event]: the sequence number is the number of lines
    already in the file ([0] when it cannot be read). *)
Definition append_timeline_event (task_root : path) (tid : string)
    (kind : TimelineEventKind) (payload : json) : R TimelineEvent :=
  _ ← create_dir_all task_root;
  let timeline_path := timeline_file task_root in
  r ← attempt (E' := CodexNewError) (read_to_string timeline_path);
  let seq := match r with
             | inr text => N.of_nat (length (lines text))
             | inl _ => 0%N
             end in
  id ← new_uuid;
  t ← now;
  let event := {| ev_id := id; ev_task_id := tid; ev_seq := seq; ev_kind := kind;
                  ev_created_at := t; ev_payload := payload |} in
  _ ← append_file timeline_path (to_line event +:+ nl);
  mret event.

(** The selection of events returned by [read_timeline_events]. *)
Definition page (after_seq : option N) (limit : nat) (events : list TimelineEvent)
  : list TimelineEvent :=
  match after_seq with
  | Some a =>
      let newer := List.filter (λ e, (a <? ev_seq e)%N) events in
      if (0 <? limit) && (limit <? length newer) then take limit newer else newer
  | None =>
      if (0 <? limit) && (limit <? length events) then last_n limit events else events
  end.

Definition parse_timeline (text : string) : list TimelineEvent :=
  omap from_line (List.filter (λ l, negb (is_blank l)) (lines text)).

Definition read_timeline_events (task_root : path) (tid : string)
    (after_seq : option N) (limit : nat) : R TaskActivityFeed :=
  let timeline_path := timeline_file task_root in
  e ← exists_ timeline_path;
  if negb (e : bool)
  then mret {| feed_task_id := tid; latest_seq := 0; feed_events := [] |}
  else
    bytes ← read timeline_path;
    let events := parse_timeline (from_utf8_lossy bytes) in
    mret {| feed_task_id := tid;
            latest_seq := match last events with Some ev => ev_seq ev | None => 0 end;
            feed_events := page after_seq limit events |}.

Definition command_run_path (task_root : path) (command_id : string) : path :=
  join (join task_root "terminal") (command_id +:+ ".json").

Definition write_command_run (task_root : path) (record : CommandRunRecord) : R unit :=
  let p := command_run_path task_root (run_id record) in
  _ ← create_parent p;
  write p (to_vec_pretty record).

Definition read_command_run (task_root : path) (command_id : string)
  : R (option CommandRunRecord) :=
  let p := command_run_path task_root command_id in
  e ← exists_ p;
  if negb (e : bool) then mret None else
  bytes ← read p;
  Some <$> from_json bytes.

(** [path.extension() == "json"]: the file name has a [.json] suffix and a
    non-empty stem. *)
Definition has_json_extension (name : string) : bool :=
  match strip_suffix ".json" name with
  | Some stem => negb (String.eqb stem "")
  | None => false
  end.

Definition read_ok (fs : fsys) (p : path) : option string :=
  match fs_read fs p with inr s => Some s | inl _ => None end.

Definition list_command_runs (task_root : path) (limit : nat)
  : R (list CommandRunRecord) :=
  let terminal_root := join task_root "terminal" in
  e ← exists_ terminal_root;
  if negb (e : bool) then mret [] else
  names ← read_dir terminal_root;
  fs ← get_fs;
  let runs := omap (λ name,
      if has_json_extension name
      then read_ok fs (terminal_root ++ [name]) ≫= from_slice else None) names in
  let runs := sort_by (λ a b, (started_at a <=? started_at b)%Z) runs in
  mret (if (0 <? limit) && (limit <? length runs) then last_n limit runs else runs).

(** ** sessions.rs *)

Definition conversation_binding_path (project_root : path) (conv_id : string) : path :=
  join (join project_root "conversations") (conv_id +:+ ".json").
Definition task_record_path (project_root : path) (tid : string) : path :=
  join (join (join project_root "tasks") tid) "task.json".

Definition read_conversation_binding (project_root : path) (conv_id : string)
  : R (option ConversationBinding) :=
  let p := conversation_binding_path project_root conv_id in
  e ← exists_ p;
  if negb (e : bool) then mret None else
  bytes ← read p;
  Some <$> from_json bytes.

Definition write_conversation_binding (project_root : path) (project_id conv_id : string)
    (active : option string) : R ConversationBinding :=
  let p := conversation_binding_path project_root conv_id in
  _ ← create_parent p;
  t ← now;
  old ← read_conversation_binding project_root conv_id;
  let binding := {|
    cb_project_id := project_id;
    cb_conversation_id := conv_id;
    active_task_id := active;
    cb_created_at := match old with Some b => cb_created_at b | None => t end;
    cb_updated_at := t |} in
  _ ← write p (to_vec_pretty binding);
  mret binding.

(** [find_latest_unfinished_task]. *)
Definition unfinished_tasks (fs : fsys) (tasks_root : path) (names : list string)
  : list TaskRecord :=
  List.filter (λ t, negb (is_terminal (task_status t)))
    (omap (λ name, let p := join (tasks_root ++ [name]) "task.json" in
                   if fs_exists fs p then read_ok fs p ≫= from_slice else None) names).

Definition find_latest_unfinished_task (project_root : path) : R (option TaskRecord) :=
  let tasks_root := join project_root "tasks" in
  e ← exists_ tasks_root;
  if negb (e : bool) then mret None else
  names ← read_dir tasks_root;
  fs ← get_fs;
  mret (last (sort_by (λ a b, (task_updated_at a <=? task_updated_at b)%Z)
                (unfinished_tasks fs tasks_root names))).

Definition write_task_record (project_root : path) (task : TaskRecord) : R unit :=
  let p := task_record_path project_root (task_id task) in
  _ ← create_parent p;
  write p (to_vec_pretty task).

Definition read_task_record (project_root : path) (tid : string) : R (option TaskRecord) :=
  let p := task_record_path project_root tid in
  e ← exists_ p;
  if negb (e : bool) then mret None else
  bytes ← read p;
  Some <$> from_json bytes.

(** ** manifest.rs: [TaskManifest::write_to_path] and [read_from_path] *)

Definition write_manifest (m : TaskManifest) (p : path) : R unit :=
  _ ← create_parent p;
  write p (to_vec_pretty m).

Definition read_manifest_from (p : path) : R TaskManifest :=
  bytes ← read p;
  from_json bytes.
End activity.

(** * recovery.rs: recovering tasks and the merge locks *)

Section recovery.
Context `{Sys}.

(** The statuses [recover_manifest] resets. *)
Definition is_failure (s : TaskStatus) : bool :=
  match s with
  | AgentInterrupted | AgentFailed | TestingFailed | WorkspaceConflict
  | EnvironmentBroken | MergeConflict | RollbackFailed => true
  | _ => false
  end.

(** [recover_manifest]; the first argument is [workspace_root.exists()]. *)
Definition recovered_status (workspace_exists : bool) (m : TaskManifest) : TaskStatus :=
  if negb workspace_exists then WorkspaceConflict
  else
    let broken := match environment_binding m with
                  | Some b => negb (is_valid (validation b))
                  | None => false
                  end in
    if broken then EnvironmentBroken
    else if is_failure (m_status m) then
      match changed_files m with [] => WorkspaceReady | _ => ChangesDetected end
    else m_status m.

Definition recover_manifest (m : TaskManifest) : R TaskManifest :=
  e ← exists_ (workspace_root m);
  mret (set_status (recovered_status e m) m).

Definition is_named (name : string) (p : path) : bool :=
  bool_decide (file_name p = Some name).

Definition recover_task_workspace (project : ProjectRecord) (m : TaskManifest)
    (workspaces_root : path) : R TaskManifest :=
  e ← exists_ (workspace_root m);
  if (e : bool) then mret m else
  fs ← get_fs;
  let task_root :=
    match parent (workspace_root m) with
    | Some d => if bool_decide (d = workspace_root m)
                then workspace_task_root fs workspaces_root project (m_task_id m)
                       (m_created_at m)
                else d
    | None => workspace_task_root fs workspaces_root project (m_task_id m) (m_created_at m)
    end in
  let ready root := set_status WorkspaceReady (set_workspace_root root m) in
  let by_copy :=
    let copy_root := if is_named "copy" (workspace_root m) then workspace_root m
                     else join task_root "copy" in
    _ ← create_parent copy_root;
    _ ← copy_project (root_path project) copy_root;
    mret (ready copy_root) in
  match git_root project with
  | None => by_copy
  | Some git_dir =>
      let worktree_root := if is_named "worktree" (workspace_root m) then workspace_root m
                           else join task_root "worktree" in
      let branch := "codex-new/task/" +:+ short_task_id (m_task_id m) in
      r ← attempt (create_worktree git_dir worktree_root branch);
      match (r : CodexNewError + unit) with
      | inr _ => mret (ready worktree_root)
      | inl _ =>
          _ ← prune_worktrees git_dir;
          r2 ← attempt (create_worktree git_dir worktree_root branch);
          match (r2 : CodexNewError + unit) with
          | inr _ => mret (ready worktree_root)
          | inl _ => by_copy
          end
      end
  end.

(** ** Locks

    A lock is a file under [<project>/locks]; the guards' [Drop] removes it
    and ignores errors. *)

Definition merge_lock_path (project_root : path) (tid : string) : path :=
  join (join project_root "locks") ("merge-" +:+ tid +:+ ".lock").
Definition path_lock_path (project_root : path) (p : string) : path :=
  join (join project_root "locks") ("path-" +:+ encode_path p +:+ ".lock").

Definition acquire_lock (lock_path : path) (locks_root : path) (held_message content : string)
  : R unit :=
  _ ← create_dir_all locks_root;
  e ← exists_ lock_path;
  if (e : bool) then throw (Other held_message)
  else write lock_path (content +:+ nl).

(** [MergeLockGuard::acquire]. *)
Definition acquire_merge_lock (project_root : path) (tid : string) : R unit :=
  acquire_lock (merge_lock_path project_root tid) (join project_root "locks")
    ("merge lock already held for task " +:+ tid) tid.

(** [MergeLockGuard::acquire_path]. *)
Definition acquire_path_lock (project_root : path) (p : string) : R unit :=
  acquire_lock (path_lock_path project_root p) (join project_root "locks")
    ("path lock already held for " +:+ p) p.

(** [Drop for MergeLockGuard] and [Drop for PathLockGuard]. *)
Definition release_lock (lock_path : path) (fs : fsys) : fsys :=
  match fs_remove_file fs lock_path with inr fs' => fs' | inl _ => fs end.
End recovery.

(** * review.rs and policy.rs: the policy review of a task *)

(** [merge_policy_for_project]. *)
Definition merge_policy_for_project (project : ProjectRecord) : MergePolicy := {|
  require_user_approval := require_user_approval MergePolicy_default;
  require_clean_review := require_clean_review MergePolicy_default;
  require_test_pass := require_tests (settings project);
  blocked_file_patterns := blocked_file_patterns MergePolicy_default;
  sensitive_file_patterns := sensitive_file_patterns MergePolicy_default;
  max_auto_merge_files := max_auto_merge_files MergePolicy_default;
  allow_lockfile_merge_without_reason :=
    allow_lockfile_merge_without_reason MergePolicy_default;
  allow_binary_merge := allow_binary_merge MergePolicy_default
|}.

Definition max_disposition (left right : ReviewDisposition) : ReviewDisposition :=
  match left, right with
  | Blocked, _ | _, Blocked => Blocked
  | NeedsUserApproval, _ | _, NeedsUserApproval => NeedsUserApproval
  | _, _ => Informational
  end.

Definition sensitive (policy : MergePolicy) (file : FileDiff) : bool :=
  existsb (λ pattern, contains pattern (fd_path file)) (sensitive_file_patterns policy).

(** One iteration of the loop over the files of the diff. *)
Definition review_file (policy : MergePolicy)
    (acc : ReviewDisposition * list ReviewIssue) (file : FileDiff)
  : ReviewDisposition * list ReviewIssue :=
  let acc1 :=
    if sensitive policy file
    then (Blocked, snd acc ++ [{| severity := High; ri_path := Some (fd_path file);
                                  ri_message := "Sensitive file changed." |}])
    else acc in
  if is_lockfile_fd file && negb (allow_lockfile_merge_without_reason policy)
  then (max_disposition (fst acc1) NeedsUserApproval,
        snd acc1 ++ [{| severity := Warning; ri_path := Some (fd_path file);
                        ri_message := "Lockfile changed and requires user approval." |}])
  else acc1.

(** [len() as u32 > max_auto_merge_files]: the cast keeps the low 32 bits. *)
Definition too_many_files (m : TaskManifest) (policy : MergePolicy) : bool :=
  (max_auto_merge_files policy
   <? N.of_nat (length (changed_files m)) mod 4294967296)%N.

Definition disposition_summary (d : ReviewDisposition) : string :=
  match d with
  | Informational => "Ready for normal user review."
  | NeedsUserApproval => "Change requires explicit user approval."
  | Blocked => "Change is blocked by policy and needs intervention."
  end.

Definition review_manifest (m : TaskManifest) (diff : DiffBundle) (policy : MergePolicy)
  : ReviewReport :=
  let acc := foldl (review_file policy) (Informational, []) (db_files diff) in
  let acc :=
    if too_many_files m policy
    then (max_disposition (fst acc) NeedsUserApproval,
          snd acc ++ [{| severity := Warning; ri_path := None;
                         ri_message := "Large change set: "
                           +:+ pretty (length (changed_files m)) +:+ " files changed." |}])
    else acc in
  let found := match snd acc with
               | [] => [{| severity := Info; ri_path := None;
                           ri_message := "No policy issues detected." |}]
               | l => l
               end in
  {| disposition := fst acc; issues := found; rr_summary := disposition_summary (fst acc) |}.
