(* ===== verification/Diff.v ===== *)
(** * diff.rs: diff bundles and hunk application *)

From S2P Require Import Prelude RustStr FsModel World Models Fsx Workspace.

Record ParsedHunk := {
  header : string;
  old_start : N;
  old_lines : N;
  new_start : N;
  new_lines : N;
  preview : list string;
  removals : list string;
  additions : list string
}.

Record ParsedFileDiff := { pf_binary : bool; pf_hunks : list ParsedHunk }.

(** ** The unified diff parser *)

Definition parse_range (value : string) : option (N * N) :=
  let '(start, count) := default (value, "1") (split_once "," value) in
  s ← parse_usize start;
  c ← parse_usize count;
  Some (s, c).

Definition parse_hunk_header (line : string) : option ParsedHunk :=
  rest ← strip_prefix "@@ " line;
  let marker := before_first " @@" rest in
  match split_whitespace marker with
  | old :: new :: _ =>
      old_range ← strip_prefix "-" old;
      '(os, ol) ← parse_range old_range;
      new_range ← strip_prefix "+" new;
      '(ns, nl_) ← parse_range new_range;
      Some {| header := line; old_start := os; old_lines := ol;
              new_start := ns; new_lines := nl_;
              preview := [line]; removals := []; additions := [] |}
  | _ => None
  end.

Definition parse_diff_git_path (line : string) : option string :=
  rest ← strip_prefix "diff --git " line;
  match split_whitespace rest with
  | a :: b :: _ =>
      a_path ← strip_prefix "a/" a;
      b_path ← strip_prefix "b/" b;
      Some (if String.eqb a_path "/dev/null" then b_path else a_path)
  | _ => None
  end.

(** The local variables of [parse_unified_diff]. *)
Record parse_state := {
  ps_files : gmap string ParsedFileDiff;
  ps_path : option string;
  ps_current : ParsedFileDiff;
  ps_hunk : option ParsedHunk
}.

Definition empty_file_diff : ParsedFileDiff := {| pf_binary := false; pf_hunks := [] |}.

Definition push_hunk (h : ParsedHunk) (f : ParsedFileDiff) : ParsedFileDiff :=
  {| pf_binary := pf_binary f; pf_hunks := pf_hunks f ++ [h] |}.

(** A body line of the current hunk. *)
Definition hunk_line (line : string) (h : ParsedHunk) : ParsedHunk :=
  match line with
  | String c rest =>
      if String.eqb rest "" then h
      else if Ascii.eqb c "-" then
        {| header := header h; old_start := old_start h; old_lines := old_lines h;
           new_start := new_start h; new_lines := new_lines h;
           preview := preview h ++ ["-" +:+ line];
           removals := removals h ++ [rest]; additions := additions h |}
      else if Ascii.eqb c "+" then
        {| header := header h; old_start := old_start h; old_lines := old_lines h;
           new_start := new_start h; new_lines := new_lines h;
           preview := preview h ++ ["+" +:+ line];
           removals := removals h; additions := additions h ++ [rest] |}
      else if Ascii.eqb c " " then
        {| header := header h; old_start := old_start h; old_lines := old_lines h;
           new_start := new_start h; new_lines := new_lines h;
           preview := preview h ++ [" " +:+ line];
           removals := removals h; additions := additions h |}
      else h
  | EmptyString => h
  end.

(** One iteration of the loop over [diff.lines()]. *)
Definition parse_line (st : parse_state) (line : string) : parse_state :=
  if starts_with "diff --git " line then
    {| ps_files := match ps_path st, ps_hunk st with
                   | Some p, Some h => <[p := push_hunk h (ps_current st)]> (ps_files st)
                   | _, _ => ps_files st
                   end;
       ps_path := parse_diff_git_path line;
       ps_current := empty_file_diff;
       ps_hunk := None |}
  else if starts_with "Binary files " line then
    {| ps_files := ps_files st; ps_path := ps_path st;
       ps_current := {| pf_binary := true; pf_hunks := pf_hunks (ps_current st) |};
       ps_hunk := ps_hunk st |}
  else if starts_with "@@ " line then
    {| ps_files := ps_files st; ps_path := ps_path st;
       ps_current := match ps_hunk st with
                     | Some h => push_hunk h (ps_current st)
                     | None => ps_current st
                     end;
       ps_hunk := parse_hunk_header line |}
  else
    {| ps_files := ps_files st; ps_path := ps_path st; ps_current := ps_current st;
       ps_hunk := hunk_line line <$> ps_hunk st |}.

Definition parse_unified_diff (diff : string) : gmap string ParsedFileDiff :=
  if is_blank diff then ∅ else
  let st := foldl parse_line
              {| ps_files := ∅; ps_path := None; ps_current := empty_file_diff;
                 ps_hunk := None |} (lines diff) in
  match ps_path st with
  | Some p =>
      <[p := match ps_hunk st with
             | Some h => push_hunk h (ps_current st)
             | None => ps_current st
             end]> (ps_files st)
  | None => ps_files st
  end.

(** ** Applying hunks *)

Definition usize_wrap (n : N) : N := n mod 18446744073709551616.

(** One splice; [None] where [Vec::splice] panics. *)
Definition apply_parsed_hunk (ls : list string) (h : ParsedHunk) : option (list string) :=
  let start_idx := (old_start h - 1)%N in
  let end_idx := N.min (usize_wrap (start_idx + old_lines h)) (N.of_nat (length ls)) in
  if (start_idx <=? end_idx)%N
  then splice ls (N.to_nat start_idx) (N.to_nat end_idx) (additions h)
  else None.

Fixpoint index_from {A} (i : N) (l : list A) : list (N * A) :=
  match l with [] => [] | x :: l' => (i, x) :: index_from (i + 1) l' end.

(** The hunks that are applied, in the order they are applied. *)
Definition selected_hunks (hunks : list ParsedHunk) (selected : gset N) : list ParsedHunk :=
  map snd
    (sort_by (λ a b : N * ParsedHunk, (old_start (snd a) <=? old_start (snd b))%N)
       (List.filter (λ ih, bool_decide (fst ih ∈ selected)) (index_from 0 hunks))).

Definition apply_parsed_hunks_opt (original : list string) (hunks : list ParsedHunk)
    (selected : gset N) : option (list string) :=
  foldl (λ acc h, acc ≫= λ ls, apply_parsed_hunk ls h) (Some original)
    (selected_hunks hunks selected).

Definition apply_parsed_hunks (original : list string) (hunks : list ParsedHunk)
    (selected : gset N) : R (list string) :=
  match apply_parsed_hunks_opt original hunks selected with
  | Some ls => mret ls
  | None => panic "splice range out of bounds"
  end.

Section diff.
Context `{Sys}.

Definition read_file_lines (p : path) : R (list string) :=
  e ← exists_ p;
  if negb (e : bool) then mret [] else
  text ← read_to_string p;
  mret (lines text).

Definition file_text (ls : list string) : string :=
  let content := join_with nl ls in
  if String.eqb content "" then content else content +:+ nl.

Definition write_file_lines (p : path) (ls : list string) : R unit :=
  _ ← create_parent p;
  write p (file_text ls).

(** The hunk indices selected for one path, as a set. *)
Definition indices_for (p : string) (selections : list HunkSelection) : gset N :=
  list_to_set (map hunk_index (List.filter (λ s, String.eqb (hs_path s) p) selections)).

Definition apply_selected_hunks (original_root workspace_root : path) (p : string)
    (selections : list HunkSelection) : R unit :=
  let selected_indices := indices_for p selections in
  if bool_decide (selected_indices = ∅) then mret tt else
  original_path ← checked_join original_root p;
  workspace_path ← checked_join workspace_root p;
  we ← exists_ workspace_path;
  if negb (we : bool) then
    oe ← exists_ original_path;
    if (oe : bool) then remove_file original_path else mret tt
  else
    ge ← exists_ (join workspace_root ".git");
    unified ← (if (ge : bool) then workspace_diff workspace_root else mret "");
    match parse_unified_diff unified !! p with
    | Some {| pf_hunks := (_ :: _) as hunks |} =>
        original_lines ← read_file_lines original_path;
        merged ← apply_parsed_hunks original_lines hunks selected_indices;
        write_file_lines original_path merged
    | _ => copy_file_or_remove workspace_root original_root p
    end.

(** ** Statistics and change events *)

Definition count_status (s : ChangedFileStatus) (l : list ChangedFile) : nat :=
  length (List.filter (λ c, bool_decide (cf_status c = s)) l).

Definition diff_stats (l : list ChangedFile) : DiffStats := {|
  ds_changed_files := length l;
  added_files := count_status Added l;
  modified_files := count_status Modified l;
  deleted_files := count_status Deleted l |}.

(** The later of two entries with one path wins, as in [collect]. *)
Definition by_path (l : list ChangedFile) : gmap string ChangedFile :=
  list_to_map (reverse (map (λ c, (cf_path c, c)) l)).

Definition detect_changed_file_events (previous_changes current_changes : list ChangedFile)
  : list ChangedFile :=
  let previous := by_path previous_changes in
  List.filter (λ current,
    match previous !! cf_path current with
    | Some prev => negb (bool_decide (after_ai_hash prev = after_ai_hash current))
                   || negb (bool_decide (cf_status prev = cf_status current))
    | None => true
    end) current_changes.

(** ** The diff bundle *)

Definition is_lockfile (p : string) : bool :=
  existsb (String.eqb p)
    ["package-lock.json"; "pnpm-lock.yaml"; "yarn.lock"; "bun.lockb"; "Cargo.lock";
     "poetry.lock"; "uv.lock"; "Pipfile.lock"].

Definition MAX_PREVIEW_LINES : nat := 400.
Definition MAX_SIDE_LINES : nat := 80.

Definition read_preview (root : path) (p : string) : R (list string) :=
  absolute ← checked_join root p;
  e ← exists_ absolute;
  f ← is_file absolute;
  if negb (e : bool) || negb (f : bool) then mret [] else
  bytes ← read absolute;
  mret (take MAX_PREVIEW_LINES (lines (from_utf8_lossy bytes))).

Definition build_preview_lines (before after : list string) : list string :=
  map (λ l, "- " +:+ l) (take MAX_SIDE_LINES before)
  ++ map (λ l, "+ " +:+ l) (take MAX_SIDE_LINES after)
  ++ (if (MAX_SIDE_LINES <? length before) || (MAX_SIDE_LINES <? length after)
      then ["... preview truncated; open the file in the isolated workspace for the full content."]
      else []).

Definition load_unified_diff (m : TaskManifest) : R string :=
  e ← exists_ (join (workspace_root m) ".git");
  if negb (e : bool) then mret "" else
  r ← attempt (E' := CodexNewError) (workspace_diff (workspace_root m));
  mret (match r with inr d => d | inl _ => "" end).

(** [{:?}] of a status. *)
Definition status_debug (s : ChangedFileStatus) : string :=
  match s with Added => "Added" | Modified => "Modified" | Deleted => "Deleted" end.

Definition to_diff_hunk (h : ParsedHunk) : DiffHunk := {|
  dh_header := header h; before_start := old_start h; before_lines := old_lines h;
  after_start := new_start h; after_lines := new_lines h; dh_preview := preview h |}.

Definition file_diff (m : TaskManifest) (parsed : gmap string ParsedFileDiff)
    (changed : ChangedFile) : R FileDiff :=
  let parsed_file := parsed !! cf_path changed in
  hunks ← match parsed_file with
          | Some f => mret (map to_diff_hunk (pf_hunks f))
          | None =>
              before_text ← read_preview (original_root m) (cf_path changed);
              after_text ← read_preview (workspace_root m) (cf_path changed);
              mret [{| dh_header := status_debug (cf_status changed) +:+ " " +:+ cf_path changed;
                       before_start := 1; before_lines := N.of_nat (length before_text);
                       after_start := 1; after_lines := N.of_nat (length after_text);
                       dh_preview := build_preview_lines before_text after_text |}]
          end;
  mret {| fd_path := cf_path changed; fd_status := cf_status changed;
          is_binary := match parsed_file with Some f => pf_binary f | None => false end;
          is_lockfile_fd := is_lockfile (cf_path changed); fd_hunks := hunks |}.

Definition build_diff_bundle (m : TaskManifest) : R DiffBundle :=
  unified ← load_unified_diff m;
  let parsed := parse_unified_diff unified in
  files ← foldM (λ acc changed, f ← file_diff m parsed changed; mret (acc ++ [f]))
            [] (changed_files m);
  mret {| db_files := files;
          db_stats := {| ds_changed_files := length files;
                         added_files := count_status Added (changed_files m);
                         modified_files := count_status Modified (changed_files m);
                         deleted_files := count_status Deleted (changed_files m) |};
          risk_markers :=
            omap (λ c, if is_lockfile (cf_path c)
                       then Some {| rm_kind := "lockfile"; rm_path := Some (cf_path c);
                                    rm_message := "Dependency lockfile changed." |}
                       else None) (changed_files m) |}.
End diff.
