(* ===== verification/Memory.v ===== *)
(** * memory.rs and traceback.rs: summaries, memory and tracebacks

    Task summaries and project memory; the per-file pairs of original and
    workspace snapshots that edits leave behind. *)

From S2P Require Import Prelude RustStr FsModel World Models Fsx Activity Diff.

(** [memory_key]. *)
Definition memory_key (c : CandidateMemory) : string := cm_kind c +:+ "::" +:+ cm_title c.

Definition recovery_hints_for_status (s : TaskStatus) : list string :=
  match s with
  | WorkspaceConflict => ["Re-run resume to rebuild or validate the isolated workspace."]
  | EnvironmentBroken => ["Re-inspect the environment binding before running tests."]
  | MergeConflict => ["Refresh changes and resolve conflicts before merging again."]
  | TestingFailed => ["Review the latest test logs and retry with a narrower command."]
  | ReviewBlocked => ["Address review blockers before requesting merge."]
  | _ => []
  end.

Definition is_ephemeral_path (p : string) : bool :=
  contains "/tmp/" p || contains "\Temp\" p || contains "target/debug/deps" p
  || contains "node_modules/" p.

Definition extract_candidate_memory (m : TaskManifest) (user_goal ai_result : string)
    (tests : list string) : list CandidateMemory :=
  omap (λ change,
    if is_ephemeral_path (cf_path change) then None else
    Some {| cm_kind := "architectureFact";
            cm_title := "Changed " +:+ cf_path change;
            cm_detail := "Task modified " +:+ status_debug (cf_status change) +:+ " in `"
                         +:+ cf_path change +:+ "` while pursuing: " +:+ user_goal;
            evidence_paths := [cf_path change] |}) (changed_files m)
  ++ match tests with
     | command :: _ =>
         [{| cm_kind := "workflowRule"; cm_title := "Observed test command";
             cm_detail := "This task executed `" +:+ command
                          +:+ "` successfully or unsuccessfully.";
             evidence_paths := [] |}]
     | [] => []
     end
  ++ (if negb (is_blank ai_result) && (String.length ai_result <? 400)
      then [{| cm_kind := "constraint"; cm_title := "Task outcome note";
               cm_detail := ai_result; evidence_paths := [] |}]
      else []).

(** The tests listed in a summary. *)
Definition run_status_word (s : CommandRunStatus) : string :=
  match s with Succeeded => "passed" | Failed => "failed" | Running => "running" end.

Definition test_lines (runs : list CommandRunRecord) : list string :=
  map (λ run, run_command run +:+ " (" +:+ run_status_word (run_status run) +:+ ")")
    (List.filter (λ run, bool_decide (run_kind run = TestKind)) runs).

(** Decisions, risks and blockers drawn from the latest review. *)
Definition review_lines (review : option ReviewReport)
  : list string * list string * list string :=
  match review with
  | Some report =>
      let risks := map ri_message (issues report) in
      ([rr_summary report], risks,
       if bool_decide (disposition report = Blocked) then risks else [])
  | None => (["Pending user review."], ["Review required before merge."], [])
  end.

Definition or_default (l : list string) (d : string) : list string :=
  match l with [] => [d] | _ => l end.

(** The text of [task-summary.md]. *)
Definition section_text (title body : string) : string :=
  "## " +:+ title +:+ nl +:+ nl +:+ body.

Definition summary_markdown (s : StructuredTaskSummary) : string :=
  let candidate_lines :=
    join_with nl (map (λ c, "- **" +:+ cm_title c +:+ "**: " +:+ cm_detail c)
                      (candidate_memory s)) in
  join_with (nl +:+ nl)
    ["# Task Summary";
     section_text "User Goal" (user_goal s);
     section_text "AI Result" (ai_result s);
     section_text "Files Changed"
       (join_with nl (map (λ p, "- `" +:+ p +:+ "`") (files_changed s)));
     section_text "Decisions" (join_with nl (decisions s));
     section_text "Tests" (join_with nl (sum_tests s));
     section_text "Risks" (join_with nl (risks s));
     section_text "Blockers" (join_with nl (blockers s));
     section_text "Recovery Hints" (join_with nl (recovery_hints s));
     section_text "Candidate Project Memory"
       (if String.eqb candidate_lines "" then "- None proposed." else candidate_lines)]
  +:+ nl.

Section memory.
Context `{Sys} `{Codecs}.

(** [if path.exists() { Some(from_slice(&fs::read(path)?)?) } else { None }]. *)
Definition read_optional {A} `{Serde A} (p : path) : R (option A) :=
  e ← exists_ p;
  if negb (e : bool) then mret None else
  bytes ← read p;
  Some <$> from_json bytes.

Definition build_structured_summary (m : TaskManifest) (goal result : string)
    (task_root : path) : R StructuredTaskSummary :=
  runs ← list_command_runs task_root 50;
  let tests := test_lines runs in
  report ← read_optional (join (join task_root "review") "latest-review.json");
  let '(ds, rs, bs) := review_lines report in
  mret {| sum_task_id := m_task_id m; user_goal := goal; ai_result := result;
          files_changed := map cf_path (changed_files m);
          decisions := ds; sum_tests := or_default tests "Not run.";
          risks := rs; blockers := bs;
          recovery_hints := recovery_hints_for_status (m_status m);
          candidate_memory := extract_candidate_memory m goal result tests |}.

Definition candidate_memory_path (task_root : path) : path :=
  join (join task_root "memory") "candidate-memory.json".

Definition write_candidate_memory_file (task_root : path) (s : StructuredTaskSummary)
  : R unit :=
  records ← foldM (λ acc c,
      id ← new_uuid;
      mret (acc ++ [{| cmr_id := id; candidate := c; cmr_status := Pending |}]))
    [] (candidate_memory s);
  write (candidate_memory_path task_root) (to_vec_pretty records).

Definition write_summary_artifacts (task_root : path) (s : StructuredTaskSummary)
  : R (path * path) :=
  let memory_root := join task_root "memory" in
  _ ← create_dir_all memory_root;
  let markdown_path := join memory_root "task-summary.md" in
  let json_path := join memory_root "task-summary.json" in
  _ ← write markdown_path (summary_markdown s);
  _ ← write json_path (to_vec_pretty s);
  _ ← write_candidate_memory_file task_root s;
  mret (markdown_path, json_path).

Definition read_candidate_memory_records (task_root : path)
  : R (list CandidateMemoryRecord) :=
  let p := candidate_memory_path task_root in
  e ← exists_ p;
  if negb (e : bool) then mret [] else
  bytes ← read p;
  from_json bytes.

Definition read_project_memory (p : path) : R (gmap string ProjectMemoryRecord) :=
  e ← exists_ p;
  if negb (e : bool) then mret ∅ else
  bytes ← read p;
  from_json bytes.

Definition write_project_memory (p : path) (records : gmap string ProjectMemoryRecord)
  : R unit :=
  _ ← create_parent p;
  write p (to_vec_pretty records).

(** The local variables of [apply_candidate_memory]. *)
Record apply_state := {
  as_memory : gmap string ProjectMemoryRecord;
  as_out : MemoryApplyOutcome
}.

Definition add_skipped (id : string) (st : apply_state) : apply_state :=
  {| as_memory := as_memory st;
     as_out := {| applied := applied (as_out st); skipped := skipped (as_out st) ++ [id];
                  conflicts := conflicts (as_out st) |} |}.
Definition add_conflict (id : string) (st : apply_state) : apply_state :=
  {| as_memory := as_memory st;
     as_out := {| applied := applied (as_out st); skipped := skipped (as_out st);
                  conflicts := conflicts (as_out st) ++ [id] |} |}.
Definition add_applied (id key : string) (r : ProjectMemoryRecord) (st : apply_state)
  : apply_state :=
  {| as_memory := <[key := r]> (as_memory st);
     as_out := {| applied := applied (as_out st) ++ [id]; skipped := skipped (as_out st);
                  conflicts := conflicts (as_out st) |} |}.

(** One iteration of the loop over the requested ids. *)
Definition apply_candidate (candidates : list CandidateMemoryRecord) (st : apply_state)
    (id : string) : R apply_state :=
  match find_first (λ r, String.eqb (cmr_id r) id) candidates with
  | None => mret (add_skipped id st)
  | Some record =>
      if bool_decide (cmr_status record = Conflict) then mret (add_conflict id st) else
      let key := memory_key (candidate record) in
      match as_memory st !! key with
      | Some existing =>
          if String.eqb (pm_detail existing) (cm_detail (candidate record))
          then mret (add_skipped id st) else mret (add_conflict id st)
      | None =>
          new_id ← new_uuid;
          t ← now;
          mret (add_applied id key
                  {| pm_id := new_id; pm_kind := cm_kind (candidate record);
                     pm_title := cm_title (candidate record);
                     pm_detail := cm_detail (candidate record);
                     pm_evidence_paths := evidence_paths (candidate record);
                     pm_updated_at := t |} st)
      end
  end.

Definition project_memory_path (project_root : path) : path :=
  join project_root "memory/project-memory.json".

Definition apply_candidate_memory (project_root task_root : path) (ids : list string)
  : R MemoryApplyOutcome :=
  candidates ← read_candidate_memory_records task_root;
  let p := project_memory_path project_root in
  project_memory ← read_project_memory p;
  st ← foldM (apply_candidate candidates)
         {| as_memory := project_memory;
            as_out := {| applied := []; skipped := []; conflicts := [] |} |} ids;
  _ ← write_project_memory p (as_memory st);
  mret (as_out st).
End memory.

(** ** Tracebacks *)

Section traceback.
Context `{Sys} `{Codecs}.

Definition traceback_root (task_root : path) : path :=
  join (join task_root "snapshots") "traceback".

Definition ensure_traceback_dirs (task_root : path) : R unit :=
  let root := traceback_root task_root in
  _ ← create_dir_all (join root "original");
  create_dir_all (join root "workspace").

Definition read_index (root : path) : R TracebackIndex :=
  let p := join root "index.json" in
  e ← exists_ p;
  if negb (e : bool) then mret ∅ else
  bytes ← read p;
  from_json bytes.

Definition write_index (root : path) (index : TracebackIndex) : R unit :=
  _ ← create_dir_all root;
  write (join root "index.json") (to_vec_pretty index).

(** [hash.or_else(|| checked_join(root, path).ok().and_then(|p|
    file_hash(&p).ok().flatten()))]. *)
Definition hash_or_read (hash : option string) (root : path) (p : string)
  : R (option string) :=
  match hash with
  | Some h => mret (Some h)
  | None =>
      match checked_join_opt root p with
      | None => mret None
      | Some q =>
          r ← attempt (E' := CodexNewError) (file_hash q);
          mret (match r with inr h => h | inl _ => None end)
      end
  end.

(** The entry of a path seen for the first time. *)
Definition first_entry (p : string) (hash : option string) (t : Z) : TracebackEntry := {|
  tb_path := p; original_hash := hash; workspace_hash := None; revision := 0;
  tb_created_at := t; tb_updated_at := t |}.

Definition bump_entry (e : TracebackEntry) (hash : option string) (t : Z)
  : TracebackEntry := {|
  tb_path := tb_path e; original_hash := original_hash e; workspace_hash := hash;
  revision := u64_sat_add (revision e) 1;
  tb_created_at := tb_created_at e; tb_updated_at := t |}.

(** The first change of a path saves the project's file; every change saves
    the workspace's file and counts a revision. *)
Definition record_edit_traceback (m : TaskManifest) (task_root : path)
    (changed : ChangedFile) : R TracebackEntry :=
  _ ← ensure_traceback_dirs task_root;
  let root := traceback_root task_root in
  let original_snap := join root "original" in
  let workspace_snap := join root "workspace" in
  index ← read_index root;
  t ← now;
  let timestamp := (t / 1000000000)%Z in
  entry ← match index !! cf_path changed with
          | Some e => mret e
          | None =>
              _ ← snapshot_file (original_root m) original_snap (cf_path changed);
              h ← hash_or_read (before_hash changed) (original_root m) (cf_path changed);
              mret (first_entry (cf_path changed) h timestamp)
          end;
  _ ← snapshot_file (workspace_root m) workspace_snap (cf_path changed);
  h ← hash_or_read (after_ai_hash changed) (workspace_root m) (cf_path changed);
  let saved := bump_entry entry h timestamp in
  _ ← write_index root (<[cf_path changed := saved]> index);
  mret saved.

Definition list_traceback_entries (task_root : path) : R (list TracebackEntry) :=
  index ← read_index (traceback_root task_root);
  mret (btree_values index).

Definition restore_file (m : TaskManifest) (task_root : path) (p : string)
    (target : TracebackRestoreTarget) : R TracebackRestoreOutcome :=
  let root := traceback_root task_root in
  index ← read_index root;
  entry ← ok_or (index !! p) (Other ("no traceback entry for " +:+ p));
  _ ← match target with
      | Project => restore_snapshot (join root "original") (original_root m) p
      | Workspace => restore_snapshot (join root "workspace") (workspace_root m) p
      end;
  mret {| tro_path := p; tro_target := target; tro_revision := revision entry |}.

Definition restore_project_file (m : TaskManifest) (task_root : path) (p : string)
  : R TracebackRestoreOutcome := restore_file m task_root p Project.

Definition has_original_traceback (task_root : path) (p : string) : R bool :=
  exists_ (join (join (traceback_root task_root) "original") (encode_path p +:+ ".blob")).
End traceback.
