(* ===== verification/Protocol.v ===== *)
(** * Timeline payloads, descriptors

    What the engine serializes into timeline payloads and the descriptors of
    [protocol.rs]. *)

From S2P Require Import Prelude RustStr FsModel World Models.

(** * Timeline payloads

    The [Serialize] side of the types that [engine.rs] puts into timeline
    payloads with [json!]: field names in camel case, enumerations as strings,
    tuple variants as one-field objects. *)

#[global] Instance ser_strategy : Serialize WorkspaceStrategy := λ s,
  JStr (match s with Auto => "auto" | Worktree => "worktree" | Copy => "copy" end).

#[global] Instance ser_file_status : Serialize ChangedFileStatus := λ s,
  JStr (match s with
        | Added => "added" | Modified => "modified" | Deleted => "deleted"
        end).

#[global] Instance ser_changed_file : Serialize ChangedFile := λ c, JObj
  [("path", to_value (cf_path c));
   ("status", to_value (cf_status c));
   ("beforeHash", to_value (before_hash c));
   ("afterAiHash", to_value (after_ai_hash c));
   ("afterMergeHash", to_value (after_merge_hash c));
   ("mergedHunks", to_value (merged_hunks c));
   ("accepted", to_value (accepted c));
   ("mergeStatus", to_value (merge_status c))].

#[global] Instance ser_diff_stats : Serialize DiffStats := λ d, JObj
  [("changedFiles", to_value (ds_changed_files d));
   ("addedFiles", to_value (added_files d));
   ("modifiedFiles", to_value (modified_files d));
   ("deletedFiles", to_value (deleted_files d))].

#[global] Instance ser_hunk_selection : Serialize HunkSelection := λ h, JObj
  [("path", to_value (hs_path h)); ("hunkIndex", to_value (hunk_index h))].

#[global] Instance ser_line_selection : Serialize LineSelection := λ l, JObj
  [("path", to_value (ls_path l)); ("line", to_value (ls_line l))].

#[global] Instance ser_merge_selection : Serialize MergeSelection := λ s,
  match s with
  | MAll => JStr "all"
  | MFiles paths => JObj [("files", to_value paths)]
  | MHunks hunks => JObj [("hunks", to_value hunks)]
  | MLines ls => JObj [("lines", to_value ls)]
  end.

#[global] Instance ser_target : Serialize TracebackRestoreTarget := λ t,
  JStr (match t with Project => "project" | Workspace => "workspace" end).

#[global] Instance ser_command_kind : Serialize CommandExecutionKind := λ k,
  JStr (match k with Generic => "generic" | TestKind => "test" end).

#[global] Instance ser_run_status : Serialize CommandRunStatus := λ s,
  JStr (match s with
        | Running => "running" | Succeeded => "succeeded" | Failed => "failed"
        end).

#[global] Instance ser_stream : Serialize CommandOutputStream := λ s,
  JStr (match s with Stdout => "stdout" | Stderr => "stderr" end).

#[global] Instance ser_test_outcome : Serialize TestOutcome := λ o, JObj
  [("commandRunId", to_value (command_run_id o));
   ("command", to_value (to_command o));
   ("environment", to_value (to_environment o));
   ("status", to_value (to_status o));
   ("exitCode", to_value (to_exit_code o));
   ("stdoutPath", ser_path (to_stdout_path o));
   ("stderrPath", ser_path (to_stderr_path o))].

#[global] Instance ser_severity : Serialize ReviewSeverity := λ s,
  JStr (match s with Info => "info" | Warning => "warning" | High => "high" end).

#[global] Instance ser_disposition : Serialize ReviewDisposition := λ d,
  JStr (match d with
        | Informational => "informational"
        | NeedsUserApproval => "needsUserApproval"
        | Blocked => "blocked"
        end).

#[global] Instance ser_issue : Serialize ReviewIssue := λ i, JObj
  [("severity", to_value (severity i));
   ("path", to_value (ri_path i));
   ("message", to_value (ri_message i))].

#[global] Instance ser_report : Serialize ReviewReport := λ r, JObj
  [("disposition", to_value (disposition r));
   ("issues", to_value (issues r));
   ("summary", to_value (rr_summary r))].

(** * protocol.rs: the descriptors handed to clients and to a resumed agent *)

Record WorkspaceDescriptor := {
  wd_task_id : string;
  wd_original_root : string;
  wd_workspace_root : string;
  wd_strategy : string;
  wd_branch_name : option string;
  wd_base_revision : option string
}.

Record EnvironmentDescriptor := {
  ed_profile_id : string;
  ed_fingerprint : string;
  ed_environment_root : string;
  ed_is_valid : bool;
  ed_detected_tools : list string
}.

Record ReviewDescriptor := {
  rd_disposition : string;
  rd_summary : string;
  issue_count : nat
}.

Record TaskResumeContext := {
  rc_task_id : string;
  rc_summary : option StructuredTaskSummary;
  rc_changed_files : list ChangedFile;
  pending_reviews : list ReviewIssue;
  latest_test : option TestOutcome;
  rc_environment_binding : option EnvironmentBinding;
  rc_workspace : WorkspaceDescriptor;
  rc_review : option ReviewDescriptor;
  rc_diff : DiffBundle
}.

Definition workspace_descriptor (fs : fsys) (task : TaskRecord) (m : TaskManifest)
  : WorkspaceDescriptor := {|
  wd_task_id := task_id task;
  wd_original_root := display (original_root m);
  wd_workspace_root := display (workspace_root m);
  wd_strategy := if fs_exists fs (join (workspace_root m) ".git")
                 then "worktree" else "copy";
  wd_branch_name := None;
  wd_base_revision := base_revision m |}.

Definition environment_descriptor (b : EnvironmentBinding) : EnvironmentDescriptor := {|
  ed_profile_id := profile_id b;
  ed_fingerprint := fingerprint b;
  ed_environment_root := display (environment_root b);
  ed_is_valid := is_valid (validation b);
  ed_detected_tools := map (λ t, ecosystem t +:+ ":" +:+ tool_name t) (detected_tools b) |}.

(** [{:?}] of a disposition. *)
Definition disposition_debug (d : ReviewDisposition) : string :=
  match d with
  | Informational => "Informational"
  | NeedsUserApproval => "NeedsUserApproval"
  | Blocked => "Blocked"
  end.

Definition review_descriptor (report : ReviewReport) : ReviewDescriptor := {|
  rd_disposition := disposition_debug (disposition report);
  rd_summary := rr_summary report;
  issue_count := length (issues report) |}.

(** The outcome a finished test run stands for. *)
Definition run_outcome (run : CommandRunRecord) : TestOutcome := {|
  command_run_id := run_id run;
  to_command := run_command run;
  to_environment := default "local" (environment_profile run);
  to_status := if bool_decide (run_status run = Succeeded) then "passed" else "failed";
  to_exit_code := run_exit_code run;
  to_stdout_path := stdout_path run;
  to_stderr_path := stderr_path run |}.

Definition latest_test_from_runs (runs : list CommandRunRecord) : option TestOutcome :=
  run_outcome <$> find_first (λ run, bool_decide (run_kind run = TestKind)) (reverse runs).

Definition build_task_resume_context (fs : fsys) (ov : TaskOverview)
  : TaskResumeContext := {|
  rc_task_id := task_id (ov_task ov);
  rc_summary := latest_summary ov;
  rc_changed_files := changed_files (ov_manifest ov);
  pending_reviews := match ov_review ov with Some r => issues r | None => [] end;
  latest_test := latest_test_from_runs (command_runs ov);
  rc_environment_binding := ov_environment ov;
  rc_workspace := workspace_descriptor fs (ov_task ov) (ov_manifest ov);
  rc_review := review_descriptor <$> ov_review ov;
  rc_diff := ov_diff ov |}.
