(* ===== verification/Changes.v ===== *)
(** * engine.rs: change detection, selections and rendered diffs

    The free functions of [engine.rs]: the hash index of a tree, the
    comparison of the project with the workspace, the paths a request selects
    and the synthetic diff. *)

From S2P Require Import Prelude RustStr FsModel World Models Fsx Workspace Diff.

Section changes.
Context `{Sys}.

(** [stable_project_id]. *)
Definition stable_project_id (root : path) : R string :=
  match get_prefix 16 (sha256_hex (display root)) with
  | Some s => mret ("proj_" +:+ s)
  | None => panic "byte index out of range"
  end.

(** The key of a file in the index: backslashes become slashes. *)
Definition index_key (relative : path) : string :=
  replace_char backslash "/" (join_with "/" relative).

(** One entry of the walk of [hash_index]; the root itself has an empty
    relative path. *)
Definition index_entry (root : path) (index : gmap string (option string))
    (entry : path * node) : R (gmap string (option string)) :=
  match snd entry with
  | File _ =>
      let p := root ++ fst entry in
      if existsb (String.eqb ".git") p then mret index else
      h ← file_hash p;
      mret (<[index_key (fst entry) := h]> index)
  | _ => mret index
  end.

Definition hash_index (root : path) : R (gmap string (option string)) :=
  entries ← walk root;
  foldM (index_entry root) ∅ entries.

(** One iteration of the loop of [compare_roots]. *)
Definition compare_path (previous : gmap string ChangedFile)
    (original workspace : gmap string (option string)) (p : string)
  : option ChangedFile :=
  let before := match previous !! p with
                | Some change => before_hash change
                | None => mjoin (original !! p)
                end in
  let after := mjoin (workspace !! p) in
  if bool_decide (before = after) then None else
  let change s := Some {|
    cf_path := p; cf_status := s; before_hash := before; after_ai_hash := after;
    after_merge_hash := None; merged_hunks := None; accepted := false;
    merge_status := "pending" |} in
  match before, after with
  | None, Some _ => change Added
  | Some _, None => change Deleted
  | Some _, Some _ => change Modified
  | None, None => None
  end.

Definition compare_indices (original workspace : gmap string (option string))
    (previous : list ChangedFile) : list ChangedFile :=
  omap (compare_path (by_path previous) original workspace)
    (btree_keys (dom original ∪ dom workspace)).

Definition compare_roots (original_root workspace_root : path)
    (previous_changes : list ChangedFile) : R (list ChangedFile) :=
  original ← hash_index original_root;
  workspace ← hash_index workspace_root;
  mret (compare_indices original workspace previous_changes).

(** [{:?}] of an optional string. *)
Definition hex_digit (n : N) : ascii := ascii_of_N (if (n <? 10)%N then 48 + n else 87 + n).
Definition debug_byte (c : ascii) : string :=
  let n := code c in
  if (n =? 34)%N then "\" +:+ dquote
  else if (n =? 92)%N then "\\"
  else if (n =? 10)%N then "\n"
  else if (n =? 13)%N then "\r"
  else if (n =? 9)%N then "\t"
  else if (n =? 0)%N then "\0"
  else if (n <? 16)%N then "\u{" +:+ String (hex_digit n) "}"
  else if (n <? 32)%N || (n =? 127)%N
  then "\u{" +:+ String (hex_digit (n / 16)) (String (hex_digit (n mod 16)) "}")
  else String c "".
Definition debug_option (o : option string) : string :=
  match o with
  | None => "None"
  | Some s => "Some(" +:+ dquote +:+ concat_str (map debug_byte (bytes s)) +:+ dquote +:+ ")"
  end.

Definition render_synthetic_diff (m : TaskManifest) : string :=
  concat_str (map (λ c,
    "diff --codex-new a/" +:+ cf_path c +:+ " b/" +:+ cf_path c +:+ nl
    +:+ "status " +:+ status_debug (cf_status c) +:+ nl
    +:+ "before " +:+ debug_option (before_hash c) +:+ nl
    +:+ "after " +:+ debug_option (after_ai_hash c) +:+ nl) (changed_files m)).

Definition render_diff (m : TaskManifest) : R string :=
  e ← exists_ (join (workspace_root m) ".git");
  if negb (e : bool) then mret (render_synthetic_diff m) else
  r ← attempt (E' := CodexNewError) (workspace_diff (workspace_root m));
  mret (match r with
        | inr d => if String.eqb d "" then render_synthetic_diff m else d
        | inl _ => render_synthetic_diff m
        end).

Definition render_selected_diff (m : TaskManifest) (paths : list string) : string :=
  render_synthetic_diff
    (set_changed_files
       (List.filter (λ c, existsb (String.eqb (cf_path c)) paths) (changed_files m)) m).

Definition selected_paths (changes : list ChangedFile) (s : MergeSelection) : gset string :=
  match s with
  | MAll => list_to_set (map cf_path changes)
  | MFiles paths => list_to_set paths
  | MHunks hunks => list_to_set (map hs_path hunks)
  | MLines ls => list_to_set (map ls_path ls)
  end.

Definition hunk_selections (s : MergeSelection) : list HunkSelection :=
  match s with MHunks hunks => hunks | _ => [] end.

Definition selected_rollback_paths (changes : list ChangedFile) (s : RollbackSelection)
  : gset string :=
  let requested : gset string :=
    match s with
    | RAll => list_to_set (map cf_path (List.filter accepted changes))
    | RFiles paths => list_to_set paths
    | RHunks hunks => list_to_set (map hs_path hunks)
    end in
  list_to_set (map cf_path
    (List.filter (λ c, accepted c && bool_decide (cf_path c ∈ requested)) changes)).

Definition rollback_hunk_selections (s : RollbackSelection) : list HunkSelection :=
  match s with RHunks hunks => hunks | _ => [] end.

(** [push_excerpt]: keeps the last eight non-blank lines. *)
Definition push_excerpt (excerpt : list string) (text : string) : list string :=
  last_n 8 (excerpt ++ map trim (List.filter (λ l, negb (is_blank l)) (lines text))).

Definition summarize_failure (stderr_excerpt : list string) (command : string)
    (exit_code : option Z) : option string :=
  match stderr_excerpt with
  | _ :: _ => Some (join_with " | " stderr_excerpt)
  | [] => (λ c, "Command `" +:+ command +:+ "` exited with code " +:+ pretty c +:+ ".")
            <$> exit_code
  end.
End changes.
