(* ===== verification/Engine.v ===== *)
(** * engine.rs: the operations of [CodexNewCore] *)

From S2P Require Import Prelude RustStr FsModel World Models Fsx Workspace.
From S2P Require Import Environment Activity Diff Memory.
From S2P Require Import Protocol Changes.

Record CodexNewCore := { state_root : path }.

Section engine.
Context `{Sys} `{Codecs} (self : CodexNewCore).

(** ** Where things are kept *)

Definition project_root (project_id : string) : path :=
  join (join (state_root self) "projects") project_id.
Definition task_root (project_id tid : string) : path :=
  join (join (project_root project_id) "tasks") tid.
Definition workspaces_root : path := join (state_root self) "workspaces".
Definition manifest_file (project_id tid : string) : path :=
  join (task_root project_id tid) "manifest.json".

Definition append_timeline (project_id tid : string) (kind : TimelineEventKind)
    (payload : json) : R TimelineEvent :=
  append_timeline_event (task_root project_id tid) tid kind payload.

(** ** Projects *)

Definition write_project (project : ProjectRecord) : R unit :=
  write (join (project_root (proj_id project)) "project.json") (to_vec_pretty project).

Definition read_project (project_id : string) : R ProjectRecord :=
  bytes ← read (join (project_root project_id) "project.json");
  from_json bytes.

(** [Path::canonicalize]. *)
Definition canonicalize (p : path) : R path :=
  r ← lift_read (λ fs, stat fs p);
  mret (fst (r : path * node)).

Definition with_test_commands (fs : fsys) (root : path) (s : ProjectSettings)
  : ProjectSettings :=
  match default_test_commands s with
  | [] => {| workspace_strategy := workspace_strategy s; keep_days := keep_days s;
             require_review := require_review s; require_tests := require_tests s;
             protect_sensitive_files := protect_sensitive_files s;
             default_test_commands := detect_test_commands fs root |}
  | _ => s
  end.

Definition register_project (root : path) (s : ProjectSettings) : R ProjectRecord :=
  root ← canonicalize root;
  t ← now;
  id ← stable_project_id root;
  fs ← get_fs;
  branch ← branch_name root;
  let project := {|
    proj_id := id;
    proj_name := default "project" (file_name root);
    root_path := root;
    proj_created_at := t;
    proj_updated_at := t;
    git_root := get_git_repo_root fs root;
    default_branch := branch;
    settings := with_test_commands fs root s |} in
  _ ← create_dir_all (project_root id);
  _ ← write_project project;
  mret project.

(** ** Task status *)

Definition set_task_status (s : TaskStatus) (updated : Z) (completed : option Z)
    (t : TaskRecord) : TaskRecord := {|
  task_id := task_id t; task_project_id := task_project_id t; task_title := task_title t;
  task_status := s;
  task_original_root := task_original_root t; task_workspace_root := task_workspace_root t;
  task_created_at := task_created_at t; task_updated_at := updated;
  task_completed_at := completed;
  task_manifest_path := task_manifest_path t; task_summary_path := task_summary_path t |}.

Definition write_task_status (project_id tid : string) (s : TaskStatus) : R unit :=
  let root := project_root project_id in
  r ← read_task_record root tid;
  match r with
  | None => mret tt
  | Some task =>
      updated ← now;
      completed ← (if is_terminal s then Some <$> now
                   else mret (task_completed_at task));
      write_task_record root (set_task_status s updated completed task)
  end.

Definition read_manifest (project_id tid : string) : R TaskManifest :=
  read_manifest_from (manifest_file project_id tid).

(** ** Creating a task *)

Definition create_task_dirs (root : path) : R unit :=
  _ ← create_dir_all (join root "changes");
  _ ← create_dir_all (join (join root "snapshots") "before");
  _ ← create_dir_all (join (join root "snapshots") "after-ai");
  _ ← create_dir_all (join (join root "snapshots") "after-merge");
  _ ← ensure_traceback_dirs root;
  _ ← create_dir_all (join root "tests");
  _ ← create_dir_all (join root "terminal");
  create_dir_all (join root "memory").

(** The binding after [let _ = configure_isolated_workspace_environment(..)]:
    a failure leaves it as it was. *)
Definition configure_ignoring_errors (ws : path) (b : EnvironmentBinding)
  : R EnvironmentBinding :=
  r ← attempt (E' := CodexNewError) (configure_isolated_workspace_environment ws b);
  mret (match r with inr b' => b' | inl _ => b end).

Definition create_task (project : ProjectRecord) (title : string)
  : R (TaskRecord * TaskManifest) :=
  tid ← new_uuid;
  t ← now;
  prepared ← prepare_workspace project tid workspaces_root t;
  let root := task_root (proj_id project) tid in
  _ ← create_task_dirs root;
  let manifest_path := join root "manifest.json" in
  let task := {|
    task_id := tid; task_project_id := proj_id project; task_title := title;
    task_status := WorkspaceReady; task_original_root := root_path project;
    task_workspace_root := pw_workspace_root prepared;
    task_created_at := t; task_updated_at := t; task_completed_at := None;
    task_manifest_path := manifest_path;
    task_summary_path := join (join root "memory") "task-summary.md" |} in
  binding ← detect_environment_binding project (pw_workspace_root prepared);
  binding ← match binding with
            | Some b => Some <$> configure_ignoring_errors (pw_workspace_root prepared) b
            | None => mret None
            end;
  let m := {|
    m_task_id := tid; m_project_id := proj_id project;
    original_root := root_path project; workspace_root := pw_workspace_root prepared;
    m_created_at := t; m_updated_at := t; m_status := WorkspaceReady;
    base_revision := pw_base_revision prepared; environment_binding := binding;
    changed_files := [] |} in
  _ ← write_manifest m manifest_path;
  _ ← write_task_record (project_root (proj_id project)) task;
  _ ← append_timeline (proj_id project) tid WorkspaceCreated
        (JObj [("strategy", to_value (pw_strategy prepared));
               ("branchName", to_value (pw_branch_name prepared))]);
  mret (task, m).

(** ** Refreshing the detected changes *)

Definition record_change (m : TaskManifest) (root : path) (changed : ChangedFile) : R unit :=
  tb ← record_edit_traceback m root changed;
  _ ← append_timeline (m_project_id m) (m_task_id m) FileEditCompleted
        (JObj [("path", to_value (cf_path changed));
               ("status", to_value (cf_status changed));
               ("beforeHash", to_value (before_hash changed));
               ("afterHash", to_value (after_ai_hash changed));
               ("tracebackRevision", to_value (revision tb))]);
  mret tt.

Definition refreshed_manifest (changes : list ChangedFile) (t : Z) (m : TaskManifest)
  : TaskManifest :=
  set_changed_files changes
    (set_updated_at t
       (set_status (match changes with [] => WorkspaceReady | _ => ChangesDetected end) m)).

Definition refresh_manifest (manifest_path : path) (m0 : TaskManifest) : R TaskManifest :=
  changes ← compare_roots (original_root m0) (workspace_root m0) (changed_files m0);
  t ← now;
  let m := refreshed_manifest changes t m0 in
  diff ← render_diff m;
  let root := task_root (m_project_id m) (m_task_id m) in
  _ ← write (join (join root "changes") "full.diff") diff;
  _ ← write_manifest m manifest_path;
  _ ← write_task_status (m_project_id m) (m_task_id m) (m_status m);
  _ ← forM_ (detect_changed_file_events (changed_files m0) (changed_files m))
        (record_change m root);
  _ ← append_timeline (m_project_id m) (m_task_id m) DiffUpdated
        (JObj [("changedFiles", to_value (changed_files m));
               ("stats", to_value (diff_stats (changed_files m)))]);
  mret m.

Definition refresh_changes (manifest_path : path) : R TaskManifest :=
  m ← read_manifest_from manifest_path;
  refresh_manifest manifest_path m.

(** ** Merging *)

(** The hash of a file of the project. *)
Definition project_hash (m : TaskManifest) (p : string) : R (option string) :=
  q ← checked_join (original_root m) p;
  file_hash q.

(** The first loop of [merge] and of [rollback]: every selected file must
    have the expected hash, or the operation stops with [failed]. *)
Definition verify_files (manifest_path : path) (m : TaskManifest) (failed : TaskStatus)
    (conflict : string → option string → option string → CodexNewError)
    (expected : ChangedFile → option string) (selected : ChangedFile → bool) : R unit :=
  forM_ (changed_files m) (λ changed,
    if negb (selected changed) then mret tt else
    current ← project_hash m (cf_path changed);
    if bool_decide (current = expected changed) then mret tt else
    _ ← write_manifest (set_status failed m) manifest_path;
    _ ← write_task_status (m_project_id m) (m_task_id m) failed;
    throw (conflict (cf_path changed) (expected changed) current)).

Definition applied_change (hash : option string) (hunks : gset N) (c : ChangedFile)
  : ChangedFile := {|
  cf_path := cf_path c; cf_status := cf_status c; before_hash := before_hash c;
  after_ai_hash := after_ai_hash c; after_merge_hash := hash;
  merged_hunks := match btree_N hunks with [] => None | l => Some l end;
  accepted := true; merge_status := "applied" |}.

(** The body of the second loop of [merge] under the lock of the path. *)
Definition merge_file (m : TaskManifest) (before_snapshot after_merge_snapshot : path)
    (hunks : list HunkSelection) (changed : ChangedFile) : R ChangedFile :=
  let p := cf_path changed in
  _ ← snapshot_file (original_root m) before_snapshot p;
  _ ← (if existsb (λ s, String.eqb (hs_path s) p) hunks
       then apply_selected_hunks (original_root m) (workspace_root m) p hunks
       else copy_file_or_remove (workspace_root m) (original_root m) p);
  _ ← snapshot_file (original_root m) after_merge_snapshot p;
  hash ← project_hash m p;
  mret (applied_change hash (indices_for p hunks) changed).

Definition merge_one (m : TaskManifest) (accepted_set : gset string)
    (before_snapshot after_merge_snapshot : path) (hunks : list HunkSelection)
    (acc : list ChangedFile * list string * list string) (changed : ChangedFile)
  : R (list ChangedFile * list string * list string) :=
  let '(done, acc_paths, skip_paths) := acc in
  let p := cf_path changed in
  if negb (bool_decide (p ∈ accepted_set))
  then mret (done ++ [changed], acc_paths, skip_paths ++ [p])
  else
    let root := project_root (m_project_id m) in
    _ ← acquire_path_lock root p;
    changed' ← finally
                 (merge_file m before_snapshot after_merge_snapshot hunks changed)
                 (release_lock (path_lock_path root p));
    mret (done ++ [changed'], acc_paths ++ [p], skip_paths).

(** [merge] once the merge lock is held. *)
Definition merge_body (manifest_path : path) (request : MergeRequest) (m : TaskManifest)
  : R MergeOutcome :=
  let accepted_set := selected_paths (changed_files m) (mr_selection request) in
  let hunks := hunk_selections (mr_selection request) in
  let root := task_root (m_project_id m) (m_task_id m) in
  let before_snapshot := join (join root "snapshots") "before" in
  let after_merge_snapshot := join (join root "snapshots") "after-merge" in
  _ ← append_timeline (m_project_id m) (m_task_id m) MergeStarted
        (JObj [("selection", to_value (mr_selection request))]);
  _ ← verify_files manifest_path m MergeConflict MergeConflictErr before_hash
        (λ c, bool_decide (cf_path c ∈ accepted_set));
  r ← foldM (merge_one m accepted_set before_snapshot after_merge_snapshot hunks)
        ([], [], []) (changed_files m);
  let '(changes, acc_paths, skip_paths) := r in
  let m1 := set_changed_files changes m in
  _ ← write (join (join root "changes") "accepted.diff") (render_selected_diff m1 acc_paths);
  t ← now;
  let m2 := set_updated_at t (set_status RollbackAvailable m1) in
  _ ← write_manifest m2 manifest_path;
  _ ← write_task_status (m_project_id m2) (m_task_id m2) (m_status m2);
  _ ← append_timeline (m_project_id m2) (m_task_id m2) MergeCompleted
        (JObj [("acceptedPaths", to_value acc_paths);
               ("skippedPaths", to_value skip_paths)]);
  mret {| mo_task_id := m_task_id m2; accepted_paths := acc_paths;
          skipped_paths := skip_paths; mo_changed_files := changed_files m2 |}.

Definition merge_refreshed (manifest_path : path) (request : MergeRequest)
    (m : TaskManifest) : R MergeOutcome :=
  let root := project_root (m_project_id m) in
  _ ← acquire_merge_lock root (m_task_id m);
  finally (merge_body manifest_path request m)
    (release_lock (merge_lock_path root (m_task_id m))).

Definition merge (manifest_path : path) (request : MergeRequest) : R MergeOutcome :=
  m ← refresh_changes manifest_path;
  merge_refreshed manifest_path request m.

(** ** Rolling back *)

Definition reverted_change (c : ChangedFile) : ChangedFile := {|
  cf_path := cf_path c; cf_status := cf_status c; before_hash := before_hash c;
  after_ai_hash := after_ai_hash c; after_merge_hash := None; merged_hunks := None;
  accepted := false; merge_status := "pending" |}.

Definition partly_reverted_change (hash : option string) (removed : gset N)
    (c : ChangedFile) : ChangedFile := {|
  cf_path := cf_path c; cf_status := cf_status c; before_hash := before_hash c;
  after_ai_hash := after_ai_hash c; after_merge_hash := hash;
  merged_hunks := Some (List.filter (λ i, negb (bool_decide (i ∈ removed)))
                          (default [] (merged_hunks c)));
  accepted := accepted c; merge_status := "applied" |}.

(** The hunks that stay merged; empty when the whole file is rolled back. *)
Definition remaining_hunks (removed : gset N) (merged : list N) : gset N :=
  if bool_decide (removed = ∅) || bool_decide (merged = []) then ∅
  else list_to_set (List.filter (λ i, negb (bool_decide (i ∈ removed))) merged).

(** The body of the second loop of [rollback]. *)
Definition rollback_file (m : TaskManifest) (before_snapshot : path)
    (hunks : list HunkSelection) (changed : ChangedFile) : R ChangedFile :=
  let p := cf_path changed in
  let removed := indices_for p hunks in
  let merged := default [] (merged_hunks changed) in
  let remaining := remaining_hunks removed merged in
  if negb (bool_decide (removed = ∅)) && negb (bool_decide (merged = []))
     && negb (bool_decide (remaining = ∅))
  then
    _ ← restore_snapshot before_snapshot (original_root m) p;
    _ ← apply_selected_hunks (original_root m) (workspace_root m) p
          (map (λ i, {| hs_path := p; hunk_index := i |}) (btree_N remaining));
    hash ← project_hash m p;
    mret (partly_reverted_change hash removed changed)
  else
    _ ← restore_snapshot before_snapshot (original_root m) p;
    mret (reverted_change changed).

Definition rollback_one (m : TaskManifest) (paths : gset string) (before_snapshot : path)
    (hunks : list HunkSelection) (acc : list ChangedFile * list string)
    (changed : ChangedFile) : R (list ChangedFile * list string) :=
  if negb (accepted changed) || negb (bool_decide (cf_path changed ∈ paths))
  then mret (fst acc ++ [changed], snd acc)
  else
    changed' ← rollback_file m before_snapshot hunks changed;
    mret (fst acc ++ [changed'], snd acc ++ [cf_path changed]).

Definition rollback_manifest (manifest_path : path) (request : RollbackRequest)
    (m : TaskManifest) : R RollbackOutcome :=
  let root := task_root (m_project_id m) (m_task_id m) in
  let before_snapshot := join (join root "snapshots") "before" in
  let paths := selected_rollback_paths (changed_files m) (rr_selection request) in
  let hunks := rollback_hunk_selections (rr_selection request) in
  if bool_decide (paths = ∅) then throw (Other "No merged files selected for rollback.") else
  _ ← verify_files manifest_path m RollbackFailed RollbackConflict after_merge_hash
        (λ c, accepted c && bool_decide (cf_path c ∈ paths));
  r ← foldM (rollback_one m paths before_snapshot hunks) ([], []) (changed_files m);
  let m1 := set_changed_files (fst (r : list ChangedFile * list string)) m in
  let status := if existsb accepted (changed_files m1) then RollbackAvailable
                else MergeReady in
  t ← now;
  let m2 := set_updated_at t (set_status status m1) in
  _ ← write_manifest m2 manifest_path;
  _ ← write_task_status (m_project_id m2) (m_task_id m2) (m_status m2);
  _ ← append_timeline (m_project_id m2) (m_task_id m2) RollbackCompleted
        (JObj [("restoredPaths", to_value (snd r));
               ("skippedPaths", to_value ([] : list string))]);
  mret {| ro_task_id := m_task_id m2; restored_paths := snd r; ro_skipped_paths := [] |}.

Definition rollback (manifest_path : path) (request : RollbackRequest) : R RollbackOutcome :=
  m ← read_manifest_from manifest_path;
  rollback_manifest manifest_path request m.

(** ** Summaries, memory and traceback *)

Definition write_task_summary (manifest_path : path) (goal result : string) : R path :=
  m ← read_manifest_from manifest_path;
  let root := task_root (m_project_id m) (m_task_id m) in
  structured ← build_structured_summary m goal result root;
  paths ← write_summary_artifacts root structured;
  _ ← append_timeline (m_project_id m) (m_task_id m) SummaryGenerated
        (JObj [("path", ser_path (fst (paths : path * path)));
               ("jsonPath", ser_path (snd paths))]);
  _ ← write_task_status (m_project_id m) (m_task_id m) SummaryReady;
  mret (fst paths).

Definition list_memory_candidates (project_id tid : string)
  : R (list CandidateMemoryRecord) :=
  read_candidate_memory_records (task_root project_id tid).

Definition apply_memory_candidates (project_id tid : string) (ids : list string)
  : R MemoryApplyOutcome :=
  apply_candidate_memory (project_root project_id) (task_root project_id tid) ids.

Definition list_traceback (project_id tid : string) : R (list TracebackEntry) :=
  list_traceback_entries (task_root project_id tid).

Definition restore_traceback (project_id tid p : string) (target : TracebackRestoreTarget)
  : R TracebackRestoreOutcome :=
  m ← read_manifest project_id tid;
  out ← restore_file m (task_root project_id tid) p target;
  _ ← append_timeline project_id tid RollbackCompleted
        (JObj [("path", to_value p);
               ("target", to_value (tro_target out));
               ("tracebackRevision", to_value (tro_revision out));
               ("kind", to_value "tracebackRestore")]);
  mret out.

(** ** Running commands *)

(** The local variables of the loop that drains the two pipes. *)
Record drain_state := {
  dr_stdout_bytes : N;
  dr_stderr_bytes : N;
  dr_excerpt : list string
}.

Definition output_event (project_id tid rid : string) (s : CommandOutputStream)
    (text : string) : R unit :=
  _ ← append_timeline project_id tid CommandOutput
        (JObj [("commandId", to_value rid); ("stream", to_value s);
               ("text", to_value text)]);
  mret tt.

(** The loop runs until both pipes are closed, or the channel is. *)
Fixpoint drain (project_id tid rid : string) (out_path err_path : path)
    (open_streams : nat) (events : list pipe_event) (st : drain_state) : R drain_state :=
  match open_streams, events with
  | 0, _ | _, [] => mret st
  | S n, PipeClosed :: events' =>
      drain project_id tid rid out_path err_path n events' st
  | _, PipeLine true text :: events' =>
      _ ← append_file out_path text;
      _ ← output_event project_id tid rid Stdout text;
      drain project_id tid rid out_path err_path open_streams events'
        {| dr_stdout_bytes := dr_stdout_bytes st + N.of_nat (String.length text);
           dr_stderr_bytes := dr_stderr_bytes st; dr_excerpt := dr_excerpt st |}
  | _, PipeLine false text :: events' =>
      _ ← append_file err_path text;
      _ ← output_event project_id tid rid Stderr text;
      drain project_id tid rid out_path err_path open_streams events'
        {| dr_stdout_bytes := dr_stdout_bytes st;
           dr_stderr_bytes := dr_stderr_bytes st + N.of_nat (String.length text);
           dr_excerpt := push_excerpt (dr_excerpt st) text |}
  end.

Definition finish_run (completed : Z) (exit : option Z) (st : drain_state)
    (r : CommandRunRecord) : CommandRunRecord :=
  let ok := bool_decide (exit = Some 0%Z) in {|
  run_id := run_id r; run_task_id := run_task_id r; run_kind := run_kind r;
  run_title := run_title r; run_command := run_command r; run_cwd := run_cwd r;
  environment_profile := environment_profile r;
  environment_fingerprint := environment_fingerprint r; run_retry_of := run_retry_of r;
  started_at := started_at r; run_completed_at := Some completed;
  run_status := if ok then Succeeded else Failed;
  run_exit_code := exit; stdout_path := stdout_path r; stderr_path := stderr_path r;
  stdout_bytes := dr_stdout_bytes st; stderr_bytes := dr_stderr_bytes st;
  diagnosis := diagnosis r;
  failure_summary := if ok then None
                     else summarize_failure (dr_excerpt st) (run_command r) exit;
  next_step := next_step r |}.

Definition run_command_request (manifest_path : path) (request : CommandExecutionRequest)
  : R CommandRunRecord :=
  m ← read_manifest_from manifest_path;
  let root := task_root (m_project_id m) (m_task_id m) in
  let terminal_root := join root "terminal" in
  _ ← create_dir_all terminal_root;
  let env_binding := if use_environment_binding request then environment_binding m
                     else None in
  let env_map := build_command_environment env_binding (env_overrides request) in
  rid ← new_uuid;
  let out_path := join terminal_root (rid +:+ ".stdout.log") in
  let err_path := join terminal_root (rid +:+ ".stderr.log") in
  t ← now;
  let record := {|
    run_id := rid; run_task_id := m_task_id m; run_kind := rq_kind request;
    run_title := rq_title request; run_command := rq_command request;
    run_cwd := workspace_root m;
    environment_profile := match rq_profile_id request with
                           | Some p => Some p
                           | None => profile_id <$> env_binding
                           end;
    environment_fingerprint := fingerprint <$> env_binding;
    run_retry_of := rq_retry_of request; started_at := t; run_completed_at := None;
    run_status := Running; run_exit_code := None; stdout_path := out_path;
    stderr_path := err_path; stdout_bytes := 0; stderr_bytes := 0; diagnosis := None;
    failure_summary := None; next_step := None |} in
  _ ← write_command_run root record;
  _ ← append_timeline (m_project_id m) (m_task_id m) CommandStarted
        (JObj [("commandId", to_value rid); ("command", to_value (rq_command request));
               ("kind", to_value (run_kind record)); ("cwd", ser_path (workspace_root m));
               ("retryOf", to_value (run_retry_of record));
               ("title", to_value (run_title record));
               ("environmentProfile", to_value (environment_profile record))]);
  child ← lift_cmd (shell_run (workspace_root m) env_map (rq_command request));
  _ ← write out_path "";
  _ ← write err_path "";
  st ← drain (m_project_id m) (m_task_id m) rid out_path err_path 2
         (fst (child : list pipe_event * option Z))
         {| dr_stdout_bytes := 0; dr_stderr_bytes := 0; dr_excerpt := [] |};
  t2 ← now;
  let done := finish_run t2 (snd child) st record in
  _ ← write_command_run root done;
  _ ← append_timeline (m_project_id m) (m_task_id m) CommandCompleted
        (JObj [("commandId", to_value rid); ("status", to_value (run_status done));
               ("exitCode", to_value (run_exit_code done));
               ("stdoutBytes", to_value (stdout_bytes done));
               ("stderrBytes", to_value (stderr_bytes done));
               ("failureSummary", to_value (failure_summary done))]);
  mret done.

Definition run_test_command_request (manifest_path : path) (request : TestExecutionRequest)
  : R TestOutcome :=
  m ← read_manifest_from manifest_path;
  let root := task_root (m_project_id m) (m_task_id m) in
  let test_dir := join root "tests" in
  _ ← create_dir_all test_dir;
  _ ← append_timeline (m_project_id m) (m_task_id m) TestStarted
        (JObj [("command", to_value (te_command request))]);
  _ ← write_task_status (m_project_id m) (m_task_id m) TestingRunning;
  run ← run_command_request manifest_path {|
          rq_command := te_command request;
          use_environment_binding := te_use_environment_binding request;
          env_overrides := te_env_overrides request;
          rq_profile_id := te_profile_id request;
          rq_title := match te_title request with Some t => Some t | None => Some "Test run" end;
          rq_kind := TestKind; rq_retry_of := te_retry_of request |};
  let out := {|
    command_run_id := run_id run; to_command := te_command request;
    to_environment := default "local" (environment_profile run);
    to_status := if bool_decide (run_status run = Succeeded) then "passed" else "failed";
    to_exit_code := run_exit_code run; to_stdout_path := stdout_path run;
    to_stderr_path := stderr_path run |} in
  _ ← write (join test_dir (run_id run +:+ ".json")) (to_vec_pretty out);
  _ ← write_task_status (m_project_id m) (m_task_id m)
        (if String.eqb (to_status out) "passed" then TestingPassed else TestingFailed);
  _ ← append_timeline (m_project_id m) (m_task_id m) TestCompleted
        (JObj [("outcome", to_value out)]);
  mret out.

Definition run_test_command (manifest_path : path) (command : string) : R TestOutcome :=
  run_test_command_request manifest_path {|
    te_command := command; te_use_environment_binding := true; te_env_overrides := ∅;
    te_profile_id := None; te_retry_of := None; te_title := Some "Test run" |}.

(** ** Overviews *)

Definition missing_task (tid : string) : CodexNewError :=
  Other ("missing task record for " +:+ tid).

Definition get_task_overview (project_id tid : string) : R TaskOverview :=
  m ← read_manifest project_id tid;
  r ← read_task_record (project_root project_id) tid;
  task ← ok_or r (missing_task tid);
  let root := task_root project_id tid in
  summary ← read_optional (join (join root "memory") "task-summary.json");
  report ← read_optional (join (join root "review") "latest-review.json");
  diff ← build_diff_bundle m;
  feed ← read_timeline_events root tid None 40;
  runs ← list_command_runs root 20;
  mret {| ov_task := task; ov_manifest := m; ov_environment := environment_binding m;
          latest_summary := summary; ov_diff := diff; ov_review := report;
          latest_event_seq := latest_seq feed; recent_activity := feed_events feed;
          command_runs := runs; timeline_path := join root "timeline.jsonl" |}.

Definition task_resume_context (project_id tid : string) : R TaskResumeContext :=
  ov ← get_task_overview project_id tid;
  fs ← get_fs;
  mret (build_task_resume_context fs ov).

Definition refresh_environment_links (project_id tid : string)
  : R (option EnvironmentBinding) :=
  m ← read_manifest project_id tid;
  match environment_binding m with
  | None => mret None
  | Some b =>
      b' ← configure_ignoring_errors (workspace_root m) b;
      t ← now;
      _ ← write_manifest (set_updated_at t (set_environment (Some b') m))
            (manifest_file project_id tid);
      mret (Some b')
  end.

Definition inspect_task_environment (project_id tid : string)
  : R (option EnvironmentBinding) := refresh_environment_links project_id tid.

Definition get_task_activity (project_id tid : string) (after_seq : option N)
    (limit : nat) : R TaskActivityFeed :=
  read_timeline_events (task_root project_id tid) tid after_seq limit.

Definition engine_list_command_runs (project_id tid : string) (limit : nat)
  : R (list CommandRunRecord) :=
  list_command_runs (task_root project_id tid) limit.

Definition annotate_run (diag next : option string) (r : CommandRunRecord)
  : CommandRunRecord := {|
  run_id := run_id r; run_task_id := run_task_id r; run_kind := run_kind r;
  run_title := run_title r; run_command := run_command r; run_cwd := run_cwd r;
  environment_profile := environment_profile r;
  environment_fingerprint := environment_fingerprint r; run_retry_of := run_retry_of r;
  started_at := started_at r; run_completed_at := run_completed_at r;
  run_status := run_status r; run_exit_code := run_exit_code r;
  stdout_path := stdout_path r; stderr_path := stderr_path r;
  stdout_bytes := stdout_bytes r; stderr_bytes := stderr_bytes r;
  diagnosis := match diag with Some d => Some d | None => diagnosis r end;
  failure_summary := failure_summary r;
  next_step := match next with Some n => Some n | None => next_step r end |}.

Definition annotate_command_run (project_id tid command_id : string)
    (diag next : option string) : R CommandRunRecord :=
  let root := task_root project_id tid in
  r ← read_command_run root command_id;
  record ← ok_or r (Other ("missing command record for " +:+ command_id));
  let record := annotate_run diag next record in
  _ ← write_command_run root record;
  _ ← append_timeline project_id tid AgentNote
        (JObj [("commandId", to_value command_id); ("diagnosis", to_value diag);
               ("nextStep", to_value next)]);
  mret record.

Definition record_agent_plan (project_id tid message : string) : R TimelineEvent :=
  append_timeline project_id tid AgentPlan (JObj [("message", to_value message)]).

Definition record_agent_note (project_id tid message : string)
    (command_id p : option string) : R TimelineEvent :=
  append_timeline project_id tid AgentNote
    (JObj [("message", to_value message); ("commandId", to_value command_id);
           ("path", to_value p)]).

Definition record_file_read (project_id tid p : string) : R TimelineEvent :=
  append_timeline project_id tid FileRead (JObj [("path", to_value p)]).

Definition record_file_edit_started (project_id tid p : string) : R TimelineEvent :=
  append_timeline project_id tid FileEditStarted (JObj [("path", to_value p)]).

(** ** Reviewing, archiving, resuming *)

Definition review_status (d : ReviewDisposition) : TaskStatus :=
  match d with Blocked => ReviewBlocked | _ => ReviewPassed end.

Definition review_task (project_id tid : string) : R ReviewReport :=
  project ← read_project project_id;
  m ← read_manifest project_id tid;
  diff ← build_diff_bundle m;
  let report := review_manifest m diff (merge_policy_for_project project) in
  let review_root := join (task_root project_id tid) "review" in
  _ ← create_dir_all review_root;
  _ ← write (join review_root "latest-review.json") (to_vec_pretty report);
  _ ← write_task_status project_id tid (review_status (disposition report));
  _ ← append_timeline project_id tid ReviewCompleted (JObj [("report", to_value report)]);
  mret report.

Definition archive_task (project_id tid : string) : R TaskRecord :=
  let root := project_root project_id in
  r ← read_task_record root tid;
  task ← ok_or r (missing_task tid);
  updated ← now;
  completed ← now;
  let task := set_task_status Archived updated
                (Some (default completed (task_completed_at task))) task in
  _ ← write_task_record root task;
  let manifest_path := manifest_file project_id tid in
  e ← exists_ manifest_path;
  _ ← (if (e : bool) then
         m ← read_manifest_from manifest_path;
         t ← now;
         write_manifest (set_updated_at t (set_status Archived m)) manifest_path
       else mret tt);
  mret task.

Definition revalidate (m : TaskManifest) : R TaskManifest :=
  match environment_binding m with
  | None => mret m
  | Some b =>
      v ← validate_environment_binding b;
      mret (set_environment (Some (set_validation v b)) m)
  end.

Definition resume_task (project_id tid : string) : R TaskOverview :=
  let manifest_path := manifest_file project_id tid in
  project ← read_project project_id;
  m ← read_manifest project_id tid;
  m ← recover_task_workspace project m workspaces_root;
  m ← revalidate m;
  m ← recover_manifest m;
  _ ← write_manifest m manifest_path;
  _ ← write_task_status project_id tid (m_status m);
  get_task_overview project_id tid.

(** ** Resolving a conversation to a task *)

Definition bind_conversation (project_id tid : string) (conversation : option string)
  : R (option ConversationBinding) :=
  match conversation with
  | Some c => Some <$> write_conversation_binding (project_root project_id) project_id c
                         (Some tid)
  | None => mret None
  end.

Definition fork_task (project : ProjectRecord) (source : option TaskRecord)
    (title : string) (conversation : option string) : R ResolveTaskResponse :=
  source ← ok_or source (Other "fork source task was not found");
  source_manifest ← read_manifest (proj_id project) (task_id source);
  created ← create_task project title;
  let '(task, m) := created : TaskRecord * TaskManifest in
  e ← exists_ (workspace_root source_manifest);
  m ← (if (e : bool) then
         _ ← copy_project (workspace_root source_manifest) (workspace_root m);
         refresh_changes (manifest_file (proj_id project) (task_id task))
       else mret m);
  binding ← bind_conversation (proj_id project) (task_id task) conversation;
  mret {| rs_task := task; rs_manifest := m; reused_existing := false;
          conversation_binding := binding |}.

(** The task a conversation is bound to, if its record can still be read. *)
Definition bound_task (root : path) (conversation : string) : R (option TaskRecord) :=
  binding ← read_conversation_binding root conversation;
  match binding ≫= active_task_id with
  | Some tid => read_task_record root tid
  | None => mret None
  end.

Definition created_task (project : ProjectRecord) (title : string)
  : R (TaskRecord * bool) :=
  created ← create_task project title;
  mret (fst (created : TaskRecord * TaskManifest), false).

(** The task [resolve_or_create_task] settles on, and whether it existed. *)
Definition choose_task (project : ProjectRecord) (request : ResolveTaskRequest)
    (candidate : option TaskRecord) : R (TaskRecord * bool) :=
  match candidate ≫= λ t, if is_terminal (task_status t) then None else Some t with
  | Some task => mret (task, true)
  | None =>
      match conversation_id request, reuse_policy request with
      | None, ReuseActive =>
          latest ← find_latest_unfinished_task (project_root (proj_id project));
          match latest with
          | Some task => mret (task, true)
          | None => created_task project (rt_title request)
          end
      | _, _ => created_task project (rt_title request)
      end
  end.

Definition resolve_or_create_task (request : ResolveTaskRequest) : R ResolveTaskResponse :=
  project ← read_project (rt_project_id request);
  let root := project_root (proj_id project) in
  match reuse_policy request with
  | ForkFromTask tid =>
      source ← read_task_record root tid;
      fork_task project source (rt_title request) (conversation_id request)
  | policy =>
      candidate ← match policy, conversation_id request with
                  | ReuseActive, Some c => bound_task root c
                  | _, _ => mret None
                  end;
      chosen ← choose_task project request candidate;
      let '(task, reused) := chosen : TaskRecord * bool in
      m ← read_manifest (task_project_id task) (task_id task);
      binding ← bind_conversation (proj_id project) (task_id task)
                  (conversation_id request);
      mret {| rs_task := task; rs_manifest := m; reused_existing := reused;
              conversation_binding := binding |}
  end.
End engine.
