(* ===== verification/Exec.v ===== *)
(** * Executing effectful functions on the abstract store

    The abstract state of a file system is the content of its regular files,
    [file_of fs : path → option string].  The lemmas of this file run the
    primitives and the functions of [fsx.rs] on it: a successful call is an
    update [fput] of one path.  [exec H] splits the equation
    [m w = (Ok a, w')] of a bind into those of its parts. *)

From S2P Require Import Prelude RustStr FsModel World Models FsFacts Frame Fsx.

(** ** Splitting equations *)

Section inversion.
Context {E : Type}.

Lemma bind_ok {A B} (m : M E A) (f : A → M E B) w b w' :
  (m ≫= f) w = (Ok b, w') → ∃ a w1, m w = (Ok a, w1) ∧ f a w1 = (Ok b, w').
Proof. unfold mbind, M_bind. destruct (m w) as [[a|e|s] w1]; naive_solver. Qed.

Lemma bind_run {A B} (m : M E A) (f : A → M E B) w a w1 :
  m w = (Ok a, w1) → (m ≫= f) w = f a w1.
Proof. unfold mbind, M_bind. by intros ->. Qed.

Lemma fmap_ok {A B} (m : M E A) (f : A → B) w b w' :
  (f <$> m) w = (Ok b, w') → ∃ a, m w = (Ok a, w') ∧ b = f a.
Proof. unfold fmap, M_fmap. destruct (m w) as [[a|e|s] w1]; naive_solver. Qed.

Lemma ret_ok {A} (a b : A) w w' : (mret a : M E A) w = (Ok b, w') → b = a ∧ w' = w.
Proof. unfold mret, M_ret. naive_solver. Qed.

Lemma ok_or_ok {A} (o : option A) (e : E) w a w' :
  ok_or o e w = (Ok a, w') → o = Some a ∧ w' = w.
Proof. destruct o; simpl; [|done]. intros [-> ->]%ret_ok. done. Qed.

Lemma throw_ok {A} (e : E) w (a : A) w' : throw e w = (Ok a, w') → False.
Proof. done. Qed.

Lemma panic_ok {A} s w (a : A) w' : (panic s : M E A) w = (Ok a, w') → False.
Proof. done. Qed.

Lemma attempt_ok {E' A} (m : M E' A) w r w' :
  (attempt m : M E (E' + A)) w = (Ok r, w') →
  (∃ a, r = inr a ∧ m w = (Ok a, w')) ∨ (∃ e, r = inl e ∧ m w = (Err e, w')).
Proof. unfold attempt. destruct (m w) as [[a|e|s] w1]; naive_solver. Qed.

Lemma finally_ok {A} (m : M E A) fin w a w' :
  finally m fin w = (Ok a, w') →
  ∃ w1, m w = (Ok a, w1) ∧ w' = set_fs (fin (w_fs w1)) w1.
Proof. unfold finally. destruct (m w) as [r w1]. naive_solver. Qed.

(** A loop whose steps change nothing. *)
Lemma forM_run {A : Type} (f : A → M E unit) (l : list A) w :
  (∀ x, x ∈ l → f x w = (Ok tt, w)) → forM_ l f w = (Ok tt, w).
Proof.
  unfold forM_. intros Hf.
  assert (Hl : ∀ u, foldM (λ _ x, f x) u l w = (Ok u, w)); [|apply Hl].
  induction l as [|x l IH]; intros []; [done|]. simpl.
  unfold mbind, M_bind. rewrite Hf by left. apply IH. intros. apply Hf. by right.
Qed.

Lemma exists_ok p w b w' :
  (exists_ p : M E bool) w = (Ok b, w') → b = fs_exists (w_fs w) p ∧ w' = w.
Proof. unfold exists_. naive_solver. Qed.

Lemma is_file_ok p w b w' :
  (is_file p : M E bool) w = (Ok b, w') → b = fs_is_file (w_fs w) p ∧ w' = w.
Proof. unfold is_file. naive_solver. Qed.

Lemma get_fs_ok w fs w' : (get_fs : M E fsys) w = (Ok fs, w') → fs = w_fs w ∧ w' = w.
Proof. unfold get_fs. naive_solver. Qed.

Context `{Sys}.
Lemma now_ok w t w' : (now : M E _) w = (Ok t, w') → w_fs w' = w_fs w.
Proof. unfold now. naive_solver. Qed.
Lemma new_uuid_ok w t w' : (new_uuid : M E _) w = (Ok t, w') → w_fs w' = w_fs w.
Proof. unfold new_uuid. naive_solver. Qed.

Context `{FromIo E}.
Lemma lift_read_ok {A} (f : fsys → io_kind + A) w a w' :
  lift_read f w = (Ok a, w') → f (w_fs w) = inr a ∧ w' = w.
Proof. unfold lift_read. destruct (f (w_fs w)); naive_solver. Qed.
Lemma lift_fs_ok f w u w' :
  lift_fs f w = (Ok u, w') → f (w_fs w) = inr (w_fs w').
Proof. unfold lift_fs. destruct (f (w_fs w)); naive_solver. Qed.
End inversion.

(** Splits one equation of a successful run. *)
Ltac exec_in H :=
  first
    [ apply bind_ok in H; destruct H as (?a & ?w & ?H1 & H)
    | apply ret_ok in H; destruct H as [? ?]; subst
    | apply ok_or_ok in H; destruct H as [? ?]; subst
    | apply exists_ok in H; destruct H as [? ?]; subst
    | apply is_file_ok in H; destruct H as [? ?]; subst
    | apply get_fs_ok in H; destruct H as [? ?]; subst
    | exfalso; exact (throw_ok _ _ _ _ H)
    | exfalso; exact (panic_ok _ _ _ _ H) ].

(** [exec H as x w1 E]: the first call of a bind. *)
Tactic Notation "exec" hyp(H) "as" simple_intropattern(x) simple_intropattern(w1)
    simple_intropattern(E) :=
  apply bind_ok in H; destruct H as (x & w1 & E & H).

(** ** Updates of the abstract store *)

Definition fput (p : path) (v : option string) (a : path → option string)
  : path → option string := λ q, if decide (q = p) then v else a q.

Lemma fput_eq p v a : fput p v a p = v.
Proof. unfold fput. by destruct (decide (p = p)). Qed.
Lemma fput_ne p q v a : q ≠ p → fput p v a q = a q.
Proof. unfold fput. by destruct (decide (q = p)). Qed.

Lemma file_of_insert fs p s q :
  file_of (<[p := File s]> fs) q = fput p (Some s) (file_of fs) q.
Proof.
  unfold fput. destruct (decide (q = p)) as [->|Hne];
    [apply file_of_insert_eq|by apply file_of_insert_ne].
Qed.
Lemma file_of_delete fs p q :
  file_of (delete p fs) q = fput p None (file_of fs) q.
Proof.
  unfold fput. destruct (decide (q = p)) as [->|Hne];
    [apply file_of_delete_eq|by apply file_of_delete_ne].
Qed.

Section prims.
Context (Z : path → Prop) (I : path → node → Prop).
Context {E : Type} `{!FromIo E}.
Local Abbreviation ok := (store_ok Z I).

(** [fs'] is a well-formed store with the contents [a]. *)
Definition becomes (fs' : fsys) (a : path → option string) : Prop :=
  ok fs' ∧ ∀ q, file_of fs' q = a q.

Lemma write_ok p s w u w' :
  ok (w_fs w) → clear Z p → I p (File s) → (write p s : M E unit) w = (Ok u, w') →
  becomes (w_fs w') (fput p (Some s) (file_of (w_fs w))).
Proof.
  intros Hok Hcl HI Hw. unfold write in Hw. apply (lift_fs_ok (E:=E)) in Hw.
  apply (write_clear Z _ (st_fs Z I _ Hok)) in Hw as (_ & -> & Hfs); [|done].
  split; [by apply store_ok_insert|]. intros q. apply file_of_insert.
Qed.

Lemma remove_ok p w u w' :
  ok (w_fs w) → clear Z p → (remove_file p : M E unit) w = (Ok u, w') →
  becomes (w_fs w') (fput p None (file_of (w_fs w))).
Proof.
  intros Hok Hcl Hw. unfold remove_file in Hw. apply (lift_fs_ok (E:=E)) in Hw.
  apply (remove_clear Z _ (st_fs Z I _ Hok)) in Hw as (-> & Hfs & _); [|done].
  split; [by apply store_ok_delete|]. intros q. apply file_of_delete.
Qed.

Lemma copy_ok src dst w u w' :
  ok (w_fs w) → clear Z src → clear Z dst → src ≠ dst → (∀ s, I dst (File s)) →
  (copy src dst : M E unit) w = (Ok u, w') →
  becomes (w_fs w') (fput dst (file_of (w_fs w) src) (file_of (w_fs w))).
Proof.
  intros Hok Hs Hd Hne HI Hw. unfold copy in Hw. apply (lift_fs_ok (E:=E)) in Hw.
  apply (copy_clear Z _ (st_fs Z I _ Hok)) in Hw as (s & Hsrc & _ & -> & Hfs); [|done..].
  rewrite bool_decide_eq_false_2 in * by done.
  split; [by apply store_ok_insert|]. intros q. rewrite Hsrc. apply file_of_insert.
Qed.

Lemma create_dir_all_ok p w u w' :
  ok (w_fs w) → clear Z p → dirs_to I p →
  (create_dir_all p : M E unit) w = (Ok u, w') →
  becomes (w_fs w') (file_of (w_fs w)).
Proof.
  intros Hok Hcl Hd Hw. unfold create_dir_all in Hw. apply (lift_fs_ok (E:=E)) in Hw.
  apply (create_dir_all_clear Z) in Hw as (Hg & Hfs & _); [|by apply (st_fs Z I)|done].
  split; [by apply (store_ok_grow Z I p (w_fs w))|].
  intros q. by apply (grows_dirs_file p).
Qed.

Lemma create_parent_ok p w u w' :
  ok (w_fs w) → clear Z p → parents_to I p → (create_parent p : M E unit) w = (Ok u, w') →
  becomes (w_fs w') (file_of (w_fs w)).
Proof.
  unfold create_parent. intros Hok Hcl Hp. destruct (parent p) as [d|] eqn:Hd.
  - apply create_dir_all_ok; [done|..].
    + eapply clear_prefix; [done|]. by apply parent_prefix.
    + by apply (dirs_to_parent I p).
  - intros [_ ->]%ret_ok. done.
Qed.

(** [if path.exists() { remove_file(path)? }]: the file is gone. *)
Lemma remove_if_ok p w u w' :
  ok (w_fs w) → clear Z p →
  (if fs_exists (w_fs w) p then remove_file p else mret tt : M E unit) w = (Ok u, w') →
  becomes (w_fs w') (fput p None (file_of (w_fs w))).
Proof.
  intros Hok Hcl. destruct (fs_exists (w_fs w) p) eqn:He.
  - by apply remove_ok.
  - intros [_ ->]%ret_ok. split; [done|]. intros q. unfold fput.
    destruct (decide (q = p)) as [->|]; [|done]. unfold file_of.
    by rewrite (exists_false_clear Z _ (st_fs Z I _ Hok)).
Qed.
End prims.

(** ** Hashes *)

Section hashes.
Context `{Sys} (Z : path → Prop).

Lemma read_ok_clear (p : path) w s w' :
  fs_ok Z (w_fs w) → clear Z p → (read p : R string) w = (Ok s, w') →
  w' = w ∧ file_of (w_fs w) p = Some s.
Proof.
  intros Hfs Hcl Hr. unfold read in Hr. apply lift_read_ok in Hr as [Hr ->].
  by apply (read_clear Z) in Hr.
Qed.

Lemma file_hash_ok p w h w' :
  fs_ok Z (w_fs w) → clear Z p → p ≠ [] → file_hash p w = (Ok h, w') →
  w' = w ∧ h = hash_of <$> file_of (w_fs w) p.
Proof.
  intros Hfs Hcl Hp Hw. unfold file_hash in Hw. exec Hw as fs w1 [-> ->]%get_fs_ok.
  destruct (lstat (w_fs w) p) as [k|n] eqn:Hl.
  - assert (Hn : file_of (w_fs w) p = None).
    { unfold file_of. destruct (w_fs w !! p) as [n|] eqn:Hn; [|done].
      by rewrite (lstat_present Z _ Hfs p n) in Hl. }
    rewrite Hn. destruct k; [by apply ret_ok in Hw as [-> ->]|by apply throw_ok in Hw..].
  - pose proof (lstat_look Z _ Hfs p n Hcl Hl) as Hlk. rewrite look_ne in Hlk by done.
    unfold file_of. rewrite Hlk. destruct n as [s| |t];
      [|by apply ret_ok in Hw as [-> ->]..].
    exec Hw as s' w2 [-> Hs]%read_ok_clear; [|done..].
    apply ret_ok in Hw as [-> ->]. unfold file_of in Hs. rewrite Hlk in Hs.
    by simplify_eq.
Qed.

(** A regular file at a clear path has a hash. *)
Lemma file_hash_run p w s :
  fs_ok Z (w_fs w) → clear Z p → file_of (w_fs w) p = Some s →
  file_hash p w = (Ok (Some (hash_of s)), w).
Proof.
  intros Hfs Hcl Hs. unfold file_hash. erewrite bind_run by done.
  assert (Hn : w_fs w !! p = Some (File s)).
  { unfold file_of in Hs. destruct (w_fs w !! p) as [[]|]; by simplify_eq. }
  rewrite (lstat_present Z _ Hfs p (File s)) by done.
  erewrite bind_run; [done|]. unfold read, lift_read.
  by rewrite (proj2 (read_clear Z _ Hfs p s Hcl)).
Qed.
End hashes.
