(* ===== verification/FsxProps.v ===== *)
(** * Paths and the file operations

    Facts about path strings, and the correctness of [fsx.rs]. *)

From S2P Require Import Prelude RustStr FsModel World Models FsFacts Frame Fsx Exec.

(** * Facts about path strings

    Components of joined paths, plain names, checked joins and the names of
    snapshot blobs. *)

(** ** Splitting *)

Lemma split_go_none c cur l : c ∉ l → split_go c cur l = [reverse cur ++ l].
Proof.
  revert cur. induction l as [|d l IH]; intros cur Hc; simpl.
  - by rewrite app_nil_r.
  - apply not_elem_of_cons in Hc as [Hne Hc].
    destruct (Ascii.eqb_spec c d); [done|].
    rewrite IH by done. by rewrite reverse_cons, <- (assoc (++)).
Qed.

Lemma split_char_none c s : c ∉ bytes s → split_char c s = [s].
Proof.
  intros Hc. unfold split_char. rewrite split_go_none by done. simpl.
  by rewrite of_bytes_bytes.
Qed.

Lemma split_go_app c cur l k :
  c ∉ l → split_go c cur (l ++ c :: k) = (reverse cur ++ l) :: split_go c [] k.
Proof.
  revert cur. induction l as [|d l IH]; intros cur Hc; simpl.
  - by rewrite Ascii.eqb_refl, app_nil_r.
  - apply not_elem_of_cons in Hc as [Hne Hc].
    destruct (Ascii.eqb_spec c d); [done|].
    rewrite IH by done. by rewrite reverse_cons, <- (assoc (++)).
Qed.

Lemma split_char_app c s t :
  c ∉ bytes s → split_char c (s +:+ String c t) = s :: split_char c t.
Proof.
  intros Hc. unfold split_char. rewrite bytes_app. simpl.
  rewrite split_go_app by done. simpl. by rewrite of_bytes_bytes.
Qed.

(** ** Plain names *)

Lemma plain_name_inv s :
  plain_name s = true → s ≠ "" ∧ s ≠ "." ∧ s ≠ ".." ∧ "/"%char ∉ bytes s.
Proof.
  unfold plain_name. intros Hp. to_prop. split_and!; try done.
  intros Hin. match goal with H : existsb _ _ = false |- _ =>
    rewrite existsb_false_elem in H; specialize (H _ Hin) end.
  by rewrite Ascii.eqb_refl in *.
Qed.

Lemma plain_comps s : plain_name s = true → comps s = [s].
Proof.
  intros (H1 & H2 & _ & Hs)%plain_name_inv. unfold comps.
  rewrite split_char_none by done. simpl.
  apply String.eqb_neq in H1, H2. by rewrite H1, H2.
Qed.

Lemma slash_free_relative s : "/"%char ∉ bytes s → is_absolute s = false.
Proof.
  destruct s as [|c s]; [done|]. intros Hs. apply not_elem_of_cons in Hs as [Hne _].
  unfold is_absolute, starts_with. simpl. destruct c as [[] [] [] [] [] [] [] []]; done.
Qed.

Lemma join_plain p s : plain_name s = true → join p s = p ++ [s].
Proof.
  intros Hs. unfold join. rewrite slash_free_relative, plain_comps; [done..|].
  by apply plain_name_inv in Hs as (_ & _ & _ & ?).
Qed.

Lemma plain_not_dotdot s : plain_name s = true → s ≠ "..".
Proof. intros (_ & _ & ? & _)%plain_name_inv. done. Qed.

(** A slash-separated list of plain names is split into its names. *)
Lemma comps_join_with l :
  Forall (λ s, plain_name s = true) l → comps (join_with "/" l) = l.
Proof.
  induction 1 as [|s l Hs Hl IH]; [done|].
  destruct l as [|t l]; [by apply plain_comps|].
  change (join_with "/" (s :: t :: l)) with (s +:+ String "/" (join_with "/" (t :: l))).
  unfold comps in *. apply plain_name_inv in Hs as (H1 & H2 & _ & Hs).
  rewrite split_char_app by done. cbn [List.filter].
  apply String.eqb_neq in H1, H2. by rewrite H1, H2, IH.
Qed.

(** ** Checked joins *)

Lemma checked_join_opt_Some root rel q :
  checked_join_opt root rel = Some q ↔
  is_absolute rel = false ∧ no_dotdot (comps rel) ∧ q = root ++ comps rel.
Proof.
  unfold checked_join_opt, join.
  assert (Hd : existsb (String.eqb "..") (comps rel) = false ↔ no_dotdot (comps rel)).
  { rewrite existsb_false_elem. unfold no_dotdot. rewrite Forall_forall.
    split; intros Hx x Hin; specialize (Hx x Hin).
    - by apply String.eqb_neq in Hx.
    - apply String.eqb_neq. congruence. }
  destruct (is_absolute rel); cbn [orb]; [split; [done|by intros (? & _)]|].
  destruct (existsb (String.eqb "..") (comps rel)).
  - split; [done|]. intros (_ & Hn & _). by apply Hd in Hn.
  - split; [intros [= <-]|intros (_ & _ & ->); done].
    split_and!; [done|by apply Hd|done].
Qed.

(** ** Names of snapshot files *)

Lemma replace_char_notin c t s : c ∉ bytes t → c ∉ bytes (replace_char c t s).
Proof.
  intros Ht. induction s as [|d s IH]; simpl; [set_solver|].
  destruct (Ascii.eqb_spec c d) as [->|Hne].
  - rewrite bytes_app. set_solver.
  - simpl. set_solver.
Qed.

Lemma encode_path_slash_free p : "/"%char ∉ bytes (encode_path p).
Proof. apply replace_char_notin. simpl. set_solver. Qed.

Lemma plain_long s t :
  "/"%char ∉ bytes s → "/"%char ∉ bytes t → 2 < String.length t →
  plain_name (s +:+ t) = true.
Proof.
  intros Hs Ht Hl.
  assert (Hlen : 2 < String.length (s +:+ t)) by (rewrite str_length_app; lia).
  unfold plain_name. repeat (apply andb_true_iff; split); apply negb_true_iff.
  - apply String.eqb_neq. intros Heq. rewrite Heq in Hlen. simpl in Hlen. lia.
  - apply String.eqb_neq. intros Heq. rewrite Heq in Hlen. simpl in Hlen. lia.
  - apply String.eqb_neq. intros Heq. rewrite Heq in Hlen. simpl in Hlen. lia.
  - apply existsb_false_elem. intros c Hc. apply Ascii.eqb_neq. intros <-.
    rewrite bytes_app in Hc. set_solver.
Qed.

Lemma blob_name_plain p : plain_name (encode_path p +:+ ".blob") = true.
Proof.
  apply plain_long; [apply encode_path_slash_free|simpl; set_solver|simpl; lia].
Qed.
Lemma missing_name_plain p : plain_name (encode_path p +:+ ".missing") = true.
Proof.
  apply plain_long; [apply encode_path_slash_free|simpl; set_solver|simpl; lia].
Qed.

Lemma str_app_inj_r s s' t : s +:+ t = s' +:+ t → s = s'.
Proof.
  intros Heq%(f_equal bytes). rewrite !bytes_app in Heq.
  apply (inj bytes). by apply (inj (.++ bytes t)) in Heq.
Qed.

Lemma blob_ne_missing (s t : string) : s +:+ ".blob" ≠ t +:+ ".missing".
Proof.
  intros Heq%(f_equal bytes)%(f_equal reverse). rewrite !bytes_app, !reverse_app in Heq.
  by simpl in Heq.
Qed.

Lemma snapshot_blob_path_eq root p :
  snapshot_blob_path root p = root ++ [encode_path p +:+ ".blob"].
Proof. apply join_plain, blob_name_plain. Qed.
Lemma snapshot_missing_path_eq root p :
  snapshot_missing_path root p = root ++ [encode_path p +:+ ".missing"].
Proof. apply join_plain, missing_name_plain. Qed.

Lemma blob_paths_inj root p p' :
  snapshot_blob_path root p = snapshot_blob_path root p' → encode_path p = encode_path p'.
Proof.
  rewrite !snapshot_blob_path_eq. intros Heq%(inj (app root)). simplify_eq.
  by eapply str_app_inj_r.
Qed.
Lemma missing_paths_inj root p p' :
  snapshot_missing_path root p = snapshot_missing_path root p' →
  encode_path p = encode_path p'.
Proof.
  rewrite !snapshot_missing_path_eq. intros Heq%(inj (app root)). simplify_eq.
  by eapply str_app_inj_r.
Qed.
Lemma blob_path_ne_missing root p p' :
  snapshot_blob_path root p ≠ snapshot_missing_path root p'.
Proof.
  rewrite snapshot_blob_path_eq, snapshot_missing_path_eq.
  intros Heq%(inj (app root)). simplify_eq. by eapply blob_ne_missing.
Qed.

(** ** Disjoint directories *)

Definition under (r q : path) : Prop := r `prefix_of` q.
Definition apart (r r' : path) : Prop := ¬ r `prefix_of` r' ∧ ¬ r' `prefix_of` r.

Lemma apart_sym r r' : apart r r' → apart r' r.
Proof. intros []. by split. Qed.

Lemma apart_under r r' q : apart r r' → under r q → under r' q → False.
Proof.
  intros [H1 H2] Hr Hr'. unfold under in *.
  destruct (prefix_weak_total r r' q) as [?|?]; auto.
Qed.

Lemma under_app r k : under r (r ++ k).
Proof. by exists k. Qed.

Lemma under_trans r r' q : under r r' → under r' q → under r q.
Proof. apply transitivity. Qed.

#[export] Hint Resolve under_app apart_sym : frame.

(** * Correctness of fsx.rs

    What the functions of [fsx.rs] do to the abstract store, the containment
    of checked joins and the snapshot round trip. *)

Section fsx_exec.
Context `{Sys} (Z : path → Prop) (I : path → node → Prop).
Local Abbreviation ok := (store_ok Z I).
Local Abbreviation becomes := (becomes Z I).

Lemma checked_join_ok root p w q w' :
  checked_join root p w = (Ok q, w') →
  w' = w ∧ q = root ++ comps p ∧ no_dotdot (comps p).
Proof. intros [(_ & ? & ->)%checked_join_opt_Some ->]%ok_or_ok. done. Qed.

Lemma fput_overwrite p v v' a q : fput p v (fput p v' a) q = fput p v a q.
Proof. unfold fput. by destruct (decide (q = p)). Qed.

(** The whole content of one file becomes that of another. *)
Lemma copy_file_or_remove_ok src dst p w u w' :
  ok (w_fs w) → clear Z (src ++ comps p) → clear Z (dst ++ comps p) →
  src ++ comps p ≠ dst ++ comps p → parents_to I (dst ++ comps p) →
  (∀ s, I (dst ++ comps p) (File s)) →
  copy_file_or_remove src dst p w = (Ok u, w') →
  becomes (w_fs w')
    (fput (dst ++ comps p) (file_of (w_fs w) (src ++ comps p)) (file_of (w_fs w))).
Proof.
  intros Hok Hs Hd Hne Hp HI Hw. unfold copy_file_or_remove in Hw.
  exec Hw as q1 w1 (-> & -> & _)%checked_join_ok.
  exec Hw as q2 w2 (-> & -> & _)%checked_join_ok.
  exec Hw as b w3 [-> ->]%is_file_ok.
  rewrite (is_file_clear Z) in Hw by (done || by apply (st_fs Z I)).
  case_bool_decide as Hf.
  - exec Hw as u4 w4 Hpar.
    apply (create_parent_ok Z I) in Hpar as [Hok4 Ha4]; [|done..].
    apply (copy_ok Z I) in Hw as [Hok5 Ha5]; [|done..].
    split; [done|]. intros q. rewrite Ha5. unfold fput. by rewrite !Ha4.
  - exec Hw as e w4 [-> ->]%exists_ok.
    apply (remove_if_ok Z I) in Hw as [Hok5 Ha5]; [|done..].
    split; [done|]. intros q. rewrite Ha5.
    destruct (file_of (w_fs w) (src ++ comps p)); [|done]. by destruct Hf.
Qed.

(** The store after a snapshot of a file with content [v]. *)
Definition snapped (snap : path) (p : string) (v : option string)
    (a : path → option string) : path → option string :=
  match v with
  | Some s => fput (snapshot_blob_path snap p) (Some s)
                (fput (snapshot_missing_path snap p) None a)
  | None => fput (snapshot_missing_path snap p) (Some "")
              (fput (snapshot_blob_path snap p) None a)
  end.

(** The two files a snapshot of [p] writes may be files and nothing on the
    way to them is kept from being a directory. *)
Record snap_ready (snap : path) (p : string) : Prop := {
  sr_clear_blob : clear Z (snapshot_blob_path snap p);
  sr_clear_missing : clear Z (snapshot_missing_path snap p);
  sr_dirs : parents_to I (snapshot_blob_path snap p);
  sr_blob : ∀ s, I (snapshot_blob_path snap p) (File s);
  sr_missing : ∀ s, I (snapshot_missing_path snap p) (File s);
  sr_blob_no_dir : ¬ I (snapshot_blob_path snap p) Dir;
  sr_missing_no_dir : ¬ I (snapshot_missing_path snap p) Dir
}.

Lemma snapshot_file_ok src snap p w u w' :
  ok (w_fs w) → clear Z (src ++ comps p) → snap_ready snap p →
  src ++ comps p ≠ snapshot_blob_path snap p →
  src ++ comps p ≠ snapshot_missing_path snap p →
  snapshot_file src snap p w = (Ok u, w') →
  becomes (w_fs w')
    (snapped snap p (file_of (w_fs w) (src ++ comps p)) (file_of (w_fs w))).
Proof.
  intros Hok Hs Hr Hne1 Hne2 Hw. unfold snapshot_file in Hw.
  exec Hw as q1 w1 (-> & -> & _)%checked_join_ok.
  exec Hw as u2 w2 Hpar.
  apply (create_parent_ok Z I) in Hpar as [Hok2 Ha2]; [|done|apply Hr|apply Hr].
  exec Hw as b w3 [-> ->]%is_file_ok.
  rewrite (is_file_clear Z) in Hw by (done || by apply (st_fs Z I)).
  rewrite Ha2 in Hw. case_bool_decide as Hf.
  - exec Hw as e w4 [-> ->]%exists_ok. exec Hw as u5 w5 Hrm.
    apply (remove_if_ok Z I) in Hrm as [Hok5 Ha5]; [|done|apply Hr].
    apply (copy_ok Z I) in Hw as [Hok6 Ha6]; [|done|done|apply Hr|done|apply Hr].
    split; [done|]. intros q. rewrite Ha6, Ha5, (fput_ne _ (src ++ comps p)), Ha2 by done.
    destruct Hf as [s Hs']. rewrite Hs'. unfold snapped, fput. rewrite Ha5.
    unfold fput. by rewrite !Ha2.
  - exec Hw as e w4 [-> ->]%exists_ok. exec Hw as u5 w5 Hrm.
    apply (remove_if_ok Z I) in Hrm as [Hok5 Ha5]; [|done|apply Hr].
    apply (write_ok Z I) in Hw as [Hok6 Ha6]; [|done|apply Hr|apply Hr].
    split; [done|]. intros q. rewrite Ha6.
    destruct (file_of (w_fs w) (src ++ comps p)); [by destruct Hf|].
    unfold snapped, fput. rewrite Ha5. unfold fput. by rewrite !Ha2.
Qed.

(** What a snapshot holds: the marker wins over the blob. *)
Definition snap_value (snap : path) (p : string) (a : path → option string)
  : option string :=
  match a (snapshot_missing_path snap p) with
  | Some _ => None
  | None => a (snapshot_blob_path snap p)
  end.

(** At a clear path where no directory may be, existence is being a file. *)
Lemma exists_is_file fs p :
  ok fs → clear Z p → p ≠ [] → ¬ I p Dir →
  fs_exists fs p = bool_decide (is_Some (file_of fs p)).
Proof.
  intros Hok Hcl Hp HI. pose proof (st_fs Z I fs Hok) as Hfs.
  destruct (fs !! p) as [n|] eqn:Hn.
  - rewrite (exists_file_clear Z) by eauto. symmetry. apply bool_decide_eq_true_2.
    unfold file_of. rewrite Hn. destruct n as [s| |t]; [eauto|..].
    + by apply (st_nodes Z I fs Hok) in Hn.
    + apply (ok_links Z fs Hfs) in Hn. by destruct (clear_links Z p Hcl p).
  - destruct (fs_exists fs p) eqn:He.
    + apply (exists_true_clear Z) in He as [?|[? ?]]; [done|congruence|done..].
    + symmetry. apply bool_decide_eq_false_2. unfold file_of. rewrite Hn.
      by intros [? ?].
Qed.

Lemma restore_snapshot_ok snap dst p w u w' :
  ok (w_fs w) → clear Z (dst ++ comps p) → snap_ready snap p →
  snapshot_blob_path snap p ≠ dst ++ comps p → parents_to I (dst ++ comps p) →
  (∀ s, I (dst ++ comps p) (File s)) →
  restore_snapshot snap dst p w = (Ok u, w') →
  becomes (w_fs w')
    (fput (dst ++ comps p) (snap_value snap p (file_of (w_fs w))) (file_of (w_fs w))).
Proof.
  intros Hok Hd Hr Hne Hp HI Hw. unfold restore_snapshot in Hw.
  exec Hw as q1 w1 (-> & -> & _)%checked_join_ok.
  exec Hw as m w2 [-> ->]%exists_ok.
  assert (Hb0 : snapshot_blob_path snap p ≠ []).
  { rewrite snapshot_blob_path_eq. by destruct snap. }
  assert (Hm0 : snapshot_missing_path snap p ≠ []).
  { rewrite snapshot_missing_path_eq. by destruct snap. }
  rewrite exists_is_file in Hw by (done || apply Hr). unfold snap_value.
  destruct (file_of (w_fs w) (snapshot_missing_path snap p)) as [s|] eqn:Hm;
    simpl in Hw.
  - exec Hw as e w3 [-> ->]%exists_ok. by apply (remove_if_ok Z I) in Hw.
  - exec Hw as s w3 [-> ->]%exists_ok.
    rewrite exists_is_file in Hw by (done || apply Hr).
    destruct (file_of (w_fs w) (snapshot_blob_path snap p)) as [c|] eqn:Hb; simpl in Hw.
    + exec Hw as u4 w4 Hpar.
      apply (create_parent_ok Z I) in Hpar as [Hok4 Ha4]; [|done..].
      apply (copy_ok Z I) in Hw as [Hok5 Ha5]; [|done|apply Hr|done..].
      split; [done|]. intros q. rewrite Ha5. unfold fput. by rewrite !Ha4, Hb.
    + exec Hw as e w4 [-> ->]%exists_ok. by apply (remove_if_ok Z I) in Hw.
Qed.

Lemma snap_value_snapped snap p v a : snap_value snap p (snapped snap p v a) = v.
Proof.
  unfold snap_value, snapped. destruct v as [s|].
  - rewrite (fput_ne (snapshot_blob_path snap p)), !fput_eq; [done|].
    intros Heq. by apply (blob_path_ne_missing snap p p).
  - by rewrite fput_eq.
Qed.

(** A snapshot of another path, whose name is encoded differently, is kept. *)
Lemma snap_value_other snap p p' v a :
  encode_path p ≠ encode_path p' →
  snap_value snap p' (snapped snap p v a) = snap_value snap p' a.
Proof.
  intros Hne. unfold snap_value, snapped.
  assert (snapshot_missing_path snap p' ≠ snapshot_missing_path snap p)
    by (intros ?%missing_paths_inj; done).
  assert (snapshot_blob_path snap p' ≠ snapshot_blob_path snap p)
    by (intros ?%blob_paths_inj; done).
  pose proof (blob_path_ne_missing snap).
  destruct v; rewrite !fput_ne by (done || (intros Heq; by symmetry in Heq; firstorder));
    try done.
Qed.
End fsx_exec.

(** ** Frames *)

Section fsx_frames.
Context `{Sys} (Z : path → Prop) (I : path → node → Prop) (K : path → Prop).
Local Abbreviation keeps := (keeps_files Z I K).

(** A path whose file may be written, outside the kept set. *)
Record writable (q : path) : Prop := {
  wr_clear : clear Z q;
  wr_dirs : parents_to I q;
  wr_file : ∀ s, I q (File s);
  wr_out : ¬ K q
}.

Lemma stable_checked_join_bind {Rel : fsys → fsys → Prop} `{!PreOrder Rel} {A}
    root p (f : path → R A) :
  (no_dotdot (comps p) → stable Rel (f (root ++ comps p))) →
  stable Rel (checked_join root p ≫= f).
Proof.
  intros Hf. apply (stable_bind_post (λ q, no_dotdot (comps p) ∧ q = root ++ comps p)).
  - apply stable_ok_or.
  - intros w q w' (_ & -> & ?)%checked_join_ok. done.
  - intros q [? ->]. auto.
Qed.

Lemma stable_remove_if q (b : bool) :
  clear Z q → ¬ K q →
  stable keeps (if b then remove_file q else mret tt : R unit).
Proof. intros. destruct b; [by apply stable_remove|apply stable_ret]. Qed.

Lemma stable_put_copy src dst :
  clear Z src → writable dst →
  stable keeps (_ ← create_parent dst; copy src dst : R unit).
Proof.
  intros Hs [Hc Hd Hf Ho]. apply stable_bind; [by apply stable_create_parent|].
  intros _. by apply stable_copy.
Qed.

Lemma stable_copy_file_or_remove src dst p :
  clear Z (src ++ comps p) → writable (dst ++ comps p) →
  stable keeps (copy_file_or_remove src dst p).
Proof.
  intros Hs Hw. unfold copy_file_or_remove.
  apply stable_checked_join_bind. intros _. apply stable_checked_join_bind. intros _.
  apply stable_bind; [apply stable_is_file|]. intros [].
  - by apply stable_put_copy.
  - apply stable_bind; [apply stable_exists|]. intros b.
    apply stable_remove_if; apply Hw.
Qed.

Lemma stable_snapshot_file src snap p :
  (no_dotdot (comps p) → clear Z (src ++ comps p)) → writable (snapshot_blob_path snap p) →
  writable (snapshot_missing_path snap p) →
  stable keeps (snapshot_file src snap p).
Proof.
  intros Hs Hb Hm. unfold snapshot_file.
  apply stable_checked_join_bind. intros Hdots. specialize (Hs Hdots).
  apply stable_bind; [apply stable_create_parent; apply Hb|]. intros _.
  apply stable_bind; [apply stable_is_file|]. intros [];
    (apply stable_bind; [apply stable_exists|]); intros e;
    (apply stable_bind; [apply stable_remove_if; [apply Hm || apply Hb..]|]); intros _.
  - apply stable_copy; [done|apply Hb..].
  - apply stable_write; [apply Hm..].
Qed.

Lemma stable_restore_snapshot snap dst p :
  clear Z (snapshot_blob_path snap p) → writable (dst ++ comps p) →
  stable keeps (restore_snapshot snap dst p).
Proof.
  intros Hb Hw. unfold restore_snapshot. apply stable_checked_join_bind. intros _.
  apply stable_bind; [apply stable_exists|]. intros [].
  - apply stable_bind; [apply stable_exists|]. intros b.
    apply stable_remove_if; apply Hw.
  - apply stable_bind; [apply stable_exists|]. intros [].
    + by apply stable_put_copy.
    + apply stable_bind; [apply stable_exists|]. intros b.
      apply stable_remove_if; apply Hw.
Qed.

Lemma stable_file_hash {Rel : fsys → fsys → Prop} `{!PreOrder Rel} p :
  stable Rel (file_hash p).
Proof.
  unfold file_hash. apply stable_bind; [apply stable_get_fs|]. intros fs.
  destruct (lstat fs p) as [[]|[]]; eauto with frame.
  apply stable_bind; eauto with frame.
Qed.
End fsx_frames.

#[export] Hint Resolve stable_file_hash : frame.
