(* ===== verification/Layout.v ===== *)
(** * Where the engine keeps its data, and the specification of a merge *)

From S2P Require Import Prelude RustStr FsModel World Models FsFacts Frame Fsx.
From S2P Require Import Activity Diff Changes Engine Exec Memory.
From S2P Require Import FsxProps.

(** * Where the engine keeps the data of a task

    The paths of [engine.rs] below [<state>/projects/<project>], the
    invariant [task_inv] on the entries of the store, and the frames of the
    bookkeeping operations: the timeline, the task record, the manifest and
    the locks. *)

(** ** Paths *)

Section paths.
Context (self : CodexNewCore) (pid tid : string).
Context (Hpid : plain_name pid = true) (Htid : plain_name tid = true).
Local Abbreviation B := (state_root self).

Lemma project_root_eq : project_root self pid = B ++ ["projects"; pid].
Proof.
  unfold project_root. rewrite (join_plain _ pid) by done.
  rewrite (join_plain _ "projects") by done. by rewrite <- (assoc (++)).
Qed.

Definition task_path (l : path) : path := B ++ ["projects"; pid; "tasks"; tid] ++ l.

Lemma task_root_eq : task_root self pid tid = task_path [].
Proof.
  unfold task_root. rewrite project_root_eq, (join_plain _ tid) by done.
  rewrite (join_plain _ "tasks") by done. unfold task_path. by rewrite <- !(assoc (++)).
Qed.

Lemma task_path_join l s : plain_name s = true → join (task_path l) s = task_path (l ++ [s]).
Proof. intros. rewrite join_plain by done. unfold task_path. by rewrite <- !(assoc (++)). Qed.

Lemma task_path_app l k : task_path l ++ k = task_path (l ++ k).
Proof. unfold task_path. by rewrite <- !(assoc (++)). Qed.

Lemma timeline_path_eq : timeline_file (task_root self pid tid) = task_path ["timeline.jsonl"].
Proof. unfold timeline_file. by rewrite task_root_eq, task_path_join. Qed.

Lemma manifest_path_eq : manifest_file self pid tid = task_path ["manifest.json"].
Proof. unfold manifest_file. by rewrite task_root_eq, task_path_join. Qed.

Lemma record_path_eq :
  task_record_path (project_root self pid) tid = task_path ["task.json"].
Proof.
  unfold task_record_path. fold (task_root self pid tid).
  by rewrite task_root_eq, task_path_join.
Qed.

Definition lock_path (name : string) : path := B ++ ["projects"; pid; "locks"; name].

Lemma locks_root_eq :
  join (project_root self pid) "locks" = B ++ ["projects"; pid; "locks"].
Proof. rewrite project_root_eq, join_plain by done. by rewrite <- (assoc (++)). Qed.

Lemma lock_name_plain s : "/"%char ∉ bytes s → plain_name (s +:+ ".lock") = true.
Proof. intros. apply plain_long; [done|simpl; set_solver|simpl; lia]. Qed.

Lemma merge_lock_path_eq :
  merge_lock_path (project_root self pid) tid = lock_path ("merge-" +:+ tid +:+ ".lock").
Proof.
  unfold merge_lock_path. rewrite locks_root_eq, str_app_assoc, join_plain.
  - by rewrite <- (assoc (++)).
  - apply lock_name_plain. rewrite bytes_app.
    apply plain_name_inv in Htid as (_ & _ & _ & ?). simpl. set_solver.
Qed.

Lemma path_lock_path_eq p :
  path_lock_path (project_root self pid) p
  = lock_path ("path-" +:+ encode_path p +:+ ".lock").
Proof.
  unfold path_lock_path. rewrite locks_root_eq, str_app_assoc, join_plain.
  - by rewrite <- (assoc (++)).
  - apply lock_name_plain. rewrite bytes_app.
    pose proof (encode_path_slash_free p). simpl. set_solver.
Qed.
End paths.

(** Inequality of paths of the state directory. *)
Ltac path_ne :=
  let H := fresh in
  intros H; unfold task_path, lock_path in H; simpl in H; apply (inj (app _)) in H;
  simplify_eq.

(** ** The invariant of a task's entries *)

(** Names of snapshots, relative to the directory of the task:
    [snapshots/<set>/<name>] and [snapshots/traceback/<set>/<name>]. *)
Definition snap_name (l : path) : bool :=
  match l with
  | [s; d; _] => String.eqb s "snapshots" && negb (String.eqb d "traceback")
  | [s; t; _; _] => String.eqb s "snapshots" && String.eqb t "traceback"
  | _ => false
  end.

(** No prefix, or no proper prefix, is the name of a snapshot. *)
Definition dirs_free (l : path) : bool :=
  forallb (λ n, negb (snap_name (take n l))) (seq 0 (S (length l))).
Definition parents_free (l : path) : bool :=
  forallb (λ n, negb (snap_name (take n l))) (seq 0 (length l)).

Section task.
Context `{Sys} `{Codecs} `{!SerdeOk TaskRecord}.
Context (self : CodexNewCore) (pid tid : string) (Z : path → Prop).
Local Abbreviation B := (state_root self).
Local Abbreviation tp := (task_path self pid tid).

(** The record of the task has its id, and no directory occupies the name of
    a snapshot. *)
Record task_inv (q : path) (n : node) : Prop := {
  inv_record : ∀ s t, q = tp ["task.json"] → n = File s → from_slice s = Some t →
               task_id t = tid;
  inv_snap : ∀ l, n = Dir → q = tp l → snap_name l = false
}.

(** The state directory of the project: no links below it, plain names. *)
Record task_area : Prop := {
  ta_pid : plain_name pid = true;
  ta_tid : plain_name tid = true;
  ta_clear : ∀ k, no_dotdot k → clear Z (B ++ ["projects"; pid] ++ k)
}.

Context (Ha : task_area).

Lemma task_clear l : no_dotdot l → clear Z (tp l).
Proof.
  intros Hl. apply (ta_clear Ha (["tasks"; tid] ++ l)).
  apply Forall_app. split; [|done]. constructor; [done|].
  constructor; [apply plain_not_dotdot, Ha|constructor].
Qed.

Lemma lock_clear name : name ≠ ".." → clear Z (lock_path self pid name).
Proof. intros Hn. apply (ta_clear Ha ["locks"; name]). by repeat constructor. Qed.

(** Directories on the way to a path of the task. *)
Lemma tp_prefix l q k : tp l = q ++ k → ∀ l', q = tp l' → l = l' ++ k.
Proof.
  intros Hq l' ->. unfold task_path in Hq. rewrite <- !(assoc (++)) in Hq.
  apply (inj (app _)) in Hq. simpl in Hq. by injection Hq.
Qed.

Lemma task_dirs_to l : dirs_free l = true → dirs_to task_inv (tp l).
Proof.
  intros Hl q [k Hq]. split; [done|]. intros l' _ Hl'.
  apply (tp_prefix l q k Hq) in Hl'. subst l. unfold dirs_free in Hl.
  rewrite forallb_forall in Hl. specialize (Hl (length l')).
  rewrite take_app_length in Hl. apply negb_true_iff, Hl, in_seq.
  rewrite length_app. lia.
Qed.

Lemma task_parents_to l : parents_free l = true → parents_to task_inv (tp l).
Proof.
  intros Hl q [k Hq] Hne. split; [done|]. intros l' _ Hl'. subst q.
  pose proof (tp_prefix l _ k Hq l' eq_refl) as ->. unfold parents_free in Hl.
  rewrite forallb_forall in Hl. specialize (Hl (length l')).
  rewrite take_app_length in Hl. apply negb_true_iff, Hl, in_seq.
  destruct k as [|x k]; [by rewrite app_nil_r in Hne|].
  rewrite length_app. simpl. lia.
Qed.

Lemma lock_parents_to name : parents_to task_inv (lock_path self pid name).
Proof.
  intros q [k Hq] Hne. split; [done|]. intros l _ ->.
  unfold task_path, lock_path in Hq. rewrite <- !(assoc (++)) in Hq.
  apply (inj (app _)) in Hq. simplify_eq.
Qed.

Lemma locks_dirs_to : dirs_to task_inv (B ++ ["projects"; pid; "locks"]).
Proof.
  intros q [k Hq]. split; [done|]. intros l _ ->.
  unfold task_path in Hq. rewrite <- !(assoc (++)) in Hq.
  apply (inj (app _)) in Hq. simplify_eq.
Qed.

(** Any content may be written outside the task record. *)
Lemma task_file_inv q s : q ≠ tp ["task.json"] → task_inv q (File s).
Proof. intros Hq. by split. Qed.

Lemma task_path_under l : under (B ++ ["projects"]) (tp l).
Proof.
  exists (pid :: "tasks" :: tid :: l). unfold task_path. by rewrite <- (assoc (++)).
Qed.

Lemma outside_inv q n : ¬ under (B ++ ["projects"]) q → task_inv q n.
Proof.
  intros Hq. split.
  - intros s t -> _ _. destruct Hq. apply task_path_under.
  - intros l _ ->. destruct Hq. apply task_path_under.
Qed.

Lemma outside_dirs_to q : ¬ under (B ++ ["projects"]) q → dirs_to task_inv q.
Proof.
  intros Hq q' Hpre. apply outside_inv. intros Hu. apply Hq.
  unfold under in *. by etrans.
Qed.

Lemma outside_parents_to q : ¬ under (B ++ ["projects"]) q → parents_to task_inv q.
Proof. intros Hq q' Hpre _. by apply (outside_dirs_to q Hq). Qed.

(** ** Frames of the bookkeeping *)

Section frames.
Context (K : path → Prop).
Local Abbreviation keeps := (keeps_files Z task_inv K).

Lemma task_writable l :
  no_dotdot l → parents_free l = true → l ≠ ["task.json"] → ¬ K (tp l) →
  writable Z task_inv K (tp l).
Proof.
  intros Hd Hlen Hne HK. split; [by apply task_clear|by apply task_parents_to| |done].
  intros s. apply task_file_inv. intros Heq. apply Hne.
  by apply (inj (app _)) in Heq; simplify_eq.
Qed.

Lemma frame_timeline kind payload :
  ¬ K (tp ["timeline.jsonl"]) →
  stable keeps (append_timeline self pid tid kind payload).
Proof.
  intros HK. unfold append_timeline, append_timeline_event.
  rewrite (timeline_path_eq self pid tid (ta_pid Ha) (ta_tid Ha)).
  rewrite (task_root_eq self pid tid (ta_pid Ha) (ta_tid Ha)).
  apply stable_bind.
  { apply stable_mkdir; [apply task_clear; by constructor|]. by apply task_dirs_to. }
  intros _. apply stable_bind; [apply stable_attempt; eauto with frame|]. intros r.
  apply stable_bind; [eauto with frame|]. intros id.
  apply stable_bind; [eauto with frame|]. intros t.
  apply stable_bind; [|eauto with frame]. apply stable_append; [|done|].
  - apply task_clear. by repeat constructor.
  - intros s. apply task_file_inv. path_ne.
Qed.

Lemma frame_write_manifest m :
  ¬ K (tp ["manifest.json"]) →
  stable keeps (write_manifest m (manifest_file self pid tid)).
Proof.
  intros HK. unfold write_manifest.
  rewrite (manifest_path_eq self pid tid (ta_pid Ha) (ta_tid Ha)).
  assert (Hw : writable Z task_inv K (tp ["manifest.json"])).
  { apply task_writable; [by repeat constructor|done|done|done]. }
  apply stable_bind; [apply stable_create_parent; apply Hw|]. intros _.
  apply stable_write; apply Hw.
Qed.

Lemma read_task_record_id w r w' :
  store_ok Z task_inv (w_fs w) →
  read_task_record (project_root self pid) tid w = (Ok r, w') →
  match r with Some t => task_id t = tid | None => True end.
Proof.
  intros Hok Hr. unfold read_task_record in Hr.
  rewrite (record_path_eq self pid tid (ta_pid Ha) (ta_tid Ha)) in Hr.
  exec Hr as e w1 [-> ->]%exists_ok.
  destruct (negb _); [by apply ret_ok in Hr as [-> _]|].
  exec Hr as s w2 Hs.
  apply (read_ok_clear Z) in Hs as [-> Hs];
    [|by apply (st_fs Z task_inv)|apply task_clear; by repeat constructor].
  apply fmap_ok in Hr as (t & [Ht _]%ok_or_ok & ->).
  unfold file_of in Hs. destruct (w_fs w !! tp ["task.json"]) as [n|] eqn:Hn; [|done].
  destruct n as [s'| |]; simplify_eq.
  apply (st_nodes Z task_inv _ Hok) in Hn as [Hrec _]. by eapply Hrec.
Qed.

Lemma stable_read_task_record {Rel : fsys → fsys → Prop} `{!PreOrder Rel} root x :
  stable Rel (read_task_record root x).
Proof.
  unfold read_task_record. apply stable_bind; [eauto with frame|].
  intros []; simpl; [|eauto with frame].
  apply stable_bind; [eauto with frame|]. intros. apply stable_fmap, stable_ok_or.
Qed.

(** The record that is written has the id of the one that was read. *)
Lemma frame_task_record t :
  task_id t = tid → ¬ K (tp ["task.json"]) →
  stable keeps (write_task_record (project_root self pid) t).
Proof.
  intros Ht HK. unfold write_task_record. rewrite Ht.
  rewrite (record_path_eq self pid tid (ta_pid Ha) (ta_tid Ha)).
  assert (clear Z (tp ["task.json"])) by (apply task_clear; by repeat constructor).
  apply stable_bind.
  - apply stable_create_parent; [done|]. by apply task_parents_to.
  - intros _. apply stable_write; [done..|]. split; [|done].
    intros s t' _ [= <-]. rewrite from_slice_to_vec. by intros [= <-].
Qed.

Lemma frame_task_status s :
  ¬ K (tp ["task.json"]) → stable keeps (write_task_status self pid tid s).
Proof.
  intros HK. unfold write_task_status.
  apply (keeps_bind_post Z task_inv K
           (λ r, match r with Some t => task_id t = tid | None => True end)).
  - apply stable_read_task_record.
  - intros w r w' Hok. by apply read_task_record_id.
  - intros [t|] Ht; [|eauto with frame].
    apply stable_bind; [eauto with frame|]. intros updated.
    apply stable_bind.
    { destruct (is_terminal s); [apply stable_fmap|]; eauto with frame. }
    intros completed. by apply frame_task_record.
Qed.

(** Locks live outside the kept set. *)
Lemma frame_acquire name held content :
  name ≠ ".." → ¬ K (lock_path self pid name) →
  stable keeps (acquire_lock (lock_path self pid name)
                  (B ++ ["projects"; pid; "locks"]) held content).
Proof.
  intros Hn HK. unfold acquire_lock. apply stable_bind.
  - apply stable_mkdir; [|apply locks_dirs_to].
    apply (ta_clear Ha ["locks"]). by repeat constructor.
  - intros _. apply stable_bind; [eauto with frame|]. intros []; [eauto with frame|].
    apply stable_write; [by apply lock_clear|done|].
    apply task_file_inv. path_ne.
Qed.
End frames.
End task.

(** * The abstract specification of a merge

    On the abstract store a merge of whole files is a fold of [merge_put]:
    each accepted file of the project takes the content of the workspace's
    file (or disappears with it), and the two snapshot directories record the
    content before and after. *)

Definition store := path → option string.

Section spec.
Context (O W before after : path).

Definition merge_put (a : store) (c : ChangedFile) : store :=
  let p := cf_path c in
  let v := a (W ++ comps p) in
  snapped after p v (fput (O ++ comps p) v (snapped before p (a (O ++ comps p)) a)).

Definition merge_all (a : store) (l : list ChangedFile) : store := foldl merge_put a l.

Lemma merge_all_cons a c l : merge_all a (c :: l) = merge_all (merge_put a c) l.
Proof. done. Qed.

(** The paths a merge is about: the project, the workspace, the snapshots. *)
Definition in_scope (q : path) : Prop :=
  under O q ∨ under W q ∨ under before q ∨ under after q.

Definition agree (a b : store) : Prop := ∀ q, in_scope q → a q = b q.

Context (HOW : apart O W) (HOB : apart O before) (HOA : apart O after)
  (HWB : apart W before) (HWA : apart W after) (HBA : apart before after).

Lemma snapped_outside snap p v (a : store) q :
  ¬ under snap q → snapped snap p v a q = a q.
Proof.
  intros Hq. unfold snapped.
  assert (q ≠ snapshot_blob_path snap p).
  { intros ->. apply Hq. rewrite snapshot_blob_path_eq. apply under_app. }
  assert (q ≠ snapshot_missing_path snap p).
  { intros ->. apply Hq. rewrite snapshot_missing_path_eq. apply under_app. }
  destruct v; by rewrite !fput_ne.
Qed.

Lemma snapped_agree snap p v (a b : store) q :
  a q = b q → snapped snap p v a q = snapped snap p v b q.
Proof. intros Hq. unfold snapped, fput. destruct v; by repeat case_decide. Qed.

Lemma under_not r r' q : apart r r' → under r q → ¬ under r' q.
Proof. intros Ha Hr Hr'. by eapply apart_under. Qed.

Lemma merge_put_agree a b c : agree a b → agree (merge_put a c) (merge_put b c).
Proof.
  intros Hab q Hq. unfold merge_put.
  rewrite (Hab (W ++ comps (cf_path c))), (Hab (O ++ comps (cf_path c)))
    by (unfold in_scope; eauto using under_app).
  apply snapped_agree. unfold fput. case_decide; [done|]. apply snapped_agree. auto.
Qed.

Lemma merge_all_agree l a b : agree a b → agree (merge_all a l) (merge_all b l).
Proof.
  revert a b. induction l as [|c l IH]; intros a b Hab; [done|].
  apply IH. by apply merge_put_agree.
Qed.

(** The workspace is only read. *)
Lemma merge_put_workspace a c q : under W q → merge_put a c q = a q.
Proof.
  intros Hq. unfold merge_put.
  rewrite snapped_outside by (by eapply under_not; [apply HWA|]).
  rewrite fput_ne; [rewrite snapped_outside; [done|by eapply under_not; [apply HWB|]]|].
  intros ->. eapply apart_under; [apply HOW| |done]. apply under_app.
Qed.

Lemma merge_all_workspace l a q : under W q → merge_all a l q = a q.
Proof.
  intros Hq. revert a. induction l as [|c l IH]; intros a; [done|].
  by rewrite merge_all_cons, IH, merge_put_workspace.
Qed.

(** In the project only the file of the change is written. *)
Lemma merge_put_project a c q :
  under O q →
  merge_put a c q = if decide (q = O ++ comps (cf_path c))
                    then a (W ++ comps (cf_path c)) else a q.
Proof.
  intros Hq. unfold merge_put.
  rewrite snapped_outside by (by eapply under_not; [apply HOA|]).
  unfold fput. case_decide; [done|].
  rewrite snapped_outside; [done|]. by eapply under_not; [apply HOB|].
Qed.

Lemma merge_all_other l a q :
  under O q → (∀ c, c ∈ l → q ≠ O ++ comps (cf_path c)) → merge_all a l q = a q.
Proof.
  intros Hq. revert a. induction l as [|c l IH]; intros a Hl; [done|].
  rewrite merge_all_cons, IH by (intros; apply Hl; by right).
  rewrite merge_put_project by done. rewrite decide_False; [done|]. apply Hl. left.
Qed.

Lemma merge_all_target l a c :
  c ∈ l → merge_all a l (O ++ comps (cf_path c)) = a (W ++ comps (cf_path c)).
Proof.
  revert a c. induction l as [|d l IH]; intros a c Hc; [by apply not_elem_of_nil in Hc|].
  rewrite merge_all_cons.
  destruct (decide (Exists (λ e, comps (cf_path e) = comps (cf_path c)) l)) as [He|Hn].
  - apply Exists_exists in He as (e & He & Heq).
    rewrite <- Heq. rewrite (IH _ e) by done.
    by rewrite merge_put_workspace by apply under_app.
  - assert (Hd : c = d).
    { apply elem_of_cons in Hc as [?|Hc]; [done|]. destruct Hn.
      apply Exists_exists. eauto. }
    subst d. rewrite merge_all_other.
    + rewrite merge_put_project by apply under_app. by rewrite decide_True.
    + apply under_app.
    + intros e He Heq%(inj (app O)). apply Hn, Exists_exists. eauto.
Qed.

(** The snapshot taken before the merge holds what the project held. *)
Lemma snap_value_agree snap p (a b : store) :
  (∀ q, under snap q → a q = b q) → snap_value snap p a = snap_value snap p b.
Proof.
  intros Hab. unfold snap_value.
  rewrite !Hab by (rewrite ?snapshot_blob_path_eq, ?snapshot_missing_path_eq;
                   apply under_app). done.
Qed.

Lemma merge_put_before a c q :
  under before q →
  merge_put a c q = snapped before (cf_path c) (a (O ++ comps (cf_path c))) a q.
Proof.
  intros Hq. unfold merge_put.
  rewrite snapped_outside by (by eapply under_not; [apply HBA|]).
  rewrite fput_ne; [done|]. intros ->.
  eapply apart_under; [apply HOB|apply under_app|done].
Qed.

Lemma merge_all_before_other l a p :
  (∀ c, c ∈ l → encode_path (cf_path c) ≠ encode_path p) →
  snap_value before p (merge_all a l) = snap_value before p a.
Proof.
  revert a. induction l as [|c l IH]; intros a Hl; [done|].
  rewrite merge_all_cons, IH by (intros; apply Hl; by right).
  rewrite (snap_value_agree before p _ _ (merge_put_before a c)).
  apply snap_value_other. apply Hl. left.
Qed.

Lemma merge_all_before l a c :
  NoDup (map (comps ∘ cf_path) l) → NoDup (map (encode_path ∘ cf_path) l) → c ∈ l →
  snap_value before (cf_path c) (merge_all a l) = a (O ++ comps (cf_path c)).
Proof.
  revert a. induction l as [|d l IH]; intros a Hn He Hc; [by apply not_elem_of_nil in Hc|].
  simpl in Hn, He. apply NoDup_cons in Hn as [Hnd Hn], He as [Hed He].
  apply elem_of_cons in Hc as [->|Hc].
  - rewrite merge_all_cons, merge_all_before_other.
    + rewrite (snap_value_agree before _ _ _ (merge_put_before a d)).
      apply snap_value_snapped.
    + intros c Hc Heq. apply Hed. simpl. rewrite <- Heq.
      by apply (list_elem_of_fmap_2 (encode_path ∘ cf_path)).
  - rewrite merge_all_cons, IH by done.
    rewrite merge_put_project by apply under_app. rewrite decide_False; [done|].
    intros Heq%(inj (app O)). apply Hnd. simpl. rewrite <- Heq.
    by apply (list_elem_of_fmap_2 (comps ∘ cf_path)).
Qed.
End spec.
