(* ===== verification/MergeFacts.v ===== *)
(** * Merge and rollback implement their specifications *)

From S2P Require Import Prelude RustStr FsModel World Models FsFacts Frame Fsx.
From S2P Require Import Activity Diff Changes Engine Exec FsxProps Layout.

(** * The merge of engine.rs implements its specification

    Simulation lemmas: the loop of [merge], run on the modelled file system,
    is [merge_all] on the abstract store. *)

Section merge.
Context `{Sys} `{Codecs} `{!SerdeOk TaskRecord}.
Context (self : CodexNewCore) (Z : path → Prop) (m : TaskManifest).
Local Abbreviation pid := (m_project_id m).
Local Abbreviation tid := (m_task_id m).
Local Abbreviation O := (original_root m).
Local Abbreviation W := (workspace_root m).
Local Abbreviation tp := (task_path self pid tid).
Local Abbreviation before := (tp ["snapshots"; "before"]).
Local Abbreviation after := (tp ["snapshots"; "after-merge"]).
Local Abbreviation inv := (task_inv self pid tid).
Local Abbreviation ok := (store_ok Z inv).
Local Abbreviation scope := (in_scope O W before after).

(** The project, the workspace and the state directory are apart, and the
    changed files are reached without links. *)
Record merge_layout : Prop := {
  ml_area : task_area self pid tid Z;
  ml_orig : apart O (state_root self ++ ["projects"]);
  ml_ws : apart W (state_root self ++ ["projects"]);
  ml_ow : apart O W;
  ml_clear_o : ∀ c, c ∈ changed_files m → clear Z (O ++ comps (cf_path c));
  ml_clear_w : ∀ c, c ∈ changed_files m → clear Z (W ++ comps (cf_path c))
}.

Context (Hl : merge_layout).

Lemma apart_state r l : apart r (state_root self ++ ["projects"]) → apart r (tp l).
Proof.
  intros [H1 H2]. pose proof (task_path_under self pid tid l) as Hu. split.
  - intros Hr. destruct (prefix_weak_total _ _ _ Hr Hu); auto.
  - intros Hr. apply H2. unfold under in Hu. by etrans.
Qed.

Lemma before_after : apart before after.
Proof.
  split; intros [k Hk]; unfold task_path in Hk; rewrite <- !(assoc (++)) in Hk;
    apply (inj (app _)) in Hk; simplify_eq.
Qed.

(** Bookkeeping paths are out of scope. *)
Lemma out_of_scope l :
  ¬ under ["snapshots"; "before"] l → ¬ under ["snapshots"; "after-merge"] l →
  ¬ scope (tp l).
Proof.
  intros H1 H2 [Hq|[Hq|[Hq|Hq]]].
  - eapply apart_under; [apply (ml_orig Hl)|exact Hq|apply task_path_under].
  - eapply apart_under; [apply (ml_ws Hl)|exact Hq|apply task_path_under].
  - apply H1. destruct Hq as [k Hk]. exists k. unfold task_path in Hk.
    rewrite <- !(assoc (++)) in Hk. apply (inj (app _)) in Hk. by simplify_eq.
  - apply H2. destruct Hq as [k Hk]. exists k. unfold task_path in Hk.
    rewrite <- !(assoc (++)) in Hk. apply (inj (app _)) in Hk. by simplify_eq.
Qed.

Lemma lock_out_of_scope name : ¬ scope (lock_path self pid name).
Proof.
  assert (Hu : under (state_root self ++ ["projects"]) (lock_path self pid name)).
  { exists [pid; "locks"; name]. unfold lock_path. by rewrite <- (assoc (++)). }
  intros [Hq|[Hq|[[k Hk]|[k Hk]]]].
  - eapply apart_under; [apply (ml_orig Hl)|exact Hq|exact Hu].
  - eapply apart_under; [apply (ml_ws Hl)|exact Hq|exact Hu].
  - unfold task_path, lock_path in Hk. rewrite <- !(assoc (++)) in Hk.
    apply (inj (app _)) in Hk. simplify_eq.
  - unfold task_path, lock_path in Hk. rewrite <- !(assoc (++)) in Hk.
    apply (inj (app _)) in Hk. simplify_eq.
Qed.

Lemma not_state r k : apart r (state_root self ++ ["projects"]) →
  ¬ under (state_root self ++ ["projects"]) (r ++ k).
Proof. intros Ha Hu. eapply apart_under; [exact Ha|apply under_app|exact Hu]. Qed.

(** Snapshots of a task can always be written. *)
Lemma snaps_ready ds p :
  no_dotdot ds → (∀ x, parents_free (ds ++ [x]) = true) →
  (∀ x, snap_name (ds ++ [x]) = true) → snap_ready Z inv (tp ds) p.
Proof.
  intros Hd Hpar Hname. pose proof (ml_area Hl) as Ha.
  pose proof (plain_not_dotdot _ (blob_name_plain p)).
  pose proof (plain_not_dotdot _ (missing_name_plain p)).
  assert (Hne : ∀ x, ds ++ [x] ≠ ["task.json"]).
  { intros x Heq. specialize (Hname x). by rewrite Heq in Hname. }
  assert (Hinv : ∀ x s, inv (tp (ds ++ [x])) (File s)).
  { intros x s. apply task_file_inv. intros Heq%(inj (app _)). simplify_eq.
    by destruct (Hne x). }
  assert (Hdots : ∀ x, x ≠ ".." → no_dotdot (ds ++ [x])).
  { intros x Hx. apply Forall_app. split; [done|]. by repeat constructor. }
  split; rewrite ?snapshot_blob_path_eq, ?snapshot_missing_path_eq, ?task_path_app.
  - apply task_clear; auto.
  - apply task_clear; auto.
  - by apply task_parents_to.
  - auto.
  - auto.
  - intros [_ Hn]. by specialize (Hn _ eq_refl eq_refl); rewrite Hname in Hn.
  - intros [_ Hn]. by specialize (Hn _ eq_refl eq_refl); rewrite Hname in Hn.
Qed.

Lemma blob_ne r k d p : apart r (state_root self ++ ["projects"]) →
  r ++ k ≠ snapshot_blob_path (tp d) p.
Proof.
  intros Ha Heq. apply (not_state r k Ha). rewrite Heq, snapshot_blob_path_eq.
  rewrite task_path_app. apply task_path_under.
Qed.
Lemma missing_ne r k d p : apart r (state_root self ++ ["projects"]) →
  r ++ k ≠ snapshot_missing_path (tp d) p.
Proof.
  intros Ha Heq. apply (not_state r k Ha). rewrite Heq, snapshot_missing_path_eq.
  rewrite task_path_app. apply task_path_under.
Qed.

Lemma roots_ne k : O ++ k ≠ W ++ k.
Proof.
  intros Heq. eapply apart_under; [apply (ml_ow Hl)|apply under_app|].
  rewrite Heq. apply under_app.
Qed.

(** The expected record of an accepted change. *)
Definition merged_change (a : store) (c : ChangedFile) : ChangedFile :=
  applied_change (hash_of <$> a (W ++ comps (cf_path c))) ∅ c.

Lemma project_hash_ok p w h w' :
  ok (w_fs w) → clear Z (O ++ comps p) → project_hash m p w = (Ok h, w') →
  w' = w ∧ h = hash_of <$> file_of (w_fs w) (O ++ comps p).
Proof.
  intros Hok Hc Hw. unfold project_hash in Hw.
  exec Hw as q w1 (-> & -> & _)%checked_join_ok.
  apply (file_hash_ok Z) in Hw; [done|by apply (st_fs Z inv)|done|].
  destruct (ml_orig Hl) as [Hn _]. intros Heq. apply app_eq_nil in Heq as [Heq _].
  apply Hn. rewrite Heq. apply prefix_nil.
Qed.

(** One whole file. *)
Lemma merge_file_ok c w c' w' :
  ok (w_fs w) → c ∈ changed_files m →
  merge_file m before after [] c w = (Ok c', w') →
  ok (w_fs w') ∧ c' = merged_change (file_of (w_fs w)) c ∧
  ∀ q, file_of (w_fs w') q = merge_put O W before after (file_of (w_fs w)) c q.
Proof.
  intros Hok Hc Hw. unfold merge_file in Hw. simpl in Hw.
  pose proof (ml_clear_o Hl c Hc) as Hco. pose proof (ml_clear_w Hl c Hc) as Hcw.
  pose proof (ml_orig Hl) as Ho. pose proof (ml_ws Hl) as Hws.
  set (p := cf_path c) in *.
  exec Hw as u1 w1 H1.
  apply (snapshot_file_ok Z inv) in H1 as [Hok1 Ha1];
    [|done|done|by apply snaps_ready; [repeat constructor|..]|by apply blob_ne|by apply missing_ne].
  exec Hw as u2 w2 H2.
  apply (copy_file_or_remove_ok Z inv) in H2 as [Hok2 Ha2];
    [|done|done|done|intros Heq; by apply (roots_ne (comps p))
     |by apply outside_parents_to, not_state|intros; by apply outside_inv, not_state].
  exec Hw as u3 w3 H3.
  apply (snapshot_file_ok Z inv) in H3 as [Hok3 Ha3];
    [|done|done|by apply snaps_ready; [repeat constructor|..]|by apply blob_ne|by apply missing_ne].
  exec Hw as h w4 [-> Hh]%project_hash_ok; [|done..].
  apply ret_ok in Hw as [-> ->].
  assert (HW : file_of (w_fs w1) (W ++ comps p) = file_of (w_fs w) (W ++ comps p)).
  { rewrite Ha1. apply snapped_outside. intros Hu.
    eapply apart_under; [apply (apart_state W ["snapshots"; "before"] Hws)|apply under_app|exact Hu]. }
  assert (HO : file_of (w_fs w2) (O ++ comps p) = file_of (w_fs w) (W ++ comps p)).
  { by rewrite Ha2, fput_eq. }
  split_and!; [done| |].
  - unfold merged_change. rewrite Hh. f_equal.
    rewrite Ha3, HO, snapped_outside; [by rewrite HO|]. intros Hu.
    eapply apart_under; [apply (apart_state O ["snapshots"; "after-merge"] Ho)|apply under_app|exact Hu].
  - intros q. rewrite Ha3. unfold merge_put. fold p. rewrite HO.
    apply snapped_agree. rewrite Ha2, HW. unfold fput. case_decide; [done|]. apply Ha1.
Qed.

(** ** Locks *)

Lemma path_lock_frame K p :
  ¬ K (lock_path self pid ("path-" +:+ encode_path p +:+ ".lock")) →
  stable (keeps_files Z inv K) (acquire_path_lock (project_root self pid) p).
Proof.
  intros HK. unfold acquire_path_lock.
  rewrite (path_lock_path_eq self pid tid (ta_pid _ _ _ _ (ml_area Hl)) (ta_tid _ _ _ _ (ml_area Hl))).
  rewrite (locks_root_eq self pid (ta_pid _ _ _ _ (ml_area Hl))).
  apply frame_acquire; [apply (ml_area Hl)|done|done].
Qed.

Lemma merge_lock_frame K :
  ¬ K (lock_path self pid ("merge-" +:+ tid +:+ ".lock")) →
  stable (keeps_files Z inv K) (acquire_merge_lock (project_root self pid) tid).
Proof.
  intros HK. pose proof (ta_pid _ _ _ _ (ml_area Hl)) as Hp. pose proof (ta_tid _ _ _ _ (ml_area Hl)) as Ht. unfold acquire_merge_lock.
  rewrite (merge_lock_path_eq self pid tid Hp Ht), (locks_root_eq self pid Hp).
  apply frame_acquire; [apply (ml_area Hl)|done|done].
Qed.

Lemma release_frame K name fs :
  name ≠ ".." → ¬ K (lock_path self pid name) →
  keeps_files Z inv K fs (release_lock (lock_path self pid name) fs).
Proof.
  intros Hn HK. apply release_keeps; [|done].
  by apply (lock_clear self pid tid Z (ml_area Hl)).
Qed.

(** ** The loop over the accepted files *)

Local Abbreviation put := (merge_put O W before after).
Local Abbreviation puts := (merge_all O W before after).

Lemma merge_one_ok (sel : gset string) acc c w r w' :
  ok (w_fs w) → c ∈ changed_files m →
  merge_one self m sel before after [] acc c w = (Ok r, w') →
  ok (w_fs w') ∧
  if bool_decide (cf_path c ∈ sel)
  then r = (acc.1.1 ++ [merged_change (file_of (w_fs w)) c],
            acc.1.2 ++ [cf_path c], acc.2) ∧
       agree O W before after (file_of (w_fs w')) (put (file_of (w_fs w)) c)
  else r = (acc.1.1 ++ [c], acc.1.2, acc.2 ++ [cf_path c]) ∧
       agree O W before after (file_of (w_fs w')) (file_of (w_fs w)).
Proof.
  destruct acc as [[done acc] skip]. intros Hok Hc Hw. unfold merge_one in Hw.
  case_bool_decide as Hsel; simpl in Hw.
  - exec Hw as u1 w1 H1.
    apply (keeps_run Z inv scope) in H1 as [Hok1 Hk1];
      [|apply path_lock_frame, lock_out_of_scope|done].
    exec Hw as c' w2 (w3 & H3 & ->)%finally_ok.
    apply merge_file_ok in H3 as (Hok3 & -> & Ha3); [|done..].
    apply ret_ok in Hw as [-> ->]. simpl.
    rewrite (path_lock_path_eq self pid tid (ta_pid _ _ _ _ (ml_area Hl)) (ta_tid _ _ _ _ (ml_area Hl))).
    edestruct (release_frame scope ("path-" +:+ encode_path (cf_path c) +:+ ".lock"))
      as [Hok4 Hk4]; [done|apply lock_out_of_scope|exact Hok3|].
    split; [done|]. split.
    + unfold merged_change. rewrite Hk1; [done|].
      right; left. apply under_app.
    + intros q Hq. rewrite Hk4, Ha3 by done. by apply merge_put_agree.
  - apply ret_ok in Hw as [-> ->]. done.
Qed.

(** The abstract results of the loop. *)
Definition loop_change (sel : gset string) (a : store) (c : ChangedFile) : ChangedFile :=
  if bool_decide (cf_path c ∈ sel) then merged_change a c else c.
Definition selected (sel : gset string) (l : list ChangedFile) : list ChangedFile :=
  List.filter (λ c, bool_decide (cf_path c ∈ sel)) l.
Definition unselected (sel : gset string) (l : list ChangedFile) : list ChangedFile :=
  List.filter (λ c, negb (bool_decide (cf_path c ∈ sel))) l.

Lemma scope_roots :
  apart O before ∧ apart O after ∧ apart W before ∧ apart W after.
Proof.
  pose proof (ml_orig Hl). pose proof (ml_ws Hl).
  split_and!; by apply apart_state.
Qed.

Lemma merged_change_agree a b c :
  agree O W before after a b → merged_change a c = merged_change b c.
Proof.
  intros Hab. unfold merged_change. rewrite Hab; [done|]. right; left. apply under_app.
Qed.

Lemma loop_change_agree sel a b c :
  agree O W before after a b → loop_change sel a c = loop_change sel b c.
Proof.
  intros Hab. unfold loop_change. case_bool_decide; [|done]. by apply merged_change_agree.
Qed.

Lemma loop_change_put sel a c d :
  loop_change sel (put a d) c = loop_change sel a c.
Proof.
  unfold loop_change, merged_change. destruct scope_roots as (? & ? & ? & ?).
  rewrite merge_put_workspace; [done|apply (ml_ow Hl)|done|done|apply under_app].
Qed.

Lemma merge_loop_ok (sel : gset string) l acc w r w' :
  ok (w_fs w) → (∀ c, c ∈ l → c ∈ changed_files m) →
  foldM (merge_one self m sel before after []) acc l w = (Ok r, w') →
  ok (w_fs w') ∧
  r = (acc.1.1 ++ map (loop_change sel (file_of (w_fs w))) l,
       acc.1.2 ++ map cf_path (selected sel l), acc.2 ++ map cf_path (unselected sel l)) ∧
  agree O W before after (file_of (w_fs w')) (puts (file_of (w_fs w)) (selected sel l)).
Proof.
  revert acc w. induction l as [|c l IH]; intros acc w Hok Hin Hw; simpl in Hw.
  - apply ret_ok in Hw as [-> ->]. simpl. rewrite !app_nil_r.
    split; [done|]. by destruct acc as [[]].
  - exec Hw as acc1 w1 H1. apply merge_one_ok in H1 as [Hok1 H1]; [|done|apply Hin; left].
    apply IH in Hw as (Hok' & -> & Ha'); [|done|intros; apply Hin; by right].
    split; [done|]. simpl. unfold loop_change at 2.
    case_bool_decide as Hsel; simpl; destruct H1 as [-> Ha1]; simpl;
      rewrite <- !(assoc (++)); simpl.
    + split.
      * rewrite (map_ext (loop_change sel (file_of (w_fs w1)))
                   (loop_change sel (file_of (w_fs w)))); [done|].
        intros d. rewrite <- (loop_change_put sel (file_of (w_fs w)) d c).
        by apply loop_change_agree.
      * intros q Hq. rewrite Ha' by done. by apply merge_all_agree.
    + split.
      * rewrite (map_ext (loop_change sel (file_of (w_fs w1)))
                   (loop_change sel (file_of (w_fs w)))); [done|].
        intros d. by apply loop_change_agree.
      * intros q Hq. rewrite Ha' by done. by apply merge_all_agree.
Qed.

(** ** The checks before and the bookkeeping after *)

Local Abbreviation mpath := (manifest_file self pid tid).

Lemma verify_ok mp failed conflict expected sel w u w' :
  ok (w_fs w) →
  verify_files self mp m failed conflict expected sel w = (Ok u, w') →
  w' = w ∧ ∀ c, c ∈ changed_files m → sel c = true →
    hash_of <$> file_of (w_fs w) (O ++ comps (cf_path c)) = expected c.
Proof.
  unfold verify_files, forM_. intros Hok.
  assert (Hin : ∀ c, c ∈ changed_files m → c ∈ changed_files m) by done.
  revert u Hin. generalize (changed_files m) at 1 3 4 as l.
  induction l as [|c l IH]; intros u Hin Hw; simpl in Hw.
  { apply ret_ok in Hw as [-> ->]. split; [done|]. intros c Hc.
    by apply not_elem_of_nil in Hc. }
  assert (Hcl : clear Z (O ++ comps (cf_path c))) by (apply (ml_clear_o Hl), Hin; left).
  exec Hw as [] w1 H1.
  assert (w1 = w ∧ (sel c = true →
            hash_of <$> file_of (w_fs w) (O ++ comps (cf_path c)) = expected c))
    as [-> Hc].
  { destruct (sel c); simpl in H1; [|by apply ret_ok in H1 as [_ ->]].
    exec H1 as h w2 [-> ->]%project_hash_ok; [|done..].
    case_bool_decide; [by apply ret_ok in H1 as [_ ->]|].
    exec H1 as u1 w3 _. exec H1 as u2 w4 _. by apply throw_ok in H1. }
  apply IH in Hw as [-> Hl']; [|intros; apply Hin; by right].
  split; [done|]. intros d [->|Hd]%elem_of_cons; auto.
Qed.

Lemma verify_frame K failed conflict expected sel :
  ¬ K (tp ["manifest.json"]) → ¬ K (tp ["task.json"]) →
  stable (keeps_files Z inv K)
    (verify_files self mpath m failed conflict expected sel).
Proof.
  intros Hm Ht. apply stable_forM_. intros c _.
  destruct (negb _); [apply stable_ret|].
  apply stable_bind.
  { apply stable_checked_join_bind. intros _. apply stable_file_hash. }
  intros h. destruct (bool_decide _); [apply stable_ret|].
  apply stable_bind; [apply frame_write_manifest; [apply (ml_area Hl)|done]|]. intros _.
  apply stable_bind; [apply frame_task_status; [apply (ml_area Hl)|done]|]. intros _.
  apply stable_throw.
Qed.

(** Bookkeeping that keeps the scope and the manifest. *)
Definition kept (q : path) : Prop := scope q ∨ q = tp ["manifest.json"].

Lemma scope_timeline kind payload :
  stable (keeps_files Z inv kept)
    (append_timeline self pid tid kind payload).
Proof.
  apply frame_timeline; [apply (ml_area Hl)|]. intros [Hq|Hq].
  - revert Hq. apply out_of_scope; intros [k Hk]; simplify_eq.
  - revert Hq. path_ne.
Qed.

Lemma scope_status s :
  stable (keeps_files Z inv kept)
    (write_task_status self pid tid s).
Proof.
  apply frame_task_status; [apply (ml_area Hl)|]. intros [Hq|Hq].
  - revert Hq. apply out_of_scope; intros [k Hk]; simplify_eq.
  - revert Hq. path_ne.
Qed.

Lemma scope_accepted_diff text :
  stable (keeps_files Z inv kept)
    (write (join (join (task_root self pid tid) "changes") "accepted.diff") text : R unit).
Proof.
  pose proof (ta_pid _ _ _ _ (ml_area Hl)) as Hp. pose proof (ta_tid _ _ _ _ (ml_area Hl)) as Ht. rewrite (task_root_eq self pid tid Hp Ht).
  rewrite !task_path_join by done. simpl.
  assert (Hw : writable Z inv kept
                 (tp ["changes"; "accepted.diff"])).
  { apply task_writable; [apply (ml_area Hl)|by repeat constructor|done|done|].
    intros [Hq|Hq].
    - revert Hq. apply out_of_scope; intros [k Hk]; simplify_eq.
    - revert Hq. path_ne. }
  apply stable_write; apply Hw.
Qed.

(** Writing the manifest: the scope is kept and the manifest is there. *)
Lemma write_manifest_ok m' w u w' :
  ok (w_fs w) → write_manifest m' mpath w = (Ok u, w') →
  ok (w_fs w') ∧ (∀ q, scope q → file_of (w_fs w') q = file_of (w_fs w) q) ∧
  file_of (w_fs w') (tp ["manifest.json"]) = Some (to_vec_pretty m').
Proof.
  intros Hok Hw. pose proof (ta_pid _ _ _ _ (ml_area Hl)) as Hp. pose proof (ta_tid _ _ _ _ (ml_area Hl)) as Ht. unfold write_manifest in Hw.
  rewrite (manifest_path_eq self pid tid Hp Ht) in Hw.
  assert (Hwr : writable Z inv (λ _, False) (tp ["manifest.json"])).
  { apply task_writable; [apply (ml_area Hl)|by repeat constructor|done|done|tauto]. }
  exec Hw as u1 w1 H1. apply (create_parent_ok Z inv) in H1 as [Hok1 Ha1]; [|done|apply Hwr..].
  apply (write_ok Z inv) in Hw as [Hok2 Ha2]; [|done|apply Hwr|apply Hwr].
  split_and!; [done| |by rewrite Ha2, fput_eq].
  intros q Hq. rewrite Ha2, fput_ne; [apply Ha1|]. intros ->. revert Hq.
  apply out_of_scope; intros [k Hk]; simplify_eq.
Qed.

(** ** The whole merge *)

Definition merged_manifest (sel : gset string) (a : store) (t : BinNums.Z) : TaskManifest :=
  set_updated_at t (set_status RollbackAvailable
    (set_changed_files (map (loop_change sel a) (changed_files m)) m)).

Lemma merged_manifest_agree sel a b t :
  agree O W before after a b → merged_manifest sel a t = merged_manifest sel b t.
Proof.
  intros Hab. unfold merged_manifest.
  rewrite (map_ext (loop_change sel a) (loop_change sel b)); [done|].
  intros c. by apply loop_change_agree.
Qed.

(** What a successful merge of whole files has done. *)
Record merge_done (req : MergeRequest) (fs fs' : fsys) (out : MergeOutcome) : Prop := {
  md_ok : ok fs';
  md_verified : ∀ c, c ∈ changed_files m →
    cf_path c ∈ selected_paths (changed_files m) (mr_selection req) →
    hash_of <$> file_of fs (O ++ comps (cf_path c)) = before_hash c;
  md_store : agree O W before after (file_of fs')
    (puts (file_of fs)
       (selected (selected_paths (changed_files m) (mr_selection req)) (changed_files m)));
  md_accepted : accepted_paths out = map cf_path
    (selected (selected_paths (changed_files m) (mr_selection req)) (changed_files m));
  md_skipped : skipped_paths out = map cf_path
    (unselected (selected_paths (changed_files m) (mr_selection req)) (changed_files m));
  md_manifest : ∃ t, file_of fs' (tp ["manifest.json"]) = Some (to_vec_pretty
    (merged_manifest (selected_paths (changed_files m) (mr_selection req)) (file_of fs) t))
}.

Lemma snapshot_dirs_eq d :
  plain_name d = true →
  join (join (task_root self pid tid) "snapshots") d = tp ["snapshots"; d].
Proof.
  intros Hd. pose proof (ta_pid _ _ _ _ (ml_area Hl)) as Hp. pose proof (ta_tid _ _ _ _ (ml_area Hl)) as Ht.
  rewrite (task_root_eq self pid tid Hp Ht). by rewrite !task_path_join.
Qed.

Lemma merge_body_ok req w out w' :
  ok (w_fs w) → hunk_selections (mr_selection req) = [] →
  merge_body self mpath req m w = (Ok out, w') →
  merge_done req (w_fs w) (w_fs w') out.
Proof.
  intros Hok Hh Hw. unfold merge_body in Hw. rewrite Hh in Hw. cbv zeta in Hw.
  rewrite !snapshot_dirs_eq in Hw by done.
  set (sel := selected_paths (changed_files m) (mr_selection req)) in *.
  exec Hw as e1 w1 H1. apply (keeps_run Z inv kept) in H1 as [Hok1 Hk1]; [|apply scope_timeline|done].
  exec Hw as u2 w2 [-> Hv]%verify_ok; [|done].
  exec Hw as r w3 (Hok3 & -> & Ha3)%merge_loop_ok; [|done|done].
  simpl in Hw.
  exec Hw as u4 w4 H4. apply (keeps_run Z inv kept) in H4 as [Hok4 Hk4]; [|apply scope_accepted_diff|done].
  exec Hw as t w5 H5%now_ok.
  exec Hw as u6 w6 H6. apply write_manifest_ok in H6 as (Hok6 & Hk6 & Hm6); [|by rewrite H5].
  exec Hw as u7 w7 H7. apply (keeps_run Z inv kept) in H7 as [Hok7 Hk7]; [|apply scope_status|done].
  exec Hw as e8 w8 H8. apply (keeps_run Z inv kept) in H8 as [Hok8 Hk8]; [|apply scope_timeline|done].
  apply ret_ok in Hw as [-> ->].
  assert (Hagree : agree O W before after (file_of (w_fs w1)) (file_of (w_fs w))).
  { intros q Hq. by rewrite Hk1 by (by left). }
  split; simpl; [done| | |done|done|].
  - intros c Hc Hsel. rewrite <- (Hv c Hc).
    + rewrite Hk1; [done|]. left; left. apply under_app.
    + by apply bool_decide_eq_true_2.
  - intros q Hq. rewrite Hk8, Hk7, Hk6, H5, Hk4, Ha3 by (try (by left); done).
    by apply merge_all_agree.
  - exists t. rewrite Hk8, Hk7, Hm6 by (by right). do 2 f_equal.
    by apply merged_manifest_agree.
Qed.

Lemma merge_refreshed_ok req w out w' :
  ok (w_fs w) → hunk_selections (mr_selection req) = [] →
  merge_refreshed self mpath req m w = (Ok out, w') →
  merge_done req (w_fs w) (w_fs w') out.
Proof.
  intros Hok Hh Hw. unfold merge_refreshed in Hw.
  set (K := kept).
  assert (HK : ¬ K (lock_path self pid ("merge-" +:+ tid +:+ ".lock"))).
  { intros [Hq|Hq]; [by apply lock_out_of_scope in Hq|revert Hq; path_ne]. }
  exec Hw as u1 w1 H1.
  apply (keeps_run Z inv K) in H1 as [Hok1 Hk1]; [|by apply merge_lock_frame|done].
  apply finally_ok in Hw as (w2 & Hw & ->).
  apply merge_body_ok in Hw as [Hok2 Hv Ha2 Hacc Hskip [t Hm2]]; [|done..].
  pose proof (ta_pid _ _ _ _ (ml_area Hl)) as Hp. pose proof (ta_tid _ _ _ _ (ml_area Hl)) as Ht. simpl.
  rewrite (merge_lock_path_eq self pid tid Hp Ht).
  edestruct (release_frame K ("merge-" +:+ tid +:+ ".lock")) as [Hok3 Hk3];
    [done|done|exact Hok2|].
  assert (Hagree : agree O W before after (file_of (w_fs w1)) (file_of (w_fs w))).
  { intros q Hq. by rewrite Hk1 by (by left). }
  split; [done| | |done|done|].
  - intros c Hc Hsel. rewrite <- (Hv c Hc Hsel).
    rewrite Hk1; [done|]. left; left. apply under_app.
  - intros q Hq. rewrite Hk3, Ha2 by (try (by left); done). by apply merge_all_agree.
  - exists t. rewrite Hk3, Hm2 by (by right). do 2 f_equal.
    by apply merged_manifest_agree.
Qed.

(** A failed check: nothing of the scope changes, whatever is returned. *)
Lemma merge_refused req w r w' c :
  ok (w_fs w) → c ∈ changed_files m →
  cf_path c ∈ selected_paths (changed_files m) (mr_selection req) →
  hash_of <$> file_of (w_fs w) (O ++ comps (cf_path c)) ≠ before_hash c →
  merge_refreshed self mpath req m w = (r, w') →
  is_ok r = false ∧ ok (w_fs w') ∧
  ∀ q, scope q → file_of (w_fs w') q = file_of (w_fs w) q.
Proof.
  intros Hok Hc Hsel Hne Hw. unfold merge_refreshed in Hw.
  pose proof (ta_pid _ _ _ _ (ml_area Hl)) as Hp. pose proof (ta_tid _ _ _ _ (ml_area Hl)) as Ht.
  rewrite (merge_lock_path_eq self pid tid Hp Ht) in Hw.
  pose proof (merge_lock_frame scope (lock_out_of_scope _) w Hok) as [Hok1 Hk1].
  unfold mbind, M_bind in Hw.
  destruct (acquire_merge_lock _ _ w) as [[u|e|x] w1]; simplify_eq; simpl in Hok1, Hk1; [|done..].
  unfold finally in Hw. destruct (merge_body self mpath req m w1) as [r2 w2] eqn:Hb.
  simplify_eq. simpl.
  assert (is_ok r = false ∧ ok (w_fs w2) ∧
          ∀ q, scope q → file_of (w_fs w2) q = file_of (w_fs w1) q) as (Hr & Hok2 & Hk2).
  { unfold merge_body in Hb. cbv zeta in Hb. unfold mbind, M_bind in Hb.
    pose proof (scope_timeline MergeStarted
                  (JObj [("selection", to_value (mr_selection req))]) w1 Hok1) as [Hok3 Hk3].
    destruct (append_timeline _ _ _ _ _ w1) as [[e3|e3|x3] w3]; simplify_eq; simpl in *;
      [|split_and!; [done..|]; intros; apply Hk3; by left..].
    match type of Hb with context [verify_files ?a ?b ?c ?d ?e ?f ?g w3] =>
      pose proof (verify_frame scope d e f g) as Hvf;
      destruct (verify_files a b c d e f g w3) as [[u4|e4|x4] w4] eqn:Hv end; simplify_eq.
    - exfalso. apply verify_ok in Hv as [-> Hv]; [|done]. apply Hne.
      rewrite <- (Hv c Hc) by (by apply bool_decide_eq_true_2).
      rewrite Hk3, Hk1; [done|left; apply under_app|left; left; apply under_app].
    - apply (keeps_run Z inv scope) in Hv as [Hok4 Hk4]; [|apply Hvf|done].
      + split_and!; [done..|]. intros q Hq. rewrite Hk4, Hk3 by (done || by left). done.
      + apply out_of_scope; intros [k Hk]; simplify_eq.
      + apply out_of_scope; intros [k Hk]; simplify_eq.
    - apply (keeps_run Z inv scope) in Hv as [Hok4 Hk4]; [|apply Hvf|done].
      + split_and!; [done..|]. intros q Hq. rewrite Hk4, Hk3 by (done || by left). done.
      + apply out_of_scope; intros [k Hk]; simplify_eq.
      + apply out_of_scope; intros [k Hk]; simplify_eq. }
  edestruct (release_frame scope ("merge-" +:+ tid +:+ ".lock")) as [Hok5 Hk5];
    [done|apply lock_out_of_scope|exact Hok2|].
  split_and!; [done..|]. intros q Hq. by rewrite Hk5, Hk2, Hk1.
Qed.
End merge.

(** * The rollback of engine.rs

    On the abstract store a rollback of whole files puts back what the
    [before] snapshots hold; after a merge that is what the project held. *)

(** ** Specification *)

Section spec.
Context (O W before after : path).

Definition restore_put (a : store) (c : ChangedFile) : store :=
  fput (O ++ comps (cf_path c)) (snap_value before (cf_path c) a) a.
Definition restore_all (a : store) (l : list ChangedFile) : store := foldl restore_put a l.

Context (HOB : apart O before).

Lemma restore_put_outside a c q : ¬ under O q → restore_put a c q = a q.
Proof. intros Hq. apply fput_ne. intros ->. apply Hq, under_app. Qed.

Lemma restore_put_snap a c p :
  snap_value before p (restore_put a c) = snap_value before p a.
Proof.
  apply snap_value_agree. intros q Hq. apply restore_put_outside. intros Ho.
  by eapply apart_under.
Qed.

Lemma restore_all_other l a q :
  (∀ c, c ∈ l → q ≠ O ++ comps (cf_path c)) → restore_all a l q = a q.
Proof.
  revert a. induction l as [|c l IH]; intros a Hl; [done|].
  change (restore_all a (c :: l)) with (restore_all (restore_put a c) l).
  rewrite IH by (intros; apply Hl; by right). apply fput_ne, Hl. left.
Qed.

Lemma restore_all_snap l a p :
  snap_value before p (restore_all a l) = snap_value before p a.
Proof.
  revert a. induction l as [|c l IH]; intros a; [done|].
  change (restore_all a (c :: l)) with (restore_all (restore_put a c) l).
  by rewrite IH, restore_put_snap.
Qed.

Lemma restore_all_target l a c :
  NoDup (map (comps ∘ cf_path) l) → c ∈ l →
  restore_all a l (O ++ comps (cf_path c)) = snap_value before (cf_path c) a.
Proof.
  revert a. induction l as [|d l IH]; intros a Hn Hc; [by apply not_elem_of_nil in Hc|].
  change (restore_all a (d :: l)) with (restore_all (restore_put a d) l).
  simpl in Hn. apply NoDup_cons in Hn as [Hd Hn].
  apply elem_of_cons in Hc as [->|Hc].
  - rewrite restore_all_other; [apply fput_eq|]. intros e He Heq%(inj (app O)).
    apply Hd. simpl. rewrite Heq. by apply (list_elem_of_fmap_2 (comps ∘ cf_path)).
  - rewrite IH by done. apply restore_put_snap.
Qed.

Lemma restore_all_ext l a b :
  (∀ q, a q = b q) → ∀ q, restore_all a l q = restore_all b l q.
Proof.
  revert a b. induction l as [|c l IH]; intros a b Hab; [done|].
  apply (IH (restore_put a c) (restore_put b c)). intros q. unfold restore_put, fput.
  case_decide; [|done]. unfold snap_value. by rewrite !Hab.
Qed.

Lemma restore_all_agree l a b :
  agree O W before after a b → agree O W before after (restore_all a l) (restore_all b l).
Proof.
  revert a b. induction l as [|c l IH]; intros a b Hab; [done|].
  apply (IH (restore_put a c) (restore_put b c)). intros q Hq. unfold restore_put, fput.
  case_decide; [|auto]. apply snap_value_agree. intros q' Hq'. apply Hab.
  by right; right; left.
Qed.

(** Merging and then restoring the same files is the identity on the project. *)
Lemma restore_merge l a q :
  apart O W → apart O after → apart before after →
  NoDup (map (comps ∘ cf_path) l) → NoDup (map (encode_path ∘ cf_path) l) → under O q →
  restore_all (merge_all O W before after a l) l q = a q.
Proof.
  intros HOW HOA HBA Hn He Hq.
  destruct (decide (Exists (λ c, q = O ++ comps (cf_path c)) l)) as [Hx|Hx].
  - apply Exists_exists in Hx as (c & Hc & ->). rewrite restore_all_target by done.
    by apply merge_all_before.
  - assert (Hne : ∀ c, c ∈ l → q ≠ O ++ comps (cf_path c)).
    { intros c Hc ->. apply Hx, Exists_exists. eauto. }
    rewrite restore_all_other by done. by apply merge_all_other.
Qed.
End spec.

(** ** Simulation *)

Section rollback.
Context `{Sys} `{Codecs} `{!SerdeOk TaskRecord} `{!SerdeOk TaskManifest}.
Context (self : CodexNewCore) (Z : path → Prop) (m : TaskManifest).
Local Abbreviation pid := (m_project_id m).
Local Abbreviation tid := (m_task_id m).
Local Abbreviation O := (original_root m).
Local Abbreviation W := (workspace_root m).
Local Abbreviation tp := (task_path self pid tid).
Local Abbreviation before := (tp ["snapshots"; "before"]).
Local Abbreviation inv := (task_inv self pid tid).
Local Abbreviation ok := (store_ok Z inv).
Local Abbreviation mpath := (manifest_file self pid tid).
Context (Hl : merge_layout self Z m).

Lemma rollback_file_ok c w c' w' :
  ok (w_fs w) → c ∈ changed_files m →
  rollback_file m before [] c w = (Ok c', w') →
  ok (w_fs w') ∧ c' = reverted_change c ∧
  ∀ q, file_of (w_fs w') q = restore_put O before (file_of (w_fs w)) c q.
Proof.
  intros Hok Hc Hw. unfold rollback_file in Hw. simpl in Hw.
  exec Hw as u1 w1 H1.
  apply (restore_snapshot_ok Z inv) in H1 as [Hok1 Ha1];
    [|done|by apply (ml_clear_o _ _ _ Hl)|by apply (snaps_ready self Z m Hl); [repeat constructor|..]| | |].
  - by apply ret_ok in Hw as [-> ->].
  - intros Heq. symmetry in Heq. revert Heq.
    apply blob_ne, (ml_orig _ _ _ Hl).
  - apply outside_parents_to, not_state, (ml_orig _ _ _ Hl).
  - intros s. apply outside_inv, not_state, (ml_orig _ _ _ Hl).
Qed.

Definition to_restore (paths : gset string) (c : ChangedFile) : bool :=
  accepted c && bool_decide (cf_path c ∈ paths).
Definition rolled_change (paths : gset string) (c : ChangedFile) : ChangedFile :=
  if to_restore paths c then reverted_change c else c.

Lemma rollback_loop_ok (paths : gset string) l acc w r w' :
  ok (w_fs w) → (∀ c, c ∈ l → c ∈ changed_files m) →
  foldM (rollback_one m paths before []) acc l w = (Ok r, w') →
  ok (w_fs w') ∧
  r = (acc.1 ++ map (rolled_change paths) l,
       acc.2 ++ map cf_path (List.filter (to_restore paths) l)) ∧
  ∀ q, file_of (w_fs w') q
       = restore_all O before (file_of (w_fs w)) (List.filter (to_restore paths) l) q.
Proof.
  revert acc w. induction l as [|c l IH]; intros acc w Hok Hin Hw; simpl in Hw.
  { apply ret_ok in Hw as [-> ->]. simpl. rewrite !app_nil_r. by destruct acc. }
  exec Hw as acc1 w1 H1. unfold rollback_one in H1. rewrite <- negb_andb in H1.
  fold (to_restore paths c) in H1. simpl. unfold rolled_change at 1.
  destruct (to_restore paths c) eqn:Hc; simpl in H1.
  - exec H1 as c' w2 (Hok2 & -> & Ha2)%rollback_file_ok; [|done|apply Hin; left].
    apply ret_ok in H1 as [-> ->].
    apply IH in Hw as (Hok' & -> & Ha'); [|done|intros; apply Hin; by right].
    simpl. rewrite <- !(assoc (++)). split_and!; [done..|]. intros q.
    rewrite Ha'. by apply restore_all_ext.
  - apply ret_ok in H1 as [-> ->].
    apply IH in Hw as (Hok' & -> & Ha'); [|done|intros; apply Hin; by right].
    simpl. by rewrite <- !(assoc (++)).
Qed.

Definition rollback_set (req : RollbackRequest) : gset string :=
  selected_rollback_paths (changed_files m) (rr_selection req).
Definition restored (req : RollbackRequest) : list ChangedFile :=
  List.filter (to_restore (rollback_set req)) (changed_files m).

Lemma rollback_manifest_ok req w out w' :
  ok (w_fs w) → rollback_hunk_selections (rr_selection req) = [] →
  rollback_manifest self mpath req m w = (Ok out, w') →
  ok (w_fs w') ∧
  (∀ c, c ∈ restored req →
     hash_of <$> file_of (w_fs w) (O ++ comps (cf_path c)) = after_merge_hash c) ∧
  restored_paths out = map cf_path (restored req) ∧
  ∀ q, in_scope O W before (tp ["snapshots"; "after-merge"]) q →
       file_of (w_fs w') q = restore_all O before (file_of (w_fs w)) (restored req) q.
Proof.
  intros Hok Hh Hw. unfold rollback_manifest in Hw. rewrite Hh in Hw. cbv zeta in Hw.
  rewrite (snapshot_dirs_eq self Z m Hl) in Hw by done.
  case_bool_decide; [by apply throw_ok in Hw|].
  exec Hw as u1 w1 [-> Hv]%(verify_ok self Z m Hl); [|done].
  exec Hw as r w2 (Hok2 & -> & Ha2)%rollback_loop_ok; [|done|done]. simpl in Hw.
  exec Hw as t w3 H3%now_ok.
  exec Hw as u4 w4 H4.
  apply (write_manifest_ok self Z m Hl) in H4 as (Hok4 & Hk4 & _); [|by rewrite H3].
  exec Hw as u5 w5 H5.
  apply (keeps_run Z inv (kept self m)) in H5 as [Hok5 Hk5]; [|apply (scope_status self Z m Hl)|done].
  exec Hw as e6 w6 H6.
  apply (keeps_run Z inv (kept self m)) in H6 as [Hok6 Hk6]; [|apply (scope_timeline self Z m Hl)|done].
  apply ret_ok in Hw as [-> ->]. split_and!; [done| |done|].
  - intros c Hc. apply list_elem_of_In, filter_In in Hc as [Hc Hr].
    apply Hv; [by apply list_elem_of_In|done].
  - intros q Hq. rewrite Hk6, Hk5, Hk4, H3, Ha2 by (try (by left); done). done.
Qed.
End rollback.
