(* ===== verification/ChangesProps.v ===== *)
(** * Change detection and refreshing *)

From S2P Require Import Prelude RustStr FsModel World Models FsFacts Frame Fsx Workspace.
From S2P Require Import Activity Diff Protocol Changes Engine Memory.
From S2P Require Import Exec FsxProps Layout MergeFacts.

(** * Change detection: the hash index and the comparison of two trees *)

(** ** Names *)

(** The names the index keeps apart: plain and without a backslash. *)
Definition index_name (s : string) : Prop :=
  plain_name s = true ∧ backslash ∉ bytes s.

Lemma replace_char_id c t s : c ∉ bytes s → replace_char c t s = s.
Proof.
  induction s as [|d s IH]; [done|]. simpl. intros Hc.
  apply not_elem_of_cons in Hc as [Hne Hc].
  destruct (Ascii.eqb_spec c d); [done|]. by rewrite IH.
Qed.

Lemma join_with_bytes c sep l :
  c ∈ bytes (join_with sep l) → c ∈ bytes sep ∨ ∃ s, s ∈ l ∧ c ∈ bytes s.
Proof.
  induction l as [|s l IH]; simpl; [set_solver|].
  destruct l as [|t l]; [intros; right; exists s; set_solver|].
  rewrite !bytes_app, !elem_of_app. intros [Hc|[Hc|Hc]]; [right; exists s; set_solver|by left|].
  destruct (IH Hc) as [?|(u & ? & ?)]; [by left|right; exists u; set_solver].
Qed.

Lemma index_key_comps rel : Forall index_name rel → comps (index_key rel) = rel.
Proof.
  intros Hr. unfold index_key. rewrite replace_char_id.
  - apply comps_join_with. eapply Forall_impl; [done|]. by intros s [].
  - intros [Hc|(s & Hs & Hc)]%join_with_bytes.
    + apply list_elem_of_singleton in Hc. done.
    + rewrite Forall_forall in Hr. by destruct (Hr s Hs).
Qed.

Lemma index_key_inj rel rel' :
  Forall index_name rel → Forall index_name rel' →
  index_key rel = index_key rel' → rel = rel'.
Proof. intros H1 H2 Heq. by rewrite <- (index_key_comps rel), Heq, index_key_comps. Qed.

(** ** The hash index *)

Section index.
Context `{Sys} (fs : fsys) (root : path).

(** The tree below the root: well formed, real names. *)
Record tree_ok : Prop := {
  to_tree : wf_tree fs;
  to_top : fs !! [] = None;
  to_root : fs !! root = Some Dir;
  to_dots : no_dotdot root;
  to_names : ∀ rel n, fs !! (root ++ rel) = Some n → Forall index_name rel
}.
Context (Ht : tree_ok).

Definition is_link (q : path) : Prop := ∃ t, fs !! q = Some (Link t).

Lemma tree_fs_ok : fs_ok is_link fs.
Proof. split; [apply Ht|intros p t Hp; by exists t|apply Ht]. Qed.

Lemma tree_clear rel s : file_of fs (root ++ rel) = Some s → clear is_link (root ++ rel).
Proof.
  unfold file_of. destruct (fs !! (root ++ rel)) as [n|] eqn:Hn; [|done].
  destruct n as [s'| |]; try done. intros _. split.
  - apply Forall_app. split; [apply Ht|]. apply (to_names Ht) in Hn.
    eapply Forall_impl; [done|]. intros x []. by apply plain_not_dotdot.
  - intros q Hq [t Hl]. destruct (decide (q = root ++ rel)) as [->|Hne]; [congruence|].
    destruct (decide (q = [])) as [->|Hq0]; [rewrite (to_top Ht) in Hl; done|].
    rewrite (to_tree Ht _ q _ Hn Hq Hne Hq0) in Hl. done.
Qed.

Definition in_git (rel : path) : bool := existsb (String.eqb ".git") (root ++ rel).

(** What an entry of the walk adds to the index. *)
Definition entry_kv (e : path * node) : option (string * option string) :=
  match snd e with
  | File s => if in_git (fst e) then None
              else Some (index_key (fst e), Some (hash_of s))
  | _ => None
  end.

Definition insert_kv (idx : gmap string (option string)) (kv : string * option string) :=
  <[kv.1 := kv.2]> idx.

Lemma index_entries_ok entries idx w idx' w' :
  w_fs w = fs →
  (∀ rel n, (rel, n) ∈ entries → fs !! (root ++ rel) = Some n) →
  foldM (index_entry root) idx entries w = (Ok idx', w') →
  w' = w ∧ idx' = foldl insert_kv idx (omap entry_kv entries).
Proof.
  intros Hfs. revert idx. induction entries as [|[rel n] l IH]; intros idx Hin Hw; simpl in Hw.
  { by apply ret_ok in Hw as [-> ->]. }
  exec Hw as idx1 w1 H1.
  assert (w1 = w ∧ idx1 = match entry_kv (rel, n) with
                          | Some kv => insert_kv idx kv | None => idx end) as [-> ->].
  { unfold index_entry in H1. unfold entry_kv, in_git. simpl in *.
    destruct n as [s| |]; [|by apply ret_ok in H1 as [-> ->]..].
    destruct (existsb _ _); [by apply ret_ok in H1 as [-> ->]|].
    exec H1 as h w2 H2.
    assert (Hs : file_of fs (root ++ rel) = Some s)
      by (unfold file_of; by rewrite (Hin rel (File s)) by left).
    rewrite (file_hash_run is_link _ _ s) in H2;
      [|rewrite Hfs; apply tree_fs_ok|by apply (tree_clear rel s)|by rewrite Hfs].
    simplify_eq. by apply ret_ok in H1 as [-> ->]. }
  apply IH in Hw as [-> ->]; [|intros; apply Hin; by right].
  split; [done|]. simpl. by destruct (entry_kv (rel, n)).
Qed.

Lemma foldl_insert_NoDup kvs idx :
  NoDup (kvs.*1) → (∀ k, k ∈ kvs.*1 → idx !! k = None) →
  foldl insert_kv idx kvs = list_to_map kvs ∪ idx.
Proof.
  revert idx. induction kvs as [|[k v] l IH]; intros idx Hn Hidx; simpl.
  { by rewrite (left_id_L ∅ (∪)). }
  simpl in Hn. apply NoDup_cons in Hn as [Hk Hn]. unfold insert_kv at 2. simpl.
  rewrite IH; [|done|].
  - rewrite <- insert_union_r, insert_union_l; [done|].
    by apply not_elem_of_list_to_map_1.
  - intros k' Hk'. rewrite lookup_insert_ne; [apply Hidx; by right|].
    intros ->. done.
Qed.

(** The entries of the walk are the entries of the tree. *)
Lemma walk_ok w entries w' :
  w_fs w = fs → walk root w = (Ok entries, w') →
  w' = w ∧ NoDup (entries.*1) ∧
  ∀ rel n, (rel, n) ∈ entries ↔ fs !! (root ++ rel) = Some n.
Proof.
  intros Hfs Hw. unfold walk in Hw. exec Hw as r w1 H1.
  apply attempt_ok in H1 as [(a & -> & H1)|(e & -> & _)]; [|by apply throw_ok in Hw].
  apply ret_ok in Hw as [-> ->]. unfold walk_dir in H1.
  apply lift_read_ok in H1 as [H1 ->]. rewrite Hfs in H1. unfold fs_walk in H1.
  assert (Hcl : clear is_link root).
  { split; [apply Ht|]. intros q Hq [t Hl].
    destruct (decide (q = root)) as [->|Hne]; [by rewrite (to_root Ht) in Hl|].
    destruct (decide (q = [])) as [->|Hq0]; [by rewrite (to_top Ht) in Hl|].
    by rewrite (to_tree Ht _ q _ (to_root Ht) Hq Hne Hq0) in Hl. }
  rewrite (stat_present is_link fs tree_fs_ok root Dir) in H1 by (done || apply Ht).
  injection H1 as <-. split; [done|].
  set (f := λ '(p, m), match strip_path root p with
                       | Some (c :: rel) => Some (c :: rel, m) | _ => None end).
  assert (Hmem : ∀ rel n, (rel, n) ∈ omap f (map_to_list fs) ↔
                   rel ≠ [] ∧ fs !! (root ++ rel) = Some n).
  { intros rel n. rewrite list_elem_of_omap. split.
    - intros ([p m] & Hp%elem_of_map_to_list & Hf). unfold f in Hf.
      destruct (strip_path root p) as [[|c k]|] eqn:Hs; simplify_eq.
      apply strip_path_Some in Hs as ->. done.
    - intros [Hne Hl]. exists (root ++ rel, n). split; [by apply elem_of_map_to_list|].
      unfold f. rewrite (proj2 (strip_path_Some root (root ++ rel) rel)) by done.
      by destruct rel. }
  split.
  - simpl. apply NoDup_cons. split.
    + intros ([rel n] & Hrel & [Hne _]%Hmem)%list_elem_of_fmap. simpl in Hrel. done.
    + assert (Hgen : ∀ l : list (path * node), NoDup (l.*1) → NoDup ((omap f l).*1)).
      { induction l as [|[p m] l IH]; simpl; [constructor|]. intros [Hp Hn]%NoDup_cons.
        destruct (strip_path root p) as [[|c k]|] eqn:Hs; [auto| |auto].
        simpl. apply NoDup_cons. split; [|auto].
        intros ([k' n'] & Hk & ([p' m'] & Hin & Hf)%list_elem_of_omap)%list_elem_of_fmap.
        simpl in Hk. subst k'. unfold f in Hf.
        destruct (strip_path root p') as [[|c' k']|] eqn:Hs'; simplify_eq.
        apply strip_path_Some in Hs, Hs'. subst. apply Hp.
        by apply (list_elem_of_fmap_2 fst) in Hin. }
      apply Hgen, NoDup_fst_map_to_list.
  - intros rel n. rewrite elem_of_cons, Hmem. split.
    + intros [[= -> ->]|[_ ?]]; [rewrite app_nil_r; apply Ht|done].
    + intros Hl. destruct rel as [|c rel]; [left|by right].
      rewrite app_nil_r, (to_root Ht) in Hl. by simplify_eq.
Qed.

(** The index holds exactly the regular files of the tree outside [.git]. *)
Lemma hash_index_ok w idx w' :
  w_fs w = fs → hash_index root w = (Ok idx, w') →
  w' = w ∧
  (∀ k h, idx !! k = Some h ↔
     ∃ rel s, k = index_key rel ∧ file_of fs (root ++ rel) = Some s ∧
              in_git rel = false ∧ h = Some (hash_of s)).
Proof.
  intros Hfs Hw. unfold hash_index in Hw. exec Hw as entries w1 H1.
  apply walk_ok in H1 as (-> & Hnd & Hmem); [|done].
  apply index_entries_ok in Hw as [-> ->]; [|done|by intros; apply Hmem].
  split; [done|].
  assert (Hkv : ∀ k h, (k, h) ∈ omap entry_kv entries ↔
     ∃ rel s, k = index_key rel ∧ file_of fs (root ++ rel) = Some s ∧
              in_git rel = false ∧ h = Some (hash_of s)).
  { intros k h. rewrite list_elem_of_omap. split.
    - intros ([rel n] & Hin & He). unfold entry_kv in He. simpl in He.
      apply Hmem in Hin. destruct n as [s| |]; try done.
      destruct (in_git rel) eqn:Hg; [done|]. injection He as <- <-.
      exists rel, s. split_and!; try done. unfold file_of. by rewrite Hin.
    - intros (rel & s & -> & Hs & Hg & ->). exists (rel, File s). split.
      + apply Hmem. unfold file_of in Hs. by destruct (fs !! _) as [[]|]; simplify_eq.
      + unfold entry_kv. simpl. by rewrite Hg. }
  assert (Hn : NoDup ((omap entry_kv entries).*1)).
  { assert (Hnames : ∀ rel n, (rel, n) ∈ entries → Forall index_name rel).
    { intros rel n Hin%Hmem. by apply (to_names Ht rel n). }
    clear Hmem Hkv Hfs. induction entries as [|[rel n] l IH]; simpl; [constructor|].
    simpl in Hnd. apply NoDup_cons in Hnd as [Hrel Hnd].
    assert (IH' : NoDup ((omap entry_kv l).*1))
      by (apply IH; [done|intros; eapply Hnames; by right]).
    destruct (entry_kv (rel, n)) as [[k h]|] eqn:He; [|done].
    simpl. apply NoDup_cons. split; [|done].
    intros ([k' h'] & Hk & ([rel' n'] & Hin & He')%list_elem_of_omap)%list_elem_of_fmap.
    simpl in Hk. subst k'. unfold entry_kv in He, He'. simpl in He, He'.
    destruct n as [s| |], n' as [s'| |]; try done.
    destruct (in_git rel), (in_git rel'); try done.
    injection He as <- _. injection He' as Heq _.
    apply index_key_inj in Heq; [|eapply Hnames; by right|eapply Hnames; by left].
    subst. apply Hrel. by apply (list_elem_of_fmap_2 fst) in Hin. }
  intros k h. rewrite foldl_insert_NoDup by (done || (intros; apply lookup_empty)).
  rewrite (right_id_L ∅ (∪)), <- Hkv. symmetry. by apply elem_of_list_to_map.
Qed.

(** The entry of one file. *)
Lemma hash_index_lookup w idx w' rel :
  w_fs w = fs → hash_index root w = (Ok idx, w') → Forall index_name rel →
  in_git rel = false →
  mjoin (idx !! index_key rel) = hash_of <$> file_of fs (root ++ rel).
Proof.
  intros Hfs Hw Hrel Hg. apply hash_index_ok in Hw as [_ Hidx]; [|done].
  destruct (file_of fs (root ++ rel)) as [s|] eqn:Hs.
  - rewrite (proj2 (Hidx (index_key rel) (Some (hash_of s)))); [done|].
    exists rel, s. done.
  - destruct (idx !! index_key rel) as [h|] eqn:Hk; [|done].
    apply Hidx in Hk as (rel' & s & Heq & Hs' & _ & ->).
    apply index_key_inj in Heq; [|done|].
    + subst. congruence.
    + unfold file_of in Hs'. destruct (fs !! (root ++ rel')) as [n|] eqn:Hn; [|done].
      by apply (to_names Ht rel' n).
Qed.
End index.

(** ** The comparison *)

Lemma compare_path_path previous o w p c :
  compare_path previous o w p = Some c → cf_path c = p.
Proof.
  unfold compare_path. case_bool_decide; [done|]. intros Hc.
  repeat (case_one_in Hc); by simplify_eq.
Qed.

Lemma compare_indices_elem o w previous c :
  c ∈ compare_indices o w previous ↔
  cf_path c ∈ dom o ∪ dom w ∧
  compare_path (by_path previous) o w (cf_path c) = Some c.
Proof.
  unfold compare_indices. rewrite list_elem_of_omap. setoid_rewrite btree_keys_elem. split.
  - intros (p & Hp & Hc). by rewrite (compare_path_path _ _ _ _ _ Hc).
  - intros [Hp Hc]. eauto.
Qed.

(** The paths of the changes are the keys that are kept, in order. *)
Lemma compare_indices_paths o w previous :
  map cf_path (compare_indices o w previous)
  = List.filter (λ p, bool_decide (is_Some (compare_path (by_path previous) o w p)))
      (btree_keys (dom o ∪ dom w)).
Proof.
  unfold compare_indices. induction (btree_keys _) as [|p l IH]; [done|].
  cbn [List.filter]. rewrite <- IH. csimpl.
  destruct (compare_path (by_path previous) o w p) as [c|] eqn:Hc; [|done].
  csimpl. by rewrite (compare_path_path _ _ _ _ _ Hc).
Qed.

Lemma compare_indices_NoDup o w previous :
  NoDup (map cf_path (compare_indices o w previous)).
Proof.
  rewrite compare_indices_paths. apply NoDup_ListNoDup, List.NoDup_filter.
  apply NoDup_ListNoDup, btree_keys_NoDup.
Qed.

Lemma compare_indices_fresh o w previous c :
  c ∈ compare_indices o w previous → accepted c = false ∧ after_merge_hash c = None.
Proof.
  intros [_ Hc]%compare_indices_elem. revert Hc. generalize (cf_path c) as p.
  intros p Hc. unfold compare_path in Hc.
  case_bool_decide; [done|]. repeat (case_one_in Hc); by simplify_eq.
Qed.

(** The baseline of a path: what an earlier refresh recorded, else the
    project's current hash. *)
Definition baseline (previous : list ChangedFile) (p : string) (current : option string)
  : option string :=
  match by_path previous !! p with
  | Some c => before_hash c
  | None => current
  end.

(** The status a change between two hashes has. *)
Definition change_status (before after : option string) : option ChangedFileStatus :=
  match before, after with
  | None, Some _ => Some Added
  | Some _, None => Some Deleted
  | Some _, Some _ => Some Modified
  | None, None => None
  end.

Lemma compare_path_spec previous o w p c :
  compare_path (by_path previous) o w p = Some c ↔
  let before := baseline previous p (mjoin (o !! p)) in
  let after := mjoin (w !! p) in
  before ≠ after ∧ cf_path c = p ∧ before_hash c = before ∧ after_ai_hash c = after ∧
  change_status before after = Some (cf_status c) ∧ after_merge_hash c = None ∧
  merged_hunks c = None ∧ accepted c = false ∧ merge_status c = "pending".
Proof.
  unfold compare_path, baseline. cbv zeta.
  set (before := match by_path previous !! p with Some c => _ | None => _ end).
  set (after := mjoin (w !! p)). case_bool_decide as Heq; [naive_solver|].
  destruct before as [b|], after as [a|]; simpl; split; intros Hc;
    try (destruct c; naive_solver); try done.
  - simplify_eq. split_and!; done.
  - simplify_eq. split_and!; done.
  - simplify_eq. split_and!; done.
Qed.

Lemma StronglySorted_filter {A} (Rel : A → A → Prop) f (l : list A) :
  StronglySorted Rel l → StronglySorted Rel (List.filter f l).
Proof.
  induction 1 as [|x l Hl IH Hx]; simpl; [constructor|].
  destruct (f x); [|done]. constructor; [done|].
  rewrite Forall_forall in *. intros y [Hy _]%list_elem_of_In%filter_In.
  by apply Hx, list_elem_of_In.
Qed.

Lemma hash_index_dom `{Sys} fs root w idx w' rel :
  tree_ok fs root → w_fs w = fs → hash_index root w = (Ok idx, w') →
  Forall index_name rel → in_git root rel = false →
  index_key rel ∈ dom idx ↔ is_Some (file_of fs (root ++ rel)).
Proof.
  intros Ht Hfs Hw Hn Hg. apply (hash_index_ok fs root Ht) in Hw as [_ Hidx]; [|done].
  rewrite elem_of_dom. split.
  - intros [h (rel' & s & Heq & Hs & _)%Hidx].
    apply index_key_inj in Heq as ->; [eauto|done|].
    unfold file_of in Hs. destruct (fs !! (root ++ rel')) as [n|] eqn:Hn'; [|done].
    by apply (to_names _ _ Ht rel' n).
  - intros [s Hs]. exists (Some (hash_of s)). apply Hidx. eauto 10.
Qed.

(** What [compare_roots] reports about the file [rel] of the two trees. *)
Definition reported (fs : fsys) (orig ws : path) `{Sys} (previous : list ChangedFile)
    (rel : path) (c : ChangedFile) : Prop :=
  let before := baseline previous (index_key rel) (hash_of <$> file_of fs (orig ++ rel)) in
  let after := hash_of <$> file_of fs (ws ++ rel) in
  before ≠ after ∧ cf_path c = index_key rel ∧
  before_hash c = before ∧ after_ai_hash c = after ∧
  change_status before after = Some (cf_status c) ∧
  after_merge_hash c = None ∧ merged_hunks c = None ∧ accepted c = false ∧
  merge_status c = "pending".

(** What a successful comparison reports, path by path. *)
Lemma compare_roots_exact `{Sys} orig ws previous w changes w' :
  tree_ok (w_fs w) orig → tree_ok (w_fs w) ws →
  compare_roots orig ws previous w = (Ok changes, w') →
  w' = w ∧
  ∀ rel c, Forall index_name rel → in_git orig rel = false → in_git ws rel = false →
    is_Some (file_of (w_fs w) (orig ++ rel)) ∨ is_Some (file_of (w_fs w) (ws ++ rel)) →
    cf_path c = index_key rel →
    (c ∈ changes ↔ reported (w_fs w) orig ws previous rel c).
Proof.
  intros Ho Hws Hw. unfold compare_roots in Hw.
  exec Hw as o w1 H1. pose proof H1 as [-> _]%(hash_index_ok _ _ Ho); [|done].
  exec Hw as i w2 H2. pose proof H2 as [-> _]%(hash_index_ok _ _ Hws); [|done].
  apply ret_ok in Hw as [-> ->]. split; [done|].
  intros rel c Hn Hgo Hgw Hex Hp. rewrite compare_indices_elem, Hp, compare_path_spec.
  rewrite (hash_index_lookup _ _ Ho w o w rel) by done.
  rewrite (hash_index_lookup _ _ Hws w i w rel) by done.
  rewrite elem_of_union, (hash_index_dom _ _ w o w rel Ho) by done.
  rewrite (hash_index_dom _ _ w i w rel Hws) by done.
  unfold reported. naive_solver.
Qed.

(** The report is in path order, one entry per path. *)
Lemma compare_roots_order `{Sys} orig ws previous w changes w' :
  compare_roots orig ws previous w = (Ok changes, w') →
  NoDup (map cf_path changes) ∧ StronglySorted String.le (map cf_path changes).
Proof.
  intros Hw. unfold compare_roots in Hw. exec Hw as o w1 H1. exec Hw as i w2 H2.
  apply ret_ok in Hw as [-> _]. split; [apply compare_indices_NoDup|].
  rewrite compare_indices_paths. apply StronglySorted_filter, btree_keys_sorted.
Qed.

(** Every reported path is a path of one of the trees. *)
Lemma compare_roots_names `{Sys} orig ws previous w changes w' c :
  tree_ok (w_fs w) orig → tree_ok (w_fs w) ws →
  compare_roots orig ws previous w = (Ok changes, w') → c ∈ changes →
  ∃ rel, Forall index_name rel ∧ cf_path c = index_key rel ∧
    (is_Some (file_of (w_fs w) (orig ++ rel)) ∨ is_Some (file_of (w_fs w) (ws ++ rel))).
Proof.
  intros Ho Hws Hw Hc. unfold compare_roots in Hw.
  exec Hw as o w1 [-> Hi1]%(hash_index_ok _ _ Ho); [|done].
  exec Hw as i w2 [-> Hi2]%(hash_index_ok _ _ Hws); [|done].
  apply ret_ok in Hw as [-> ->]. apply compare_indices_elem in Hc as [Hd _].
  apply elem_of_union in Hd as [Hd|Hd]; apply elem_of_dom in Hd as [h Hh].
  - apply Hi1 in Hh as (rel & s & -> & Hs & _). exists rel. split_and!; [|done|left; eauto].
    unfold file_of in Hs. destruct (w_fs w !! (orig ++ rel)) as [n|] eqn:Hn; [|done].
    by apply (to_names _ _ Ho rel n).
  - apply Hi2 in Hh as (rel & s & -> & Hs & _). exists rel. split_and!; [|done|right; eauto].
    unfold file_of in Hs. destruct (w_fs w !! (ws ++ rel)) as [n|] eqn:Hn; [|done].
    by apply (to_names _ _ Hws rel n).
Qed.

(** A difference is reported. *)
Lemma reported_exists `{Sys} fs orig ws previous rel :
  baseline previous (index_key rel) (hash_of <$> file_of fs (orig ++ rel))
    ≠ hash_of <$> file_of fs (ws ++ rel) →
  ∃ c, reported fs orig ws previous rel c.
Proof.
  unfold reported. set (b := baseline _ _ _). set (a := _ <$> file_of fs (ws ++ rel)).
  intros Hne.
  exists {| cf_path := index_key rel; cf_status := default Added (change_status b a);
            before_hash := b; after_ai_hash := a; after_merge_hash := None;
            merged_hunks := None; accepted := false; merge_status := "pending" |}.
  split_and!; try done. simpl. by destruct b, a.
Qed.

(** * Refreshing the changes of a task

    [refresh_changes] reads the project and the workspace and writes only
    below the directory of the task. *)

(** [git diff] does not change the files it compares. *)
Class GitDiffReads `{Sys} : Prop :=
  git_diff_reads : ∀ cwd fs, (git_run cwd ["diff"; "--binary"; "HEAD"] fs).2 = fs.

Section reads.
Context `{Sys} {Rel : fsys → fsys → Prop} `{!PreOrder Rel}.

Lemma stable_walk root : stable Rel (walk root).
Proof.
  unfold walk. apply stable_bind.
  - apply stable_attempt. unfold walk_dir. apply stable_lift_read.
  - intros []; eauto with frame.
Qed.

Lemma stable_hash_index root : stable Rel (hash_index root).
Proof.
  unfold hash_index. apply stable_bind; [apply stable_walk|]. intros entries.
  apply stable_foldM. intros acc [rel n] _. unfold index_entry. simpl.
  destruct n; [|eauto with frame..]. destruct (existsb _ _); [eauto with frame|].
  apply stable_bind; [apply stable_file_hash|eauto with frame].
Qed.

Lemma stable_compare_roots o ws previous : stable Rel (compare_roots o ws previous).
Proof.
  unfold compare_roots. apply stable_bind; [apply stable_hash_index|]. intros.
  apply stable_bind; [apply stable_hash_index|]. eauto with frame.
Qed.

Lemma stable_workspace_diff `{!GitDiffReads} ws : stable Rel (workspace_diff ws).
Proof.
  unfold workspace_diff. apply stable_bind.
  - apply stable_lift_cmd. intros fs. by rewrite git_diff_reads.
  - intros o. destruct (success o); eauto with frame.
Qed.

Lemma stable_render_diff `{!GitDiffReads} m : stable Rel (render_diff m).
Proof.
  unfold render_diff. apply stable_bind; [eauto with frame|]. intros b.
  destruct (negb b); [eauto with frame|].
  apply stable_bind; [apply stable_attempt, stable_workspace_diff|eauto with frame].
Qed.

Lemma stable_hash_or_read h root p : stable Rel (hash_or_read h root p).
Proof.
  unfold hash_or_read. destruct h; [eauto with frame|].
  destruct (checked_join_opt root p); [|eauto with frame].
  apply stable_bind; [apply stable_attempt, stable_file_hash|eauto with frame].
Qed.

Context `{Codecs}.
Lemma stable_read_index root : stable Rel (read_index root).
Proof.
  unfold read_index. apply stable_bind; [eauto with frame|]. intros b.
  destruct (negb b); [eauto with frame|].
  apply stable_bind; [eauto with frame|]. intros. apply stable_ok_or.
Qed.

Lemma stable_read_manifest_from p : stable Rel (read_manifest_from p).
Proof.
  unfold read_manifest_from. apply stable_bind; [eauto with frame|].
  intros. apply stable_ok_or.
Qed.
End reads.

(** ** The layout of a task *)

Section refresh.
Context `{Sys} `{Codecs} `{!SerdeOk TaskRecord} `{!GitDiffReads}.
Context (self : CodexNewCore) (Z : path → Prop) (m : TaskManifest).
Local Abbreviation pid := (m_project_id m).
Local Abbreviation tid := (m_task_id m).
Local Abbreviation O := (original_root m).
Local Abbreviation W := (workspace_root m).
Local Abbreviation tp := (task_path self pid tid).
Local Abbreviation inv := (task_inv self pid tid).

(** The project and the workspace are link-free and apart from each other
    and from the state directory. *)
Record task_layout : Prop := {
  tl_area : task_area self pid tid Z;
  tl_orig : apart O (state_root self ++ ["projects"]);
  tl_ws : apart W (state_root self ++ ["projects"]);
  tl_ow : apart O W;
  tl_clear_o : ∀ k, no_dotdot k → clear Z (O ++ k);
  tl_clear_w : ∀ k, no_dotdot k → clear Z (W ++ k)
}.

Context (Hl : task_layout) (K : path → Prop).
Context (HK : ∀ l, K (tp l) → False).
Local Abbreviation keeps := (keeps_files Z inv K).

Lemma tp_writable l :
  no_dotdot l → parents_free l = true → l ≠ ["task.json"] → writable Z inv K (tp l).
Proof.
  intros. apply task_writable; [apply (tl_area Hl)|done..|]. exact (HK _).
Qed.

Lemma snap_writable d p :
  d ≠ ".." →
  writable Z inv K (snapshot_blob_path (tp ["snapshots"; "traceback"; d]) p) ∧
  writable Z inv K (snapshot_missing_path (tp ["snapshots"; "traceback"; d]) p).
Proof.
  intros Hd. pose proof (plain_not_dotdot _ (blob_name_plain p)).
  pose proof (plain_not_dotdot _ (missing_name_plain p)).
  rewrite snapshot_blob_path_eq, snapshot_missing_path_eq, !task_path_app.
  split; apply tp_writable; try done; by repeat constructor.
Qed.

Lemma traceback_root_eq :
  traceback_root (task_root self pid tid) = tp ["snapshots"; "traceback"].
Proof.
  unfold traceback_root.
  rewrite (task_root_eq self pid tid (ta_pid _ _ _ _ (tl_area Hl)) (ta_tid _ _ _ _ (tl_area Hl))).
  by rewrite !task_path_join.
Qed.

Lemma mkdir_frame l :
  no_dotdot l → dirs_free l = true → stable keeps (create_dir_all (tp l) : R unit).
Proof.
  intros. apply stable_mkdir; [by apply (task_clear _ _ _ _ (tl_area Hl))|].
  by apply task_dirs_to.
Qed.

Lemma traceback_dirs_frame :
  stable keeps (ensure_traceback_dirs (task_root self pid tid)).
Proof.
  unfold ensure_traceback_dirs. rewrite traceback_root_eq, !task_path_join by done.
  apply stable_bind; [|intros _]; apply mkdir_frame; try done; by repeat constructor.
Qed.

Lemma traceback_frame m' c :
  original_root m' = O → workspace_root m' = W →
  stable keeps (record_edit_traceback m' (task_root self pid tid) c).
Proof.
  intros Ho Hw. unfold record_edit_traceback. rewrite Ho, Hw, traceback_root_eq.
  rewrite !task_path_join by done. simpl.
  destruct (snap_writable "original" (cf_path c)) as [Hob Hom]; [done|].
  destruct (snap_writable "workspace" (cf_path c)) as [Hwb Hwm]; [done|].
  apply stable_bind; [apply traceback_dirs_frame|]. intros _.
  apply stable_bind; [apply stable_read_index|]. intros index.
  apply stable_bind; [eauto with frame|]. intros t.
  apply stable_bind.
  { destruct (index !! cf_path c); [eauto with frame|].
    apply stable_bind; [by apply stable_snapshot_file; [apply (tl_clear_o Hl)|..]|].
    intros _. apply stable_bind; [apply stable_hash_or_read|eauto with frame]. }
  intros entry.
  apply stable_bind; [by apply stable_snapshot_file; [apply (tl_clear_w Hl)|..]|].
  intros _. apply stable_bind; [apply stable_hash_or_read|]. intros h.
  apply stable_bind; [|eauto with frame]. unfold write_index. rewrite task_path_join by done.
  apply stable_bind; [apply mkdir_frame; [by repeat constructor|done]|]. intros _.
  apply stable_write; apply tp_writable; try done; by repeat constructor.
Qed.

Lemma timeline_frame kind payload :
  stable keeps (append_timeline self pid tid kind payload).
Proof. apply frame_timeline; [apply (tl_area Hl)|]. exact (HK _). Qed.

Lemma refresh_frame :
  stable keeps (refresh_manifest self (manifest_file self pid tid) m).
Proof.
  unfold refresh_manifest.
  apply stable_bind; [apply stable_compare_roots|]. intros changes.
  apply stable_bind; [eauto with frame|]. intros t.
  apply stable_bind; [apply stable_render_diff|]. intros diff. simpl.
  apply stable_bind.
  { rewrite (task_root_eq self pid tid (ta_pid _ _ _ _ (tl_area Hl)) (ta_tid _ _ _ _ (tl_area Hl))).
    rewrite !task_path_join by done.
    apply stable_write; apply tp_writable; try done; by repeat constructor. }
  intros _.
  apply stable_bind; [apply frame_write_manifest; [apply (tl_area Hl)|exact (HK _)]|]. intros _.
  apply stable_bind; [apply frame_task_status; [apply (tl_area Hl)|exact (HK _)]|]. intros _.
  apply stable_bind.
  { apply stable_forM_. intros c _. unfold record_change.
    apply stable_bind; [by apply traceback_frame|]. intros tb.
    apply stable_bind; [apply timeline_frame|eauto with frame]. }
  intros _. apply stable_bind; [apply timeline_frame|eauto with frame].
Qed.
End refresh.
