(* ===== verification/Concrete.v ===== *)
(** * Concrete instances for closed examples *)

From S2P Require Import Prelude RustStr FsModel World Models Workspace.

(** * A concrete serialization

    A length-prefixed encoding of the persisted types that satisfies the laws
    of [SerdeOk].  It stands in for [serde_json] where a closed example needs
    an instance of the interface; nothing else depends on it. *)

(** ** Framed strings *)

Fixpoint pos_str (p : positive) : string :=
  match p with
  | xH => "h"
  | xO p => String "o" (pos_str p)
  | xI p => String "i" (pos_str p)
  end.

Fixpoint parse_pos (s : string) : option (positive * string) :=
  match s with
  | EmptyString => None
  | String c r =>
      if Ascii.eqb c "h" then Some (xH, r)
      else if Ascii.eqb c "o" then '(p, t) ← parse_pos r; Some (xO p, t)
      else if Ascii.eqb c "i" then '(p, t) ← parse_pos r; Some (xI p, t)
      else None
  end.

Lemma parse_pos_str p r : parse_pos (pos_str p +:+ r) = Some (p, r).
Proof. induction p as [p IH|p IH|]; simpl; [by rewrite IH..|done]. Qed.

Definition frame_str (s : string) : string :=
  pos_str (Pos.of_succ_nat (String.length s)) +:+ s.

Definition parse_frame (t : string) : option (string * string) :=
  '(p, r) ← parse_pos t;
  let n := Nat.pred (Pos.to_nat p) in
  Some (of_bytes (take n (bytes r)), of_bytes (drop n (bytes r))).

Lemma parse_frame_str s r : parse_frame (frame_str s +:+ r) = Some (s, r).
Proof.
  unfold parse_frame, frame_str. rewrite <- str_app_assoc, parse_pos_str. simpl.
  rewrite SuccNat2Pos.id_succ. simpl. rewrite bytes_app, <- length_bytes.
  rewrite take_app_length, drop_app_length. by rewrite !of_bytes_bytes.
Qed.

Definition enc_strs (l : list string) : string := concat_str (map frame_str l).

Fixpoint dec_strs (fuel : nat) (t : string) : option (list string) :=
  match t with
  | EmptyString => Some []
  | _ => match fuel with
         | O => None
         | S fuel' => '(s, r) ← parse_frame t; l ← dec_strs fuel' r; Some (s :: l)
         end
  end.

Lemma dec_enc_strs l fuel :
  length l ≤ fuel → dec_strs fuel (enc_strs l) = Some l.
Proof.
  revert fuel. induction l as [|s l IH]; intros fuel Hf; [by destruct fuel|].
  simpl in Hf. destruct fuel as [|fuel]; [lia|].
  change (enc_strs (s :: l)) with (frame_str s +:+ enc_strs l).
  assert (Hne : ∃ c t, frame_str s +:+ enc_strs l = String c t).
  { unfold frame_str. destruct (Pos.of_succ_nat _); simpl; eauto. }
  destruct Hne as (c & t & Hct).
  assert (Hp := parse_frame_str s (enc_strs l)). rewrite Hct in *. simpl.
  rewrite Hp. simpl. rewrite IH by lia. done.
Qed.

Lemma length_enc_strs l : length l ≤ String.length (enc_strs l).
Proof.
  induction l as [|s l IH]; simpl; [lia|].
  unfold enc_strs in *. simpl. rewrite str_length_app.
  assert (1 ≤ String.length (frame_str s)).
  { unfold frame_str. destruct (Pos.of_succ_nat _); simpl; lia. }
  lia.
Qed.

Definition dec_all (t : string) : option (list string) := dec_strs (String.length t) t.

Lemma dec_all_enc l : dec_all (enc_strs l) = Some l.
Proof. apply dec_enc_strs, length_enc_strs. Qed.

(** ** Combinators *)

Record codec (A : Type) := {
  enc : A → string;
  dec : string → option A;
  dec_enc : ∀ a, dec (enc a) = Some a
}.
Arguments enc {A} _ _ : simpl never.
Arguments dec {A} _ _ : simpl never.
Arguments dec_enc {A} _ _.

Definition c_str : codec string.
Proof. refine {| enc := λ s, s; dec := λ s, Some s |}. done. Defined.

Definition c_iso {A B} (f : B → A) (g : A → B) (Hg : ∀ b, g (f b) = b) (c : codec A)
  : codec B.
Proof.
  refine {| enc := λ b, enc c (f b); dec := λ s, g <$> dec c s |}.
  intros b. rewrite dec_enc. simpl. by rewrite Hg.
Defined.

Definition c_pair {A B} (ca : codec A) (cb : codec B) : codec (A * B).
Proof.
  refine {| enc := λ ab, enc_strs [enc ca ab.1; enc cb ab.2];
            dec := λ s, l ← dec_all s;
                        match l with
                        | [x; y] => a ← dec ca x; b ← dec cb y; Some (a, b)
                        | _ => None
                        end |}.
  intros [a b]. rewrite dec_all_enc. simpl. by rewrite !dec_enc.
Defined.

Lemma mapM_dec_enc {A} (c : codec A) l : mapM (dec c) (map (enc c) l) = Some l.
Proof. induction l as [|a l IH]; simpl; [done|]. by rewrite dec_enc, IH. Qed.

Definition c_list {A} (c : codec A) : codec (list A).
Proof.
  refine {| enc := λ l, enc_strs (map (enc c) l);
            dec := λ s, dec_all s ≫= mapM (dec c) |}.
  intros l. rewrite dec_all_enc. apply mapM_dec_enc.
Defined.

Definition c_option {A} (c : codec A) : codec (option A).
Proof.
  refine (c_iso (λ o, match o with Some a => [a] | None => [] end)
            (λ l, match l with a :: _ => Some a | [] => None end) _ (c_list c)).
  by intros [].
Defined.

Definition c_pos : codec positive.
Proof.
  refine {| enc := pos_str; dec := λ s, fst <$> parse_pos s |}.
  intros p. rewrite <- (str_app_nil_r (pos_str p)), parse_pos_str. done.
Defined.

Definition c_N : codec N.
Proof.
  refine (c_iso (λ n, N.succ_pos n) (λ p, Pos.pred_N p) _ c_pos).
  intros n. by destruct n as [|p]; simpl; [|rewrite Pos.pred_N_succ].
Defined.

Definition c_Z : codec Z.
Proof.
  refine (c_iso (λ z, match z with
                      | Z0 => (1, 1)%positive
                      | Zpos p => (2, p)%positive
                      | Zneg p => (3, p)%positive
                      end)
            (λ '(t, p), match t with
                        | xH => Z0 | xO _ => Zpos p | xI _ => Zneg p
                        end) _ (c_pair c_pos c_pos)).
  by intros [].
Defined.

Definition c_bool : codec bool.
Proof.
  refine (c_iso (λ b : bool, if b then 2%positive else 1%positive)
            (λ p, match p with xH => false | _ => true end) _ c_pos).
  by intros [].
Defined.

Definition c_nat : codec nat.
Proof. refine (c_iso N.of_nat N.to_nat _ c_N). apply Nnat.Nat2N.id. Defined.

(** An enumeration, by position in a list of its constructors. *)
Definition position {A} `{EqDecision A} (a : A) (l : list A) : nat :=
  default 0 (fst <$> list_find (a =.) l).

Definition c_enum {A} `{EqDecision A} (l : list A)
    (Hl : ∀ a, l !! position a l = Some a) (d : A) : codec A.
Proof.
  refine (c_iso (λ a, position a l) (λ n, default d (l !! n)) _ c_nat).
  intros a. by rewrite Hl.
Defined.

Definition c_map {A} (c : codec A) : codec (gmap string A).
Proof.
  refine (c_iso map_to_list list_to_map _ (c_list (c_pair c_str c))).
  intros m. apply list_to_map_to_list.
Defined.

(** ** Values *)

Fixpoint height (j : json) : nat :=
  match j with
  | JArr l => S (foldr (λ x n, Nat.max (height x) n) 0 l)
  | JObj l => S (foldr (λ x n, Nat.max (height (snd x)) n) 0 l)
  | _ => 1
  end.

Fixpoint enc_json (j : json) : string :=
  match j with
  | JNull => "n"
  | JBool b => String "b" (enc c_bool b)
  | JNum z => String "z" (enc c_Z z)
  | JStr s => String "s" s
  | JArr l => String "a" (enc_strs (map enc_json l))
  | JObj l => String "o" (enc_strs (map (λ kv, enc_strs [fst kv; enc_json (snd kv)]) l))
  end.

Fixpoint dec_json (fuel : nat) (s : string) : option json :=
  match fuel, s with
  | S fuel, String c r =>
      if Ascii.eqb c "n" then Some JNull
      else if Ascii.eqb c "b" then JBool <$> dec c_bool r
      else if Ascii.eqb c "z" then JNum <$> dec c_Z r
      else if Ascii.eqb c "s" then Some (JStr r)
      else if Ascii.eqb c "a" then JArr <$> (dec_all r ≫= mapM (dec_json fuel))
      else if Ascii.eqb c "o" then
        JObj <$> (dec_all r ≫= mapM (λ t, l ← dec_all t;
                    match l with
                    | [k; v] => j ← dec_json fuel v; Some (k, j)
                    | _ => None
                    end))
      else None
  | _, _ => None
  end.

Lemma foldr_max_elem {A} (f : A → nat) l x n :
  x ∈ l → foldr (λ x n, Nat.max (f x) n) 0 l ≤ n → f x ≤ n.
Proof.
  induction l as [|y l IH]; [by intros ?%not_elem_of_nil|].
  simpl. intros [->|Hx]%elem_of_cons Hn; [lia|]. apply IH; [done|lia].
Qed.

Lemma mapM_some {A B} (f : A → option B) (g : B → A) l :
  (∀ b, b ∈ l → f (g b) = Some b) → mapM f (map g l) = Some l.
Proof.
  induction l as [|b l IH]; intros Hf; simpl; [done|].
  rewrite Hf by left. simpl. rewrite IH; [done|]. intros. apply Hf. by right.
Qed.

Lemma dec_enc_json fuel j : height j ≤ fuel → dec_json fuel (enc_json j) = Some j.
Proof.
  revert j. induction fuel as [|fuel IH]; intros j Hh; [destruct j; simpl in Hh; lia|].
  destruct j as [|b|z|s|l|l]; simpl; try done.
  - by rewrite (dec_enc c_bool).
  - by rewrite (dec_enc c_Z).
  - rewrite dec_all_enc. simpl. rewrite mapM_some; [done|].
    intros x Hx. apply IH. simpl in Hh. apply (foldr_max_elem height l); [done|lia].
  - rewrite dec_all_enc. simpl. rewrite mapM_some; [done|].
    intros [k v] Hx. rewrite dec_all_enc. simpl. rewrite IH; [done|].
    simpl in Hh. apply (foldr_max_elem (λ x, height (snd x)) l (k, v)); [done|lia].
Qed.

Lemma length_elem_strs (l : list string) s :
  s ∈ l → String.length s ≤ String.length (enc_strs l).
Proof.
  unfold enc_strs. induction l as [|t l IH]; [by intros ?%not_elem_of_nil|].
  simpl. rewrite str_length_app. intros [->|Hs]%elem_of_cons.
  - unfold frame_str. rewrite str_length_app. lia.
  - specialize (IH Hs). lia.
Qed.

Lemma foldr_max_le {A} (f : A → nat) l n :
  (∀ x, x ∈ l → f x ≤ n) → foldr (λ x n, Nat.max (f x) n) 0 l ≤ n.
Proof.
  induction l as [|y l IH]; intros Hf; simpl; [lia|].
  apply Nat.max_lub; [apply Hf; left|]. apply IH. intros. apply Hf. by right.
Qed.

Lemma height_length j : height j ≤ String.length (enc_json j).
Proof.
  remember (height j) as n eqn:Hn. rewrite Hn.
  assert (Hle : height j ≤ n) by lia. clear Hn. revert j Hle.
  induction n as [|n IH]; intros j Hle; [destruct j; simpl in Hle; lia|].
  destruct j as [|b|z|s|l|l]; simpl; try lia; apply le_n_S, foldr_max_le; intros x Hx.
  - etrans; [apply IH|].
    + simpl in Hle. apply (foldr_max_elem height l); [done|lia].
    + apply length_elem_strs. by apply (list_elem_of_fmap_2 enc_json).
  - destruct x as [k v]. simpl. etrans; [apply IH|].
    + simpl in Hle. apply (foldr_max_elem (λ x, height (snd x)) l (k, v)); [done|lia].
    + etrans; [apply (length_elem_strs [k; enc_json v]); set_solver|].
      apply length_elem_strs.
      by apply (list_elem_of_fmap_2 (λ kv : string * json, enc_strs [fst kv; enc_json (snd kv)])) in Hx.
Qed.

Definition c_json : codec json.
Proof.
  refine {| enc := enc_json; dec := λ s, dec_json (String.length s) s |}.
  intros j. apply dec_enc_json, height_length.
Defined.

(** * Concrete instances for closed examples

    The codecs of the persisted types, the instances of [Serde] and [Codecs]
    they give, and an instance of [Sys].  The examples and witnesses of the
    property files are evaluated with them. *)

(** ** Lines *)

Definition nibble (n : N) : ascii := ascii_of_N (97 + n).
Definition hexify (s : string) : string :=
  of_bytes (concat (map (λ c, [nibble (code c / 16); nibble (code c mod 16)]) (bytes s))).

Fixpoint unhex_go (l : list ascii) : list ascii :=
  match l with
  | a :: b :: l' => ascii_of_N ((code a - 97) * 16 + (code b - 97)) :: unhex_go l'
  | _ => []
  end.
Definition unhexify (s : string) : string := of_bytes (unhex_go (bytes s)).

Lemma unhex_byte c :
  ascii_of_N ((code (nibble (code c / 16)) - 97) * 16 + (code (nibble (code c mod 16)) - 97))
  = c.
Proof. by destruct c as [[] [] [] [] [] [] [] []]. Qed.

Lemma unhexify_hexify s : unhexify (hexify s) = s.
Proof.
  unfold unhexify, hexify. rewrite bytes_of_bytes. apply (inj bytes).
  rewrite bytes_of_bytes. induction (bytes s) as [|c l IH]; [done|].
  cbn [map concat app unhex_go]. by rewrite unhex_byte, IH.
Qed.

(** A letter of the encoding: printable, not a space, one byte. *)
Definition letter (c : ascii) : bool := (65 <=? code c)%N && (code c <=? 112)%N.

Lemma nibble_letter n : (n < 16)%N → letter (nibble n) = true.
Proof.
  intros Hn. assert (Hc : code (nibble n) = (97 + n)%N).
  { unfold code, nibble. apply N_ascii_embedding. lia. }
  unfold letter. rewrite Hc. apply andb_true_iff. split; apply N.leb_le; lia.
Qed.

Lemma hexify_letters s c : c ∈ bytes (hexify s) → letter c = true.
Proof.
  unfold hexify. rewrite bytes_of_bytes. induction (bytes s) as [|d l IH]; simpl; [set_solver|].
  assert (Hd : (code d < 256)%N) by apply N_ascii_bounded.
  rewrite !elem_of_cons. intros [->|[->|Hc]]; [..|auto]; apply nibble_letter.
  - by apply N.Div0.div_lt_upper_bound.
  - by apply N.mod_lt.
Qed.

Definition line_of (s : string) : string := String "L" (hexify s).

Lemma line_of_letters s c : c ∈ bytes (line_of s) → letter c = true.
Proof. simpl. intros [->|Hc]%elem_of_cons; [done|]. by apply (hexify_letters s). Qed.

Lemma letter_tests c : letter c = true →
  ws1 c = false ∧ (∀ d, ws2 d c = false) ∧ (∀ d e, ws3 d e c = false).
Proof.
  unfold letter. intros [H1%N.leb_le H2%N.leb_le]%andb_true_iff.
  assert (Hlt : ∀ n, (112 < n)%N → (code c =? n)%N = false) by (intros; apply N.eqb_neq; lia).
  assert (H128 : (128 <=? code c)%N = false) by (apply N.leb_gt; lia).
  split_and!.
  - unfold ws1. apply orb_false_iff. split; [apply andb_false_iff; right; apply N.leb_gt; lia|].
    apply N.eqb_neq. lia.
  - intros d. unfold ws2. rewrite !Hlt by lia. by rewrite andb_false_r.
  - intros d e. unfold ws3. rewrite !Hlt, H128 by lia. simpl.
    by rewrite !andb_false_r.
Qed.

Lemma ltrim_rev_letter c l : letter c = true → ltrim_rev (c :: l) = c :: l.
Proof.
  intros (H1 & H2 & H3)%letter_tests. simpl. rewrite H1.
  destruct l as [|d l]; [done|]. rewrite H2. destruct l as [|e l]; [done|]. by rewrite H3.
Qed.

Lemma line_of_not_blank s : is_blank (line_of s) = false.
Proof.
  apply bool_decide_eq_false_2. unfold trim.
  assert (Hl : ltrim (bytes (line_of s)) = bytes (line_of s)).
  { unfold line_of. simpl. destruct (bytes (hexify s)) as [|d [|e l]]; done. }
  rewrite Hl. unfold rtrim. intros Heq%(f_equal bytes). rewrite bytes_of_bytes in Heq.
  change (bytes "") with (@nil ascii) in Heq. apply (f_equal reverse) in Heq. rewrite reverse_involutive in Heq.
  destruct (reverse (bytes (line_of s))) as [|c l] eqn:Hr.
  - apply (f_equal reverse) in Hr. by rewrite reverse_involutive in Hr.
  - rewrite ltrim_rev_letter in Heq; [done|]. apply (line_of_letters s).
    rewrite <- (reverse_involutive (bytes (line_of s))), Hr. apply elem_of_reverse. left.
Qed.

Lemma ascii_utf8 l : (∀ c, c ∈ l → letter c = true) → utf8_valid_go 0 l = true.
Proof.
  induction l as [|c l IH]; intros Hl; [done|]. cbn [utf8_valid_go].
  assert (Hs : utf8_step c l = inr 1).
  { unfold utf8_step. replace (utf8_in 0 127 c) with true; [done|].
    assert (Hc : letter c = true) by (apply Hl; left). unfold letter in Hc. to_prop.
    symmetry. apply andb_true_iff. split; apply N.leb_le; lia. }
  rewrite Hs. apply IH. intros. apply Hl. by right.
Qed.

(** ** Instances of [Serde] *)

Definition serde_of {A} (c : codec A) : Serde A := {|
  to_vec_pretty := enc c;
  from_slice := dec c;
  to_line a := line_of (enc c a);
  from_line s := match s with String _ r => dec c (unhexify r) | EmptyString => None end
|}.

Lemma serde_of_ok {A} (c : codec A) : @SerdeOk A (serde_of c).
Proof.
  split; simpl.
  - apply dec_enc.
  - intros a. by rewrite unhexify_hexify, dec_enc.
  - intros a Hn. by apply (line_of_letters (enc c a)) in Hn.
  - intros a Hn. by apply (line_of_letters (enc c a)) in Hn.
  - intros a. apply line_of_not_blank.
  - intros a. apply ascii_utf8, line_of_letters.
Qed.

(** ** Codecs of the persisted types *)

Definition c_path : codec path := c_list c_str.

Definition c_task_status : codec TaskStatus :=
  c_enum [Created; PreparingWorkspace; WorkspaceReady; AgentQueued; AgentRunning;
          AgentInterrupted; AgentFailed; ChangesDetected; SummaryReady; ReviewPending;
          Reviewing; ReviewBlocked; ReviewPassed; ReviewFailed; TestingPending;
          TestingRunning; TestingPassed; TestingFailed; MergeQueued; MergeReady; Merging;
          Merged; RollbackAvailable; RollingBack; RollbackFailed; WorkspaceConflict;
          MergeConflict; EnvironmentBroken; Superseded; Abandoned; Archived]
    ltac:(by intros []) Created.

Definition c_file_status : codec ChangedFileStatus :=
  c_enum [Added; Modified; Deleted] ltac:(by intros []) Added.

Definition c_changed_file : codec ChangedFile :=
  c_iso (λ c, (cf_path c, (cf_status c, (before_hash c, (after_ai_hash c,
           (after_merge_hash c, (merged_hunks c, (accepted c, merge_status c))))))))
    (λ '(a, (b, (c, (d, (e, (f, (g, h))))))), {|
       cf_path := a; cf_status := b; before_hash := c; after_ai_hash := d;
       after_merge_hash := e; merged_hunks := f; accepted := g; merge_status := h |})
    ltac:(by intros [])
    (c_pair c_str (c_pair c_file_status (c_pair (c_option c_str) (c_pair (c_option c_str)
       (c_pair (c_option c_str) (c_pair (c_option (c_list c_N)) (c_pair c_bool c_str))))))).

Definition c_strategy : codec WorkspaceStrategy :=
  c_enum [Auto; Worktree; Copy] ltac:(by intros []) Auto.

Definition c_settings : codec ProjectSettings :=
  c_iso (λ s, (workspace_strategy s, (keep_days s, (require_review s, (require_tests s,
           (protect_sensitive_files s, default_test_commands s))))))
    (λ '(a, (b, (c, (d, (e, f))))), {|
       workspace_strategy := a; keep_days := b; require_review := c; require_tests := d;
       protect_sensitive_files := e; default_test_commands := f |})
    ltac:(by intros [])
    (c_pair c_strategy (c_pair c_N (c_pair c_bool (c_pair c_bool
       (c_pair c_bool (c_list c_str)))))).

Definition c_project : codec ProjectRecord :=
  c_iso (λ p, (proj_id p, (proj_name p, (root_path p, (proj_created_at p,
           (proj_updated_at p, (git_root p, (default_branch p, settings p))))))))
    (λ '(a, (b, (c, (d, (e, (f, (g, h))))))), {|
       proj_id := a; proj_name := b; root_path := c; proj_created_at := d;
       proj_updated_at := e; git_root := f; default_branch := g; settings := h |})
    ltac:(by intros [])
    (c_pair c_str (c_pair c_str (c_pair c_path (c_pair c_Z (c_pair c_Z
       (c_pair (c_option c_path) (c_pair (c_option c_str) c_settings))))))).

Definition c_task : codec TaskRecord :=
  c_iso (λ t, (task_id t, (task_project_id t, (task_title t, (task_status t,
           (task_original_root t, (task_workspace_root t, (task_created_at t,
           (task_updated_at t, (task_completed_at t, (task_manifest_path t,
           task_summary_path t)))))))))))
    (λ '(a, (b, (c, (d, (e, (f, (g, (h, (i, (j, k)))))))))), {|
       task_id := a; task_project_id := b; task_title := c; task_status := d;
       task_original_root := e; task_workspace_root := f; task_created_at := g;
       task_updated_at := h; task_completed_at := i; task_manifest_path := j;
       task_summary_path := k |})
    ltac:(by intros [])
    (c_pair c_str (c_pair c_str (c_pair c_str (c_pair c_task_status (c_pair c_path
       (c_pair c_path (c_pair c_Z (c_pair c_Z (c_pair (c_option c_Z)
       (c_pair c_path c_path)))))))))).

Definition c_mount : codec SharedPathMount :=
  c_iso (λ m, (mount_kind m, (mount_source m, (target_hint m, read_only m))))
    (λ '(a, (b, (c, d))), {|
       mount_kind := a; mount_source := b; target_hint := c; read_only := d |})
    ltac:(by intros [])
    (c_pair (c_enum [VirtualEnv; NodeModules; Toolchain; Cache; Wrapper; OtherShared]
               ltac:(by intros []) VirtualEnv)
       (c_pair c_path (c_pair (c_option c_path) c_bool))).

Definition c_tool : codec DetectedTool :=
  c_iso (λ t, (ecosystem t, (tool_name t, (executable t, version_hint t))))
    (λ '(a, (b, (c, d))), {|
       ecosystem := a; tool_name := b; executable := c; version_hint := d |})
    ltac:(by intros [])
    (c_pair c_str (c_pair c_str (c_pair c_path (c_option c_str)))).

Definition c_validation : codec EnvironmentValidation :=
  c_iso (λ v, (is_valid v, (checked_at v, notes v)))
    (λ '(a, (b, c)), {| is_valid := a; checked_at := b; notes := c |})
    ltac:(by intros []) (c_pair c_bool (c_pair c_Z (c_list c_str))).

Definition c_binding : codec EnvironmentBinding :=
  c_iso (λ b, (profile_id b, (eb_project_id b, (eb_workspace_root b, (environment_root b,
           (eb_strategy b, (fingerprint b, (detected_at b, (env_vars b, (path_entries b,
           (shared_paths b, (detected_tools b, validation b))))))))))))
    (λ '(a, (b, (c, (d, (e, (f, (g, (h, (i, (j, (k, l))))))))))), {|
       profile_id := a; eb_project_id := b; eb_workspace_root := c; environment_root := d;
       eb_strategy := e; fingerprint := f; detected_at := g; env_vars := h;
       path_entries := i; shared_paths := j; detected_tools := k; validation := l |})
    ltac:(by intros [])
    (c_pair c_str (c_pair c_str (c_pair c_path (c_pair c_path
       (c_pair (c_enum [InheritProject; InheritTask; RebindAuto; ManualProfile]
                  ltac:(by intros []) InheritProject)
       (c_pair c_str (c_pair c_Z (c_pair (c_map c_str) (c_pair (c_list c_path)
       (c_pair (c_list c_mount) (c_pair (c_list c_tool) c_validation))))))))))).

Definition c_manifest : codec TaskManifest :=
  c_iso (λ m, (m_task_id m, (m_project_id m, (original_root m, (workspace_root m,
           (m_created_at m, (m_updated_at m, (m_status m, (base_revision m,
           (environment_binding m, changed_files m))))))))))
    (λ '(a, (b, (c, (d, (e, (f, (g, (h, (i, j))))))))), {|
       m_task_id := a; m_project_id := b; original_root := c; workspace_root := d;
       m_created_at := e; m_updated_at := f; m_status := g; base_revision := h;
       environment_binding := i; changed_files := j |})
    ltac:(by intros [])
    (c_pair c_str (c_pair c_str (c_pair c_path (c_pair c_path (c_pair c_Z (c_pair c_Z
       (c_pair c_task_status (c_pair (c_option c_str) (c_pair (c_option c_binding)
       (c_list c_changed_file)))))))))).

Definition c_conversation : codec ConversationBinding :=
  c_iso (λ b, (cb_project_id b, (cb_conversation_id b, (active_task_id b,
           (cb_created_at b, cb_updated_at b)))))
    (λ '(a, (b, (c, (d, e)))), {|
       cb_project_id := a; cb_conversation_id := b; active_task_id := c;
       cb_created_at := d; cb_updated_at := e |})
    ltac:(by intros [])
    (c_pair c_str (c_pair c_str (c_pair (c_option c_str) (c_pair c_Z c_Z)))).

Definition c_event : codec TimelineEvent :=
  c_iso (λ e, (ev_id e, (ev_task_id e, (ev_seq e, (ev_kind e, (ev_created_at e,
           ev_payload e))))))
    (λ '(a, (b, (c, (d, (e, f))))), {|
       ev_id := a; ev_task_id := b; ev_seq := c; ev_kind := d; ev_created_at := e;
       ev_payload := f |})
    ltac:(by intros [])
    (c_pair c_str (c_pair c_str (c_pair c_N (c_pair
       (c_enum [WorkspaceCreated; AgentStarted; AgentCompleted; AgentPlan; AgentNote;
                FileRead; FileEditStarted; FileEditCompleted; DiffGenerated; DiffUpdated;
                CommandStarted; CommandOutput; CommandCompleted; ReviewCompleted;
                TestStarted; TestCompleted; MergeStarted; MergeCompleted;
                RollbackCompleted; ErrorEvent; SummaryGenerated]
          ltac:(by intros []) ErrorEvent) (c_pair c_Z c_json))))).

Definition c_run_kind : codec CommandExecutionKind :=
  c_enum [Generic; TestKind] ltac:(by intros []) Generic.
Definition c_run_status : codec CommandRunStatus :=
  c_enum [Running; Succeeded; Failed] ltac:(by intros []) Running.

Definition c_run : codec CommandRunRecord :=
  c_iso (λ r, (run_id r, (run_task_id r, (run_kind r, (run_title r, (run_command r,
           (run_cwd r, (environment_profile r, (environment_fingerprint r,
           (run_retry_of r, (started_at r, (run_completed_at r, (run_status r,
           (run_exit_code r, (stdout_path r, (stderr_path r, (stdout_bytes r,
           (stderr_bytes r, (diagnosis r, (failure_summary r, next_step r))))))))))))))))))))
    (λ '(a, (b, (c, (d, (e, (f, (g, (h, (i, (j, (k, (l, (m, (n, (o, (p, (q, (r, (s, t))))))))))))))))))), {|
       run_id := a; run_task_id := b; run_kind := c; run_title := d; run_command := e;
       run_cwd := f; environment_profile := g; environment_fingerprint := h;
       run_retry_of := i; started_at := j; run_completed_at := k; run_status := l;
       run_exit_code := m; stdout_path := n; stderr_path := o; stdout_bytes := p;
       stderr_bytes := q; diagnosis := r; failure_summary := s; next_step := t |})
    ltac:(by intros [])
    (c_pair c_str (c_pair c_str (c_pair c_run_kind (c_pair (c_option c_str) (c_pair c_str
       (c_pair c_path (c_pair (c_option c_str) (c_pair (c_option c_str)
       (c_pair (c_option c_str) (c_pair c_Z (c_pair (c_option c_Z) (c_pair c_run_status
       (c_pair (c_option c_Z) (c_pair c_path (c_pair c_path (c_pair c_N (c_pair c_N
       (c_pair (c_option c_str) (c_pair (c_option c_str) (c_option c_str)))))))))))))))))))).

Definition c_candidate : codec CandidateMemory :=
  c_iso (λ c, (cm_kind c, (cm_title c, (cm_detail c, evidence_paths c))))
    (λ '(a, (b, (c, d))), {|
       cm_kind := a; cm_title := b; cm_detail := c; evidence_paths := d |})
    ltac:(by intros []) (c_pair c_str (c_pair c_str (c_pair c_str (c_list c_str)))).

Definition c_candidate_record : codec CandidateMemoryRecord :=
  c_iso (λ c, (cmr_id c, (candidate c, cmr_status c)))
    (λ '(a, (b, c)), {| cmr_id := a; candidate := b; cmr_status := c |})
    ltac:(by intros [])
    (c_pair c_str (c_pair c_candidate
       (c_enum [Pending; Same; CompatibleUpdate; Conflict] ltac:(by intros []) Pending))).

Definition c_summary : codec StructuredTaskSummary :=
  c_iso (λ s, (sum_task_id s, (user_goal s, (ai_result s, (files_changed s, (decisions s,
           (sum_tests s, (risks s, (blockers s, (recovery_hints s,
           candidate_memory s))))))))))
    (λ '(a, (b, (c, (d, (e, (f, (g, (h, (i, j))))))))), {|
       sum_task_id := a; user_goal := b; ai_result := c; files_changed := d;
       decisions := e; sum_tests := f; risks := g; blockers := h; recovery_hints := i;
       candidate_memory := j |})
    ltac:(by intros [])
    (c_pair c_str (c_pair c_str (c_pair c_str (c_pair (c_list c_str) (c_pair (c_list c_str)
       (c_pair (c_list c_str) (c_pair (c_list c_str) (c_pair (c_list c_str)
       (c_pair (c_list c_str) (c_list c_candidate)))))))))).

Definition c_memory : codec ProjectMemoryRecord :=
  c_iso (λ p, (pm_id p, (pm_kind p, (pm_title p, (pm_detail p, (pm_evidence_paths p,
           pm_updated_at p))))))
    (λ '(a, (b, (c, (d, (e, f))))), {|
       pm_id := a; pm_kind := b; pm_title := c; pm_detail := d; pm_evidence_paths := e;
       pm_updated_at := f |})
    ltac:(by intros [])
    (c_pair c_str (c_pair c_str (c_pair c_str (c_pair c_str (c_pair (c_list c_str) c_Z))))).

Definition c_traceback : codec TracebackEntry :=
  c_iso (λ e, (tb_path e, (original_hash e, (workspace_hash e, (revision e,
           (tb_created_at e, tb_updated_at e))))))
    (λ '(a, (b, (c, (d, (e, f))))), {|
       tb_path := a; original_hash := b; workspace_hash := c; revision := d;
       tb_created_at := e; tb_updated_at := f |})
    ltac:(by intros [])
    (c_pair c_str (c_pair (c_option c_str) (c_pair (c_option c_str) (c_pair c_N
       (c_pair c_Z c_Z))))).

Definition c_issue : codec ReviewIssue :=
  c_iso (λ i, (severity i, (ri_path i, ri_message i)))
    (λ '(a, (b, c)), {| severity := a; ri_path := b; ri_message := c |})
    ltac:(by intros [])
    (c_pair (c_enum [Info; Warning; High] ltac:(by intros []) Info)
       (c_pair (c_option c_str) c_str)).

Definition c_report : codec ReviewReport :=
  c_iso (λ r, (disposition r, (issues r, rr_summary r)))
    (λ '(a, (b, c)), {| disposition := a; issues := b; rr_summary := c |})
    ltac:(by intros [])
    (c_pair (c_enum [Informational; NeedsUserApproval; Blocked] ltac:(by intros [])
               Informational)
       (c_pair (c_list c_issue) c_str)).

Definition c_test : codec TestOutcome :=
  c_iso (λ t, (command_run_id t, (to_command t, (to_environment t, (to_status t,
           (to_exit_code t, (to_stdout_path t, to_stderr_path t)))))))
    (λ '(a, (b, (c, (d, (e, (f, g)))))), {|
       command_run_id := a; to_command := b; to_environment := c; to_status := d;
       to_exit_code := e; to_stdout_path := f; to_stderr_path := g |})
    ltac:(by intros [])
    (c_pair c_str (c_pair c_str (c_pair c_str (c_pair c_str (c_pair (c_option c_Z)
       (c_pair c_path c_path)))))).

#[global] Instance demo_codecs : Codecs := {|
  serde_project := serde_of c_project;
  serde_task := serde_of c_task;
  serde_manifest := serde_of c_manifest;
  serde_conversation := serde_of c_conversation;
  serde_event := serde_of c_event;
  serde_run := serde_of c_run;
  serde_summary := serde_of c_summary;
  serde_candidates := serde_of (c_list c_candidate_record);
  serde_memory := serde_of (c_map c_memory);
  serde_traceback := serde_of (c_map c_traceback);
  serde_review := serde_of c_report;
  serde_test := serde_of c_test;
  serde_value := serde_of c_json
|}.

#[global] Instance demo_task_ok : SerdeOk TaskRecord := serde_of_ok _.
#[global] Instance demo_manifest_ok : SerdeOk TaskManifest := serde_of_ok _.
#[global] Instance demo_conversation_ok : SerdeOk ConversationBinding := serde_of_ok _.
#[global] Instance demo_event_ok : SerdeOk TimelineEvent := serde_of_ok _.
#[global] Instance demo_run_ok : SerdeOk CommandRunRecord := serde_of_ok _.
#[global] Instance demo_candidates_ok : SerdeOk (list CandidateMemoryRecord) :=
  serde_of_ok _.
#[global] Instance demo_memory_ok : SerdeOk (gmap string ProjectMemoryRecord) :=
  serde_of_ok _.
#[global] Instance demo_traceback_ok : SerdeOk TracebackIndex := serde_of_ok _.

(** ** An instance of [Sys]

    The digest is an injective encoding, the clock counts, identifiers are
    numbered, there is no [git], and the shell prints one line. *)
#[global] Instance demo_sys : Sys := {|
  sha256_hex := hexify;
  utc_now n := (Z.of_nat n * 1000000000)%Z;
  format_minute _ := "2026-01-01_0000";
  uuid_v4 n := "id-" +:+ pretty n;
  env_var _ := None;
  git_run _ _ fs := (inl NotFound, fs);
  shell_run _ _ _ fs :=
    (inr ([PipeLine true ("ok" +:+ nl); PipeClosed; PipeClosed], Some 0%Z), fs);
  toml_shell_policy _ _ := Some ""
|}.
