(* ===== verification/Demo.v ===== *)
(** * The engine on concrete inputs *)

From S2P Require Import Prelude RustStr FsModel World Models FsFacts Frame Fsx.
From S2P Require Import Workspace Diff Changes Engine Exec FsxProps Layout.
From S2P Require Import MergeFacts ChangesProps Concrete.

(** * A demonstration task

    A project is registered and a task created by the modelled code itself,
    then the workspace is edited; the result is the world in which the
    witnesses of the engine's theorems are evaluated.  Boolean checks of the
    layout and of the invariants, with their soundness, let the hypotheses of
    those theorems be discharged by computation. *)

Definition demo_core : CodexNewCore := {| state_root := ["state"] |}.
Definition demo_root : path := ["home"; "user"; "proj"].

Definition demo_settings : ProjectSettings := {|
  workspace_strategy := Copy; keep_days := 30; require_review := true;
  require_tests := false; protect_sensitive_files := true;
  default_test_commands := ["make test"] |}.

Definition demo_fs0 : fsys := list_to_map [
  (["home"], Dir); (["home"; "user"], Dir); (demo_root, Dir);
  (demo_root ++ ["src"], Dir);
  (demo_root ++ ["a.txt"], File "old");
  (demo_root ++ ["gone.txt"], File "to delete");
  (demo_root ++ ["src"; "b.txt"], File "same");
  (["state"], Dir)].

(** Register, create a task, edit its workspace. *)
Definition demo_setup : R (TaskRecord * TaskManifest) :=
  project ← register_project demo_core demo_root demo_settings;
  created ← create_task demo_core project "demo";
  let ws := workspace_root (snd (created : TaskRecord * TaskManifest)) in
  _ ← write (ws ++ ["a.txt"]) "new";
  _ ← remove_file (ws ++ ["gone.txt"]);
  _ ← write (ws ++ ["src"; "c.txt"]) "added";
  mret created.

Definition demo_result := demo_setup (World demo_fs0 0 0).
Definition demo_world : world := snd demo_result.

Definition created_manifest (r : outcome CodexNewError (TaskRecord * TaskManifest))
  : TaskManifest :=
  match r with
  | Ok created => snd created
  | _ => {| m_task_id := ""; m_project_id := ""; original_root := []; workspace_root := [];
            m_created_at := 0; m_updated_at := 0; m_status := Created;
            base_revision := None; environment_binding := None; changed_files := [] |}
  end.
Definition demo_manifest : TaskManifest :=
  Eval vm_compute in created_manifest (fst demo_result).

(** ** Checking the invariants *)

Definition proper_prefixes (p : path) : list path :=
  map (λ n, take n p) (seq 1 (length p - 1)).

Definition entry_ok (fs : fsys) (e : path * node) : bool :=
  negb (bool_decide (fst e = [])) &&
  match snd e with Link _ => false | _ => true end &&
  forallb (λ q, bool_decide (fs !! q = Some Dir)) (proper_prefixes (fst e)).

Definition check_fs (fs : fsys) : bool := forallb (entry_ok fs) (map_to_list fs).

Lemma check_fs_entry fs p n :
  check_fs fs = true → fs !! p = Some n → entry_ok fs (p, n) = true.
Proof.
  unfold check_fs. rewrite forallb_forall. intros Hc Hp. apply Hc.
  by apply list_elem_of_In, elem_of_map_to_list.
Qed.

Lemma check_fs_ok fs : check_fs fs = true → fs_ok no_links fs.
Proof.
  intros Hc. split.
  - intros p q n Hp [k Hk] Hne Hq0. apply (check_fs_entry fs p n Hc) in Hp.
    unfold entry_ok in Hp. apply andb_true_iff in Hp as [_ Hp].
    rewrite forallb_forall in Hp. apply (bool_decide_eq_true_1 _), Hp. simpl.
    subst p. unfold proper_prefixes.
    apply in_map_iff. exists (length q). split; [apply take_app_length|].
    apply in_seq. rewrite length_app. destruct q; [done|]. destruct k; [|simpl; lia].
    by rewrite app_nil_r in Hne.
  - intros p t Hp. apply (check_fs_entry fs p _ Hc) in Hp. unfold entry_ok in Hp.
    to_prop. done.
  - destruct (fs !! []) as [n|] eqn:Hn; [|done].
    apply (check_fs_entry fs [] n Hc) in Hn. done.
Qed.

Section check.
Context `{Codecs} (self : CodexNewCore) (pid tid : string).

Definition check_inv (e : path * node) : bool :=
  match strip_path (task_path self pid tid []) (fst e) with
  | None => true
  | Some l =>
      match snd e with
      | Dir => negb (snap_name l)
      | File s =>
          if bool_decide (l = ["task.json"]) then
            match from_slice s with
            | Some t => String.eqb (task_id t) tid
            | None => true
            end
          else true
      | Link _ => true
      end
  end.

Lemma check_inv_ok q n : check_inv (q, n) = true → task_inv self pid tid q n.
Proof.
  assert (Hs : ∀ l, strip_path (task_path self pid tid []) (task_path self pid tid l) = Some l).
  { intros l. apply strip_path_Some. by rewrite task_path_app. }
  intros Hc. unfold check_inv in Hc. simpl in Hc. split.
  - intros s t -> -> Ht. rewrite Hs, Ht in Hc. by apply String.eqb_eq in Hc.
  - intros l -> ->. rewrite Hs in Hc. by apply negb_true_iff.
Qed.

Definition check_store (fs : fsys) : bool :=
  check_fs fs && forallb check_inv (map_to_list fs).

Lemma check_store_ok fs : check_store fs = true → store_ok no_links (task_inv self pid tid) fs.
Proof.
  unfold check_store. intros [Hf Hi]%andb_true_iff. split; [by apply check_fs_ok|].
  intros p n Hp. apply check_inv_ok. rewrite forallb_forall in Hi. apply Hi.
  by apply list_elem_of_In, elem_of_map_to_list.
Qed.
End check.

Definition no_prefix (r r' : path) : bool :=
  negb (bool_decide (r `prefix_of` r')) && negb (bool_decide (r' `prefix_of` r)).

Lemma no_prefix_apart r r' : no_prefix r r' = true → apart r r'.
Proof. unfold no_prefix. intros Hp. by to_prop. Qed.

Definition check_layout (self : CodexNewCore) (m : TaskManifest) : bool :=
  plain_name (m_project_id m) && plain_name (m_task_id m) &&
  forallb (λ c, negb (String.eqb c ".."))
    (state_root self ++ original_root m ++ workspace_root m) &&
  no_prefix (original_root m) (state_root self ++ ["projects"]) &&
  no_prefix (workspace_root m) (state_root self ++ ["projects"]) &&
  no_prefix (original_root m) (workspace_root m).

Lemma check_layout_ok self m : check_layout self m = true → task_layout self no_links m.
Proof.
  unfold check_layout. intros Hc. to_prop.
  match goal with H : forallb _ _ = true |- _ =>
    rewrite !forallb_app in H; to_prop end.
  assert (Hd : ∀ r, forallb (λ c, negb (String.eqb c "..")) r = true → no_dotdot r).
  { intros r Hr. rewrite forallb_forall in Hr. apply Forall_forall. intros x Hx.
    apply list_elem_of_In, Hr, negb_true_iff, String.eqb_neq in Hx. done. }
  assert (Hcl : ∀ r k, forallb (λ c, negb (String.eqb c "..")) r = true → no_dotdot k →
            clear no_links (r ++ k)).
  { intros r k Hr Hk. apply clear_no_links, Forall_app. split; [by apply Hd|done]. }
  split; try by apply no_prefix_apart.
  - split; [done..|]. intros k Hk. apply Hcl; [done|]. constructor; [done|].
    constructor; [by apply plain_not_dotdot|done].
  - intros k. by apply Hcl.
  - intros k. by apply Hcl.
Qed.

Definition index_nameb (s : string) : bool :=
  plain_name s && negb (existsb (Ascii.eqb backslash) (bytes s)).

Lemma index_nameb_ok s : index_nameb s = true → index_name s.
Proof.
  unfold index_nameb. intros Hc. to_prop. split; [done|]. intros Hb.
  match goal with H : existsb _ _ = false |- _ => rewrite existsb_false_elem in H;
    specialize (H _ Hb) end. by rewrite Ascii.eqb_refl in *.
Qed.

Definition check_tree (fs : fsys) (root : path) : bool :=
  check_fs fs && bool_decide (fs !! root = Some Dir) &&
  forallb (λ c, negb (String.eqb c "..")) root &&
  forallb (λ e, match strip_path root (fst e) with
                | Some rel => forallb index_nameb rel
                | None => true
                end) (map_to_list fs).

Lemma check_tree_ok fs root : check_tree fs root = true → tree_ok fs root.
Proof.
  unfold check_tree. intros Hc. to_prop.
  match goal with H : check_fs fs = true |- _ => apply check_fs_ok in H as [Ht _ Htop] end.
  split; [done|done|done| |].
  - apply Forall_forall. intros x Hx.
    match goal with H : forallb _ root = true |- _ => rewrite forallb_forall in H;
      apply list_elem_of_In, H, negb_true_iff, String.eqb_neq in Hx end. done.
  - intros rel n Hn.
    match goal with H : forallb _ (map_to_list fs) = true |- _ =>
      rewrite forallb_forall in H; pose proof (H (root ++ rel, n)) as Hf; simpl in Hf end.
    rewrite (proj2 (strip_path_Some root (root ++ rel) rel)) in Hf by done.
    apply Forall_forall. intros x Hx. apply index_nameb_ok.
    rewrite forallb_forall in Hf. apply Hf; [|by apply list_elem_of_In].
    by apply list_elem_of_In, elem_of_map_to_list.
Qed.

(** ** The demonstration satisfies the hypotheses *)

Definition demo_pid : string := Eval vm_compute in m_project_id demo_manifest.
Definition demo_tid : string := Eval vm_compute in m_task_id demo_manifest.
Definition demo_path : path := manifest_file demo_core demo_pid demo_tid.
Definition demo_all : MergeRequest := {| mr_selection := MAll |}.

(** The manifest and the world after a refresh. *)
Definition demo_refresh := refresh_changes demo_core demo_path demo_world.
Definition demo_world1 : world := snd demo_refresh.
Definition demo_manifest1 : TaskManifest :=
  Eval vm_compute in match fst demo_refresh with Ok m => m | _ => demo_manifest end.

Lemma demo_layout : task_layout demo_core no_links demo_manifest.
Proof. apply check_layout_ok. vm_compute. reflexivity. Qed.

Lemma demo_store : store_ok no_links (task_inv demo_core demo_pid demo_tid) (w_fs demo_world).
Proof. apply check_store_ok. vm_compute. reflexivity. Qed.

Lemma demo_store1 :
  store_ok no_links (task_inv demo_core demo_pid demo_tid) (w_fs demo_world1).
Proof. apply check_store_ok. vm_compute. reflexivity. Qed.

Lemma demo_ids : m_project_id demo_manifest1 = demo_pid ∧ m_task_id demo_manifest1 = demo_tid.
Proof. split; vm_compute; reflexivity. Qed.

(** The layout of the paths of a list of changes. *)
Definition relative_dots (c : ChangedFile) : bool :=
  forallb (λ x, negb (String.eqb x "..")) (comps (cf_path c)).

Lemma check_merge_layout self m :
  check_layout self m = true → forallb relative_dots (changed_files m) = true →
  merge_layout self no_links m.
Proof.
  intros Hl Hc. apply check_layout_ok in Hl. rewrite forallb_forall in Hc.
  assert (Hd : ∀ c, c ∈ changed_files m → no_dotdot (comps (cf_path c))).
  { intros c Hin%list_elem_of_In. specialize (Hc c Hin). unfold relative_dots in Hc.
    rewrite forallb_forall in Hc. apply Forall_forall. intros x Hx.
    apply list_elem_of_In, Hc, negb_true_iff, String.eqb_neq in Hx. done. }
  destruct Hl. split; auto.
Qed.

Lemma demo_merge_layout : merge_layout demo_core no_links demo_manifest1.
Proof. apply check_merge_layout; vm_compute; reflexivity. Qed.

#[global] Instance demo_git_reads : GitDiffReads.
Proof. by intros cwd fs. Qed.

(** The change of [a.txt]. *)
Definition demo_change : ChangedFile :=
  default {| cf_path := ""; cf_status := Added; before_hash := None; after_ai_hash := None;
             after_merge_hash := None; merged_hunks := None; accepted := false;
             merge_status := "" |} (changed_files demo_manifest1 !! 1).

(** The same world after somebody else edited a file of the project. *)
Definition demo_edited : world :=
  set_fs (<[demo_root ++ ["a.txt"] := File "edited"]> (w_fs demo_world1)) demo_world1.

(** * Behaviours the model exposes

    Closed runs of the modelled engine that show where it departs from what
    the workflow promises: a merge should apply what the agent changed, a
    rollback should undo a merge, and a snapshot should belong to one file. *)

(** A task of the demonstration project for a given tree, untouched. *)
Definition fresh_task (files : list (path * node)) : outcome CodexNewError TaskManifest * world :=
  (project ← register_project demo_core demo_root demo_settings;
   created ← create_task demo_core project "demo";
   mret (snd (created : TaskRecord * TaskManifest)))
  (World (list_to_map (files ++ map_to_list demo_fs0)) 0 0).

Definition fresh_world (files : list (path * node)) : world := snd (fresh_task files).

(** The paths a refresh of an untouched task reports. *)
Definition fresh_changes (files : list (path * node)) : list (string * ChangedFileStatus) :=
  match fst (refresh_changes demo_core demo_path (fresh_world files)) with
  | Ok m => map (λ c, (cf_path c, cf_status c)) (changed_files m)
  | _ => []
  end.

Definition merged_world (files : list (path * node)) : world :=
  snd (merge demo_core demo_path demo_all (fresh_world files)).

Definition ignored_files : list (path * node) :=
  [(demo_root ++ ["node_modules"], Dir);
   (demo_root ++ ["node_modules"; "lib.js"], File "module")].

(** The copy of a project leaves out [node_modules] and the other ignored
    directories, but the comparison does not: an untouched task reports their
    files as deleted, and the generated [.codex/config.toml] as added. *)
Theorem untouched_task_reports_changes :
  fresh_changes ignored_files
  = [(".codex/config.toml", Added); ("node_modules/lib.js", Deleted)].
Proof. vm_compute. reflexivity. Qed.

(** Merging everything then deletes them from the project. *)
Theorem untouched_merge_deletes_ignored :
  is_ok (fst (merge demo_core demo_path demo_all (fresh_world ignored_files))) = true ∧
  file_of (w_fs (fresh_world ignored_files)) (demo_root ++ ["node_modules"; "lib.js"])
    = Some "module" ∧
  file_of (w_fs (merged_world ignored_files)) (demo_root ++ ["node_modules"; "lib.js"]) = None ∧
  is_Some (file_of (w_fs (merged_world ignored_files)) (demo_root ++ [".codex"; "config.toml"])).
Proof. split_and!; [vm_compute; reflexivity..|]. eexists. vm_compute. reflexivity. Qed.

(** A virtual environment is linked into the workspace: its files look deleted
    to the comparison and present to the merge, which copies each of them onto
    itself and so empties it. *)
Definition venv_files : list (path * node) :=
  [(demo_root ++ ["pyproject.toml"], File "");
   (demo_root ++ [".venv"], Dir);
   (demo_root ++ [".venv"; "bin"], Dir);
   (demo_root ++ [".venv"; "bin"; "python"], File "binary")].

Theorem linked_environment_emptied :
  is_ok (fst (merge demo_core demo_path demo_all (fresh_world venv_files))) = true ∧
  file_of (w_fs (fresh_world venv_files)) (demo_root ++ [".venv"; "bin"; "python"])
    = Some "binary" ∧
  file_of (w_fs (merged_world venv_files)) (demo_root ++ [".venv"; "bin"; "python"])
    = Some "".
Proof. split_and!; vm_compute; reflexivity. Qed.

(** A refresh after a merge forgets what was merged: the rollback that was
    available is refused. *)
Definition after_merge : world := snd (merge demo_core demo_path demo_all demo_world).
Definition after_refresh : world := snd (refresh_changes demo_core demo_path after_merge).
Definition rollback_all : RollbackRequest := {| rr_selection := RAll |}.

Theorem refresh_discards_rollback :
  is_ok (fst (rollback demo_core demo_path rollback_all after_merge)) = true ∧
  fst (rollback demo_core demo_path rollback_all after_refresh)
  = Err (Other "No merged files selected for rollback.").
Proof. split; vm_compute; reflexivity. Qed.

(** Two paths share one snapshot: rolling back both restores the wrong content
    into one of them. *)
Definition twin_files : list (path * node) :=
  [(demo_root ++ ["src__b.txt"], File "twin")].

Definition twin_world : world :=
  let w := fresh_world twin_files in
  let ws := workspace_root demo_manifest in
  set_fs (<[ws ++ ["src__b.txt"] := File "twin edited"]>
           (<[ws ++ ["src"; "b.txt"] := File "edited"]> (w_fs w))) w.

Definition twin_rolled_back : world :=
  snd (rollback demo_core demo_path rollback_all
         (snd (merge demo_core demo_path demo_all twin_world))).

Theorem snapshot_names_collide :
  encode_path "src/b.txt" = encode_path "src__b.txt" ∧
  is_ok (fst (rollback demo_core demo_path rollback_all
                (snd (merge demo_core demo_path demo_all twin_world)))) = true ∧
  file_of (w_fs twin_world) (demo_root ++ ["src"; "b.txt"]) = Some "same" ∧
  file_of (w_fs twin_rolled_back) (demo_root ++ ["src"; "b.txt"]) = Some "twin".
Proof. split_and!; vm_compute; reflexivity. Qed.

(** A hunk carries context lines, which its application drops. *)
Definition context_diff : string :=
  join_with nl ["diff --git a/a.txt b/a.txt"; "@@ -1,3 +1,3 @@"; " one"; "-two"; "+TWO";
                " three"].

Theorem hunk_context_dropped :
  (parsed ← parse_unified_diff context_diff !! "a.txt";
   apply_parsed_hunks_opt ["one"; "two"; "three"] (pf_hunks parsed) {[0%N]})
  = Some ["TWO"].
Proof. vm_compute. reflexivity. Qed.
