(* ===== verification/MergeProps.v ===== *)
(** * Properties of merge, rollback and change detection

    A merge of refreshed changes, its rollback, and the whole operation from the
    manifest on: refresh, check, apply. *)

From S2P Require Import Prelude RustStr FsModel World Models FsFacts Frame Fsx Workspace.
From S2P Require Import Activity Diff Protocol Changes Engine Memory.
From S2P Require Import Exec FsxProps Layout MergeFacts ChangesProps Concrete Demo.

Section props.
Context `{Sys} `{Codecs} `{!SerdeOk TaskRecord} `{!SerdeOk TaskManifest}.
Implicit Types (self : CodexNewCore) (Z : path → Prop) (m : TaskManifest) (w : world).

(** The files a merge request accepts. *)
Definition accepted_changes m (req : MergeRequest) : list ChangedFile :=
  selected (selected_paths (changed_files m) (mr_selection req)) (changed_files m).

Definition project_file m (c : ChangedFile) : path := original_root m ++ comps (cf_path c).
Definition workspace_file m (c : ChangedFile) : path := workspace_root m ++ comps (cf_path c).

Lemma accepted_changes_in m req c : c ∈ accepted_changes m req → c ∈ changed_files m.
Proof. intros [Hc _]%list_elem_of_In%filter_In. by apply list_elem_of_In. Qed.

(** C1: When the project, the workspace and the state directory lie apart and no
    symbolic link leads to a changed file, a merge of whole files that succeeds
    makes every accepted file of the project equal to the workspace's version (a
    file deleted in the workspace is deleted in the project), changes no other file
    of the project and no file of the workspace, and reports exactly the accepted
    paths in the order of the manifest. A directory linked into the workspace, such
    as a shared environment, is outside of this: merging its files empties them. *)
Theorem merge_applies_selection self Z m req w out w' :
  merge_layout self Z m →
  store_ok Z (task_inv self (m_project_id m) (m_task_id m)) (w_fs w) →
  hunk_selections (mr_selection req) = [] →
  merge_refreshed self (manifest_file self (m_project_id m) (m_task_id m)) req m w
    = (Ok out, w') →
  (∀ c, c ∈ accepted_changes m req →
     file_of (w_fs w') (project_file m c) = file_of (w_fs w) (workspace_file m c)) ∧
  (∀ q, under (original_root m) q →
     (∀ c, c ∈ accepted_changes m req → q ≠ project_file m c) →
     file_of (w_fs w') q = file_of (w_fs w) q) ∧
  (∀ q, under (workspace_root m) q → file_of (w_fs w') q = file_of (w_fs w) q) ∧
  accepted_paths out = map cf_path (accepted_changes m req).
Proof.
  intros Hl Hok Hh Hw. pose proof (scope_roots self Z m Hl) as (? & ? & ? & ?).
  apply (merge_refreshed_ok self Z m Hl) in Hw as [_ _ Hs Ha _ _]; [|done..].
  split_and!; [| | |done].
  - intros c Hc. rewrite Hs by (left; apply under_app).
    apply merge_all_target; [apply (ml_ow _ _ _ Hl)|done..].
  - intros q Hq Hne. rewrite Hs by (by left). by apply merge_all_other.
  - intros q Hq. rewrite Hs by (by right; left).
    apply merge_all_workspace; [apply (ml_ow _ _ _ Hl)|done..].
Qed.

(** C2: If the project's version of one accepted file no longer has the content hash
    recorded as its baseline, the merge fails, and neither the project nor the
    workspace has changed, whatever other files were selected. *)
Theorem merge_conflict_refused self Z m req w r w' c :
  merge_layout self Z m →
  store_ok Z (task_inv self (m_project_id m) (m_task_id m)) (w_fs w) →
  c ∈ accepted_changes m req →
  hash_of <$> file_of (w_fs w) (project_file m c) ≠ before_hash c →
  merge_refreshed self (manifest_file self (m_project_id m) (m_task_id m)) req m w
    = (r, w') →
  is_ok r = false ∧
  ∀ q, under (original_root m) q ∨ under (workspace_root m) q →
    file_of (w_fs w') q = file_of (w_fs w) q.
Proof.
  intros Hl Hok Hc Hne Hw.
  pose proof Hc as [Hin Hsel]%list_elem_of_In%filter_In.
  apply bool_decide_eq_true in Hsel. apply list_elem_of_In in Hin.
  apply (merge_refused self Z m Hl _ _ _ _ c) in Hw as (Hr & _ & Hk); [|done..].
  split; [done|]. intros q [Hq|Hq]; apply Hk; [by left|by right; left].
Qed.

(** The manifest a successful merge leaves behind. *)
Lemma layout_merged self Z m sel a t :
  merge_layout self Z m → merge_layout self Z (merged_manifest m sel a t).
Proof.
  intros []. split; simpl; [done..| |];
    intros c (d & -> & Hd)%list_elem_of_fmap; unfold loop_change, merged_change;
    case_bool_decide; simpl; eauto.
Qed.

(** Rolling back everything restores every accepted file. *)
Lemma restored_all m : restored m {| rr_selection := RAll |}
  = List.filter accepted (changed_files m).
Proof.
  unfold restored. apply filter_ext_in. intros c Hc. unfold to_restore.
  destruct (accepted c) eqn:Ha; [|done]. apply bool_decide_eq_true_2.
  unfold rollback_set, selected_rollback_paths. simpl.
  apply elem_of_list_to_set, list_elem_of_fmap. exists c. split; [done|].
  apply list_elem_of_In, filter_In. split; [done|]. rewrite Ha. simpl.
  apply bool_decide_eq_true_2, elem_of_list_to_set, list_elem_of_fmap. exists c.
  split; [done|]. by apply list_elem_of_In, filter_In.
Qed.

Lemma accepted_loop m sel a l :
  (∀ c, c ∈ l → accepted c = false) →
  List.filter accepted (map (loop_change m sel a) l)
  = map (merged_change m a) (selected sel l).
Proof.
  unfold selected. induction l as [|c l IH]; intros Hacc; [done|]. simpl.
  unfold loop_change at 1 2.
  assert (Hl : ∀ d, d ∈ l → accepted d = false) by (intros; apply Hacc; by right).
  destruct (bool_decide (cf_path c ∈ sel)) eqn:Hs; simpl.
  - by rewrite IH.
  - rewrite (Hacc c) by left. by rewrite IH.
Qed.

Lemma restored_merged m req a t :
  (∀ c, c ∈ changed_files m → accepted c = false) →
  restored (merged_manifest m (selected_paths (changed_files m) (mr_selection req)) a t)
    {| rr_selection := RAll |}
  = map (merged_change m a) (accepted_changes m req).
Proof. intros Hacc. rewrite restored_all. by apply accepted_loop. Qed.

Lemma restore_all_map O before (f : ChangedFile → ChangedFile) a l :
  (∀ c, cf_path (f c) = cf_path c) →
  restore_all O before a (map f l) = restore_all O before a l.
Proof.
  intros Hf. revert a. induction l as [|c l IH]; intros a; [done|].
  change (restore_all O before a (map f (c :: l)))
    with (restore_all O before (restore_put O before a (f c)) (map f l)).
  rewrite IH. unfold restore_put. by rewrite Hf.
Qed.

Lemma selected_NoDup {A} (f : ChangedFile → A) sel l :
  NoDup (map f l) → NoDup (map f (selected sel l)).
Proof.
  unfold selected. induction l as [|c l IH]; simpl; [done|]. intros [Hc Hn]%NoDup_cons.
  case_bool_decide; [|auto]. simpl. apply NoDup_cons. split; [|auto].
  intros (d & Hd & [Hin _]%list_elem_of_In%filter_In)%list_elem_of_fmap.
  apply Hc. rewrite Hd. apply (list_elem_of_fmap_2 f). by apply list_elem_of_In.
Qed.

(** C3: Rolling back everything after a merge of whole files restores every file of
    the project to what it was before the merge, and restores exactly the paths the
    merge accepted, provided no two changed paths share a snapshot name. *)
Theorem merge_rollback_roundtrip self Z m req w out w1 out2 w2 :
  merge_layout self Z m →
  store_ok Z (task_inv self (m_project_id m) (m_task_id m)) (w_fs w) →
  hunk_selections (mr_selection req) = [] →
  (∀ c, c ∈ changed_files m → accepted c = false) →
  NoDup (map (comps ∘ cf_path) (changed_files m)) →
  NoDup (map (encode_path ∘ cf_path) (changed_files m)) →
  merge_refreshed self (manifest_file self (m_project_id m) (m_task_id m)) req m w
    = (Ok out, w1) →
  rollback self (manifest_file self (m_project_id m) (m_task_id m))
    {| rr_selection := RAll |} w1 = (Ok out2, w2) →
  restored_paths out2 = accepted_paths out ∧
  ∀ q, under (original_root m) q → file_of (w_fs w2) q = file_of (w_fs w) q.
Proof.
  intros Hl Hok Hh Hacc Hn He Hw1 Hw2.
  pose proof (scope_roots self Z m Hl) as (Hr1 & Hr2 & Hr3 & Hr4).
  apply (merge_refreshed_ok self Z m Hl) in Hw1 as [Hok1 _ Hs Ha _ [t Hm]]; [|done..].
  unfold rollback in Hw2. exec Hw2 as m1 w3 Hrd. unfold read_manifest_from in Hrd.
  exec Hrd as s w4 Hs4.
  apply (read_ok_clear Z) in Hs4 as [-> Hs4];
    [|by apply (st_fs Z (task_inv self (m_project_id m) (m_task_id m)))|].
  2:{ rewrite (manifest_path_eq self _ _ (ta_pid _ _ _ _ (ml_area _ _ _ Hl))
        (ta_tid _ _ _ _ (ml_area _ _ _ Hl))).
      apply (task_clear _ _ _ _ (ml_area _ _ _ Hl)). by repeat constructor. }
  rewrite (manifest_path_eq self _ _ (ta_pid _ _ _ _ (ml_area _ _ _ Hl))
        (ta_tid _ _ _ _ (ml_area _ _ _ Hl))) in Hs4.
  rewrite Hm in Hs4. simplify_eq. apply ok_or_ok in Hrd as [Hrd ->].
  rewrite from_slice_to_vec in Hrd. simplify_eq.
  apply (rollback_manifest_ok self Z _ (layout_merged self Z m _ _ _ Hl))
    in Hw2 as (_ & _ & Hp & Hr); [|done..].
  rewrite restored_merged in Hp, Hr by done. rewrite map_map in Hp. split.
  - by rewrite Hp, Ha.
  - intros q Hq. rewrite Hr by (by left). rewrite restore_all_map by done. simpl.
    rewrite (restore_all_agree (original_root m) (workspace_root m) _ _ _ _ _ Hs)
      by (by left).
    apply restore_merge; try done; [apply (ml_ow _ _ _ Hl)|apply before_after|..];
      by apply selected_NoDup.
Qed.
End props.

(** ** Witnesses *)

Lemma merge_applies_selection_witness :
  ∃ out w', merge_refreshed demo_core demo_path demo_all demo_manifest1 demo_world1
            = (Ok out, w') ∧
    length (accepted_changes demo_manifest1 demo_all) = 4 ∧
    ∀ c, c ∈ accepted_changes demo_manifest1 demo_all →
      file_of (w_fs w') (project_file demo_manifest1 c)
      = file_of (w_fs demo_world1) (workspace_file demo_manifest1 c).
Proof.
  destruct (is_ok_split (merge_refreshed demo_core demo_path demo_all demo_manifest1
    demo_world1)) as (out & w' & Hw); [vm_compute; reflexivity|].
  exists out, w'. split; [exact Hw|]. split; [vm_compute; reflexivity|].
  exact (proj1 (merge_applies_selection demo_core no_links demo_manifest1 demo_all
    demo_world1 out w' demo_merge_layout demo_store1 eq_refl Hw)).
Defined.

Lemma merge_conflict_refused_witness :
  cf_path demo_change = "a.txt" ∧
  is_ok (fst (merge_refreshed demo_core demo_path demo_all demo_manifest1 demo_edited))
  = false.
Proof.
  split; [vm_compute; reflexivity|].
  refine (proj1 (merge_conflict_refused demo_core no_links demo_manifest1 demo_all
    demo_edited _ _ demo_change demo_merge_layout _ _ _ (surjective_pairing _))).
  - apply check_store_ok. vm_compute. reflexivity.
  - apply list_elem_of_In. vm_compute. right. left. reflexivity.
  - vm_compute. intros [=].
Defined.

Lemma merge_rollback_roundtrip_witness :
  ∃ out w1 out2 w2,
    merge_refreshed demo_core demo_path demo_all demo_manifest1 demo_world1 = (Ok out, w1) ∧
    rollback demo_core demo_path {| rr_selection := RAll |} w1 = (Ok out2, w2) ∧
    restored_paths out2 = accepted_paths out.
Proof.
  destruct (is_ok_split (merge_refreshed demo_core demo_path demo_all demo_manifest1
    demo_world1)) as (out & w1 & Hw); [vm_compute; reflexivity|].
  destruct (is_ok_split (rollback demo_core demo_path {| rr_selection := RAll |} w1))
    as (out2 & w2 & Hr).
  { replace w1 with (snd (merge_refreshed demo_core demo_path demo_all demo_manifest1
      demo_world1)) by (rewrite Hw; reflexivity). vm_compute. reflexivity. }
  exists out, w1, out2, w2. split; [exact Hw|]. split; [exact Hr|].
  refine (proj1 (merge_rollback_roundtrip demo_core no_links demo_manifest1 demo_all
    demo_world1 out w1 out2 w2 demo_merge_layout demo_store1 eq_refl _ _ _ Hw Hr)).
  - apply Forall_forall. apply (bool_decide_eq_true_1 _). vm_compute. reflexivity.
  - apply (bool_decide_eq_true_1 _). vm_compute. reflexivity.
  - apply (bool_decide_eq_true_1 _). vm_compute. reflexivity.
Defined.

(** ** From the manifest on *)

Section sync.
Context `{Sys} `{Codecs} `{!SerdeOk TaskRecord} `{!SerdeOk TaskManifest} `{!GitDiffReads}.
Implicit Types (self : CodexNewCore) (Z : path → Prop) (m : TaskManifest) (w : world).

(** The project or the workspace of a task. *)
Definition in_trees m (q : path) : Prop :=
  under (original_root m) q ∨ under (workspace_root m) q.

Lemma trees_not_task self Z m l :
  task_layout self Z m → in_trees m (task_path self (m_project_id m) (m_task_id m) l) → False.
Proof.
  intros Hl [Hq|Hq]; eapply apart_under;
    [apply (tl_orig _ _ _ Hl)|exact Hq|apply task_path_under
    |apply (tl_ws _ _ _ Hl)|exact Hq|apply task_path_under].
Qed.

(** The manifest of a task as it is stored. *)
Definition stored self m (fs : fsys) : Prop :=
  file_of fs (task_path self (m_project_id m) (m_task_id m) ["manifest.json"])
  = Some (to_vec_pretty m).

Lemma read_stored self Z m w m' w' :
  task_layout self Z m → fs_ok Z (w_fs w) → stored self m (w_fs w) →
  read_manifest_from (manifest_file self (m_project_id m) (m_task_id m)) w = (Ok m', w') →
  m' = m ∧ w' = w.
Proof.
  intros Hl Hok Hst Hw. unfold read_manifest_from in Hw.
  pose proof (ta_pid _ _ _ _ (tl_area _ _ _ Hl)) as Hp.
  pose proof (ta_tid _ _ _ _ (tl_area _ _ _ Hl)) as Ht.
  rewrite (manifest_path_eq self _ _ Hp Ht) in Hw. exec Hw as s w1 Hs.
  apply (read_ok_clear Z) in Hs as [-> Hs]; [|done|].
  - rewrite Hst in Hs. injection Hs as <-. apply ok_or_ok in Hw as [Hw ->].
    rewrite from_slice_to_vec in Hw. by injection Hw.
  - apply (task_clear _ _ _ _ (tl_area _ _ _ Hl)). by repeat constructor.
Qed.

(** C7: Change detection changes nothing, reports each path at most once and in
    order, reports only files that one of the trees has, and for a file outside git
    metadata reports a pending change exactly when its hash in the workspace differs
    from its baseline (the baseline of the previous report, or else the project's
    hash), with both hashes and the matching status. *)
Theorem compare_roots_complete orig ws previous w changes w' :
  tree_ok (w_fs w) orig → tree_ok (w_fs w) ws →
  compare_roots orig ws previous w = (Ok changes, w') →
  w' = w ∧ NoDup (map cf_path changes) ∧
  StronglySorted String.le (map cf_path changes) ∧
  (∀ c, c ∈ changes → ∃ rel, Forall index_name rel ∧ cf_path c = index_key rel ∧
    (is_Some (file_of (w_fs w) (orig ++ rel)) ∨
     is_Some (file_of (w_fs w) (ws ++ rel)))) ∧
  ∀ rel c, Forall index_name rel → in_git orig rel = false → in_git ws rel = false →
    is_Some (file_of (w_fs w) (orig ++ rel)) ∨ is_Some (file_of (w_fs w) (ws ++ rel)) →
    cf_path c = index_key rel →
    (c ∈ changes ↔ reported (w_fs w) orig ws previous rel c).
Proof.
  intros Ho Hws Hw. pose proof (compare_roots_order _ _ _ _ _ _ Hw) as [Hd Hs].
  pose proof (compare_roots_exact _ _ _ _ _ _ Ho Hws Hw) as [-> Hx].
  split_and!; [done..| |exact Hx].
  intros c. exact (compare_roots_names _ _ _ _ _ _ c Ho Hws Hw).
Qed.

(** Refreshing the changes of a task, however it ends, changes no file of the
    project and no file of the workspace. *)
Theorem refresh_changes_isolated self Z m w r w' :
  task_layout self Z m →
  store_ok Z (task_inv self (m_project_id m) (m_task_id m)) (w_fs w) →
  stored self m (w_fs w) →
  refresh_changes self (manifest_file self (m_project_id m) (m_task_id m)) w = (r, w') →
  ∀ q, in_trees m q → file_of (w_fs w') q = file_of (w_fs w) q.
Proof.
  intros Hl Hok Hst Hw q Hq. unfold refresh_changes, mbind, M_bind in Hw.
  destruct (read_manifest_from _ w) as [[m'|e|s] w1] eqn:Hr.
  - apply (read_stored self Z) in Hr as [-> ->]; [|done|apply Hok|done].
    apply (keeps_run Z (task_inv self (m_project_id m) (m_task_id m)) (in_trees m)) in Hw as [_ Hk]; [by apply Hk| |done].
    apply refresh_frame; [done|]. intros l. by apply (trees_not_task self Z).
  - pose proof (stable_read_manifest_from (Rel := eq)
      (manifest_file self (m_project_id m) (m_task_id m)) w) as Heq.
    rewrite Hr in Heq. simplify_eq. by rewrite Heq.
  - pose proof (stable_read_manifest_from (Rel := eq)
      (manifest_file self (m_project_id m) (m_task_id m)) w) as Heq.
    rewrite Hr in Heq. simplify_eq. by rewrite Heq.
Qed.

Lemma refresh_ok self m mp w m1 w' :
  refresh_manifest self mp m w = (Ok m1, w') →
  ∃ changes t w1, compare_roots (original_root m) (workspace_root m) (changed_files m) w
    = (Ok changes, w1) ∧ m1 = refreshed_manifest changes t m.
Proof.
  intros Hw. unfold refresh_manifest in Hw. exec Hw as changes w1 Hrf.
  exec Hw as t w2 _. exec Hw as d w3 _. exec Hw as u4 w4 _. exec Hw as u5 w5 _.
  exec Hw as u6 w6 _. exec Hw as u7 w7 _. exec Hw as u8 w8 _.
  apply ret_ok in Hw as [-> _]. eauto.
Qed.

Lemma layout_refreshed self Z m changes t :
  task_layout self Z m →
  (∀ c, c ∈ changes → ∃ rel, Forall index_name rel ∧ cf_path c = index_key rel) →
  merge_layout self Z (refreshed_manifest changes t m).
Proof.
  intros Hl Hc. split; simpl; try apply Hl.
  - intros c (rel & Hr & ->)%Hc. apply (tl_clear_o _ _ _ Hl). rewrite index_key_comps by done.
    eapply Forall_impl; [done|]. intros x []. by apply plain_not_dotdot.
  - intros c (rel & Hr & ->)%Hc. apply (tl_clear_w _ _ _ Hl). rewrite index_key_comps by done.
    eapply Forall_impl; [done|]. intros x []. by apply plain_not_dotdot.
Qed.

Lemma selected_all l : selected (selected_paths l MAll) l = l.
Proof.
  unfold selected. simpl.
  assert (Hin : ∀ c, c ∈ l → bool_decide (cf_path c ∈ list_to_set (C := gset string) (map cf_path l)) = true).
  { intros c Hc. apply bool_decide_eq_true_2, elem_of_list_to_set.
    by apply (list_elem_of_fmap_2 cf_path). }
  revert Hin. generalize (list_to_set (C := gset string) (map cf_path l)) as s. intros s.
  induction l as [|c l IH]; intros Hin; [done|]. simpl.
  rewrite Hin by left. f_equal. apply IH. intros. apply Hin. by right.
Qed.

(** The whole merge operation, from reading the manifest on: when a first merge
    of everything succeeds, every file of the project outside git metadata has the
    content hash of the same file of the workspace, and is absent where the
    workspace has none. *)
Theorem merge_all_syncs self Z m w out w' :
  task_layout self Z m →
  store_ok Z (task_inv self (m_project_id m) (m_task_id m)) (w_fs w) →
  stored self m (w_fs w) → changed_files m = [] →
  tree_ok (w_fs w) (original_root m) → tree_ok (w_fs w) (workspace_root m) →
  merge self (manifest_file self (m_project_id m) (m_task_id m))
    {| mr_selection := MAll |} w = (Ok out, w') →
  ∀ rel, Forall index_name rel → in_git (original_root m) rel = false →
    in_git (workspace_root m) rel = false →
    hash_of <$> file_of (w_fs w') (original_root m ++ rel)
    = hash_of <$> file_of (w_fs w) (workspace_root m ++ rel).
Proof.
  intros Hl Hok Hst Hnil Hto Htw Hw rel Hrel Hgo Hgw.
  unfold merge in Hw. exec Hw as m1 w1 Hrf. unfold refresh_changes in Hrf.
  exec Hrf as m' w2 [-> ->]%(read_stored self Z); [|done|apply Hok|done].
  pose proof Hrf as (changes & t & w3 & Hcmp & ->)%refresh_ok.
  apply (keeps_run Z (task_inv self (m_project_id m) (m_task_id m)) (in_trees m)) in Hrf as [Hok1 Hk1];
    [|apply refresh_frame; [done|intros l; by apply (trees_not_task self Z)]|done].
  pose proof (λ c, compare_roots_names _ _ _ _ _ _ c Hto Htw Hcmp) as Hnames.
  assert (compare_named : ∀ c, c ∈ changes →
            ∃ rel, Forall index_name rel ∧ cf_path c = index_key rel)
    by (intros c (rel' & ? & ? & _)%Hnames; eauto).
  pose proof (layout_refreshed self Z m changes t Hl
    (λ c Hc, compare_named c Hc)) as Hml.
  apply (merge_refreshed_ok self Z _ Hml) in Hw as [_ _ Hs _ _ _]; [|done..].
  pose proof (scope_roots self Z _ Hml) as (Hr1 & Hr2 & Hr3 & Hr4).
  rewrite selected_all in Hs. simpl in *.
  apply compare_roots_exact in Hcmp as [_ Hrep]; [|done..].
  rewrite Hs by (left; apply under_app). rewrite Hnil in Hrep.
  destruct (decide (hash_of <$> file_of (w_fs w) (original_root m ++ rel)
                    = hash_of <$> file_of (w_fs w) (workspace_root m ++ rel))) as [Heq|Hne].
  - rewrite merge_all_other; [|done|done|apply under_app|].
    + by rewrite Hk1 by (left; apply under_app).
    + intros c Hc Hp%(inj (app _)). pose proof (Hnames c Hc) as (rel' & Hn' & Hp' & Hex).
      rewrite Hp', index_key_comps in Hp by done. subst rel'.
      by apply (Hrep rel c) in Hc as [Hbad _].
  - destruct (reported_exists (w_fs w) (original_root m) (workspace_root m) [] rel Hne)
      as [c Hc]. pose proof Hc as (_ & Hp & _).
    apply (Hrep rel c) in Hc; [|done..| |done].
    2:{ destruct (file_of (w_fs w) (original_root m ++ rel)); [left; eauto|].
        destruct (file_of (w_fs w) (workspace_root m ++ rel)); [right; eauto|done]. }
    pose proof (merge_all_target (original_root m) (workspace_root m)
      _ _ (tl_ow _ _ _ Hl) Hr1 Hr2 Hr3 Hr4 changes (file_of (w_fs w1)) c Hc) as Ht.
    rewrite Hp, index_key_comps in Ht by done. rewrite Ht.
    by rewrite Hk1 by (right; apply under_app).
Qed.
End sync.

(** ** Witnesses *)

Lemma refresh_changes_isolated_witness :
  is_ok (fst (refresh_changes demo_core demo_path demo_world)) = true ∧
  file_of (w_fs demo_world1) (demo_root ++ ["a.txt"])
  = file_of (w_fs demo_world) (demo_root ++ ["a.txt"]).
Proof.
  split; [vm_compute; reflexivity|].
  refine (refresh_changes_isolated demo_core no_links demo_manifest demo_world _ _
    demo_layout demo_store _ (surjective_pairing _) _ _).
  - vm_compute. reflexivity.
  - left. exists ["a.txt"]. vm_compute. reflexivity.
Defined.

Lemma merge_all_syncs_witness :
  ∃ out w', merge demo_core demo_path demo_all demo_world = (Ok out, w') ∧
    hash_of <$> file_of (w_fs w') (original_root demo_manifest ++ ["src"; "c.txt"])
    = hash_of <$> file_of (w_fs demo_world) (workspace_root demo_manifest ++ ["src"; "c.txt"]).
Proof.
  destruct (is_ok_split (merge demo_core demo_path demo_all demo_world))
    as (out & w' & Hw); [vm_compute; reflexivity|].
  exists out, w'. split; [exact Hw|].
  refine (merge_all_syncs demo_core no_links demo_manifest demo_world out w' demo_layout
    demo_store _ _ _ _ Hw ["src"; "c.txt"] _ _ _).
  - vm_compute. reflexivity.
  - vm_compute. reflexivity.
  - apply check_tree_ok. vm_compute. reflexivity.
  - apply check_tree_ok. vm_compute. reflexivity.
  - repeat (apply Forall_cons; split; [apply index_nameb_ok; vm_compute; reflexivity|]).
    apply Forall_nil. exact I.
  - vm_compute. reflexivity.
  - vm_compute. reflexivity.
Defined.

Lemma compare_roots_complete_witness :
  (λ cs, map cf_path cs) <$> ok_opt (fst (compare_roots (original_root demo_manifest)
      (workspace_root demo_manifest) [] demo_world))
    = Some (map cf_path (changed_files demo_manifest1)) ∧
  ∃ changes, compare_roots (original_root demo_manifest) (workspace_root demo_manifest)
               [] demo_world = (Ok changes, demo_world) ∧
    NoDup (map cf_path changes).
Proof.
  split; [vm_compute; reflexivity|].
  destruct (is_ok_split (compare_roots (original_root demo_manifest)
    (workspace_root demo_manifest) [] demo_world)) as (changes & w' & Hw);
    [vm_compute; reflexivity|].
  assert (Ho : tree_ok (w_fs demo_world) (original_root demo_manifest))
    by (apply check_tree_ok; vm_compute; reflexivity).
  assert (Hs : tree_ok (w_fs demo_world) (workspace_root demo_manifest))
    by (apply check_tree_ok; vm_compute; reflexivity).
  destruct (compare_roots_complete _ _ _ _ _ _ Ho Hs Hw) as (He & Hd & _).
  exists changes. subst w'. split; [exact Hw|exact Hd].
Defined.
