(* ===== verification/ActivityProps.v ===== *)
(** * Timelines and conversations

    What is appended to a timeline is read back, in order and in pages; a
    conversation gets a task of its own. *)

From S2P Require Import Prelude RustStr FsModel World Models FsFacts Frame Fsx.
From S2P Require Import Workspace Environment Activity Diff Memory.
From S2P Require Import Changes Engine Exec FsxProps Concrete Demo.

(** * Timelines: what is appended is read back, in order and in pages *)

(** ** UTF-8 *)

Lemma lossy_go_valid k l : utf8_valid_go k l = true → lossy_go k 0 l = l.
Proof.
  revert k. induction l as [|b l IH]; intros k Hv; [done|]. simpl in *.
  destruct k as [|k]; [|by rewrite IH].
  destruct (utf8_step b l) as [|n]; [done|]. by rewrite IH.
Qed.

Lemma from_utf8_lossy_valid s : utf8_valid s = true → from_utf8_lossy s = s.
Proof.
  intros Hv. unfold from_utf8_lossy. rewrite lossy_go_valid by done. apply of_bytes_bytes.
Qed.

Lemma utf8_step_extend b l r n :
  utf8_step b l = inr n → utf8_step b (l ++ r) = inr n ∧ Nat.pred n ≤ length l.
Proof.
  unfold utf8_step. intros Hs.
  repeat case_one_in Hs; simplify_eq; simpl in *;
    repeat match goal with H : ?x = true |- context [?x] => rewrite H end;
    split; (done || lia).
Qed.

Lemma utf8_valid_go_app k l r :
  utf8_valid_go k l = true → k ≤ length l →
  utf8_valid_go k (l ++ r) = utf8_valid_go 0 r.
Proof.
  revert k. induction l as [|b l IH]; intros k Hv Hk; simpl in *.
  { destruct k; [done|lia]. }
  destruct k as [|k]; [|apply IH; [done|lia]].
  destruct (utf8_step b l) as [|n] eqn:Hs; [done|].
  apply (utf8_step_extend b l r) in Hs as [-> Hn]. by apply IH.
Qed.

Lemma utf8_valid_app s t :
  utf8_valid s = true → utf8_valid t = true → utf8_valid (s +:+ t) = true.
Proof.
  intros Hs Ht. unfold utf8_valid in *. rewrite bytes_app, utf8_valid_go_app; [done..|lia].
Qed.

(** ** Lines *)

Lemma strip_cr_id l : cr ∉ l → strip_cr l = l.
Proof.
  intros Hl. unfold strip_cr. destruct (reverse l) as [|c l'] eqn:Hr; [done|].
  destruct (Ascii.eqb_spec c cr) as [->|]; [|done]. destruct Hl.
  rewrite <- (reverse_involutive l), Hr. apply elem_of_reverse. left.
Qed.

Lemma lines_cons s r :
  newline ∉ bytes s → cr ∉ bytes s → lines (s +:+ nl +:+ r) = s :: lines r.
Proof.
  intros Hn Hc. unfold lines. rewrite !bytes_app. simpl. rewrite lines_go_line by done.
  simpl. rewrite strip_cr_id by done. by rewrite of_bytes_bytes.
Qed.

(** ** The text of a timeline *)

Section timeline.
Context `{Sys} `{Codecs} `{!SerdeOk TimelineEvent}.

Definition timeline_text (evs : list TimelineEvent) : string :=
  concat_str (map (λ e, to_line e +:+ nl) evs).

Lemma timeline_text_cons e evs :
  timeline_text (e :: evs) = to_line e +:+ nl +:+ timeline_text evs.
Proof. unfold timeline_text. simpl. by rewrite <- str_app_assoc. Qed.

Lemma timeline_text_snoc evs e :
  timeline_text (evs ++ [e]) = timeline_text evs +:+ (to_line e +:+ nl).
Proof.
  induction evs as [|d evs IH]; simpl.
  - rewrite timeline_text_cons. simpl. by rewrite str_app_nil_r.
  - rewrite !timeline_text_cons, IH. by rewrite <- !str_app_assoc.
Qed.

Lemma timeline_lines evs : lines (timeline_text evs) = map to_line evs.
Proof.
  induction evs as [|e evs IH]; [done|]. rewrite timeline_text_cons, lines_cons.
  - simpl. by rewrite IH.
  - apply to_line_no_newline.
  - apply to_line_no_cr.
Qed.

Lemma timeline_utf8 evs : utf8_valid (timeline_text evs) = true.
Proof.
  induction evs as [|e evs IH]; [done|]. rewrite timeline_text_cons.
  apply utf8_valid_app; [apply to_line_utf8|]. by apply utf8_valid_app.
Qed.

Lemma parse_timeline_text evs : parse_timeline (timeline_text evs) = evs.
Proof.
  unfold parse_timeline. rewrite timeline_lines.
  induction evs as [|e evs IH]; [done|]. cbn [map List.filter].
  rewrite to_line_not_blank. cbn [negb]. csimpl. by rewrite from_line_to_line, IH.
Qed.

(** The events are numbered from 0. *)
Definition numbered (evs : list TimelineEvent) : Prop :=
  ∀ i e, evs !! i = Some e → ev_seq e = N.of_nat i.

Lemma numbered_snoc evs e :
  numbered evs → ev_seq e = N.of_nat (length evs) → numbered (evs ++ [e]).
Proof.
  intros Hn He i x. rewrite lookup_app_Some. intros [Hi|[Hi Hx]]; [by apply Hn|].
  apply list_lookup_singleton_Some in Hx as [Hi0 <-]. rewrite He. f_equal. lia.
Qed.

(** The timeline file holds exactly these events. *)
Definition holds (fs : fsys) (root : path) (evs : list TimelineEvent) : Prop :=
  file_of fs (timeline_file root) = Some (timeline_text evs) ∨
  (evs = [] ∧ fs !! timeline_file root = None).

Context (Z : path → Prop) (root : path).
Context (Hroot : clear Z root) (Hfile : clear Z (timeline_file root)).

Lemma timeline_file_eq : timeline_file root = root ++ ["timeline.jsonl"].
Proof. done. Qed.

Lemma read_holds w evs r w' :
  fs_ok Z (w_fs w) → holds (w_fs w) root evs →
  (attempt (E' := CodexNewError) (read_to_string (timeline_file root)) : R _) w = (Ok r, w') →
  w' = w ∧ (r = inr (timeline_text evs) ∨ evs = [] ∧ ∃ e, r = inl e).
Proof.
  intros Hok Hh Hr. apply attempt_ok in Hr as [(s & -> & Hr)|(e & -> & Hr)].
  - unfold read_to_string in Hr. apply lift_read_ok in Hr as [Hr ->]. split; [done|left].
    unfold fs_read_to_string in Hr. destruct (fs_read (w_fs w) _) as [|t] eqn:Ht; [done|].
    apply (read_clear Z _ Hok) in Ht; [|done].
    destruct Hh as [Hh|[_ Hh]]; [|unfold file_of in Ht; by rewrite Hh in Ht].
    rewrite Hh in Ht. injection Ht as <-. rewrite timeline_utf8 in Hr. by injection Hr as <-.
  - unfold read_to_string, lift_read in Hr.
    destruct (fs_read_to_string (w_fs w) (timeline_file root)) as [k|t] eqn:Ht; simplify_eq.
    split; [done|]. destruct Hh as [Hh|[-> _]]; [|right; eauto]. exfalso.
    apply (read_clear Z _ Hok) in Hh; [|done]. unfold fs_read_to_string in Ht.
    by rewrite Hh, timeline_utf8 in Ht.
Qed.

Lemma append_timeline_ok I tid kind payload w e w' evs :
  store_ok Z I (w_fs w) → dirs_to I root → (∀ s, I (timeline_file root) (File s)) →
  holds (w_fs w) root evs →
  append_timeline_event root tid kind payload w = (Ok e, w') →
  holds (w_fs w') root (evs ++ [e]) ∧ ev_seq e = N.of_nat (length evs) ∧
  ev_kind e = kind ∧ ev_payload e = payload ∧ ev_task_id e = tid.
Proof.
  intros Hok Hd HI Hh Hw. unfold append_timeline_event in Hw.
  exec Hw as u1 w1 Hmk. pose proof Hmk as Hmk'.
  apply (create_dir_all_ok Z I) in Hmk as [Hok1 Ha1]; [|done..].
  assert (Hh1 : holds (w_fs w1) root evs).
  { destruct Hh as [Hh|[-> Hh]]; [left; by rewrite Ha1|].
    unfold create_dir_all in Hmk'. apply lift_fs_ok in Hmk'.
    apply (create_dir_all_clear Z) in Hmk' as (Hg & _); [|apply Hok|done].
    right. split; [done|]. destruct (Hg (timeline_file root)) as [->|(_ & _ & Hpre & _)]; [done|].
    apply prefix_length in Hpre. rewrite timeline_file_eq, length_app in Hpre. simpl in Hpre. lia. }
  exec Hw as r w2 Hr. apply (read_holds _ evs) in Hr as [-> Hr]; [|apply Hok1|done].
  exec Hw as id w3 Hid%new_uuid_ok. exec Hw as t w4 Ht%now_ok. exec Hw as u5 w5 Happ.
  apply ret_ok in Hw as [-> ->].
  unfold append_file in Happ. apply lift_fs_ok in Happ. rewrite Ht, Hid in Happ.
  apply (append_clear Z _ (st_fs Z I _ Hok1)) in Happ as (_ & Happ & _); [|done].
  assert (Hseq : match r with inr text => N.of_nat (length (lines text)) | inl _ => 0%N end
                 = N.of_nat (length evs)).
  { destruct Hr as [->|[-> [x ->]]]; [|done]. by rewrite timeline_lines, length_map. }
  split_and!; try done. left. rewrite Happ, file_of_insert_eq, timeline_text_snoc.
  do 2 f_equal. destruct Hh1 as [->|[-> Hn]]; [done|]. unfold file_of. by rewrite Hn.
Qed.

(** ** Pages *)

Lemma filter_numbered (a : N) evs k :
  (∀ i e, evs !! i = Some e → ev_seq e = N.of_nat (k + i)) →
  List.filter (λ e, (a <? ev_seq e)%N) evs = drop (N.to_nat a + 1 - k) evs.
Proof.
  revert k. induction evs as [|e evs IH]; intros k Hn; simpl; [by rewrite drop_nil|].
  pose proof (Hn 0 e eq_refl) as He. rewrite Nat.add_0_r in He.
  assert (Hn' : ∀ i x, evs !! i = Some x → ev_seq x = N.of_nat (S k + i)).
  { intros i x Hx. rewrite (Hn (S i) x) by done. f_equal. lia. }
  rewrite (IH (S k) Hn'), He. destruct (a <? N.of_nat k)%N eqn:Hlt; to_prop.
  - replace (N.to_nat a + 1 - k) with 0 by lia.
    replace (N.to_nat a + 1 - S k) with 0 by lia. done.
  - replace (N.to_nat a + 1 - k) with (S (N.to_nat a + 1 - S k)) by lia. done.
Qed.

Lemma page_numbered evs a limit :
  numbered evs → 0 < limit →
  page (Some a) limit evs = take limit (drop (N.to_nat a + 1) evs).
Proof.
  intros Hn Hl. unfold page. rewrite (filter_numbered a evs 0) by done.
  rewrite Nat.sub_0_r. destruct (_ && _) eqn:Hc; [done|].
  symmetry. apply take_ge. apply andb_false_iff in Hc as [Hc|Hc]; to_prop; lia.
Qed.

(** ** Reading *)

Lemma read_timeline_run tid after limit w evs :
  fs_ok Z (w_fs w) → holds (w_fs w) root evs →
  read_timeline_events root tid after limit w
  = (Ok {| feed_task_id := tid;
           latest_seq := match last evs with Some e => ev_seq e | None => 0 end;
           feed_events := page after limit evs |}, w).
Proof.
  intros Hok Hh. unfold read_timeline_events.
  assert (He : (exists_ (timeline_file root) : R bool) w
               = (Ok (fs_exists (w_fs w) (timeline_file root)), w)) by done.
  rewrite (bind_run _ _ _ _ _ He). destruct Hh as [Hh|[-> Hh]].
  - rewrite (exists_file_clear Z _ Hok); [|done|].
    2:{ unfold file_of in Hh. destruct (w_fs w !! _); [eauto|done]. }
    cbn [negb]. assert (Hr : (read (timeline_file root) : R string) w
                             = (Ok (timeline_text evs), w)).
    { unfold read, lift_read. by rewrite (proj2 (read_clear Z _ Hok _ _ Hfile) Hh). }
    rewrite (bind_run _ _ _ _ _ Hr), from_utf8_lossy_valid by apply timeline_utf8.
    by rewrite parse_timeline_text.
  - destruct (fs_exists (w_fs w) (timeline_file root)) eqn:Hx; cbn [negb].
    + apply (exists_true_clear Z _ Hok) in Hx as [Hx|[? Hx]]; [|congruence|done].
      rewrite timeline_file_eq in Hx. by apply app_eq_nil in Hx as [_ ?].
    + assert (Hp : page after limit [] = []); [|by rewrite Hp].
      unfold page, last_n. destruct after; simpl; destruct (_ && _);
        by rewrite ?take_nil.
Qed.

Lemma last_numbered evs :
  numbered evs → evs ≠ [] →
  match last evs with Some e => ev_seq e | None => 0%N end = N.of_nat (length evs - 1).
Proof.
  intros Hn Hne. destruct evs as [|e evs _] using rev_ind; [done|].
  rewrite last_snoc, length_app. simpl. rewrite (Hn (length evs) e); [f_equal; lia|].
  by rewrite lookup_app_r, Nat.sub_diag by lia.
Qed.

(** An event appended to a numbered timeline gets the next number, and every
    later read returns the requested page of the old events followed by the new one. *)
Theorem timeline_append_read I tid kind payload w e w' evs :
  store_ok Z I (w_fs w) → dirs_to I root → (∀ s, I (timeline_file root) (File s)) →
  holds (w_fs w) root evs → numbered evs →
  append_timeline_event root tid kind payload w = (Ok e, w') →
  numbered (evs ++ [e]) ∧ ev_kind e = kind ∧ ev_payload e = payload ∧
  ∀ after limit, fs_ok Z (w_fs w') →
    read_timeline_events root tid after limit w'
    = (Ok {| feed_task_id := tid; latest_seq := N.of_nat (length evs);
             feed_events := page after limit (evs ++ [e]) |}, w').
Proof.
  intros Hok Hd HI Hh Hn Hw.
  apply (append_timeline_ok I tid kind payload w e w' evs) in Hw
    as (Hh' & Hs & Hk & Hp & _); [|done..].
  pose proof (numbered_snoc evs e Hn Hs) as Hn'. split_and!; [done..|].
  intros after limit Hfs. rewrite (read_timeline_run _ _ _ _ (evs ++ [e])) by done.
  do 2 f_equal. rewrite last_numbered, length_app; [simpl; f_equal; f_equal; lia|done|].
  by destruct evs.
Qed.

(** Polling a numbered timeline after a sequence number succeeds and returns
    the next events in order, and a later event that is not in the page is after the
    last event of the page: a client that polls on from there misses none. *)
Theorem timeline_poll tid a limit w evs :
  fs_ok Z (w_fs w) → holds (w_fs w) root evs → numbered evs → 0 < limit →
  ∃ feed, read_timeline_events root tid (Some a) limit w = (Ok feed, w) ∧
    feed_events feed = take limit (drop (N.to_nat a + 1) evs) ∧
    (∀ e, e ∈ evs → (a < ev_seq e)%N →
       e ∈ feed_events feed ∨
       ∀ x, last (feed_events feed) = Some x → (ev_seq x < ev_seq e)%N).
Proof.
  intros Hok Hh Hn Hl. eexists. split; [by apply read_timeline_run|].
  cbn [feed_events]. rewrite page_numbered by done. split; [done|].
  intros e [i Hi]%list_elem_of_lookup Ha. pose proof (Hn i e Hi) as Hs.
  destruct (decide (i < N.to_nat a + 1 + limit)) as [Hlt|Hge].
  - left. apply list_elem_of_lookup. exists (i - (N.to_nat a + 1)).
    rewrite lookup_take_lt by lia. rewrite lookup_drop.
    replace (N.to_nat a + 1 + (i - (N.to_nat a + 1))) with i by lia. done.
  - right. intros x Hx. rewrite last_lookup in Hx.
    apply lookup_take_Some in Hx as [Hx Hlen]. rewrite lookup_drop in Hx.
    rewrite (Hn _ _ Hx), Hs. lia.
Qed.
End timeline.

(** ** Witnesses *)

(** A timeline with one event. *)
Definition demo_event : TimelineEvent := {|
  ev_id := "e"; ev_task_id := "t"; ev_seq := 0; ev_kind := AgentPlan; ev_created_at := 0;
  ev_payload := JStr "plan" |}.

Definition timeline_world : world :=
  World (list_to_map [(["t"], Dir);
                      (["t"; "timeline.jsonl"], File (timeline_text [demo_event]))]) 0 0.

Definition any_node (_ : path) (_ : node) : Prop := True.

Lemma timeline_world_ok : fs_ok no_links (w_fs timeline_world).
Proof. apply check_fs_ok. vm_compute. reflexivity. Qed.

Lemma demo_numbered : numbered [demo_event].
Proof. intros [|[]] e; simpl; [|done..]. by intros [= <-]. Qed.

Lemma timeline_append_read_witness :
  ∃ e w', append_timeline_event ["t"] "t" AgentNote JNull timeline_world = (Ok e, w') ∧
    numbered ([demo_event] ++ [e]).
Proof.
  destruct (is_ok_split (append_timeline_event ["t"] "t" AgentNote JNull timeline_world))
    as (e & w' & Hw); [vm_compute; reflexivity|].
  exists e, w'. split; [exact Hw|].
  refine (proj1 (timeline_append_read no_links ["t"] _ _ any_node "t" AgentNote JNull
    timeline_world e w' [demo_event] _ _ _ _ demo_numbered Hw)).
  - apply clear_no_links. by repeat constructor.
  - apply clear_no_links. by repeat constructor.
  - split; [apply timeline_world_ok|done].
  - done.
  - done.
  - left. vm_compute. reflexivity.
Defined.

Lemma timeline_poll_witness :
  ∃ feed, read_timeline_events ["t"] "t" (Some 0%N) 5 timeline_world
          = (Ok feed, timeline_world) ∧ feed_events feed = [].
Proof.
  assert (Hfile : clear no_links (timeline_file ["t"]))
    by (apply clear_no_links; by repeat constructor).
  assert (Hh : holds (w_fs timeline_world) ["t"] [demo_event])
    by (left; vm_compute; reflexivity).
  assert (Hl : 0 < 5) by lia.
  destruct (timeline_poll no_links ["t"] Hfile "t" 0%N 5 timeline_world [demo_event]
    timeline_world_ok Hh demo_numbered Hl) as (feed & Hr & He & _).
  exists feed. split; [exact Hr|]. rewrite He. reflexivity.
Defined.

(** * Which task a conversation gets *)

Section resolve.
Context `{Sys} `{Codecs}.
Implicit Types (self : CodexNewCore) (w : world).

(** Reading leaves the world as it is. *)
Lemma read_world p w s w' : (read p : R string) w = (Ok s, w') → w' = w.
Proof. intros Hr. unfold read in Hr. by apply lift_read_ok in Hr as [_ ->]. Qed.

Lemma read_project_world self pid w p w' :
  read_project self pid w = (Ok p, w') → w' = w.
Proof.
  intros Hw. unfold read_project in Hw. exec Hw as s w1 ->%read_world.
  by apply ok_or_ok in Hw as [_ ->].
Qed.

Lemma read_task_world root tid w r w' :
  read_task_record root tid w = (Ok r, w') → w' = w.
Proof.
  intros Hw. unfold read_task_record in Hw. exec Hw as e w1 [-> ->]%exists_ok.
  destruct (negb _); [by apply ret_ok in Hw as [_ ->]|].
  exec Hw as s w2 ->%read_world. by apply fmap_ok in Hw as (t & [_ ->]%ok_or_ok & _).
Qed.

Lemma read_binding_world root c w r w' :
  read_conversation_binding root c w = (Ok r, w') → w' = w.
Proof.
  intros Hw. unfold read_conversation_binding in Hw. exec Hw as e w1 [-> ->]%exists_ok.
  destruct (negb _); [by apply ret_ok in Hw as [_ ->]|].
  exec Hw as s w2 ->%read_world. by apply fmap_ok in Hw as (t & [_ ->]%ok_or_ok & _).
Qed.

Lemma create_task_id self project title w r w' :
  create_task self project title w = (Ok r, w') →
  task_id (fst r) = uuid_v4 (w_uuids w) ∧ task_status (fst r) = WorkspaceReady.
Proof.
  intros Hw. unfold create_task in Hw. exec Hw as tid w1 Hid.
  assert (tid = uuid_v4 (w_uuids w)) as -> by (unfold new_uuid in Hid; by injection Hid).
  exec Hw as t w2 _. exec Hw as prep w3 _. exec Hw as u4 w4 _. exec Hw as b5 w5 _.
  exec Hw as b6 w6 _. exec Hw as u7 w7 _. exec Hw as u8 w8 _. exec Hw as e9 w9 _.
  apply ret_ok in Hw as [-> _]. done.
Qed.

Lemma created_task_ok self project title w r w' :
  created_task self project title w = (Ok r, w') →
  snd r = false ∧ task_id (fst r) = uuid_v4 (w_uuids w).
Proof.
  intros Hw. unfold created_task in Hw. exec Hw as c w1 [Hid _]%create_task_id.
  by apply ret_ok in Hw as [-> _].
Qed.

(** The task a conversation is bound to and may resume. *)
Definition resumable self (project : ProjectRecord) (c : string) w (t : TaskRecord) : Prop :=
  ∃ b tid, read_conversation_binding (project_root self (proj_id project)) c w
             = (Ok (Some b), w) ∧
    active_task_id b = Some tid ∧
    read_task_record (project_root self (proj_id project)) tid w = (Ok (Some t), w) ∧
    is_terminal (task_status t) = false.

Lemma bound_task_ok root c w r w' :
  bound_task root c w = (Ok r, w') →
  w' = w ∧ ∀ t, r = Some t → ∃ b tid,
    read_conversation_binding root c w = (Ok (Some b), w) ∧
    active_task_id b = Some tid ∧ read_task_record root tid w = (Ok (Some t), w).
Proof.
  intros Hw. unfold bound_task in Hw. exec Hw as b w1 Hb.
  pose proof (read_binding_world _ _ _ _ _ Hb) as ->.
  destruct b as [b|]; simpl in Hw; [|by apply ret_ok in Hw as [-> ->]].
  destruct (active_task_id b) as [tid|] eqn:Ha; [|by apply ret_ok in Hw as [-> ->]].
  pose proof (read_task_world _ _ _ _ _ Hw) as ->. split; [done|].
  intros t ->. eauto.
Qed.

Lemma bind_conversation_ok self pid tid c w r w' :
  bind_conversation self pid tid (Some c) w = (Ok r, w') →
  ∃ b, r = Some b ∧ cb_conversation_id b = c ∧ active_task_id b = Some tid.
Proof.
  intros Hw. unfold bind_conversation in Hw. apply fmap_ok in Hw as (b & Hw & ->).
  unfold write_conversation_binding in Hw. exec Hw as u1 w1 _. exec Hw as t w2 _.
  exec Hw as old w3 _. exec Hw as u4 w4 _. apply ret_ok in Hw as [-> _]. eauto.
Qed.

Lemma choose_task_conversation self project req cand c w r w' :
  conversation_id req = Some c →
  choose_task self project req cand w = (Ok r, w') →
  (snd r = true ∧ cand = Some (fst r) ∧ is_terminal (task_status (fst r)) = false) ∨
  (snd r = false ∧ task_id (fst r) = uuid_v4 (w_uuids w)).
Proof.
  intros Hc Hw. unfold choose_task in Hw. rewrite Hc in Hw.
  destruct cand as [t|]; simpl in Hw.
  - destruct (is_terminal (task_status t)) eqn:Ht; simpl in Hw.
    + right. by apply created_task_ok in Hw.
    + apply ret_ok in Hw as [-> ->]. by left.
  - right. by apply created_task_ok in Hw.
Qed.

(** Resolving a task for a conversation returns a binding of that conversation
    to the returned task; a task is reused only under the reuse-active policy and
    only if it is the unfinished task the conversation is bound to, and otherwise
    the task has a fresh id. *)
Theorem conversation_gets_own_task self req c w resp w' :
  conversation_id req = Some c → (∀ tid, reuse_policy req ≠ ForkFromTask tid) →
  resolve_or_create_task self req w = (Ok resp, w') →
  ∃ project b, read_project self (rt_project_id req) w = (Ok project, w) ∧
    conversation_binding resp = Some b ∧ cb_conversation_id b = c ∧
    active_task_id b = Some (task_id (rs_task resp)) ∧
    if reused_existing resp
    then reuse_policy req = ReuseActive ∧ resumable self project c w (rs_task resp)
    else task_id (rs_task resp) = uuid_v4 (w_uuids w).
Proof.
  intros Hc Hfork Hw. unfold resolve_or_create_task in Hw.
  exec Hw as project w1 Hp. pose proof (read_project_world _ _ _ _ _ Hp) as ->.
  exists project. rewrite Hc in Hw.
  destruct (reuse_policy req) as [| |tid] eqn:Hpol; [..|by destruct (Hfork tid)].
  - exec Hw as cand w2 Hb. pose proof (bound_task_ok _ _ _ _ _ Hb) as [-> Hcand].
    exec Hw as r w3 Hr. apply (choose_task_conversation _ _ _ _ c) in Hr; [|done].
    destruct r as [t reused]. exec Hw as m w4 _. exec Hw as b w5 Hbind.
    apply bind_conversation_ok in Hbind as (b' & -> & Hbc & Hba).
    apply ret_ok in Hw as [-> _]. exists b'. simpl. split_and!; [done..|].
    destruct Hr as [(Hr1 & Hr2 & Hr3)|(Hr1 & Hr2)]; simpl in *; subst; [|done].
    split; [done|]. destruct (Hcand t eq_refl) as (b0 & tid & ? & ? & ?).
    exists b0, tid. done.
  - exec Hw as cand w2 [-> ->]%ret_ok.
    exec Hw as r w3 Hr. apply (choose_task_conversation _ _ _ _ c) in Hr; [|done].
    destruct r as [t reused]. exec Hw as m w4 _. exec Hw as b w5 Hbind.
    apply bind_conversation_ok in Hbind as (b' & -> & Hbc & Hba).
    apply ret_ok in Hw as [-> _]. exists b'. simpl. split_and!; [done..|].
    destruct Hr as [(_ & Hr2 & _)|(Hr1 & Hr2)]; simpl in *; [done|]. by subst.
Qed.
End resolve.

(** ** Witness *)

Definition demo_request : ResolveTaskRequest := {|
  rt_project_id := demo_pid; rt_title := "chat"; conversation_id := Some "conv";
  reuse_policy := ReuseActive |}.

Lemma conversation_gets_own_task_witness :
  ∃ resp w', resolve_or_create_task demo_core demo_request demo_world = (Ok resp, w') ∧
    reused_existing resp = false ∧ task_id (rs_task resp) = uuid_v4 2.
Proof.
  destruct (is_ok_split (resolve_or_create_task demo_core demo_request demo_world))
    as (resp & w' & Hw); [vm_compute; reflexivity|].
  exists resp, w'. split; [exact Hw|].
  assert (Hre : reused_existing resp = false).
  { replace resp with (match fst (resolve_or_create_task demo_core demo_request demo_world)
                       with Ok r => r | _ => resp end) by (rewrite Hw; reflexivity).
    vm_compute. reflexivity. }
  split; [exact Hre|].
  destruct (conversation_gets_own_task demo_core demo_request "conv" demo_world resp w'
    eq_refl ltac:(intros tid; discriminate) Hw) as (project & b & _ & _ & _ & _ & Ht).
  rewrite Hre in Ht. rewrite Ht. vm_compute. reflexivity.
Defined.
