(* ===== verification/TracebackProps.v ===== *)
(** * Reviews, memory and tracebacks

    When a review blocks a task or asks for approval, the recovery of
    manifests, memory that is only extended; and the original of a file can be
    restored: the first recorded edit saves the project's version, and
    restoring it brings that version back, whatever happened to the project in
    between. *)

From S2P Require Import Prelude RustStr FsModel World Models FsFacts Frame Fsx.
From S2P Require Import Activity Diff Memory Changes Engine Exec.
From S2P Require Import FsxProps Layout MergeFacts ChangesProps Concrete Demo.

(** ** The policy review: when a task is blocked or needs approval *)

Section review.
Context (policy : MergePolicy).

Definition needs_approval (file : FileDiff) : bool :=
  is_lockfile_fd file && negb (allow_lockfile_merge_without_reason policy).

(** The disposition the loop reaches from [d]. *)
Definition loop_disposition (d : ReviewDisposition) (files : list FileDiff)
  : ReviewDisposition :=
  if existsb (sensitive policy) files then Blocked
  else if existsb needs_approval files then max_disposition d NeedsUserApproval
  else d.

Lemma max_disposition_blocked d : max_disposition Blocked d = Blocked.
Proof. done. Qed.

Lemma review_file_blocked acc f :
  fst acc = Blocked → fst (review_file policy acc f) = Blocked.
Proof.
  intros Ha. unfold review_file. destruct (sensitive policy f), (_ && _); simpl; try done;
    by rewrite Ha.
Qed.

Lemma review_fold_blocked files acc :
  fst acc = Blocked → fst (foldl (review_file policy) acc files) = Blocked.
Proof.
  revert acc. induction files as [|f files IH]; intros acc Ha; [done|].
  apply IH. by apply review_file_blocked.
Qed.

Lemma review_fold files acc :
  fst acc ≠ Blocked →
  fst (foldl (review_file policy) acc files) = loop_disposition (fst acc) files.
Proof.
  revert acc. induction files as [|f files IH]; intros acc Ha; [done|]. simpl.
  unfold loop_disposition. simpl. destruct (sensitive policy f) eqn:Hs; simpl.
  - apply review_fold_blocked. unfold review_file. rewrite Hs.
    by destruct (_ && negb _).
  - assert (Hr : fst (review_file policy acc f)
                 = if needs_approval f then max_disposition (fst acc) NeedsUserApproval
                   else fst acc).
    { unfold review_file, needs_approval. rewrite Hs. by destruct (_ && negb _). }
    rewrite IH; rewrite Hr.
    + unfold loop_disposition. destruct (needs_approval f), (existsb (sensitive policy) files),
        (existsb needs_approval files); simpl; try done; by destruct (fst acc).
    + destruct (needs_approval f); [|done]. by destruct (fst acc).
Qed.

Lemma review_fold_issues files acc :
  ∃ l, snd (foldl (review_file policy) acc files) = snd acc ++ l ∧
       (l = [] ↔ existsb (sensitive policy) files = false ∧
                 existsb needs_approval files = false).
Proof.
  revert acc. induction files as [|f files IH]; intros acc; simpl.
  { exists []. by rewrite app_nil_r. }
  destruct (IH (review_file policy acc f)) as (l & -> & Hl).
  unfold review_file, needs_approval. destruct (sensitive policy f), (_ && negb _); simpl.
  - eexists. rewrite <- !(assoc (++)). split; [done|]. naive_solver.
  - eexists. rewrite <- !(assoc (++)). split; [done|]. naive_solver.
  - eexists. rewrite <- !(assoc (++)). split; [done|]. naive_solver.
  - exists l. split; [done|]. done.
Qed.
End review.

(** The disposition of a review: blocked exactly when a changed file matches a
    sensitive pattern, otherwise user approval exactly when a lockfile changed that
    the policy does not allow, or more files changed than the policy allows, and
    otherwise informational. *)
Theorem review_disposition m diff policy :
  disposition (review_manifest m diff policy)
  = if existsb (sensitive policy) (db_files diff) then Blocked
    else if existsb (needs_approval policy) (db_files diff) || too_many_files m policy
    then NeedsUserApproval else Informational.
Proof.
  unfold review_manifest. simpl.
  pose proof (review_fold policy (db_files diff) (Informational, []) ltac:(done)) as Hf.
  unfold loop_disposition in Hf. simpl in Hf.
  destruct (too_many_files m policy); simpl; rewrite Hf;
    destruct (existsb (sensitive policy) _); simpl; try done;
    by destruct (existsb (needs_approval policy) _).
Qed.

(** ** Recovery *)

(** The conditions a recovery looks at. *)
Definition environment_valid (m : TaskManifest) : bool :=
  match environment_binding m with Some b => is_valid (validation b) | None => true end.

(** Recovering a manifest succeeds, changes only its status, is idempotent,
    reports a workspace conflict exactly when the workspace is missing, and never
    leaves a failure status on a task whose workspace exists and whose environment
    is valid. *)
Theorem recover_manifest_spec m w :
  ∃ m', recover_manifest m w = (Ok m', w) ∧
    m' = set_status (m_status m') m ∧
    recover_manifest m' w = (Ok m', w) ∧
    (fs_exists (w_fs w) (workspace_root m) = false ↔ m_status m' = WorkspaceConflict) ∧
    (fs_exists (w_fs w) (workspace_root m) = true → environment_valid m = true →
       is_failure (m_status m') = false).
Proof.
  unfold recover_manifest, mbind, M_bind. simpl. eexists. split; [done|].
  unfold recovered_status, environment_valid. simpl.
  destruct (fs_exists (w_fs w) (workspace_root m)); simpl.
  - destruct (environment_binding m) as [b|] eqn:Hb; simpl; rewrite ?Hb.
    + destruct (is_valid (validation b)) eqn:Hv; simpl; rewrite ?Hb, ?Hv; simpl.
      * destruct (is_failure (m_status m)) eqn:Hf; simpl.
        -- destruct (changed_files m); split_and!; done.
        -- rewrite Hf. split_and!; try done. split; [done|]. by intros Hs; rewrite Hs in Hf.
      * split_and!; done.
    + destruct (is_failure (m_status m)) eqn:Hf; simpl.
      * destruct (changed_files m); split_and!; done.
      * rewrite Hf. split_and!; try done. split; [done|]. by intros Hs; rewrite Hs in Hf.
  - split_and!; done.
Qed.

(** ** Project memory: what applying candidates does *)

Section memory.
Context `{Sys} (candidates : list CandidateMemoryRecord).

Definition find_candidate (id : string) : option CandidateMemoryRecord :=
  find_first (λ r, String.eqb (cmr_id r) id) candidates.

(** All ids that have been handled. *)
Definition handled (st : apply_state) : list string :=
  applied (as_out st) ++ skipped (as_out st) ++ conflicts (as_out st).

(** [kept mem mem']: nothing that was remembered is lost or changed. *)
Definition extends (mem mem' : gmap string ProjectMemoryRecord) : Prop := mem ⊆ mem'.

Lemma apply_candidate_ok st id w st' w' :
  apply_candidate candidates st id w = (Ok st', w') →
  w_fs w' = w_fs w ∧ handled st' ≡ₚ id :: handled st ∧ as_memory st ⊆ as_memory st' ∧
  (st' = add_skipped id st ∨ st' = add_conflict id st ∨
   ∃ r p, find_candidate id = Some r ∧ cmr_status r ≠ Conflict ∧
     as_memory st !! memory_key (candidate r) = None ∧
     pm_detail p = cm_detail (candidate r) ∧
     st' = add_applied id (memory_key (candidate r)) p st).
Proof.
  intros Hw. unfold apply_candidate in Hw. fold (find_candidate id) in Hw.
  assert (Hskip : handled (add_skipped id st) ≡ₚ id :: handled st).
  { unfold handled. simpl. solve_Permutation. }
  assert (Hconf : handled (add_conflict id st) ≡ₚ id :: handled st).
  { unfold handled. simpl. solve_Permutation. }
  destruct (find_candidate id) as [r|] eqn:Hf.
  2:{ apply ret_ok in Hw as [-> ->]. split_and!; auto. }
  case_bool_decide as Hc.
  { apply ret_ok in Hw as [-> ->]. split_and!; auto. }
  destruct (as_memory st !! memory_key (candidate r)) as [e|] eqn:Hk.
  - destruct (String.eqb _ _); apply ret_ok in Hw as [-> ->]; split_and!; auto.
  - exec Hw as nid w1 Hid%new_uuid_ok. exec Hw as t w2 Ht%now_ok.
    apply ret_ok in Hw as [-> ->]. split_and!.
    + congruence.
    + unfold handled. simpl. solve_Permutation.
    + simpl. by apply insert_subseteq.
    + right; right. eexists r, _. do 3 (split; [done|]). by split; [|reflexivity].
Qed.

Lemma apply_loop_ok ids st w st' w' :
  foldM (apply_candidate candidates) st ids w = (Ok st', w') →
  w_fs w' = w_fs w ∧ handled st' ≡ₚ handled st ++ ids ∧ as_memory st ⊆ as_memory st'.
Proof.
  revert st w. induction ids as [|id ids IH]; intros st w Hw; simpl in Hw.
  { apply ret_ok in Hw as [-> ->]. by rewrite app_nil_r. }
  exec Hw as st1 w1 (Hw1 & Hh1 & Hs1 & _)%apply_candidate_ok.
  apply IH in Hw as (Hw2 & Hh2 & Hs2). split_and!; [congruence| |by etrans].
  rewrite Hh2, Hh1. solve_Permutation.
Qed.

(** The loop only reads the clock and draws ids: it always returns. *)
Lemma apply_loop_total ids st w :
  ∃ st' w', foldM (apply_candidate candidates) st ids w = (Ok st', w').
Proof.
  revert st w. induction ids as [|id ids IH]; intros st w; simpl; [eexists _, _; done|].
  assert (∃ st1 w1, apply_candidate candidates st id w = (Ok st1, w1)) as (st1 & w1 & Hs).
  { unfold apply_candidate. destruct (find_first _ _); [|eexists _, _; done].
    case_bool_decide; [eexists _, _; done|].
    destruct (_ !! _); [destruct (String.eqb _ _)|]; eexists _, _; done. }
  rewrite (bind_run _ _ _ _ _ Hs). apply IH.
Qed.

(** An id that was applied or skipped as known is never applied again. *)
Definition settled (mem : gmap string ProjectMemoryRecord) (id : string) : Prop :=
  match find_candidate id with
  | None => True
  | Some r => cmr_status r = Conflict ∨ is_Some (mem !! memory_key (candidate r))
  end.

Lemma apply_settles st id w st' w' :
  apply_candidate candidates st id w = (Ok st', w') → settled (as_memory st') id.
Proof.
  intros Hw. unfold settled, apply_candidate in *. fold (find_candidate id) in Hw.
  destruct (find_candidate id) as [r|]; [|done].
  case_bool_decide as Hc; [by left|right].
  destruct (as_memory st !! memory_key (candidate r)) as [e|] eqn:Hk.
  - destruct (String.eqb _ _); apply ret_ok in Hw as [-> ->]; simpl; eauto.
  - exec Hw as nid w1 _. exec Hw as t w2 _. apply ret_ok in Hw as [-> ->]. simpl.
    rewrite lookup_insert_eq. eauto.
Qed.

Lemma settled_mono mem mem' id : mem ⊆ mem' → settled mem id → settled mem' id.
Proof.
  intros Hs. unfold settled. destruct (find_candidate id) as [r|]; [|done].
  intros [?|[x Hx]]; [by left|right]. exists x. by eapply lookup_weaken.
Qed.

Lemma apply_loop_settles ids st w st' w' :
  foldM (apply_candidate candidates) st ids w = (Ok st', w') →
  ∀ id, id ∈ ids → settled (as_memory st') id.
Proof.
  revert st w. induction ids as [|i ids IH]; intros st w Hw id Hid; simpl in Hw.
  { by apply not_elem_of_nil in Hid. }
  exec Hw as st1 w1 H1. apply elem_of_cons in Hid as [->|Hid]; [|by eapply IH].
  apply apply_settles in H1. apply apply_loop_ok in Hw as (_ & _ & Hs).
  by eapply settled_mono.
Qed.

Lemma apply_settled_again ids st w st' w' :
  (∀ id, id ∈ ids → settled (as_memory st) id) →
  foldM (apply_candidate candidates) st ids w = (Ok st', w') →
  as_memory st' = as_memory st ∧ applied (as_out st') = applied (as_out st).
Proof.
  revert st w. induction ids as [|i ids IH]; intros st w Hset Hw; simpl in Hw.
  { by apply ret_ok in Hw as [-> ->]. }
  exec Hw as st1 w1 H1.
  assert (as_memory st1 = as_memory st ∧ applied (as_out st1) = applied (as_out st))
    as [Hm Ha].
  { apply apply_candidate_ok in H1 as (_ & _ & _ & [->|[->|(r & p & Hf & Hc & Hn & _)]]);
      [done..|]. exfalso. specialize (Hset i ltac:(left)). unfold settled in Hset.
    rewrite Hf in Hset. destruct Hset as [?|[x Hx]]; [done|congruence]. }
  apply IH in Hw as [-> ->]; [done|]. intros id Hid. rewrite Hm. apply Hset. by right.
Qed.
End memory.

(** Applying memory candidates sorts the requested ids into applied, skipped
    and conflicting ones, losing and inventing none, never changes or removes an
    entry the memory had, and applying the same ids again applies nothing. *)
Theorem apply_memory_spec `{Sys} candidates mem ids w :
  let st0 := {| as_memory := mem;
                as_out := {| applied := []; skipped := []; conflicts := [] |} |} in
  ∃ st w', foldM (apply_candidate candidates) st0 ids w = (Ok st, w') ∧
    w_fs w' = w_fs w ∧
    applied (as_out st) ++ skipped (as_out st) ++ conflicts (as_out st) ≡ₚ ids ∧
    mem ⊆ as_memory st ∧
    ∀ w2, ∃ st2 w2',
      foldM (apply_candidate candidates)
        {| as_memory := as_memory st;
           as_out := {| applied := []; skipped := []; conflicts := [] |} |} ids w2
      = (Ok st2, w2') ∧ as_memory st2 = as_memory st ∧ applied (as_out st2) = [].
Proof.
  intros st0. destruct (apply_loop_total candidates ids st0 w) as (st & w' & Hw).
  exists st, w'. pose proof (apply_loop_ok _ _ _ _ _ _ Hw) as (Hfs & Hh & Hs).
  split_and!; [done..|]. intros w2.
  edestruct (apply_loop_total candidates ids) as (st2 & w2' & Hw2).
  exists st2, w2'. split; [exact Hw2|].
  apply apply_settled_again in Hw2; [done|]. simpl. by eapply apply_loop_settles.
Qed.

(** ** Tracebacks *)

Section traceback.
Context `{Sys} `{Codecs} `{!SerdeOk TaskRecord} `{!SerdeOk TracebackIndex}.
Context (self : CodexNewCore) (Z : path → Prop) (m : TaskManifest).
Local Abbreviation pid := (m_project_id m).
Local Abbreviation tid := (m_task_id m).
Local Abbreviation O := (original_root m).
Local Abbreviation W := (workspace_root m).
Local Abbreviation tp := (task_path self pid tid).
Local Abbreviation inv := (task_inv self pid tid).
Local Abbreviation ok := (store_ok Z inv).
Local Abbreviation originals := (tp ["snapshots"; "traceback"; "original"]).
Local Abbreviation copies := (tp ["snapshots"; "traceback"; "workspace"]).
Local Abbreviation index_file := (tp ["snapshots"; "traceback"; "index.json"]).
Context (Hl : merge_layout self Z m).

Lemma traceback_root_path :
  traceback_root (task_root self pid tid) = tp ["snapshots"; "traceback"].
Proof.
  unfold traceback_root.
  rewrite (task_root_eq self pid tid (ta_pid _ _ _ _ (ml_area _ _ _ Hl))
             (ta_tid _ _ _ _ (ml_area _ _ _ Hl))).
  by rewrite !task_path_join.
Qed.

Lemma mkdir_ok l w u w' :
  ok (w_fs w) → no_dotdot l → dirs_free l = true →
  (create_dir_all (tp l) : R unit) w = (Ok u, w') →
  ok (w_fs w') ∧ ∀ q, file_of (w_fs w') q = file_of (w_fs w) q.
Proof.
  intros Hok Hd Hf Hw. apply (create_dir_all_ok Z inv) in Hw; [done|done| |].
  - by apply (task_clear _ _ _ _ (ml_area _ _ _ Hl)).
  - by apply task_dirs_to.
Qed.

Lemma ensure_dirs_ok w u w' :
  ok (w_fs w) → ensure_traceback_dirs (task_root self pid tid) w = (Ok u, w') →
  ok (w_fs w') ∧ ∀ q, file_of (w_fs w') q = file_of (w_fs w) q.
Proof.
  intros Hok Hw. unfold ensure_traceback_dirs in Hw.
  rewrite traceback_root_path, !task_path_join in Hw by done. simpl in Hw.
  exec Hw as u1 w1 H1. apply mkdir_ok in H1 as [Hok1 Ha1]; [|done|by repeat constructor|done].
  apply mkdir_ok in Hw as [Hok2 Ha2]; [|done|by repeat constructor|done].
  split; [done|]. intros q. by rewrite Ha2, Ha1.
Qed.

(** The index as it is stored. *)
Definition index_of (a : store) : option TracebackIndex :=
  match a index_file with Some s => from_slice s | None => Some ∅ end.

Lemma index_clear : clear Z index_file.
Proof. apply (task_clear _ _ _ _ (ml_area _ _ _ Hl)). by repeat constructor. Qed.

Lemma read_index_ok w idx w' :
  ok (w_fs w) → read_index (tp ["snapshots"; "traceback"]) w = (Ok idx, w') →
  w' = w ∧ index_of (file_of (w_fs w)) = Some idx.
Proof.
  intros Hok Hw. unfold read_index in Hw. rewrite task_path_join in Hw by done. simpl in Hw.
  exec Hw as e w1 [-> ->]%exists_ok. unfold index_of.
  destruct (fs_exists (w_fs w) index_file) eqn:He; simpl in Hw.
  - exec Hw as s w2 Hs.
    apply (read_ok_clear Z) in Hs as [-> Hs]; [|apply Hok|apply index_clear].
    apply ok_or_ok in Hw as [Hw ->]. by rewrite Hs.
  - apply ret_ok in Hw as [-> ->]. split; [done|]. unfold file_of.
    by rewrite (exists_false_clear Z _ (st_fs Z inv _ Hok) _ index_clear He).
Qed.

Lemma write_index_ok idx w u w' :
  ok (w_fs w) → write_index (tp ["snapshots"; "traceback"]) idx w = (Ok u, w') →
  ok (w_fs w') ∧
  ∀ q, file_of (w_fs w') q = fput index_file (Some (to_vec_pretty idx)) (file_of (w_fs w)) q.
Proof.
  intros Hok Hw. unfold write_index in Hw. rewrite task_path_join in Hw by done. simpl in Hw.
  exec Hw as u1 w1 H1. apply mkdir_ok in H1 as [Hok1 Ha1]; [|done|by repeat constructor|done].
  apply (write_ok Z inv) in Hw as [Hok2 Ha2]; [|done|apply index_clear|].
  - split; [done|]. intros q. rewrite Ha2. unfold fput. case_decide; [done|]. apply Ha1.
  - apply task_file_inv. path_ne.
Qed.

Lemma hash_or_read_world h root p w r w' :
  hash_or_read h root p w = (Ok r, w') → w_fs w' = w_fs w.
Proof.
  intros Hw. pose proof (stable_hash_or_read (Rel := eq) h root p w) as Heq.
  by rewrite Hw in Heq.
Qed.

Lemma snap_ready_original p : snap_ready Z inv originals p.
Proof. apply (snaps_ready self Z m Hl); [by repeat constructor|done..]. Qed.
Lemma snap_ready_copy p : snap_ready Z inv copies p.
Proof. apply (snaps_ready self Z m Hl); [by repeat constructor|done..]. Qed.

Lemma originals_apart : apart originals copies.
Proof.
  split; intros [k Hk]; unfold task_path in Hk; rewrite <- !(assoc (++)) in Hk;
    apply (inj (app _)) in Hk; simplify_eq.
Qed.

(** After the entry is known: the workspace's version is saved and the index is
    written, no original is touched. *)
Lemma record_tail_ok c entry t idx w e w' :
  ok (w_fs w) → c ∈ changed_files m →
  (_ ← snapshot_file W copies (cf_path c);
   h ← hash_or_read (after_ai_hash c) W (cf_path c);
   _ ← write_index (tp ["snapshots"; "traceback"]) (<[cf_path c := bump_entry entry h t]> idx);
   mret (bump_entry entry h t) : R TracebackEntry) w = (Ok e, w') →
  ok (w_fs w') ∧ revision e = u64_sat_add (revision entry) 1 ∧
  index_of (file_of (w_fs w')) = Some (<[cf_path c := e]> idx) ∧
  ∀ p, snap_value originals p (file_of (w_fs w')) = snap_value originals p (file_of (w_fs w)).
Proof.
  intros Hok Hc Hw. exec Hw as u7 w7 H7.
  apply (snapshot_file_ok Z inv) in H7 as [Hok7 Ha7];
    [|done|by apply (ml_clear_w _ _ _ Hl)|apply snap_ready_copy
     |by apply blob_ne, (ml_ws _ _ _ Hl)|by apply missing_ne, (ml_ws _ _ _ Hl)].
  exec Hw as h' w8 H8%hash_or_read_world. exec Hw as u9 w9 H9. rewrite <- H8 in Hok7.
  apply write_index_ok in H9 as [Hok9 Ha9]; [|done].
  apply ret_ok in Hw as [-> ->]. split_and!; [done|done| |].
  - unfold index_of. rewrite Ha9, fput_eq. apply from_slice_to_vec.
  - intros p. apply snap_value_agree. intros q Hq.
    rewrite Ha9, fput_ne, H8, Ha7, snapped_outside; [done| |].
    + intros Hq'. eapply apart_under; [apply originals_apart|exact Hq|exact Hq'].
    + intros ->. destruct Hq as [k Hk]. unfold task_path in Hk.
      rewrite <- !(assoc (++)) in Hk. apply (inj (app _)) in Hk. simplify_eq.
Qed.

(** What recording an edit leaves in the store: the first one of a file saves
    the project's version, a later one keeps what is saved. *)
Lemma record_ok c w e w' :
  ok (w_fs w) → c ∈ changed_files m →
  record_edit_traceback m (task_root self pid tid) c w = (Ok e, w') →
  ok (w_fs w') ∧ ∃ idx,
    index_of (file_of (w_fs w)) = Some idx ∧
    index_of (file_of (w_fs w')) = Some (<[cf_path c := e]> idx) ∧
    match idx !! cf_path c with
    | Some e0 =>
        revision e = u64_sat_add (revision e0) 1 ∧
        ∀ p, snap_value originals p (file_of (w_fs w')) = snap_value originals p (file_of (w_fs w))
    | None =>
        revision e = 1%N ∧
        ∀ p, snap_value originals p (file_of (w_fs w')) =
             snap_value originals p (snapped originals (cf_path c)
               (file_of (w_fs w) (O ++ comps (cf_path c))) (file_of (w_fs w)))
    end.
Proof.
  intros Hok Hc Hw. unfold record_edit_traceback in Hw.
  rewrite traceback_root_path, !task_path_join in Hw by done. simpl in Hw.
  exec Hw as u1 w1 [Hok1 Ha1]%ensure_dirs_ok; [|done].
  exec Hw as idx w2 [-> Hidx]%read_index_ok; [|done].
  assert (Hidx0 : index_of (file_of (w_fs w)) = Some idx).
  { unfold index_of in *. by rewrite <- Ha1. }
  assert (Sv : ∀ p, snap_value originals p (file_of (w_fs w1)) =
                    snap_value originals p (file_of (w_fs w)))
    by (intros p; by apply snap_value_agree).
  exec Hw as t w3 H3%now_ok. rewrite <- H3 in Hok1. destruct (idx !! cf_path c) as [e0|] eqn:Hi.
  - exec Hw as entry w4 [-> ->]%ret_ok.
    apply record_tail_ok in Hw as (Hok' & Hr & Hx & Hs); [|done..]. split; [done|].
    exists idx. rewrite Hi. split_and!; [done..|]. intros p. by rewrite Hs, H3, Sv.
  - exec Hw as entry w4 H4. exec H4 as u5 w5 H5.
    apply (snapshot_file_ok Z inv) in H5 as [Hok5 Ha5];
      [|done|by apply (ml_clear_o _ _ _ Hl)|apply snap_ready_original
       |by apply blob_ne, (ml_orig _ _ _ Hl)|by apply missing_ne, (ml_orig _ _ _ Hl)].
    exec H4 as h w6 H6%hash_or_read_world. apply ret_ok in H4 as [-> ->]. rewrite <- H6 in Hok5.
    apply record_tail_ok in Hw as (Hok' & Hr & Hx & Hs); [|done..]. split; [done|].
    exists idx. rewrite Hi. split_and!; [done..|]. intros p. rewrite Hs, H6.
    rewrite (snap_value_agree originals p _ _ (λ q _, Ha5 q)), H3, (Ha1 (O ++ comps (cf_path c))).
    unfold snap_value, snapped. destruct (file_of (w_fs w) _); unfold fput; by rewrite !Ha1.
Qed.

(** The original of a file that is saved, and its number of revisions. *)
Definition saved (p : string) (v : option string) (r : N) (w : world) : Prop :=
  ok (w_fs w) ∧ snap_value originals p (file_of (w_fs w)) = v ∧
  ∃ idx e, index_of (file_of (w_fs w)) = Some idx ∧ idx !! p = Some e ∧ revision e = r.

Lemma record_first_saves c w e w' :
  ok (w_fs w) → c ∈ changed_files m →
  (∀ idx, index_of (file_of (w_fs w)) = Some idx → idx !! cf_path c = None) →
  record_edit_traceback m (task_root self pid tid) c w = (Ok e, w') →
  saved (cf_path c) (file_of (w_fs w) (O ++ comps (cf_path c))) 1 w'.
Proof.
  intros Hok Hc Hnew (Hok' & idx & Hi & Hi' & Hr)%record_ok; [|done..].
  rewrite (Hnew idx Hi) in Hr. destruct Hr as [Hr Hs]. split_and!; [done| |].
  - by rewrite Hs, snap_value_snapped.
  - exists (<[cf_path c := e]> idx), e. by rewrite lookup_insert_eq.
Qed.

Lemma record_keeps c w e w' p v r :
  saved p v r w → c ∈ changed_files m → cf_path c = p ∨ encode_path (cf_path c) ≠ encode_path p →
  record_edit_traceback m (task_root self pid tid) c w = (Ok e, w') →
  saved p v (if decide (cf_path c = p) then u64_sat_add r 1 else r) w'.
Proof.
  intros (Hok & Hs & idx & e0 & Hi & He & Hr) Hc Hp (Hok' & idx' & Hi1 & Hi' & Hx)%record_ok; [|done..].
  simplify_eq. split; [done|]. case_decide as D.
  - rewrite D, He in Hx. destruct Hx as [Hr Hx]. split; [by rewrite Hx|].
    exists (<[cf_path c := e]> idx), e. rewrite D in *. by rewrite lookup_insert_eq.
  - destruct Hp as [?|Hp]; [done|]. split.
    + destruct (idx !! cf_path c); destruct Hx as [_ Hx]; rewrite Hx; [done|by apply snap_value_other].
    + exists (<[cf_path c := e]> idx), e0. by rewrite lookup_insert_ne.
Qed.

Lemma restore_saved p v r w out w' :
  saved p v r w → (∃ c, c ∈ changed_files m ∧ cf_path c = p) →
  restore_file m (task_root self pid tid) p Project w = (Ok out, w') →
  tro_revision out = r ∧ file_of (w_fs w') (O ++ comps p) = v ∧
  ∀ q, q ≠ O ++ comps p → file_of (w_fs w') q = file_of (w_fs w) q.
Proof.
  intros (Hok & Hs & idx & e & Hi & He & Hr) (c & Hc & <-) Hw.
  unfold restore_file in Hw. rewrite traceback_root_path in Hw.
  exec Hw as idx' w4 [-> Hi']%read_index_ok; [|done]. simplify_eq.
  exec Hw as e' w5 [He' ->]%ok_or_ok. simplify_eq.
  rewrite task_path_join in Hw by done. exec Hw as u6 w6 H6.
  apply (restore_snapshot_ok Z inv) in H6 as [_ Ha6];
    [|done|by apply (ml_clear_o _ _ _ Hl)|apply snap_ready_original
     |intros Heq; symmetry in Heq; revert Heq; by apply blob_ne, (ml_orig _ _ _ Hl)
     |by apply outside_parents_to, not_state, (ml_orig _ _ _ Hl)
     |intros s; by apply outside_inv, not_state, (ml_orig _ _ _ Hl)].
  apply ret_ok in Hw as [-> ->]. split_and!; [done| |].
  - by rewrite Ha6, fput_eq.
  - intros q Hq. rewrite Ha6. by apply fput_ne.
Qed.
End traceback.

(** *** What may happen between an edit and its restoration *)

Section since.
Context `{Sys} `{Codecs} `{!SerdeOk TaskRecord} `{!SerdeOk TracebackIndex}.
Context (self : CodexNewCore) (Z : path → Prop) (m : TaskManifest).

(** A later manifest of the same task. *)
Definition same_task (m' : TaskManifest) : Prop :=
  m_project_id m' = m_project_id m ∧ m_task_id m' = m_task_id m.

(** Any change of files outside of the traceback, and recorded edits, also of
    the file [p], whose number is counted.  The snapshots of two paths have
    one name when they are encoded alike. *)
Inductive since (p : string) (w : world) : nat → world → Prop :=
| since_now : since p w 0 w
| since_changed w1 n w2 :
    store_ok Z (task_inv self (m_project_id m) (m_task_id m)) (w_fs w1) →
    (∀ q, under (task_path self (m_project_id m) (m_task_id m) ["snapshots"; "traceback"]) q →
       file_of (w_fs w1) q = file_of (w_fs w) q) →
    since p w1 n w2 → since p w n w2
| since_recorded m' c e w1 n w2 :
    same_task m' → merge_layout self Z m' → c ∈ changed_files m' →
    cf_path c = p ∨ encode_path (cf_path c) ≠ encode_path p →
    record_edit_traceback m' (task_root self (m_project_id m) (m_task_id m)) c w = (Ok e, w1) →
    since p w1 n w2 → since p w (if decide (cf_path c = p) then S n else n) w2.

Lemma saved_same m' p v r w : same_task m' → saved self Z m' p v r w ↔ saved self Z m p v r w.
Proof. intros [E1 E2]. unfold saved, index_of. by rewrite E1, E2. Qed.

Lemma saved_changed p v r w w' :
  store_ok Z (task_inv self (m_project_id m) (m_task_id m)) (w_fs w') →
  (∀ q, under (task_path self (m_project_id m) (m_task_id m) ["snapshots"; "traceback"]) q →
     file_of (w_fs w') q = file_of (w_fs w) q) →
  saved self Z m p v r w → saved self Z m p v r w'.
Proof.
  intros Hok K (_ & Hs & idx & e & Hi & He). split; [done|]. split.
  - rewrite <- Hs. apply snap_value_agree. intros q Hq. apply K. eapply under_trans; [|exact Hq].
    replace (task_path self (m_project_id m) (m_task_id m) ["snapshots"; "traceback"; "original"])
      with (task_path self (m_project_id m) (m_task_id m) ["snapshots"; "traceback"] ++ ["original"])
      by (by rewrite task_path_app). apply under_app.
  - exists idx, e. split; [|done]. unfold index_of in *. rewrite K; [done|].
    replace (task_path self (m_project_id m) (m_task_id m) ["snapshots"; "traceback"; "index.json"])
      with (task_path self (m_project_id m) (m_task_id m) ["snapshots"; "traceback"] ++ ["index.json"])
      by (by rewrite task_path_app). apply under_app.
Qed.

Lemma since_saved p v r w n w' :
  saved self Z m p v r w → (r ≤ u64_max)%N → since p w n w' →
  saved self Z m p v (N.min u64_max (r + N.of_nat n)) w'.
Proof.
  intros Sv Hr St. revert r Hr Sv.
  induction St as [w|w w1 n w2 Hok K _ IH|w m' c e w1 n w2 Sm Hl Hc Hp Hw _ IH]; intros r Hr Sv.
  - replace (N.min _ _) with r; [done|]. simpl. lia.
  - apply IH; [done|]. by eapply saved_changed.
  - apply (saved_same m') in Sv; [|done]. pose proof Sm as [E1 E2]. rewrite <- E1, <- E2 in Hw.
    eapply (record_keeps self Z m' Hl) in Hw; [|exact Sv|done..]. apply saved_same in Hw; [|done].
    case_decide.
    + specialize (IH (u64_sat_add r 1)). replace (N.min u64_max (r + N.of_nat (S n)))%N
        with (N.min u64_max (u64_sat_add r 1 + N.of_nat n))%N; [apply IH; [|done]|];
        unfold u64_sat_add; lia.
    + by apply IH.
Qed.

(** C34: Restoring a file of the project from its traceback gives it the version it
    had when its first edit was recorded, whatever happened to the project and the
    workspace since, however often the file was recorded again in between and
    whichever other files were recorded, and changes no other file; the revision it
    reports is the number of recorded edits. The files of the traceback are not
    changed from outside, the other recorded paths are not encoded to the name of
    this one, the project, the workspace and the state directory lie apart, and no
    symbolic link leads to a changed file of the task. *)
Theorem traceback_restores_original c w e w1 n w2 out w3 :
  merge_layout self Z m →
  store_ok Z (task_inv self (m_project_id m) (m_task_id m)) (w_fs w) →
  c ∈ changed_files m →
  (∀ idx, index_of self m (file_of (w_fs w)) = Some idx → idx !! cf_path c = None) →
  record_edit_traceback m (task_root self (m_project_id m) (m_task_id m)) c w = (Ok e, w1) →
  since (cf_path c) w1 n w2 →
  restore_file m (task_root self (m_project_id m) (m_task_id m)) (cf_path c) Project w2 = (Ok out, w3) →
  tro_revision out = N.min u64_max (1 + N.of_nat n) ∧
  file_of (w_fs w3) (original_root m ++ comps (cf_path c)) =
    file_of (w_fs w) (original_root m ++ comps (cf_path c)) ∧
  ∀ q, q ≠ original_root m ++ comps (cf_path c) → file_of (w_fs w3) q = file_of (w_fs w2) q.
Proof.
  intros Hl Hok Hc Hnew Hrec Hsince Hw.
  eapply (record_first_saves self Z m Hl) in Hrec; [|done..].
  eapply since_saved in Hsince; [|exact Hrec|done].
  eapply (restore_saved self Z m Hl); [exact Hsince|eauto|exact Hw].
Qed.
End since.

(** ** Witness *)

Definition demo_task_root : path :=
  task_root demo_core (m_project_id demo_manifest1) (m_task_id demo_manifest1).
Definition demo_record :=
  record_edit_traceback demo_manifest1 demo_task_root
    demo_change demo_world.

(** The project file is overwritten after the edit was recorded, and the file
    is recorded again. *)
Definition demo_overwritten : world :=
  set_fs (<[demo_root ++ ["a.txt"] := File "lost"]> (w_fs (snd demo_record)))
    (snd demo_record).
Definition demo_again :=
  record_edit_traceback demo_manifest1 demo_task_root demo_change demo_overwritten.

Lemma traceback_restores_original_witness :
  ∃ out w3, restore_file demo_manifest1 demo_task_root "a.txt" Project (snd demo_again) = (Ok out, w3) ∧
    tro_revision out = 2%N ∧ file_of (w_fs w3) (demo_root ++ ["a.txt"]) = Some "old".
Proof.
  destruct (is_ok_split demo_record) as (e & w1 & Hrec); [vm_compute; reflexivity|].
  destruct (is_ok_split demo_again) as (e2 & w2 & Hrec2); [vm_compute; reflexivity|].
  destruct (is_ok_split (restore_file demo_manifest1
    demo_task_root "a.txt" Project (snd demo_again))) as (out & w3 & Hres); [vm_compute; reflexivity|].
  exists out, w3. split; [exact Hres|].
  assert (Hpath : demo_root ++ ["a.txt"]
                  = original_root demo_manifest1 ++ comps (cf_path demo_change))
    by (vm_compute; reflexivity).
  assert (Hold : file_of (w_fs demo_world)
                   (original_root demo_manifest1 ++ comps (cf_path demo_change)) = Some "old")
    by (vm_compute; reflexivity).
  assert (Hname : "a.txt" = cf_path demo_change) by (vm_compute; reflexivity).
  assert (Hin : demo_change ∈ changed_files demo_manifest1)
    by (apply list_elem_of_In; vm_compute; right; left; reflexivity).
  rewrite Hpath, <- Hold. unfold demo_record in Hrec.
  unfold demo_again in Hrec2. rewrite Hname in Hres. unfold demo_again in Hres.
  rewrite Hrec2 in Hres. unfold demo_task_root in Hrec2, Hres, Hrec.
  destruct (traceback_restores_original demo_core no_links demo_manifest1 demo_change demo_world
    e w1 1 w2 out w3) as (Hr & Hf & _).
  - exact demo_merge_layout.
  - exact demo_store.
  - exact Hin.
  - intros idx Hidx. vm_compute in Hidx. injection Hidx as <-. vm_compute. reflexivity.
  - exact Hrec.
  - apply (since_changed _ _ _ _ _ demo_overwritten).
    + apply check_store_ok. vm_compute. reflexivity.
    + intros q Hq. unfold demo_overwritten, demo_record, demo_task_root. rewrite Hrec. simpl.
      apply file_of_insert_ne. intros <-. destruct Hq as [k Hk]. vm_compute in Hk.
      discriminate Hk.
    + pose proof (since_recorded demo_core no_links demo_manifest1 (cf_path demo_change) demo_overwritten
        demo_manifest1 demo_change e2 w2 0 w2 (conj eq_refl eq_refl) demo_merge_layout Hin
        (or_introl eq_refl) Hrec2 (since_now _ _ _ _ _)) as Hs.
      rewrite decide_True in Hs by reflexivity. exact Hs.
  - exact Hres.
  - split; [exact Hr|exact Hf].
Defined.
