(* ===== verification/MergeFrame.v ===== *)
(** * What a merge can touch, however it ends

    Frames for every outcome of [merge], including errors and panics in the
    middle and hunk selections: nothing outside the accepted files, and the
    locks are released. *)

From S2P Require Import Prelude RustStr FsModel World Models FsFacts Frame Fsx Workspace.
From S2P Require Import Activity Diff Changes Engine Exec Memory.
From S2P Require Import FsxProps Layout MergeFacts ChangesProps Concrete Demo.

(** ** Releasing a lock *)

Lemma release_lock_gone Z I p fs :
  store_ok Z I fs → clear Z p → file_of (release_lock p fs) p = None.
Proof.
  intros Hok Hcl. pose proof (st_fs Z I fs Hok) as Hfs. unfold release_lock.
  destruct (fs_remove_file fs p) as [k|fs'] eqn:Hr.
  - destruct (file_of fs p) as [s|] eqn:Hs; [|done]. exfalso.
    assert (Hn : fs !! p = Some (File s)).
    { unfold file_of in Hs. by destruct (fs !! p) as [[]|]; simplify_eq. }
    pose proof (lstat_present Z fs Hfs p _ Hcl Hn) as Hl. unfold lstat in Hl.
    unfold fs_remove_file in Hr. destruct (lresolve fs p) as [|q] eqn:Hq; [done|].
    apply (lresolve_clear Z fs Hfs) in Hq as [-> _]; [|done].
    destruct (look fs p) as [[]|]; simplify_eq.
  - apply (remove_clear Z fs Hfs) in Hr as (-> & _ & _); [|done]. apply file_of_delete_eq.
Qed.

Section frame.
Context `{Sys} `{Codecs} `{!SerdeOk TaskRecord} `{!GitDiffReads}.
Context (self : CodexNewCore) (Z : path → Prop) (m : TaskManifest).
Local Abbreviation pid := (m_project_id m).
Local Abbreviation tid := (m_task_id m).
Local Abbreviation O := (original_root m).
Local Abbreviation W := (workspace_root m).
Local Abbreviation tp := (task_path self pid tid).
Local Abbreviation inv := (task_inv self pid tid).
Local Abbreviation mpath := (manifest_file self pid tid).
Context (Hl : merge_layout self Z m) (sel : gset string) (K : path → Prop).
Context (HKt : ∀ l, K (tp l) → False) (HKl : ∀ name, K (lock_path self pid name) → False).
Context (HKo : ∀ c, c ∈ changed_files m → cf_path c ∈ sel →
               K (O ++ comps (cf_path c)) → False).
Local Abbreviation keeps := (keeps_files Z inv K).

Lemma project_writable c :
  c ∈ changed_files m → cf_path c ∈ sel → writable Z inv K (O ++ comps (cf_path c)).
Proof.
  intros Hc Hs. split.
  - by apply (ml_clear_o _ _ _ Hl).
  - apply outside_parents_to, not_state, (ml_orig _ _ _ Hl).
  - intros s. apply outside_inv, not_state, (ml_orig _ _ _ Hl).
  - exact (HKo c Hc Hs).
Qed.

Lemma snapshot_writable d p :
  d ≠ ".." → String.eqb d "traceback" = false →
  writable Z inv K (snapshot_blob_path (tp ["snapshots"; d]) p) ∧
  writable Z inv K (snapshot_missing_path (tp ["snapshots"; d]) p).
Proof.
  intros Hd Ht. pose proof (plain_not_dotdot _ (blob_name_plain p)).
  pose proof (plain_not_dotdot _ (missing_name_plain p)).
  rewrite snapshot_blob_path_eq, snapshot_missing_path_eq, !task_path_app.
  split; apply task_writable; try apply (ml_area _ _ _ Hl); try exact (HKt _); try done;
    by repeat constructor.
Qed.

Lemma apply_hunks_frame c hunks :
  c ∈ changed_files m → cf_path c ∈ sel →
  stable keeps (apply_selected_hunks O W (cf_path c) hunks).
Proof.
  intros Hc Hs. pose proof (project_writable c Hc Hs) as Hw. unfold apply_selected_hunks.
  destruct (bool_decide _); [apply stable_ret|].
  apply stable_checked_join_bind. intros _. apply stable_checked_join_bind. intros _.
  apply stable_bind; [apply stable_exists|]. intros [].
  - apply stable_bind; [apply stable_exists|]. intros ge.
    apply stable_bind; [destruct ge; [apply stable_workspace_diff|apply stable_ret]|].
    intros unified.
    assert (Hcopy : stable keeps (copy_file_or_remove W O (cf_path c))).
    { apply stable_copy_file_or_remove; [by apply (ml_clear_w _ _ _ Hl)|done]. }
    destruct (parse_unified_diff unified !! cf_path c) as [[bin [|h hs]]|]; [done| |done].
    apply stable_bind.
    { unfold read_file_lines. apply stable_bind; [apply stable_exists|]. intros b.
      destruct (negb b); [apply stable_ret|].
      apply stable_bind; [apply stable_read_to_string|]. intros. apply stable_ret. }
    intros original. apply stable_bind.
    { unfold apply_parsed_hunks. destruct (apply_parsed_hunks_opt _ _ _);
        [apply stable_ret|apply stable_panic]. }
    intros merged. unfold write_file_lines.
    apply stable_bind; [apply stable_create_parent; apply Hw|]. intros _.
    apply stable_write; apply Hw.
  - apply stable_bind; [apply stable_exists|]. intros b.
    apply stable_remove_if; apply Hw.
Qed.

Lemma merge_file_frame hunks c :
  c ∈ changed_files m → cf_path c ∈ sel →
  stable keeps (merge_file m (tp ["snapshots"; "before"]) (tp ["snapshots"; "after-merge"])
                  hunks c).
Proof.
  intros Hc Hs. unfold merge_file.
  destruct (snapshot_writable "before" (cf_path c)) as [Hb1 Hb2]; [done..|].
  destruct (snapshot_writable "after-merge" (cf_path c)) as [Ha1 Ha2]; [done..|].
  apply stable_bind; [apply stable_snapshot_file; [intros; by apply (ml_clear_o _ _ _ Hl)|done..]|].
  intros _. apply stable_bind.
  { destruct (existsb _ _); [by apply apply_hunks_frame|].
    apply stable_copy_file_or_remove; [by apply (ml_clear_w _ _ _ Hl)|].
    by apply project_writable. }
  intros _.
  apply stable_bind; [apply stable_snapshot_file; [intros; by apply (ml_clear_o _ _ _ Hl)|done..]|].
  intros _. apply stable_bind; [|intros; apply stable_ret].
  apply stable_checked_join_bind. intros _. apply stable_file_hash.
Qed.

Lemma merge_one_frame hunks acc c :
  c ∈ changed_files m →
  stable keeps (merge_one self m sel (tp ["snapshots"; "before"])
                  (tp ["snapshots"; "after-merge"]) hunks acc c).
Proof.
  intros Hc. unfold merge_one. destruct acc as [[done acc] skip].
  case_bool_decide as Hs; simpl; [|apply stable_ret].
  apply stable_bind; [apply (path_lock_frame self Z m Hl); exact (HKl _)|]. intros _.
  apply stable_bind; [|intros; apply stable_ret].
  apply stable_finally; [by apply merge_file_frame|]. intros fs.
  rewrite (path_lock_path_eq self pid tid (ta_pid _ _ _ _ (ml_area _ _ _ Hl))
             (ta_tid _ _ _ _ (ml_area _ _ _ Hl))).
  apply (release_frame self Z m Hl); [done|exact (HKl _)].
Qed.

Lemma merge_body_frame req :
  sel = selected_paths (changed_files m) (mr_selection req) →
  stable keeps (merge_body self mpath req m).
Proof.
  intros Hsel. unfold merge_body. rewrite <- Hsel.
  rewrite !(snapshot_dirs_eq self Z m Hl) by done.
  apply stable_bind; [apply frame_timeline; [apply (ml_area _ _ _ Hl)|exact (HKt _)]|]. intros _.
  apply stable_bind; [apply (verify_frame self Z m Hl); exact (HKt _)|]. intros _.
  apply stable_bind.
  { apply stable_foldM. intros acc c Hc. by apply merge_one_frame. }
  intros [[changes acc] skip]. apply stable_bind.
  { rewrite (task_root_eq self pid tid (ta_pid _ _ _ _ (ml_area _ _ _ Hl))
               (ta_tid _ _ _ _ (ml_area _ _ _ Hl))), !task_path_join by done.
    assert (Hw : writable Z inv K (tp ["changes"; "accepted.diff"])).
    { apply task_writable; [apply (ml_area _ _ _ Hl)|by repeat constructor|done|done|
                            exact (HKt _)]. }
    apply stable_write; apply Hw. }
  intros _. apply stable_bind; [apply stable_now|]. intros t. simpl.
  apply stable_bind; [apply frame_write_manifest; [apply (ml_area _ _ _ Hl)|exact (HKt _)]|].
  intros _.
  apply stable_bind; [apply frame_task_status; [apply (ml_area _ _ _ Hl)|exact (HKt _)]|].
  intros _.
  apply stable_bind; [apply frame_timeline; [apply (ml_area _ _ _ Hl)|exact (HKt _)]|].
  intros _. apply stable_ret.
Qed.

Lemma merge_refreshed_frame req :
  sel = selected_paths (changed_files m) (mr_selection req) →
  stable keeps (merge_refreshed self mpath req m).
Proof.
  intros Hsel. unfold merge_refreshed.
  apply stable_bind; [apply (merge_lock_frame self Z m Hl); exact (HKl _)|]. intros _.
  apply stable_finally; [by apply merge_body_frame|]. intros fs.
  rewrite (merge_lock_path_eq self pid tid (ta_pid _ _ _ _ (ml_area _ _ _ Hl))
             (ta_tid _ _ _ _ (ml_area _ _ _ Hl))).
  apply (release_frame self Z m Hl); [done|exact (HKl _)].
Qed.
End frame.

(** ** A failing acquisition *)

Section acquire.
Context `{Sys} `{Codecs}.
Context (self : CodexNewCore) (Z : path → Prop) (m : TaskManifest).
Context (Hl : merge_layout self Z m).

Lemma acquire_failed_keeps w r w' q :
  store_ok Z (task_inv self (m_project_id m) (m_task_id m)) (w_fs w) →
  is_ok r = false →
  acquire_merge_lock (project_root self (m_project_id m)) (m_task_id m) w = (r, w') →
  file_of (w_fs w') q = file_of (w_fs w) q.
Proof.
  intros Hok Hr. unfold acquire_merge_lock, acquire_lock.
  pose proof (ta_pid _ _ _ _ (ml_area _ _ _ Hl)) as Hp.
  rewrite (locks_root_eq self _ Hp). unfold mbind at 1, M_bind.
  destruct (create_dir_all _ w) as [[u|e|x] w1] eqn:Hm.
  - intros Hw.
    assert (Hk : file_of (w_fs w1) q = file_of (w_fs w) q).
    { eapply (keeps_run Z _ (λ _, True)) in Hm as [_ Hk]; [by apply Hk| |exact Hok].
      apply stable_mkdir; [|apply locks_dirs_to].
      apply (ta_clear _ _ _ _ (ml_area _ _ _ Hl) ["locks"]). by repeat constructor. }
    rewrite <- Hk. unfold mbind, M_bind, exists_ in Hw. destruct (fs_exists _ _).
    + by injection Hw as _ <-.
    + unfold write, lift_fs in Hw. destruct (fs_write _ _ _); by simplify_eq.
  - unfold create_dir_all, lift_fs in Hm. destruct (fs_create_dir_all _ _); naive_solver.
  - unfold create_dir_all, lift_fs in Hm. destruct (fs_create_dir_all _ _); naive_solver.
Qed.
End acquire.

Section props.
Context `{Sys} `{Codecs} `{!SerdeOk TaskRecord} `{!GitDiffReads}.
Implicit Types (self : CodexNewCore) (Z : path → Prop) (m : TaskManifest) (w : world).

(** A path of the workspace, or one of the project that the request does not
    select. *)
Definition untouched m (req : MergeRequest) (q : path) : Prop :=
  under (workspace_root m) q ∨
  (under (original_root m) q ∧
   ∀ c, c ∈ changed_files m →
     cf_path c ∈ selected_paths (changed_files m) (mr_selection req) →
     q ≠ original_root m ++ comps (cf_path c)).

(** C5: When the project, the workspace and the state directory lie apart and no
    symbolic link leads to a changed file, then however a merge ends (success, an
    error or a panic in the middle, whole files or single hunks), every file of the
    project other than the selected ones, and every file of the workspace, is
    unchanged. Files behind a directory that is linked into the workspace are
    outside of this. *)
Theorem merge_touches_only_selected self Z m req w r w' :
  merge_layout self Z m →
  store_ok Z (task_inv self (m_project_id m) (m_task_id m)) (w_fs w) →
  merge_refreshed self (manifest_file self (m_project_id m) (m_task_id m)) req m w
    = (r, w') →
  ∀ q, untouched m req q → file_of (w_fs w') q = file_of (w_fs w) q.
Proof.
  intros Hl Hok Hw.
  eapply (keeps_run Z (task_inv self (m_project_id m) (m_task_id m)) (untouched m req))
    in Hw as [_ Hk]; [exact Hk| |exact Hok].
  apply (merge_refreshed_frame self Z m Hl
           (selected_paths (changed_files m) (mr_selection req))); [..|done].
  - intros l [Hq|[Hq _]]; eapply apart_under;
      [apply (ml_ws _ _ _ Hl)|exact Hq|apply task_path_under
      |apply (ml_orig _ _ _ Hl)|exact Hq|apply task_path_under].
  - intros name Hq.
    assert (Hu : under (state_root self ++ ["projects"]) (lock_path self (m_project_id m) name)).
    { exists [m_project_id m; "locks"; name]. unfold lock_path. by rewrite <- (assoc (++)). }
    destruct Hq as [Hq|[Hq _]]; eapply apart_under;
      [apply (ml_ws _ _ _ Hl)|exact Hq|exact Hu|apply (ml_orig _ _ _ Hl)|exact Hq|exact Hu].
  - intros c Hc Hs [Hq|[_ Hq]]; [|by apply (Hq c)].
    eapply apart_under; [apply (ml_ow _ _ _ Hl)|apply under_app|exact Hq].
Qed.

(** C6: However a merge ends, the task's lock file is gone afterwards, unless the
    merge failed and left the lock file of another holder exactly as it found it. *)
Theorem merge_lock_released self Z m req w r w' :
  merge_layout self Z m →
  store_ok Z (task_inv self (m_project_id m) (m_task_id m)) (w_fs w) →
  merge_refreshed self (manifest_file self (m_project_id m) (m_task_id m)) req m w
    = (r, w') →
  let lock := merge_lock_path (project_root self (m_project_id m)) (m_task_id m) in
  file_of (w_fs w') lock = None ∨
  (is_ok r = false ∧ file_of (w_fs w') lock = file_of (w_fs w) lock).
Proof.
  intros Hl Hok Hw lock. unfold merge_refreshed in Hw.
  pose proof (ta_pid _ _ _ _ (ml_area _ _ _ Hl)) as Hp.
  pose proof (ta_tid _ _ _ _ (ml_area _ _ _ Hl)) as Ht.
  assert (Hlock : clear Z lock).
  { unfold lock. rewrite (merge_lock_path_eq self _ _ Hp Ht).
    by apply (lock_clear _ _ _ _ (ml_area _ _ _ Hl)). }
  unfold mbind, M_bind in Hw.
  destruct (acquire_merge_lock _ _ w) as [[u|e|x] w1] eqn:Ha.
  - left. unfold finally in Hw. destruct (merge_body _ _ _ _ w1) as [r2 w2] eqn:Hb.
    simplify_eq. simpl. eapply release_lock_gone; [|exact Hlock].
    eapply (keeps_run Z _ (λ _, False)) in Ha as [Hok1 _]; [|by apply (merge_lock_frame self Z m Hl); tauto|exact Hok].
    eapply (keeps_run Z _ (λ _, False)) in Hb as [Hok2 _]; [exact Hok2| |exact Hok1].
    by eapply (merge_body_frame self Z m Hl); tauto.
  - right. simplify_eq. split; [done|].
    by eapply (acquire_failed_keeps self Z m Hl); [exact Hok| |exact Ha].
  - right. simplify_eq. split; [done|].
    by eapply (acquire_failed_keeps self Z m Hl); [exact Hok| |exact Ha].
Qed.
End props.

(** ** Witnesses *)

(** Only the first change of the refreshed task is selected. *)
Definition demo_some : MergeRequest :=
  {| mr_selection := MFiles ["a.txt"] |}.

Lemma merge_touches_only_selected_witness :
  is_ok (fst (merge_refreshed demo_core demo_path demo_some demo_manifest1 demo_world1))
    = true ∧
  file_of (w_fs (snd (merge_refreshed demo_core demo_path demo_some demo_manifest1
                        demo_world1))) (demo_root ++ ["src"; "c.txt"])
  = file_of (w_fs demo_world1) (demo_root ++ ["src"; "c.txt"]).
Proof.
  split; [vm_compute; reflexivity|].
  refine (merge_touches_only_selected demo_core no_links demo_manifest1 demo_some
    demo_world1 _ _ demo_merge_layout demo_store1 (surjective_pairing _) _ _).
  right. split; [exists ["src"; "c.txt"]; vm_compute; reflexivity|].
  apply (Forall_forall (λ c, cf_path c ∈ _ → _ ≠ original_root demo_manifest1 ++ _)).
  apply (bool_decide_eq_true_1 _). vm_compute. reflexivity.
Defined.

(** The merge that a conflicting edit stops. *)
Definition demo_refused : outcome CodexNewError MergeOutcome * world :=
  merge_refreshed demo_core demo_path demo_all demo_manifest1 demo_edited.

Definition demo_lock : path :=
  merge_lock_path (project_root demo_core (m_project_id demo_manifest1))
    (m_task_id demo_manifest1).

Lemma merge_lock_released_witness :
  is_ok (fst demo_refused) = false ∧
  (file_of (w_fs (snd demo_refused)) demo_lock = None ∨
   (is_ok (fst demo_refused) = false ∧
    file_of (w_fs (snd demo_refused)) demo_lock = file_of (w_fs demo_edited) demo_lock)).
Proof.
  split; [vm_compute; reflexivity|].
  refine (merge_lock_released demo_core no_links demo_manifest1 demo_all
    demo_edited _ _ demo_merge_layout _ (surjective_pairing _)).
  apply check_store_ok. vm_compute. reflexivity.
Defined.
