(* ===== verification/Progress.v ===== *)
(** * When operations succeed

    A calculus of success for effectful functions, and its rules for the
    functions of [fsx.rs]. *)

From S2P Require Import Prelude RustStr FsModel World Models FsFacts Frame Fsx Exec.
From S2P Require Import FsxProps.

(** * When effectful functions succeed

    [succeeds P m Q]: from a file system that satisfies [P] the function [m]
    returns [Ok], and its value and the file system after it satisfy [Q].  The
    assertion used is [shaped]: the paths a function writes (its targets) are
    files or absent, their proper ancestors are directories or absent, some
    targets are absent (free locks) and some directories exist.  Under it
    every call of [std::fs] on a target succeeds. *)

(** ** The judgement *)

Definition succeeds {E A : Type} (P : fsys → Prop) (m : M E A) (Q : A → fsys → Prop)
  : Prop := ∀ w, P (w_fs w) → ∃ a w', m w = (Ok a, w') ∧ Q a (w_fs w').

Section rules.
Context {E : Type}.
Implicit Types P R : fsys → Prop.

Lemma succeeds_ret {A : Type} P (a : A) (Q : A → fsys → Prop) :
  (∀ fs, P fs → Q a fs) → succeeds (E:=E) P (mret a) Q.
Proof. intros HQ w Hp. exists a, w. split; [done|]. by apply HQ. Qed.

Lemma succeeds_bind {A B : Type} P (m : M E A) (f : A → M E B)
    (R' : A → fsys → Prop) Q :
  succeeds P m R' → (∀ a, succeeds (R' a) (f a) Q) → succeeds P (m ≫= f) Q.
Proof.
  intros Hm Hf w Hp. destruct (Hm w Hp) as (a & w1 & Hw & Hr).
  destruct (Hf a w1 Hr) as (b & w2 & Hw2 & Hq). exists b, w2. split; [|done].
  unfold mbind, M_bind. by rewrite Hw.
Qed.

Lemma succeeds_assoc {A B D : Type} P (m : M E A) (f : A → M E B) (g : B → M E D) Q :
  succeeds P ((m ≫= f) ≫= g) Q → succeeds P (m ≫= λ a, f a ≫= g) Q.
Proof.
  intros Hm w Hp. specialize (Hm w Hp). unfold mbind, M_bind in *.
  by destruct (m w) as [[] w1].
Qed.

Lemma succeeds_conseq {A : Type} P P' (m : M E A) (Q Q' : A → fsys → Prop) :
  succeeds P' m Q' → (∀ fs, P fs → P' fs) → (∀ a fs, Q' a fs → Q a fs) →
  succeeds P m Q.
Proof. intros Hm HP HQ w Hp. destruct (Hm w (HP _ Hp)) as (a & w1 & ? & ?). eauto. Qed.

Lemma succeeds_pure {A : Type} (φ : Prop) P (m : M E A) Q :
  (φ → succeeds P m Q) → succeeds (λ fs, P fs ∧ φ) m Q.
Proof. intros Hm w [Hp Hφ]. by apply Hm. Qed.

Lemma succeeds_fmap {A B : Type} P (m : M E A) (f : A → B) Q :
  succeeds P m (λ a, Q (f a)) → succeeds P (f <$> m) Q.
Proof.
  intros Hm w Hp. destruct (Hm w Hp) as (a & w1 & Hw & Hq). exists (f a), w1.
  split; [|done]. unfold fmap, M_fmap. by rewrite Hw.
Qed.

Lemma succeeds_ok_or {A : Type} P (o : option A) (e : E) (a : A)
    (Q : A → fsys → Prop) :
  o = Some a → (∀ fs, P fs → Q a fs) → succeeds P (ok_or o e) Q.
Proof. intros -> HQ. by apply succeeds_ret. Qed.

(** Reading into a [Result] succeeds with whatever was read. *)
Lemma succeeds_attempt_read {E' A : Type} `{!FromIo E'} P (f : fsys → io_kind + A) :
  succeeds (E:=E) P (attempt (E' := E') (lift_read f)) (λ _, P).
Proof.
  intros w Hp. unfold attempt, lift_read.
  destruct (f (w_fs w)); do 2 eexists; (split; [done|]); done.
Qed.

Lemma succeeds_finally {A : Type} P (m : M E A) (fin : fsys → fsys)
    (Q' Q : A → fsys → Prop) :
  succeeds P m Q' → (∀ a fs, Q' a fs → Q a (fin fs)) → succeeds P (finally m fin) Q.
Proof.
  intros Hm HQ w Hp. destruct (Hm w Hp) as (a & w1 & Hw & Hq). unfold finally.
  rewrite Hw. do 2 eexists. split; [done|]. simpl. auto.
Qed.

Lemma succeeds_exists P p :
  succeeds (E:=E) P (exists_ p) (λ b fs, P fs ∧ b = fs_exists fs p).
Proof. intros w Hp. do 2 eexists. split; [done|]. done. Qed.

Lemma succeeds_is_file P p :
  succeeds (E:=E) P (is_file p) (λ b fs, P fs ∧ b = fs_is_file fs p).
Proof. intros w Hp. do 2 eexists. split; [done|]. done. Qed.

(** A loop keeps an invariant. *)
Lemma succeeds_foldM {A B : Type} P (f : B → A → M E B) l acc :
  (∀ acc x, x ∈ l → succeeds P (f acc x) (λ _, P)) →
  succeeds P (foldM f acc l) (λ _, P).
Proof.
  revert acc. induction l as [|x l IH]; intros acc Hf; simpl; [by apply succeeds_ret|].
  eapply succeeds_bind; [apply Hf; left|]. intros acc'. apply IH.
  intros. apply Hf. by right.
Qed.

Context `{Sys}.
Lemma succeeds_now P : succeeds (E:=E) P now (λ _, P).
Proof. intros w Hp. do 2 eexists. split; [done|]. done. Qed.
Lemma succeeds_new_uuid P : succeeds (E:=E) P new_uuid (λ _, P).
Proof. intros w Hp. do 2 eexists. split; [done|]. done. Qed.

Context `{!FromIo E}.
Lemma succeeds_lift_read {A : Type} P (f : fsys → io_kind + A) (Q : A → fsys → Prop) :
  (∀ fs, P fs → ∃ a, f fs = inr a ∧ Q a fs) → succeeds P (lift_read f) Q.
Proof.
  intros Hf w Hp. destruct (Hf _ Hp) as (a & Ha & Hq). exists a, w.
  unfold lift_read. by rewrite Ha.
Qed.
Lemma succeeds_lift_fs P (f : fsys → io_kind + fsys) R :
  (∀ fs, P fs → ∃ fs', f fs = inr fs' ∧ R fs') → succeeds P (lift_fs f) (λ _, R).
Proof.
  intros Hf w Hp. destruct (Hf _ Hp) as (fs' & Ha & Hq). exists tt, (set_fs fs' w).
  unfold lift_fs. by rewrite Ha.
Qed.
End rules.

Lemma snoc_ne {A : Type} (l : list A) (x : A) : l ≠ l ++ [x].
Proof. intros Heq. apply (f_equal length) in Heq. rewrite length_app in Heq. simpl in Heq. lia. Qed.

(** ** The calls of [std::fs] on clear paths, forwards *)

Section forwards.
Context (Z : path → Prop) (fs : fsys) (Hfs : fs_ok Z fs).

Lemma resolve_parents p :
  clear Z p → parents_dir fs p → resolve fs p = inr p.
Proof.
  intros Hcl Hp. apply (resolve_go_ok Z fs Hfs _ p []); [done|].
  intros x _ Hx Hne Hn. by apply Hp.
Qed.

Lemma write_forward p s :
  clear Z p → p ≠ [] → parents_dir fs p → fs !! p ≠ Some Dir →
  fs_write fs p s = inr (<[p := File s]> fs).
Proof.
  intros Hcl Hp Hd Hn. unfold fs_write. rewrite resolve_parents by done.
  rewrite look_ne by done. by destruct (fs !! p) as [[]|].
Qed.

Lemma append_forward p s :
  clear Z p → p ≠ [] → parents_dir fs p → fs !! p ≠ Some Dir →
  ∃ s', fs_append fs p s = inr (<[p := File s']> fs).
Proof.
  intros Hcl Hp Hd Hn. unfold fs_append. rewrite resolve_parents by done.
  rewrite look_ne by done. destruct (fs !! p) as [[]|]; by eauto.
Qed.

Lemma copy_forward src dst :
  fs_is_file fs src = true → clear Z dst → dst ≠ [] → parents_dir fs dst →
  fs !! dst ≠ Some Dir → ∃ s, fs_copy fs src dst = inr (<[dst := File s]> fs).
Proof.
  unfold fs_is_file, fs_copy. intros Hs Hcl Hp Hd Hn.
  destruct (stat fs src) as [|[qs []]]; try done.
  rewrite resolve_parents by done. rewrite look_ne by done.
  destruct (fs !! dst) as [[]|]; by eauto.
Qed.

Lemma remove_forward p s :
  clear Z p → fs !! p = Some (File s) → fs_remove_file fs p = inr (delete p fs).
Proof.
  intros Hcl Hp. pose proof (lstat_present Z fs Hfs p _ Hcl Hp) as Hl.
  unfold lstat in Hl. unfold fs_remove_file.
  destruct (lresolve fs p) as [|q] eqn:Hr; [done|].
  apply (lresolve_clear Z fs Hfs) in Hr as [-> _]; [|done].
  destruct p; [by rewrite (ok_root Z fs Hfs) in Hp|]. by rewrite look_ne, Hp.
Qed.
End forwards.

Lemma mkdirs_forward fs cur rest :
  no_dotdot rest →
  (∀ x, cur `prefix_of` x → x `prefix_of` cur ++ rest → x ≠ cur →
     fs !! x = None ∨ fs !! x = Some Dir) →
  ∃ fs', mkdirs fs cur rest = inr fs'.
Proof.
  revert fs cur. induction rest as [|c rest IH]; intros fs cur Hd Hx; simpl; [by eauto|].
  apply Forall_cons in Hd as [Hc Hd]. rewrite <- String.eqb_neq in Hc. rewrite Hc.
  assert (Happ : cur ++ c :: rest = (cur ++ [c]) ++ rest) by (by rewrite <- (assoc (++))).
  assert (Hne : cur ++ [c] ≠ cur) by (apply not_eq_sym, snoc_ne).
  assert (Hlater : ∀ x, cur ++ [c] `prefix_of` x → cur `prefix_of` x ∧ x ≠ cur).
  { intros x Hpre. split; [etrans; [|exact Hpre]; by apply prefix_app_r|].
    intros ->. apply prefix_length in Hpre. rewrite length_app in Hpre. simpl in Hpre. lia. }
  rewrite Happ in Hx.
  destruct (Hx (cur ++ [c])) as [Hn|Hn]; [by apply prefix_app_r|by apply prefix_app_r|done|..];
    rewrite Hn; apply IH; try done.
  - intros x Hpre Hpre2 Hxne. rewrite lookup_insert_ne by done.
    destruct (Hlater x Hpre). by apply Hx.
  - intros x Hpre Hpre2 Hxne. destruct (Hlater x Hpre). by apply Hx.
Qed.

(** A walk along directories that exist or not. *)
Lemma resolve_open fs rest l cur :
  no_dotdot rest →
  (∀ x, cur `prefix_of` x → x `prefix_of` cur ++ rest → x ≠ cur →
     fs !! x = None ∨ fs !! x = Some Dir) →
  resolve_go l fs cur rest = inl NotFound ∨ resolve_go l fs cur rest = inr (cur ++ rest).
Proof.
  revert cur. induction rest as [|c rest IH]; intros cur Hd Hx.
  { right. rewrite app_nil_r. by destruct l. }
  apply Forall_cons in Hd as [Hc Hd]. rewrite <- String.eqb_neq in Hc.
  assert (Happ : cur ++ c :: rest = (cur ++ [c]) ++ rest) by (by rewrite <- (assoc (++))).
  assert (Hlen : ∀ x, cur ++ [c] `prefix_of` x → cur `prefix_of` x ∧ x ≠ cur).
  { intros x Hpre. split; [etrans; [|exact Hpre]; by apply prefix_app_r|].
    intros ->. apply prefix_length in Hpre. rewrite length_app in Hpre. simpl in Hpre. lia. }
  rewrite Happ in *.
  assert (Hunf : resolve_go l fs cur (c :: rest)
    = match fs !! (cur ++ [c]) with
      | Some (Link t) => match l with
                         | O => inl FilesystemLoop
                         | S l' => resolve_go l' fs [] (t ++ rest)
                         end
      | Some Dir => resolve_go l fs (cur ++ [c]) rest
      | Some (File _) => match rest with [] => inr (cur ++ [c]) | _ => inl NotADirectory end
      | None => match rest with [] => inr (cur ++ [c]) | _ => inl NotFound end
      end) by (destruct l; simpl; by rewrite Hc).
  rewrite Hunf. destruct (Hlen (cur ++ [c])) as [Hp Hne]; [done|].
  destruct (Hx (cur ++ [c])) as [Hn|Hn]; [done|by apply prefix_app_r|done|..]; rewrite Hn.
  - destruct rest; [right; by rewrite app_nil_r|by left].
  - apply IH; [done|]. intros x H1 H2 H3. destruct (Hlen x H1). by apply Hx.
Qed.

(** ** Shapes *)

Section shape.
Context (Z : path → Prop) (T : list path) (C : path → string → Prop).

(** A proper ancestor of a target. *)
Definition above (q : path) : Prop := q ≠ [] ∧ ∃ p, p ∈ T ∧ q `prefix_of` p ∧ q ≠ p.

(** The targets: the names in [N] are free, the directories in [K] and the
    files in [L] exist; the content of an existing target [p] satisfies
    [C p]. *)
Record shaped (N K L : path → Prop) (fs : fsys) : Prop := {
  sh_fs : fs_ok Z fs;
  sh_dirs : ∀ q n, fs !! q = Some n → above q → n = Dir;
  sh_files : ∀ q n, fs !! q = Some n → q ∈ T → ∃ s, n = File s ∧ C q s;
  sh_free : ∀ q, N q → q ∈ T ∧ fs !! q = None;
  sh_have : ∀ q, K q → fs !! q = Some Dir;
  sh_live : ∀ q, L q → is_Some (file_of fs q)
}.

(** No target lies below another one, and no link is on the way. *)
Record targets_ok : Prop := {
  tg_anti : ∀ p q, p ∈ T → q ∈ T → p `prefix_of` q → p = q;
  tg_clear : ∀ p, p ∈ T → clear Z p;
  tg_root : [] ∉ T
}.

Context (HT : targets_ok).
Implicit Types N K L : path → Prop.

Lemma above_not_target q : above q → q ∈ T → False.
Proof. intros (_ & p & Hp & Hpre & Hne) Hq. apply Hne. by apply (tg_anti HT). Qed.

Lemma shaped_mono N K L N' K' L' fs :
  shaped N K L fs → (∀ q, N' q → N q) → (∀ q, K' q → K q) → (∀ q, L' q → L q) →
  shaped N' K' L' fs.
Proof. intros [] HN HK HL. split; eauto. Qed.

Lemma target_not_dir N K L fs p : shaped N K L fs → p ∈ T → fs !! p ≠ Some Dir.
Proof. intros Hs Hp Hd. by destruct (sh_files _ _ _ _ Hs _ _ Hd Hp) as (s & ? & _). Qed.

Lemma live_not_dir N K L fs q : shaped N K L fs → L q → fs !! q ≠ Some Dir.
Proof.
  intros Hs Hq Hd. apply (sh_live _ _ _ _ Hs) in Hq as [s Hq]. unfold file_of in Hq.
  by rewrite Hd in Hq.
Qed.

Lemma shaped_grow N K L fs fs' d p :
  shaped N K L fs → p ∈ T → d `prefix_of` p → d ≠ p →
  grows_dirs d fs fs' → fs_ok Z fs' → (d = [] ∨ fs' !! d = Some Dir) →
  shaped N (λ q, K q ∨ (q `prefix_of` d ∧ q ≠ [])) L fs'.
Proof.
  intros Hs Hp Hd Hne Hg Hfs Hdir.
  assert (Hab : ∀ q, q `prefix_of` d → q ≠ [] → above q).
  { intros q Hq Hq0. split; [done|]. exists p. split; [done|]. split; [by etrans|].
    intros ->. apply Hne. by apply (anti_symm prefix). }
  split; [done|..].
  - intros q n Hq Ha. destruct (Hg q) as [He|(_ & He & _)]; [|congruence].
    rewrite He in Hq. by apply (sh_dirs _ _ _ _ Hs q).
  - intros q n Hq Ha. destruct (Hg q) as [He|(_ & He & Hpre & Hq0)].
    + rewrite He in Hq. by apply (sh_files _ _ _ _ Hs).
    + exfalso. by apply (above_not_target q); [apply Hab|].
  - intros q Hq. apply (sh_free _ _ _ _ Hs) in Hq as [Ht Hn]. split; [done|].
    destruct (Hg q) as [He|(_ & _ & Hpre & Hq0)]; [by rewrite He|].
    exfalso. by apply (above_not_target q); [apply Hab|].
  - intros q [Hq|[Hq Hq0]].
    + apply (sh_have _ _ _ _ Hs) in Hq. destruct (Hg q) as [He|(He & _)]; congruence.
    + destruct Hdir as [-> |Hdir]; [by apply prefix_nil_inv in Hq|].
      destruct (decide (q = d)) as [-> |]; [done|]. by apply (ok_tree Z fs' Hfs d q Dir).
  - intros q Hq. rewrite (grows_dirs_file d fs) by done. by apply (sh_live _ _ _ _ Hs).
Qed.

Lemma shaped_put N K L fs p s :
  shaped N K L fs → p ∈ T → ¬ N p → C p s → parents_dir fs p →
  shaped N K L (<[p := File s]> fs).
Proof.
  intros Hs Hp HN HC Hd. pose proof (target_not_dir N K L fs p Hs Hp) as Hnd.
  assert (Hp0 : p ≠ []) by (intros ->; by apply (tg_root HT)).
  split.
  - by apply (fs_ok_insert_file Z fs (sh_fs _ _ _ _ Hs)).
  - intros q n. rewrite lookup_insert_Some. intros [[<- <-]|[_ Hq]] Ha.
    + exfalso. by apply (above_not_target p).
    + by apply (sh_dirs _ _ _ _ Hs q).
  - intros q n. rewrite lookup_insert_Some. intros [[<- <-]|[_ Hq]] Ha; [by eauto|].
    by apply (sh_files _ _ _ _ Hs).
  - intros q Hq. pose proof Hq as Hq'. apply (sh_free _ _ _ _ Hs) in Hq as [Ht Hn].
    split; [done|]. rewrite lookup_insert_ne; [done|]. by intros ->.
  - intros q Hq. apply (sh_have _ _ _ _ Hs) in Hq. rewrite lookup_insert_ne; [done|].
    by intros ->.
  - intros q Hq. rewrite file_of_insert. unfold fput. destruct (decide (q = p)); [by eauto|].
    by apply (sh_live _ _ _ _ Hs).
Qed.

Lemma shaped_delete N K L fs p s :
  shaped N K L fs → p ∈ T → ¬ L p → fs !! p = Some (File s) →
  shaped (λ q, N q ∨ q = p) K L (delete p fs).
Proof.
  intros Hs Hp HL Hps. split.
  - apply (fs_ok_delete Z fs (sh_fs _ _ _ _ Hs)). by rewrite Hps.
  - intros q n [_ Hq]%lookup_delete_Some. by apply (sh_dirs _ _ _ _ Hs q).
  - intros q n [_ Hq]%lookup_delete_Some. by apply (sh_files _ _ _ _ Hs).
  - intros q [Hq| ->].
    + apply (sh_free _ _ _ _ Hs) in Hq as [Ht Hn]. split; [done|].
      apply lookup_delete_None. by right.
    + split; [done|]. apply lookup_delete_eq.
  - intros q Hq. pose proof (sh_have _ _ _ _ Hs q Hq) as Hd.
    rewrite lookup_delete_ne; [done|]. intros ->. congruence.
  - intros q Hq. rewrite file_of_delete, fput_ne by (by intros ->).
    by apply (sh_live _ _ _ _ Hs).
Qed.

(** ** The calls on targets *)

Context {E : Type} `{!FromIo E}.

(** The proper ancestors of [p] are in [K]. *)
Definition parents_in K (p : path) : Prop :=
  ∀ q, q `prefix_of` p → q ≠ p → q ≠ [] → K q.

Lemma parents_in_dir N K L fs p : shaped N K L fs → parents_in K p → parents_dir fs p.
Proof. intros Hs Hp x Hx Hne H0. by apply (sh_have _ _ _ _ Hs), Hp. Qed.

Lemma mkdir_succeeds N K L d p :
  p ∈ T → d `prefix_of` p → d ≠ p →
  succeeds (E:=E) (shaped N K L) (create_dir_all d)
    (λ _, shaped N (λ q, K q ∨ (q `prefix_of` d ∧ q ≠ [])) L).
Proof.
  intros Hp Hd Hne. apply succeeds_lift_fs. intros fs Hs.
  assert (Hcl : clear Z d) by (by eapply clear_prefix; [apply (tg_clear HT)|]).
  destruct (mkdirs_forward fs [] d) as [fs' Hm].
  - apply (clear_dots _ _ Hcl).
  - intros x _ Hx Hx0. destruct (fs !! x) as [n|] eqn:Hn; [|by left]. right. f_equal.
    apply (sh_dirs _ _ _ _ Hs x n Hn). split; [done|]. exists p. split; [done|].
    split; [by etrans|]. intros ->. apply Hne. by apply (anti_symm prefix).
  - exists fs'. split; [done|].
    apply (create_dir_all_clear Z) in Hm as (Hg & Hfs & Hdir);
      [|apply (sh_fs _ _ _ _ Hs)|done].
    by eapply shaped_grow.
Qed.

(** Creating the parent of a target makes it writable. *)
Lemma create_parent_succeeds N K L p :
  p ∈ T →
  succeeds (E:=E) (shaped N K L) (create_parent p)
    (λ _, shaped N (λ q, K q ∨ (q `prefix_of` p ∧ q ≠ p ∧ q ≠ [])) L).
Proof.
  intros Hp. destruct p as [|x p _] using rev_ind; [by destruct (tg_root HT)|].
  unfold create_parent. rewrite parent_snoc. eapply succeeds_conseq.
  - apply (mkdir_succeeds N K L p _ Hp); [by apply prefix_app_r|apply snoc_ne].
  - done.
  - intros u fs Hs. eapply shaped_mono; [exact Hs|done| |done].
    intros q [Hq|([Hq| ->]%prefix_snoc_inv & Hne & H0)]; [by left|by right|done].
Qed.

Lemma write_succeeds N K L p s :
  p ∈ T → ¬ N p → C p s → parents_in K p →
  succeeds (E:=E) (shaped N K L) (write p s) (λ _, shaped N K L).
Proof.
  intros Hp HN HC HK. apply succeeds_lift_fs. intros fs Hs.
  pose proof (parents_in_dir N K L fs p Hs HK) as Hd.
  exists (<[p := File s]> fs). split; [|by apply shaped_put].
  apply (write_forward Z fs (sh_fs _ _ _ _ Hs));
    [by apply (tg_clear HT)|intros ->; by apply (tg_root HT)|done|].
  by eapply target_not_dir.
Qed.

Lemma append_succeeds N K L p s :
  p ∈ T → ¬ N p → (∀ s', C p s') → parents_in K p →
  succeeds (E:=E) (shaped N K L) (append_file p s) (λ _, shaped N K L).
Proof.
  intros Hp HN HC HK. apply succeeds_lift_fs. intros fs Hs.
  pose proof (parents_in_dir N K L fs p Hs HK) as Hd.
  destruct (append_forward Z fs (sh_fs _ _ _ _ Hs) p s) as [s' Hs'];
    [by apply (tg_clear HT)|intros ->; by apply (tg_root HT)|done
    |by eapply target_not_dir|].
  exists (<[p := File s']> fs). split; [done|]. by apply shaped_put.
Qed.

Lemma copy_succeeds N K L src dst :
  L src → clear Z src → dst ∈ T → ¬ N dst → (∀ s, C dst s) → parents_in K dst →
  succeeds (E:=E) (shaped N K L) (copy src dst) (λ _, shaped N K L).
Proof.
  intros HL Hcl Hp HN HC HK. apply succeeds_lift_fs. intros fs Hs.
  pose proof (parents_in_dir N K L fs dst Hs HK) as Hd.
  destruct (copy_forward Z fs (sh_fs _ _ _ _ Hs) src dst) as [s' Hs'].
  - rewrite (is_file_clear Z fs (sh_fs _ _ _ _ Hs)) by done.
    apply bool_decide_eq_true_2. by apply (sh_live _ _ _ _ Hs).
  - by apply (tg_clear HT).
  - intros ->. by apply (tg_root HT).
  - done.
  - by eapply target_not_dir.
  - exists (<[dst := File s']> fs). split; [done|]. by apply shaped_put.
Qed.

(** [if p.exists() { fs::remove_file(p)?; }]. *)
Lemma remove_if_succeeds N K L p :
  p ∈ T → ¬ L p →
  succeeds (E:=E) (shaped N K L)
    (e ← exists_ p; if (e : bool) then remove_file p else mret tt) (λ _, shaped N K L).
Proof.
  intros Hp HL. eapply succeeds_bind; [apply succeeds_exists|]. intros b.
  apply succeeds_conseq with (P' := λ fs, shaped N K L fs ∧ b = fs_exists fs p)
    (Q' := λ _, shaped N K L); [|done..].
  destruct b; [|apply succeeds_ret; by intros fs []].
  apply succeeds_lift_fs. intros fs [Hs Hb].
  assert (Hcl : clear Z p) by (by apply (tg_clear HT)).
  destruct (exists_true_clear Z fs (sh_fs _ _ _ _ Hs) p Hcl) as [Hp0|[n Hn]];
    [done|by rewrite Hp0 in Hp; destruct (tg_root HT)|].
  destruct (sh_files _ _ _ _ Hs p n Hn Hp) as (s & -> & _).
  exists (delete p fs). split; [eapply remove_forward;
    [apply (sh_fs _ _ _ _ Hs)|done|done]|].
  eapply shaped_mono; [by eapply shaped_delete|by left|done|done].
Qed.

(** A test for a clear file makes it live in the positive branch. *)
Lemma if_is_file_succeeds {A : Type} N K L (src : path) (m1 m2 : M E A) (Q : A → fsys → Prop) :
  clear Z src →
  succeeds (shaped N K (λ q, L q ∨ q = src)) m1 Q → succeeds (shaped N K L) m2 Q →
  succeeds (shaped N K L) (b ← is_file src; if (b : bool) then m1 else m2) Q.
Proof.
  intros Hcl H1 H2. eapply succeeds_bind; [apply succeeds_is_file|]. intros [];
    (eapply succeeds_conseq; [eassumption| |done]).
  - intros fs [Hs Hb]. rewrite (is_file_clear Z fs (sh_fs _ _ _ _ Hs)) in Hb by done.
    symmetry in Hb. apply bool_decide_eq_true_1 in Hb. destruct Hs. split; try done.
    intros q [Hq| ->]; auto.
  - by intros fs [Hs _].
Qed.

(** The same for the existence of a target. *)
Lemma if_exists_succeeds {A : Type} N K L (p : path) (m1 m2 : M E A)
    (Q : A → fsys → Prop) :
  p ∈ T →
  succeeds (shaped N K (λ q, L q ∨ q = p)) m1 Q → succeeds (shaped N K L) m2 Q →
  succeeds (shaped N K L) (b ← exists_ p; if (b : bool) then m1 else m2) Q.
Proof.
  intros Hp H1 H2. eapply succeeds_bind; [apply succeeds_exists|]. intros [];
    (eapply succeeds_conseq; [eassumption| |done]).
  - intros fs [Hs Hb]. symmetry in Hb. pose proof (tg_clear HT p Hp) as Hcl.
    destruct (exists_true_clear Z fs (sh_fs _ _ _ _ Hs) p Hcl Hb) as [Hp0|[n Hn]];
      [by rewrite Hp0 in Hp; destruct (tg_root HT)|].
    destruct (sh_files _ _ _ _ Hs p n Hn Hp) as (s & -> & _).
    destruct Hs. split; try done. intros q [Hq| ->]; [auto|]. unfold file_of.
    rewrite Hn. eauto.
  - by intros fs [Hs _].
Qed.

(** A target is a regular file or not found. *)
Lemma lstat_target N K L fs p :
  shaped N K L fs → p ∈ T →
  (lstat fs p = inl NotFound ∧ fs !! p = None) ∨
  ∃ s, lstat fs p = inr (File s) ∧ fs !! p = Some (File s).
Proof.
  intros Hs Hp. pose proof (tg_clear HT p Hp) as Hcl.
  destruct (fs !! p) as [n|] eqn:Hn.
  - right. destruct (sh_files _ _ _ _ Hs p n Hn Hp) as (s & -> & _). exists s.
    split; [|done]. apply (lstat_present Z fs (sh_fs _ _ _ _ Hs) p _ Hcl Hn).
  - left. split; [|done]. destruct p as [|c p _] using rev_ind; [by destruct (tg_root HT)|].
    unfold lstat, lresolve. rewrite last_snoc, removelast_last.
    assert (Hd : Forall (λ x, x ≠ "..") (p ++ [c])) by apply (clear_dots _ _ Hcl).
    apply Forall_app in Hd as [Hd [Hc _]%Forall_cons].
    rewrite (proj2 (String.eqb_neq _ _) Hc).
    assert (Hopen : ∀ x, x `prefix_of` p → x ≠ [] → fs !! x = None ∨ fs !! x = Some Dir).
    { intros x Hx Hx0. destruct (fs !! x) as [n|] eqn:Hxn; [|by left]. right. f_equal.
      apply (sh_dirs _ _ _ _ Hs x n Hxn). split; [done|]. exists (p ++ [c]).
      split; [done|]. split; [by apply prefix_app_r|]. intros ->.
      apply prefix_length in Hx. rewrite length_app in Hx. simpl in Hx. lia. }
    destruct (resolve_open fs p max_links []) as [Hr|Hr]; unfold resolve; [done| |..].
    { intros x _ Hx Hne. by apply Hopen. }
    + by rewrite Hr.
    + rewrite Hr. simpl. destruct p as [|y p]; [by simpl in *; rewrite Hn|]. rewrite look_ne by done.
      destruct (Hopen (y :: p)) as [Ho|Ho]; [done|done|by rewrite Ho|].
      by rewrite Ho, look_ne, Hn by (by destruct p).
Qed.
End shape.

(** * When the functions of fsx.rs succeed

    Copies, snapshots, restores and hashes of targets, in the sense of
    [Progress]. *)

Section fsx.
Context `{Sys} (Z : path → Prop) (T : list path) (C : path → string → Prop).
Context (HT : targets_ok Z T).
Implicit Types N K L : path → Prop.
Local Abbreviation shaped := (shaped Z T C).

(** A target that may be written with any content. *)
Record writable_target (N : path → Prop) (p : path) : Prop := {
  wt_in : p ∈ T;
  wt_free : ¬ N p;
  wt_content : ∀ s, C p s
}.

Lemma checked_join_succeeds (P : fsys → Prop) (root : path) (p : string)
    (Q : path → fsys → Prop) :
  is_absolute p = false → no_dotdot (comps p) →
  (∀ fs, P fs → Q (root ++ comps p) fs) → succeeds P (checked_join root p) Q.
Proof.
  intros Hab Hd HQ. eapply succeeds_ok_or; [|exact HQ].
  by apply checked_join_opt_Some.
Qed.

Lemma clear_rel (root : path) (p : string) : clear Z (root ++ comps p) → no_dotdot (comps p).
Proof. intros [Hd _]. by apply Forall_app in Hd as [_ Hd]. Qed.

(** Directories that were created on the way are forgotten. *)
Lemma shaped_dirs N K K' L fs : shaped N (λ q, K q ∨ K' q) L fs → shaped N K L fs.
Proof. intros Hs. eapply shaped_mono; [exact Hs|done|by left|done]. Qed.

Lemma shaped_lives N K L L' fs : shaped N K (λ q, L q ∨ L' q) fs → shaped N K L fs.
Proof. intros Hs. eapply shaped_mono; [exact Hs|done|done|by left]. Qed.

(** The parent is created and the file is written. *)
Lemma put_succeeds N K L (p : path) (s : string) :
  p ∈ T → ¬ N p → C p s →
  succeeds (E:=CodexNewError) (shaped N K L) (_ ← create_parent p; write p s)
    (λ _, shaped N K L).
Proof.
  intros Hp HN HC. eapply succeeds_bind; [by apply create_parent_succeeds|]. intros u; cbv beta.
  eapply succeeds_conseq; [apply write_succeeds; try done| done |intros u2 fs; apply shaped_dirs].
  intros q ???. by right.
Qed.

Lemma copy_over_succeeds N K L (src dst : path) :
  L src → clear Z src → writable_target N dst →
  succeeds (E:=CodexNewError) (shaped N K L) (_ ← create_parent dst; copy src dst)
    (λ _, shaped N K L).
Proof.
  intros HL Hcl [Hp HN HC]. eapply succeeds_bind; [by apply create_parent_succeeds|].
  intros u; cbv beta.
  eapply succeeds_conseq; [eapply (copy_succeeds Z T C HT N _ L); try done|done|intros u2 fs; apply shaped_dirs].
  intros q ???. by right.
Qed.

Lemma copy_file_or_remove_succeeds N K (src_root dst_root : path)
    (p : string) :
  is_absolute p = false → clear Z (src_root ++ comps p) →
  writable_target N (dst_root ++ comps p) →
  succeeds (shaped N K (λ _, False)) (copy_file_or_remove src_root dst_root p)
    (λ _, shaped N K (λ _, False)).
Proof.
  intros Hab Hcl Hw. pose proof (clear_rel _ _ Hcl) as Hd. unfold copy_file_or_remove.
  eapply succeeds_bind; [by apply checked_join_succeeds with
    (Q := λ q fs, shaped N K (λ _, False) fs ∧ q = src_root ++ comps p)|].
  intros q. apply succeeds_pure. intros ->.
  eapply succeeds_bind; [by apply checked_join_succeeds with
    (Q := λ q fs, shaped N K (λ _, False) fs ∧ q = dst_root ++ comps p)|].
  intros q. apply succeeds_pure. intros ->.
  apply if_is_file_succeeds; [done|..].
  - eapply succeeds_conseq; [apply (copy_over_succeeds N K (λ q, False ∨ q = src_root ++ comps p)); [by right|done|done]|done|].
    intros u2 fs. apply shaped_lives.
  - apply remove_if_succeeds; [done|apply Hw|by intros []].
Qed.

(** The two files of a snapshot can be written. *)
Record snap_targets (N : path → Prop) (d : path) (p : string) : Prop := {
  stg_blob : writable_target N (snapshot_blob_path d p);
  stg_missing : writable_target N (snapshot_missing_path d p)
}.

Lemma snapshot_parents (d : path) (p : string) (q : path) :
  q `prefix_of` snapshot_missing_path d p → q ≠ snapshot_missing_path d p →
  q `prefix_of` snapshot_blob_path d p ∧ q ≠ snapshot_blob_path d p.
Proof.
  rewrite snapshot_missing_path_eq, snapshot_blob_path_eq.
  intros [Hq|?]%prefix_snoc_inv Hne; [|done]. split; [by apply prefix_app_r|].
  intros ->. apply prefix_length in Hq. rewrite length_app in Hq. simpl in Hq. lia.
Qed.

Lemma snapshot_file_succeeds N K (src_root d : path) (p : string) :
  is_absolute p = false → clear Z (src_root ++ comps p) → snap_targets N d p →
  src_root ++ comps p ≠ snapshot_missing_path d p →
  succeeds (shaped N K (λ _, False)) (snapshot_file src_root d p)
    (λ _, shaped N K (λ _, False)).
Proof.
  intros Hab Hcl [Hb Hm] Hne. pose proof (clear_rel _ _ Hcl) as Hd. unfold snapshot_file.
  eapply succeeds_bind; [by apply checked_join_succeeds with
    (Q := λ q fs, shaped N K (λ _, False) fs ∧ q = src_root ++ comps p)|].
  intros q. apply succeeds_pure. intros ->.
  eapply succeeds_bind; [apply create_parent_succeeds; [done|apply Hb]|]. intros u; cbv beta.
  set (K1 := λ q, K q ∨ (q `prefix_of` snapshot_blob_path d p ∧
                  q ≠ snapshot_blob_path d p ∧ q ≠ [])).
  apply succeeds_conseq with (P' := shaped N K1 (λ _, False))
    (Q' := λ _, shaped N K1 (λ _, False)); [|done|intros u1 fs; apply shaped_dirs].
  apply if_is_file_succeeds; [done|..].
  - apply succeeds_conseq with (P' := shaped N K1 (λ q, False ∨ q = src_root ++ comps p))
      (Q' := λ _, shaped N K1 (λ q, False ∨ q = src_root ++ comps p));
      [|done|intros u1 fs; apply shaped_lives].
    apply succeeds_assoc. eapply succeeds_bind;
      [apply remove_if_succeeds; [done|apply Hm|intros [?|?]; [done|congruence]]|].
    intros u1; cbv beta.
    apply copy_succeeds; [done|by right|done|apply Hb|apply Hb|apply Hb|].
    intros q Hq Hq1 Hq2. by right.
  - apply succeeds_assoc. eapply succeeds_bind;
      [apply remove_if_succeeds; [done|apply Hb|by intros []]|].
    intros u1; cbv beta. apply write_succeeds; [done|apply Hm|apply Hm|apply Hm|].
    intros q Hq Hq1 Hq2. right. by destruct (snapshot_parents d p q).
Qed.

Lemma restore_snapshot_succeeds N K (d dst_root : path) (p : string) :
  is_absolute p = false → snap_targets N d p → writable_target N (dst_root ++ comps p) →
  dst_root ++ comps p ≠ snapshot_missing_path d p →
  succeeds (shaped N K (λ _, False)) (restore_snapshot d dst_root p)
    (λ _, shaped N K (λ _, False)).
Proof.
  intros Hab [Hb Hm] Hw Hne. pose proof (tg_clear _ _ HT _ (wt_in _ _ Hw)) as Hcl.
  pose proof (clear_rel _ _ Hcl) as Hd. unfold restore_snapshot.
  eapply succeeds_bind; [by apply checked_join_succeeds with
    (Q := λ q fs, shaped N K (λ _, False) fs ∧ q = dst_root ++ comps p)|].
  intros q. apply succeeds_pure. intros ->.
  apply if_exists_succeeds; [done|apply Hm|..].
  - apply succeeds_conseq with (P' := shaped N K (λ _, False))
      (Q' := λ _, shaped N K (λ _, False)); [|intros fs; apply shaped_lives|done].
    apply remove_if_succeeds; [done|apply Hw|by intros []].
  - apply if_exists_succeeds; [done|apply Hb|..].
    + eapply succeeds_conseq; [apply (copy_over_succeeds N K
        (λ q, False ∨ q = snapshot_blob_path d p) (snapshot_blob_path d p))|done|].
      * by right.
      * apply (tg_clear _ _ HT), Hb.
      * done.
      * intros u fs. apply shaped_lives.
    + apply remove_if_succeeds; [done|apply Hw|by intros []].
Qed.

(** The hash of a target. *)
Lemma file_hash_target N K L (p : path) w :
  shaped N K L (w_fs w) → p ∈ T →
  file_hash p w = (Ok (hash_of <$> file_of (w_fs w) p), w).
Proof.
  intros Hs Hp. pose proof (tg_clear _ _ HT p Hp) as Hcl.
  destruct (lstat_target Z T C HT N K L (w_fs w) p Hs Hp) as [[Hl Hn]|(s & Hl & Hn)].
  - unfold file_hash. erewrite bind_run by done. rewrite Hl. unfold file_of.
    by rewrite Hn.
  - rewrite (file_hash_run Z p w s); [|apply (sh_fs _ _ _ _ _ _ _ Hs)|done|];
      unfold file_of; by rewrite Hn.
Qed.
End fsx.
