(* ===== verification/MergeTotal.v ===== *)
(** * When a merge and a rollback succeed *)

From S2P Require Import Prelude RustStr FsModel World Models FsFacts Frame Fsx.
From S2P Require Import Activity Diff Changes Engine Exec FsxProps Layout.
From S2P Require Import MergeFacts ChangesProps Concrete Demo MergeProps Progress.

(** * A merge of whole files succeeds

    The operations of a merge and of a rollback on a task whose files are
    where the engine expects them: each one returns [Ok] and leaves the task in
    that shape, so the next one succeeds as well. *)

Section progress.
Context `{Sys} `{Codecs} `{!SerdeOk TaskRecord}.
Context (self : CodexNewCore) (Z : path → Prop) (m : TaskManifest) (T : list path).
Context (HT : targets_ok Z T) (Ha : task_area self (m_project_id m) (m_task_id m) Z).
Local Abbreviation pid := (m_project_id m).
Local Abbreviation tid := (m_task_id m).
Local Abbreviation O := (original_root m).
Local Abbreviation W := (workspace_root m).
Local Abbreviation tp := (task_path self pid tid).
Local Abbreviation before := (tp ["snapshots"; "before"]).
Local Abbreviation after := (tp ["snapshots"; "after-merge"]).
Implicit Types N : path → Prop.

(** The record of the task can be parsed and is the task's. *)
Definition record_content (q : path) (s : string) : Prop :=
  q = tp ["task.json"] → ∃ t, from_slice s = Some t ∧ task_id t = tid.

(** The directory of the rendered diffs exists. *)
Definition task_dirs (q : path) : Prop := q `prefix_of` tp ["changes"] ∧ q ≠ [].

Definition is_lock (q : path) : Prop := ∃ x, q = lock_path self pid x.

(** The targets are in shape, and the locks in [N] are free. *)
Definition in_shape N (fs : fsys) : Prop :=
  shaped Z T record_content N task_dirs (λ _, False) fs.

Lemma task_target N l :
  (∀ q, N q → is_lock q) → tp l ∈ T → l ≠ ["task.json"] →
  writable_target T record_content N (tp l).
Proof.
  intros HN Hl Hne. split; [done| |].
  - intros [x Hx]%HN. revert Hx. path_ne.
  - intros s Hs. apply (inj (app _)) in Hs. by simplify_eq.
Qed.

Lemma timeline_succeeds N kind payload :
  (∀ q, N q → is_lock q) → tp ["timeline.jsonl"] ∈ T →
  succeeds (in_shape N) (append_timeline self pid tid kind payload) (λ _, in_shape N).
Proof.
  intros HN Hl. pose proof (task_target N _ HN Hl) as [_ Hf Hc]; [done|].
  unfold append_timeline, append_timeline_event.
  rewrite (timeline_path_eq self pid tid (ta_pid _ _ _ _ Ha) (ta_tid _ _ _ _ Ha)).
  rewrite (task_root_eq self pid tid (ta_pid _ _ _ _ Ha) (ta_tid _ _ _ _ Ha)).
  assert (Heq : tp ["timeline.jsonl"] = tp [] ++ ["timeline.jsonl"])
    by (by rewrite task_path_app).
  eapply succeeds_bind.
  { apply (mkdir_succeeds Z T _ HT _ _ _ _ _ Hl); rewrite Heq;
      [by apply prefix_app_r|apply snoc_ne]. }
  intros u; cbv beta. eapply succeeds_bind; [apply succeeds_attempt_read|]. intros r.
  eapply succeeds_bind; [apply succeeds_new_uuid|]. intros id.
  eapply succeeds_bind; [apply succeeds_now|]. intros t.
  eapply succeeds_bind.
  - apply append_succeeds; [done..|]. rewrite Heq.
    intros q [Hq| ->]%prefix_snoc_inv Hne Hq0; [by right|done].
  - intros u1; cbv beta. apply succeeds_ret. intros fs. apply shaped_dirs.
Qed.

Lemma manifest_succeeds N m' :
  (∀ q, N q → is_lock q) → tp ["manifest.json"] ∈ T →
  succeeds (in_shape N) (write_manifest m' (manifest_file self pid tid))
    (λ _, in_shape N).
Proof.
  intros HN Hl. pose proof (task_target N _ HN Hl) as [_ Hf Hc]; [done|].
  unfold write_manifest.
  rewrite (manifest_path_eq self pid tid (ta_pid _ _ _ _ Ha) (ta_tid _ _ _ _ Ha)).
  by apply put_succeeds.
Qed.

(** The record of the task can be read and is the task's. *)
Lemma read_record_succeeds N :
  tp ["task.json"] ∈ T →
  succeeds (in_shape N) (read_task_record (project_root self pid) tid)
    (λ r fs, in_shape N fs ∧
       match r with Some t => task_id t = tid | None => True end).
Proof.
  intros Hl. unfold read_task_record.
  rewrite (record_path_eq self pid tid (ta_pid _ _ _ _ Ha) (ta_tid _ _ _ _ Ha)).
  eapply succeeds_bind; [apply succeeds_exists|]. intros []; simpl.
  - eapply succeeds_bind with (R' := λ s fs, in_shape N fs ∧ record_content (tp ["task.json"]) s).
    + apply succeeds_lift_read. intros fs [Hs Hb].
      destruct (exists_true_clear Z fs (sh_fs _ _ _ _ _ _ _ Hs) (tp ["task.json"]))
        as [Hp0|[n Hn]]; [by apply (tg_clear _ _ HT)|done| |].
      { apply app_eq_nil in Hp0 as [_ ?]. done. }
      destruct (sh_files _ _ _ _ _ _ _ Hs _ n Hn Hl) as (s & -> & Hc).
      exists s. split; [|done]. apply (read_clear Z fs (sh_fs _ _ _ _ _ _ _ Hs));
        [by apply (tg_clear _ _ HT)|]. unfold file_of. by rewrite Hn.
    + intros s. apply succeeds_pure. intros (t & Ht & Hid); [done|].
      apply succeeds_fmap. unfold from_json. by eapply succeeds_ok_or.
  - apply succeeds_ret. by intros fs [Hs _].
Qed.

Lemma status_succeeds N s :
  (∀ q, N q → is_lock q) → tp ["task.json"] ∈ T →
  succeeds (in_shape N) (write_task_status self pid tid s) (λ _, in_shape N).
Proof.
  intros HN Hl. unfold write_task_status.
  eapply succeeds_bind; [by apply read_record_succeeds|]. intros [t|].
  - apply succeeds_pure. intros Ht.
    eapply succeeds_bind; [apply succeeds_now|]. intros updated.
    eapply succeeds_bind with (R' := λ _, in_shape N).
    { destruct (is_terminal s); [apply succeeds_fmap, succeeds_now|by apply succeeds_ret]. }
    intros completed. unfold write_task_record. simpl. rewrite Ht.
    rewrite (record_path_eq self pid tid (ta_pid _ _ _ _ Ha) (ta_tid _ _ _ _ Ha)).
    apply put_succeeds; [done|done| |].
    + intros [x Hx]%HN. revert Hx. path_ne.
    + intros _. eexists. by rewrite from_slice_to_vec.
  - apply succeeds_ret. by intros fs [Hs _].
Qed.

(** ** Locks *)

Lemma acquire_succeeds N x held content :
  (∀ q, N q → is_lock q) → N (lock_path self pid x) → lock_path self pid x ∈ T →
  succeeds (in_shape N)
    (acquire_lock (lock_path self pid x) (state_root self ++ ["projects"; pid; "locks"])
       held content)
    (λ _, in_shape (λ q, N q ∧ q ≠ lock_path self pid x)).
Proof.
  intros HN Hx Hin.
  assert (Heq : lock_path self pid x = (state_root self ++ ["projects"; pid; "locks"]) ++ [x])
    by (unfold lock_path; by rewrite <- (assoc (++))).
  unfold acquire_lock. eapply succeeds_bind.
  { apply (mkdir_succeeds Z T _ HT _ _ _ _ _ Hin); rewrite Heq;
      [by apply prefix_app_r|apply snoc_ne]. }
  intros u; cbv beta. eapply succeeds_bind; [apply succeeds_exists|]. intros [].
  - intros w [Hs Hb]. exfalso. symmetry in Hb.
    destruct (sh_free _ _ _ _ _ _ _ Hs _ Hx) as [_ Hn].
    destruct (exists_true_clear Z _ (sh_fs _ _ _ _ _ _ _ Hs) (lock_path self pid x))
      as [Hp0|[n Hn']]; [by apply (tg_clear _ _ HT)|done| |congruence].
    by apply app_eq_nil in Hp0 as [_ ?].
  - eapply succeeds_conseq.
    + apply (write_succeeds Z T record_content HT (λ q, N q ∧ q ≠ lock_path self pid x)
        (λ q, task_dirs q ∨
              (q `prefix_of` state_root self ++ ["projects"; pid; "locks"] ∧ q ≠ []))
        (λ _, False)); [done|intros [_ Hn]; by apply Hn| |].
      * intros Hs. exfalso. revert Hs. path_ne.
      * rewrite Heq. intros q [Hq| ->]%prefix_snoc_inv Hne Hq0; [by right|done].
    + intros fs [Hs _]. eapply shaped_mono; [exact Hs|by intros q []|done|done].
    + intros u1 fs. apply shaped_dirs.
Qed.

Lemma release_shape N x fs :
  in_shape N fs → lock_path self pid x ∈ T →
  in_shape (λ q, N q ∨ q = lock_path self pid x) (release_lock (lock_path self pid x) fs).
Proof.
  intros Hs Hin. unfold release_lock.
  destruct (fs !! lock_path self pid x) as [n|] eqn:Hn.
  - destruct (sh_files _ _ _ _ _ _ _ Hs _ n Hn Hin) as (s & -> & _).
    rewrite (remove_forward Z fs (sh_fs _ _ _ _ _ _ _ Hs) _ s);
      [|by apply (tg_clear _ _ HT)|done].
    eapply shaped_delete; [exact Hs|exact Hin|by intros []|exact Hn].
  - assert (Hr : ∀ fs', fs_remove_file fs (lock_path self pid x) ≠ inr fs').
    { intros fs'. unfold fs_remove_file.
      destruct (lresolve fs _) as [|q] eqn:Hr; [done|].
      apply (lresolve_clear Z fs (sh_fs _ _ _ _ _ _ _ Hs)) in Hr as [-> _];
        [|by apply (tg_clear _ _ HT)].
      rewrite look_ne, Hn; [done|]. by intros [_ ?]%app_eq_nil. }
    destruct (fs_remove_file fs (lock_path self pid x)) as [k|fs']; [|by destruct (Hr fs')].
    destruct Hs. split; try done. intros q [Hq| ->]; auto.
Qed.
End progress.

(** ** The targets of a merge *)

Section merge.
Context `{Sys} `{Codecs} `{!SerdeOk TaskRecord}.
Context (self : CodexNewCore) (Z : path → Prop) (m : TaskManifest).
Local Abbreviation pid := (m_project_id m).
Local Abbreviation tid := (m_task_id m).
Local Abbreviation O := (original_root m).
Local Abbreviation W := (workspace_root m).
Local Abbreviation tp := (task_path self pid tid).
Local Abbreviation before := (tp ["snapshots"; "before"]).
Local Abbreviation after := (tp ["snapshots"; "after-merge"]).
Local Abbreviation inv := (task_inv self pid tid).
Local Abbreviation mpath := (manifest_file self pid tid).

Definition merge_lock : path := lock_path self pid ("merge-" +:+ tid +:+ ".lock").
Definition file_lock (p : string) : path :=
  lock_path self pid ("path-" +:+ encode_path p +:+ ".lock").

(** What merging one file writes: the file, its snapshots and its lock. *)
Definition change_paths (c : ChangedFile) : list path :=
  let p := cf_path c in
  [O ++ comps p; snapshot_blob_path before p; snapshot_missing_path before p;
   snapshot_blob_path after p; snapshot_missing_path after p; file_lock p].

(** What a merge of the changes [l] writes. *)
Definition merge_targets (l : list ChangedFile) : list path :=
  [tp ["timeline.jsonl"]; tp ["manifest.json"]; tp ["task.json"];
   tp ["changes"; "accepted.diff"]; merge_lock] ++ flat_map change_paths l.

Definition file_locks (l : list ChangedFile) (q : path) : Prop :=
  ∃ c, c ∈ l ∧ q = file_lock (cf_path c).
Definition merge_locks (l : list ChangedFile) (q : path) : Prop :=
  q = merge_lock ∨ file_locks l q.

Context (Hl : merge_layout self Z m) (l : list ChangedFile).
Local Abbreviation T := (merge_targets l).
Local Abbreviation shape := (in_shape self Z m T).
Context (HT : targets_ok Z T).
Context (Hin : ∀ c, c ∈ l → c ∈ changed_files m).
Context (Hrel : ∀ c, c ∈ l → is_absolute (cf_path c) = false).
Let Ha := ml_area _ _ _ Hl.

Lemma task_targets x :
  x ∈ [["timeline.jsonl"]; ["manifest.json"]; ["task.json"]; ["changes"; "accepted.diff"]] →
  tp x ∈ T.
Proof using Type. clear. unfold merge_targets. set_solver. Qed.

Lemma change_targets c q : c ∈ l → q ∈ change_paths c → q ∈ T.
Proof.
  intros Hc Hq. apply elem_of_app. right. apply list_elem_of_In, in_flat_map.
  exists c. split; by apply list_elem_of_In.
Qed.

Lemma file_locks_lock q : file_locks l q → is_lock self m q.
Proof. intros (c & _ & ->). by eexists. Qed.
Lemma merge_locks_lock q : merge_locks l q → is_lock self m q.
Proof. intros [-> |Hq]; [by eexists|by apply file_locks_lock]. Qed.

Lemma project_target N c :
  (∀ q, N q → is_lock self m q) → c ∈ l →
  writable_target T (record_content self m) N (O ++ comps (cf_path c)).
Proof.
  intros HN Hc. pose proof (not_state self O (comps (cf_path c)) (ml_orig _ _ _ Hl)) as Hns.
  split.
  - apply (change_targets c); [done|]. unfold change_paths. set_solver.
  - intros [x Hx]%HN. apply Hns. rewrite Hx. exists [pid; "locks"; x].
    unfold lock_path. by rewrite <- (assoc (++)).
  - intros s Hs. destruct Hns. rewrite Hs. apply task_path_under.
Qed.

Lemma snapshot_target N c d :
  (∀ q, N q → is_lock self m q) → c ∈ l → d ∈ [before; after] →
  snap_targets T (record_content self m) N d (cf_path c).
Proof.
  intros HN Hc Hd.
  assert (Hd' : ∃ x, d = tp ["snapshots"; x]) by (set_solver).
  destruct Hd' as [x ->].
  split.
  - assert (Heq : snapshot_blob_path (tp ["snapshots"; x]) (cf_path c)
                  = tp ["snapshots"; x; encode_path (cf_path c) +:+ ".blob"])
      by (by rewrite snapshot_blob_path_eq, task_path_app).
    rewrite Heq. apply task_target; [done| |done]. rewrite <- Heq.
    apply (change_targets c); [done|]. unfold change_paths. set_solver.
  - assert (Heq : snapshot_missing_path (tp ["snapshots"; x]) (cf_path c)
                  = tp ["snapshots"; x; encode_path (cf_path c) +:+ ".missing"])
      by (by rewrite snapshot_missing_path_eq, task_path_app).
    rewrite Heq. apply task_target; [done| |done]. rewrite <- Heq.
    apply (change_targets c); [done|]. unfold change_paths. set_solver.
Qed.

(** ** Merging one file *)

Lemma project_hash_run N c w :
  shape N (w_fs w) → c ∈ l →
  project_hash m (cf_path c) w
  = (Ok (hash_of <$> file_of (w_fs w) (O ++ comps (cf_path c))), w).
Proof.
  intros Hs Hc. unfold project_hash.
  assert (Hj : checked_join O (cf_path c) w = (Ok (O ++ comps (cf_path c)), w)).
  { unfold checked_join. rewrite (proj2 (checked_join_opt_Some O (cf_path c) (O ++ comps (cf_path c)))); [done|].
    split; [by apply Hrel|]. split; [|done].
    apply (clear_rel Z O), (ml_clear_o _ _ _ Hl). by apply Hin. }
  rewrite (bind_run _ _ _ _ _ Hj).
  eapply file_hash_target; [exact HT|exact Hs|].
  apply (change_targets c); [done|]. unfold change_paths. set_solver.
Qed.

Lemma merge_file_succeeds N c :
  (∀ q, N q → is_lock self m q) → c ∈ l →
  succeeds (shape N) (merge_file m before after [] c) (λ _, shape N).
Proof.
  intros HN Hc. pose proof (ml_clear_o _ _ _ Hl c (Hin c Hc)) as Hco.
  pose proof (ml_clear_w _ _ _ Hl c (Hin c Hc)) as Hcw. pose proof (Hrel c Hc) as Hab.
  unfold merge_file. simpl.
  eapply succeeds_bind.
  { apply snapshot_file_succeeds; [done..|apply snapshot_target; [done..|set_solver]|].
    apply missing_ne, (ml_orig _ _ _ Hl). }
  intros u; cbv beta. eapply succeeds_bind.
  { apply copy_file_or_remove_succeeds; [done..|]. by apply project_target. }
  intros u1; cbv beta. eapply succeeds_bind.
  { apply snapshot_file_succeeds; [done..|apply snapshot_target; [done..|set_solver]|].
    apply missing_ne, (ml_orig _ _ _ Hl). }
  intros u2; cbv beta. eapply succeeds_bind with (R' := λ _, shape N).
  - intros w Hs. rewrite (project_hash_run N) by done. eauto.
  - intros h. by apply succeeds_ret.
Qed.

Lemma merge_one_succeeds sel acc c :
  (cf_path c ∈ sel → c ∈ l) →
  succeeds (shape (file_locks l)) (merge_one self m sel before after [] acc c)
    (λ _, shape (file_locks l)).
Proof.
  intros Hc. destruct acc as [[done_ accp] skip]. unfold merge_one.
  case_bool_decide as Hsel; simpl; [|by apply succeeds_ret].
  specialize (Hc Hsel). pose proof (ta_pid _ _ _ _ Ha) as Hp. pose proof (ta_tid _ _ _ _ Ha) as Ht.
  assert (Hlk : file_lock (cf_path c) ∈ T)
    by (apply (change_targets c); [done|unfold change_paths; set_solver]).
  eapply succeeds_bind.
  { unfold acquire_path_lock. rewrite (path_lock_path_eq self pid tid Hp Ht).
    rewrite (locks_root_eq self pid Hp).
    apply acquire_succeeds; [done|apply file_locks_lock|by exists c|done]. }
  intros u; cbv beta. rewrite (path_lock_path_eq self pid tid Hp Ht).
  eapply succeeds_bind with (R' := λ _, shape (file_locks l));
    [|intros c'; by apply succeeds_ret].
  eapply succeeds_finally; [apply merge_file_succeeds; [|done]|].
  - intros q [Hq _]. by apply file_locks_lock.
  - intros c' fs Hs. eapply shaped_mono;
      [exact (release_shape self Z m T HT _ _ fs Hs Hlk)| |done|done].
    intros q Hq. destruct (decide (q = file_lock (cf_path c))) as [-> |]; [by right|by left].
Qed.
(** The first loop accepts files whose hashes are as expected. *)
Lemma verify_run N mp failed conflict (expected : ChangedFile → option string)
    (p : ChangedFile → bool) w :
  shape N (w_fs w) →
  (∀ c, c ∈ changed_files m → p c = true →
     c ∈ l ∧ hash_of <$> file_of (w_fs w) (O ++ comps (cf_path c)) = expected c) →
  verify_files self mp m failed conflict expected p w = (Ok tt, w).
Proof.
  intros Hs Hc. apply forM_run. intros c Hch. destruct (p c) eqn:Hp; [|done]. simpl.
  destruct (Hc c Hch Hp) as [Hcl He].
  rewrite (bind_run _ _ _ _ _
    (project_hash_run N c w Hs Hcl)).
  by rewrite bool_decide_eq_true_2.
Qed.

(** ** Rolling back *)

Lemma rollback_one_succeeds N (paths : gset string) acc c :
  (∀ q, N q → is_lock self m q) →
  (accepted c = true → cf_path c ∈ paths → c ∈ l) →
  succeeds (shape N) (rollback_one m paths before [] acc c) (λ _, shape N).
Proof.
  intros HN Hc. unfold rollback_one.
  destruct (accepted c) eqn:Hacc; [|by apply succeeds_ret].
  case_bool_decide as Hp; simpl; [|by apply succeeds_ret].
  specialize (Hc eq_refl Hp). eapply succeeds_bind with (R' := λ _, shape N);
    [|intros c'; by apply succeeds_ret].
  unfold rollback_file. cbv zeta.
  assert (Hind : indices_for (cf_path c) [] = ∅) by done. rewrite Hind.
  rewrite (bool_decide_eq_true_2 ((∅ : gset BinNums.N) = ∅)) by done. simpl.
  eapply succeeds_bind with (R' := λ _, shape N); [|intros u; by apply succeeds_ret].
  apply restore_snapshot_succeeds;
    [done|by apply Hrel|apply snapshot_target; [done..|set_solver]|by apply project_target|].
  apply missing_ne, (ml_orig _ _ _ Hl).
Qed.

Lemma rollback_manifest_succeeds N w :
  (∀ q, N q → is_lock self m q) → shape N (w_fs w) → l ≠ [] →
  (∀ c, c ∈ l ↔ c ∈ changed_files m ∧ accepted c = true) →
  (∀ c, c ∈ l → hash_of <$> file_of (w_fs w) (O ++ comps (cf_path c))
                = after_merge_hash c) →
  ∃ out w', rollback_manifest self mpath {| rr_selection := RAll |} m w = (Ok out, w') ∧
            shape N (w_fs w').
Proof.
  intros HN Hs Hne Hacc Hh. unfold rollback_manifest. cbv zeta. simpl.
  rewrite (snapshot_dirs_eq self Z m Hl) by done.
  set (paths := selected_rollback_paths (changed_files m) RAll).
  assert (Hpaths : ∀ c, c ∈ l → cf_path c ∈ paths).
  { intros c Hc. apply Hacc in Hc as [Hc Ha']. unfold paths, selected_rollback_paths.
    apply elem_of_list_to_set, list_elem_of_fmap. exists c. split; [done|].
    apply list_elem_of_In, filter_In. split; [by apply list_elem_of_In|].
    rewrite Ha'. simpl. apply bool_decide_eq_true_2, elem_of_list_to_set, list_elem_of_fmap.
    exists c. split; [done|]. apply list_elem_of_In, filter_In.
    split; [by apply list_elem_of_In|done]. }
  rewrite bool_decide_eq_false_2.
  2:{ intros He. destruct l as [|c l']; [done|]. specialize (Hpaths c ltac:(left)).
      rewrite He in Hpaths. set_solver. }
  erewrite bind_run; [|apply (verify_run N); [exact Hs|]].
  2:{ intros c Hc [Ha' _]%andb_true_iff. assert (Hcl : c ∈ l) by (by apply Hacc). auto. }
  match goal with |- ∃ out w', ?mm w = _ ∧ _ =>
    cut (succeeds (shape N) mm (λ _, shape N)); [intros Hsucc; exact (Hsucc w Hs)|] end.
  eapply succeeds_bind.
  { apply succeeds_foldM. intros acc c Hc. apply rollback_one_succeeds; [done|].
    intros Ha' _. by apply Hacc. }
  intros [changes paths']. cbv beta.
  eapply succeeds_bind; [apply succeeds_now|]. intros t.
  eapply succeeds_bind; [apply (manifest_succeeds self Z m T HT Ha); try done;
    apply task_targets; set_solver|].
  intros u1; cbv beta.
  eapply succeeds_bind; [apply (status_succeeds self Z m T HT Ha); try done;
    apply task_targets; set_solver|].
  intros u2; cbv beta.
  eapply succeeds_bind; [apply (timeline_succeeds self Z m T HT Ha); try done;
    apply task_targets; set_solver|].
  intros e2; cbv beta. by apply succeeds_ret.
Qed.
End merge.

(** ** The merge and the rollback *)

Section total.
Context `{Sys} `{Codecs} `{!SerdeOk TaskRecord}.
Context (self : CodexNewCore) (Z : path → Prop) (m : TaskManifest).
Local Abbreviation pid := (m_project_id m).
Local Abbreviation tid := (m_task_id m).
Local Abbreviation O := (original_root m).
Local Abbreviation W := (workspace_root m).
Local Abbreviation tp := (task_path self pid tid).
Local Abbreviation before := (tp ["snapshots"; "before"]).
Local Abbreviation after := (tp ["snapshots"; "after-merge"]).
Local Abbreviation inv := (task_inv self pid tid).
Local Abbreviation mpath := (manifest_file self pid tid).

Context (Hl : merge_layout self Z m) (req : MergeRequest).
Local Abbreviation sel := (selected_paths (changed_files m) (mr_selection req)).
Local Abbreviation l := (selected sel (changed_files m)).
Local Abbreviation T := (merge_targets self m l).
Local Abbreviation shape := (in_shape self Z m T).
Context (HT : targets_ok Z T).
Context (Hrel : ∀ c, c ∈ l → is_absolute (cf_path c) = false).
Let Ha := ml_area _ _ _ Hl.

Lemma selected_elem c : c ∈ l ↔ c ∈ changed_files m ∧ cf_path c ∈ sel.
Proof.
  unfold selected. rewrite list_elem_of_In, filter_In, <- list_elem_of_In.
  by rewrite bool_decide_eq_true.
Qed.

Lemma selected_in c : c ∈ l → c ∈ changed_files m.
Proof. by intros [? _]%selected_elem. Qed.

(** What remains once the files are verified. *)
Lemma merge_loop_succeeds acc :
  succeeds (shape (file_locks self m l))
    (foldM (merge_one self m sel before after []) acc (changed_files m))
    (λ _, shape (file_locks self m l)).
Proof.
  apply succeeds_foldM. intros acc' c Hc.
  apply (merge_one_succeeds self Z m Hl l HT selected_in Hrel). intros Hsel.
  by apply selected_elem.
Qed.

Lemma accepted_diff_succeeds text :
  succeeds (shape (file_locks self m l))
    (write (join (join (task_root self pid tid) "changes") "accepted.diff") text : R unit)
    (λ _, shape (file_locks self m l)).
Proof.
  rewrite (task_root_eq self pid tid (ta_pid _ _ _ _ Ha) (ta_tid _ _ _ _ Ha)).
  rewrite !task_path_join by done. simpl.
  destruct (task_target self m T (file_locks self m l) ["changes"; "accepted.diff"])
    as [? Hf Hc]; [apply file_locks_lock|apply task_targets; set_solver|done|].
  apply write_succeeds; [done..|]. intros q Hq Hne Hq0. split; [|done].
  assert (Heq : tp ["changes"; "accepted.diff"] = tp ["changes"] ++ ["accepted.diff"])
    by (by rewrite task_path_app).
  rewrite Heq in *. by apply prefix_snoc_inv in Hq as [Hq|].
Qed.

(** The files are as the manifest recorded them. *)
Definition baseline_holds (fs : fsys) : Prop :=
  ∀ c, c ∈ l → hash_of <$> file_of fs (O ++ comps (cf_path c)) = before_hash c.

Lemma merge_body_succeeds w :
  hunk_selections (mr_selection req) = [] →
  store_ok Z inv (w_fs w) → shape (file_locks self m l) (w_fs w) →
  baseline_holds (w_fs w) →
  ∃ out w', merge_body self mpath req m w = (Ok out, w') ∧
            shape (file_locks self m l) (w_fs w').
Proof.
  intros Hh Hok Hs Hb. unfold merge_body. rewrite Hh. cbv zeta.
  rewrite !(snapshot_dirs_eq self Z m Hl) by done.
  assert (Htg : ∀ x, x ∈ [["timeline.jsonl"]; ["manifest.json"]; ["task.json"];
                ["changes"; "accepted.diff"]] → tp x ∈ T) by (apply task_targets).
  pose proof (file_locks_lock self m l) as Hlk.
  destruct (timeline_succeeds self Z m T HT Ha (file_locks self m l) MergeStarted
    (JObj [("selection", to_value (mr_selection req))]) Hlk (Htg ["timeline.jsonl"] ltac:(set_solver))
    w Hs) as (e & w1 & Hw1 & Hs1).
  rewrite (bind_run _ _ _ _ _ Hw1).
  pose proof Hw1 as Hk1. apply (keeps_run Z inv (kept self m)) in Hk1 as [Hok1 Hk1];
    [|by apply scope_timeline|done].
  erewrite bind_run; [|apply (verify_run self Z m Hl l HT selected_in Hrel (file_locks self m l)); [exact Hs1|]].
  2:{ intros c Hc Hsel. apply bool_decide_eq_true in Hsel.
      assert (Hcl : c ∈ l) by (by apply selected_elem).
      split; [done|]. rewrite Hk1 by (left; left; apply under_app). by apply Hb. }
  match goal with |- ∃ out w', ?mm w1 = _ ∧ _ =>
    cut (succeeds (shape (file_locks self m l)) mm (λ _, shape (file_locks self m l)));
    [intros Hsucc; exact (Hsucc w1 Hs1)|] end.
  eapply succeeds_bind; [apply merge_loop_succeeds|]. intros [[changes acc] skip]. cbv beta.
  eapply succeeds_bind; [apply accepted_diff_succeeds|]. intros u; cbv beta.
  eapply succeeds_bind; [apply succeeds_now|]. intros t.
  eapply succeeds_bind; [apply manifest_succeeds; try done; apply Htg; set_solver|].
  intros u1; cbv beta.
  eapply succeeds_bind; [apply (status_succeeds self Z m T HT Ha); try done; apply Htg; set_solver|].
  intros u2; cbv beta.
  eapply succeeds_bind; [apply (timeline_succeeds self Z m T HT Ha); try done; apply Htg; set_solver|].
  intros e2; cbv beta. by apply succeeds_ret.
Qed.

Lemma file_lock_ne p : file_lock self m p ≠ merge_lock self m.
Proof.
  unfold file_lock, merge_lock, lock_path. intros Heq. apply (inj (app _)) in Heq.
  simpl in Heq. injection Heq. done.
Qed.

(** A merge of whole files whose baseline holds succeeds. *)
Lemma merge_refreshed_succeeds w :
  hunk_selections (mr_selection req) = [] →
  store_ok Z inv (w_fs w) → shape (merge_locks self m l) (w_fs w) →
  baseline_holds (w_fs w) →
  ∃ out w', merge_refreshed self mpath req m w = (Ok out, w') ∧
            shape (merge_locks self m l) (w_fs w').
Proof.
  intros Hh Hok Hs Hb. unfold merge_refreshed.
  pose proof (ta_pid _ _ _ _ Ha) as Hp. pose proof (ta_tid _ _ _ _ Ha) as Ht.
  assert (Hin : merge_lock self m ∈ T) by (unfold merge_targets; clear; set_solver).
  assert (HK : ¬ kept self m (lock_path self pid ("merge-" +:+ tid +:+ ".lock"))).
  { intros [Hq|Hq]; [by apply (lock_out_of_scope self Z m Hl) in Hq|revert Hq; path_ne]. }
  assert (Hacq : ∃ w1, acquire_merge_lock (project_root self pid) tid w = (Ok tt, w1) ∧
            shape (λ q, merge_locks self m l q ∧ q ≠ merge_lock self m) (w_fs w1)).
  { unfold acquire_merge_lock. rewrite (merge_lock_path_eq self pid tid Hp Ht).
    rewrite (locks_root_eq self pid Hp).
    destruct (acquire_succeeds self Z m T HT (merge_locks self m l)
      ("merge-" +:+ tid +:+ ".lock") ("merge lock already held for task " +:+ tid) tid)
      with (w := w) as ([] & w1 & Hw1 & Hs1);
      [apply merge_locks_lock|by left|done|done|]. by exists w1. }
  destruct Hacq as (w1 & Hw1 & Hs1). rewrite (bind_run _ _ _ _ _ Hw1).
  apply (keeps_run Z inv (kept self m)) in Hw1 as [Hok1 Hk1];
    [|by apply (merge_lock_frame self Z m Hl)|done].
  destruct (merge_body_succeeds w1 Hh Hok1) as (out & w2 & Hw2 & Hs2).
  - eapply shaped_mono; [exact Hs1| |done|done]. intros q Hq. split; [by right|].
    destruct Hq as (c & _ & ->). apply file_lock_ne.
  - intros c Hc. rewrite Hk1 by (left; left; apply under_app). by apply Hb.
  - unfold finally. rewrite Hw2. do 2 eexists. split; [done|]. simpl.
    rewrite (merge_lock_path_eq self pid tid Hp Ht).
    eapply shaped_mono; [exact (release_shape self Z m T HT _ _ _ Hs2 Hin)| |done|done].
    intros q [->|Hq]; [by right|by left].
Qed.
End total.

(** * When a merge succeeds

    The hash check is the only reason for which a merge of whole files fails
    on a task whose files are where the engine expects them, and what was
    merged there can be rolled back. *)

Section props.
Context `{Sys} `{Codecs} `{!SerdeOk TaskRecord} `{!SerdeOk TaskManifest}.
Implicit Types (self : CodexNewCore) (Z : path → Prop) (m : TaskManifest) (w : world).

(** The files a merge of [l] writes are regular files or absent, none below
    another one; their directories are directories or absent, that of the
    rendered diffs exists, the locks are free and the task record is the
    task's. *)
Record merge_ready self Z m (l : list ChangedFile) (fs : fsys) : Prop := {
  mr_targets : targets_ok Z (merge_targets self m l);
  mr_relative : ∀ c, c ∈ l → is_absolute (cf_path c) = false;
  mr_shape : in_shape self Z m (merge_targets self m l) (merge_locks self m l) fs
}.

(** The project's version of every file of [l] has the recorded hash. *)
Definition baseline_ok m (l : list ChangedFile) (fs : fsys) : Prop :=
  ∀ c, c ∈ l → hash_of <$> file_of fs (project_file m c) = before_hash c.

(** C4: A merge of whole files whose lock is free, whose store and targets can be
    written and whose accepted files can be copied succeeds exactly when every
    accepted file of the project still has its recorded baseline. *)
Theorem merge_succeeds_iff self Z m req w :
  merge_layout self Z m →
  store_ok Z (task_inv self (m_project_id m) (m_task_id m)) (w_fs w) →
  hunk_selections (mr_selection req) = [] →
  merge_ready self Z m (accepted_changes m req) (w_fs w) →
  is_ok (merge_refreshed self (manifest_file self (m_project_id m) (m_task_id m)) req m w).1
    = true
  ↔ baseline_ok m (accepted_changes m req) (w_fs w).
Proof.
  intros Hl Hok Hh [HT Hrel Hs]. split.
  - intros Hr c Hc. destruct (decide (hash_of <$> file_of (w_fs w) (project_file m c)
      = before_hash c)) as [|Hne]; [done|]. exfalso.
    destruct (merge_refreshed _ _ _ _ _) as [r w'] eqn:Hw.
    apply (selected_elem m req) in Hc as [Hc Hsel].
    apply (merge_refused self Z m Hl _ _ _ _ c) in Hw as (Hf & _); [|done..].
    simpl in Hr. congruence.
  - intros Hb.
    destruct (merge_refreshed_succeeds self Z m Hl req HT Hrel w) as (out & w' & Hw & _);
      [done..|]. by rewrite Hw.
Qed.

(** The targets depend on the paths of the changes only. *)
Lemma merge_targets_map self m m' (f : ChangedFile → ChangedFile) l :
  m_project_id m' = m_project_id m → m_task_id m' = m_task_id m →
  original_root m' = original_root m → (∀ c, cf_path (f c) = cf_path c) →
  merge_targets self m' (map f l) = merge_targets self m l.
Proof.
  intros Hp Ht Ho Hf. unfold merge_targets, merge_lock. rewrite Hp, Ht. f_equal.
  rewrite !flat_map_concat_map, map_map. f_equal. apply map_ext. intros c.
  unfold change_paths, file_lock. by rewrite Hf, Hp, Ht, Ho.
Qed.

(** The changes a merge accepted, as it leaves them in the manifest. *)
Lemma merged_elem m req (a : store) t c :
  (∀ c, c ∈ changed_files m → accepted c = false) →
  c ∈ map (merged_change m a) (accepted_changes m req) ↔
  c ∈ changed_files (merged_manifest m (selected_paths (changed_files m) (mr_selection req))
                       a t) ∧ accepted c = true.
Proof.
  intros Hacc. unfold accepted_changes.
  rewrite <- (accepted_loop m _ a (changed_files m) Hacc).
  rewrite list_elem_of_In, filter_In, <- list_elem_of_In. done.
Qed.

(** Under the same conditions, the merge succeeds and the rollback of everything
    that follows it succeeds too, and restores exactly the paths that were merged. *)
Theorem merge_rollback_succeeds self Z m req w :
  merge_layout self Z m →
  store_ok Z (task_inv self (m_project_id m) (m_task_id m)) (w_fs w) →
  hunk_selections (mr_selection req) = [] →
  merge_ready self Z m (accepted_changes m req) (w_fs w) →
  baseline_ok m (accepted_changes m req) (w_fs w) →
  accepted_changes m req ≠ [] →
  (∀ c, c ∈ changed_files m → accepted c = false) →
  NoDup (map (comps ∘ cf_path) (changed_files m)) →
  ∃ out w1 out2 w2,
    merge_refreshed self (manifest_file self (m_project_id m) (m_task_id m)) req m w
      = (Ok out, w1) ∧
    rollback self (manifest_file self (m_project_id m) (m_task_id m))
      {| rr_selection := RAll |} w1 = (Ok out2, w2) ∧
    restored_paths out2 = map cf_path (accepted_changes m req).
Proof.
  intros Hl Hok Hh [HT Hrel Hs] Hb Hne Hacc Hn.
  pose proof (ta_pid _ _ _ _ (ml_area _ _ _ Hl)) as Hp.
  pose proof (ta_tid _ _ _ _ (ml_area _ _ _ Hl)) as Ht.
  destruct (merge_refreshed_succeeds self Z m Hl req HT Hrel w) as (out & w1 & Hw & Hs1);
    [done..|].
  pose proof Hw as [Hok1 _ Hst Ha _ [t Hm]]%(merge_refreshed_ok self Z m Hl); [|done..].
  set (sel := selected_paths (changed_files m) (mr_selection req)) in *.
  set (m1 := merged_manifest m sel (file_of (w_fs w)) t) in *.
  set (l1 := map (merged_change m (file_of (w_fs w))) (accepted_changes m req)).
  assert (Hl1 : merge_layout self Z m1) by (by apply layout_merged).
  assert (HT1 : merge_targets self m1 l1 = merge_targets self m (accepted_changes m req))
    by (by apply merge_targets_map).
  assert (Hroll : ∃ out2 w2, rollback_manifest self
      (manifest_file self (m_project_id m) (m_task_id m)) {| rr_selection := RAll |} m1 w1
      = (Ok out2, w2)).
  { destruct (rollback_manifest_succeeds self Z m1 Hl1 l1) with (N := λ _ : path, False)
      (w := w1) as (out2 & w2 & Hw2 & _).
    - by rewrite HT1.
    - intros c Hc. by apply (merged_elem m req (file_of (w_fs w)) t) in Hc as [? _].
    - intros c (d & -> & Hd)%list_elem_of_fmap. by apply (Hrel d Hd).
    - done.
    - unfold in_shape. rewrite HT1.
      eapply shaped_mono; [exact Hs1|done|done|done].
    - unfold l1. by destruct (accepted_changes m req).
    - intros c. by apply merged_elem.
    - intros c (d & -> & Hd)%list_elem_of_fmap. simpl. f_equal.
      pose proof (scope_roots self Z m Hl) as (? & ? & ? & ?).
      rewrite Hst by (left; apply under_app).
      apply merge_all_target; [apply (ml_ow _ _ _ Hl)|done..].
    - eauto. }
  destruct Hroll as (out2 & w2 & Hw2). exists out, w1, out2, w2. split; [done|].
  assert (Hrb : rollback self (manifest_file self (m_project_id m) (m_task_id m))
                  {| rr_selection := RAll |} w1 = (Ok out2, w2)).
  { unfold rollback. erewrite bind_run; [exact Hw2|]. unfold read_manifest_from.
    rewrite (manifest_path_eq self _ _ Hp Ht).
    erewrite bind_run.
    2:{ unfold read, lift_read. rewrite (proj2 (read_clear Z (w_fs w1) (st_fs _ _ _ Hok1)
          (task_path self (m_project_id m) (m_task_id m) ["manifest.json"])
          (to_vec_pretty m1) ltac:(apply (task_clear _ _ _ _ (ml_area _ _ _ Hl));
            by repeat constructor)) Hm). done. }
    unfold from_json. by rewrite from_slice_to_vec. }
  split; [done|].
  apply (rollback_manifest_ok self Z m1 Hl1) in Hw2 as (_ & _ & Hr & _); [|done..].
  rewrite Hr. unfold m1, sel. rewrite restored_merged by done. by rewrite map_map.
Qed.
End props.

(** ** Checking that a merge is ready *)

Section check.
Context `{Codecs} (self : CodexNewCore) (m : TaskManifest) (l : list ChangedFile).
Local Abbreviation T := (merge_targets self m l).
Local Abbreviation tp := (task_path self (m_project_id m) (m_task_id m)).

Definition proper_prefix (q p : path) : bool :=
  bool_decide (q `prefix_of` p) && negb (bool_decide (q = p)).

Definition check_entry (e : path * node) : bool :=
  implb (existsb (proper_prefix (fst e)) T) (bool_decide (snd e = Dir)) &&
  implb (bool_decide (fst e ∈ T))
    match snd e with
    | File s =>
        implb (bool_decide (fst e = tp ["task.json"]))
          match from_slice s with
          | Some t => String.eqb (task_id t) (m_task_id m)
          | None => false
          end
    | _ => false
    end.

Definition check_targets : bool :=
  forallb (λ p, forallb (λ q, negb (proper_prefix p q)) T &&
                forallb (λ c, negb (String.eqb c "..")) p &&
                negb (bool_decide (p = []))) T.

Definition check_ready (fs : fsys) : bool :=
  check_fs fs && check_targets && forallb check_entry (map_to_list fs) &&
  forallb (λ c, negb (is_absolute (cf_path c))) l &&
  forallb (λ q, bool_decide (fs !! q = None))
    (merge_lock self m :: map (file_lock self m ∘ cf_path) l) &&
  bool_decide (fs !! tp ["changes"] = Some Dir).

Lemma proper_prefix_true q p : proper_prefix q p = true ↔ q `prefix_of` p ∧ q ≠ p.
Proof.
  unfold proper_prefix. rewrite andb_true_iff, negb_true_iff.
  by rewrite bool_decide_eq_true, bool_decide_eq_false.
Qed.

Lemma forallb_elem {A : Type} (f : A → bool) (k : list A) :
  forallb f k = true → ∀ x, x ∈ k → f x = true.
Proof. rewrite forallb_forall. intros Hk x Hx. by apply Hk, list_elem_of_In. Qed.

Lemma check_targets_ok : check_targets = true → targets_ok no_links T.
Proof.
  intros Hc. pose proof (forallb_elem _ _ Hc) as Hp. split.
  - intros p q Hpt Hqt Hpre. destruct (decide (p = q)) as [|Hne]; [done|].
    apply Hp in Hpt. to_prop. pose proof (forallb_elem _ T ltac:(eassumption) q Hqt) as Hq.
    apply negb_true_iff in Hq. by rewrite (proj2 (proper_prefix_true p q)) in Hq.
  - intros p Hpt. apply Hp in Hpt. to_prop. apply clear_no_links, Forall_forall.
    intros x Hx. pose proof (forallb_elem _ p ltac:(eassumption) x Hx) as Hq. simpl in Hq.
    by apply negb_true_iff, String.eqb_neq in Hq.
  - intros Hr. apply Hp in Hr. to_prop. done.
Qed.

Lemma check_entry_ok fs q n :
  forallb check_entry (map_to_list fs) = true → fs !! q = Some n →
  (above T q → n = Dir) ∧ (q ∈ T → ∃ s, n = File s ∧ record_content self m q s).
Proof.
  intros Hc Hn. apply elem_of_map_to_list in Hn. apply (forallb_elem _ _ Hc (q, n)) in Hn.
  unfold check_entry in Hn. cbn [fst snd] in Hn. apply andb_true_iff in Hn as [Hab Hin]. split.
  - intros (_ & p & Hp & Hpre & Hne).
    assert (He : existsb (proper_prefix q) T = true).
    { apply existsb_exists. exists p. split; [by apply list_elem_of_In|].
      by apply proper_prefix_true. }
    rewrite He in Hab. by apply bool_decide_eq_true in Hab.
  - intros Ht. rewrite (bool_decide_eq_true_2 _ Ht) in Hin. simpl in Hin.
    destruct n as [s| |]; [|done..]. exists s. split; [done|]. intros ->.
    rewrite bool_decide_eq_true_2 in Hin by done. simpl in Hin.
    destruct (from_slice s) as [t|]; [|done]. apply String.eqb_eq in Hin. eauto.
Qed.

Lemma check_ready_ok fs : check_ready fs = true → merge_ready self no_links m l fs.
Proof.
  unfold check_ready. intros Hc. to_prop.
  match goal with H : check_fs fs = true |- _ => apply check_fs_ok in H as Hfs end.
  match goal with H : check_targets = true |- _ => apply check_targets_ok in H as HT end.
  split; [done|..].
  - intros c Hc. match goal with H : forallb _ l = true |- _ =>
      by apply (forallb_elem _ _ H), negb_true_iff in Hc end.
  - assert (He := check_entry_ok fs). split; [done|..].
    + intros q n Hq. by eapply He.
    + intros q n Hq. by eapply He.
    + assert (Hlock : ∀ q, merge_locks self m l q →
                q ∈ merge_lock self m :: map (file_lock self m ∘ cf_path) l).
      { intros q [->|(c & Hc & ->)]; [by left|]. right.
        apply list_elem_of_fmap. by exists c. }
      intros q Hq. split.
      * destruct Hq as [->|(c & Hc & ->)]; [unfold merge_targets; clear; set_solver|].
        apply (change_targets self m l c); [done|]. unfold change_paths. clear; set_solver.
      * apply Hlock in Hq. match goal with H : forallb _ (_ :: _) = true |- _ =>
          apply (forallb_elem _ _ H) in Hq end. by apply bool_decide_eq_true in Hq.
    + intros q [Hq Hq0]. destruct (decide (q = tp ["changes"])) as [->|Hne]; [done|].
      by eapply (ok_tree no_links fs Hfs (tp ["changes"])).
    + done.
Qed.
End check.

(** ** Witnesses *)

Lemma demo_ready :
  merge_ready demo_core no_links demo_manifest1 (accepted_changes demo_manifest1 demo_all)
    (w_fs demo_world1).
Proof. apply check_ready_ok. vm_compute. reflexivity. Qed.

Definition check_baseline (m : TaskManifest) (l : list ChangedFile) (fs : fsys) : bool :=
  forallb (λ c, bool_decide (hash_of <$> file_of fs (project_file m c) = before_hash c)) l.

Lemma check_baseline_ok m l fs : check_baseline m l fs = true → baseline_ok m l fs.
Proof. intros Hc x Hx. by apply (forallb_elem _ _ Hc), bool_decide_eq_true in Hx. Qed.

Lemma merge_succeeds_iff_witness :
  length (accepted_changes demo_manifest1 demo_all) = 4 ∧
  is_ok (merge_refreshed demo_core demo_path demo_all demo_manifest1 demo_world1).1 = true.
Proof.
  split; [vm_compute; reflexivity|].
  apply (proj2 (merge_succeeds_iff demo_core no_links demo_manifest1 demo_all demo_world1
    demo_merge_layout demo_store1 eq_refl demo_ready)).
  apply check_baseline_ok. vm_compute. reflexivity.
Defined.

Lemma merge_rollback_succeeds_witness :
  ∃ out w1 out2 w2,
    merge_refreshed demo_core demo_path demo_all demo_manifest1 demo_world1 = (Ok out, w1) ∧
    rollback demo_core demo_path {| rr_selection := RAll |} w1 = (Ok out2, w2) ∧
    restored_paths out2 = map cf_path (accepted_changes demo_manifest1 demo_all).
Proof.
  apply (merge_rollback_succeeds demo_core no_links demo_manifest1 demo_all demo_world1
    demo_merge_layout demo_store1 eq_refl demo_ready).
  - apply check_baseline_ok. vm_compute. reflexivity.
  - vm_compute. intros [=].
  - apply Forall_forall. apply (bool_decide_eq_true_1 _). vm_compute. reflexivity.
  - apply (bool_decide_eq_true_1 _). vm_compute. reflexivity.
Defined.
