(* ===== verification/Truncate.v ===== *)
(** * Truncating outputs

    [truncate.rs] of [codex-rs/utils/string], [codex-rs/utils/output-truncation],
    the policies of [codex-rs/protocol], and the buffer of a running command in
    [codex-rs/core]: the middle of what is too long is left out.  A [usize] has
    64 bits; lengths of texts in memory stay below its limit. *)

From S2P Require Import Prelude RustStr FsModel.

(** ** Characters

    A character of a UTF-8 text is a byte and the continuation bytes after it. *)

Definition flush_char (cur : list ascii) (cs : list (list ascii)) : list (list ascii) :=
  match cur with [] => cs | _ => cur :: cs end.

Fixpoint str_chars_go (cur l : list ascii) : list (list ascii) :=
  match l with
  | [] => flush_char cur []
  | b :: l' => if is_cont b then str_chars_go (cur ++ [b]) l' else flush_char cur (str_chars_go [b] l')
  end.

(** [str::chars], each with its bytes. *)
Definition str_chars (s : string) : list (list ascii) := str_chars_go [] (bytes s).

Definition len (s : string) : N := N.of_nat (String.length s).
Definition usize_sat_add (a b : N) : N := N.min u64_max (a + b).
Definition usize_sat_mul (a b : N) : N := N.min u64_max (a * b).

(** ** The middle of a text (truncate.rs) *)

Definition APPROX_BYTES_PER_TOKEN : N := 4.

Definition approx_token_count (text : string) : N :=
  (usize_sat_add (len text) (APPROX_BYTES_PER_TOKEN - 1) / APPROX_BYTES_PER_TOKEN)%N.
Definition approx_bytes_for_tokens (tokens : N) : N :=
  usize_sat_mul tokens APPROX_BYTES_PER_TOKEN.
Definition approx_tokens_from_byte_count (n : N) : N :=
  (u64_sat_add n (APPROX_BYTES_PER_TOKEN - 1) / APPROX_BYTES_PER_TOKEN)%N.

(** The variables of the loop of [split_string]. *)
Record SplitState := {
  sp_index : N;
  prefix_end : N;
  suffix_start : N;
  removed_chars : N;
  suffix_started : bool
}.

Definition split_step (beginning_bytes tail_start_target : N) (st : SplitState)
    (ch : list ascii) : SplitState :=
  let idx := sp_index st in
  let char_end := (idx + N.of_nat (length ch))%N in
  if (char_end <=? beginning_bytes)%N then
    {| sp_index := char_end; prefix_end := char_end; suffix_start := suffix_start st;
       removed_chars := removed_chars st; suffix_started := suffix_started st |}
  else if (tail_start_target <=? idx)%N then
    {| sp_index := char_end; prefix_end := prefix_end st;
       suffix_start := if suffix_started st then suffix_start st else idx;
       removed_chars := removed_chars st; suffix_started := true |}
  else
    {| sp_index := char_end; prefix_end := prefix_end st; suffix_start := suffix_start st;
       removed_chars := usize_sat_add (removed_chars st) 1; suffix_started := suffix_started st |}.

Definition byte_slice (s : string) (from to : N) : string :=
  of_bytes (take (N.to_nat (to - from)) (drop (N.to_nat from) (bytes s))).

Definition split_string (s : string) (beginning_bytes end_bytes : N) : N * string * string :=
  if String.eqb s "" then (0%N, ""%string, ""%string) else
  let st :=
    foldl (split_step beginning_bytes (len s - end_bytes))
      {| sp_index := 0; prefix_end := 0; suffix_start := len s; removed_chars := 0;
         suffix_started := false |} (str_chars s) in
  let suffix := N.max (suffix_start st) (prefix_end st) in
  (removed_chars st, byte_slice s 0 (prefix_end st), byte_slice s suffix (len s)).

Definition split_budget (budget : N) : N * N := ((budget / 2)%N, (budget - budget / 2)%N).

(** U+2026 on both sides. *)
Definition format_truncation_marker (use_tokens : bool) (removed_count : N) : string :=
  ellipsis +:+ pretty removed_count +:+
  (if use_tokens then " tokens truncated" else " chars truncated") +:+ ellipsis.

Definition removed_units (use_tokens : bool) (removed_bytes removed_chars : N) : N :=
  if use_tokens then approx_tokens_from_byte_count removed_bytes else removed_chars.

Definition assemble_truncated_output (prefix suffix marker : string) : string :=
  prefix +:+ marker +:+ suffix.

Definition truncate_with_byte_estimate (s : string) (max_bytes : N) (use_tokens : bool)
  : string :=
  if String.eqb s "" then ""%string else
  let total_chars := N.of_nat (length (str_chars s)) in
  if (max_bytes =? 0)%N then
    format_truncation_marker use_tokens (removed_units use_tokens (len s) total_chars)
  else if (len s <=? max_bytes)%N then s else
  let '(left_budget, right_budget) := split_budget max_bytes in
  let '(removed, before, after) := split_string s left_budget right_budget in
  assemble_truncated_output before after
    (format_truncation_marker use_tokens (removed_units use_tokens (len s - max_bytes) removed)).

Definition truncate_middle_chars (s : string) (max_bytes : N) : string :=
  truncate_with_byte_estimate s max_bytes false.

Definition truncate_middle_with_token_budget (s : string) (max_tokens : N)
  : string * option N :=
  if String.eqb s "" then (""%string, None) else
  if (0 <? max_tokens)%N && (len s <=? approx_bytes_for_tokens max_tokens)%N then (s, None) else
  let truncated := truncate_with_byte_estimate s (approx_bytes_for_tokens max_tokens) true in
  (truncated, if String.eqb truncated s then None else Some (approx_token_count s)).

(** ** Policies (protocol.rs) *)

Inductive TruncationPolicy := Bytes (n : N) | Tokens (n : N).

Definition token_budget (p : TruncationPolicy) : N :=
  match p with Bytes n => approx_tokens_from_byte_count n | Tokens n => n end.
Definition byte_budget (p : TruncationPolicy) : N :=
  match p with Bytes n => n | Tokens n => approx_bytes_for_tokens n end.

(** An [f64] has 53 significant bits; rounding is to the nearest, ties to even. *)
Definition round_f64 (p : N) : N :=
  let k := (N.size p - 53)%N in
  if (k =? 0)%N then p else
  let q := N.shiftr p k in
  let rest := (p - N.shiftl q k)%N in
  let half := N.shiftl 1 (k - 1) in
  let up := (half <? rest)%N || (rest =? half)%N && N.odd q in
  N.shiftl (if up then N.succ q else q) k.

(** [1.2], as a multiple of [2^-52]. *)
Definition SERIALIZATION_FACTOR : N := 5404319552844595.

(** [(n as f64 * 1.2).ceil() as usize]. *)
Definition scale_budget (n : N) : N :=
  let product := round_f64 (round_f64 n * SERIALIZATION_FACTOR) in
  N.min u64_max ((product + (N.shiftl 1 52 - 1)) / N.shiftl 1 52)%N.

Definition scale_policy (p : TruncationPolicy) : TruncationPolicy :=
  match p with Bytes n => Bytes (scale_budget n) | Tokens n => Tokens (scale_budget n) end.

(** ** Outputs of tools (output-truncation) *)

Inductive ImageDetail := DetailAuto | DetailLow | DetailHigh | DetailOriginal.

Inductive FunctionCallOutputContentItem :=
| OutInputText (text : string)
| OutInputImage (image_url : string) (detail : option ImageDetail).

Definition truncate_text (content : string) (p : TruncationPolicy) : string :=
  match p with
  | Bytes n => truncate_middle_chars content n
  | Tokens n => (truncate_middle_with_token_budget content n).1
  end.

Definition formatted_truncate_text (content : string) (p : TruncationPolicy) : string :=
  if (len content <=? byte_budget p)%N then content else
  "Total output lines: " +:+ pretty (N.of_nat (length (lines content))) +:+ nl +:+ nl +:+
  truncate_text content p.

Definition output_text (item : FunctionCallOutputContentItem) : option string :=
  match item with OutInputText text => Some text | OutInputImage _ _ => None end.
Definition is_image (item : FunctionCallOutputContentItem) : bool :=
  match item with OutInputImage _ _ => true | OutInputText _ => false end.

Definition join_segment (combined text : string) : string :=
  (if String.eqb combined "" then combined else combined +:+ nl) +:+ text.

Definition formatted_truncate_text_content_items_with_policy
    (items : list FunctionCallOutputContentItem) (p : TruncationPolicy)
  : list FunctionCallOutputContentItem * option N :=
  match omap output_text items with
  | [] => (items, None)
  | text_segments =>
      let combined := foldl join_segment ""%string text_segments in
      if (len combined <=? byte_budget p)%N then (items, None) else
      (OutInputText (formatted_truncate_text combined p) :: List.filter is_image items,
       Some (approx_token_count combined))
  end.

(** The variables of the loop: the output, the budget left, the texts omitted. *)
Record OutputBudget := {
  ob_out : list FunctionCallOutputContentItem;
  remaining_budget : N;
  omitted_text_items : N
}.

Definition text_cost (p : TruncationPolicy) (text : string) : N :=
  match p with Bytes _ => len text | Tokens _ => approx_token_count text end.
Definition with_budget (p : TruncationPolicy) (n : N) : TruncationPolicy :=
  match p with Bytes _ => Bytes n | Tokens _ => Tokens n end.

Definition budget_step (p : TruncationPolicy) (b : OutputBudget)
    (item : FunctionCallOutputContentItem) : OutputBudget :=
  match item with
  | OutInputImage _ _ =>
      {| ob_out := ob_out b ++ [item]; remaining_budget := remaining_budget b;
         omitted_text_items := omitted_text_items b |}
  | OutInputText text =>
      if (remaining_budget b =? 0)%N then
        {| ob_out := ob_out b; remaining_budget := 0;
           omitted_text_items := omitted_text_items b + 1 |}
      else if (text_cost p text <=? remaining_budget b)%N then
        {| ob_out := ob_out b ++ [item]; remaining_budget := remaining_budget b - text_cost p text;
           omitted_text_items := omitted_text_items b |}
      else
        let snippet := truncate_text text (with_budget p (remaining_budget b)) in
        if String.eqb snippet "" then
          {| ob_out := ob_out b; remaining_budget := 0;
             omitted_text_items := omitted_text_items b + 1 |}
        else
          {| ob_out := ob_out b ++ [OutInputText snippet]; remaining_budget := 0;
             omitted_text_items := omitted_text_items b |}
  end.

Definition truncate_function_output_items_with_policy
    (items : list FunctionCallOutputContentItem) (p : TruncationPolicy)
  : list FunctionCallOutputContentItem :=
  let b :=
    foldl (budget_step p)
      {| ob_out := [];
         remaining_budget := match p with Bytes _ => byte_budget p | Tokens _ => token_budget p end;
         omitted_text_items := 0 |} items in
  if (0 <? omitted_text_items b)%N then
    ob_out b ++ [OutInputText ("[omitted " +:+ pretty (omitted_text_items b) +:+
                               " text items ...]")]
  else ob_out b.

(** ** The buffer of a running command (head_tail_buffer.rs) *)

Record HeadTailBuffer := {
  max_bytes : nat;
  head_budget : nat;
  tail_budget : nat;
  ht_head : list (list ascii);
  ht_tail : list (list ascii);
  head_bytes : nat;
  tail_bytes : nat;
  omitted_bytes : N
}.

Definition UNIFIED_EXEC_OUTPUT_MAX_BYTES : N := 1024 * 1024.

Definition HeadTailBuffer_new (max : nat) : HeadTailBuffer := {|
  max_bytes := max; head_budget := max / 2; tail_budget := max - max / 2;
  ht_head := []; ht_tail := []; head_bytes := 0; tail_bytes := 0; omitted_bytes := 0 |}.

Definition retained_bytes (b : HeadTailBuffer) : nat := head_bytes b + tail_bytes b.

Definition set_tail (tail : list (list ascii)) (n : nat) (omitted : N) (b : HeadTailBuffer)
  : HeadTailBuffer := {|
  max_bytes := max_bytes b; head_budget := head_budget b; tail_budget := tail_budget b;
  ht_head := ht_head b; ht_tail := tail; head_bytes := head_bytes b; tail_bytes := n;
  omitted_bytes := omitted |}.

Definition push_head (chunk : list ascii) (b : HeadTailBuffer) : HeadTailBuffer := {|
  max_bytes := max_bytes b; head_budget := head_budget b; tail_budget := tail_budget b;
  ht_head := ht_head b ++ [chunk]; ht_tail := ht_tail b;
  head_bytes := head_bytes b + length chunk; tail_bytes := tail_bytes b;
  omitted_bytes := omitted_bytes b |}.

(** The loop of [trim_tail_to_budget]. *)
Fixpoint trim_go (excess : nat) (tail : list (list ascii)) (n : nat) (omitted : N)
  : list (list ascii) * nat * N :=
  match tail with
  | [] => ([], n, omitted)
  | front :: rest =>
      if excess =? 0 then (tail, n, omitted) else
      if length front <=? excess then
        trim_go (excess - length front) rest (n - length front)
          (usize_sat_add omitted (N.of_nat (length front)))
      else (drop excess front :: rest, n - excess, usize_sat_add omitted (N.of_nat excess))
  end.

Definition trim_tail_to_budget (b : HeadTailBuffer) : HeadTailBuffer :=
  let '(tail, n, omitted) :=
    trim_go (tail_bytes b - tail_budget b) (ht_tail b) (tail_bytes b) (omitted_bytes b) in
  set_tail tail n omitted b.

Definition push_to_tail (b : HeadTailBuffer) (chunk : list ascii) : HeadTailBuffer :=
  if tail_budget b =? 0 then
    set_tail (ht_tail b) (tail_bytes b)
      (usize_sat_add (omitted_bytes b) (N.of_nat (length chunk))) b
  else if tail_budget b <=? length chunk then
    let kept := drop (length chunk - tail_budget b) chunk in
    set_tail [kept] (length kept)
      (usize_sat_add (usize_sat_add (omitted_bytes b) (N.of_nat (tail_bytes b)))
         (N.of_nat (length chunk - length kept))) b
  else
    trim_tail_to_budget
      (set_tail (ht_tail b ++ [chunk]) (tail_bytes b + length chunk) (omitted_bytes b) b).

Definition push_chunk (b : HeadTailBuffer) (chunk : list ascii) : HeadTailBuffer :=
  if max_bytes b =? 0 then
    set_tail (ht_tail b) (tail_bytes b)
      (usize_sat_add (omitted_bytes b) (N.of_nat (length chunk))) b
  else if head_bytes b <? head_budget b then
    let remaining_head := head_budget b - head_bytes b in
    if length chunk <=? remaining_head then push_head chunk b else
    let head_part := take remaining_head chunk in
    push_to_tail (if bool_decide (head_part = []) then b else push_head head_part b)
      (drop remaining_head chunk)
  else push_to_tail b chunk.

Definition snapshot_chunks (b : HeadTailBuffer) : list (list ascii) := ht_head b ++ ht_tail b.
Definition to_bytes (b : HeadTailBuffer) : list ascii := concat (ht_head b) ++ concat (ht_tail b).

(** The chunks, and the buffer reset. *)
Definition drain_chunks (b : HeadTailBuffer) : list (list ascii) * HeadTailBuffer :=
  (ht_head b ++ ht_tail b,
   {| max_bytes := max_bytes b; head_budget := head_budget b; tail_budget := tail_budget b;
      ht_head := []; ht_tail := []; head_bytes := 0; tail_bytes := 0; omitted_bytes := 0 |}).
