(* ===== verification/History.v ===== *)
(** * The history of a conversation

    [context_manager/history.rs], [context_manager/normalize.rs],
    [event_mapping.rs] and the contextual fragments of [codex-rs/core], with the
    items of [codex-rs/protocol]: what a turn records, what is sent to the
    model, and what a rollback drops.  The XML and JSON parsers, the length of
    serialized items and image decoding are parameters ([HistoryEnv]).  A
    [serde_json::Value] is its text; identifiers made up for an item without
    one are left out. *)

From S2P Require Import Prelude RustStr FsModel Truncate.

(** ** Items (protocol) *)

Inductive ContentItem :=
| InputText (text : string)
| InputImage (image_url : string) (detail : option ImageDetail)
| OutputText (text : string).

Inductive MessagePhase := Commentary | FinalAnswer.

Inductive FunctionCallOutputBody :=
| BodyText (content : string)
| BodyContentItems (items : list FunctionCallOutputContentItem).

Record FunctionCallOutputPayload := {
  fo_body : FunctionCallOutputBody;
  fo_success : option bool
}.

Definition payload_from_text (content : string) : FunctionCallOutputPayload :=
  {| fo_body := BodyText content; fo_success := None |}.

Inductive LocalShellStatus := ShellCompleted | ShellInProgress | ShellIncomplete.

Record LocalShellExecAction := {
  ls_command : list string;
  ls_timeout_ms : option N;
  ls_working_directory : option string;
  ls_env : option (gmap string string);
  ls_user : option string
}.

Inductive WebSearchAction :=
| WebSearch_ (query : option string) (queries : option (list string))
| OpenPage (url : option string)
| FindInPage (url pattern : option string)
| WebSearchOther.

Inductive ReasoningItemContent := ReasoningText (text : string) | ReasoningPlain (text : string).

(** A [ReasoningItemReasoningSummary] is its text. *)
Inductive ResponseItem :=
| Message (id : option string) (role : string) (content : list ContentItem)
    (phase : option MessagePhase)
| Reasoning (id : string) (summary : list string) (content : option (list ReasoningItemContent))
    (encrypted_content : option string)
| LocalShellCall (id call_id : option string) (status : LocalShellStatus)
    (action : LocalShellExecAction)
| FunctionCall (id : option string) (name : string) (namespace : option string)
    (arguments call_id : string)
| ToolSearchCall (id call_id status : option string) (execution arguments : string)
| FunctionCallOutput (call_id : string) (output : FunctionCallOutputPayload)
| CustomToolCall (id status : option string) (call_id name input : string)
| CustomToolCallOutput (call_id : string) (name : option string)
    (output : FunctionCallOutputPayload)
| ToolSearchOutput (call_id : option string) (status execution : string) (tools : list string)
| WebSearchCall (id status : option string) (action : option WebSearchAction)
| ImageGenerationCall (id status : string) (revised_prompt : option string) (result : string)
| Compaction (encrypted_content : string)
| CompactionTrigger
| ContextCompaction (encrypted_content : option string)
| Other.

Record InterAgentCommunication := {
  iac_author : string;
  iac_recipient : string;
  iac_other_recipients : list string;
  iac_content : string;
  trigger_turn : bool
}.

(** A [HookPromptFragment]. *)
Record HookPromptFragment := { hp_text : string; hook_run_id : string }.

(** The code that is not part of the repository: the XML parser of hook
    prompts, the JSON parser of messages between agents, the length of an item
    as JSON, and the dimensions of a base64-encoded image. *)
Class HistoryEnv := {
  hook_prompt_xml : string → option HookPromptFragment;
  inter_agent_json : string → option InterAgentCommunication;
  item_json_length : ResponseItem → option N;
  image_dimensions : string → option (N * N)
}.

(** ** Contextual fragments *)

(** [s.get(..n)] and [s.get(n..)]: [None] past the end or inside a character. *)
Definition char_boundary (s : string) (n : nat) : bool :=
  match drop n (bytes s) with [] => n <=? String.length s | b :: _ => negb (is_cont b) end.
Definition get_to (n : nat) (s : string) : option string :=
  if char_boundary s n then Some (of_bytes (take n (bytes s))) else None.
Definition get_from (n : nat) (s : string) : option string :=
  if char_boundary s n then Some (of_bytes (drop n (bytes s))) else None.
Definition eq_ignore_case (s t : string) : bool :=
  String.eqb (to_ascii_lowercase s) (to_ascii_lowercase t).
Definition is_some_eq_ignore_case (candidate : option string) (s : string) : bool :=
  match candidate with Some c => eq_ignore_case c s | None => false end.

(** [ContextualUserFragment::matches_text] of a fragment with markers. *)
Definition matches_marked_text (START_MARKER END_MARKER text : string) : bool :=
  if String.eqb START_MARKER "" || String.eqb END_MARKER "" then false else
  let trimmed := trim_start text in
  let starts_with_marker :=
    is_some_eq_ignore_case (get_to (String.length START_MARKER) trimmed) START_MARKER in
  let trimmed := trim_end trimmed in
  let ends_with_marker :=
    is_some_eq_ignore_case
      (get_from (String.length trimmed - String.length END_MARKER) trimmed) END_MARKER in
  starts_with_marker && ends_with_marker.

Definition MARKED_FRAGMENTS : list (string * string) := [
  ("# AGENTS.md instructions for ", "</INSTRUCTIONS>");
  ("<environment_context>", "</environment_context>");
  ("<skill>", "</skill>");
  ("<user_shell_command>", "</user_shell_command>");
  ("<turn_aborted>", "</turn_aborted>");
  ("<subagent_notification>", "</subagent_notification>");
  ("<goal_context>", "</goal_context>")]%string.

Definition matches_unified_exec_process_limit_warning (text : string) : bool :=
  starts_with "Warning: The maximum number of unified exec processes you can keep open is"
    (trim text).
Definition matches_apply_patch_exec_command_warning (text : string) : bool :=
  starts_with "Warning: apply_patch was requested via " (trim text) &&
  ends_with "Use the apply_patch tool instead of exec_command." (trim text).
Definition matches_model_mismatch_warning (text : string) : bool :=
  starts_with "Warning: Your account was flagged for potentially high-risk cyber activity"
    (trim text).

Definition is_standard_contextual_user_text (text : string) : bool :=
  existsb (λ m, matches_marked_text m.1 m.2 text) MARKED_FRAGMENTS ||
  matches_unified_exec_process_limit_warning text ||
  matches_apply_patch_exec_command_warning text ||
  matches_model_mismatch_warning text.

Definition CONTEXTUAL_DEVELOPER_PREFIXES : list string :=
  ["<permissions instructions>"; "<model_switch>"; "<collaboration_mode>";
   "<realtime_conversation>"; "<personality_spec>"].

Definition is_contextual_dev_fragment (content_item : ContentItem) : bool :=
  match content_item with
  | InputText text =>
      let trimmed := trim_start text in
      existsb (λ prefix, is_some_eq_ignore_case (get_to (String.length prefix) trimmed) prefix)
        CONTEXTUAL_DEVELOPER_PREFIXES
  | _ => false
  end.

Definition is_contextual_dev_message_content (message : list ContentItem) : bool :=
  existsb is_contextual_dev_fragment message.
Definition has_non_contextual_dev_message_content (message : list ContentItem) : bool :=
  existsb (negb ∘ is_contextual_dev_fragment) message.

Section context.
Context `{HistoryEnv}.

Definition parse_hook_prompt_fragment (text : string) : option HookPromptFragment :=
  fragment ← hook_prompt_xml (trim text);
  if is_blank (hook_run_id fragment) then None else Some fragment.

Definition is_contextual_user_fragment (content_item : ContentItem) : bool :=
  match content_item with
  | InputText text =>
      match parse_hook_prompt_fragment text with
      | Some _ => true
      | None => is_standard_contextual_user_text text
      end
  | _ => false
  end.

Definition is_contextual_user_message_content (message : list ContentItem) : bool :=
  existsb is_contextual_user_fragment message.

(** The loop of [parse_visible_hook_prompt_message]. *)
Fixpoint hook_fragments (content : list ContentItem) : option (list HookPromptFragment) :=
  match content with
  | [] => Some []
  | InputText text :: rest =>
      match parse_hook_prompt_fragment text with
      | Some fragment => cons fragment <$> hook_fragments rest
      | None => if is_standard_contextual_user_text text then hook_fragments rest else None
      end
  | _ :: _ => None
  end.

Definition parse_visible_hook_prompt_message (content : list ContentItem)
  : option (list HookPromptFragment) :=
  match hook_fragments content with
  | None | Some [] => None
  | Some fragments => Some fragments
  end.

Definition from_message_content (content : list ContentItem) : option InterAgentCommunication :=
  match content with
  | [InputText text] | [OutputText text] => inter_agent_json text
  | _ => None
  end.
Definition is_inter_agent_instruction_content (content : list ContentItem) : bool :=
  match from_message_content content with Some _ => true | None => false end.

Definition is_user_turn_boundary (item : ResponseItem) : bool :=
  match item with
  | Message _ role content _ =>
      String.eqb role "user" && negb (is_contextual_user_message_content content) ||
      String.eqb role "assistant" && is_inter_agent_instruction_content content
  | _ => false
  end.

(** ** Turn items (event_mapping.rs)

    Of the items a message or a call is shown as, those that are read again. *)

Inductive UserInput := UserText (text : string) | UserImage (image_url : string).

Inductive TurnItem :=
| UserMessageTurn (content : list UserInput)
| HookPromptTurn (id : option string) (fragments : list HookPromptFragment)
| AgentMessageTurn (id : option string) (content : list string) (phase : option MessagePhase)
| ReasoningTurn (id : string) (summary_text raw_content : list string)
| WebSearchTurn (id query : string) (action : WebSearchAction)
| ImageGenerationTurn (id status : string) (revised_prompt : option string) (result : string).

Definition is_image_open_tag_text (text : string) : bool := String.eqb text "<image>".
Definition is_image_close_tag_text (text : string) : bool := String.eqb text "</image>".
Definition is_local_image_open_tag_text (text : string) : bool :=
  match strip_prefix "<image name=" text with Some rest => ends_with ">" rest | None => false end.

Definition is_input_image (item : option ContentItem) : bool :=
  match item with Some (InputImage _ _) => true | _ => false end.

(** The labels around an image are left out: [before] and [after] are the
    neighbours of the item. *)
Fixpoint user_inputs (before : option ContentItem) (message : list ContentItem)
  : list UserInput :=
  match message with
  | [] => []
  | item :: rest =>
      let inputs := user_inputs (Some item) rest in
      match item with
      | InputText text =>
          if (is_local_image_open_tag_text text || is_image_open_tag_text text) &&
             is_input_image (head rest) ||
             is_image_close_tag_text text && is_input_image before
          then inputs else UserText text :: inputs
      | InputImage image_url _ => UserImage image_url :: inputs
      | OutputText _ => inputs
      end
  end.

Definition parse_user_message (message : list ContentItem) : option (list UserInput) :=
  if is_contextual_user_message_content message then None else Some (user_inputs None message).

(** [UserMessageItem::message]. *)
Definition user_message_text (content : list UserInput) : string :=
  concat_str (map (λ c, match c with UserText text => text | UserImage _ => ""%string end)
                content).

Definition agent_texts (message : list ContentItem) : list string :=
  omap (λ item, match item with
                | InputText text | OutputText text => Some text
                | InputImage _ _ => None
                end) message.

Definition search_action_detail (query : option string) (queries : option (list string))
  : string :=
  let first := default ""%string (queries ≫= head) in
  let fallback :=
    if (1 <? length (default [] queries)) && negb (String.eqb first "")
    then first +:+ " ..." else first in
  match query with
  | Some q => if String.eqb q "" then fallback else q
  | None => fallback
  end.

Definition web_search_action_detail (action : WebSearchAction) : string :=
  match action with
  | WebSearch_ query queries => search_action_detail query queries
  | OpenPage url => default ""%string url
  | FindInPage (Some url) (Some pattern) => "'" +:+ pattern +:+ "' in " +:+ url
  | FindInPage None (Some pattern) => "'" +:+ pattern +:+ "'"
  | FindInPage (Some url) None => url
  | FindInPage None None => ""%string
  | WebSearchOther => ""%string
  end.

Definition reasoning_text (c : ReasoningItemContent) : string :=
  match c with ReasoningText text | ReasoningPlain text => text end.

Definition parse_turn_item (item : ResponseItem) : option TurnItem :=
  match item with
  | Message id role content phase =>
      if String.eqb role "user" then
        match parse_visible_hook_prompt_message content with
        | Some fragments => Some (HookPromptTurn id fragments)
        | None => UserMessageTurn <$> parse_user_message content
        end
      else if String.eqb role "assistant" then
        Some (AgentMessageTurn id (agent_texts content) phase)
      else None
  | Reasoning id summary content _ =>
      Some (ReasoningTurn id summary (map reasoning_text (default [] content)))
  | WebSearchCall id _ action =>
      Some (WebSearchTurn (default ""%string id)
              (match action with Some a => web_search_action_detail a | None => ""%string end)
              (default WebSearchOther action))
  | ImageGenerationCall id status revised_prompt result =>
      Some (ImageGenerationTurn id status revised_prompt result)
  | _ => None
  end.

Definition is_real_user_message_boundary (item : ResponseItem) : bool :=
  match parse_turn_item item with Some (UserMessageTurn _) => true | _ => false end.
End context.

(** ** Normalization (normalize.rs) *)

Inductive InputModality := ModalityText | ModalityImage.

#[global] Instance InputModality_eq_dec : EqDecision InputModality.
Proof. solve_decision. Defined.

Definition IMAGE_CONTENT_OMITTED_PLACEHOLDER : string :=
  "image content omitted because you do not support image input".

(** [items.iter().any] for an output of the given kind and identifier. *)
Definition is_function_output (call_id : string) (item : ResponseItem) : bool :=
  match item with FunctionCallOutput existing _ => String.eqb existing call_id | _ => false end.
Definition is_tool_search_output (call_id : string) (item : ResponseItem) : bool :=
  match item with
  | ToolSearchOutput (Some existing) _ _ _ => String.eqb existing call_id
  | _ => false
  end.
Definition is_custom_tool_output (call_id : string) (item : ResponseItem) : bool :=
  match item with CustomToolCallOutput existing _ _ => String.eqb existing call_id | _ => false end.

Definition aborted : FunctionCallOutputPayload := payload_from_text "aborted".

(** The output a call lacks, and whether its absence is an error. *)
Definition missing_output (items : list ResponseItem) (item : ResponseItem)
  : option (ResponseItem * bool) :=
  match item with
  | FunctionCall _ _ _ _ call_id =>
      if existsb (is_function_output call_id) items then None
      else Some (FunctionCallOutput call_id aborted, false)
  | ToolSearchCall _ (Some call_id) _ _ _ =>
      if existsb (is_tool_search_output call_id) items then None
      else Some (ToolSearchOutput (Some call_id) "completed" "client" [], false)
  | CustomToolCall _ _ call_id _ _ =>
      if existsb (is_custom_tool_output call_id) items then None
      else Some (CustomToolCallOutput call_id None aborted, true)
  | LocalShellCall _ (Some call_id) _ _ =>
      if existsb (is_function_output call_id) items then None
      else Some (FunctionCallOutput call_id aborted, true)
  | _ => None
  end.

(** [missing_outputs_to_insert]: positions and outputs, in order. *)
Fixpoint missing_outputs (items : list ResponseItem) (idx : nat) (rest : list ResponseItem)
  : list (nat * (ResponseItem * bool)) :=
  match rest with
  | [] => []
  | item :: rest' =>
      match missing_output items item with
      | Some output => (idx, output) :: missing_outputs items (S idx) rest'
      | None => missing_outputs items (S idx) rest'
      end
  end.

(** [Vec::insert] within the bounds. *)
Definition insert_at {A : Type} (idx : nat) (x : A) (l : list A) : list A :=
  take idx l ++ x :: drop idx l.

Section normalize.
(** [cfg!(debug_assertions)]: in a debug build [error_or_panic] panics. *)
Context (debug_assertions : bool).

(** [None] is a panic. *)
Definition ensure_call_outputs_present (items : list ResponseItem)
  : option (list ResponseItem) :=
  let missing_outputs_to_insert := missing_outputs items 0 items in
  if debug_assertions && existsb (λ m, m.2.2) missing_outputs_to_insert then None else
  Some (foldl (λ acc m, insert_at (m.1 + 1) m.2.1 acc) items
          (reverse missing_outputs_to_insert)).

Definition function_call_ids (items : list ResponseItem) : list string :=
  omap (λ i, match i with FunctionCall _ _ _ _ call_id => Some call_id | _ => None end) items.
Definition tool_search_call_ids (items : list ResponseItem) : list string :=
  omap (λ i, match i with ToolSearchCall _ call_id _ _ _ => call_id | _ => None end) items.
Definition local_shell_call_ids (items : list ResponseItem) : list string :=
  omap (λ i, match i with LocalShellCall _ call_id _ _ => call_id | _ => None end) items.
Definition custom_tool_call_ids (items : list ResponseItem) : list string :=
  omap (λ i, match i with CustomToolCall _ _ call_id _ _ => Some call_id | _ => None end) items.

(** What [retain] keeps. *)
Definition has_match (items : list ResponseItem) (item : ResponseItem) : bool :=
  match item with
  | FunctionCallOutput call_id _ =>
      bool_decide (call_id ∈ function_call_ids items) ||
      bool_decide (call_id ∈ local_shell_call_ids items)
  | CustomToolCallOutput call_id _ _ => bool_decide (call_id ∈ custom_tool_call_ids items)
  | ToolSearchOutput call_id _ execution _ =>
      if String.eqb execution "server" then true else
      match call_id with
      | Some call_id => bool_decide (call_id ∈ tool_search_call_ids items)
      | None => true
      end
  | _ => true
  end.

Definition remove_orphan_outputs (items : list ResponseItem) : option (list ResponseItem) :=
  if debug_assertions && negb (forallb (has_match items) items) then None
  else Some (List.filter (has_match items) items).
End normalize.

Fixpoint remove_first_matching (predicate : ResponseItem → bool) (items : list ResponseItem)
  : list ResponseItem :=
  match items with
  | [] => []
  | item :: rest => if predicate item then rest else item :: remove_first_matching predicate rest
  end.

Definition is_function_call (call_id : string) (item : ResponseItem) : bool :=
  match item with FunctionCall _ _ _ _ existing => String.eqb existing call_id | _ => false end.
Definition is_local_shell_call (call_id : string) (item : ResponseItem) : bool :=
  match item with
  | LocalShellCall _ (Some existing) _ _ => String.eqb existing call_id
  | _ => false
  end.
Definition is_tool_search_call (call_id : string) (item : ResponseItem) : bool :=
  match item with
  | ToolSearchCall _ (Some existing) _ _ _ => String.eqb existing call_id
  | _ => false
  end.
Definition is_custom_tool_call (call_id : string) (item : ResponseItem) : bool :=
  match item with CustomToolCall _ _ existing _ _ => String.eqb existing call_id | _ => false end.

Definition remove_corresponding_for (items : list ResponseItem) (item : ResponseItem)
  : list ResponseItem :=
  match item with
  | FunctionCall _ _ _ _ call_id | LocalShellCall _ (Some call_id) _ _ =>
      remove_first_matching (is_function_output call_id) items
  | FunctionCallOutput call_id _ =>
      if existsb (is_function_call call_id) items
      then remove_first_matching (is_function_call call_id) items
      else remove_first_matching (is_local_shell_call call_id) items
  | ToolSearchCall _ (Some call_id) _ _ _ =>
      remove_first_matching (is_tool_search_output call_id) items
  | ToolSearchOutput (Some call_id) _ _ _ =>
      remove_first_matching (is_tool_search_call call_id) items
  | CustomToolCall _ _ call_id _ _ => remove_first_matching (is_custom_tool_output call_id) items
  | CustomToolCallOutput call_id _ _ => remove_first_matching (is_custom_tool_call call_id) items
  | _ => items
  end.

Definition strip_content_image (content_item : ContentItem) : ContentItem :=
  match content_item with
  | InputImage _ _ => InputText IMAGE_CONTENT_OMITTED_PLACEHOLDER
  | _ => content_item
  end.
Definition strip_output_image (placeholder : string) (item : FunctionCallOutputContentItem)
  : FunctionCallOutputContentItem :=
  match item with OutInputImage _ _ => OutInputText placeholder | OutInputText _ => item end.

Definition map_output_items
    (f : FunctionCallOutputContentItem → FunctionCallOutputContentItem)
    (output : FunctionCallOutputPayload) : FunctionCallOutputPayload :=
  match fo_body output with
  | BodyText _ => output
  | BodyContentItems items =>
      {| fo_body := BodyContentItems (map f items); fo_success := fo_success output |}
  end.

Definition strip_item_images (item : ResponseItem) : ResponseItem :=
  let strip := map_output_items (strip_output_image IMAGE_CONTENT_OMITTED_PLACEHOLDER) in
  match item with
  | Message id role content phase => Message id role (map strip_content_image content) phase
  | FunctionCallOutput call_id output => FunctionCallOutput call_id (strip output)
  | CustomToolCallOutput call_id name output => CustomToolCallOutput call_id name (strip output)
  | ImageGenerationCall id status revised_prompt _ =>
      ImageGenerationCall id status revised_prompt ""
  | _ => item
  end.

Definition strip_images_when_unsupported (input_modalities : list InputModality)
    (items : list ResponseItem) : list ResponseItem :=
  if bool_decide (ModalityImage ∈ input_modalities) then items else map strip_item_images items.

(** ** Token counts *)

Definition i64_max : Z := 9223372036854775807.
Definition i64_min : Z := -9223372036854775808.
Definition i64_clamp (z : Z) : Z := Z.max i64_min (Z.min i64_max z).
Definition i64_sat_add (a b : Z) : Z := i64_clamp (a + b).
Definition i64_sat_sub (a b : Z) : Z := i64_clamp (a - b).
Definition i64_wrap (z : Z) : Z := (z - i64_min) mod 18446744073709551616 + i64_min.
(** [i64::try_from(n).unwrap_or(i64::MAX)]. *)
Definition i64_of (n : N) : Z := Z.min i64_max (Z.of_N n).

Record TokenUsage := {
  input_tokens : Z;
  cached_input_tokens : Z;
  output_tokens : Z;
  reasoning_output_tokens : Z;
  total_tokens : Z
}.
Definition TokenUsage_default : TokenUsage := {|
  input_tokens := 0; cached_input_tokens := 0; output_tokens := 0;
  reasoning_output_tokens := 0; total_tokens := 0 |}.
Definition only_total (n : Z) : TokenUsage := {|
  input_tokens := 0; cached_input_tokens := 0; output_tokens := 0;
  reasoning_output_tokens := 0; total_tokens := n |}.

Record TokenUsageInfo := {
  total_token_usage : TokenUsage;
  last_token_usage : TokenUsage;
  model_context_window : option Z
}.

(** [TokenUsage::add_assign] of a release build: sums wrap around. *)
Definition add_usage (a b : TokenUsage) : TokenUsage := {|
  input_tokens := i64_wrap (input_tokens a + input_tokens b);
  cached_input_tokens := i64_wrap (cached_input_tokens a + cached_input_tokens b);
  output_tokens := i64_wrap (output_tokens a + output_tokens b);
  reasoning_output_tokens := i64_wrap (reasoning_output_tokens a + reasoning_output_tokens b);
  total_tokens := i64_wrap (total_tokens a + total_tokens b) |}.

Definition append_last_usage (info : TokenUsageInfo) (last : TokenUsage) : TokenUsageInfo := {|
  total_token_usage := add_usage (total_token_usage info) last;
  last_token_usage := last;
  model_context_window := model_context_window info |}.

Definition set_context_window (window : option Z) (info : TokenUsageInfo) : TokenUsageInfo := {|
  total_token_usage := total_token_usage info; last_token_usage := last_token_usage info;
  model_context_window := match window with Some w => Some w | None => model_context_window info end |}.

Definition new_or_append (info : option TokenUsageInfo) (last : option TokenUsage)
    (window : option Z) : option TokenUsageInfo :=
  match info, last with
  | None, None => None
  | _, _ =>
      let start := default {| total_token_usage := TokenUsage_default;
                              last_token_usage := TokenUsage_default;
                              model_context_window := window |} info in
      Some (set_context_window window
              match last with Some l => append_last_usage start l | None => start end)
  end.

Definition fill_to_context_window (info : TokenUsageInfo) (context_window : Z)
  : TokenUsageInfo :=
  let previous_total := total_tokens (total_token_usage info) in
  let delta := Z.max (i64_wrap (context_window - previous_total)) 0 in
  {| total_token_usage := only_total context_window;
     last_token_usage := only_total delta;
     model_context_window := Some context_window |}.

Definition full_context_window (context_window : Z) : TokenUsageInfo :=
  fill_to_context_window
    {| total_token_usage := TokenUsage_default; last_token_usage := TokenUsage_default;
       model_context_window := Some context_window |} context_window.

Section estimate.
Context `{HistoryEnv}.

Definition RESIZED_IMAGE_BYTES_ESTIMATE : Z := 7373.
Definition ORIGINAL_IMAGE_PATCH_SIZE : N := 32.
Definition ORIGINAL_IMAGE_MAX_PATCHES : N := 10000.

Definition estimate_reasoning_length (encoded_len : N) : N :=
  (usize_sat_mul encoded_len 3 / 4 - 650)%N.

(** The payload of a base64 image in a data URL. *)
Definition parse_base64_image_data_url (url : string) : option string :=
  if negb (is_some_eq_ignore_case (get_to 5 url) "data:") then None else
  '(metadata, payload) ← split_once "," url;
  let parts := split_char ";" (of_bytes (drop 5 (bytes metadata))) in
  if negb (is_some_eq_ignore_case (get_to 6 (default ""%string (head parts))) "image/") then None
  else if negb (existsb (λ part, eq_ignore_case part "base64") (tail parts)) then None
  else Some payload.

(** Without the cache, which remembers results of this function. *)
Definition estimate_original_image_bytes (image_url : string) : option Z :=
  payload ← parse_base64_image_data_url image_url;
  '(width, height) ← image_dimensions payload;
  let patches n := ((n + (ORIGINAL_IMAGE_PATCH_SIZE - 1)) / ORIGINAL_IMAGE_PATCH_SIZE)%N in
  let patch_count := N.min (patches width * patches height) ORIGINAL_IMAGE_MAX_PATCHES in
  Some (i64_of (approx_bytes_for_tokens patch_count)).

(** [accumulate]: the payload bytes and their replacement. *)
Definition accumulate_image (acc : Z * Z) (image : string * option ImageDetail) : Z * Z :=
  match parse_base64_image_data_url image.1 with
  | None => acc
  | Some payload =>
      (i64_sat_add acc.1 (i64_of (len payload)),
       i64_sat_add acc.2
         match image.2 with
         | Some DetailOriginal =>
             default RESIZED_IMAGE_BYTES_ESTIMATE (estimate_original_image_bytes image.1)
         | _ => RESIZED_IMAGE_BYTES_ESTIMATE
         end)
  end.

Definition item_images (item : ResponseItem) : list (string * option ImageDetail) :=
  match item with
  | Message _ _ content _ =>
      omap (λ c, match c with InputImage url detail => Some (url, detail) | _ => None end) content
  | FunctionCallOutput _ output | CustomToolCallOutput _ _ output =>
      match fo_body output with
      | BodyContentItems items =>
          omap (λ c, match c with OutInputImage url detail => Some (url, detail) | _ => None end)
            items
      | BodyText _ => []
      end
  | _ => []
  end.

Definition image_data_url_estimate_adjustment (item : ResponseItem) : Z * Z :=
  foldl accumulate_image (0, 0)%Z (item_images item).

Definition estimate_response_item_model_visible_bytes (item : ResponseItem) : Z :=
  match item with
  | Reasoning _ _ _ (Some content) | Compaction content | ContextCompaction (Some content) =>
      i64_of (estimate_reasoning_length (len content))
  | _ =>
      let raw := match item_json_length item with Some n => i64_of n | None => 0%Z end in
      let '(payload_bytes, replacement_bytes) := image_data_url_estimate_adjustment item in
      if (payload_bytes =? 0)%Z || (replacement_bytes =? 0)%Z then raw
      else i64_sat_add (i64_sat_sub raw payload_bytes) replacement_bytes
  end.

Definition approx_tokens_from_byte_count_i64 (n : Z) : Z :=
  if (n <=? 0)%Z then 0%Z else i64_of (approx_tokens_from_byte_count (Z.to_N n)).

Definition estimate_item_token_count (item : ResponseItem) : Z :=
  approx_tokens_from_byte_count_i64 (estimate_response_item_model_visible_bytes item).

Definition sum_estimates (f : ResponseItem → Z) (items : list ResponseItem) : Z :=
  foldl i64_sat_add 0%Z (map f items).
End estimate.

(** ** The context manager (history.rs) *)

(** The settings a turn was run with; the fields that history only passes on
    are one value. *)
Record TurnContextItem := {
  tci_turn_id : option string;
  tci_model : string;
  tci_realtime_active : option bool;
  tci_settings : string
}.

Record ContextManager := {
  cm_items : list ResponseItem;
  history_version : N;
  token_info : option TokenUsageInfo;
  reference_context_item : option TurnContextItem
}.

Definition ContextManager_new : ContextManager := {|
  cm_items := []; history_version := 0; token_info := new_or_append None None None;
  reference_context_item := None |}.

Definition set_items (items : list ResponseItem) (self : ContextManager) : ContextManager := {|
  cm_items := items; history_version := history_version self; token_info := token_info self;
  reference_context_item := reference_context_item self |}.
Definition bump_version (self : ContextManager) : ContextManager := {|
  cm_items := cm_items self; history_version := u64_sat_add (history_version self) 1;
  token_info := token_info self; reference_context_item := reference_context_item self |}.
Definition set_token_info (info : option TokenUsageInfo) (self : ContextManager)
  : ContextManager := {|
  cm_items := cm_items self; history_version := history_version self; token_info := info;
  reference_context_item := reference_context_item self |}.
Definition set_reference_context_item (item : option TurnContextItem) (self : ContextManager)
  : ContextManager := {|
  cm_items := cm_items self; history_version := history_version self;
  token_info := token_info self; reference_context_item := item |}.

Definition set_token_usage_full (context_window : Z) (self : ContextManager) : ContextManager :=
  set_token_info
    (Some match token_info self with
          | Some info => fill_to_context_window info context_window
          | None => full_context_window context_window
          end) self.

Definition update_token_info (usage : TokenUsage) (window : option Z) (self : ContextManager)
  : ContextManager :=
  set_token_info (new_or_append (token_info self) (Some usage) window) self.

Definition replace (items : list ResponseItem) (self : ContextManager) : ContextManager :=
  bump_version (set_items items self).

Definition is_api_message (message : ResponseItem) : bool :=
  match message with
  | Message _ role _ _ => negb (String.eqb role "system")
  | CompactionTrigger | Other => false
  | _ => true
  end.

Definition truncate_function_output_payload (output : FunctionCallOutputPayload)
    (p : TruncationPolicy) : FunctionCallOutputPayload := {|
  fo_body :=
    match fo_body output with
    | BodyText content => BodyText (truncate_text content p)
    | BodyContentItems items =>
        BodyContentItems (truncate_function_output_items_with_policy items p)
    end;
  fo_success := fo_success output |}.

Definition process_item (item : ResponseItem) (p : TruncationPolicy) : ResponseItem :=
  let policy_with_serialization_budget := scale_policy p in
  match item with
  | FunctionCallOutput call_id output =>
      FunctionCallOutput call_id
        (truncate_function_output_payload output policy_with_serialization_budget)
  | CustomToolCallOutput call_id name output =>
      CustomToolCallOutput call_id name
        (truncate_function_output_payload output policy_with_serialization_budget)
  | _ => item
  end.

Definition record_items (items : list ResponseItem) (p : TruncationPolicy)
    (self : ContextManager) : ContextManager :=
  set_items (cm_items self ++ map (λ item, process_item item p) (List.filter is_api_message items))
    self.

(** [normalize_history] and [for_prompt]; [None] is a panic. *)
Definition for_prompt (debug_assertions : bool) (input_modalities : list InputModality)
    (self : ContextManager) : option (list ResponseItem) :=
  items ← ensure_call_outputs_present debug_assertions (cm_items self);
  items ← remove_orphan_outputs debug_assertions items;
  Some (strip_images_when_unsupported input_modalities items).

Definition remove_first_item (self : ContextManager) : ContextManager :=
  match cm_items self with
  | [] => self
  | removed :: items => set_items (remove_corresponding_for items removed) self
  end.

Definition remove_last_item (self : ContextManager) : bool * ContextManager :=
  match last (cm_items self) with
  | None => (false, self)
  | Some removed =>
      (true, replace (remove_corresponding_for (removelast (cm_items self)) removed) self)
  end.

(** [Iterator::rposition]. *)
Fixpoint rposition {A : Type} (f : A → bool) (l : list A) : option nat :=
  match l with
  | [] => None
  | x :: l' =>
      match rposition f l' with
      | Some i => Some (S i)
      | None => if f x then Some 0 else None
      end
  end.

Section history.
Context `{HistoryEnv}.

Definition replace_last_turn_images (placeholder : string) (self : ContextManager)
  : bool * ContextManager :=
  match rposition (λ item, match item with
                           | FunctionCallOutput _ _ => true
                           | _ => is_user_turn_boundary item
                           end) (cm_items self) with
  | None => (false, self)
  | Some index =>
      match cm_items self !! index with
      | Some (FunctionCallOutput call_id output) =>
          match fo_body output with
          | BodyText _ => (false, self)
          | BodyContentItems items =>
              if existsb is_image items then
                (true,
                 replace (<[index := FunctionCallOutput call_id
                             (map_output_items (strip_output_image placeholder) output)]>
                            (cm_items self)) self)
              else (false, self)
          end
      | _ => (false, self)
      end
  end.

(** The indices of the items that start a turn. *)
Definition user_message_positions (items : list ResponseItem) : list nat :=
  omap (λ p, if is_user_turn_boundary p.2 then Some p.1 else None) (imap pair items).

(** [trim_pre_turn_context_updates]: the new cut, and the reference context. *)
Fixpoint trim_pre_turn_context_updates (snapshot : list ResponseItem)
    (first_instruction_turn_idx cut_idx : nat) (reference : option TurnContextItem)
  : nat * option TurnContextItem :=
  match cut_idx with
  | O => (0, reference)
  | S below =>
      if first_instruction_turn_idx <? cut_idx then
        match snapshot !! below with
        | Some (Message _ role content _) =>
            if String.eqb role "developer" && is_contextual_dev_message_content content then
              trim_pre_turn_context_updates snapshot first_instruction_turn_idx below
                (if has_non_contextual_dev_message_content content then None else reference)
            else if String.eqb role "user" && is_contextual_user_message_content content then
              trim_pre_turn_context_updates snapshot first_instruction_turn_idx below reference
            else (cut_idx, reference)
        | _ => (cut_idx, reference)
        end
      else (cut_idx, reference)
  end.

Definition drop_last_n_user_turns (num_turns : N) (self : ContextManager) : ContextManager :=
  if (num_turns =? 0)%N then self else
  let snapshot := cm_items self in
  match user_message_positions snapshot with
  | [] => replace snapshot self
  | (first_instruction_turn_idx :: _) as user_positions =>
      let n_from_end := N.to_nat num_turns in
      let cut_idx :=
        if length user_positions <=? n_from_end then first_instruction_turn_idx
        else nth (length user_positions - n_from_end) user_positions 0 in
      let '(cut_idx, reference) :=
        trim_pre_turn_context_updates snapshot first_instruction_turn_idx cut_idx
          (reference_context_item self) in
      replace (take cut_idx snapshot) (set_reference_context_item reference self)
  end.

Definition is_model_generated_item (item : ResponseItem) : bool :=
  match item with
  | Message _ role _ _ => String.eqb role "assistant"
  | Reasoning _ _ _ _ | FunctionCall _ _ _ _ _ | ToolSearchCall _ _ _ _ _ | WebSearchCall _ _ _
  | ImageGenerationCall _ _ _ _ | CustomToolCall _ _ _ _ _ | LocalShellCall _ _ _ _
  | Compaction _ | ContextCompaction _ => true
  | CompactionTrigger | FunctionCallOutput _ _ | ToolSearchOutput _ _ _ _
  | CustomToolCallOutput _ _ _ | Other => false
  end.

Definition is_codex_generated_item (item : ResponseItem) : bool :=
  match item with
  | FunctionCallOutput _ _ | ToolSearchOutput _ _ _ _ | CustomToolCallOutput _ _ _ => true
  | Message _ role _ _ => String.eqb role "developer"
  | _ => false
  end.

Definition estimate_token_count_with_base_instructions (base_instructions : string)
    (self : ContextManager) : option Z :=
  Some (i64_sat_add (i64_of (approx_token_count base_instructions))
          (sum_estimates estimate_item_token_count (cm_items self))).

Definition has_encrypted_reasoning (item : ResponseItem) : bool :=
  match item with Reasoning _ _ _ (Some _) => true | _ => false end.

Definition get_non_last_reasoning_items_tokens (self : ContextManager) : Z :=
  match rposition is_user_turn_boundary (cm_items self) with
  | None => 0%Z
  | Some last_user_index =>
      sum_estimates estimate_item_token_count
        (List.filter has_encrypted_reasoning (take last_user_index (cm_items self)))
  end.

Definition items_after_last_model_generated_item (self : ContextManager)
  : list ResponseItem :=
  let start := match rposition is_model_generated_item (cm_items self) with
               | Some index => S index
               | None => length (cm_items self)
               end in
  drop start (cm_items self).

Definition get_total_token_usage (server_reasoning_included : bool) (self : ContextManager)
  : Z :=
  let last_tokens :=
    match token_info self with Some info => total_tokens (last_token_usage info) | None => 0%Z end in
  let after :=
    sum_estimates estimate_item_token_count (items_after_last_model_generated_item self) in
  if server_reasoning_included then i64_sat_add last_tokens after
  else i64_sat_add (i64_sat_add last_tokens (get_non_last_reasoning_items_tokens self)) after.

Record TotalTokenUsageBreakdown := {
  last_api_response_total_tokens : Z;
  all_history_items_model_visible_bytes : Z;
  estimated_tokens_of_items_added_since_last_successful_api_response : Z;
  estimated_bytes_of_items_added_since_last_successful_api_response : Z
}.

Definition get_total_token_usage_breakdown (self : ContextManager)
  : TotalTokenUsageBreakdown :=
  let after := items_after_last_model_generated_item self in
  {| last_api_response_total_tokens :=
       match token_info self with
       | Some info => total_tokens (last_token_usage info)
       | None => 0%Z
       end;
     all_history_items_model_visible_bytes :=
       sum_estimates estimate_response_item_model_visible_bytes (cm_items self);
     estimated_tokens_of_items_added_since_last_successful_api_response :=
       sum_estimates estimate_item_token_count after;
     estimated_bytes_of_items_added_since_last_successful_api_response :=
       sum_estimates estimate_response_item_model_visible_bytes after |}.
End history.
