(* ===== verification/Rollout.v ===== *)
(** * Replaying the record of a conversation

    [thread_rollout_truncation.rs], [compact.rs] (without the call of the
    model) and [session/rollout_reconstruction.rs] of [codex-rs/core]: the
    persisted items of a thread, where its turns start, the history a
    compaction leaves, and the history rebuilt when a thread is resumed. *)

From S2P Require Import Prelude RustStr FsModel Truncate History.

(** ** Rollout items (protocol)

    Of the events, those that delimit turns; a field that is not read here is
    left out. *)

Inductive EventMsg :=
| ThreadRolledBack (num_turns : N)
| TurnStarted (turn_id : string)
| TurnComplete (turn_id : string)
| TurnAborted (turn_id : option string)
| UserMessageEvent
| OtherEvent.

Record CompactedItem := {
  ci_message : string;
  replacement_history : option (list ResponseItem)
}.

Inductive RolloutItem :=
| SessionMeta
| RolloutResponseItem (item : ResponseItem)
| Compacted (item : CompactedItem)
| TurnContext (item : TurnContextItem)
| RolloutEventMsg (event : EventMsg).

(** [InitialHistory]: what a thread starts from. *)
Inductive InitialHistory :=
| HistoryNew
| HistoryCleared
| HistoryResumed (history : list RolloutItem)
| HistoryForked (items : list RolloutItem).

Definition scan_rollout_items (h : InitialHistory) (predicate : RolloutItem → bool) : bool :=
  match h with
  | HistoryNew | HistoryCleared => false
  | HistoryResumed history => existsb predicate history
  | HistoryForked items => existsb predicate items
  end.

Section rollout.
Context `{HistoryEnv}.

(** ** Turn boundaries (thread_rollout_truncation.rs) *)

Definition rollout_item_is_user_turn_boundary (item : RolloutItem) : bool :=
  match item with RolloutResponseItem item => is_user_turn_boundary item | _ => false end.

Definition initial_history_has_prior_user_turns (h : InitialHistory) : bool :=
  scan_rollout_items h rollout_item_is_user_turn_boundary.

(** [Vec::truncate] by [n] from the end. *)
Definition drop_last {A : Type} (n : N) (l : list A) : list A :=
  take (length l - N.to_nat n) l.

Definition user_position_step (user_positions : list nat) (item : nat * RolloutItem)
  : list nat :=
  match item.2 with
  | RolloutResponseItem (Message _ _ _ _ as message) =>
      if is_real_user_message_boundary message then user_positions ++ [item.1] else user_positions
  | RolloutEventMsg (ThreadRolledBack num_turns) => drop_last num_turns user_positions
  | _ => user_positions
  end.

Definition user_message_positions_in_rollout (items : list RolloutItem) : list nat :=
  foldl user_position_step [] (imap pair items).

Definition is_trigger_turn_boundary (item : ResponseItem) : bool :=
  match item with
  | Message _ role content _ =>
      String.eqb role "assistant" &&
      match from_message_content content with Some c => trigger_turn c | None => false end
  | _ => false
  end.

(** [rollback_turn_positions] and [fork_turn_positions]. *)
Definition fork_position_step (acc : list nat * list nat) (item : nat * RolloutItem)
  : list nat * list nat :=
  let '(rollback_turn_positions, fork_turn_positions) := acc in
  match item.2 with
  | RolloutResponseItem r =>
      (if is_user_turn_boundary r then rollback_turn_positions ++ [item.1]
       else rollback_turn_positions,
       if is_real_user_message_boundary r || is_trigger_turn_boundary r
       then fork_turn_positions ++ [item.1] else fork_turn_positions)
  | RolloutEventMsg (ThreadRolledBack num_turns) =>
      if (num_turns =? 0)%N then acc else
      let rollback_start :=
        if N.to_nat num_turns <=? length rollback_turn_positions
        then rollback_turn_positions !! (length rollback_turn_positions - N.to_nat num_turns)
        else head rollback_turn_positions in
      match rollback_start with
      | None => acc
      | Some rollback_start_idx =>
          (drop_last num_turns rollback_turn_positions,
           List.filter (λ position, position <? rollback_start_idx) fork_turn_positions)
      end
  | _ => acc
  end.

Definition fork_turn_positions_in_rollout (items : list RolloutItem) : list nat :=
  (foldl fork_position_step ([], []) (imap pair items)).2.

Definition truncate_rollout_before_nth_user_message_from_start (items : list RolloutItem)
    (n_from_start : N) : list RolloutItem :=
  if (n_from_start =? u64_max)%N then items else
  match user_message_positions_in_rollout items !! N.to_nat n_from_start with
  | None => items
  | Some cut_idx => take cut_idx items
  end.

Definition truncate_rollout_to_last_n_fork_turns (items : list RolloutItem) (n_from_end : N)
  : list RolloutItem :=
  if (n_from_end =? 0)%N then [] else
  let fork_turn_positions := fork_turn_positions_in_rollout items in
  if length fork_turn_positions <=? N.to_nat n_from_end then items else
  drop (nth (length fork_turn_positions - N.to_nat n_from_end) fork_turn_positions 0) items.

(** ** Compaction (compact.rs) *)

Definition SUMMARY_PREFIX : string :=
  "Another language model started to solve this problem and produced a summary of its thinking process. You also have access to the state of the tools that were used by that language model. Use this to build on the work that has already been done and avoid duplicating work. Here is the summary produced by the other language model, use the information in this summary to assist with your own analysis:".

Definition is_summary_message (message : string) : bool :=
  starts_with (SUMMARY_PREFIX +:+ nl) message.

Definition user_message_of (item : ResponseItem) : option string :=
  match parse_turn_item item with
  | Some (UserMessageTurn content) => Some (user_message_text content)
  | _ => None
  end.

Definition collect_user_messages (items : list ResponseItem) : list string :=
  List.filter (negb ∘ is_summary_message) (omap user_message_of items).

(** The search of [insert_initial_context_before_last_real_user_or_summary],
    newest item first: the last user message and the last that is no summary. *)
Fixpoint last_user_indices (newest_first : list (nat * ResponseItem)) (any : option nat)
  : option nat * option nat :=
  match newest_first with
  | [] => (any, None)
  | (i, item) :: rest =>
      match user_message_of item with
      | None => last_user_indices rest any
      | Some message =>
          let any := Some (default i any) in
          if is_summary_message message then last_user_indices rest any else (any, Some i)
      end
  end.

Definition is_compaction (item : ResponseItem) : bool :=
  match item with Compaction _ | ContextCompaction _ => true | _ => false end.

Definition insert_initial_context_before_last_real_user_or_summary
    (compacted_history initial_context : list ResponseItem) : list ResponseItem :=
  let '(last_user_or_summary_index, last_real_user_index) :=
    last_user_indices (reverse (imap pair compacted_history)) None in
  let last_compaction_index := rposition is_compaction compacted_history in
  match last_real_user_index, last_user_or_summary_index, last_compaction_index with
  | Some i, _, _ | None, Some i, _ | None, None, Some i =>
      take i compacted_history ++ initial_context ++ drop i compacted_history
  | None, None, None => compacted_history ++ initial_context
  end.

Definition COMPACT_USER_MESSAGE_MAX_TOKENS : N := 20000.

(** The messages kept, newest first, within the budget. *)
Fixpoint select_messages (remaining : N) (newest_first : list string) : list string :=
  match newest_first with
  | [] => []
  | message :: rest =>
      if (remaining =? 0)%N then [] else
      let tokens := approx_token_count message in
      if (tokens <=? remaining)%N then message :: select_messages (remaining - tokens) rest
      else [truncate_text message (Tokens remaining)]
  end.

Definition user_text_message (text : string) : ResponseItem :=
  Message None "user" [InputText text] None.

Definition build_compacted_history_with_limit (history : list ResponseItem)
    (user_messages : list string) (summary_text : string) (max_tokens : N)
  : list ResponseItem :=
  history ++
  map user_text_message (reverse (select_messages max_tokens (reverse user_messages))) ++
  [user_text_message (if String.eqb summary_text "" then "(no summary available)"
                      else summary_text)].

Definition build_compacted_history (initial_context : list ResponseItem)
    (user_messages : list string) (summary_text : string) : list ResponseItem :=
  build_compacted_history_with_limit initial_context user_messages summary_text
    COMPACT_USER_MESSAGE_MAX_TOKENS.

(** ** Reconstruction (session/rollout_reconstruction.rs) *)

Inductive TurnReferenceContextItem :=
| NeverSet
| Cleared
| Latest (item : TurnContextItem).

Record PreviousTurnSettings := { pts_model : string; pts_realtime_active : option bool }.

Record ActiveReplaySegment := {
  seg_turn_id : option string;
  counts_as_user_turn : bool;
  seg_previous_turn_settings : option PreviousTurnSettings;
  seg_reference_context_item : TurnReferenceContextItem;
  seg_base_replacement_history : option (list ResponseItem)
}.

Definition segment_default : ActiveReplaySegment := {|
  seg_turn_id := None; counts_as_user_turn := false; seg_previous_turn_settings := None;
  seg_reference_context_item := NeverSet; seg_base_replacement_history := None |}.

Definition turn_ids_are_compatible (active_turn_id item_turn_id : option string) : bool :=
  match active_turn_id, item_turn_id with
  | Some a, Some b => String.eqb a b
  | _, _ => true
  end.

(** The variables of the reverse scan. *)
Record ReverseScan := {
  base_replacement_history : option (list ResponseItem);
  previous_turn_settings : option PreviousTurnSettings;
  scan_reference_context_item : TurnReferenceContextItem;
  pending_rollback_turns : N;
  rollout_suffix : list RolloutItem;
  active_segment : option ActiveReplaySegment
}.

Definition scan_start (rollout_items : list RolloutItem) : ReverseScan := {|
  base_replacement_history := None; previous_turn_settings := None;
  scan_reference_context_item := NeverSet; pending_rollback_turns := 0;
  rollout_suffix := rollout_items; active_segment := None |}.

Definition set_segment (segment : option ActiveReplaySegment) (st : ReverseScan) : ReverseScan := {|
  base_replacement_history := base_replacement_history st;
  previous_turn_settings := previous_turn_settings st;
  scan_reference_context_item := scan_reference_context_item st;
  pending_rollback_turns := pending_rollback_turns st; rollout_suffix := rollout_suffix st;
  active_segment := segment |}.
Definition set_pending_rollback (n : N) (st : ReverseScan) : ReverseScan := {|
  base_replacement_history := base_replacement_history st;
  previous_turn_settings := previous_turn_settings st;
  scan_reference_context_item := scan_reference_context_item st;
  pending_rollback_turns := n; rollout_suffix := rollout_suffix st;
  active_segment := active_segment st |}.
Definition set_suffix (suffix : list RolloutItem) (st : ReverseScan) : ReverseScan := {|
  base_replacement_history := base_replacement_history st;
  previous_turn_settings := previous_turn_settings st;
  scan_reference_context_item := scan_reference_context_item st;
  pending_rollback_turns := pending_rollback_turns st; rollout_suffix := suffix;
  active_segment := active_segment st |}.

Definition is_never_set (r : TurnReferenceContextItem) : bool :=
  match r with NeverSet => true | _ => false end.
Definition is_cleared (r : TurnReferenceContextItem) : bool :=
  match r with Cleared => true | _ => false end.

Definition finalize_active_segment (segment : ActiveReplaySegment) (st : ReverseScan)
  : ReverseScan :=
  if (0 <? pending_rollback_turns st)%N then
    if counts_as_user_turn segment then set_pending_rollback (pending_rollback_turns st - 1) st else st
  else {|
    base_replacement_history :=
      match base_replacement_history st with
      | Some base => Some base
      | None => seg_base_replacement_history segment
      end;
    previous_turn_settings :=
      match previous_turn_settings st with
      | Some settings => Some settings
      | None => if counts_as_user_turn segment then seg_previous_turn_settings segment else None
      end;
    scan_reference_context_item :=
      if is_never_set (scan_reference_context_item st) &&
         (counts_as_user_turn segment || is_cleared (seg_reference_context_item segment))
      then seg_reference_context_item segment else scan_reference_context_item st;
    pending_rollback_turns := pending_rollback_turns st;
    rollout_suffix := rollout_suffix st;
    active_segment := active_segment st |}.

(** A surviving part of the segment being collected. *)
Definition with_turn_id (id : option string) (s : ActiveReplaySegment) : ActiveReplaySegment := {|
  seg_turn_id := match seg_turn_id s with Some t => Some t | None => id end;
  counts_as_user_turn := counts_as_user_turn s;
  seg_previous_turn_settings := seg_previous_turn_settings s;
  seg_reference_context_item := seg_reference_context_item s;
  seg_base_replacement_history := seg_base_replacement_history s |}.
Definition or_user_turn (b : bool) (s : ActiveReplaySegment) : ActiveReplaySegment := {|
  seg_turn_id := seg_turn_id s; counts_as_user_turn := counts_as_user_turn s || b;
  seg_previous_turn_settings := seg_previous_turn_settings s;
  seg_reference_context_item := seg_reference_context_item s;
  seg_base_replacement_history := seg_base_replacement_history s |}.
Definition or_reference (r : TurnReferenceContextItem) (s : ActiveReplaySegment)
  : ActiveReplaySegment := {|
  seg_turn_id := seg_turn_id s; counts_as_user_turn := counts_as_user_turn s;
  seg_previous_turn_settings := seg_previous_turn_settings s;
  seg_reference_context_item :=
    if is_never_set (seg_reference_context_item s) then r else seg_reference_context_item s;
  seg_base_replacement_history := seg_base_replacement_history s |}.
Definition with_settings (settings : PreviousTurnSettings) (s : ActiveReplaySegment)
  : ActiveReplaySegment := {|
  seg_turn_id := seg_turn_id s; counts_as_user_turn := counts_as_user_turn s;
  seg_previous_turn_settings := Some settings;
  seg_reference_context_item := seg_reference_context_item s;
  seg_base_replacement_history := seg_base_replacement_history s |}.
Definition with_base (base : list ResponseItem) (s : ActiveReplaySegment)
  : ActiveReplaySegment := {|
  seg_turn_id := seg_turn_id s; counts_as_user_turn := counts_as_user_turn s;
  seg_previous_turn_settings := seg_previous_turn_settings s;
  seg_reference_context_item := seg_reference_context_item s;
  seg_base_replacement_history := Some base |}.

(** One item of the reverse scan; [newer] are the items after it. *)
Definition scan_item (item : RolloutItem) (newer : list RolloutItem) (st : ReverseScan)
  : ReverseScan :=
  let segment := default segment_default (active_segment st) in
  match item with
  | Compacted compacted =>
      let segment := or_reference Cleared segment in
      match seg_base_replacement_history segment, replacement_history compacted with
      | None, Some base => set_suffix newer (set_segment (Some (with_base base segment)) st)
      | _, _ => set_segment (Some segment) st
      end
  | RolloutEventMsg (ThreadRolledBack num_turns) =>
      set_pending_rollback (usize_sat_add (pending_rollback_turns st) num_turns) st
  | RolloutEventMsg (TurnComplete turn_id) =>
      set_segment (Some (with_turn_id (Some turn_id) segment)) st
  | RolloutEventMsg (TurnAborted turn_id) =>
      match active_segment st, turn_id with
      | Some segment, _ => set_segment (Some (with_turn_id turn_id segment)) st
      | None, Some _ => set_segment (Some (with_turn_id turn_id segment_default)) st
      | None, None => st
      end
  | RolloutEventMsg UserMessageEvent => set_segment (Some (or_user_turn true segment)) st
  | TurnContext ctx =>
      let segment := with_turn_id (tci_turn_id ctx) segment in
      set_segment
        (Some (if turn_ids_are_compatible (seg_turn_id segment) (tci_turn_id ctx)
               then or_reference (Latest ctx)
                      (with_settings {| pts_model := tci_model ctx;
                                        pts_realtime_active := tci_realtime_active ctx |} segment)
               else segment)) st
  | RolloutEventMsg (TurnStarted turn_id) =>
      match active_segment st with
      | Some segment =>
          if turn_ids_are_compatible (seg_turn_id segment) (Some turn_id)
          then finalize_active_segment segment (set_segment None st) else st
      | None => st
      end
  | RolloutResponseItem response_item =>
      set_segment (Some (or_user_turn (is_user_turn_boundary response_item) segment)) st
  | RolloutEventMsg OtherEvent | SessionMeta => st
  end.

Definition scan_is_complete (st : ReverseScan) : bool :=
  match base_replacement_history st, previous_turn_settings st with
  | Some _, Some _ => negb (is_never_set (scan_reference_context_item st))
  | _, _ => false
  end.

(** The loop: items older than those already seen, newest first. *)
Fixpoint reverse_scan_go (older : list RolloutItem) (newer : list RolloutItem) (st : ReverseScan)
  : ReverseScan :=
  match older with
  | [] => st
  | item :: older' =>
      let st := scan_item item newer st in
      if scan_is_complete st then st else reverse_scan_go older' (item :: newer) st
  end.

Definition reverse_scan (rollout_items : list RolloutItem) : ReverseScan :=
  let st := reverse_scan_go (reverse rollout_items) [] (scan_start rollout_items) in
  match active_segment st with
  | Some segment => finalize_active_segment segment (set_segment None st)
  | None => st
  end.

(** One item of the forward replay, with whether a compaction without a
    replacement was seen. *)
Definition replay_item (p : TruncationPolicy) (acc : ContextManager * bool) (item : RolloutItem)
  : ContextManager * bool :=
  let '(history, legacy) := acc in
  match item with
  | RolloutResponseItem response_item => (record_items [response_item] p history, legacy)
  | Compacted compacted =>
      match replacement_history compacted with
      | Some base => (replace base history, legacy)
      | None =>
          (replace (build_compacted_history [] (collect_user_messages (cm_items history))
                      (ci_message compacted)) history, true)
      end
  | RolloutEventMsg (ThreadRolledBack num_turns) =>
      (drop_last_n_user_turns num_turns history, legacy)
  | _ => acc
  end.

Record RolloutReconstruction := {
  rr_history : list ResponseItem;
  rr_previous_turn_settings : option PreviousTurnSettings;
  rr_reference_context_item : option TurnContextItem
}.

Definition reconstruct_history_from_rollout (p : TruncationPolicy)
    (rollout_items : list RolloutItem) : RolloutReconstruction :=
  let st := reverse_scan rollout_items in
  let history :=
    match base_replacement_history st with
    | Some base => replace base ContextManager_new
    | None => ContextManager_new
    end in
  let '(history, legacy) := foldl (replay_item p) (history, false) (rollout_suffix st) in
  {| rr_history := cm_items history;
     rr_previous_turn_settings := previous_turn_settings st;
     rr_reference_context_item :=
       match scan_reference_context_item st with
       | Latest ctx => if legacy then None else Some ctx
       | NeverSet | Cleared => None
       end |}.
End rollout.
