(* ===== verification/TruncateProps.v ===== *)
(** * Truncated outputs keep their ends

    A text that is too long keeps whole characters of its beginning and its
    end, within the budget; the buffer of a running command holds the first and
    the last bytes of the output, however it arrives. *)

From S2P Require Import Prelude RustStr FsModel Truncate.

(** ** Characters *)

Lemma concat_flush cur cs : concat (flush_char cur cs) = cur ++ concat cs.
Proof. by destruct cur. Qed.

Lemma concat_str_chars_go l : ∀ cur, concat (str_chars_go cur l) = cur ++ l.
Proof.
  induction l as [|b l IH]; intros cur; simpl.
  - by rewrite concat_flush.
  - destruct (is_cont b); [|rewrite concat_flush]; rewrite IH; [|done].
    by rewrite <- (assoc_L (++)).
Qed.

Lemma concat_str_chars s : concat (str_chars s) = bytes s.
Proof. unfold str_chars. by rewrite concat_str_chars_go. Qed.

Lemma str_chars_go_nonempty l : ∀ cur, Forall (λ ch, ch ≠ []) (str_chars_go cur l).
Proof.
  assert (F : ∀ cur cs, Forall (λ ch : list ascii, ch ≠ []) cs →
    Forall (λ ch, ch ≠ []) (flush_char cur cs)) by (intros [|] cs Hc; by repeat constructor).
  induction l as [|b l IH]; intros cur; simpl; [by apply F|]. destruct (is_cont b); auto.
Qed.

Lemma len_bytes s : N.to_nat (len s) = length (bytes s).
Proof. unfold len. by rewrite Nat2N.id, length_bytes. Qed.

(** ** The loop of [split_string] *)

(** One step of the loop, by the cases of its comparisons. *)
Ltac split_cases :=
  repeat case_match; simpl in *; rewrite ?N.leb_le, ?N.leb_gt in *; try done; try lia;
  try (f_equal; try done; lia).

Section split.
Context (b t : N).

(** The number of bytes of some characters. *)
Definition size (cs : list (list ascii)) : N := N.of_nat (length (concat cs)).

Lemma size_cons ch cs : size (ch :: cs) = (N.of_nat (length ch) + size cs)%N.
Proof. unfold size. simpl. rewrite length_app. lia. Qed.
Lemma size_app cs ds : size (cs ++ ds) = (size cs + size ds)%N.
Proof. unfold size. rewrite concat_app, length_app. lia. Qed.

(** The state after the characters [mid] that are left out and [suf] that are
    kept, from a state past the beginning. *)
Definition past (st : SplitState) (mid suf : list (list ascii)) : SplitState := {|
  sp_index := sp_index st + size mid + size suf; prefix_end := prefix_end st;
  suffix_start := match suf with [] => suffix_start st | _ => sp_index st + size mid end;
  removed_chars := N.min u64_max (removed_chars st + N.of_nat (length mid));
  suffix_started := match suf with [] => suffix_started st | _ => true end |}.

Lemma fold_suffix cs : ∀ st,
  (t ≤ sp_index st)%N → (b ≤ sp_index st)%N → Forall (λ ch, ch ≠ []) cs →
  suffix_started st = true →
  foldl (split_step b t) st cs =
    {| sp_index := sp_index st + size cs; prefix_end := prefix_end st;
       suffix_start := suffix_start st; removed_chars := removed_chars st;
       suffix_started := true |}.
Proof.
  induction cs as [|ch cs IH]; intros st Ht Hb F S; simpl.
  - destruct st; simpl in *. subst. f_equal. unfold size. simpl. lia.
  - inversion F as [|? ? Hch Fcs]; subst. destruct ch as [|c ch]; [done|].
    rewrite IH; [|unfold split_step; simpl length; rewrite ?S; split_cases..].
    unfold split_step. simpl length. rewrite size_cons. simpl length. rewrite S. split_cases.
Qed.

Lemma fold_past cs : ∀ st,
  suffix_started st = false → (removed_chars st ≤ u64_max)%N → Forall (λ ch, ch ≠ []) cs →
  match cs with [] => True | ch :: _ => (b < sp_index st + N.of_nat (length ch))%N end →
  ∃ mid suf, cs = mid ++ suf ∧ foldl (split_step b t) st cs = past st mid suf ∧
             (suf ≠ [] → (t ≤ sp_index st + size mid)%N).
Proof.
  induction cs as [|ch cs IH]; intros st S R F B; simpl.
  - exists [], []. split_and!; [done| |done]. destruct st; unfold past, size; simpl in *. f_equal; lia.
  - inversion F as [|? ? Hch Fcs]; subst.
    assert (L : (0 < N.of_nat (length ch))%N) by (destruct ch; [done|simpl; lia]).
    destruct (decide (t ≤ sp_index st)%N) as [T|T].
    + exists [], (ch :: cs). split_and!; [done| |intros _; unfold size; simpl; lia].
      assert (Z0 : size [] = 0%N) by done.
      rewrite fold_suffix; unfold split_step, past; rewrite ?size_cons, ?S; split_cases.
    + destruct (IH (split_step b t st ch)) as (mid & suf & -> & E & Hs); [| |done| |].
      * unfold split_step. split_cases.
      * unfold split_step, usize_sat_add. split_cases.
      * unfold split_step. destruct cs as [|[|c2 l2] cs]; [done|by inversion Fcs|]. split_cases.
      * exists (ch :: mid), suf. split_and!; [done| |].
        -- rewrite E. unfold split_step, past, usize_sat_add. rewrite size_cons. split_cases.
        -- intros N. apply Hs in N. revert N. unfold split_step. rewrite size_cons. split_cases.
Qed.

(** The characters of the beginning, within [b] bytes, come first. *)
Lemma fold_split cs : ∀ st,
  suffix_started st = false → (removed_chars st ≤ u64_max)%N → Forall (λ ch, ch ≠ []) cs →
  prefix_end st = sp_index st → (sp_index st ≤ b)%N →
  ∃ pre mid suf, cs = pre ++ mid ++ suf ∧
    foldl (split_step b t) st cs =
      past {| sp_index := sp_index st + size pre; prefix_end := sp_index st + size pre;
              suffix_start := suffix_start st; removed_chars := removed_chars st;
              suffix_started := false |} mid suf ∧
    (sp_index st + size pre ≤ b)%N ∧
    (suf ≠ [] → (t ≤ sp_index st + size pre + size mid)%N).
Proof.
  induction cs as [|ch cs IH]; intros st S R F P B.
  - exists [], [], []. split_and!; [done| |unfold size; simpl; lia|done].
    destruct st; unfold past, size; simpl in *. subst. f_equal; lia.
  - destruct (decide (sp_index st + N.of_nat (length ch) ≤ b)%N) as [L|L].
    + inversion F as [|? ? Hch Fcs]; subst. simpl.
      set (st' := split_step b t st ch).
      assert (E' : st' = {| sp_index := sp_index st + N.of_nat (length ch);
                            prefix_end := sp_index st + N.of_nat (length ch);
                            suffix_start := suffix_start st; removed_chars := removed_chars st;
                            suffix_started := false |}).
      { unfold st', split_step. apply N.leb_le in L. by rewrite L, S. }
      destruct (IH st') as (pre & mid & suf & -> & E & Hb & Hs); try (rewrite E'; done); [done|].
      rewrite E. rewrite E' in Hb, Hs |- *. simpl in *. exists (ch :: pre), mid, suf.
      rewrite size_cons. split_and!; [done| |lia|intros N; apply Hs in N; lia].
      unfold past. simpl. f_equal; try lia. destruct suf; [done|lia].
    + destruct (fold_past (ch :: cs) st S R F) as (mid & suf & E1 & E & Hs); [lia|].
      exists [], mid, suf. split_and!; [done| |unfold size; simpl; lia|].
      * rewrite E. destruct st; simpl in *. subst. unfold past, size. simpl. f_equal; try lia.
        destruct suf; [done|lia].
      * intros N. apply Hs in N. unfold size. simpl. unfold size in N. lia.
Qed.
End split.

Lemma byte_slice_app s (x y z : list ascii) :
  bytes s = x ++ y ++ z →
  byte_slice s (N.of_nat (length x)) (N.of_nat (length x + length y)) = of_bytes y.
Proof.
  intros E. unfold byte_slice. rewrite E. f_equal.
  rewrite Nat2N.id, drop_app_length.
  replace (N.to_nat (N.of_nat (length x + length y) - N.of_nat (length x))) with (length y) by lia.
  by rewrite take_app_length.
Qed.

(** [split_string] cuts a text into characters kept, left out and kept. *)
Lemma split_string_spec s b e :
  ∃ pre mid suf, str_chars s = pre ++ mid ++ suf ∧
    split_string s b e =
      (N.min u64_max (N.of_nat (length mid)), of_bytes (concat pre), of_bytes (concat suf)) ∧
    (size pre ≤ b)%N ∧ (size suf ≤ e)%N.
Proof.
  unfold split_string. destruct (String.eqb_spec s "") as [->|Hs].
  { exists [], [], []. unfold size. simpl. split_and!; [done..|lia|lia]. }
  edestruct (fold_split b (len s - e) (str_chars s)
    {| sp_index := 0; prefix_end := 0; suffix_start := len s; removed_chars := 0;
       suffix_started := false |}) as (pre & mid & suf & E & F & B & T);
    [done|simpl; unfold u64_max; lia|apply str_chars_go_nonempty|done|simpl; lia|].
  exists pre, mid, suf. rewrite F. clear F. unfold past. simpl in *.
  pose proof (concat_str_chars s) as C. rewrite E, !concat_app in C.
  assert (L : len s = (size pre + size mid + size suf)%N).
  { unfold size. rewrite <- (N2Nat.id (len s)), len_bytes, <- C, !length_app. lia. }
  split_and!; [done| |lia|].
  - f_equal; [f_equal|].
    + pose proof (byte_slice_app s [] (concat pre) (concat mid ++ concat suf) (eq_sym C)) as P.
      simpl in P. unfold size. exact P.
    + destruct suf as [|ch suf].
      * rewrite N.max_l by lia. unfold byte_slice.
        rewrite len_bytes, N.sub_diag. by rewrite take_0.
      * rewrite N.max_l by lia.
        pose proof (byte_slice_app s (concat pre ++ concat mid) (concat (ch :: suf)) []) as P.
        rewrite app_nil_r, <- (assoc_L (++)) in P. specialize (P (eq_sym C)).
        rewrite L. unfold size. rewrite length_app in P.
        replace (0 + N.of_nat (length (concat pre)) + N.of_nat (length (concat mid)))%N with
          (N.of_nat (length (concat pre) + length (concat mid))) by lia.
        replace (N.of_nat (length (concat pre)) + N.of_nat (length (concat mid)) +
                 N.of_nat (length (concat (ch :: suf))))%N with
          (N.of_nat (length (concat pre) + length (concat mid) + length (concat (ch :: suf)))) by lia.
        exact P.
  - destruct suf as [|ch suf]; [unfold size; simpl; lia|]. specialize (T ltac:(done)). lia.
Qed.

(** A text that fits its byte budget is kept as it is; of one that does not,
    whole characters of the beginning, in half of the budget, and of the end, in the
    rest of it, are kept around a marker that tells how much was left out. *)
Theorem truncated_text_keeps_ends (s : string) (max : N) (use_tokens : bool) :
  ((len s ≤ max)%N → truncate_with_byte_estimate s max use_tokens = s) ∧
  ((max < len s)%N → ∃ pre mid suf n, str_chars s = pre ++ mid ++ suf ∧
     truncate_with_byte_estimate s max use_tokens =
       of_bytes (concat pre) +:+ format_truncation_marker use_tokens n +:+ of_bytes (concat suf) ∧
     (N.of_nat (length (concat pre)) ≤ max / 2)%N ∧
     (N.of_nat (length (concat suf)) ≤ max - max / 2)%N ∧
     (if use_tokens then n = approx_tokens_from_byte_count (len s - max)
      else (N.of_nat (length mid) ≤ u64_max)%N → n = N.of_nat (length mid))).
Proof.
  unfold truncate_with_byte_estimate. destruct (String.eqb_spec s "") as [->|Hs].
  { split; [done|]. unfold len. simpl. lia. }
  assert (P : (0 < len s)%N) by (destruct s; [done|unfold len; simpl; lia]).
  destruct (N.eqb_spec max 0) as [->|Hm]; (split; intros L; [try lia|]).
  - exists [], (str_chars s), [], (removed_units use_tokens (len s) (N.of_nat (length (str_chars s)))).
    simpl. rewrite str_app_nil_r, app_nil_r. split_and!; try done. rewrite N.sub_0_r. by destruct use_tokens.
  - by apply N.leb_le in L as ->.
  - apply N.leb_gt in L as ->. unfold split_budget.
    destruct (split_string_spec s (max / 2) (max - max / 2)) as (pre & mid & suf & E & -> & B1 & B2).
    eexists pre, mid, suf, _. split_and!; [done..|]. unfold removed_units.
    destruct use_tokens; [done|lia].
Qed.

(** ** The buffer of a running command *)

Lemma usize_sat_add_min x n : usize_sat_add (N.min u64_max x) n = N.min u64_max (x + n).
Proof. unfold usize_sat_add. lia. Qed.

Definition lastn {A : Type} (n : nat) (l : list A) : list A := drop (length l - n) l.

Lemma lastn_app_ge {A} n (l k : list A) : n ≤ length k → lastn n (l ++ k) = lastn n k.
Proof.
  intros L. unfold lastn. rewrite length_app, drop_app_ge by lia. f_equal. lia.
Qed.

Lemma lastn_0 {A} (l : list A) : lastn 0 l = [].
Proof. unfold lastn. by rewrite Nat.sub_0_r, drop_all. Qed.

Lemma half_le max : max / 2 ≤ max.
Proof. pose proof (Nat.Div0.div_mod max 2). lia. Qed.

Lemma length_lastn {A} n (l : list A) : length (lastn n l) = n `min` length l.
Proof. unfold lastn. rewrite length_drop. lia. Qed.

Lemma lastn_lastn_app {A} n (l k : list A) : lastn n (lastn n l ++ k) = lastn n (l ++ k).
Proof.
  unfold lastn at 1 3. rewrite !length_app, length_lastn. unfold lastn.
  destruct (decide (length l ≤ n)) as [L|L].
  - replace (length l - n) with 0 by lia. rewrite drop_0. f_equal. lia.
  - destruct (decide (length k ≤ n)) as [K|K].
    + rewrite !drop_app_le by (rewrite ?length_drop; lia). rewrite drop_drop. do 2 f_equal. lia.
    + rewrite !drop_app_ge by (rewrite ?length_drop; lia). f_equal. rewrite length_drop. lia.
Qed.

#[local] Arguments Nat.div : simpl never.

(** What the buffer shows of an output. *)
Definition retained_output (max : nat) (all : list ascii) : list ascii :=
  take (max / 2) all ++ lastn (max - max / 2) (drop (max / 2) all).

Lemma trim_go_spec tail : ∀ excess n x, excess ≤ length (concat tail) → n = length (concat tail) →
  ∃ tail', trim_go excess tail n (N.min u64_max x) =
             (tail', n - excess, N.min u64_max (x + N.of_nat excess)) ∧
           concat tail' = drop excess (concat tail).
Proof.
  induction tail as [|front rest IH]; intros excess n x L ->; simpl in *.
  - exists []. replace excess with 0 by lia. rewrite N.add_0_r. done.
  - rewrite length_app in L. destruct (Nat.eqb_spec excess 0) as [->|N0].
    { exists (front :: rest). rewrite N.add_0_r, Nat.sub_0_r. done. }
    destruct (Nat.leb_spec (length front) excess) as [F|F].
    + rewrite usize_sat_add_min. rewrite length_app.
      destruct (IH (excess - length front) (length (concat rest)) (x + N.of_nat (length front))%N)
        as (tail' & E & C); [lia|done|].
      exists tail'. replace (length front + length (concat rest) - length front)
        with (length (concat rest)) by lia.
      rewrite E, C, drop_app_ge by done. split; [|done]. f_equal; [f_equal|]; lia.
    + exists (drop excess front :: rest). rewrite usize_sat_add_min. split; [done|].
      simpl. by rewrite drop_app_le by lia.
Qed.

(** The invariant: [all] is what was pushed. *)
Definition buffer_holds (max : nat) (all : list ascii) (b : HeadTailBuffer) : Prop :=
  max_bytes b = max ∧ head_budget b = max / 2 ∧ tail_budget b = max - max / 2 ∧
  concat (ht_head b) = take (max / 2) all ∧ head_bytes b = length (concat (ht_head b)) ∧
  concat (ht_tail b) = lastn (max - max / 2) (drop (max / 2) all) ∧
  tail_bytes b = length (concat (ht_tail b)) ∧
  omitted_bytes b = N.min u64_max (N.of_nat (length all - length (retained_output max all))).

Lemma length_retained max all : length (retained_output max all) = max `min` length all.
Proof.
  unfold retained_output. rewrite length_app, length_lastn, length_take, length_drop.
  pose proof (half_le max). lia.
Qed.

(** Bytes beyond the head go to the tail. *)
Lemma push_to_tail_holds max all chunk b :
  buffer_holds max all b → max / 2 ≤ length all →
  buffer_holds max (all ++ chunk) (push_to_tail b chunk).
Proof.
  intros (M & Hb & Tb & Ch & Hh & Ct & Ht & Om) L.
  set (tb := max - max / 2) in *.
  assert (Rest : drop (max / 2) (all ++ chunk) = drop (max / 2) all ++ chunk)
    by by rewrite drop_app_le.
  assert (Head : take (max / 2) (all ++ chunk) = take (max / 2) all) by by rewrite take_app_le.
  pose proof (half_le max) as D.
  rewrite length_retained in Om.
  unfold push_to_tail. rewrite Tb. unfold buffer_holds. fold tb. rewrite Rest, Head, length_retained.
  rewrite length_app. destruct (Nat.eqb_spec tb 0) as [Z|Z]; [|destruct (Nat.leb_spec tb (length chunk)) as [T|T]].
  - simpl. rewrite Om, usize_sat_add_min, Ct, Z. split_and!; try done.
    + by rewrite Tb.
    + by rewrite !lastn_0.
    + by rewrite Ht, Ct, Z.
    + f_equal. unfold tb in Z. lia.
  - simpl. rewrite app_nil_r, Om, !usize_sat_add_min. split_and!; try done.
    + rewrite lastn_app_ge by done. done.
    + f_equal. rewrite Ht, Ct, length_lastn, !length_drop. unfold tb in *. lia.
  - unfold trim_tail_to_budget. simpl. rewrite Tb, Om.
    destruct (trim_go_spec (ht_tail b ++ [chunk]) (tail_bytes b + length chunk - tb)
      (tail_bytes b + length chunk) (N.of_nat (length all - max `min` length all)))
      as (tail' & E & C).
    { rewrite concat_app, length_app. simpl. rewrite app_nil_r. lia. }
    { rewrite concat_app, length_app. simpl. by rewrite app_nil_r, Ht. }
    rewrite E. simpl. rewrite C, concat_app. simpl. rewrite app_nil_r, Ct.
    assert (Lt : length (lastn tb (drop (max / 2) all)) = tail_bytes b) by by rewrite Ht, Ct.
    split_and!; try done.
    + by rewrite <- lastn_lastn_app, <- Lt, <- length_app.
    + rewrite length_drop, length_app, Lt. lia.
    + f_equal. rewrite Ht, Ct, length_lastn, length_drop. unfold tb in *. lia.
Qed.

Lemma push_chunk_holds max all chunk b :
  buffer_holds max all b → buffer_holds max (all ++ chunk) (push_chunk b chunk).
Proof.
  intros B. pose proof B as (M & Hb & Tb & Ch & Hh & Ct & Ht & Om).
  rewrite length_retained in Om. unfold push_chunk. rewrite M.
  destruct (Nat.eqb_spec max 0) as [->|Z].
  - unfold buffer_holds. rewrite length_retained. simpl in *. rewrite Om, usize_sat_add_min, length_app.
    unfold lastn in *. rewrite Nat.sub_0_r, drop_all in *. rewrite Ct. split_and!; try done.
    + by rewrite Ht, Ct.
    + f_equal. lia.
  - assert (D : max / 2 < max) by (apply Nat.Div0.div_lt_upper_bound; lia).
    rewrite Hh, Hb, Ch, length_take. destruct (Nat.ltb_spec ((max / 2) `min` length all) (max / 2)) as [L|L].
    + assert (E0 : drop (max / 2) all = []) by (apply drop_ge; lia).
      assert (Tl : concat (ht_tail b) = []) by (rewrite Ct, E0; done).
      destruct (Nat.leb_spec (length chunk) (max / 2 - (max / 2) `min` length all)) as [S|S].
      * unfold push_head, buffer_holds. simpl. rewrite length_retained, concat_app, Ch. simpl.
        rewrite app_nil_r, (take_ge all), (take_ge (all ++ chunk)) by (rewrite ?length_app; lia).
        rewrite (drop_ge (all ++ chunk)) by (rewrite length_app; lia).
        split_and!; try done.
        -- rewrite Hh, Ch, length_app, (take_ge all) by lia. done.
        -- rewrite Om, length_app. f_equal. lia.
      * set (n := max / 2 - (max / 2) `min` length all) in *.
        replace (all ++ chunk) with ((all ++ take n chunk) ++ drop n chunk)
          by by rewrite <- (assoc_L (++)), take_drop.
        apply push_to_tail_holds; [|rewrite length_app, length_take; lia].
        assert (Tn : length (take n chunk) = n) by (rewrite length_take; lia).
        rewrite bool_decide_eq_false_2 by (intros X; rewrite X in Tn; simpl in Tn; lia).
        unfold push_head, buffer_holds. simpl. rewrite length_retained, concat_app, Ch. simpl.
        rewrite app_nil_r, (take_ge all), (take_ge (all ++ take n chunk)) by (rewrite ?length_app; lia).
        rewrite (drop_ge (all ++ take n chunk)) by (rewrite length_app; lia).
        split_and!; try done.
        -- rewrite Hh, Ch, length_app, (take_ge all) by lia. done.
        -- rewrite Om, length_app. f_equal. lia.
    + apply push_to_tail_holds; [done|lia].
Qed.

Lemma pushes_hold max chunks : ∀ all b,
  buffer_holds max all b → buffer_holds max (all ++ concat chunks) (foldl push_chunk b chunks).
Proof.
  induction chunks as [|c chunks IH]; intros all b B; simpl; [by rewrite app_nil_r|].
  rewrite (assoc_L (++)). apply IH. by apply push_chunk_holds.
Qed.

Lemma new_holds max : buffer_holds max [] (HeadTailBuffer_new max).
Proof.
  unfold buffer_holds, HeadTailBuffer_new. simpl. rewrite length_retained. simpl.
  rewrite drop_nil, take_nil. by split_and!.
Qed.

(** C19: However the output of a command is cut into chunks, the buffer holds all of
    it while it fits, and otherwise its first and its last bytes, half of the limit
    each; it counts the bytes it left out and never exceeds its limit. *)
Theorem command_output_retained (max : nat) (chunks : list (list ascii)) :
  let b := foldl push_chunk (HeadTailBuffer_new max) chunks in
  let all := concat chunks in
  to_bytes b = retained_output max all ∧ concat (snapshot_chunks b) = to_bytes b ∧
  retained_bytes b = length (to_bytes b) ∧ retained_bytes b = max `min` length all ∧
  (length all ≤ max → to_bytes b = all) ∧
  omitted_bytes b = N.min u64_max (N.of_nat (length all - max)) ∧
  concat (drain_chunks b).1 = to_bytes b ∧ (drain_chunks b).2 = HeadTailBuffer_new max.
Proof.
  intros b all. pose proof (pushes_hold max chunks [] _ (new_holds max)) as B.
  simpl in B. fold all b in B. destruct B as (M & Hb & Tb & Ch & Hh & Ct & Ht & Om).
  assert (E : to_bytes b = retained_output max all) by (unfold to_bytes; by rewrite Ch, Ct).
  assert (R : retained_bytes b = length (to_bytes b))
    by (unfold retained_bytes, to_bytes; by rewrite length_app, Hh, Ht).
  rewrite length_retained in Om.
  split_and!; [done|by unfold snapshot_chunks, to_bytes; rewrite concat_app|done| | | | |].
  - by rewrite R, E, length_retained.
  - intros L. rewrite E. unfold retained_output, lastn.
    rewrite length_drop. replace (length all - max / 2 - (max - max / 2)) with 0 by
      (pose proof (half_le max); lia).
    by rewrite drop_0, take_drop.
  - rewrite Om. f_equal. lia.
  - unfold drain_chunks, to_bytes. simpl. by rewrite concat_app.
  - unfold drain_chunks, HeadTailBuffer_new. simpl. by rewrite M, Hb, Tb.
Qed.
