(* ===== verification/HistoryProps.v ===== *)
(** * Histories stay well formed

    What is sent to the model pairs every call with an output, whatever was
    recorded; dropping the oldest or the newest item keeps the pairs; a rollback
    drops turns from the end and nothing else. *)

From S2P Require Import Prelude RustStr FsModel Truncate History.

(** ** Calls and outputs

    The specification: an output answers a call of its kind with its id. *)

Inductive CallKey := FunctionKey (id : string) | SearchKey (id : string) | CustomKey (id : string).

#[global] Instance CallKey_eq_dec : EqDecision CallKey.
Proof. solve_decision. Defined.

Definition call_key (item : ResponseItem) : option CallKey :=
  match item with
  | FunctionCall _ _ _ _ id | LocalShellCall _ (Some id) _ _ => Some (FunctionKey id)
  | ToolSearchCall _ (Some id) _ _ _ => Some (SearchKey id)
  | CustomToolCall _ _ id _ _ => Some (CustomKey id)
  | _ => None
  end.

Definition output_key (item : ResponseItem) : option CallKey :=
  match item with
  | FunctionCallOutput id _ => Some (FunctionKey id)
  | ToolSearchOutput (Some id) _ _ _ => Some (SearchKey id)
  | CustomToolCallOutput id _ _ => Some (CustomKey id)
  | _ => None
  end.

Definition is_output (item : ResponseItem) : bool :=
  match item with
  | FunctionCallOutput _ _ | ToolSearchOutput _ _ _ _ | CustomToolCallOutput _ _ _ => true
  | _ => false
  end.

(** The search ran on the server: no call of it is recorded. *)
Definition from_server (item : ResponseItem) : bool :=
  match item with ToolSearchOutput _ _ execution _ => String.eqb execution "server" | _ => false end.

Definition calls (items : list ResponseItem) : list CallKey := omap call_key items.
Definition outputs (items : list ResponseItem) : list CallKey := omap output_key items.

Definition paired (items : list ResponseItem) : Prop :=
  ∀ item k, item ∈ items →
    (call_key item = Some k → k ∈ outputs items) ∧
    (output_key item = Some k → from_server item = false → k ∈ calls items).

Definition has_image (item : ResponseItem) : Prop :=
  match item with
  | Message _ _ content _ => ∃ url detail, InputImage url detail ∈ content
  | FunctionCallOutput _ output | CustomToolCallOutput _ _ output =>
      match fo_body output with
      | BodyContentItems items => ∃ url detail, OutInputImage url detail ∈ items
      | BodyText _ => False
      end
  | ImageGenerationCall _ _ _ result => result ≠ ""%string
  | _ => False
  end.

Lemma call_no_output item k : call_key item = Some k → output_key item = None.
Proof. destruct item as [| |? [] | | | | | | | | | | | |]; naive_solver. Qed.

Lemma output_no_call item k : output_key item = Some k → call_key item = None.
Proof. destruct item as [| |? [] | | ? [] | | | |[]| | | | | |]; naive_solver. Qed.

Lemma output_key_is_output item k : output_key item = Some k → is_output item = true.
Proof. destruct item as [| | | | | | | |[]| | | | | |]; naive_solver. Qed.

(** The searches of the code decide the specification. *)
Lemma existsb_key (f : ResponseItem → bool) (key : ResponseItem → option CallKey) k items :
  (∀ item, f item = true ↔ key item = Some k) →
  existsb f items = bool_decide (k ∈ omap key items).
Proof.
  intros Hf. apply eq_bool_prop_intro. rewrite bool_decide_spec, Is_true_true, existsb_exists.
  rewrite list_elem_of_omap. setoid_rewrite <- list_elem_of_In.
  split; intros (x & I & F); exists x; naive_solver.
Qed.

(** The output the code makes up for a call. *)
Definition made_up (k : CallKey) : ResponseItem :=
  match k with
  | FunctionKey id => FunctionCallOutput id aborted
  | SearchKey id => ToolSearchOutput (Some id) "completed" "client" []
  | CustomKey id => CustomToolCallOutput id None aborted
  end.

Lemma made_up_key k : output_key (made_up k) = Some k.
Proof. by destruct k. Qed.

Lemma made_up_call k : call_key (made_up k) = None.
Proof. by destruct k. Qed.

Ltac key_search :=
  intros [| | | | | | | |[]| | | | | |]; simpl; rewrite ?String.eqb_eq; naive_solver.

Lemma is_function_output_key id item :
  is_function_output id item = true ↔ output_key item = Some (FunctionKey id).
Proof. revert item. key_search. Qed.
Lemma is_tool_search_output_key id item :
  is_tool_search_output id item = true ↔ output_key item = Some (SearchKey id).
Proof. revert item. key_search. Qed.
Lemma is_custom_tool_output_key id item :
  is_custom_tool_output id item = true ↔ output_key item = Some (CustomKey id).
Proof. revert item. key_search. Qed.

(** What is inserted after an item. *)
Definition answer (items : list ResponseItem) (item : ResponseItem) : list ResponseItem :=
  match call_key item with
  | Some k => if bool_decide (k ∈ outputs items) then [] else [made_up k]
  | None => []
  end.

Lemma missing_output_answer items item :
  fst <$> missing_output items item = head (answer items item).
Proof.
  unfold answer, outputs.
  destruct item as [| |? [id|]|? ? ? ? id|? [id|]| |? ? id| |[]| | | | | |]; try done; simpl;
    first [ rewrite (existsb_key _ _ _ _ (is_function_output_key id))
          | rewrite (existsb_key _ _ _ _ (is_tool_search_output_key id))
          | rewrite (existsb_key _ _ _ _ (is_custom_tool_output_key id)) ];
    by case_bool_decide.
Qed.

Definition with_answers (items : list ResponseItem) : list ResponseItem :=
  flat_map (λ item, item :: answer items item) items.

Lemma insert_at_app {A} (l r : list A) x : insert_at (length l) x (l ++ r) = l ++ x :: r.
Proof. unfold insert_at. by rewrite take_app_length, drop_app_length. Qed.

Lemma insertions_from_end items rest : ∀ pre,
  foldl (λ acc (m : nat * (ResponseItem * bool)), insert_at (m.1 + 1) m.2.1 acc) (pre ++ rest)
    (reverse (missing_outputs items (length pre) rest)) =
  pre ++ flat_map (λ item, item :: answer items item) rest.
Proof.
  induction rest as [|item rest IH]; intros pre; simpl; [done|].
  pose proof (missing_output_answer items item) as M.
  specialize (IH (pre ++ [item])). rewrite length_app, Nat.add_1_r, <- (assoc_L (++)) in IH. simpl in IH.
  unfold answer in *. destruct (missing_output items item) as [[o b]|].
  - rewrite reverse_cons, foldl_app, IH. simpl.
    replace (length pre + 1) with (length (pre ++ [item])) by (rewrite length_app; done).
    rewrite insert_at_app, <- (assoc_L (++)). simpl. do 2 f_equal.
    destruct (call_key item); [|done]. case_bool_decide; simplify_eq/=; done.
  - rewrite IH, <- (assoc_L (++)). simpl. do 2 f_equal.
    destruct (call_key item); [|done]. by case_bool_decide.
Qed.

Lemma ensure_call_outputs_present_spec items :
  ensure_call_outputs_present false items = Some (with_answers items).
Proof.
  unfold ensure_call_outputs_present. simpl. f_equal. exact (insertions_from_end items items []).
Qed.

Lemma function_key_called id items :
  FunctionKey id ∈ calls items ↔ id ∈ function_call_ids items ∨ id ∈ local_shell_call_ids items.
Proof.
  unfold calls, function_call_ids, local_shell_call_ids. rewrite !list_elem_of_omap. split.
  - intros (item & I & E). destruct item as [| |? []| | ? [] | | | |[]| | | | | |]; naive_solver.
  - intros [(item & I & E)|(item & I & E)]; exists item; (split; [done|]);
      destruct item as [| |? []| | | | | | | | | | | |]; naive_solver.
Qed.

Lemma search_key_called id items : SearchKey id ∈ calls items ↔ id ∈ tool_search_call_ids items.
Proof.
  unfold calls, tool_search_call_ids. rewrite !list_elem_of_omap.
  split; intros (item & I & E); exists item; (split; [done|]);
    destruct item as [| |? []| | ? [] | | | |[]| | | | | |]; naive_solver.
Qed.

Lemma custom_key_called id items : CustomKey id ∈ calls items ↔ id ∈ custom_tool_call_ids items.
Proof.
  unfold calls, custom_tool_call_ids. rewrite !list_elem_of_omap.
  split; intros (item & I & E); exists item; (split; [done|]);
    destruct item as [| |? []| | ? [] | | | |[]| | | | | |]; naive_solver.
Qed.

Lemma has_match_spec items item :
  has_match items item = true ↔
  (∀ k, output_key item = Some k → from_server item = false → k ∈ calls items).
Proof.
  destruct item as [| | | | |id| |id|[id|] ? ex| | | | | |]; simpl; try naive_solver.
  - rewrite orb_true_iff, !bool_decide_eq_true, <- function_key_called. naive_solver.
  - rewrite bool_decide_eq_true, <- custom_key_called. naive_solver.
  - destruct (String.eqb ex "server"); rewrite ?bool_decide_eq_true, <- ?search_key_called;
      naive_solver.
  - destruct (String.eqb ex "server"); naive_solver.
Qed.

Lemma filter_id {A} (f : A → bool) l : (∀ x, x ∈ l → f x = true) → List.filter f l = l.
Proof.
  induction l as [|x l IH]; intros F; simpl; [done|].
  rewrite F, IH; [done|intros; apply F; by right|by left].
Qed.

Lemma filter_none {A} (f : A → bool) l : (∀ x, x ∈ l → f x = false) → List.filter f l = [].
Proof.
  induction l as [|x l IH]; intros F; simpl; [done|].
  rewrite F by (by left). apply IH. intros; apply F; by right.
Qed.

Lemma elem_of_filter_bool {A} (f : A → bool) l x : x ∈ List.filter f l ↔ x ∈ l ∧ f x = true.
Proof. by rewrite !list_elem_of_In, filter_In. Qed.

(** In a well-formed history nothing is missing and nothing is orphaned. *)
Lemma paired_normal items : paired items →
  ∀ b, ensure_call_outputs_present b items = Some items ∧
       remove_orphan_outputs b items = Some items.
Proof.
  intros P b. assert (A : ∀ item, item ∈ items → answer items item = []).
  { intros item I. unfold answer. destruct (call_key item) as [k|] eqn:K; [|done].
    rewrite bool_decide_eq_true_2; [done|]. by eapply P. }
  assert (M : ∀ rest idx, (∀ item, item ∈ rest → item ∈ items) → missing_outputs items idx rest = []).
  { induction rest as [|item rest IH]; intros idx I; simpl; [done|].
    pose proof (missing_output_answer items item) as E. rewrite A in E by (apply I; by left).
    destruct (missing_output items item); [done|]. apply IH. intros; apply I; by right. }
  assert (F : ∀ item, item ∈ items → has_match items item = true).
  { intros item I. apply has_match_spec. intros k. by apply P. }
  split.
  - unfold ensure_call_outputs_present. rewrite M by done. by rewrite andb_false_r.
  - unfold remove_orphan_outputs. rewrite filter_id by done.
    replace (forallb (has_match items) items) with true; [by rewrite andb_false_r|].
    symmetry. apply forallb_forall. intros x X. apply F. by apply list_elem_of_In.
Qed.

Lemma elem_with_answers items x :
  x ∈ with_answers items ↔
  x ∈ items ∨
  (∃ item k, item ∈ items ∧ call_key item = Some k ∧ (k ∉ outputs items) ∧ x = made_up k).
Proof.
  unfold with_answers. rewrite list_elem_of_In, in_flat_map. setoid_rewrite <- list_elem_of_In.
  unfold answer. split.
  - intros (item & I & [->|E]%elem_of_cons); [by left|]. right.
    destruct (call_key item) as [k|] eqn:K; [|by apply elem_of_nil in E].
    case_bool_decide; [by apply elem_of_nil in E|].
    apply list_elem_of_singleton in E. exists item, k. done.
  - intros [I|(item & k & I & K & N & ->)]; [exists x; split; [done|by left]|].
    exists item. split; [done|]. rewrite K, bool_decide_eq_false_2 by done. right. by left.
Qed.

(** What [for_prompt] does in a release build, before images. *)
Definition normalized (items : list ResponseItem) : list ResponseItem :=
  List.filter (has_match (with_answers items)) (with_answers items).

Lemma with_answers_calls items k : k ∈ calls (with_answers items) ↔ k ∈ calls items.
Proof.
  unfold calls. rewrite !list_elem_of_omap. setoid_rewrite elem_with_answers. split.
  - intros (x & [I|(item & k' & I & K & N & ->)] & E); [by exists x|].
    by rewrite made_up_call in E.
  - intros (x & I & E). exists x. auto.
Qed.

Lemma normalized_calls items k : k ∈ calls (normalized items) ↔ k ∈ calls items.
Proof.
  rewrite <- (with_answers_calls items). unfold calls, normalized. rewrite !list_elem_of_omap.
  setoid_rewrite elem_of_filter_bool. split; [naive_solver|].
  intros (x & I & E). exists x. split_and!; try done. apply has_match_spec.
  intros k' E'. apply call_no_output in E. congruence.
Qed.

Lemma normalized_paired items : paired (normalized items).
Proof.
  intros item k I. pose proof I as [J M]%elem_of_filter_bool. split.
  - intros K. assert (C : k ∈ calls items).
    { apply normalized_calls. unfold calls. apply list_elem_of_omap. by exists item. }
    unfold outputs. apply list_elem_of_omap.
    assert (∃ x, x ∈ with_answers items ∧ output_key x = Some k) as (x & X & E).
    { destruct (decide (k ∈ outputs items)) as [(x & X & E)%list_elem_of_omap|N].
      - exists x. split; [|done]. apply elem_with_answers. by left.
      - apply list_elem_of_omap in C as (c & Ic & Kc). exists (made_up k).
        split; [|apply made_up_key]. apply elem_with_answers. right. by exists c, k. }
    exists x. split; [|done]. apply elem_of_filter_bool. split; [done|].
    apply has_match_spec. intros k' E' _. simplify_eq. by apply with_answers_calls.
  - intros K S. apply normalized_calls, with_answers_calls. by eapply has_match_spec.
Qed.

Lemma strip_keys item :
  call_key (strip_item_images item) = call_key item ∧
  output_key (strip_item_images item) = output_key item ∧
  from_server (strip_item_images item) = from_server item ∧
  is_output (strip_item_images item) = is_output item.
Proof. by destruct item. Qed.

Lemma strip_no_image item : ¬ has_image (strip_item_images item).
Proof.
  destruct item as [? ? content| | | | |? output| |? ? output| | | | | | |]; simpl; try tauto.
  - intros (url & detail & (c & E & _)%list_elem_of_fmap). by destruct c.
  - unfold map_output_items. destruct output as [[|items] ?]; simpl; [tauto|].
    intros (url & detail & (c & E & _)%list_elem_of_fmap). by destruct c.
  - unfold map_output_items. destruct output as [[|items] ?]; simpl; [tauto|].
    intros (url & detail & (c & E & _)%list_elem_of_fmap). by destruct c.
Qed.

Lemma map_strip_keys items :
  calls (map strip_item_images items) = calls items ∧
  outputs (map strip_item_images items) = outputs items.
Proof.
  induction items as [|item items [IH1 IH2]]; [done|]. unfold calls, outputs in *. simpl.
  destruct (strip_keys item) as (-> & -> & _). change list_omap with (@omap list _).
  by rewrite IH1, IH2.
Qed.

Lemma strip_paired items : paired items → paired (map strip_item_images items).
Proof.
  intros P item k (x & -> & X)%list_elem_of_fmap. destruct (map_strip_keys items) as [-> ->].
  destruct (strip_keys x) as (-> & -> & -> & _). by apply P.
Qed.

Definition others (items : list ResponseItem) : list ResponseItem := List.filter (negb ∘ is_output) items.

Lemma others_with_answers all rest :
  others (flat_map (λ item, item :: answer all item) rest) = others rest.
Proof.
  unfold others. induction rest as [|item rest IH]; simpl; [done|].
  rewrite List.filter_app, IH. f_equal. unfold answer. destruct (call_key item) as [k|]; [|done].
  case_bool_decide; [done|]. simpl. by rewrite (output_key_is_output _ k (made_up_key k)).
Qed.

Lemma filter_filter_imp {A} (f g : A → bool) l :
  (∀ x, g x = true → f x = true) → List.filter g (List.filter f l) = List.filter g l.
Proof.
  intros I. induction l as [|x l IH]; simpl; [done|].
  destruct (f x) eqn:F, (g x) eqn:G; simpl; rewrite ?G, ?IH; try done.
  rewrite (I x G) in F. done.
Qed.

Lemma others_normalized items : others (normalized items) = others items.
Proof.
  rewrite <- (others_with_answers items items). unfold normalized, with_answers, others.
  apply filter_filter_imp. intros x N. apply has_match_spec. intros k K.
  apply output_key_is_output in K. simpl in N. by rewrite K in N.
Qed.

Lemma others_map_strip items :
  others (map strip_item_images items) = map strip_item_images (others items).
Proof.
  unfold others. induction items as [|x items IH]; simpl; [done|].
  destruct (strip_keys x) as (_ & _ & _ & ->). rewrite IH. by destruct (is_output x).
Qed.

Lemma for_prompt_release mods self :
  for_prompt false mods self =
  Some (strip_images_when_unsupported mods (normalized (cm_items self))).
Proof.
  unfold for_prompt. by rewrite ensure_call_outputs_present_spec.
Qed.

Lemma strip_item_idemp item : strip_item_images (strip_item_images item) = strip_item_images item.
Proof.
  assert (O : ∀ o, map_output_items (strip_output_image IMAGE_CONTENT_OMITTED_PLACEHOLDER)
            (map_output_items (strip_output_image IMAGE_CONTENT_OMITTED_PLACEHOLDER) o) =
          map_output_items (strip_output_image IMAGE_CONTENT_OMITTED_PLACEHOLDER) o).
  { intros [[|items] ?]; [done|]. unfold map_output_items. simpl. f_equal. f_equal.
    rewrite map_map. apply map_ext. by intros []. }
  destruct item; simpl; rewrite ?O; try done.
  f_equal. rewrite map_map. apply map_ext. by intros [].
Qed.

(** C16: Whatever the history holds, a release build sends the model a prompt in
    which every call with an id has an output of its kind, every output with an id
    answers a call (an output of a search on the server needs none), and no image is
    left for a model that takes none; the items that are no outputs are those of the
    history, in order; and the prompt is stable: a history that holds it is sent
    unchanged, also by a debug build, which panics on others. *)
Theorem prompt_history_paired (mods : list InputModality) (self : ContextManager) :
  ∃ prompt, for_prompt false mods self = Some prompt ∧ paired prompt ∧
    (ModalityImage ∉ mods → ∀ item, item ∈ prompt → ¬ has_image item) ∧
    others prompt = strip_images_when_unsupported mods (others (cm_items self)) ∧
    (∀ debug, for_prompt debug mods (set_items prompt self) = Some prompt).
Proof.
  eexists. split; [apply for_prompt_release|].
  pose proof (normalized_paired (cm_items self)) as P. unfold strip_images_when_unsupported.
  case_bool_decide as M.
  - split_and!; [done|done|apply others_normalized|]. intros debug. unfold for_prompt. simpl.
    destruct (paired_normal _ P debug) as [-> E]. simpl. rewrite E. simpl.
    unfold strip_images_when_unsupported. by rewrite bool_decide_eq_true_2.
  - pose proof (strip_paired _ P) as P'. split_and!; [done| | |].
    + intros _ item (x & -> & _)%list_elem_of_fmap. apply strip_no_image.
    + by rewrite others_map_strip, others_normalized.
    + intros debug. unfold for_prompt. simpl.
      destruct (paired_normal _ P' debug) as [-> E]. simpl. rewrite E. simpl.
      unfold strip_images_when_unsupported. rewrite bool_decide_eq_false_2 by done.
      rewrite map_map. f_equal. apply map_ext, strip_item_idemp.
Qed.

(** ** Dropping the oldest or the newest item *)

Definition well_paired (items : list ResponseItem) : Prop :=
  paired items ∧ NoDup (calls items) ∧ NoDup (outputs items).

(** One answers the other. *)
Definition partner (a b : ResponseItem) : bool :=
  match call_key a, output_key a with
  | Some k, _ => bool_decide (output_key b = Some k)
  | None, Some k => bool_decide (call_key b = Some k)
  | None, None => false
  end.

Definition without_partner (removed : ResponseItem) (rest : list ResponseItem) : list ResponseItem :=
  List.filter (negb ∘ partner removed) rest.

Section keys.
Context (key : ResponseItem → option CallKey).

Lemma NoDup_key_cons x items :
  NoDup (omap key (x :: items)) ↔
  (∀ k, key x = Some k → k ∉ omap key items) ∧ NoDup (omap key items).
Proof.
  change (omap key (x :: items)) with
    (match key x with Some k => k :: omap key items | None => omap key items end).
  destruct (key x); rewrite ?NoDup_cons; naive_solver.
Qed.

Lemma NoDup_key_filter f items :
  NoDup (omap key items) → NoDup (omap key (List.filter f items)).
Proof.
  induction items as [|x items IH]; [done|]. intros [N D]%NoDup_key_cons. simpl.
  destruct (f x); [|by apply IH]. apply NoDup_key_cons. split; [|by apply IH].
  intros k K (y & [Y _]%elem_of_filter_bool & E)%list_elem_of_omap.
  apply (N k K), list_elem_of_omap. by exists y.
Qed.

Lemma remove_first_matching_key f k items :
  NoDup (omap key items) → (∀ x, f x = true → key x = Some k) →
  existsb f items = true ∨ (∀ x, x ∈ items → key x = Some k → f x = true) →
  remove_first_matching f items = List.filter (λ x, negb (bool_decide (key x = Some k))) items.
Proof.
  intros D F. induction items as [|x items IH]; [done|]. intros E.
  apply NoDup_key_cons in D as [N D]. simpl. destruct (f x) eqn:Fx.
  - rewrite (bool_decide_eq_true_2 _ (F x Fx)). simpl. symmetry. apply filter_id. intros y Y.
    apply negb_true_iff, bool_decide_eq_false_2. intros K.
    apply (N k (F x Fx)), list_elem_of_omap. by exists y.
  - assert (E' : existsb f items = true ∨ (∀ x, x ∈ items → key x = Some k → f x = true)).
    { destruct E as [E|E]; [left|right; intros; apply E; [by right|done]].
      simpl in E. by rewrite Fx in E. }
    rewrite bool_decide_eq_false_2; [simpl; by rewrite IH|]. intros K. destruct E as [E|E].
    + simpl in E. rewrite Fx in E. apply existsb_exists in E as (y & Y & Fy).
      apply (N k K), list_elem_of_omap. exists y. split; [by apply list_elem_of_In|auto].
    + rewrite (E x) in Fx; [done|by left|done].
Qed.
End keys.

Lemma is_tool_search_call_key id item :
  is_tool_search_call id item = true ↔ call_key item = Some (SearchKey id).
Proof.
  destruct item as [| |? []| | ? [] | | | | | | | | | |]; simpl; rewrite ?String.eqb_eq; naive_solver.
Qed.
Lemma is_custom_tool_call_key id item :
  is_custom_tool_call id item = true ↔ call_key item = Some (CustomKey id).
Proof.
  destruct item as [| |? []| | ? [] | | | | | | | | | |]; simpl; rewrite ?String.eqb_eq; naive_solver.
Qed.
Lemma is_function_call_key id item :
  is_function_call id item = true → call_key item = Some (FunctionKey id).
Proof. destruct item; simpl; rewrite ?String.eqb_eq; naive_solver. Qed.
Lemma is_local_shell_call_key id item :
  is_local_shell_call id item = true → call_key item = Some (FunctionKey id).
Proof. destruct item as [| |? []| | | | | | | | | | | |]; simpl; rewrite ?String.eqb_eq; naive_solver. Qed.

Ltac by_key key k decided :=
  rewrite (remove_first_matching_key key _ k);
  [done|done|apply decided|right; intros ? _; apply decided].

Lemma remove_corresponding_for_spec removed rest :
  NoDup (calls rest) → NoDup (outputs rest) →
  remove_corresponding_for rest removed = without_partner removed rest.
Proof.
  intros C O. unfold without_partner.
  assert (I : List.filter (λ _, true) rest = rest) by by apply filter_id.
  destruct removed as [| |? [id|]|? ? ? ? id|? [id|]|id|? ? id|id|[id|]| | | | | |]; simpl;
    try (symmetry; exact I).
  - by_key output_key (FunctionKey id) is_function_output_key.
  - by_key output_key (FunctionKey id) is_function_output_key.
  - by_key output_key (SearchKey id) is_tool_search_output_key.
  - destruct (existsb (is_function_call id) rest) eqn:E.
    + rewrite (remove_first_matching_key call_key _ (FunctionKey id));
        [done|done|apply is_function_call_key|by left].
    + rewrite (remove_first_matching_key call_key _ (FunctionKey id));
        [done|done|apply is_local_shell_call_key|right].
      intros x X K. apply not_true_iff_false in E.
      destruct x as [| |? []|? ? ? ? id'|? []| | | | | | | | | |]; simpl in *; simplify_eq;
        [by apply String.eqb_eq|].
      exfalso. apply E, existsb_exists. eexists. split; [by apply list_elem_of_In|].
      by apply String.eqb_eq.
  - by_key output_key (CustomKey id) is_custom_tool_output_key.
  - by_key call_key (CustomKey id) is_custom_tool_call_key.
  - by_key call_key (SearchKey id) is_tool_search_call_key.
Qed.

Lemma NoDup_key_same key (items : list ResponseItem) removed rest x k :
  items ≡ₚ removed :: rest → NoDup (omap key items) →
  key removed = Some k → x ∈ rest → key x = (Some k : option CallKey) → False.
Proof.
  intros P D R X K. rewrite P in D. apply NoDup_key_cons in D as [N _].
  apply (N k R), list_elem_of_omap. by exists x.
Qed.

Lemma without_partner_well_paired items removed rest :
  items ≡ₚ removed :: rest → well_paired items → well_paired (without_partner removed rest).
Proof.
  intros E (P & C & O). assert (D := C). assert (D' := O). unfold calls, outputs in C, O.
  rewrite E in C, O. apply NoDup_key_cons in C as [_ C]. apply NoDup_key_cons in O as [_ O].
  split_and!; [|by apply NoDup_key_filter|by apply NoDup_key_filter].
  assert (In : ∀ x, x ∈ items ↔ x = removed ∨ x ∈ rest) by (intros x; rewrite E; set_solver).
  intros item k [I N]%elem_of_filter_bool.
  apply negb_true_iff in N. unfold partner in N. split.
  - intros K. destruct (P item k) as [A _]; [apply In; by right|].
    specialize (A K). apply list_elem_of_omap in A as (y & Y & Ky). apply list_elem_of_omap.
    exists y. split; [|done]. apply In in Y as [->|Y].
    + rewrite (output_no_call _ _ Ky), Ky in N. by rewrite bool_decide_eq_true_2 in N.
    + apply elem_of_filter_bool. split; [done|]. simpl. apply negb_true_iff, not_true_iff_false.
      unfold partner. destruct (call_key removed) as [k'|] eqn:R.
      * rewrite bool_decide_eq_true. intros Ky'. simplify_eq.
        exact (NoDup_key_same call_key items removed rest item k E D R I K).
      * destruct (output_key removed); [|done]. rewrite bool_decide_eq_true.
        intros Cy. apply call_no_output in Cy. congruence.
  - intros K S. destruct (P item k) as [_ A]; [apply In; by right|].
    specialize (A K S). apply list_elem_of_omap in A as (y & Y & Ky). apply list_elem_of_omap.
    exists y. split; [|done]. apply In in Y as [->|Y].
    + rewrite Ky in N. by rewrite bool_decide_eq_true_2 in N.
    + apply elem_of_filter_bool. split; [done|]. simpl. apply negb_true_iff, not_true_iff_false.
      unfold partner. destruct (call_key removed) as [k'|] eqn:R.
      * rewrite bool_decide_eq_true. intros Oy. apply call_no_output in Ky. congruence.
      * destruct (output_key removed) as [k'|] eqn:R'; [|done]. rewrite bool_decide_eq_true.
        intros Cy. simplify_eq.
        exact (NoDup_key_same output_key items removed rest item k E D' R' I K).
Qed.

(** In a history whose calls and outputs are paired and whose ids are not
    reused, removing the oldest or the newest item removes its partner and nothing
    else, and the history stays paired; only the removal of the newest counts as a
    rewrite. *)
Theorem removal_keeps_pairs (self : ContextManager) (W : well_paired (cm_items self)) :
  well_paired (cm_items (remove_first_item self)) ∧
  well_paired (cm_items (remove_last_item self).2) ∧
  (∀ oldest rest, cm_items self = oldest :: rest →
     remove_first_item self = set_items (without_partner oldest rest) self) ∧
  (∀ newest rest, cm_items self = rest ++ [newest] →
     remove_last_item self = (true, replace (without_partner newest rest) self)) ∧
  (cm_items self = [] → remove_first_item self = self ∧ remove_last_item self = (false, self)).
Proof.
  assert (S : ∀ removed rest, cm_items self ≡ₚ removed :: rest →
    remove_corresponding_for rest removed = without_partner removed rest ∧
    well_paired (without_partner removed rest)).
  { intros removed rest E. split; [|by eapply without_partner_well_paired].
    destruct W as (_ & C & O). unfold calls, outputs in C, O. rewrite E in C, O.
    apply NoDup_key_cons in C as [_ C]. apply NoDup_key_cons in O as [_ O].
    by apply remove_corresponding_for_spec. }
  assert (F : ∀ oldest rest, cm_items self = oldest :: rest →
     remove_first_item self = set_items (without_partner oldest rest) self).
  { intros oldest rest E. unfold remove_first_item. rewrite E.
    destruct (S oldest rest) as [-> _]; [by rewrite E|done]. }
  assert (L : ∀ newest rest, cm_items self = rest ++ [newest] →
     remove_last_item self = (true, replace (without_partner newest rest) self)).
  { intros newest rest E. unfold remove_last_item. rewrite E, last_snoc, removelast_last.
    destruct (S newest rest) as [-> _]; [rewrite E; by rewrite Permutation_app_comm|done]. }
  split_and!; [| |done|done|].
  - destruct (cm_items self) as [|oldest rest] eqn:E.
    + unfold remove_first_item. rewrite E. by rewrite E.
    + rewrite (F oldest rest) by done. simpl. by apply S.
  - destruct (decide (cm_items self = [])) as [E|(rest & newest & E)%exists_last].
    + unfold remove_last_item. rewrite E. simpl. exact W.
    + rewrite (L newest rest E). simpl. apply S. by rewrite E, Permutation_app_comm.
  - intros E. unfold remove_first_item, remove_last_item. by rewrite E.
Qed.

(** ** Rolling back *)

Section rollback.
Context `{HistoryEnv}.

(** The specification: the items before the turn of index [k]. *)
Fixpoint before_turn (k : nat) (items : list ResponseItem) : list ResponseItem :=
  match items with
  | [] => []
  | item :: rest =>
      if is_user_turn_boundary item
      then match k with 0 => [] | S k' => item :: before_turn k' rest end
      else item :: before_turn k rest
  end.

Definition turn_count (items : list ResponseItem) : nat :=
  length (List.filter is_user_turn_boundary items).

(** A message with which settings are announced before a turn. *)
Definition is_context_update (item : ResponseItem) : bool :=
  match item with
  | Message _ role content _ =>
      String.eqb role "developer" && is_contextual_dev_message_content content ||
      String.eqb role "user" && is_contextual_user_message_content content
  | _ => false
  end.

(** Such a message with other text. *)
Definition is_mixed_update (item : ResponseItem) : bool :=
  match item with
  | Message _ role content _ =>
      String.eqb role "developer" && is_contextual_dev_message_content content &&
      has_non_contextual_dev_message_content content
  | _ => false
  end.

(** [kept] is [full] without the context updates at its end, never shorter than
    [base]. *)
Definition trimmed_to (base full kept trimmed : list ResponseItem) : Prop :=
  base `prefix_of` kept ∧ full = kept ++ trimmed ∧
  Forall (λ item, is_context_update item = true) trimmed ∧
  (kept = base ∨ ∃ pre item, kept = pre ++ [item] ∧ is_context_update item = false).

Lemma boundary_no_update item : is_user_turn_boundary item = true → is_context_update item = false.
Proof.
  destruct item as [? role content ?| | | | | | | | | | | | | |]; try done. simpl.
  destruct (String.eqb_spec role "user") as [->|]; simpl.
  - destruct (is_contextual_user_message_content content); done.
  - destruct (String.eqb_spec role "assistant") as [->|]; done.
Qed.

Lemma trimmed_to_unique base full kept kept' trimmed trimmed' :
  trimmed_to base full kept trimmed → trimmed_to base full kept' trimmed' → kept = kept'.
Proof.
  assert (A : ∀ kept kept' trimmed trimmed', trimmed_to base full kept trimmed →
    trimmed_to base full kept' trimmed' → length kept' ≤ length kept).
  { clear. intros k k' t t' (B & E & F & _) (B' & E' & F' & L').
    destruct (decide (length k' ≤ length k)) as [|N]; [done|exfalso].
    rewrite E in E'. destruct L' as [->|(pre & x & -> & X)].
    { apply prefix_length in B. lia. }
    rewrite length_app in N. simpl in N.
    rewrite <- (assoc_L (++)) in E'.
    apply (f_equal (drop (length k))) in E'. rewrite drop_app_length, drop_app_le in E' by lia.
    rewrite E' in F. apply Forall_app in F as [_ F]. apply Forall_app in F as [F _].
    apply Forall_inv in F. simpl in F. congruence. }
  intros T T'. pose proof (A _ _ _ _ T T'). pose proof (A _ _ _ _ T' T).
  destruct T as (_ & E & _), T' as (_ & E' & _). rewrite E in E'.
  by apply app_inj_1 in E' as [-> _]; [|lia].
Qed.

(** *** Positions *)

Fixpoint positions {A : Type} (f : A → bool) (i : nat) (l : list A) : list nat :=
  match l with
  | [] => []
  | x :: l' => if f x then i :: positions f (S i) l' else positions f (S i) l'
  end.

Lemma imap_positions {A} (f : A → bool) l : ∀ i,
  omap (λ p, if f p.2 then Some p.1 else None) (imap (λ j x, (i + j, x)) l) = positions f i l.
Proof.
  induction l as [|x l IH]; intros i; [done|]. rewrite imap_cons. simpl. rewrite Nat.add_0_r.
  rewrite <- IH, (imap_ext _ (λ j x, (S i + j, x))) by (intros; simpl; f_equal; lia).
  by destruct (f x).
Qed.

Lemma user_message_positions_eq items :
  user_message_positions items = positions is_user_turn_boundary 0 items.
Proof. apply (imap_positions is_user_turn_boundary items 0). Qed.

Lemma length_positions {A} (f : A → bool) l : ∀ i, length (positions f i l) = length (List.filter f l).
Proof. induction l as [|x l IH]; intros i; simpl; [done|]. destruct (f x); simpl; by rewrite IH. Qed.

Lemma nth_position items : ∀ k i, k < turn_count items →
  ∃ p, nth k (positions is_user_turn_boundary i items) 0 = i + p ∧ p < length items ∧
       take p items = before_turn k items.
Proof.
  induction items as [|item rest IH]; intros k i; unfold turn_count in *; simpl; [lia|].
  destruct (is_user_turn_boundary item).
  - destruct k as [|k]; simpl; intros L; [exists 0; split_and!; [lia|lia|done]|].
    destruct (IH k (S i)) as (p & E & P & T); [lia|]. exists (S p). simpl. rewrite E, T.
    split_and!; [lia|lia|done].
  - intros L. destruct (IH k (S i) L) as (p & E & P & T). exists (S p). simpl. rewrite E, T.
    split_and!; [lia|lia|done].
Qed.

Lemma turn_count_before k items : turn_count (before_turn k items) = k `min` turn_count items.
Proof.
  revert k. unfold turn_count. induction items as [|item rest IH]; intros k; simpl; [lia|].
  destruct (is_user_turn_boundary item) eqn:B; [destruct k; simpl; [done|]|]; simpl;
    rewrite B; simpl; rewrite IH; lia.
Qed.

Lemma before_turn_all k items : turn_count items ≤ k → before_turn k items = items.
Proof.
  revert k. unfold turn_count. induction items as [|item rest IH]; intros k; simpl; [done|].
  destruct (is_user_turn_boundary item); simpl; [destruct k; [lia|]|]; intros L; rewrite IH; (done || lia).
Qed.

Lemma before_turn_app k l r : k < turn_count l → before_turn k (l ++ r) = before_turn k l.
Proof.
  revert k. unfold turn_count. induction l as [|item l IH]; intros k; simpl; [lia|].
  destruct (is_user_turn_boundary item); simpl; [destruct k; [done|]|]; intros L; rewrite IH; (done || lia).
Qed.

Lemma before_turn_before k j items : k ≤ j → before_turn k (before_turn j items) = before_turn k items.
Proof.
  revert k j. induction items as [|item rest IH]; intros k j L; simpl; [done|].
  destruct (is_user_turn_boundary item) eqn:B.
  - destruct j, k; simpl; rewrite ?B; try done; [lia|]. rewrite IH by lia. done.
  - simpl. rewrite B. by rewrite IH.
Qed.

Lemma before_turn_prefix k j items : k ≤ j → before_turn k items `prefix_of` before_turn j items.
Proof.
  revert k j. induction items as [|item rest IH]; intros k j L; simpl; [done|].
  destruct (is_user_turn_boundary item).
  - destruct k; [apply prefix_nil|]. destruct j; [lia|]. apply prefix_cons, IH. lia.
  - by apply prefix_cons, IH.
Qed.

Lemma turn_count_app l r : turn_count (l ++ r) = turn_count l + turn_count r.
Proof. unfold turn_count. by rewrite List.filter_app, length_app. Qed.

Lemma turn_count_updates l : Forall (λ item, is_context_update item = true) l → turn_count l = 0.
Proof.
  induction 1 as [|x l U _ IH]; [done|]. unfold turn_count in *. simpl.
  destruct (is_user_turn_boundary x) eqn:B; [|done]. apply boundary_no_update in B. simpl in U. congruence.
Qed.

(** *** Trimming *)

Lemma trim_spec items first reference : ∀ cut, first ≤ cut → cut ≤ length items →
  ∃ cut' trimmed,
    trim_pre_turn_context_updates items first cut reference =
      (cut', if existsb is_mixed_update trimmed then None else reference) ∧
    first ≤ cut' ∧ trimmed_to (take first items) (take cut items) (take cut' items) trimmed.
Proof.
  intros cut. revert reference. induction cut as [|cut IH]; intros reference F L; simpl.
  { exists 0, []. assert (first = 0) as -> by lia.
    split_and!; [done|done|]. split_and!; [done|done|done|by left]. }
  assert (Stop : (first = S cut ∨ ∃ pre x, take (S cut) items = pre ++ [x] ∧
                      is_context_update x = false) →
    ∃ cut' trimmed, (S cut, reference) =
        (cut', if existsb is_mixed_update trimmed then None else reference) ∧ first ≤ cut' ∧
      trimmed_to (take first items) (take (S cut) items) (take cut' items) trimmed).
  { intros E. exists (S cut), []. split_and!; [done|done|]. split_and!.
    - rewrite <- (Nat.min_l first (S cut)), <- take_take by lia. apply prefix_take.
    - by rewrite app_nil_r.
    - done.
    - destruct E as [->|E]; [by left|by right]. }
  assert (Go : ∀ x r, items !! cut = Some x → first ≤ cut → is_context_update x = true →
    r = (if is_mixed_update x then None else reference) →
    ∃ cut' trimmed, trim_pre_turn_context_updates items first cut r =
        (cut', if existsb is_mixed_update trimmed then None else reference) ∧ first ≤ cut' ∧
      trimmed_to (take first items) (take (S cut) items) (take cut' items) trimmed).
  { intros x r X F' U ->.
    destruct (IH (if is_mixed_update x then None else reference) F') as (c & t & E & C & (B & T & A & K));
      [lia|].
    exists c, (t ++ [x]). split_and!; [|done|split_and!; [done| | |done]].
    - rewrite E, existsb_app. simpl. f_equal.
      by destruct (existsb is_mixed_update t), (is_mixed_update x).
    - erewrite take_S_r by done. by rewrite T, (assoc_L (++)).
    - apply Forall_app. split; [done|]. by constructor. }
  destruct (Nat.ltb_spec first (S cut)) as [F'|F']; [|apply Stop; left; lia].
  destruct (lookup_lt_is_Some_2 items cut) as [x X]; [lia|]. rewrite X.
  assert (Keep : is_context_update x = false → ∃ pre x, take (S cut) items = pre ++ [x] ∧
                      is_context_update x = false).
  { intros U. exists (take cut items), x. split; [by apply take_S_r|done]. }
  destruct x as [id role content phase| | | | | | | | | | | | | |];
    try (apply Stop; right; by apply Keep).
  destruct (String.eqb role "developer" && is_contextual_dev_message_content content) eqn:D;
    [|destruct (String.eqb role "user" && is_contextual_user_message_content content) eqn:U].
  - apply (Go _ _ X); [lia|simpl; by rewrite D|]. simpl. by rewrite D.
  - apply (Go _ _ X); [lia|simpl; by rewrite U, orb_true_r|]. simpl. by rewrite D.
  - apply Stop. right. apply Keep. simpl. by rewrite D, U.
Qed.

Lemma drop_last_n_spec n self : (0 < n)%N →
  let items := cm_items self in let after := drop_last_n_user_turns n self in
  ∃ trimmed,
    trimmed_to (before_turn 0 items) (before_turn (turn_count items - N.to_nat n) items)
      (cm_items after) trimmed ∧
    reference_context_item after =
      (if existsb is_mixed_update trimmed then None else reference_context_item self) ∧
    history_version after = u64_sat_add (history_version self) 1 ∧
    token_info after = token_info self.
Proof.
  intros N items after. unfold after, drop_last_n_user_turns. rewrite (proj2 (N.eqb_neq n 0)) by lia.
  fold items. rewrite user_message_positions_eq.
  pose proof (length_positions is_user_turn_boundary items 0) as Len. fold (turn_count items) in Len.
  destruct (positions is_user_turn_boundary 0 items) as [|first more] eqn:P.
  - simpl in Len. exists []. simpl. rewrite before_turn_all by lia.
    rewrite before_turn_all by lia. split_and!; try done.
    split_and!; [done|by rewrite app_nil_r|done|by left].
  - destruct (nth_position items 0 0) as (p0 & E0 & L0 & T0); [rewrite <- Len; simpl; lia|].
    rewrite P in E0. simpl in E0. subst p0.
    assert (C : ∃ cut, (if length (first :: more) <=? N.to_nat n then first
        else nth (length (first :: more) - N.to_nat n) (first :: more) 0) = cut ∧
      first ≤ cut ∧ cut ≤ length items ∧
      take cut items = before_turn (turn_count items - N.to_nat n) items).
    { eexists. split; [done|]. rewrite Len. destruct (Nat.leb_spec (turn_count items) (N.to_nat n)) as [K|K].
      - replace (turn_count items - N.to_nat n) with 0 by lia. split_and!; [lia|lia|done].
      - destruct (nth_position items (turn_count items - N.to_nat n) 0) as (p & E & L & T); [lia|].
        rewrite P in E. rewrite E. simpl. split_and!; [|lia|done].
        pose proof (before_turn_prefix 0 (turn_count items - N.to_nat n) items ltac:(lia)) as Q.
        rewrite <- T, <- T0 in Q. apply prefix_length in Q. rewrite !length_take in Q. lia. }
    destruct C as (cut & -> & F & L & T).
    destruct (trim_spec items first (reference_context_item self) cut F L) as (c & t & E & _ & K).
    rewrite E. simpl. exists t. rewrite <- T, <- T0. done.
Qed.

Lemma trimmed_to_turns base full kept trimmed :
  trimmed_to base full kept trimmed → turn_count kept = turn_count full.
Proof.
  intros (_ & -> & F & _). rewrite turn_count_app, (turn_count_updates trimmed F). lia.
Qed.

Lemma drop_drop n m self : (0 < n)%N → (0 < m)%N →
  cm_items (drop_last_n_user_turns m (drop_last_n_user_turns n self)) =
  cm_items (drop_last_n_user_turns (n + m) self).
Proof.
  intros N M.
  destruct (drop_last_n_spec n self N) as (t & T & _).
  destruct (drop_last_n_spec m (drop_last_n_user_turns n self) M) as (t2 & T2 & _).
  destruct (drop_last_n_spec (n + m) self ltac:(lia)) as (t3 & T3 & _).
  set (after := drop_last_n_user_turns n self) in *.
  assert (K : turn_count (cm_items after) = turn_count (cm_items self) - N.to_nat n).
  { rewrite (trimmed_to_turns _ _ _ _ T), turn_count_before. lia. }
  assert (B : ∀ i, i ≤ turn_count (cm_items self) - N.to_nat n →
    i < turn_count (cm_items after) ∨ cm_items after = before_turn 0 (cm_items self) →
    before_turn i (cm_items after) = before_turn i (cm_items self)).
  { intros i I [J|J].
    - destruct T as (_ & E & _). rewrite <- (before_turn_app i _ t J), <- E.
      by apply before_turn_before.
    - rewrite J. assert (i = 0) as ->; [|by apply before_turn_before].
      rewrite J, turn_count_before in K. lia. }
  assert (Z : turn_count (cm_items after) = 0 → cm_items after = before_turn 0 (cm_items self)).
  { intros E. rewrite E in K. rewrite <- K in T. destruct T as ([x Q] & F & _).
    rewrite Q in F at 1. rewrite <- (app_nil_r (before_turn 0 _)) in F at 1.
    rewrite <- (assoc_L (++)) in F. apply app_inv_head in F. symmetry in F.
    apply app_nil in F as [-> _]. by rewrite app_nil_r in Q. }
  assert (J : ∀ i, i = 0 ∨ i < turn_count (cm_items after) →
    i < turn_count (cm_items after) ∨ cm_items after = before_turn 0 (cm_items self)).
  { intros i I. destruct (decide (turn_count (cm_items after) = 0)); [right; auto|left; lia]. }
  rewrite (B 0), (B (turn_count (cm_items after) - N.to_nat m)) in T2 by (try apply J; lia).
  rewrite K in T2. replace (turn_count (cm_items self) - N.to_nat (n + m)) with
    (turn_count (cm_items self) - N.to_nat n - N.to_nat m) in T3 by lia.
  exact (trimmed_to_unique _ _ _ _ _ _ T2 T3).
Qed.

(** C18: Rolling back [n] turns keeps what precedes the first of the turns it drops,
    without the context updates that announce that turn (and never less than what
    precedes the first turn of all); exactly [n] turns are gone, or all of them; the
    reference context is forgotten exactly when a trimmed update carried other text;
    and rolling back twice is rolling back the sum. *)
Theorem rollback_drops_turns (n : N) (self : ContextManager) :
  let items := cm_items self in let after := drop_last_n_user_turns n self in
  turn_count (cm_items after) = turn_count items - N.to_nat n ∧
  (∀ m, cm_items (drop_last_n_user_turns m after) = cm_items (drop_last_n_user_turns (n + m) self)) ∧
  ((n = 0)%N → after = self) ∧
  ((n ≠ 0)%N → ∃ trimmed,
     trimmed_to (before_turn 0 items) (before_turn (turn_count items - N.to_nat n) items)
       (cm_items after) trimmed ∧
     reference_context_item after =
       (if existsb is_mixed_update trimmed then None else reference_context_item self) ∧
     history_version after = u64_sat_add (history_version self) 1 ∧
     token_info after = token_info self).
Proof.
  intros items after. destruct (decide (n = 0)%N) as [->|N].
  { replace after with self by done. split_and!; [unfold items; lia|done|done|done]. }
  destruct (drop_last_n_spec n self ltac:(lia)) as (t & T & R). split_and!; [| |done|].
  - fold after items in T. rewrite (trimmed_to_turns _ _ _ _ T), turn_count_before. lia.
  - intros m. destruct (decide (m = 0)%N) as [->|M]; [by rewrite N.add_0_r|].
    apply drop_drop; lia.
  - intros _. by exists t.
Qed.
End rollback.

(** A call and its output, recorded. *)
Definition demo_calls : ContextManager :=
  set_items
    [Message None "user" [InputText "list the files"] None;
     FunctionCall None "shell" None "{}" "call-1";
     FunctionCallOutput "call-1" (payload_from_text "a.txt")] ContextManager_new.

Lemma removal_keeps_pairs_witness :
  well_paired (cm_items demo_calls) ∧
  well_paired (cm_items (remove_last_item demo_calls).2) ∧
  (remove_last_item demo_calls).2 =
    replace [Message None "user" [InputText "list the files"] None] demo_calls.
Proof.
  assert (W : well_paired (cm_items demo_calls)).
  { split_and!; [|apply (bool_decide_unpack _); vm_compute; exact I
                 |apply (bool_decide_unpack _); vm_compute; exact I].
    intros item k I. repeat (apply elem_of_cons in I as [->|I]); [..|by apply elem_of_nil in I];
      (split; [intros [= <-]; apply (bool_decide_unpack _); vm_compute; exact Logic.I
              |intros [= <-] _; apply (bool_decide_unpack _); vm_compute; exact Logic.I]). }
  destruct (removal_keeps_pairs demo_calls W) as (_ & L & _ & N & _).
  split; [exact W|]. split; [exact L|]. by rewrite (N _ [_; _] eq_refl).
Defined.
