(* ===== verification/RolloutProps.v ===== *)
(** * Resumed histories

    The history rebuilt when a thread is resumed is the one that was built while
    it ran, as long as no rollback drops a turn that compacted; the positions of
    turns in the record follow the turns of the history. *)

From S2P Require Import Prelude RustStr FsModel Truncate History HistoryProps Rollout.

Section rollout.
Context `{HistoryEnv} (p : TruncationPolicy).

(** ** The replay of a record

    The specification: every item applied in the order it was recorded. *)
Definition replay_all (rollout_items : list RolloutItem) : list ResponseItem :=
  cm_items (foldl (replay_item p) (ContextManager_new, false) rollout_items).1.

Definition is_replacement (item : RolloutItem) : bool :=
  match item with
  | Compacted c => match replacement_history c with Some _ => true | None => false end
  | _ => false
  end.

Definition is_rollback (item : RolloutItem) : bool :=
  match item with RolloutEventMsg (ThreadRolledBack n) => (0 <? n)%N | _ => false end.

(** The items of the next history depend on those of the last alone. *)
Lemma replay_item_items acc acc' item :
  cm_items acc.1 = cm_items acc'.1 →
  cm_items (replay_item p acc item).1 = cm_items (replay_item p acc' item).1.
Proof.
  destruct acc as [h b], acc' as [h' b']. simpl. intros E. destruct item as [|r|c| |[]]; simpl; try done.
  - by rewrite E.
  - destruct (replacement_history c); simpl; [done|by rewrite E].
  - destruct (decide (num_turns = 0)%N) as [->|N]; [done|].
    destruct (drop_last_n_spec num_turns h ltac:(lia)) as (t & T & _).
    destruct (drop_last_n_spec num_turns h' ltac:(lia)) as (t' & T' & _).
    rewrite E in T. exact (trimmed_to_unique _ _ _ _ _ _ T T').
Qed.

Lemma replay_items items : ∀ acc acc', cm_items acc.1 = cm_items acc'.1 →
  cm_items (foldl (replay_item p) acc items).1 = cm_items (foldl (replay_item p) acc' items).1.
Proof.
  induction items as [|item items IH]; intros acc acc' E; [done|]. simpl.
  apply IH. by apply replay_item_items.
Qed.

(** From a replacement on, what came before does not matter. *)
Lemma replay_replacement items acc acc' : existsb is_replacement items = true →
  cm_items (foldl (replay_item p) acc items).1 = cm_items (foldl (replay_item p) acc' items).1.
Proof.
  revert acc acc'. induction items as [|item items IH]; intros acc acc'; [done|]. simpl.
  destruct (is_replacement item) eqn:R; [|apply IH]. intros _. apply replay_items.
  destruct item as [| |c| |]; try done. simpl in R.
  destruct acc, acc'. simpl. by destruct (replacement_history c).
Qed.

(** ** The reverse scan *)

(** The bases of the scan. *)
Definition base_of (st : ReverseScan) : option (list ResponseItem) := base_replacement_history st.
Definition seg_base (st : ReverseScan) : option (list ResponseItem) :=
  active_segment st ≫= seg_base_replacement_history.

(** The invariant of the scan: [items] is the record, [newer] what was seen. *)
Definition scan_inv (items newer : list RolloutItem) (st : ReverseScan) : Prop :=
  (existsb is_replacement newer = false ∧ rollout_suffix st = items ∧ base_of st = None ∧
   seg_base st = None) ∨
  (∃ x c base, newer = x ++ Compacted c :: rollout_suffix st ∧ replacement_history c = Some base ∧
     (existsb is_replacement (rollout_suffix st) = true ∨
      (base_of st = None ∨ base_of st = Some base) ∧ (seg_base st = None ∨ seg_base st = Some base))).

Lemma scan_inv_same items newer st st' item :
  scan_inv items newer st → is_replacement item = false → rollout_suffix st' = rollout_suffix st →
  (base_of st' = base_of st ∨ base_of st = None ∧ base_of st' = seg_base st) →
  (seg_base st' = None ∨ seg_base st' = seg_base st) → scan_inv items (item :: newer) st'.
Proof.
  intros [(R & S & B & G)|(x & c & base & E & C & D)] I Su Ba Se.
  - left. simpl. rewrite I, R, Su. naive_solver congruence.
  - right. exists (item :: x), c, base. rewrite Su, E. split_and!; [done|done|].
    destruct D as [D|[D1 D2]]; [by left|right]. naive_solver congruence.
Qed.

Lemma finalize_inv seg st :
  rollout_suffix (finalize_active_segment seg st) = rollout_suffix st ∧
  (base_of (finalize_active_segment seg st) = base_of st ∨
   base_of st = None ∧ base_of (finalize_active_segment seg st) = seg_base_replacement_history seg) ∧
  active_segment (finalize_active_segment seg st) = active_segment st.
Proof.
  unfold finalize_active_segment, base_of. destruct (0 <? pending_rollback_turns st)%N.
  - destruct (counts_as_user_turn seg); simpl; split_and!; (done || by left).
  - simpl. destruct (base_replacement_history st); split_and!; (done || (by left) || by right).
Qed.

Lemma scan_compacted_inv items c newer st :
  scan_inv items newer st → scan_inv items (Compacted c :: newer) (scan_item (Compacted c) newer st).
Proof.
  intros I. simpl.
  assert (G : seg_base_replacement_history (default segment_default (active_segment st)) = seg_base st)
    by (unfold seg_base; by destruct (active_segment st)).
  rewrite G. destruct (seg_base st) as [b|] eqn:S.
  - destruct I as [(_ & _ & _ & N)|(x & d & base & E & C & D)]; [congruence|].
    right. exists (Compacted c :: x), d, base. unfold base_of, seg_base in *. simpl. rewrite E, G.
    split_and!; [done|done|]. naive_solver.
  - destruct (replacement_history c) as [base|] eqn:R.
    + right. exists [], c, base. unfold base_of, seg_base. simpl. split_and!; [done|done|].
      destruct I as [(N & _ & B & _)|(x & d & base' & E & C & D)].
      * right. unfold base_of in B. rewrite B. auto.
      * left. rewrite E, existsb_app. simpl. by rewrite C, orb_true_r.
    + eapply scan_inv_same; [done|simpl; by rewrite R|done|by left|]. left.
      unfold seg_base. simpl. by rewrite G.
Qed.

Lemma scan_item_inv items item newer st :
  scan_inv items newer st → scan_inv items (item :: newer) (scan_item item newer st).
Proof.
  intros I. destruct item as [|r|c|ctx|e]; simpl.
  - eapply scan_inv_same; eauto.
  - eapply scan_inv_same; eauto. unfold seg_base. simpl. destruct (active_segment st); simpl; auto.
  - by apply scan_compacted_inv.
  - eapply scan_inv_same; eauto. unfold seg_base. simpl.
    destruct (active_segment st); simpl; repeat case_match; simpl; auto.
  - destruct e as [n|id|id|id| |].
    + eapply scan_inv_same; eauto.
    + destruct (active_segment st) as [seg|] eqn:A; [|eapply scan_inv_same; eauto].
      destruct (turn_ids_are_compatible _ _); [|eapply scan_inv_same; eauto].
      destruct (finalize_inv seg (set_segment None st)) as (S & B & G).
      eapply scan_inv_same; eauto; unfold seg_base; rewrite ?G, ?A; simpl; auto.
    + eapply scan_inv_same; eauto. unfold seg_base. simpl. destruct (active_segment st); simpl; auto.
    + destruct (active_segment st) as [seg|] eqn:A; [|destruct id];
        (eapply scan_inv_same; eauto; unfold seg_base; simpl; rewrite ?A; simpl; auto).
    + eapply scan_inv_same; eauto. unfold seg_base. simpl. destruct (active_segment st); simpl; auto.
    + eapply scan_inv_same; eauto.
Qed.

Lemma reverse_scan_go_inv items older : ∀ newer st,
  scan_inv items newer st → reverse older ++ newer = items →
  ∃ older' newer', reverse older' ++ newer' = items ∧
    scan_inv items newer' (reverse_scan_go older newer st).
Proof.
  induction older as [|item older IH]; intros newer st I E; simpl; [by exists [], newer|].
  rewrite reverse_cons, <- (assoc_L (++)) in E.
  destruct (scan_is_complete _); [|apply IH; [by apply scan_item_inv|done]].
  exists older, (item :: newer). split; [done|]. by apply scan_item_inv.
Qed.

(** What the scan found. *)
Lemma reverse_scan_inv items :
  ∃ older newer, older ++ newer = items ∧ scan_inv items newer (reverse_scan items).
Proof.
  destruct (reverse_scan_go_inv items (reverse items) [] (scan_start items)) as (o & n & E & I).
  { left. done. }
  { by rewrite reverse_involutive, app_nil_r. }
  exists (reverse o), n. split; [done|]. unfold reverse_scan.
  set (st := reverse_scan_go _ _ _) in *. destruct (active_segment st) as [seg|] eqn:A; [|done].
  destruct (finalize_inv seg (set_segment None st)) as (S & B & G). simpl in S, G.
  assert (B' : base_of (finalize_active_segment seg (set_segment None st)) = base_of st ∨
    base_of st = None ∧ base_of (finalize_active_segment seg (set_segment None st)) = seg_base st).
  { unfold seg_base. rewrite A. exact B. }
  assert (G' : seg_base (finalize_active_segment seg (set_segment None st)) = None)
    by (unfold seg_base; by rewrite G).
  destruct I as [(R & Su & Ba & Se)|(x & c & base & En & C & D)].
  - left. rewrite G', S. split_and!; [done|done| |done]. destruct B' as [->|[_ ->]]; done.
  - right. exists x, c, base. rewrite G', S. split_and!; [done|done|].
    destruct D as [D|[D1 D2]]; [by left|right]. split; [|by left].
    destruct B' as [->|[_ ->]]; done.
Qed.

Lemma reconstruct_items items :
  base_replacement_history (reverse_scan items) ≠ None ∨ existsb is_replacement items = false →
  rr_history (reconstruct_history_from_rollout p items) = replay_all items.
Proof.
  intros H0. destruct (reverse_scan_inv items) as (older & newer & E & I).
  unfold reconstruct_history_from_rollout, replay_all.
  set (st := reverse_scan items) in *. clearbody st.
  destruct (foldl _ _ (rollout_suffix st)) as [h l] eqn:F. simpl.
  apply (f_equal (λ r, cm_items r.1)) in F. simpl in F. rewrite <- F.
  destruct I as [(R & S & B & _)|(x & c & base & En & C & D)].
  - unfold base_of in B. by rewrite S, B.
  - destruct H0 as [H0|H0].
    2:{ rewrite <- E, En, !existsb_app in H0. simpl in H0. rewrite C in H0.
        by rewrite !orb_true_r in H0. }
    rewrite <- E, En, !foldl_app. simpl.
    destruct D as [D|[D _]]; [by apply replay_replacement|]. apply replay_items.
    destruct (foldl _ _ x) as [h' l']. simpl. rewrite C. unfold base_of in D.
    destruct D as [D|D]; [by rewrite D in H0|by rewrite D].
Qed.

(** Without rollbacks the scan keeps the newest replacement. *)
Definition keeps_base (newer : list RolloutItem) (st : ReverseScan) : Prop :=
  pending_rollback_turns st = 0%N ∧
  (existsb is_replacement newer = true → base_of st ≠ None ∨ seg_base st ≠ None).

Lemma finalize_no_rollback seg st : pending_rollback_turns st = 0%N →
  pending_rollback_turns (finalize_active_segment seg st) = 0%N ∧
  (base_of st ≠ None ∨ seg_base_replacement_history seg ≠ None →
   base_of (finalize_active_segment seg st) ≠ None).
Proof.
  intros P. unfold finalize_active_segment, base_of. rewrite P. simpl. split; [done|].
  destruct (base_replacement_history st); naive_solver.
Qed.

Lemma keeps_base_same newer st st' item :
  keeps_base newer st → is_replacement item = false → pending_rollback_turns st' = 0%N →
  base_of st' = base_of st → seg_base st' = seg_base st → keeps_base (item :: newer) st'.
Proof. intros [P K] R P' B S. split; [done|]. simpl. by rewrite R, B, S. Qed.

Lemma scan_item_keeps newer st item : is_rollback item = false →
  keeps_base newer st → keeps_base (item :: newer) (scan_item item newer st).
Proof.
  intros R K. pose proof K as [P _]. destruct item as [|r|c|ctx|e]; simpl.
  - eapply keeps_base_same; eauto.
  - eapply keeps_base_same; eauto. unfold seg_base. simpl. by destruct (active_segment st).
  - assert (G : seg_base_replacement_history (default segment_default (active_segment st)) = seg_base st)
      by (unfold seg_base; by destruct (active_segment st)).
    rewrite G. destruct (seg_base st) as [b|] eqn:S.
    + split; [done|]. intros _. right. unfold seg_base. simpl. by rewrite G.
    + destruct (replacement_history c) eqn:C; [by split; [|right]|].
      eapply keeps_base_same; eauto; [simpl; by rewrite C|]. unfold seg_base at 1. simpl. by rewrite G.
  - eapply keeps_base_same; eauto. unfold seg_base. simpl.
    destruct (active_segment st); simpl; by repeat case_match.
  - destruct e as [n|id|id|id| |].
    + simpl in R. apply N.ltb_ge in R. assert (n = 0%N) as -> by lia.
      eapply keeps_base_same; eauto. simpl. by rewrite P.
    + destruct (active_segment st) as [seg|] eqn:A; [|by eapply keeps_base_same].
      destruct (turn_ids_are_compatible _ _); [|by eapply keeps_base_same].
      destruct (finalize_no_rollback seg (set_segment None st)) as [P' B]; [done|].
      split; [done|]. simpl. intros E. left. apply B. destruct K as [_ K].
      destruct (K E) as [K'|K']; [by left|right]. unfold seg_base in K'. by rewrite A in K'.
    + eapply keeps_base_same; eauto. unfold seg_base. simpl. by destruct (active_segment st).
    + destruct (active_segment st) as [seg|] eqn:A; [|destruct id];
        (eapply keeps_base_same; eauto; unfold seg_base; simpl; by rewrite ?A).
    + eapply keeps_base_same; eauto. unfold seg_base. simpl. by destruct (active_segment st).
    + by eapply keeps_base_same.
Qed.

Lemma reverse_scan_go_keeps older : ∀ newer st, existsb is_rollback older = false →
  keeps_base newer st →
  let st' := reverse_scan_go older newer st in
  base_of st' ≠ None ∨ keeps_base (reverse older ++ newer) st'.
Proof.
  induction older as [|item older IH]; intros newer st R K; simpl; [by right|].
  simpl in R. apply orb_false_iff in R as [R1 R2].
  pose proof (scan_item_keeps newer st item R1 K) as K'.
  destruct (scan_is_complete _) eqn:C.
  - left. unfold scan_is_complete in C. unfold base_of. by destruct (base_replacement_history _).
  - rewrite reverse_cons, <- (assoc_L (++)). by apply IH.
Qed.

Lemma existsb_reverse {A} (f : A → bool) l : existsb f (reverse l) = existsb f l.
Proof.
  induction l as [|x l IH]; [done|]. rewrite reverse_cons, existsb_app, IH. simpl.
  rewrite orb_false_r. apply orb_comm.
Qed.

Lemma reverse_scan_keeps items :
  existsb is_rollback items = false → existsb is_replacement items = true →
  base_replacement_history (reverse_scan items) ≠ None.
Proof.
  intros R E. unfold reverse_scan.
  destruct (reverse_scan_go_keeps (reverse items) [] (scan_start items)) as [B|[P K]].
  { by rewrite existsb_reverse. }
  { by split. }
  - destruct (active_segment _) as [seg|]; [|done].
    destruct (finalize_inv seg (set_segment None (reverse_scan_go (reverse items) [] (scan_start items))))
      as (_ & [B'|[N _]] & _); unfold base_of in *; simpl in *; congruence.
  - rewrite reverse_involutive, app_nil_r in K. specialize (K E). unfold seg_base in K.
    destruct (active_segment _) as [seg|]; [|by destruct K].
    by apply (finalize_no_rollback seg (set_segment None _) P).
Qed.

(** C17: Reading the record backwards for the newest replaced history and playing
    only what follows it gives the history that playing the whole record gives,
    whenever the scan kept a replaced history, or no compaction recorded one, or no
    rollback was recorded. *)
Theorem reconstruction_replays (items : list RolloutItem)
    (K : base_replacement_history (reverse_scan items) ≠ None ∨
         existsb is_replacement items = false ∨ existsb is_rollback items = false) :
  rr_history (reconstruct_history_from_rollout p items) = replay_all items.
Proof.
  apply reconstruct_items. destruct (existsb is_replacement items) eqn:E; [left|by right].
  destruct K as [K|[K|K]]; [done|done|]. by apply reverse_scan_keeps.
Qed.

(** ** The turns of a record *)

Definition is_fork_boundary (item : ResponseItem) : bool :=
  is_real_user_message_boundary item || is_trigger_turn_boundary item.

Lemma fork_is_turn item : is_fork_boundary item = true → is_user_turn_boundary item = true.
Proof.
  unfold is_fork_boundary, is_real_user_message_boundary, is_trigger_turn_boundary,
    is_user_turn_boundary, is_inter_agent_instruction_content.
  destruct item as [id role content phase| | | | | | | | | | | | | |]; try done. simpl.
  destruct (String.eqb_spec role "user") as [->|]; simpl.
  - rewrite orb_false_r. unfold parse_user_message.
    destruct (parse_visible_hook_prompt_message content); [done|].
    by destruct (is_contextual_user_message_content content).
  - destruct (String.eqb_spec role "assistant") as [->|]; simpl; [|done].
    by destruct (from_message_content content).
Qed.

Lemma process_boundary item :
  is_user_turn_boundary (process_item item p) = is_user_turn_boundary item ∧
  (is_user_turn_boundary item = true → process_item item p = item ∧ is_api_message item = true).
Proof.
  destruct item as [id role content phase| | | | | | | | | | | | | |]; try (split; done).
  split; [done|]. intros B. split; [done|]. simpl in *.
  destruct (String.eqb_spec role "system") as [->|]; [|done]. done.
Qed.

Lemma record_boundary item :
  List.filter is_user_turn_boundary (map (λ item, process_item item p) (List.filter is_api_message [item]))
  = if is_user_turn_boundary item then [item] else [].
Proof.
  destruct (process_boundary item) as [E B]. simpl.
  destruct (is_user_turn_boundary item) eqn:U.
  - destruct (B eq_refl) as [P ->]. simpl. by rewrite P, U.
  - destruct (is_api_message item); [|done]. simpl. by rewrite E.
Qed.

Lemma filter_before_turn k items :
  List.filter is_user_turn_boundary (before_turn k items) =
  take k (List.filter is_user_turn_boundary items).
Proof.
  revert k. induction items as [|item rest IH]; intros k; simpl; [by rewrite take_nil|].
  destruct (is_user_turn_boundary item) eqn:B; [destruct k; [done|]|]; simpl; by rewrite B, IH.
Qed.

Lemma rollback_turns n self :
  List.filter is_user_turn_boundary (cm_items (drop_last_n_user_turns n self)) =
  drop_last n (List.filter is_user_turn_boundary (cm_items self)).
Proof.
  unfold drop_last. destruct (decide (n = 0)%N) as [->|N].
  { unfold drop_last_n_user_turns. simpl. rewrite Nat.sub_0_r. by rewrite firstn_all. }
  destruct (drop_last_n_spec n self ltac:(lia)) as (t & (_ & E & F & _) & _).
  apply (f_equal (List.filter is_user_turn_boundary)) in E.
  rewrite filter_before_turn, List.filter_app in E. unfold turn_count in E. rewrite E.
  apply turn_count_updates in F. unfold turn_count in F. apply length_zero_iff_nil in F.
  by rewrite F, app_nil_r.
Qed.

Lemma filter_below rp j start : StronglySorted lt rp → rp !! j = Some start →
  List.filter (λ position, position <? start) rp = take j rp.
Proof.
  revert j. induction rp as [|x rp IH]; intros j S L; [done|].
  apply StronglySorted_inv in S as [S F]. rewrite List.Forall_forall in F.
  destruct j as [|j]; simpl in *; simplify_eq.
  - rewrite Nat.ltb_irrefl. apply filter_none. intros y Y.
    apply list_elem_of_In in Y. specialize (F y Y). apply Nat.ltb_ge. lia.
  - assert (x < start) as X%Nat.ltb_lt by (apply F; apply list_elem_of_In; by eapply list_elem_of_lookup_2).
    rewrite X. f_equal. by apply IH.
Qed.

Lemma filter_comm {A} (f g : A → bool) l :
  List.filter f (List.filter g l) = List.filter g (List.filter f l).
Proof.
  induction l as [|x l IH]; [done|]. simpl.
  destruct (f x) eqn:F, (g x) eqn:G; simpl; rewrite ?F, ?G, IH; done.
Qed.

(** The item of a record is a turn of the given kind. *)
Definition turn_at (f : ResponseItem → bool) (items : list RolloutItem) (i : nat) : bool :=
  match items !! i with Some (RolloutResponseItem r) => f r | _ => false end.

(** What [fork_turn_positions_in_rollout] maintains. *)
Definition positions_inv (items : list RolloutItem) (acc : list nat * list nat) : Prop :=
  StronglySorted lt acc.1 ∧ Forall (λ i, i < length items) acc.1 ∧
  map (λ i, items !! i) acc.1 =
    map (Some ∘ RolloutResponseItem) (List.filter is_user_turn_boundary (replay_all items)) ∧
  acc.2 = List.filter (turn_at is_fork_boundary items) acc.1.

Lemma turns_snoc items x rp : Forall (λ i, i < length items) rp →
  map (λ i, (items ++ [x]) !! i) rp = map (λ i, items !! i) rp ∧
  List.filter (turn_at is_fork_boundary (items ++ [x])) rp =
  List.filter (turn_at is_fork_boundary items) rp ∧
  Forall (λ i, i < length (items ++ [x])) rp.
Proof.
  induction 1 as [|i rp L _ (IH1 & IH2 & IH3)]; [done|]. simpl.
  assert (E : (items ++ [x]) !! i = items !! i) by by apply lookup_app_l.
  split_and!.
  - by rewrite E, IH1.
  - rewrite IH2. unfold turn_at at 1 3. by rewrite E.
  - constructor; [|done]. rewrite length_app. simpl. lia.
Qed.

Lemma replay_all_snoc items x :
  replay_all (items ++ [x]) =
  cm_items (replay_item p (foldl (replay_item p) (ContextManager_new, false) items) x).1.
Proof. unfold replay_all. by rewrite foldl_app. Qed.

Lemma positions_inv_same items x acc :
  positions_inv items acc → replay_all (items ++ [x]) = replay_all items →
  positions_inv (items ++ [x]) acc.
Proof.
  intros (S & F & M & E) R. destruct (turns_snoc items x acc.1 F) as (T1 & T2 & T3).
  split_and!; [done|done| |]; by rewrite ?T1, ?T2, ?R.
Qed.

Lemma positions_inv_turn items r acc :
  positions_inv items acc →
  positions_inv (items ++ [RolloutResponseItem r])
    (fork_position_step acc (length items, RolloutResponseItem r)).
Proof.
  intros (S & F & M & E). destruct acc as [rp fp]. simpl in *. subst fp.
  destruct (turns_snoc items (RolloutResponseItem r) rp F) as (T1 & T2 & T3).
  assert (B : List.filter is_user_turn_boundary (replay_all (items ++ [RolloutResponseItem r])) =
    List.filter is_user_turn_boundary (replay_all items) ++ (if is_user_turn_boundary r then [r] else [])).
  { rewrite replay_all_snoc. unfold replay_all. destruct (foldl _ _ items) as [h l]. simpl replay_item.
    simpl fst. unfold record_items, set_items. simpl cm_items.
    rewrite List.filter_app. f_equal. apply record_boundary. }
  assert (Last : (items ++ [RolloutResponseItem r]) !! length items = Some (RolloutResponseItem r)).
  { by rewrite lookup_app_r, Nat.sub_diag by lia. }
  assert (TA : turn_at is_fork_boundary (items ++ [RolloutResponseItem r]) (length items) =
    is_fork_boundary r) by (unfold turn_at; by rewrite Last).
  pose proof (fork_is_turn r) as FT. fold (is_fork_boundary r).
  unfold positions_inv. rewrite B. simpl. destruct (is_user_turn_boundary r).
  - split_and!.
    + apply StronglySorted_app_2; [|done|repeat constructor].
      intros a b A ->%list_elem_of_singleton. rewrite Forall_forall in F. by apply F.
    + apply Forall_app. split; [done|]. constructor; [|done]. rewrite length_app. simpl. lia.
    + rewrite !map_app, T1, M. simpl. by rewrite Last.
    + rewrite List.filter_app, T2. simpl. rewrite TA.
      destruct (is_fork_boundary r); [done|by rewrite app_nil_r].
  - rewrite app_nil_r. destruct (is_fork_boundary r); [by specialize (FT eq_refl)|].
    split_and!; [done|done| |]; by rewrite ?T1, ?T2.
Qed.

Lemma positions_inv_rollback items n acc :
  positions_inv items acc →
  positions_inv (items ++ [RolloutEventMsg (ThreadRolledBack n)])
    (fork_position_step acc (length items, RolloutEventMsg (ThreadRolledBack n))).
Proof.
  intros (S & F & M & E). destruct acc as [rp fp]. simpl in *. subst fp.
  set (x := RolloutEventMsg (ThreadRolledBack n)).
  assert (B : List.filter is_user_turn_boundary (replay_all (items ++ [x])) =
    drop_last n (List.filter is_user_turn_boundary (replay_all items))).
  { rewrite replay_all_snoc. unfold replay_all. destruct (foldl _ _ items) as [h l].
    apply rollback_turns. }
  assert (L : length (List.filter is_user_turn_boundary (replay_all items)) = length rp).
  { apply (f_equal length) in M. by rewrite !length_map in M. }
  set (j := length rp - N.to_nat n).
  assert (K : positions_inv (items ++ [x])
    (take j rp, List.filter (turn_at is_fork_boundary items) (take j rp))).
  { destruct (turns_snoc items x (take j rp)) as (T1 & T2 & T3); [by apply Forall_take|].
    unfold positions_inv. simpl. rewrite B, T1, T2. split_and!; [|done| |done].
    - rewrite <- (take_drop j rp) in S. by apply StronglySorted_app_1_l in S.
    - unfold drop_last. rewrite L. fold j. by rewrite <- !firstn_map, M. }
  destruct (N.eqb_spec n 0) as [->|N].
  { unfold j in K. rewrite Nat.sub_0_r, firstn_all in K. exact K. }
  assert (Start : (if N.to_nat n <=? length rp then rp !! j else head rp) = rp !! j).
  { destruct (Nat.leb_spec (N.to_nat n) (length rp)); [done|].
    unfold j. replace (length rp - N.to_nat n) with 0 by lia. by destruct rp. }
  fold j. rewrite Start. unfold drop_last. fold j. destruct (rp !! j) as [start|] eqn:J.
  - rewrite filter_comm, (filter_below rp j) by done. exact K.
  - apply lookup_ge_None in J. unfold j in J. destruct rp; [|simpl in J; lia]. exact K.
Qed.

Lemma fork_positions_inv items :
  Forall (λ item, match item with Compacted _ => False | _ => True end) items →
  positions_inv items (foldl fork_position_step ([], []) (imap pair items)).
Proof.
  induction items as [|x items IH] using rev_ind; intros F.
  { split_and!; [constructor|done|done|done]. }
  apply Forall_app in F as [F X]. apply Forall_inv in X. specialize (IH F).
  rewrite imap_app, foldl_app. simpl. rewrite Nat.add_0_r.
  assert (Same : replay_all (items ++ [x]) = replay_all items →
    fork_position_step (foldl fork_position_step ([], []) (imap pair items)) (length items, x) =
    foldl fork_position_step ([], []) (imap pair items) →
    positions_inv (items ++ [x])
      (fork_position_step (foldl fork_position_step ([], []) (imap pair items)) (length items, x))).
  { intros R ->. by apply positions_inv_same. }
  assert (R0 : replay_all (items ++ [x]) =
    cm_items (replay_item p (foldl (replay_item p) (ContextManager_new, false) items) x).1)
    by apply replay_all_snoc.
  assert (RI : replay_all items = cm_items (foldl (replay_item p) (ContextManager_new, false) items).1)
    by done.
  rewrite RI in Same. clear RI. revert R0 Same. destruct (foldl (replay_item p) _ items) as [h l].
  destruct (foldl fork_position_step _ _) as [rp fp].
  intros R0 Same. destruct x as [|r|c| |e]; [by apply Same| |done|by apply Same|].
  - by apply positions_inv_turn.
  - destruct e as [n| | | | |]; try by apply Same. by apply positions_inv_rollback.
Qed.

Lemma filter_map_positions items rp turns :
  map (λ i, items !! i) rp = map (Some ∘ RolloutResponseItem) turns →
  map (λ i, items !! i) (List.filter (turn_at is_fork_boundary items) rp) =
  map (Some ∘ RolloutResponseItem) (List.filter is_fork_boundary turns).
Proof.
  revert turns. induction rp as [|i rp IH]; intros [|r turns]; simpl; try done.
  intros [= E M]. unfold turn_at at 1. rewrite E. destruct (is_fork_boundary r); simpl; [rewrite E; f_equal|];
    by apply IH.
Qed.

(** The turns of a history that a fork counts. *)
Definition fork_turns (items : list ResponseItem) : list ResponseItem :=
  List.filter is_fork_boundary (List.filter is_user_turn_boundary items).

(** In a record without compactions, the positions counted for a fork are, in
    order, those of the turns of the replayed history; and a fork that asks for the
    last [n] turns starts at the [n]-th last turn of that history, or is the whole
    record when there are no more. *)
Theorem fork_positions_follow_history (items : list RolloutItem) (n : N)
    (F : Forall (λ item, match item with Compacted _ => False | _ => True end) items) :
  map (λ i, items !! i) (fork_turn_positions_in_rollout items) =
    map (Some ∘ RolloutResponseItem) (fork_turns (replay_all items)) ∧
  (n ≠ 0%N → length (fork_turns (replay_all items)) ≤ N.to_nat n →
     truncate_rollout_to_last_n_fork_turns items n = items) ∧
  (n ≠ 0%N → N.to_nat n < length (fork_turns (replay_all items)) →
     ∃ older turn newer, items = older ++ RolloutResponseItem turn :: newer ∧
       truncate_rollout_to_last_n_fork_turns items n = RolloutResponseItem turn :: newer ∧
       fork_turns (replay_all items) !! (length (fork_turns (replay_all items)) - N.to_nat n) =
         Some turn).
Proof.
  pose proof (fork_positions_inv items F) as (_ & _ & M & E).
  assert (P : map (λ i, items !! i) (fork_turn_positions_in_rollout items) =
    map (Some ∘ RolloutResponseItem) (fork_turns (replay_all items))).
  { unfold fork_turn_positions_in_rollout. rewrite E. by apply filter_map_positions. }
  assert (Len : length (fork_turn_positions_in_rollout items) = length (fork_turns (replay_all items))).
  { apply (f_equal length) in P. by rewrite !length_map in P. }
  split; [done|]. unfold truncate_rollout_to_last_n_fork_turns. rewrite Len.
  split; intros N K; rewrite (proj2 (N.eqb_neq n 0) N).
  - by apply Nat.leb_le in K as ->.
  - assert (Nat.leb (length (fork_turns (replay_all items))) (N.to_nat n) = false) as ->
      by (apply Nat.leb_gt; lia).
    set (j := length (fork_turns (replay_all items)) - N.to_nat n).
    destruct (lookup_lt_is_Some_2 (fork_turn_positions_in_rollout items) j) as [i I]; [lia|].
    destruct (lookup_lt_is_Some_2 (fork_turns (replay_all items)) j) as [t T]; [lia|].
    rewrite (nth_lookup_Some _ _ _ _ I).
    assert (X : items !! i = Some (RolloutResponseItem t)).
    { assert (Q : map (λ i, items !! i) (fork_turn_positions_in_rollout items) !! j =
        map (Some ∘ RolloutResponseItem) (fork_turns (replay_all items)) !! j) by by rewrite P.
      rewrite !list_lookup_fmap, I, T in Q. simpl in Q. congruence. }
    exists (take i items), t, (drop (S i) items).
    split_and!; [by rewrite take_drop_middle|by apply drop_S|done].
Qed.

(** ** Compaction *)

Definition total_tokens_of (messages : list string) : N :=
  foldr N.add 0%N (map approx_token_count messages).

Lemma total_tokens_app l r : total_tokens_of (l ++ r) = (total_tokens_of l + total_tokens_of r)%N.
Proof. unfold total_tokens_of. induction l as [|m l IH]; simpl; [done|]. rewrite IH. lia. Qed.

(** The newest messages that fit, and what is kept of the one before them. *)
Lemma select_messages_spec messages : ∀ budget, ∃ recent older cut,
  messages = recent ++ older ∧ select_messages budget messages = recent ++ cut ∧
  (total_tokens_of recent ≤ budget)%N ∧
  (cut = [] ∧ (older = [] ∨ total_tokens_of recent = budget) ∨
   ∃ message rest, older = message :: rest ∧ (total_tokens_of recent < budget)%N ∧
     (budget < total_tokens_of recent + approx_token_count message)%N ∧
     cut = [truncate_text message (Tokens (budget - total_tokens_of recent))]).
Proof.
  induction messages as [|m messages IH]; intros budget; simpl.
  { exists [], [], []. split_and!; [done|done|apply N.le_0_l|]. left. auto. }
  destruct (N.eqb_spec budget 0) as [->|B].
  { exists [], (m :: messages), []. split_and!; [done|done|done|]. left. auto. }
  destruct (N.leb_spec (approx_token_count m) budget) as [L|L].
  - destruct (IH (budget - approx_token_count m)%N) as (r & o & c & -> & E & T & C).
    exists (m :: r), o, c. unfold total_tokens_of in *. simpl. rewrite E.
    split_and!; [done|done|lia|].
    destruct C as [[-> C]|(m' & rest & -> & C1 & C2 & ->)].
    + left. split; [done|]. destruct C; [by left|right; lia].
    + right. exists m', rest. split_and!; [done|lia|lia|].
      by rewrite N.sub_add_distr.
  - exists [], (m :: messages), [truncate_text m (Tokens budget)]. unfold total_tokens_of. simpl.
    split_and!; [done|done|lia|]. right. exists m, messages. rewrite N.sub_0_r.
    split_and!; (done || lia).
Qed.

(** The history after a compaction is the initial context, the newest user
    messages, and the summary: whole messages within the budget of tokens,
    preceded, when there are older ones and budget is left, by the next older
    message cut down to what is left. *)
Theorem compaction_keeps_recent_messages (initial_context : list ResponseItem)
    (user_messages : list string) (summary_text : string) :
  ∃ older cut recent, user_messages = older ++ recent ∧
    build_compacted_history initial_context user_messages summary_text =
      initial_context ++ map user_text_message (cut ++ recent) ++
      [user_text_message (if String.eqb summary_text "" then "(no summary available)"
                          else summary_text)] ∧
    (total_tokens_of recent ≤ COMPACT_USER_MESSAGE_MAX_TOKENS)%N ∧
    (cut = [] ∧ (older = [] ∨ total_tokens_of recent = COMPACT_USER_MESSAGE_MAX_TOKENS) ∨
     ∃ rest message, older = rest ++ [message] ∧
       (total_tokens_of recent < COMPACT_USER_MESSAGE_MAX_TOKENS)%N ∧
       (COMPACT_USER_MESSAGE_MAX_TOKENS < total_tokens_of recent + approx_token_count message)%N ∧
       cut = [truncate_text message
                (Tokens (COMPACT_USER_MESSAGE_MAX_TOKENS - total_tokens_of recent))]).
Proof.
  destruct (select_messages_spec (reverse user_messages) COMPACT_USER_MESSAGE_MAX_TOKENS)
    as (r & o & c & E & S & T & C).
  assert (TR : total_tokens_of (reverse r) = total_tokens_of r).
  { clear. induction r as [|m r IH]; [done|]. rewrite reverse_cons, total_tokens_app, IH.
    unfold total_tokens_of. simpl. lia. }
  apply (f_equal reverse) in E. rewrite reverse_involutive, reverse_app in E.
  exists (reverse o), (reverse c), (reverse r). rewrite TR.
  split_and!; [done| |done|].
  - unfold build_compacted_history, build_compacted_history_with_limit.
    by rewrite S, reverse_app.
  - destruct C as [[-> C]|(m & rest & -> & C1 & C2 & ->)].
    + left. split; [done|]. destruct C as [->|C]; [by left|by right].
    + right. exists (reverse rest), m. by rewrite reverse_cons.
Qed.

Definition is_user_message (item : ResponseItem) : bool :=
  match user_message_of item with Some _ => true | None => false end.
Definition is_request (item : ResponseItem) : bool :=
  match user_message_of item with Some m => negb (is_summary_message m) | None => false end.

Lemma rposition_snoc {A} (f : A → bool) l x :
  rposition f (l ++ [x]) = if f x then Some (length l) else rposition f l.
Proof.
  induction l as [|y l IH]; simpl; [done|]. rewrite IH. by destruct (f x).
Qed.

Lemma last_user_indices_spec l : ∀ any,
  last_user_indices (reverse (imap pair l)) any =
  (match any with Some a => Some a | None => rposition is_user_message l end,
   rposition is_request l).
Proof.
  induction l as [|x l IH] using rev_ind; intros any; [by destruct any|].
  rewrite imap_app, reverse_app, !rposition_snoc. simpl. rewrite Nat.add_0_r.
  unfold is_user_message, is_request. destruct (user_message_of x) as [m|]; [|apply IH].
  destruct (is_summary_message m); [rewrite IH|]; by destruct any.
Qed.

Lemma rposition_split {A} (f : A → bool) l :
  match rposition f l with
  | Some i => ∃ x rest, drop i l = x :: rest ∧ f x = true ∧ existsb f rest = false
  | None => existsb f l = false
  end.
Proof.
  induction l as [|y l IH]; simpl; [done|].
  destruct (rposition f l) as [i|]; [exact IH|]. destruct (f y) eqn:F; [|by rewrite IH].
  by exists y, l.
Qed.

(** [after] starts with the last item with the property. *)
Definition starts_with_last (f : ResponseItem → bool) (after : list ResponseItem) : Prop :=
  ∃ item rest, after = item :: rest ∧ f item = true ∧ existsb f rest = false.

(** The initial context is put back into a compacted history in front of its
    last user message that is no summary; without one, of the last summary;
    without that, of the last compaction item; otherwise at the end. *)
Lemma initial_context_placed (compacted_history initial_context : list ResponseItem) :
  ∃ before after, compacted_history = before ++ after ∧
    insert_initial_context_before_last_real_user_or_summary compacted_history initial_context =
      before ++ initial_context ++ after ∧
    (starts_with_last is_request after ∨
     existsb is_request compacted_history = false ∧ starts_with_last is_user_message after ∨
     existsb is_user_message compacted_history = false ∧ starts_with_last is_compaction after ∨
     existsb is_user_message compacted_history = false ∧
       existsb is_compaction compacted_history = false ∧ after = []).
Proof.
  unfold insert_initial_context_before_last_real_user_or_summary. rewrite last_user_indices_spec.
  pose proof (rposition_split is_request compacted_history) as R.
  pose proof (rposition_split is_user_message compacted_history) as U.
  pose proof (rposition_split is_compaction compacted_history) as C.
  destruct (rposition is_request compacted_history) as [i|].
  { exists (take i compacted_history), (drop i compacted_history). rewrite take_drop.
    split_and!; [done|done|]. by left. }
  destruct (rposition is_user_message compacted_history) as [i|].
  { exists (take i compacted_history), (drop i compacted_history). rewrite take_drop.
    split_and!; [done|done|]. by right; left. }
  destruct (rposition is_compaction compacted_history) as [i|].
  { exists (take i compacted_history), (drop i compacted_history). rewrite take_drop.
    split_and!; [done|done|]. right; right; left. done. }
  exists compacted_history, []. rewrite !app_nil_r. split_and!; [done|done|]. right; right; right. done.
Qed.
End rollout.

(** ** A recorded thread *)

(** No hook prompts, no other agents, no image sizes. *)
Definition DemoHistory : HistoryEnv := {|
  hook_prompt_xml := λ _, None; inter_agent_json := λ _, None; item_json_length := λ _, None;
  image_dimensions := λ _, None |}.

Definition assistant_text_message (text : string) : ResponseItem :=
  Message None "assistant" [OutputText text] None.

Definition demo_turn (id request : string) (more : list RolloutItem) (reply : string)
  : list RolloutItem :=
  [RolloutEventMsg (TurnStarted id); RolloutEventMsg UserMessageEvent;
   RolloutResponseItem (user_text_message request)] ++ more ++
  [RolloutResponseItem (assistant_text_message reply); RolloutEventMsg (TurnComplete id)].

Definition demo_compaction : RolloutItem :=
  Compacted {| ci_message := "summary";
               replacement_history := Some [user_text_message "first"; user_text_message "summary"] |}.

(** The second turn compacts, the third is rolled back. *)
Definition demo_record : list RolloutItem :=
  demo_turn "1" "first" [] "one" ++ demo_turn "2" "second" [demo_compaction] "two" ++
  demo_turn "3" "third" [] "three" ++ [RolloutEventMsg (ThreadRolledBack 1)].

Lemma reconstruction_replays_witness :
  rr_history (@reconstruct_history_from_rollout DemoHistory (Tokens 1000) demo_record) =
  [user_text_message "first"; user_text_message "summary"; assistant_text_message "two"].
Proof.
  rewrite (@reconstruction_replays DemoHistory (Tokens 1000) demo_record); [by vm_compute|].
  left. by vm_compute.
Defined.

(** Without the compaction. *)
Definition demo_turns : list RolloutItem :=
  demo_turn "1" "first" [] "one" ++ demo_turn "2" "second" [] "two" ++
  [RolloutEventMsg (ThreadRolledBack 1)] ++ demo_turn "3" "third" [] "three".

Lemma fork_positions_follow_history_witness :
  map (λ i, demo_turns !! i) (@fork_turn_positions_in_rollout DemoHistory demo_turns) =
    [Some (RolloutResponseItem (user_text_message "first"));
     Some (RolloutResponseItem (user_text_message "third"))] ∧
  @truncate_rollout_to_last_n_fork_turns DemoHistory demo_turns 2 = demo_turns.
Proof.
  destruct (@fork_positions_follow_history DemoHistory (Tokens 1000) demo_turns 2) as (P & A & _).
  { repeat constructor. }
  split; [rewrite P; by vm_compute|]. apply A; [done|]. vm_compute. lia.
Defined.

(** Rolling back the turn that compacted loses everything before it: played
    in order, the record ends with the first message; the history rebuilt from it
    holds a reply of the dropped turn and nothing else. *)
Lemma rolled_back_compaction_loses_history :
  let record := demo_turn "1" "first" [] "one" ++ demo_turn "2" "second" [demo_compaction] "two" ++
                [RolloutEventMsg (ThreadRolledBack 1)] in
  @replay_all DemoHistory (Tokens 1000) record = [user_text_message "first"] ∧
  rr_history (@reconstruct_history_from_rollout DemoHistory (Tokens 1000) record) =
    [assistant_text_message "two"].
Proof. split; by vm_compute. Qed.

(** A message added to a running turn counts as a turn of the history but not of
    the backward reading, which then skips the turn that compacted. *)
Lemma steered_turn_miscounted :
  let record := demo_turn "1" "first" [] "one" ++ demo_turn "2" "second" [demo_compaction] "two" ++
                demo_turn "3" "third" [RolloutResponseItem (user_text_message "also")] "three" ++
                [RolloutEventMsg (ThreadRolledBack 2)] in
  @replay_all DemoHistory (Tokens 1000) record =
    [user_text_message "first"; user_text_message "summary"; assistant_text_message "two"] ∧
  rr_history (@reconstruct_history_from_rollout DemoHistory (Tokens 1000) record) =
    [assistant_text_message "two"].
Proof. split; by vm_compute. Qed.

(** The position of a turn that another agent started is not counted, although a
    rollback counts it. *)
Definition AgentHistory : HistoryEnv := {|
  hook_prompt_xml := λ _, None;
  inter_agent_json := λ text, if String.eqb text "task" then
    Some {| iac_author := "root"; iac_recipient := "worker"; iac_other_recipients := [];
            iac_content := "task"; trigger_turn := true |} else None;
  item_json_length := λ _, None; image_dimensions := λ _, None |}.

Lemma rollback_miscounts_agent_turns :
  let record := [RolloutResponseItem (user_text_message "first");
                 RolloutResponseItem (assistant_text_message "task");
                 RolloutEventMsg (ThreadRolledBack 1);
                 RolloutResponseItem (user_text_message "second")] in
  @replay_all AgentHistory (Tokens 1000) record = [user_text_message "first"; user_text_message "second"] ∧
  @user_message_positions_in_rollout AgentHistory record = [3].
Proof. split; by vm_compute. Qed.

(** The replay meets a replaced history after the one it starts from. *)
Lemma replay_meets_replacement :
  let record := demo_turn "1" "first" [demo_compaction] "one" ++
                demo_turn "2" "second" [demo_compaction] "two" in
  existsb is_replacement (rollout_suffix (@reverse_scan DemoHistory record)) = true.
Proof. by vm_compute. Qed.
