(* ===== verification/ChatProtocol.v ===== *)
(** * chat-agent-core: protocol, state, sessions and the approval policy

    The types of [protocol/], [state/], [error.rs], [planner/model_client.rs]
    and [session/session_context.rs], sessions, the approval policy and model
    capabilities ([session/], [runtime_selector.rs],
    [loop_control/retry_policy.rs], [loop_control/stop_conditions.rs]), the system prompt, and the code the
    crate gets from its host: the model client, the optional core delegate,
    the [rg] and [sh] executables and [serde_json]. *)

From S2P Require Import Prelude RustStr FsModel World.

(** ** protocol/action.rs *)

Inductive Action :=
| ReadFile (path : string) (line_start line_end : option N)
| SearchCode (pattern : string) (path_filter : option string)
| EditFile (path old_str new_str : string)
| RunCommand (command : string) (cwd : option string) (timeout_secs : option N)
| AskUser (question : string) (options : option (list string))
| Finalize (summary : string) (next_steps : option (list string)).

#[global] Instance Action_eq_dec : EqDecision Action.
Proof. solve_decision. Defined.

Definition type_name (a : Action) : string :=
  match a with
  | ReadFile _ _ _ => "read_file"
  | SearchCode _ _ => "search_code"
  | EditFile _ _ _ => "edit_file"
  | RunCommand _ _ _ => "run_command"
  | AskUser _ _ => "ask_user"
  | Finalize _ _ => "finalize"
  end.

Definition fingerprint (a : Action) : string :=
  match a with
  | ReadFile p _ _ => "read_file:" +:+ p
  | SearchCode pattern filter =>
      "search_code:" +:+ pattern +:+ ":" +:+ default "" filter
  | EditFile p old _ => "edit_file:" +:+ p +:+ ":" +:+ pretty (String.length old)
  | RunCommand command cwd _ => "run_command:" +:+ command +:+ ":" +:+ default "" cwd
  | AskUser question _ => "ask_user:" +:+ question
  | Finalize summary _ => "finalize:" +:+ pretty (String.length summary)
  end.

(** [skip_serializing_if = "Option::is_none"]. *)
Definition opt_field {A} `{Serialize A} (key : string) (o : option A)
  : list (string * json) :=
  match o with Some a => [(key, to_value a)] | None => [] end.

#[global] Instance ser_action : Serialize Action := λ a, JObj
  (("type", JStr (type_name a)) ::
   match a with
   | ReadFile p ls le =>
       ("path", JStr p) :: opt_field "line_start" ls ++ opt_field "line_end" le
   | SearchCode pattern filter =>
       ("pattern", JStr pattern) :: opt_field "path_filter" filter
   | EditFile p old new => [("path", JStr p); ("old_str", JStr old); ("new_str", JStr new)]
   | RunCommand command cwd t =>
       ("command", JStr command) :: opt_field "cwd" cwd ++ opt_field "timeout_secs" t
   | AskUser question options => ("question", JStr question) :: opt_field "options" options
   | Finalize summary next => ("summary", JStr summary) :: opt_field "next_steps" next
   end).

(** ** protocol/turn.rs, observation.rs *)

Record PlannerTurn := { turn_thought : string; turn_action : Action }.

Record Artifact := {
  art_kind : string;
  art_content : string;
  art_metadata : option json
}.

Record Observation := {
  action_type : string;
  obs_ok : bool;
  obs_summary : string;
  details : option json;
  artifacts : list Artifact
}.

Definition obs_success (ty summary : string) : Observation := {|
  action_type := ty; obs_ok := true; obs_summary := summary; details := None;
  artifacts := [] |}.
Definition obs_failure (ty summary : string) : Observation := {|
  action_type := ty; obs_ok := false; obs_summary := summary; details := None;
  artifacts := [] |}.
Definition with_details (d : json) (o : Observation) : Observation := {|
  action_type := action_type o; obs_ok := obs_ok o; obs_summary := obs_summary o;
  details := Some d; artifacts := artifacts o |}.
Definition with_artifacts (l : list Artifact) (o : Observation) : Observation := {|
  action_type := action_type o; obs_ok := obs_ok o; obs_summary := obs_summary o;
  details := details o; artifacts := l |}.

(** ** error.rs *)

Inductive ChatAgentError :=
| ParseErr (message : string)
| Tool (message : string)
| Runtime (message : string)
| ModelApi (message : string)
| Guardrail (message : string)
| Cancelled
| AwaitingUser
| AwaitingToolApproval.

#[global] Instance ChatAgentError_eq_dec : EqDecision ChatAgentError.
Proof. solve_decision. Defined.

(** [to_string()] of an error. *)
Definition error_text (e : ChatAgentError) : string :=
  match e with
  | ParseErr m => "parse error: " +:+ m
  | Tool m => "tool error: " +:+ m
  | Runtime m => "runtime error: " +:+ m
  | ModelApi m => "model API error: " +:+ m
  | Guardrail m => "guardrail: " +:+ m
  | Cancelled => "cancelled"
  | AwaitingUser => "awaiting user input"
  | AwaitingToolApproval => "awaiting tool approval"
  end.

(** A tool reports an I/O error as text; [label] is what precedes it. *)
Definition tool_io (label : string) (k : io_kind) : ChatAgentError :=
  Tool (label +:+ ": " +:+ io_message k).

(** ** state/ *)

Inductive RunStatus :=
| RPending | RPreparing | RPlanning | RExecuting | RObserving | RAwaitingUser
| RAwaitingToolApproval | RFinalizing | RCompleted | RFailed | RCancelled.

#[global] Instance RunStatus_eq_dec : EqDecision RunStatus.
Proof. solve_decision. Defined.

Record StepRecord := {
  step_id : string;
  step_thought : string;
  step_action : Action;
  step_observation : Observation;
  started_at : Z;
  completed_at : option Z
}.

Record PendingTurn := { pt_thought : string; pt_action : Action }.

Record ToolApprovalRequest := { tool_name : string; ta_summary : string }.

Record RunState := {
  run_id : string;
  workspace_id : string;
  status : RunStatus;
  current_step : N;
  steps : list StepRecord;
  error : option string;
  awaiting_user_question : option string;
  pending_turn : option PendingTurn;
  awaiting_tool_approval : option ToolApprovalRequest
}.

(** [RunState::new]. *)
Definition RunState_new (rid wid : string) : RunState := {|
  run_id := rid; workspace_id := wid; status := RPending; current_step := 0; steps := [];
  error := None; awaiting_user_question := None; pending_turn := None;
  awaiting_tool_approval := None |}.

(** [u32] addition; it wraps in a release build (a debug build panics). *)
Definition u32_add (a b : N) : N := ((a + b) mod 4294967296)%N.

(** [RunState::push_step]. *)
Definition push_step (s : StepRecord) (st : RunState) : RunState := {|
  run_id := run_id st; workspace_id := workspace_id st; status := status st;
  current_step := u32_add (N.of_nat (length (steps st)) mod 4294967296) 1;
  steps := steps st ++ [s]; error := error st;
  awaiting_user_question := awaiting_user_question st; pending_turn := pending_turn st;
  awaiting_tool_approval := awaiting_tool_approval st |}.

(** Assignments to single fields. *)
Definition set_run_status (s : RunStatus) (st : RunState) : RunState := {|
  run_id := run_id st; workspace_id := workspace_id st; status := s;
  current_step := current_step st; steps := steps st; error := error st;
  awaiting_user_question := awaiting_user_question st; pending_turn := pending_turn st;
  awaiting_tool_approval := awaiting_tool_approval st |}.
Definition set_error (e : option string) (st : RunState) : RunState := {|
  run_id := run_id st; workspace_id := workspace_id st; status := status st;
  current_step := current_step st; steps := steps st; error := e;
  awaiting_user_question := awaiting_user_question st; pending_turn := pending_turn st;
  awaiting_tool_approval := awaiting_tool_approval st |}.
Definition set_question (q : option string) (st : RunState) : RunState := {|
  run_id := run_id st; workspace_id := workspace_id st; status := status st;
  current_step := current_step st; steps := steps st; error := error st;
  awaiting_user_question := q; pending_turn := pending_turn st;
  awaiting_tool_approval := awaiting_tool_approval st |}.
Definition set_pending (p : option PendingTurn) (r : option ToolApprovalRequest)
    (st : RunState) : RunState := {|
  run_id := run_id st; workspace_id := workspace_id st; status := status st;
  current_step := current_step st; steps := steps st; error := error st;
  awaiting_user_question := awaiting_user_question st; pending_turn := p;
  awaiting_tool_approval := r |}.

(** state/event_mapper.rs: the payloads the desktop timeline consumes. *)
Record TimelineEventPayload := {
  tp_run_id : string;
  tp_workspace_id : string;
  tp_status : string;
  tp_step : option StepRecord
}.

(** [format!("{:?}", status).to_ascii_lowercase()]. *)
Definition status_text (s : RunStatus) : string :=
  to_ascii_lowercase
    match s with
    | RPending => "Pending" | RPreparing => "Preparing" | RPlanning => "Planning"
    | RExecuting => "Executing" | RObserving => "Observing"
    | RAwaitingUser => "AwaitingUser" | RAwaitingToolApproval => "AwaitingToolApproval"
    | RFinalizing => "Finalizing" | RCompleted => "Completed" | RFailed => "Failed"
    | RCancelled => "Cancelled"
    end.

Definition map_run_updated (st : RunState) : TimelineEventPayload := {|
  tp_run_id := run_id st; tp_workspace_id := workspace_id st;
  tp_status := status_text (status st); tp_step := None |}.
Definition map_step_added (st : RunState) (s : StepRecord) : TimelineEventPayload := {|
  tp_run_id := run_id st; tp_workspace_id := workspace_id st;
  tp_status := status_text (status st); tp_step := Some s |}.

(** protocol/final_result.rs. *)
Record FinalResult := {
  fr_status : RunStatus;
  fr_summary : string;
  fr_next_steps : option (list string);
  fr_error : option string
}.

(** ** planner/model_client.rs *)

Record ChatMessage := { role : string; content : string }.

#[global] Instance ChatMessage_eq_dec : EqDecision ChatMessage.
Proof. solve_decision. Defined.

Definition msg_system (s : string) : ChatMessage := {| role := "system"; content := s |}.
Definition msg_user (s : string) : ChatMessage := {| role := "user"; content := s |}.
Definition msg_assistant (s : string) : ChatMessage :=
  {| role := "assistant"; content := s |}.

Record ModelRequest := { mreq_model : string; mreq_messages : list ChatMessage }.

(** ** session/tool_approval.rs *)

Inductive ToolApprovalPolicy := OnRequest | Auto | ReadOnly.

#[global] Instance ToolApprovalPolicy_eq_dec : EqDecision ToolApprovalPolicy.
Proof. solve_decision. Defined.

Definition in_list (s : string) (l : list string) : bool := existsb (String.eqb s) l.

Definition from_access_mode (value : string) : ToolApprovalPolicy :=
  let v := to_ascii_lowercase (trim value) in
  if in_list v ["full-access"; "full_access"; "fullaccess"] then Auto
  else if in_list v ["read-only"; "read_only"; "readonly"] then ReadOnly
  else OnRequest.

Inductive ToolApprovalDecision := Execute | PromptUser | DenyReadOnly.

Definition is_mutating (a : Action) : bool :=
  match a with EditFile _ _ _ | RunCommand _ _ _ => true | _ => false end.

Definition requires_user_approval (a : Action) : bool := is_mutating a.

Definition evaluate (a : Action) (policy : ToolApprovalPolicy) : ToolApprovalDecision :=
  match policy with
  | Auto => Execute
  | ReadOnly => if is_mutating a then DenyReadOnly else Execute
  | OnRequest => if requires_user_approval a then PromptUser else Execute
  end.

Definition approval_summary (a : Action) : string :=
  match a with
  | EditFile p _ _ => "Edit file `" +:+ p +:+ "`"
  | RunCommand command _ _ => "Run command `" +:+ command +:+ "`"
  | ReadFile p _ _ => "Read file `" +:+ p +:+ "`"
  | SearchCode pattern _ => "Search code for `" +:+ pattern +:+ "`"
  | AskUser question _ => question
  | Finalize summary _ => summary
  end.

(** ** session/session_context.rs, session_builder.rs *)

Record SessionContext := {
  sc_run_id : string;
  sc_workspace_id : string;
  sc_workspace_root : string;
  sc_thread_id : option string;
  sc_model : string;
  task_prompt : string;
  sc_security_mode : bool;
  sc_policy : ToolApprovalPolicy
}.

Record SessionBuilder := {
  sb_workspace_id : string;
  sb_workspace_root : string;
  sb_model : string;
  sb_task_prompt : string;
  sb_thread_id : option string;
  sb_security_mode : bool;
  sb_policy : ToolApprovalPolicy
}.

Definition SessionBuilder_new (wid root model prompt : string) : SessionBuilder := {|
  sb_workspace_id := wid; sb_workspace_root := root; sb_model := model;
  sb_task_prompt := prompt; sb_thread_id := None; sb_security_mode := false;
  sb_policy := OnRequest |}.
Definition sb_with_thread (t : string) (b : SessionBuilder) : SessionBuilder := {|
  sb_workspace_id := sb_workspace_id b; sb_workspace_root := sb_workspace_root b;
  sb_model := sb_model b; sb_task_prompt := sb_task_prompt b; sb_thread_id := Some t;
  sb_security_mode := sb_security_mode b; sb_policy := sb_policy b |}.
Definition sb_with_security (m : bool) (b : SessionBuilder) : SessionBuilder := {|
  sb_workspace_id := sb_workspace_id b; sb_workspace_root := sb_workspace_root b;
  sb_model := sb_model b; sb_task_prompt := sb_task_prompt b;
  sb_thread_id := sb_thread_id b; sb_security_mode := m; sb_policy := sb_policy b |}.
Definition sb_with_policy (p : ToolApprovalPolicy) (b : SessionBuilder) : SessionBuilder := {|
  sb_workspace_id := sb_workspace_id b; sb_workspace_root := sb_workspace_root b;
  sb_model := sb_model b; sb_task_prompt := sb_task_prompt b;
  sb_thread_id := sb_thread_id b; sb_security_mode := sb_security_mode b; sb_policy := p |}.

(** [SessionBuilder::build] with the identifier it draws. *)
Definition sb_build (id : string) (b : SessionBuilder) : SessionContext := {|
  sc_run_id := id; sc_workspace_id := sb_workspace_id b;
  sc_workspace_root := sb_workspace_root b; sc_thread_id := sb_thread_id b;
  sc_model := sb_model b; task_prompt := sb_task_prompt b;
  sc_security_mode := sb_security_mode b; sc_policy := sb_policy b |}.

(** ** session/capability_map.rs, runtime_selector.rs *)

Inductive AgentEngine := CodexCore | ChatAgent.

#[global] Instance AgentEngine_eq_dec : EqDecision AgentEngine.
Proof. solve_decision. Defined.

Record ModelCapability := {
  tool_call_reliable : bool;
  supports_responses_api : bool;
  max_context_tokens : N;
  recommended_engine : AgentEngine;
  input_modalities : list string
}.

Definition contains_any (l : list string) (s : string) : bool :=
  existsb (λ p, contains p s) l.

Definition get_model_capability (model_name : string) : ModelCapability :=
  let normalized := to_ascii_lowercase (trim model_name) in
  if contains "claude" normalized then
    {| tool_call_reliable := true; supports_responses_api := true;
       max_context_tokens := 200000; recommended_engine := CodexCore;
       input_modalities := ["text"; "image"] |}
  else if contains_any ["gpt-4"; "gpt-5"; "o1"] normalized then
    {| tool_call_reliable := true; supports_responses_api := false;
       max_context_tokens := 128000; recommended_engine := CodexCore;
       input_modalities := ["text"; "image"] |}
  else if contains_any ["qwen"; "deepseek"; "glm"; "doubao"; "moonshot"; "baichuan";
                        "minimax"] normalized then
    {| tool_call_reliable := false; supports_responses_api := false;
       max_context_tokens := 65536; recommended_engine := ChatAgent;
       input_modalities := ["text"] |}
  else
    {| tool_call_reliable := false; supports_responses_api := false;
       max_context_tokens := 32768; recommended_engine := ChatAgent;
       input_modalities := ["text"] |}.

Inductive EnginePreference := PAuto | PCodexCore | PChatAgent | PHybrid.

Record TaskRequirements := {
  needs_mcp : bool;
  needs_skills : bool;
  needs_multi_agent : bool;
  wants_step_cards : bool;
  wants_full_codex_features : bool
}.

Definition select_engine (preference : EnginePreference) (model_name : string)
    (r : TaskRequirements) : AgentEngine :=
  match preference with
  | PCodexCore => CodexCore
  | PChatAgent => ChatAgent
  | PHybrid => ChatAgent
  | PAuto =>
      if needs_mcp r || needs_skills r || needs_multi_agent r then CodexCore else
      let capability := get_model_capability model_name in
      if negb (tool_call_reliable capability) && negb (wants_full_codex_features r)
      then ChatAgent
      else if supports_responses_api capability && tool_call_reliable capability
      then CodexCore
      else if wants_step_cards r then ChatAgent
      else if wants_full_codex_features r then CodexCore
      else recommended_engine capability
  end.

(** ** loop_control/retry_policy.rs

    [u64::saturating_pow] and [u64::saturating_mul]; the delay is in
    milliseconds. *)

Definition u64_sat_pow (a e : N) : N := N.min u64_max (a ^ e).
Definition u64_sat_mul (a b : N) : N := N.min u64_max (a * b).

Definition backoff_delay (attempt base_ms max_ms : N) : N :=
  N.min (u64_sat_mul base_ms (u64_sat_pow 2 attempt)) max_ms.

(** ** loop_control/stop_conditions.rs *)

Definition should_stop_after_action (a : Action) : bool :=
  match a with Finalize _ _ => true | _ => false end.
Definition should_pause_for_user (a : Action) : bool :=
  match a with AskUser _ _ => true | _ => false end.
