(* ===== verification/ChatTools.v ===== *)
(** * chat-agent-core: the executor and its tools

    [executor/]: string replacement in files, bounded command output with
    spill files, the file, search and command tools, the dispatcher and the
    executor.  The [rg] and [sh] executables and the core delegate are
    arguments; what a command does to the file system is part of their
    result. *)

From S2P Require Import Prelude RustStr FsModel World ChatProtocol.

(** ** The standard library *)

(** [s.trim_start_matches(p)] for a non-empty [p]; every step drops at least
    one byte, so the length of [s] bounds the number of steps. *)
Fixpoint trim_start_matches_go (fuel : nat) (p s : string) : string :=
  match fuel with
  | O => s
  | S f => match strip_prefix p s with
           | Some s' => trim_start_matches_go f p s'
           | None => s
           end
  end.
Definition trim_start_matches (p s : string) : string :=
  trim_start_matches_go (String.length s) p s.

(** [s.match_indices(p)] for a non-empty [p]: the positions of the matches
    found from left to right that do not overlap an earlier match.  [skip]
    bytes belong to the match found last. *)
Fixpoint match_indices_go (p : string) (pos skip : nat) (s : string) : list nat :=
  match s with
  | EmptyString => []
  | String _ s' =>
      match skip with
      | S k => match_indices_go p (S pos) k s'
      | O => if starts_with p s
             then pos :: match_indices_go p (S pos) (pred (String.length p)) s'
             else match_indices_go p (S pos) 0 s'
      end
  end.
Definition match_indices (p s : string) : list nat := match_indices_go p 0 0 s.

(** [s.replacen(p, t, 1)] for a non-empty [p]. *)
Fixpoint replace_first (p t s : string) : string :=
  match strip_prefix p s with
  | Some s' => t +:+ s'
  | None => match s with
            | EmptyString => ""
            | String c s' => String c (replace_first p t s')
            end
  end.

(** [&v[a..b]]; [None] where Rust panics. *)
Definition slice {A} (a b : nat) (l : list A) : option (list A) :=
  if bool_decide (a ≤ b ∧ b ≤ length l) then Some (take (b - a) (drop a l)) else None.

(** [format!("{:>w$}", n)]. *)
Fixpoint spaces (n : nat) : string :=
  match n with O => "" | S k => String " " (spaces k) end.
Definition pad_left (w : nat) (s : string) : string :=
  spaces (w - String.length s) +:+ s.

(** ** executor/edit_replace.rs *)

Inductive ReplaceOutcome :=
| Applied (new_content : string)
| NoMatch (message : string)
| MultipleMatches (message : string).

Definition NO_MATCH_PREVIEW_LINES : nat := 20.

(** The newlines before a byte position, plus one. *)
Definition count_lines_before (content : string) (byte_pos : nat) : nat :=
  length (List.filter (Ascii.eqb newline) (take byte_pos (bytes content))) + 1.

Definition get_line_context (content : string) (target_line context : nat)
  : option string :=
  let ls := lines content in
  let start := target_line - (context + 1) in
  let stop := Nat.min (target_line + context) (length ls) in
  join_with nl <$> slice start stop ls.

(** The first line of [l], counted from [index], that resembles [first_line]. *)
Fixpoint similar_line (first_line : string) (index : nat) (l : list string)
  : option nat :=
  match l with
  | [] => None
  | x :: l' =>
      if contains first_line x || contains (trim x) first_line then Some index
      else similar_line first_line (S index) l'
  end.

(** [None] is a panic of [get_line_context]. *)
Definition find_similar_context (content search : string) : option (option string) :=
  match lines search with
  | [] => Some None
  | l :: _ =>
      let first_line := trim l in
      if String.eqb first_line "" then Some None else
      match similar_line first_line 0 (lines content) with
      | None => Some None
      | Some index => Some <$> get_line_context content (index + 1) 2
      end
  end.

Fixpoint numbered_lines (w : nat) (sep : string) (from : nat) (l : list string)
  : list string :=
  match l with
  | [] => []
  | x :: l' => (pad_left w (pretty from) +:+ sep +:+ x) :: numbered_lines w sep (S from) l'
  end.

Definition build_file_preview (content : string) (max_lines : nat) : string :=
  if String.eqb content "" then "(file is empty)" else
  let ls := lines content in
  let preview_end := Nat.min (length ls) max_lines in
  let preview := join_with nl (numbered_lines 4 ": " 1 (take preview_end ls)) in
  if preview_end <? length ls
  then preview +:+ nl +:+ "... (" +:+ pretty (length ls - preview_end) +:+ " more lines)"
  else preview.

Definition build_no_match_message (content search : string) : option string :=
  hint ← find_similar_context content search;
  let msg := "old_str did not match any content" in
  let msg := match hint with
             | Some h => msg +:+ nl +:+ nl +:+ "Did you mean:" +:+ nl +:+ "```" +:+ nl
                         +:+ h +:+ nl +:+ "```"
             | None => msg
             end in
  Some (msg +:+ nl +:+ nl +:+ "File preview:" +:+ nl +:+ "```" +:+ nl
        +:+ build_file_preview content NO_MATCH_PREVIEW_LINES +:+ nl +:+ "```").

(** The text about one match. *)
Definition match_text (content : string) (index pos : nat) : option string :=
  let line_num := count_lines_before content pos in
  context ← get_line_context content line_num 1;
  Some (nl +:+ nl +:+ "Match " +:+ pretty (index + 1) +:+ " (line " +:+ pretty line_num
        +:+ "):" +:+ nl +:+ "```" +:+ nl +:+ context +:+ nl +:+ "```").

Fixpoint match_texts (content : string) (index : nat) (l : list nat) : option string :=
  match l with
  | [] => Some ""
  | pos :: l' =>
      t ← match_text content index pos;
      r ← match_texts content (S index) l';
      Some (t +:+ r)
  end.

Definition build_multiple_match_message (content : string) (count : nat)
    (matches : list nat) : option string :=
  texts ← match_texts content 0 (take 2 matches);
  let msg := "old_str matched " +:+ pretty count +:+ " locations; must be unique" +:+ texts in
  Some (if 2 <? count
        then msg +:+ nl +:+ nl +:+ "...and " +:+ pretty (count - 2) +:+ " more"
        else msg).

Definition string_replace (content old_str new_str : string) : option ReplaceOutcome :=
  if String.eqb old_str "" then Some (NoMatch "old_str must not be empty") else
  let matches := match_indices old_str content in
  match length matches with
  | 0 => NoMatch <$> build_no_match_message content old_str
  | 1 => Some (Applied (replace_first old_str new_str content))
  | count => MultipleMatches <$> build_multiple_match_message content count matches
  end.

(** ** executor/output_limits.rs *)

Definition OUTPUT_LIMIT_LINES : nat := 2000.
Definition OUTPUT_LIMIT_BYTES : N := 50000.
Definition OUTPUT_PREVIEW_LINES : nat := 50.

Record TruncationNotice := {
  tn_reason : string;
  tn_total_lines : nat;
  tn_total_bytes : nat
}.

Record TruncatedOutput := { to_text : string; to_notice : option TruncationNotice }.

(** [text.chars().take(n).chain("…".chars())]. *)
Definition take_ellipsis (n : nat) (text : string) : string :=
  take_chars n text +:+ ellipsis.

Definition truncate_to_bytes (text : string) (max_bytes : N) : string :=
  if (N.of_nat (String.length text) <=? max_bytes)%N then text
  else take_ellipsis (N.to_nat max_bytes) text.

Definition truncate_command_output (full_output : string) : TruncatedOutput :=
  if String.eqb full_output "" then {| to_text := ""; to_notice := None |} else
  let ls := split_char newline full_output in
  let total_lines := length ls in
  let total_bytes := String.length full_output in
  let exceeded_lines := OUTPUT_LIMIT_LINES <? total_lines in
  let exceeded_bytes := (OUTPUT_LIMIT_BYTES <? N.of_nat total_bytes)%N in
  if negb exceeded_lines && negb exceeded_bytes
  then {| to_text := full_output; to_notice := None |} else
  let preview_start := total_lines - OUTPUT_PREVIEW_LINES in
  let preview := join_with nl (drop preview_start ls) in
  let reason :=
    if exceeded_lines
    then "Output exceeded " +:+ pretty OUTPUT_LIMIT_LINES +:+ " line limit ("
         +:+ pretty total_lines +:+ " lines total)."
    else "Output exceeded " +:+ pretty OUTPUT_LIMIT_BYTES +:+ " byte limit ("
         +:+ pretty total_bytes +:+ " bytes total)." in
  {| to_text := truncate_to_bytes preview OUTPUT_LIMIT_BYTES;
     to_notice := Some {| tn_reason := reason; tn_total_lines := total_lines;
                          tn_total_bytes := total_bytes |} |}.

(** ** What the host provides *)

(** The result of [sh -c] under [tokio::time::timeout]: it cannot be spawned,
    it is still running at the deadline, waiting for it fails, or it ends. *)
Inductive sh_result :=
| ShSpawnFailed (k : io_kind)
| ShTimedOut
| ShWaitFailed (k : io_kind)
| ShDone (o : cmd_output).

Class ChatHost := {
  (** [ModelClient::complete], indexed by the number of earlier calls *)
  model_complete : nat → ModelRequest → string + string;
  (** [serde_json::from_str::<RawPlannerResponse>]: the error text, or the
      thought and the action *)
  parse_raw : string → string + (string * Action);
  (** [serde_json::Value::to_string] *)
  value_to_string : json → string;
  (** [serde_json::to_string(&observation)] *)
  observation_to_string : Observation → string;
  (** [rg <args>] run in a directory *)
  rg_run : path → list string → fsys → (io_kind + cmd_output) * fsys;
  (** [sh -c <command>] run in a directory with a time limit in seconds *)
  sh_run : path → string → N → fsys → sh_result * fsys
}.

(** The crate's [Result<T>], with its effects. *)
Abbreviation T := (M ChatAgentError).

(** [.map_err(|error| ChatAgentError::Tool(format!("{label}: {error}")))?]. *)
Definition tool_read {A} (label : string) (f : fsys → io_kind + A) : T A := λ w,
  match f (w_fs w) with
  | inr a => (Ok a, w)
  | inl k => (Err (tool_io label k), w)
  end.
Definition tool_write (label : string) (f : fsys → io_kind + fsys) : T unit := λ w,
  match f (w_fs w) with
  | inr fs => (Ok tt, set_fs fs w)
  | inl k => (Err (tool_io label k), w)
  end.

(** ** executor/output_spill.rs *)

Record SpillResult := {
  display_text : string;
  spill_path : option path;
  sr_notice : option string;
  sr_total_lines : nat;
  sr_total_bytes : nat
}.

Definition SPILL_DIR_NAME : string := ".codex/chat-agent-spill".

Definition ensure_spill_dir (rid : string) (workspace_root : path) : T path := λ w,
  let dir := join (join workspace_root SPILL_DIR_NAME) rid in
  match fs_create_dir_all (w_fs w) dir with
  | inr fs => (Ok dir, set_fs fs w)
  | inl _ => (Ok dir, w)
  end.

Definition read_hint : string := "shell: head, tail, or sed -n '100,200p'".

Definition format_command_stream (full_output : string) (spill_dir : path)
    (label : string) : T SpillResult := λ w,
  let total_lines := length (lines full_output) in
  let total_bytes := String.length full_output in
  let truncated := truncate_command_output full_output in
  match to_notice truncated with
  | None =>
      (Ok {| display_text := to_text truncated; spill_path := None; sr_notice := None;
             sr_total_lines := total_lines; sr_total_bytes := total_bytes |}, w)
  | Some n =>
      let p := join spill_dir (label +:+ ".log") in
      match fs_write (w_fs w) p full_output with
      | inl _ =>
          (Ok {| display_text := to_text truncated; spill_path := None;
                 sr_notice := Some (tn_reason n); sr_total_lines := total_lines;
                 sr_total_bytes := total_bytes |}, w)
      | inr fs =>
          let notice := tn_reason n +:+ " Full output saved to " +:+ display p
                        +:+ ". Read with " +:+ read_hint +:+ "." in
          let text := if String.eqb (to_text truncated) "" then notice
                      else to_text truncated +:+ nl +:+ nl +:+ notice in
          (Ok {| display_text := text; spill_path := Some p; sr_notice := Some notice;
                 sr_total_lines := total_lines; sr_total_bytes := total_bytes |},
           set_fs fs w)
      end
  end.

Definition spill_details (r : SpillResult) : option json :=
  match spill_path r, sr_notice r with
  | None, None => None
  | _, _ =>
      Some (JObj [("truncation", JObj
        [("reason", to_value (sr_notice r));
         ("spillPath", to_value (display <$> spill_path r));
         ("totalLines", to_value (sr_total_lines r));
         ("totalBytes", to_value (sr_total_bytes r))])])
  end.

(** ** executor/file_tools.rs *)

Definition resolve_workspace_path (workspace_root : path) (relative_path : string)
  : T path :=
  let trimmed := trim_start_matches "./" (trim relative_path) in
  let candidate := join workspace_root trimmed in
  fs ← get_fs;
  let canonical_root :=
    match stat fs workspace_root with inr (q, _) => q | inl _ => workspace_root end in
  r ← tool_read "path not found" (λ fs, stat fs candidate);
  let canonical := fst (r : path * node) in
  match strip_path canonical_root canonical with
  | Some _ => mret canonical
  | None => throw (Tool "path escapes workspace root")
  end.

Definition read_file (workspace_root : path) (p : string) (line_start line_end : option N)
  : T Observation :=
  file_path ← resolve_workspace_path workspace_root p;
  content ← tool_read "read failed" (λ fs, fs_read_to_string fs file_path);
  let ls := lines content in
  let len := N.of_nat (length ls) in
  let start := N.max (default 1%N line_start) 1 in
  let stop := N.min (default len line_end) len in
  text ← match ls with
         | [] => mret ""
         | _ =>
             match slice (N.to_nat (start - 1)) (N.to_nat stop) ls with
             | Some l => mret (join_with nl (numbered_lines 6 "| " (N.to_nat start) l))
             | None => panic "slice index starts after its end"
             end
         end;
  mret (with_artifacts
          [{| art_kind := "file_content"; art_content := text;
              art_metadata := Some (JObj [("path", JStr p)]) |}]
       (with_details (JObj [("path", JStr p); ("lineStart", to_value start);
                            ("lineEnd", to_value stop)])
       (obs_success "read_file"
          ("Read " +:+ p +:+ " (" +:+ pretty start +:+ "-" +:+ pretty stop +:+ ")")))).

Definition edit_file (workspace_root : path) (p old_str new_str : string)
  : T Observation :=
  file_path ← resolve_workspace_path workspace_root p;
  content ← tool_read "read failed" (λ fs, fs_read_to_string fs file_path);
  match string_replace content old_str new_str with
  | Some (Applied new_content) =>
      _ ← tool_write "write failed" (λ fs, fs_write fs file_path new_content);
      mret (obs_success "edit_file" ("Updated " +:+ p))
  | Some (NoMatch message) | Some (MultipleMatches message) =>
      mret (with_details (JObj [("path", JStr p)]) (obs_failure "edit_file" message))
  | None => panic "slice index starts after its end"
  end.

(** ** executor/approval_tools.rs *)

Definition ask_user (question : string) (options : option (list string)) : Observation :=
  with_details (JObj [("question", JStr question); ("options", to_value options)])
    (obs_success "ask_user" "Awaiting user response").
Definition finalize (summary : string) (next_steps : option (list string)) : Observation :=
  with_details (JObj [("nextSteps", to_value next_steps)]) (obs_success "finalize" summary).

Section tools.
Context `{ChatHost}.

(** ** executor/search_tools.rs *)

(** The arguments of [rg]: the pattern comes as it is, without a separator. *)
Definition search_args (pattern : string) (path_filter : option string) : list string :=
  ["--line-number"; "--no-heading"; "--color=never"; "--max-count"; "50"; pattern]
  ++ match path_filter with
     | Some f => if is_blank f then [] else [f]
     | None => []
     end.

Definition search_code (workspace_root : path) (pattern : string)
    (path_filter : option string) : T Observation :=
  if is_blank pattern then throw (Tool "search pattern is empty") else λ w,
  match rg_run workspace_root (search_args pattern path_filter) (w_fs w) with
  | (inl k, fs) => (Err (tool_io "rg failed to start" k), set_fs fs w)
  | (inr output, fs) =>
      let stdout := trim (from_utf8_lossy (out_stdout output)) in
      let stderr := trim (from_utf8_lossy (out_stderr output)) in
      let result :=
        if negb (success output) && String.eqb stdout ""
        then obs_failure "search_code"
               (if String.eqb stderr "" then "No matches found"
                else "Search failed: " +:+ stderr)
        else
          with_artifacts [{| art_kind := "search_results"; art_content := stdout;
                             art_metadata := None |}]
          (with_details (JObj [("pattern", JStr pattern);
                               ("pathFilter", to_value path_filter)])
          (obs_success "search_code"
             ("Found " +:+ pretty (length (lines stdout)) +:+ " match lines"))) in
      (Ok result, set_fs fs w)
  end.

(** ** executor/command_tools.rs *)

Definition format_stream (text : string) (spill_dir : option path) (legacy_max_bytes : N)
    (label : string) : T SpillResult :=
  match spill_dir with
  | Some d => format_command_stream text d label
  | None =>
      let total_lines := length (lines text) in
      let total_bytes := String.length text in
      if (N.of_nat total_bytes <=? legacy_max_bytes)%N
      then mret {| display_text := text; spill_path := None; sr_notice := None;
                   sr_total_lines := total_lines; sr_total_bytes := total_bytes |}
      else mret {| display_text := take_ellipsis (N.to_nat legacy_max_bytes) text;
                   spill_path := None;
                   sr_notice := Some ("Output exceeded " +:+ pretty legacy_max_bytes
                                      +:+ " byte policy limit.");
                   sr_total_lines := total_lines; sr_total_bytes := total_bytes |}
  end.

Definition stream_artifact (kind : string) (r : SpillResult) : Artifact := {|
  art_kind := kind; art_content := display_text r;
  art_metadata := (λ p, JObj [("spillPath", JStr (display p))]) <$> spill_path r |}.

(** The first blocked pattern a command contains, ignoring ASCII case. *)
Definition blocked_by (blocked : list string) (command : string) : option string :=
  find_first (λ p, contains (to_ascii_lowercase p) (to_ascii_lowercase command)) blocked.

(** [sh -c] and the errors of its three stages. *)
Definition run_shell (dir : path) (command : string) (timeout_secs : N) : T cmd_output := λ w,
  match sh_run dir command timeout_secs (w_fs w) with
  | (ShSpawnFailed k, fs) => (Err (tool_io "failed to spawn command" k), set_fs fs w)
  | (ShTimedOut, fs) =>
      (Err (Tool ("command timed out after " +:+ pretty timeout_secs +:+ "s")), set_fs fs w)
  | (ShWaitFailed k, fs) => (Err (tool_io "command failed" k), set_fs fs w)
  | (ShDone o, fs) => (Ok o, set_fs fs w)
  end.

Definition run_command (workspace_root : path) (command : string) (cwd : option string)
    (timeout_secs max_output_bytes : N) (blocked_patterns : list string)
    (spill_dir : option path) : T Observation :=
  let trimmed := trim command in
  if String.eqb trimmed "" then throw (Tool "command is empty") else
  match blocked_by blocked_patterns trimmed with
  | Some pattern =>
      mret (obs_failure "run_command" ("command blocked by policy: " +:+ pattern))
  | None =>
      work_dir ← match cwd with
                 | Some relative => resolve_workspace_path workspace_root relative
                 | None => mret workspace_root
                 end;
      result ← run_shell work_dir trimmed timeout_secs;
      let exit_code := default (-1)%Z (out_code result) in
      stdout ← format_stream (from_utf8_lossy (out_stdout result)) spill_dir
                 max_output_bytes "stdout";
      stderr ← format_stream (from_utf8_lossy (out_stderr result)) spill_dir
                 max_output_bytes "stderr";
      let ok := success result in
      let summary := (if ok then "Command succeeded (exit " else "Command failed (exit ")
                     +:+ pretty exit_code +:+ ")" in
      let details := JObj ([("exitCode", JNum exit_code); ("command", JStr trimmed)]
                           ++ opt_field "stdout" (spill_details stdout)
                           ++ opt_field "stderr" (spill_details stderr)) in
      mret (with_artifacts [stream_artifact "stdout" stdout; stream_artifact "stderr" stderr]
           (with_details details
           (if ok then obs_success "run_command" summary
            else obs_failure "run_command" summary)))
  end.

(** ** executor/mod.rs, dispatcher.rs, core_delegate.rs *)

Record ExecutorConfig := {
  max_observation_chars : N;
  shell_timeout_secs : N;
  max_output_bytes : N;
  blocked_command_patterns : list string
}.

Definition ExecutorConfig_default : ExecutorConfig := {|
  max_observation_chars := 12000; shell_timeout_secs := 60;
  max_output_bytes := OUTPUT_LIMIT_BYTES;
  blocked_command_patterns := ["rm -rf"; "sudo"; "chmod 777"] |}.

(** [Dispatcher], with the trait object [CoreDelegate] as a function. *)
Record Dispatcher := {
  d_workspace_root : path;
  d_config : ExecutorConfig;
  d_spill_dir : option path;
  core_delegate : option (Action → T Observation)
}.

(** The actions that are never delegated. *)
Definition runs_locally (a : Action) : bool :=
  match a with AskUser _ _ | Finalize _ _ | SearchCode _ _ => true | _ => false end.

Definition dispatch_local (d : Dispatcher) (a : Action) : T Observation :=
  match a with
  | ReadFile p line_start line_end => read_file (d_workspace_root d) p line_start line_end
  | SearchCode pattern path_filter => search_code (d_workspace_root d) pattern path_filter
  | EditFile p old_str new_str => edit_file (d_workspace_root d) p old_str new_str
  | RunCommand command cwd timeout_secs =>
      run_command (d_workspace_root d) command cwd
        (default (shell_timeout_secs (d_config d)) timeout_secs)
        (max_output_bytes (d_config d)) (blocked_command_patterns (d_config d))
        (d_spill_dir d)
  | AskUser question options => mret (ask_user question options)
  | Finalize summary next_steps => mret (finalize summary next_steps)
  end.

Definition dispatch (d : Dispatcher) (a : Action) : T Observation :=
  match core_delegate d with
  | Some delegate => if runs_locally a then dispatch_local d a else delegate a
  | None => dispatch_local d a
  end.

Definition truncate_observation (o : Observation) (max_chars : N) : Observation :=
  if (max_chars <? N.of_nat (char_count (obs_summary o)))%N
  then {| action_type := action_type o; obs_ok := obs_ok o;
          obs_summary := take_ellipsis (N.to_nat max_chars) (obs_summary o);
          details := details o; artifacts := artifacts o |}
  else o.

(** [Executor]: the dispatcher and its configuration. *)
Definition execute (d : Dispatcher) (a : Action) : T Observation :=
  o ← dispatch d a;
  mret (truncate_observation o (max_observation_chars (d_config d))).
End tools.
