(* ===== verification/ChatLoop.v ===== *)
(** * chat-agent-core: planner, guardrails, run loop and runtime

    [planner/], [loop_control/] and [runtime.rs].  The callbacks [on_step] and
    [on_status] are modelled by the log of their calls, the shared
    cancellation flag by the values its successive loads return.  The loop of
    [run_with_state] takes an amount of fuel; [None] is a run that needs
    more. *)

From S2P Require Import Prelude RustStr FsModel World ChatProtocol.
From S2P Require Import ChatTools.

(** ** The state of a run *)

(** A call of a callback. *)
Inductive chat_event :=
| EvStatus (s : RunState)
| EvStep (s : RunState) (step : StepRecord).

Record chat_world := ChatWorld {
  cw_world : world;
  cw_calls : nat;
  cw_loads : nat;
  cw_events : list chat_event
}.

Definition L (A : Type) : Type :=
  chat_world → option (outcome ChatAgentError A * chat_world).

#[global] Instance L_ret : MRet L := λ A a w, Some (Ok a, w).
#[global] Instance L_bind : MBind L := λ A B f m w,
  match m w with
  | Some (Ok a, w') => f a w'
  | Some (Err e, w') => Some (Err e, w')
  | Some (Panic s, w') => Some (Panic s, w')
  | None => None
  end.

Definition l_throw {A} (e : ChatAgentError) : L A := λ w, Some (Err e, w).

(** A tool or another function of the crate. *)
Definition l_lift {A} (m : T A) : L A := λ w,
  let (r, w') := m (cw_world w) in
  Some (r, ChatWorld w' (cw_calls w) (cw_loads w) (cw_events w)).

(** [Result] as a value. *)
Definition l_attempt {A} (m : L A) : L (ChatAgentError + A) := λ w,
  match m w with
  | Some (Ok a, w') => Some (Ok (inr a), w')
  | Some (Err e, w') => Some (Ok (inl e), w')
  | Some (Panic s, w') => Some (Panic s, w')
  | None => None
  end.

Definition l_emit (e : chat_event) : L unit := λ w,
  Some (Ok tt, ChatWorld (cw_world w) (cw_calls w) (cw_loads w) (cw_events w ++ [e])).
Definition on_status (s : RunState) : L unit := l_emit (EvStatus s).
Definition on_step (s : RunState) (step : StepRecord) : L unit := l_emit (EvStep s step).

(** [cancelled.is_some_and(|flag| flag.load(Ordering::SeqCst))]. *)
Definition is_cancelled (cancelled : option (nat → bool)) : L bool := λ w,
  match cancelled with
  | None => Some (Ok false, w)
  | Some flag =>
      Some (Ok (flag (cw_loads w)),
            ChatWorld (cw_world w) (cw_calls w) (S (cw_loads w)) (cw_events w))
  end.

(** ** protocol/prompt_contract.rs *)

Definition build_system_prompt (workspace_root : string) : string :=
  join_with nl
    ["You are a coding agent operating in workspace `" +:+ workspace_root +:+ "`.";
     "";
     "Respond with a single JSON object per turn (no markdown fences):";
     "{";
     "  " +:+ dquote +:+ "thought" +:+ dquote +:+ ": " +:+ dquote
       +:+ "brief reasoning for debugging" +:+ dquote +:+ ",";
     "  " +:+ dquote +:+ "action" +:+ dquote +:+ ": { " +:+ dquote +:+ "type" +:+ dquote
       +:+ ": " +:+ dquote +:+ "<action_type>" +:+ dquote +:+ ", ... }";
     "}";
     "";
     "Allowed action types:";
     "- read_file: { " +:+ dquote +:+ "path" +:+ dquote +:+ ", optional " +:+ dquote
       +:+ "line_start" +:+ dquote +:+ ", " +:+ dquote +:+ "line_end" +:+ dquote +:+ " }";
     "- search_code: { " +:+ dquote +:+ "pattern" +:+ dquote +:+ ", optional " +:+ dquote
       +:+ "path_filter" +:+ dquote +:+ " }";
     "- edit_file: { " +:+ dquote +:+ "path" +:+ dquote +:+ ", " +:+ dquote +:+ "old_str"
       +:+ dquote +:+ ", " +:+ dquote +:+ "new_str" +:+ dquote
       +:+ " } — old_str must match exactly once";
     "- run_command: { " +:+ dquote +:+ "command" +:+ dquote +:+ ", optional " +:+ dquote
       +:+ "cwd" +:+ dquote +:+ ", optional " +:+ dquote +:+ "timeout_secs" +:+ dquote
       +:+ " }";
     "- ask_user: { " +:+ dquote +:+ "question" +:+ dquote +:+ ", optional " +:+ dquote
       +:+ "options" +:+ dquote +:+ " }";
     "- finalize: { " +:+ dquote +:+ "summary" +:+ dquote +:+ ", optional " +:+ dquote
       +:+ "next_steps" +:+ dquote +:+ " }";
     "";
     "Rules:";
     "- Emit exactly one action per turn.";
     "- Prefer reading and searching before editing.";
     "- Keep commands scoped to the workspace.";
     "- Call finalize when the task is complete or blocked."].

(** [PromptBuilder::build]. *)
Definition build_messages (session : SessionContext) (history : list ChatMessage)
  : list ChatMessage :=
  [msg_system (build_system_prompt (sc_workspace_root session));
   msg_user ("Task:" +:+ nl +:+ trim (task_prompt session))] ++ history.

(** ** planner/response_parser.rs *)

(** The byte position of the last occurrence of [p]: [s.rfind(p)]. *)
Fixpoint rfind (p s : string) : option nat :=
  match s with
  | EmptyString => if String.eqb p "" then Some 0 else None
  | String _ s' =>
      match rfind p s' with
      | Some n => Some (S n)
      | None => if starts_with p s then Some 0 else None
      end
  end.

Definition backtick : ascii := "096".
Definition fence : string := "```".

Definition extract_json_payload (text : string) : string :=
  let trimmed := trim text in
  if starts_with fence trimmed then
    let without_open :=
      trim_start_char newline
        (trim_start_matches "json" (trim_start_char backtick trimmed)) in
    match rfind fence without_open with
    | Some stop => trim (String.substring 0 stop without_open)
    | None => trimmed
    end
  else trimmed.

Section agent.
Context `{Sys} `{ChatHost}.

Definition parse_planner_response (text : string) : ChatAgentError + PlannerTurn :=
  match parse_raw (extract_json_payload text) with
  | inl e => inl (ParseErr ("invalid JSON: " +:+ e))
  | inr (thought, action) =>
      if is_blank thought then inl (ParseErr "missing thought")
      else inr {| turn_thought := trim thought; turn_action := action |}
  end.

(** ** planner/mod.rs *)

Record PlannerConfig := { max_parse_retries : nat }.

(** One request to the model. *)
Definition complete (r : ModelRequest) : L string := λ w,
  let w' := ChatWorld (cw_world w) (S (cw_calls w)) (cw_loads w) (cw_events w) in
  match model_complete (cw_calls w) r with
  | inr text => Some (Ok text, w')
  | inl e => Some (Err (ModelApi e), w')
  end.

(** The loop over the attempts; [left] attempts follow this one. *)
Fixpoint plan_attempts (model : string) (attempt left : nat)
    (messages : list ChatMessage) : L PlannerTurn :=
  response ← complete {| mreq_model := model; mreq_messages := messages |};
  match parse_planner_response response with
  | inr turn => mret turn
  | inl e =>
      let last_error := error_text e in
      match left with
      | O => l_throw (ParseErr last_error)
      | S left' =>
          plan_attempts model (S attempt) left'
            (messages ++ [msg_user ("Parse error (attempt " +:+ pretty (attempt + 1)
               +:+ "): " +:+ last_error
               +:+ ". Return valid JSON with thought and action.")])
      end
  end.

Definition plan_next_action (config : PlannerConfig) (session : SessionContext)
    (history : list ChatMessage) (last_parse_error : option string) : L PlannerTurn :=
  let messages := build_messages session history in
  let messages :=
    match last_parse_error with
    | Some e => messages ++ [msg_user ("Your previous response could not be parsed: "
                              +:+ e +:+ ". Reply with valid JSON only.")]
    | None => messages
    end in
  plan_attempts (sc_model session) 0 (max_parse_retries config) messages.

(** ** loop_control/guardrails.rs *)

Record GuardrailsConfig := {
  max_turns : N;
  max_identical_actions : N;
  max_consecutive_failures : N;
  max_edits_per_file : N
}.

Definition GuardrailsConfig_default : GuardrailsConfig := {|
  max_turns := 20; max_identical_actions := 3; max_consecutive_failures := 2;
  max_edits_per_file := 5 |}.

Inductive GuardrailAction :=
| Continue
| ForceAskUser (reason : string)
| ForceFinalize (reason : string).

Record Guardrails := {
  g_config : GuardrailsConfig;
  turn_count : N;
  last_fingerprint : option string;
  identical_count : N;
  consecutive_failures : N;
  file_edit_counts : gmap string N
}.

Definition Guardrails_new (config : GuardrailsConfig) : Guardrails := {|
  g_config := config; turn_count := 0; last_fingerprint := None; identical_count := 0;
  consecutive_failures := 0; file_edit_counts := ∅ |}.

Definition record_turn (a : Action) (observation_ok : bool) (g : Guardrails)
  : Guardrails := {|
  g_config := g_config g;
  turn_count := u32_add (turn_count g) 1;
  last_fingerprint := Some (fingerprint a);
  identical_count :=
    if bool_decide (last_fingerprint g = Some (fingerprint a))
    then u32_add (identical_count g) 1 else 1;
  consecutive_failures :=
    if observation_ok then 0 else u32_add (consecutive_failures g) 1;
  file_edit_counts :=
    match a with
    | EditFile p _ _ =>
        <[p := u32_add (default 0%N (file_edit_counts g !! p)) 1]> (file_edit_counts g)
    | _ => file_edit_counts g
    end |}.

(** [file_edit_counts.get(path).is_some_and(|count| *count >= max)]. *)
Definition too_many_edits (g : Guardrails) (p : string) : bool :=
  match file_edit_counts g !! p with
  | Some count => (max_edits_per_file (g_config g) <=? count)%N
  | None => false
  end.

Definition check (g : Guardrails) (a : Action) : GuardrailAction :=
  let c := g_config g in
  if (max_turns c <=? turn_count g)%N
  then ForceFinalize ("Reached max turns (" +:+ pretty (max_turns c) +:+ ")")
  else if (max_identical_actions c <=? identical_count g)%N
  then ForceAskUser "Repeated identical action"
  else if (max_consecutive_failures c <=? consecutive_failures g)%N
  then ForceAskUser "Too many consecutive failures; consider a different approach"
  else match a with
       | EditFile p _ _ =>
           if too_many_edits g p then ForceAskUser ("Too many edits on " +:+ p)
           else Continue
       | _ => Continue
       end.

(** ** loop_control/turn_commit.rs *)

(** The two messages a step adds to the history. *)
Definition turn_messages (thought : string) (a : Action) (o : Observation)
  : list ChatMessage :=
  [msg_assistant (value_to_string (JObj [("thought", JStr thought);
                                         ("action", to_value a)]));
   msg_user (observation_to_string o)].

(** What a turn changes: the run state, the guardrails and the history. *)
Record loop_state := {
  ls_state : RunState;
  ls_guardrails : Guardrails;
  ls_history : list ChatMessage
}.

Definition commit_turn (s : loop_state) (thought : string) (a : Action) (o : Observation)
  : L loop_state :=
  id ← l_lift new_uuid;
  started ← l_lift now;
  completed ← l_lift now;
  let step := {| step_id := id; step_thought := thought; step_action := a;
                 step_observation := o; started_at := (started / 1000000000)%Z;
                 completed_at := Some (completed / 1000000000)%Z |} in
  let st := push_step step (ls_state s) in
  _ ← on_step st step;
  mret {| ls_state := st; ls_guardrails := record_turn a (obs_ok o) (ls_guardrails s);
          ls_history := ls_history s ++ turn_messages thought a o |}.

Definition read_only_denial_observation (a : Action) : Observation :=
  obs_failure (type_name a)
    ("Read-only mode blocked this tool. Switch access to On-Request or Full access to "
     +:+ "allow edits and commands.").
Definition user_denial_observation (a : Action) : Observation :=
  obs_failure (type_name a) "Tool execution denied by user.".

(** ** loop_control/run_loop.rs *)

(** [RunLoopConfig] holds the guardrails; [RunLoop] is planner, executor and
    configuration. *)
Record RunLoop := {
  rl_planner : PlannerConfig;
  rl_executor : Dispatcher;
  rl_guardrails : GuardrailsConfig
}.

Record RunLoopOutcome := { out_state : RunState; out_result : FinalResult }.

Inductive ToolApprovalGate := GateExecute | GatePaused | GateDeniedReadOnly.

(** The state a turn that waits for approval leaves. *)
Definition paused_state (st : RunState) (thought : string) (a : Action) : RunState :=
  set_run_status RAwaitingToolApproval
    (set_pending (Some {| pt_thought := thought; pt_action := a |})
       (Some {| tool_name := type_name a; ta_summary := approval_summary a |}) st).

Definition gate_tool_approval (session : SessionContext) (st : RunState)
    (thought : string) (a : Action) : L ToolApprovalGate :=
  match evaluate a (sc_policy session) with
  | Execute => mret GateExecute
  | DenyReadOnly => mret GateDeniedReadOnly
  | PromptUser =>
      _ ← on_status (paused_state st thought a);
      mret GatePaused
  end.

(** [state.status = s; on_status(&state)]. *)
Definition enter (s : RunStatus) (st : RunState) : L RunState :=
  let st' := set_run_status s st in
  _ ← on_status st';
  mret st'.

(** [if cancelled { state.status = Cancelled; on_status(&state); return
    Err(Cancelled); }]. *)
Definition stop_if_cancelled (cancelled : option (nat → bool)) (st : RunState) : L unit :=
  c ← is_cancelled cancelled;
  if (c : bool) then
    _ ← enter RCancelled st;
    l_throw Cancelled
  else mret tt.

Definition finish_result (a : Action) (o : Observation) : FinalResult :=
  match a with
  | Finalize summary next_steps =>
      {| fr_status := RCompleted; fr_summary := summary; fr_next_steps := next_steps;
         fr_error := None |}
  | _ => {| fr_status := RCompleted; fr_summary := obs_summary o; fr_next_steps := None;
            fr_error := None |}
  end.

Definition finish_with_action (self : RunLoop) (session : SessionContext)
    (cancelled : option (nat → bool)) (s : loop_state) (thought : string) (a : Action)
  : L RunLoopOutcome :=
  gate ← gate_tool_approval session (ls_state s) thought a;
  match gate with
  | GatePaused => l_throw AwaitingToolApproval
  | GateDeniedReadOnly =>
      s' ← commit_turn s thought a (read_only_denial_observation a);
      st ← enter RCompleted (ls_state s');
      mret {| out_state := st;
              out_result := {| fr_status := RCompleted;
                               fr_summary := "Read-only mode blocked the requested action.";
                               fr_next_steps := None; fr_error := None |} |}
  | GateExecute =>
      st ← enter RExecuting (ls_state s);
      o ← l_lift (execute (rl_executor self) a);
      _ ← stop_if_cancelled cancelled st;
      let g := record_turn a (obs_ok o) (ls_guardrails s) in
      s' ← commit_turn {| ls_state := st; ls_guardrails := g; ls_history := ls_history s |}
             thought a o;
      if should_pause_for_user a then
        let st' := match a with
                   | AskUser question _ => set_question (Some question) (ls_state s')
                   | _ => ls_state s'
                   end in
        _ ← enter RAwaitingUser st';
        l_throw AwaitingUser
      else
        st' ← enter RCompleted (ls_state s');
        mret {| out_state := st'; out_result := finish_result a o |}
  end.

(** A planner that cannot be parsed ends the run. *)
Definition parse_failed (st : RunState) (message : string) : L RunLoopOutcome :=
  st' ← enter RAwaitingUser (set_error (Some "Failed to parse model response") st);
  mret {| out_state := st';
          out_result := {| fr_status := RFailed; fr_summary := "Planner parse failed";
                           fr_next_steps := None; fr_error := Some message |} |}.

(** One turn of the loop after the planner answered: it continues with a new
    state or ends. *)
Definition run_turn (self : RunLoop) (session : SessionContext)
    (cancelled : option (nat → bool)) (s : loop_state) (turn : PlannerTurn)
  : L (loop_state + RunLoopOutcome) :=
  let thought := turn_thought turn in
  let a := turn_action turn in
  let finish a := r ← finish_with_action self session cancelled s thought a; mret (inr r) in
  match check (ls_guardrails s) a with
  | ForceAskUser reason => finish (AskUser reason None)
  | ForceFinalize reason => finish (Finalize reason None)
  | Continue =>
      if should_pause_for_user a || should_stop_after_action a then finish a else
      gate ← gate_tool_approval session (ls_state s) thought a;
      match gate with
      | GatePaused => l_throw AwaitingToolApproval
      | GateDeniedReadOnly =>
          s' ← commit_turn s thought a (read_only_denial_observation a);
          st ← enter RPlanning (ls_state s');
          mret (inl {| ls_state := st; ls_guardrails := ls_guardrails s';
                       ls_history := ls_history s' |})
      | GateExecute =>
          st ← enter RExecuting (ls_state s);
          o ← l_lift (execute (rl_executor self) a);
          _ ← stop_if_cancelled cancelled st;
          s' ← commit_turn {| ls_state := st; ls_guardrails := ls_guardrails s;
                              ls_history := ls_history s |} thought a o;
          st' ← enter RPlanning (ls_state s');
          mret (inl {| ls_state := st'; ls_guardrails := ls_guardrails s';
                       ls_history := ls_history s' |})
      end
  end.

(** One iteration of the loop.  A parse error ends the run, so
    [last_parse_error] is [None] whenever the planner is called. *)
Definition run_iteration (self : RunLoop) (session : SessionContext)
    (cancelled : option (nat → bool)) (s : loop_state) : L (loop_state + RunLoopOutcome) :=
  _ ← stop_if_cancelled cancelled (ls_state s);
  st ← enter RPlanning (ls_state s);
  r ← l_attempt (plan_next_action (rl_planner self) session (ls_history s) None);
  match r with
  | inl (ParseErr message) => out ← parse_failed st message; mret (inr out)
  | inl e => l_throw e
  | inr turn =>
      run_turn self session cancelled
        {| ls_state := st; ls_guardrails := ls_guardrails s; ls_history := ls_history s |} turn
  end.

Fixpoint run_loop (fuel : nat) (self : RunLoop) (session : SessionContext)
    (cancelled : option (nat → bool)) (s : loop_state) : L RunLoopOutcome :=
  match fuel with
  | O => λ _, None
  | S f =>
      r ← run_iteration self session cancelled s;
      match r with
      | inl s' => run_loop f self session cancelled s'
      | inr out => mret out
      end
  end.

(** The turns a run can take, and one more for the forced end. *)
Definition loop_fuel (c : GuardrailsConfig) : nat := S (N.to_nat (max_turns c)).

Definition run_with_state (self : RunLoop) (session : SessionContext) (st : RunState)
    (history : list ChatMessage) (cancelled : option (nat → bool)) : L RunLoopOutcome :=
  st' ← enter RPreparing (set_question None st);
  run_loop (loop_fuel (rl_guardrails self)) self session cancelled
    {| ls_state := st'; ls_guardrails := Guardrails_new (rl_guardrails self);
       ls_history := history |}.

Definition run (self : RunLoop) (session : SessionContext)
    (cancelled : option (nat → bool)) : L RunLoopOutcome :=
  run_with_state self session
    (RunState_new (sc_run_id session) (sc_workspace_id session)) [] cancelled.

(** [for step in &state.steps { guardrails.record_turn(..) }]. *)
Definition replay_steps (c : GuardrailsConfig) (l : list StepRecord) : Guardrails :=
  foldl (λ g s, record_turn (step_action s) (obs_ok (step_observation s)) g)
    (Guardrails_new c) l.

Definition resume_pending_tool (self : RunLoop) (session : SessionContext) (st : RunState)
    (history : list ChatMessage) (approved : bool) (cancelled : option (nat → bool))
  : L RunLoopOutcome :=
  match pending_turn st with
  | None => l_throw (Runtime "No pending tool approval")
  | Some pending =>
      let st := set_pending None None st in
      _ ← stop_if_cancelled cancelled st;
      let g := replay_steps (rl_guardrails self) (steps st) in
      r ← (if approved then
             st' ← enter RExecuting st;
             o ← l_lift (execute (rl_executor self) (pt_action pending));
             mret (st', o)
           else mret (st, user_denial_observation (pt_action pending)));
      let '(st, o) := r in
      _ ← stop_if_cancelled cancelled st;
      s' ← commit_turn {| ls_state := st; ls_guardrails := g; ls_history := history |}
             (pt_thought pending) (pt_action pending) o;
      st' ← enter RPlanning (ls_state s');
      run_with_state self session st' (ls_history s') cancelled
  end.

(** ** runtime.rs *)

Record RuntimeConfig := {
  rc_planner : PlannerConfig;
  rc_executor : ExecutorConfig;
  rc_run_loop : GuardrailsConfig
}.

Definition RuntimeConfig_default : RuntimeConfig := {|
  rc_planner := {| max_parse_retries := 2 |};
  rc_executor := ExecutorConfig_default;
  rc_run_loop := GuardrailsConfig_default |}.

Record RunRequest := {
  rq_run_id : string;
  rq_workspace_id : string;
  rq_workspace_root : string;
  rq_model : string;
  rq_prompt : string;
  rq_thread_id : option string;
  rq_security_mode : bool;
  rq_policy : ToolApprovalPolicy
}.

Record RunResult := {
  rr_session : SessionContext;
  rr_state : RunState;
  rr_final : FinalResult
}.

(** [ChatAgentRuntime]; the model client is the host's. *)
Record ChatAgentRuntime := {
  rt_config : RuntimeConfig;
  rt_delegate : option (Action → T Observation)
}.

Definition build_session (request : RunRequest) : L SessionContext :=
  id ← l_lift new_uuid;
  let b := sb_with_policy (rq_policy request)
             (sb_with_security (rq_security_mode request)
                (SessionBuilder_new (rq_workspace_id request) (rq_workspace_root request)
                   (rq_model request) (rq_prompt request))) in
  let b := match rq_thread_id request with Some t => sb_with_thread t b | None => b end in
  let session := sb_build id b in
  mret {| sc_run_id := rq_run_id request; sc_workspace_id := sc_workspace_id session;
          sc_workspace_root := sc_workspace_root session;
          sc_thread_id := sc_thread_id session; sc_model := sc_model session;
          task_prompt := task_prompt session;
          sc_security_mode := sc_security_mode session; sc_policy := sc_policy session |}.

Definition build_history_from_state (st : RunState) (user_response : string)
  : list ChatMessage :=
  flat_map (λ s, turn_messages (step_thought s) (step_action s) (step_observation s))
    (steps st)
  ++ (if is_blank user_response then [] else [msg_user (trim user_response)]).

Definition build_run_loop (self : ChatAgentRuntime) (rid : string) (executor_root : path)
  : L RunLoop :=
  spill_dir ← l_lift (ensure_spill_dir rid executor_root);
  mret {| rl_planner := rc_planner (rt_config self);
          rl_executor := {| d_workspace_root := executor_root;
                            d_config := rc_executor (rt_config self);
                            d_spill_dir := Some spill_dir;
                            core_delegate := rt_delegate self |};
          rl_guardrails := rc_run_loop (rt_config self) |}.

(** The result the three entry points return. *)
Definition run_result (session : SessionContext) (o : RunLoopOutcome) : RunResult := {|
  rr_session := session; rr_state := out_state o; rr_final := out_result o |}.

(** [ChatAgentRuntime::run]. *)
Definition runtime_run (self : ChatAgentRuntime) (request : RunRequest)
    (executor_root : path) (cancelled : option (nat → bool)) : L RunResult :=
  session ← build_session request;
  rl ← build_run_loop self (rq_run_id request) executor_root;
  o ← run rl session cancelled;
  mret (run_result session o).

Definition confirm_pending_tool (self : ChatAgentRuntime) (request : RunRequest)
    (previous_state : RunState) (approved : bool) (executor_root : path)
    (cancelled : option (nat → bool)) : L RunResult :=
  session ← build_session request;
  let history := build_history_from_state previous_state "" in
  let st := set_error None (set_question None previous_state) in
  rl ← build_run_loop self (rq_run_id request) executor_root;
  o ← resume_pending_tool rl session st history approved cancelled;
  mret (run_result session o).

(** [ChatAgentRuntime::resume]. *)
Definition runtime_resume (self : ChatAgentRuntime) (request : RunRequest)
    (previous_state : RunState) (user_response : string) (executor_root : path)
    (cancelled : option (nat → bool)) : L RunResult :=
  session ← build_session request;
  let history := build_history_from_state previous_state user_response in
  let st := set_error None (set_question None previous_state) in
  rl ← build_run_loop self (rq_run_id request) executor_root;
  o ← run_with_state rl session st history cancelled;
  mret (run_result session o).
End agent.
