(* ===== verification/ChatFsProps.v ===== *)
(** * The edit, file and output tools of the chat agent

    A unique match is replaced or nothing; the file tools stay inside the
    workspace; spilled output is complete. *)

From S2P Require Import Prelude RustStr FsModel World FsFacts Exec FsxProps.
From S2P Require Import ChatProtocol ChatTools.

(** * String replacement: the edit tool replaces a unique match or nothing *)

(** ** Occurrences *)

(** [p] occurs in [s] at byte [k]. *)
Definition occurs (p s : string) (k : nat) : Prop :=
  ∃ pre post, s = pre +:+ p +:+ post ∧ String.length pre = k.

Lemma starts_with_occurs p s : starts_with p s = true ↔ occurs p s 0.
Proof.
  unfold starts_with. split.
  - destruct (strip_prefix p s) as [r|] eqn:E; [|done]. intros _.
    apply strip_prefix_Some in E as ->. by exists "", r.
  - intros (pre & post & -> & Hl). destruct pre; [|done].
    change ("" +:+ p +:+ post) with (p +:+ post). by rewrite strip_prefix_app.
Qed.

Lemma occurs_cons p c s k : occurs p (String c s) (S k) ↔ occurs p s k.
Proof.
  split.
  - intros ([|d pre] & post & He & Hl); [done|]. 
    injection He as _ ->. injection Hl as <-. by exists pre, post.
  - intros (pre & post & -> & <-). by exists (String c pre), post.
Qed.

Lemma occurs_nil p k : p ≠ "" → ¬ occurs p "" k.
Proof.
  intros Hp (pre & post & He & _).
  apply (f_equal String.length) in He. rewrite !str_length_app in He. simpl in He.
  destruct p; simpl in He; [done|lia].
Qed.

Lemma occurs_bound p s k : occurs p s k → k + String.length p ≤ String.length s.
Proof. intros (pre & post & -> & <-). rewrite !str_length_app. lia. Qed.

(** ** [match_indices] *)

Section matches.
Context (p : string) (Hp : p ≠ "").

Lemma match_sound s pos skip i :
  i ∈ match_indices_go p pos skip s → ∃ k, i = pos + k ∧ skip ≤ k ∧ occurs p s k.
Proof.
  revert pos skip. induction s as [|c s IH]; intros pos skip; simpl.
  { by intros ?%elem_of_nil. }
  assert (Hs : ∀ skip', i ∈ match_indices_go p (S pos) skip' s →
            ∃ k, i = pos + S k ∧ skip' ≤ k ∧ occurs p (String c s) (S k)).
  { intros skip' (k & -> & Hk & Ho)%IH. exists k. rewrite occurs_cons. lia || eauto with lia. }
  destruct skip as [|skip].
  - destruct (starts_with p (String c s)) eqn:E.
    + rewrite elem_of_cons. intros [->|(k & -> & Hk & Ho)%Hs].
      * exists 0. apply starts_with_occurs in E. auto with lia.
      * exists (S k). auto with lia.
    + intros (k & -> & Hk & Ho)%Hs. exists (S k). auto with lia.
  - intros (k & -> & Hk & Ho)%Hs. exists (S k). auto with lia.
Qed.

(** Every occurrence that does not start in the skipped bytes is found or
    overlaps one that is found before it. *)
Lemma match_complete s pos skip k :
  occurs p s k → skip ≤ k →
  ∃ i, i ∈ match_indices_go p pos skip s ∧ i ≤ pos + k < i + String.length p.
Proof.
  assert (Hlen : 0 < String.length p) by (destruct p; [done|simpl; lia]).
  revert pos skip k. induction s as [|c s IH]; intros pos skip k Ho Hk; simpl.
  { by apply occurs_nil in Ho. }
  destruct skip as [|skip].
  - destruct k as [|k].
    + rewrite (proj2 (starts_with_occurs _ _) Ho). exists pos. split; [left|lia].
    + apply occurs_cons in Ho. destruct (starts_with p (String c s)).
      * destruct (decide (pred (String.length p) ≤ k)) as [Hge|Hlt].
        { destruct (IH (S pos) _ k Ho Hge) as (i & Hi & ?).
          exists i. split; [by right|lia]. }
        exists pos. split; [left|lia].
      * destruct (IH (S pos) 0 k Ho) as (i & Hi & ?); [lia|]. exists i. split; [done|lia].
  - destruct k as [|k]; [lia|]. apply occurs_cons in Ho.
    destruct (IH (S pos) skip k Ho) as (i & Hi & ?); [lia|]. exists i. split; [done|lia].
Qed.

(** The matches are in order and do not overlap. *)
Lemma match_apart s pos skip i j l :
  match_indices_go p pos skip s = i :: j :: l → i + String.length p ≤ j.
Proof.
  assert (Hlen : 0 < String.length p) by (destruct p; [done|simpl; lia]).
  revert pos skip. induction s as [|c s IH]; intros pos skip; simpl; [done|].
  destruct skip as [|skip]; [|apply IH].
  destruct (starts_with p (String c s)); [|apply IH].
  intros [= -> Hl]. assert (Hj : j ∈ match_indices_go p (S i) (pred (String.length p)) s)
    by (rewrite Hl; left).
  apply match_sound in Hj as (k & -> & Hk & _). lia.
Qed.

Lemma replace_first_spec t pre post :
  (∀ k, occurs p (pre +:+ p +:+ post) k → String.length pre ≤ k) →
  replace_first p t (pre +:+ p +:+ post) = pre +:+ t +:+ post.
Proof.
  induction pre as [|c pre IH]; intros Hmin.
  - simpl. destruct p as [|d p'] eqn:E; [done|]. simpl. rewrite Ascii.eqb_refl.
    by rewrite strip_prefix_app.
  - simpl. destruct (strip_prefix p (String c (pre +:+ p +:+ post))) as [r|] eqn:E.
    + exfalso. apply strip_prefix_Some in E.
      assert (Ho : occurs p (String c (pre +:+ p +:+ post)) 0) by (by exists "", r).
      specialize (Hmin 0 Ho). simpl in Hmin. lia.
    + change (String c pre +:+ t +:+ post) with (String c (pre +:+ t +:+ post)).
      f_equal. apply IH. intros k Ho.
      pose proof (Hmin (S k) (proj2 (occurs_cons p c _ k) Ho)) as Hk. simpl in Hk. lia.
Qed.
End matches.

(** ** The contexts shown to the model never slice out of range *)

#[local] Arguments Ascii.eqb : simpl never.

Lemma lines_count l cur pos :
  pos < length l →
  length (List.filter (Ascii.eqb newline) (take pos l)) + 1 ≤ length (lines_go cur l).
Proof.
  revert cur pos. induction l as [|c l IH]; intros cur pos Hpos; simpl in *; [lia|].
  destruct pos as [|pos]; simpl.
  - destruct (Ascii.eqb newline c); [simpl; lia|]. destruct l as [|d l]; [simpl; lia|].
    apply (IH (c :: cur) 0). simpl. lia.
  - destruct (Ascii.eqb newline c); simpl.
    + specialize (IH [] pos). lia.
    + apply IH. lia.
Qed.

Lemma line_context_ok content target context :
  1 ≤ target ≤ length (lines content) →
  is_Some (get_line_context content target context).
Proof.
  intros Ht. unfold get_line_context, slice. rewrite bool_decide_true by lia.
  simpl. eauto.
Qed.

Lemma count_lines_ok content pos :
  pos < String.length content →
  1 ≤ count_lines_before content pos ≤ length (lines content).
Proof.
  intros Hpos. unfold count_lines_before, lines. rewrite length_map.
  pose proof (lines_count (bytes content) [] pos). rewrite length_bytes in *. lia.
Qed.

Lemma similar_line_bound first l index k :
  similar_line first index l = Some k → index ≤ k < index + length l.
Proof.
  revert index. induction l as [|x l IH]; intros index; simpl; [done|].
  destruct (_ || _); [intros [= ->]; lia|]. intros ?%IH. lia.
Qed.

Lemma no_match_message_ok content search :
  is_Some (build_no_match_message content search).
Proof.
  unfold build_no_match_message, find_similar_context.
  destruct (lines search) as [|l _]; [simpl; eauto|].
  destruct (String.eqb (trim l) ""); [simpl; eauto|].
  destruct (similar_line (trim l) 0 (lines content)) as [index|] eqn:E; [|simpl; eauto].
  apply similar_line_bound in E.
  destruct (line_context_ok content (index + 1) 2) as [h ->]; [lia|]. simpl. eauto.
Qed.

Lemma match_texts_ok content index l :
  Forall (λ pos, pos < String.length content) l → is_Some (match_texts content index l).
Proof.
  intros Hl. revert index. induction Hl as [|pos l Hpos _ IH]; intros index; simpl; [eauto|].
  unfold match_text.
  destruct (line_context_ok content (count_lines_before content pos) 1) as [c ->];
    [by apply count_lines_ok|]. simpl.
  destruct (IH (S index)) as [r ->]. simpl. eauto.
Qed.

Lemma match_indices_bound p s i :
  p ≠ "" → i ∈ match_indices p s → i < String.length s.
Proof.
  intros Hp (k & -> & _ & Ho%occurs_bound)%match_sound. destruct p; [done|simpl in *; lia].
Qed.

Lemma string_replace_total content old_str new_str :
  is_Some (string_replace content old_str new_str).
Proof.
  unfold string_replace. destruct (String.eqb_spec old_str "") as [->|Hp]; [eauto|].
  pose proof (λ i, match_indices_bound old_str content i Hp) as Hb.
  destruct (match_indices old_str content) as [|i [|j l]]; simpl length; [|eauto|].
  - destruct (no_match_message_ok content old_str) as [msg ->]. simpl. eauto.
  - unfold build_multiple_match_message.
    destruct (match_texts_ok content 0 (take 2 (i :: j :: l))) as [t ->]; [|simpl; eauto].
    repeat constructor; apply Hb; [left|right; left].
Qed.

(** String replacement never panics and decides correctly: it rewrites the
    content only when all occurrences of the old text overlap the first one,
    replacing that one; it reports no match only for an empty or absent text, and
    several matches only when two disjoint occurrences exist. *)
Theorem string_replace_unique content old_str new_str :
  ∃ r, string_replace content old_str new_str = Some r ∧
  match r with
  | Applied new_content =>
      ∃ pre post, content = pre +:+ old_str +:+ post ∧
        new_content = pre +:+ new_str +:+ post ∧
        ∀ k, occurs old_str content k →
          String.length pre ≤ k < String.length pre + String.length old_str
  | NoMatch _ => old_str = "" ∨ ∀ k, ¬ occurs old_str content k
  | MultipleMatches _ =>
      ∃ i j, i + String.length old_str ≤ j ∧ occurs old_str content i ∧
        occurs old_str content j
  end.
Proof.
  destruct (string_replace_total content old_str new_str) as [r Hr]. exists r.
  split; [done|]. revert Hr. unfold string_replace.
  destruct (String.eqb_spec old_str "") as [->|Hp]; [intros [= <-]; by left|].
  pose proof (match_sound old_str content 0 0) as Hs.
  pose proof (λ k Ho, match_complete old_str Hp content 0 0 k Ho (Nat.le_0_l k)) as Hc.
  unfold match_indices in *.
  destruct (match_indices_go old_str 0 0 content) as [|i [|j l]] eqn:Hm; simpl length.
  - intros (msg & _ & ->)%fmap_Some. right. intros k Ho.
    destruct (Hc k Ho) as (i & Hi & _). by apply elem_of_nil in Hi.
  - intros [= <-]. destruct (Hs i) as (k & Hi & _ & pre & post & He & Hk);
      [left|]. simpl in Hi. subst k. exists pre, post. rewrite He.
    assert (Hall : ∀ k, occurs old_str (pre +:+ old_str +:+ post) k →
              String.length pre ≤ k < String.length pre + String.length old_str).
    { intros k Ho. rewrite <- He in Ho. destruct (Hc k Ho) as (i' & Hi' & Hb).
      apply list_elem_of_singleton in Hi' as ->. lia. }
    split; [done|]. split; [|exact Hall].
    apply replace_first_spec; [done|]. intros k Ho. by apply Hall.
  - intros (msg & _ & ->)%fmap_Some. exists i, j.
    pose proof (match_apart old_str Hp content 0 0 i j l Hm).
    destruct (Hs i) as (k & Hi & _ & Ho1); [left|].
    destruct (Hs j) as (k' & Hj & _ & Ho2); [right; left|].
    simpl in Hi, Hj. subst k k'. done.
Qed.

(** * The file and output tools of the chat agent *)

(** * The file tools stay inside the workspace; spilled output is complete

    Facts about paths that were resolved through any symbolic links: they are
    canonical, and resolving them again changes nothing. *)

(** ** Canonical paths *)

Section canonical.
Context (fs : fsys).

(** Every non-empty prefix is a directory entry, and no component is [..]. *)
Definition real_dir (p : path) : Prop :=
  no_dotdot p ∧ ∀ x, x `prefix_of` p → x ≠ [] → fs !! x = Some Dir.

(** The proper prefixes are directories and the entry itself is no link. *)
Definition canonical (p : path) : Prop :=
  no_dotdot p ∧ (∀ x, x `prefix_of` p → x ≠ p → x ≠ [] → fs !! x = Some Dir) ∧
  ∀ t, fs !! p ≠ Some (Link t).

Lemma real_dir_nil : real_dir [].
Proof. split; [constructor|]. by intros x ->%prefix_nil_inv. Qed.

Lemma real_dir_removelast p : real_dir p → real_dir (removelast p).
Proof.
  intros [Hd Hp]. destruct p as [|c p _] using rev_ind; [done|].
  rewrite removelast_last. apply Forall_app in Hd as [Hd _]. split; [done|].
  intros x Hx. apply Hp. by apply prefix_app_r.
Qed.

Lemma real_dir_snoc p c :
  real_dir p → c ≠ ".." → fs !! (p ++ [c]) = Some Dir → real_dir (p ++ [c]).
Proof.
  intros [Hd Hp] Hc Hn. split.
  - apply Forall_app. split; [done|]. by constructor.
  - intros x [Hx| ->]%prefix_snoc_inv Hne; [by apply Hp|done].
Qed.

Lemma canonical_real p : fs !! [] = None → real_dir p → canonical p.
Proof.
  intros H0 [Hd Hp]. split; [done|]. split.
  - intros x Hx _. by apply Hp.
  - intros t Ht. destruct p as [|c p]; [congruence|].
    rewrite (Hp (c :: p)) in Ht; done.
Qed.

Lemma canonical_snoc p c :
  real_dir p → c ≠ ".." → (∀ t, fs !! (p ++ [c]) ≠ Some (Link t)) → canonical (p ++ [c]).
Proof.
  intros [Hd Hp] Hc Hn. split; [|split; [|done]].
  - apply Forall_app. split; [done|]. by constructor.
  - intros x [Hx| ->]%prefix_snoc_inv Hne Hx0; [by apply Hp|done].
Qed.

Lemma resolve_go_canonical links cur rest q :
  fs !! [] = None → real_dir cur → resolve_go links fs cur rest = inr q → canonical q.
Proof.
  intros H0. revert cur rest. induction links as [links IH] using lt_wf_ind.
  intros cur rest. revert cur. induction rest as [|c rest IHr]; intros cur Hcur.
  { destruct links; simpl; intros [= <-]; by apply canonical_real. }
  assert (Hgo : resolve_go links fs cur (c :: rest) =
    if String.eqb c ".." then resolve_go links fs (removelast cur) rest else
    match fs !! (cur ++ [c]) with
    | Some (Link t) => match links with
                       | O => inl FilesystemLoop
                       | S l => resolve_go l fs [] (t ++ rest)
                       end
    | Some Dir => resolve_go links fs (cur ++ [c]) rest
    | Some (File _) => match rest with [] => inr (cur ++ [c]) | _ => inl NotADirectory end
    | None => match rest with [] => inr (cur ++ [c]) | _ => inl NotFound end
    end) by (by destruct links).
  rewrite Hgo. clear Hgo. destruct (String.eqb_spec c "..") as [->|Hc].
  { apply IHr. by apply real_dir_removelast. }
  destruct (fs !! (cur ++ [c])) as [[s| |t]|] eqn:Hn.
  - destruct rest; [|done]. intros [= <-]. apply canonical_snoc; [done..|].
    intros t. by rewrite Hn.
  - apply IHr. by apply real_dir_snoc.
  - destruct links as [|l]; [done|]. apply IH; [lia|]. apply real_dir_nil.
  - destruct rest; [|done]. intros [= <-]. apply canonical_snoc; [done..|].
    intros t. by rewrite Hn.
Qed.

Lemma resolve_canonical p q : fs !! [] = None → resolve fs p = inr q → canonical q.
Proof. intros H0. apply resolve_go_canonical; [done|]. apply real_dir_nil. Qed.
End canonical.

(** Resolving a canonical path again, also after a file was put at it. *)
Lemma resolve_go_again fs q links cur rest :
  canonical fs q → cur ++ rest = q → resolve_go links fs cur rest = inr q.
Proof.
  intros (Hd & Hp & Hl) Hq. revert cur Hq. induction rest as [|c rest IH]; intros cur Hq.
  { rewrite app_nil_r in Hq. subst. by destruct links. }
  assert (Hc : c ≠ "..").
  { rewrite <- Hq in Hd. apply Forall_app in Hd as [_ Hd]. by inversion Hd. }
  destruct links; simpl; rewrite (proj2 (String.eqb_neq c "..")) by done.
  all: destruct rest as [|d rest];
    [|rewrite (Hp (cur ++ [c]));
      [apply IH; by rewrite <- (assoc (++))
      |exists (d :: rest); by rewrite <- (assoc (++))
      |intros He; rewrite <- He in Hq; apply (f_equal length) in Hq;
       rewrite !length_app in Hq; simpl in Hq; lia
      |by destruct cur]].
  all: subst q; destruct (fs !! (cur ++ [c])) as [[s| |t]|] eqn:Hn; try done;
    by destruct (Hl t).
Qed.

Lemma resolve_again fs q : canonical fs q → resolve fs q = inr q.
Proof. intros Hc. by apply resolve_go_again. Qed.

Lemma resolve_go_put fs q s links cur rest :
  fs !! q ≠ Some Dir → (∀ t, fs !! q ≠ Some (Link t)) →
  resolve_go links fs cur rest = inr q →
  resolve_go links (<[q := File s]> fs) cur rest = inr q.
Proof.
  intros Hd Hl. revert cur rest. induction links as [links IH] using lt_wf_ind.
  intros cur rest. revert cur. induction rest as [|c rest IHr]; intros cur.
  { by destruct links. }
  assert (Hgo : ∀ g : fsys, resolve_go links g cur (c :: rest) =
    if String.eqb c ".." then resolve_go links g (removelast cur) rest else
    match g !! (cur ++ [c]) with
    | Some (Link t) => match links with
                       | O => inl FilesystemLoop
                       | S l => resolve_go l g [] (t ++ rest)
                       end
    | Some Dir => resolve_go links g (cur ++ [c]) rest
    | Some (File _) => match rest with [] => inr (cur ++ [c]) | _ => inl NotADirectory end
    | None => match rest with [] => inr (cur ++ [c]) | _ => inl NotFound end
    end) by (intros; by destruct links).
  rewrite !Hgo. clear Hgo. destruct (String.eqb c ".."); [apply IHr|].
  destruct (decide (q = cur ++ [c])) as [->|Hne].
  - rewrite lookup_insert_eq.
    destruct (fs !! (cur ++ [c])) as [[x| |t]|] eqn:Hn; [|done|by destruct (Hl t)|];
      by destruct rest.
  - rewrite lookup_insert_ne by done.
    destruct (fs !! (cur ++ [c])) as [[x| |t]|]; [done|apply IHr| |done].
    destruct links as [|l]; [done|]. apply IH. lia.
Qed.

(** What is written is read back, through the same path. *)
Lemma write_read fs p s fs' :
  fs !! [] = None → fs_write fs p s = inr fs' →
  ∃ q, resolve fs p = inr q ∧ canonical fs q ∧ q ≠ [] ∧ fs' = <[q := File s]> fs ∧
    fs_read fs' p = inr s.
Proof.
  intros H0. unfold fs_write. destruct (resolve fs p) as [|q] eqn:Hr; [done|].
  pose proof (resolve_canonical fs p q H0 Hr) as Hc. intros Hw.
  assert (Hq : q ≠ [] ∧ fs !! q ≠ Some Dir ∧ fs' = <[q := File s]> fs).
  { destruct q as [|c q]; simpl in Hw; [done|].
    destruct (fs !! (c :: q)) as [[]|]; naive_solver. }
  destruct Hq as (Hq & Hnd & ->). exists q. split_and!; try done.
  unfold fs_read, stat, resolve. rewrite resolve_go_put; [|done|apply Hc|done].
  unfold look. destruct q; [done|]. by rewrite lookup_insert_eq.
Qed.

(** ** The file tools *)

(** The workspace root after its links are followed. *)
Definition canonical_root (fs : fsys) (root : path) : path :=
  match stat fs root with inr (q, _) => q | inl _ => root end.

Lemma resolve_workspace_run root p w :
  resolve_workspace_path root p w =
  match stat (w_fs w) (join root (trim_start_matches "./" (trim p))) with
  | inl k => (Err (tool_io "path not found" k), w)
  | inr (q, _) =>
      match strip_path (canonical_root (w_fs w) root) q with
      | Some _ => (Ok q, w)
      | None => (Err (Tool "path escapes workspace root"), w)
      end
  end.
Proof.
  unfold resolve_workspace_path, canonical_root, tool_read, get_fs, mbind, M_bind.
  destruct (stat (w_fs w) (join root _)) as [k|[q n]]; [done|]. simpl.
  by destruct (stat (w_fs w) root) as [k|[q' n']]; destruct (strip_path _ q).
Qed.

Lemma resolve_workspace_ok root p w q w' :
  resolve_workspace_path root p w = (Ok q, w') →
  w' = w ∧ canonical_root (w_fs w) root `prefix_of` q ∧
  ∃ n, stat (w_fs w) (join root (trim_start_matches "./" (trim p))) = inr (q, n).
Proof.
  rewrite resolve_workspace_run. destruct (stat _ _) as [k|[q' n]] eqn:Hs; [done|].
  destruct (strip_path _ q') as [k|] eqn:Hp; [|done]. intros [= -> <-].
  apply strip_path_Some in Hp. split; [done|]. split; [by exists k|eauto].
Qed.

Lemma stat_canonical fs p q n :
  fs !! [] = None → stat fs p = inr (q, n) → canonical fs q ∧ look fs q = Some n.
Proof.
  intros H0. unfold stat. destruct (resolve fs p) as [|q'] eqn:Hr; [done|].
  apply resolve_canonical in Hr; [|done]. destruct (look fs q') eqn:Hk; naive_solver.
Qed.

Lemma read_canonical fs q s :
  canonical fs q → fs_read_to_string fs q = inr s → file_of fs q = Some s ∧ q ≠ [].
Proof.
  intros Hc. unfold fs_read_to_string, fs_read, stat. rewrite (resolve_again fs q Hc).
  unfold file_of. destruct q as [|c q]; simpl; [done|].
  destruct (fs !! (c :: q)) as [[x| |]|]; simpl; try done.
  by destruct (utf8_valid x); intros [= ->].
Qed.

Lemma write_canonical fs q s :
  canonical fs q → q ≠ [] → is_Some (file_of fs q) →
  fs_write fs q s = inr (<[q := File s]> fs).
Proof.
  intros Hc Hq [x Hx]. unfold fs_write. rewrite (resolve_again fs q Hc).
  unfold file_of in Hx. destruct q as [|c q]; [done|]. simpl.
  by destruct (fs !! (c :: q)) as [[]|].
Qed.

(** C11: The edit tool either leaves the world as it was, without panicking and
    without reporting success, or rewrites exactly one existing file, which lies
    below the canonical workspace root even when the path leads through symbolic
    links, with the result of the replacement. *)
Theorem edit_file_contained root p old_str new_str w r w' :
  w_fs w !! [] = None →
  edit_file root p old_str new_str w = (r, w') →
  (w' = w ∧ (∀ o, r = Ok o → obs_ok o = false) ∧ ∀ why, r ≠ Panic why) ∨
  ∃ q s s', canonical_root (w_fs w) root `prefix_of` q ∧
    file_of (w_fs w) q = Some s ∧ string_replace s old_str new_str = Some (Applied s') ∧
    w' = set_fs (<[q := File s']> (w_fs w)) w ∧
    r = Ok (obs_success "edit_file" ("Updated " +:+ p)).
Proof.
  intros H0 Hw. unfold edit_file, mbind, M_bind, mret, M_ret, panic in Hw.
  destruct (resolve_workspace_path root p w) as [[q|e|x] w1] eqn:Hr.
  2,3: rewrite resolve_workspace_run in Hr; left; repeat case_match; naive_solver.
  pose proof (resolve_workspace_ok _ _ _ _ _ Hr) as (-> & Hin & n & Hs).
  apply stat_canonical in Hs as [Hc _]; [|done].
  unfold tool_read in Hw. destruct (fs_read_to_string (w_fs w) q) as [k|s] eqn:Hs;
    [left; naive_solver|].
  apply read_canonical in Hs as [Hs Hq]; [|done].
  destruct (string_replace_total s old_str new_str) as [o Hx]. rewrite Hx in Hw.
  destruct o as [s'|msg|msg]; simplify_eq; [|left; naive_solver..].
  right. unfold tool_write in Hw.
  rewrite (write_canonical (w_fs w) q s') in Hw by eauto. simplify_eq.
  exists q, s, s'. by split_and!.
Qed.

Lemma numbered_lines_length w sep from l : length (numbered_lines w sep from l) = length l.
Proof. revert from. induction l; intros; simpl; auto. Qed.

Lemma numbered_lines_lookup w sep from l i line :
  l !! i = Some line →
  numbered_lines w sep from l !! i = Some (pad_left w (pretty (from + i)) +:+ sep +:+ line).
Proof.
  revert from i. induction l as [|x l IH]; intros from [|i] Hi; simplify_eq/=.
  - by rewrite Nat.add_0_r.
  - rewrite (IH (S from)) by done. by rewrite Nat.add_succ_r.
Qed.

(** Reading a range of lines of a readable file changes nothing, panics exactly
    when the range is reversed or starts more than one line past the end of a non-
    empty file, and otherwise returns the numbered lines of the range, clamped to
    the file. *)
Theorem read_file_panics_iff root p line_start line_end w q s :
  resolve_workspace_path root p w = (Ok q, w) → fs_read_to_string (w_fs w) q = inr s →
  let len := N.of_nat (length (lines s)) in
  let start := N.max (default 1%N line_start) 1 in
  let stop := N.min (default len line_end) len in
  ∃ r, read_file root p line_start line_end w = (r, w) ∧
    if bool_decide (lines s ≠ [] ∧ stop < start - 1)%N
    then ∃ why, r = Panic why
    else ∃ o text, r = Ok o ∧ obs_ok o = true ∧
           map art_content (artifacts o) = [join_with nl text] ∧
           length text = N.to_nat (stop + 1 - start) ∧
           ∀ i line, lines s !! (N.to_nat start - 1 + i)%nat = Some line →
             (start + N.of_nat i <= stop)%N →
             text !! i = Some (pad_left 6 (pretty (N.to_nat start + i)) +:+ "| " +:+ line).
Proof.
  intros Hr Hs. unfold read_file, mbind, M_bind. rewrite Hr.
  unfold tool_read. rewrite Hs. generalize (lines s) as ls. clear.
  intros ls. set (start := N.max (default 1%N line_start) 1).
  set (stop := N.min (default (N.of_nat (length ls)) line_end) (N.of_nat (length ls))).
  assert (Hstart : (1 ≤ start)%N) by lia.
  assert (Hstop : (stop ≤ N.of_nat (length ls))%N) by lia. clearbody start stop.
  destruct ls as [|l0 ls].
  { rewrite bool_decide_false by naive_solver. eexists. split; [done|].
    eexists _, []. split_and!; [done..|simpl in *; lia|].
    intros i line. by rewrite lookup_nil. }
  unfold slice. case_bool_decide as Hb.
  - rewrite bool_decide_false by lia. eexists. split; [done|].
    eexists _, (numbered_lines 6 "| " (N.to_nat start) _). split_and!; [done..| |].
    + rewrite numbered_lines_length, length_take, length_drop. lia.
    + intros i line Hi Hle. rewrite (numbered_lines_lookup _ _ _ _ i line); [done|].
      rewrite lookup_take_lt by lia. rewrite lookup_drop.
      replace (N.to_nat (start - 1) + i) with (N.to_nat start - 1 + i) by lia.
      done.
  - rewrite bool_decide_true; [eauto|]. split; [done|]. lia.
Qed.

(** * Bounded command output: what is shown, and what is spilled *)

(** ** Counting characters *)

Lemma char_count_app s t : char_count (s +:+ t) = char_count s + char_count t.
Proof. unfold char_count. by rewrite bytes_app, List.filter_app, length_app. Qed.

Lemma char_count_le s : char_count s ≤ String.length s.
Proof. unfold char_count. rewrite <- length_bytes. apply List.filter_length_le. Qed.

Lemma take_chars_go_count n l :
  length (List.filter (λ c, negb (is_cont c)) (take_chars_go n l)) ≤ n.
Proof.
  revert n. induction l as [|c l IH]; intros n; simpl; [lia|].
  destruct (is_cont c) eqn:Hc; simpl; [rewrite Hc; simpl; apply IH|].
  destruct n as [|n]; simpl; [lia|]. rewrite Hc. simpl. specialize (IH n). lia.
Qed.

Lemma take_ellipsis_count n s : char_count (take_ellipsis n s) ≤ n + 1.
Proof.
  unfold take_ellipsis. rewrite char_count_app. unfold take_chars, char_count at 1.
  rewrite bytes_of_bytes. pose proof (take_chars_go_count n (bytes s)).
  replace (char_count ellipsis) with 1 by (by vm_compute). lia.
Qed.

(** ** Lines split and joined again *)

Fixpoint inter (l : list (list ascii)) : list ascii :=
  match l with
  | [] => []
  | [x] => x
  | x :: l' => x ++ newline :: inter l'
  end.

Lemma inter_cons x l : l ≠ [] → inter (x :: l) = x ++ newline :: inter l.
Proof. by destruct l. Qed.

Lemma split_go_ne c cur l : split_go c cur l ≠ [].
Proof. revert cur. induction l; intros; simpl; [done|]. by case_match. Qed.

Lemma inter_split cur l : inter (split_go newline cur l) = reverse cur ++ l.
Proof.
  revert cur. induction l as [|d l IH]; intros cur; cbn [split_go].
  { by rewrite app_nil_r. }
  destruct (Ascii.eqb_spec newline d) as [<-|].
  - rewrite inter_cons by apply split_go_ne. by rewrite IH, reverse_nil.
  - rewrite IH, reverse_cons, <- (assoc (++)). done.
Qed.

Lemma split_pieces cur l :
  newline ∉ cur → Forall (λ x, newline ∉ x) (split_go newline cur l).
Proof.
  revert cur. induction l as [|d l IH]; intros cur Hc; cbn [split_go].
  { constructor; [by rewrite elem_of_reverse|constructor]. }
  destruct (Ascii.eqb_spec newline d) as [<-|Hd].
  - constructor; [by rewrite elem_of_reverse|]. apply IH. by apply not_elem_of_nil.
  - apply IH. rewrite not_elem_of_cons. done.
Qed.

Lemma split_inter l :
  l ≠ [] → Forall (λ x, newline ∉ x) l → split_go newline [] (inter l) = l.
Proof.
  intros Hne Hl. induction Hl as [|x l Hx Hl IH]; [done|].
  destruct l as [|y l].
  - simpl. by rewrite split_go_none, reverse_nil by done.
  - rewrite inter_cons by done.
    rewrite split_go_app by done. by rewrite IH, reverse_nil.
Qed.

Lemma inter_drop k l : k < length l → ∃ pre, inter l = pre ++ inter (drop k l).
Proof.
  revert k. induction l as [|x l IH]; intros k Hk; simpl in Hk; [lia|].
  destruct k as [|k]; [by exists []|]. simpl drop.
  destruct (IH k) as [pre Hpre]; [lia|]. destruct l as [|y l]; [simpl in *; lia|].
  exists (x ++ newline :: pre). rewrite inter_cons, Hpre by done.
  by rewrite <- (assoc (++)).
Qed.

Lemma bytes_join l : bytes (join_with nl (map of_bytes l)) = inter l.
Proof.
  induction l as [|x l IH]; [done|]. destruct l as [|y l].
  - simpl. by rewrite bytes_of_bytes.
  - rewrite inter_cons, <- IH by done.
    change (join_with nl (map of_bytes (x :: y :: l)))
      with (of_bytes x +:+ nl +:+ join_with nl (map of_bytes (y :: l))).
    by rewrite !bytes_app, bytes_of_bytes.
Qed.

(** The last lines of a text are a suffix of it, with as many lines. *)
Lemma last_lines s k :
  k < length (split_char newline s) →
  ∃ pre, s = pre +:+ join_with nl (drop k (split_char newline s)) ∧
    length (split_char newline (join_with nl (drop k (split_char newline s))))
    = length (split_char newline s) - k.
Proof.
  unfold split_char. rewrite !length_map. intros Hk.
  set (l := split_go newline [] (bytes s)) in *.
  pose proof (inter_split [] (bytes s)) as Hi. fold l in Hi.
  destruct (inter_drop k l Hk) as [pre Hpre].
  rewrite !skipn_map.
  assert (Hb : bytes (join_with nl (map of_bytes (drop k l))) = inter (drop k l))
    by apply bytes_join.
  exists (of_bytes pre). split.
  - apply (inj bytes). rewrite bytes_app, bytes_of_bytes, Hb, <- Hpre, Hi. done.
  - rewrite Hb, split_inter, length_drop; [done| |].
    + intros Hn%(f_equal length). rewrite length_drop in Hn. simpl in Hn. lia.
    + apply Forall_drop, split_pieces, not_elem_of_nil.
Qed.

(** Truncated command output has at most 50,001 characters; it is the whole
    output when there is no notice, and then it is within both limits; otherwise the
    notice has the true totals and the text is the tail of the output, of at most 50
    lines, possibly shortened. *)
Theorem truncate_output_bounded s :
  let t := truncate_command_output s in
  (N.of_nat (char_count (to_text t)) ≤ OUTPUT_LIMIT_BYTES + 1)%N ∧
  match to_notice t with
  | None => to_text t = s ∧ (N.of_nat (String.length s) ≤ OUTPUT_LIMIT_BYTES)%N ∧
            (s = "" ∨ length (split_char newline s) ≤ OUTPUT_LIMIT_LINES)
  | Some n =>
      tn_total_bytes n = String.length s ∧
      tn_total_lines n = length (split_char newline s) ∧
      ∃ pre preview, s = pre +:+ preview ∧
        length (split_char newline preview)
          = Nat.min OUTPUT_PREVIEW_LINES (length (split_char newline s)) ∧
        (to_text t = preview ∨ to_text t = take_ellipsis (N.to_nat OUTPUT_LIMIT_BYTES) preview)
  end.
Proof.
  unfold truncate_command_output. destruct (String.eqb_spec s "") as [->|Hs].
  { simpl. split; [done|]. split; [done|]. split; [done|by left]. }
  destruct (_ && _) eqn:Hb; cbv zeta.
  - to_prop. simpl. pose proof (char_count_le s). split; [lia|]. auto with lia.
  - cbn [to_text to_notice]. split.
    + unfold truncate_to_bytes. case_match; to_prop.
      * pose proof (char_count_le (join_with nl (drop (length (split_char newline s) - OUTPUT_PREVIEW_LINES) (split_char newline s)))). lia.
      * pose proof (take_ellipsis_count (N.to_nat OUTPUT_LIMIT_BYTES)
          (join_with nl (drop (length (split_char newline s) - OUTPUT_PREVIEW_LINES) (split_char newline s)))). lia.
    + split; [done|]. split; [done|].
      assert (Hne : 0 < length (split_char newline s)).
      { unfold split_char. rewrite length_map.
        destruct (split_go newline [] (bytes s)) eqn:E; [by apply split_go_ne in E|simpl; lia]. }
      destruct (last_lines s (length (split_char newline s) - OUTPUT_PREVIEW_LINES))
        as (pre & Hpre & Hlen); [unfold OUTPUT_PREVIEW_LINES; lia|].
      exists pre. eexists. split; [exact Hpre|]. split; [rewrite Hlen; lia|].
      unfold truncate_to_bytes. case_match; auto.
Qed.

(** When a command's output is shortened, the complete output can be read back
    from the spill file the result names, and no other file changed; when no file is
    named, the shown text is the complete output or writing the spill file failed. *)
Theorem spilled_output_complete full_output spill_dir name w r w' :
  w_fs w !! [] = None →
  format_command_stream full_output spill_dir name w = (r, w') →
  ∃ res, r = Ok res ∧ sr_total_bytes res = String.length full_output ∧
  match spill_path res with
  | Some p => p = join spill_dir (name +:+ ".log") ∧
              fs_read (w_fs w') p = inr full_output ∧
              ∃ q, resolve (w_fs w) p = inr q ∧
                   ∀ x, x ≠ q → w_fs w' !! x = w_fs w !! x
  | None =>
      w' = w ∧
      (display_text res = full_output ∨
       ∃ k, fs_write (w_fs w) (join spill_dir (name +:+ ".log")) full_output = inl k)
  end.
Proof.
  intros H0. unfold format_command_stream.
  destruct (to_notice (truncate_command_output full_output)) as [n|] eqn:Hn.
  - destruct (fs_write _ _ _) as [k|fs'] eqn:Hw; intros [= <- <-].
    + eexists. split; [done|]. split; [done|]. simpl. eauto.
    + apply write_read in Hw as (q & Hq & _ & _ & -> & Hr); [|done].
      eexists. split; [done|]. split; [done|]. simpl. split; [done|]. split; [done|].
      exists q. split; [done|]. intros x Hx. by rewrite lookup_insert_ne.
  - intros [= <- <-]. eexists. split; [done|]. split; [done|]. simpl.
    split; [done|]. left. revert Hn. unfold truncate_command_output.
    destruct (String.eqb_spec full_output "") as [->|]; [done|].
    by destruct (_ && _).
Qed.
