(* ===== verification/ChatRunFacts.v ===== *)
(** * Runs of the chat agent

    What a run may do to the files, total correctness, and what the guardrails
    admit. *)

From S2P Require Import Prelude RustStr FsModel World FsFacts Frame ChatProtocol.
From S2P Require Import ChatTools ChatLoop ChatProtocol.

(** * Two calculi for runs of the chat agent

    What a run may do to the files, and total correctness. *)

(** * What a run may do to the files

    [lstable Rel m]: however the run [m] ends, the file systems before and
    after are related by the preorder [Rel]. *)

Definition lstable {A : Type} (Rel : fsys → fsys → Prop) (m : L A) : Prop :=
  ∀ w r w', m w = Some (r, w') → Rel (w_fs (cw_world w)) (w_fs (cw_world w')).

Section rules.
Context {Rel : fsys → fsys → Prop} `{!PreOrder Rel}.

Lemma lstable_ret {A} (a : A) : lstable Rel (mret a).
Proof. by intros w r w' [= <- <-]. Qed.

Lemma lstable_throw {A} e : lstable (A:=A) Rel (l_throw e).
Proof. by intros w r w' [= <- <-]. Qed.

Lemma lstable_bind {A B} (m : L A) (f : A → L B) :
  lstable Rel m → (∀ a, lstable Rel (f a)) → lstable Rel (m ≫= f).
Proof.
  intros Hm Hf w r w'. unfold mbind, L_bind.
  destruct (m w) as [[[a|e|s] w1]|] eqn:E; intros Hw; simplify_eq; [|by eapply Hm..].
  etrans; [by eapply Hm|by eapply Hf].
Qed.

(** The continuation only matters for values the first part can return. *)
Lemma lstable_bind_post {A B} (P : A → Prop) (m : L A) (f : A → L B) :
  lstable Rel m → (∀ w a w', m w = Some (Ok a, w') → P a) →
  (∀ a, P a → lstable Rel (f a)) → lstable Rel (m ≫= f).
Proof.
  intros Hm HP Hf w r w'. unfold mbind, L_bind.
  destruct (m w) as [[[a|e|s] w1]|] eqn:E; intros Hw; simplify_eq; [|by eapply Hm..].
  etrans; [by eapply Hm|eapply Hf; [by eapply HP|done]].
Qed.

Lemma lstable_attempt {A} (m : L A) : lstable Rel m → lstable Rel (l_attempt m).
Proof.
  intros Hm w r w'. unfold l_attempt.
  destruct (m w) as [[[a|e|s] w1]|] eqn:E; intros [= <- <-]; by eapply Hm.
Qed.

Lemma lstable_lift {A} (m : T A) : stable Rel m → lstable Rel (l_lift m).
Proof.
  intros Hm w r w'. unfold l_lift. specialize (Hm (cw_world w)).
  destruct (m (cw_world w)) as [r1 w1]. by intros [= <- <-].
Qed.

Lemma lstable_emit e : lstable Rel (l_emit e).
Proof. by intros w r w' [= <- <-]. Qed.

Lemma lstable_enter s st : lstable Rel (enter s st).
Proof. apply lstable_bind; [apply lstable_emit|]. intros. apply lstable_ret. Qed.

Lemma lstable_stop cancelled st : lstable Rel (stop_if_cancelled cancelled st).
Proof.
  apply lstable_bind.
  - intros w r w'. unfold is_cancelled. destruct cancelled; by intros [= <- <-].
  - intros []; [|apply lstable_ret].
    apply lstable_bind; [apply lstable_enter|]. intros. apply lstable_throw.
Qed.

Context `{Sys} `{ChatHost}.

Lemma lstable_complete r : lstable Rel (complete r).
Proof. intros w x w'. unfold complete. destruct (model_complete _ _); by intros [= <- <-]. Qed.

Lemma lstable_plan model attempt left messages :
  lstable Rel (plan_attempts model attempt left messages).
Proof.
  revert attempt messages. induction left as [|left IH]; intros attempt messages;
    (apply lstable_bind; [apply lstable_complete|]); intros response;
    destruct (parse_planner_response response); auto using lstable_ret, lstable_throw.
Qed.

Lemma lstable_commit s thought a o : lstable Rel (commit_turn s thought a o).
Proof.
  unfold commit_turn.
  do 3 (apply lstable_bind; [apply lstable_lift; eauto with frame|intros]).
  apply lstable_bind; [apply lstable_emit|]. intros. apply lstable_ret.
Qed.

Lemma lstable_gate session st thought a :
  lstable Rel (gate_tool_approval session st thought a).
Proof.
  unfold gate_tool_approval. destruct (evaluate _ _); [apply lstable_ret| |apply lstable_ret].
  apply lstable_bind; [apply lstable_emit|]. intros. apply lstable_ret.
Qed.

Lemma lstable_parse_failed st msg : lstable Rel (parse_failed st msg).
Proof. apply lstable_bind; [apply lstable_enter|]. intros. apply lstable_ret. Qed.

(** ** The tools that only look *)

Lemma stable_resolve root p : stable Rel (resolve_workspace_path root p).
Proof.
  unfold resolve_workspace_path. apply stable_bind; [eauto with frame|]. intros fs.
  apply stable_bind.
  { intros w. unfold tool_read. by destruct (stat _ _). }
  intros r. destruct (strip_path _ _); eauto with frame.
Qed.

Lemma stable_read_file root p a b : stable Rel (read_file root p a b).
Proof.
  unfold read_file. apply stable_bind; [apply stable_resolve|]. intros q.
  apply stable_bind.
  { intros w. unfold tool_read. by destruct (fs_read_to_string _ _). }
  intros s. apply stable_bind; [|eauto with frame].
  destruct (lines s); [eauto with frame|]. destruct (slice _ _ _); eauto with frame.
Qed.

(** The search executable respects [Rel]. *)
Context (Hrg : ∀ dir args fs, Rel fs (rg_run dir args fs).2).

Lemma stable_search root pattern filter : stable Rel (search_code root pattern filter).
Proof.
  unfold search_code. destruct (is_blank pattern); [eauto with frame|]. intros w.
  specialize (Hrg root (search_args pattern filter) (w_fs w)).
  by destruct (rg_run _ _ _) as [[] fs].
Qed.

(** A delegate respects it on the actions that do not change anything. *)
Definition delegate_looks (d : Dispatcher) : Prop :=
  ∀ f a, core_delegate d = Some f → is_mutating a = false → stable Rel (f a).

Lemma stable_execute d a :
  delegate_looks d → is_mutating a = false → stable Rel (execute d a).
Proof.
  intros Hd Ha. unfold execute. apply stable_bind; [|eauto with frame].
  assert (Hl : stable Rel (dispatch_local d a)).
  { destruct a; simpl in *; try done;
      auto using stable_read_file, stable_search with frame. }
  unfold dispatch. destruct (core_delegate d) as [f|] eqn:E; [|done].
  destruct (runs_locally a); [done|]. by apply (Hd f).
Qed.

(** ** The loop, when nothing is approved automatically *)

Context (self : RunLoop) (session : SessionContext) (cancelled : option (nat → bool)).
Context (Hd : delegate_looks (rl_executor self)) (Hpolicy : sc_policy session ≠ Auto).

Lemma gate_execute_looks st thought a w w' :
  gate_tool_approval session st thought a w = Some (Ok GateExecute, w') →
  is_mutating a = false.
Proof.
  unfold gate_tool_approval, evaluate, requires_user_approval.
  destruct (sc_policy session); [|done|]; by destruct (is_mutating a).
Qed.

Lemma lstable_gated {A} st thought a (f : ToolApprovalGate → L A) :
  (∀ g, (g = GateExecute → is_mutating a = false) → lstable Rel (f g)) →
  lstable Rel (gate_tool_approval session st thought a ≫= f).
Proof.
  intros Hf. eapply (lstable_bind_post (λ g, g = GateExecute → is_mutating a = false));
    [apply lstable_gate| |exact Hf].
  intros w g w' Hg ->. by eapply gate_execute_looks.
Qed.

Lemma lstable_finish s thought a :
  lstable Rel (finish_with_action self session cancelled s thought a).
Proof.
  unfold finish_with_action. apply lstable_gated. intros [] Ha.
  - apply lstable_bind; [apply lstable_enter|]. intros st.
    apply lstable_bind; [apply lstable_lift, stable_execute; auto|]. intros o.
    apply lstable_bind; [apply lstable_stop|]. intros _.
    apply lstable_bind; [apply lstable_commit|]. intros s'.
    destruct (should_pause_for_user a); (apply lstable_bind; [apply lstable_enter|]);
      intros; auto using lstable_ret, lstable_throw.
  - apply lstable_throw.
  - apply lstable_bind; [apply lstable_commit|]. intros s'.
    apply lstable_bind; [apply lstable_enter|]. intros. apply lstable_ret.
Qed.

Lemma lstable_turn s turn : lstable Rel (run_turn self session cancelled s turn).
Proof.
  assert (Hfin : ∀ thought a, lstable Rel
    (r ← finish_with_action self session cancelled s thought a;
     mret (inr r : loop_state + RunLoopOutcome))).
  { intros. apply lstable_bind; [apply lstable_finish|]. intros. apply lstable_ret. }
  unfold run_turn. destruct (check _ _); [|apply Hfin..].
  destruct (_ || _); [apply Hfin|]. apply lstable_gated. intros [] Ha.
  - apply lstable_bind; [apply lstable_enter|]. intros st.
    apply lstable_bind; [apply lstable_lift, stable_execute; auto|]. intros o.
    apply lstable_bind; [apply lstable_stop|]. intros _.
    apply lstable_bind; [apply lstable_commit|]. intros s'.
    apply lstable_bind; [apply lstable_enter|]. intros. apply lstable_ret.
  - apply lstable_throw.
  - apply lstable_bind; [apply lstable_commit|]. intros s'.
    apply lstable_bind; [apply lstable_enter|]. intros. apply lstable_ret.
Qed.

Lemma lstable_iteration s : lstable Rel (run_iteration self session cancelled s).
Proof.
  unfold run_iteration. apply lstable_bind; [apply lstable_stop|]. intros _.
  apply lstable_bind; [apply lstable_enter|]. intros st.
  apply lstable_bind; [apply lstable_attempt, lstable_plan|].
  intros [[]|turn]; auto using lstable_throw, lstable_turn.
  apply lstable_bind; [apply lstable_parse_failed|]. intros. apply lstable_ret.
Qed.

Lemma lstable_loop fuel s : lstable Rel (run_loop fuel self session cancelled s).
Proof.
  revert s. induction fuel as [|fuel IH]; intros s; simpl; [by intros w r w'|].
  apply lstable_bind; [apply lstable_iteration|].
  intros [s'|out]; [apply IH|apply lstable_ret].
Qed.

Lemma lstable_run st history :
  lstable Rel (run_with_state self session st history cancelled).
Proof.
  unfold run_with_state. apply lstable_bind; [apply lstable_enter|]. intros.
  apply lstable_loop.
Qed.
End rules.

(** * A total-correctness calculus for runs

    [wp m Q w]: the run [m] from [w] ends (it does not need more fuel) and its
    outcome and final world satisfy [Q].  One rule per function of the loop. *)

Definition wp {A : Type} (m : L A) (Q : outcome ChatAgentError A → chat_world → Prop)
    (w : chat_world) : Prop :=
  ∃ r w', m w = Some (r, w') ∧ Q r w'.

Section rules.
Implicit Types w : chat_world.

Lemma wp_mono {A} (m : L A) (Q Q' : outcome ChatAgentError A → chat_world → Prop) w :
  (∀ r w', Q r w' → Q' r w') → wp m Q w → wp m Q' w.
Proof. intros HQ (r & w' & Hm & Hr). exists r, w'. auto. Qed.

Lemma wp_ret {A} (a : A) (Q : outcome ChatAgentError A → chat_world → Prop) w :
  Q (Ok a) w → wp (mret a) Q w.
Proof. intros HQ. by exists (Ok a), w. Qed.

Lemma wp_throw {A} e (Q : outcome ChatAgentError A → chat_world → Prop) w :
  Q (Err e) w → wp (l_throw e) Q w.
Proof. intros HQ. by exists (Err e), w. Qed.

(** What follows a call: the continuation, or the end with the same failure. *)
Definition then_ {A B : Type} (f : A → L B)
    (Q : outcome ChatAgentError B → chat_world → Prop)
    (r : outcome ChatAgentError A) (w : chat_world) : Prop :=
  match r with
  | Ok a => wp (f a) Q w
  | Err e => Q (Err e) w
  | Panic s => Q (Panic s) w
  end.

Lemma wp_bind {A B} (m : L A) (f : A → L B) Q w :
  wp m (then_ f Q) w → wp (m ≫= f) Q w.
Proof.
  intros (r & w1 & Hm & Hr). unfold wp, mbind, L_bind. rewrite Hm.
  destruct r; simpl in Hr; [done|eauto..].
Qed.

Lemma wp_attempt {A} (m : L A) Q w :
  wp m (λ r w', match r with
                | Ok a => Q (Ok (inr a)) w'
                | Err e => Q (Ok (inl e)) w'
                | Panic s => Q (Panic s) w'
                end) w → wp (l_attempt m) Q w.
Proof.
  intros (r & w1 & Hm & Hr). unfold wp, l_attempt. rewrite Hm. destruct r; eauto.
Qed.

(** The world after one more callback. *)
Definition logged (e : chat_event) (w : chat_world) : chat_world :=
  ChatWorld (cw_world w) (cw_calls w) (cw_loads w) (cw_events w ++ [e]).

Lemma wp_enter s st Q w :
  Q (Ok (set_run_status s st)) (logged (EvStatus (set_run_status s st)) w) →
  wp (enter s st) Q w.
Proof. intros HQ. unfold wp, enter, mbind, L_bind. simpl. eauto. Qed.

Lemma wp_stop cancelled st (Q : outcome ChatAgentError unit → chat_world → Prop) w :
  (∀ w', cw_events w' = cw_events w → Q (Ok tt) w') →
  (∀ w', cw_events w' = cw_events w ++ [EvStatus (set_run_status RCancelled st)] →
         Q (Err Cancelled) w') →
  wp (stop_if_cancelled cancelled st) Q w.
Proof.
  intros H1 H2. unfold wp, stop_if_cancelled, is_cancelled, mbind, L_bind.
  destruct cancelled as [flag|]; simpl; [|by eexists _, _; split; [done|]; apply H1].
  destruct (flag (cw_loads w)); eexists _, _; (split; [done|]); [by apply H2|by apply H1].
Qed.

Context `{Sys} `{ChatHost}.

Lemma wp_commit s thought a o (Q : outcome ChatAgentError loop_state → chat_world → Prop) w :
  (∀ step w', step_thought step = thought → step_action step = a →
     step_observation step = o →
     cw_events w' = cw_events w ++ [EvStep (push_step step (ls_state s)) step] →
     Q (Ok {| ls_state := push_step step (ls_state s);
              ls_guardrails := record_turn a (obs_ok o) (ls_guardrails s);
              ls_history := ls_history s ++ turn_messages thought a o |}) w') →
  wp (commit_turn s thought a o) Q w.
Proof.
  intros HQ. unfold wp, commit_turn, mbind, L_bind. simpl.
  eexists _, _. split; [done|]. by apply HQ.
Qed.

Lemma wp_execute d a (Q : outcome ChatAgentError Observation → chat_world → Prop) w :
  (∀ r w', cw_events w' = cw_events w → execute d a (cw_world w) = (r, cw_world w') →
           Q r w') →
  wp (l_lift (execute d a)) Q w.
Proof.
  intros HQ. unfold wp, l_lift. destruct (execute d a (cw_world w)) as [r w1].
  eexists _, _. split; [done|]. by apply HQ.
Qed.

(** The planner: a turn, a parse error or an error of the model client, after
    at most [left + 1] requests. *)
Lemma wp_plan model attempt left messages
    (Q : outcome ChatAgentError PlannerTurn → chat_world → Prop) w :
  (∀ r w', cw_events w' = cw_events w → cw_world w' = cw_world w →
     cw_calls w < cw_calls w' ≤ cw_calls w + left + 1 →
     (∃ request text turn, model_complete (pred (cw_calls w')) request = inr text ∧
        parse_planner_response text = inr turn ∧ r = Ok turn) ∨
     (∃ e, r = Err (ParseErr e) ∧ cw_calls w' = cw_calls w + left + 1) ∨
     (∃ e, r = Err (ModelApi e)) → Q r w') →
  wp (plan_attempts model attempt left messages) Q w.
Proof.
  revert attempt messages w. induction left as [|left IH]; intros attempt messages w HQ;
    simpl; apply wp_bind; unfold wp, complete;
    destruct (model_complete (cw_calls w) _) as [e|text] eqn:Hc; simpl;
    eexists _, _; (split; [done|]); simpl.
  1,3: by apply HQ; simpl; eauto with lia.
  - destruct (parse_planner_response text) eqn:Hp.
    + apply wp_throw. apply HQ; simpl; [done|done|lia|]. right; left. eauto with lia.
    + apply wp_ret. apply HQ; simpl; [done|done|lia|]. left. eauto 10.
  - destruct (parse_planner_response text) eqn:Hp.
    + apply IH. intros r w' He Hw Hn Hr. apply HQ; simpl in *; [done|done|lia|].
      destruct Hr as [?|[(e & -> & ?)|?]]; [by left| |by right; right].
      right; left. exists e. split; [done|]. lia.
    + apply wp_ret. apply HQ; simpl; [done|done|lia|]. left. eauto 10.
Qed.
End rules.

(** * The guardrails and the run loop

    What the guardrails admit, and that the loop ends within its limits. *)

(** * Guardrails: what the admitted turns of a run look like

    The guardrails are a summary of the steps they recorded; a turn is
    admitted when the summary of the steps before it lets it continue. *)

Lemma u32_add_small a b : (a + b ≤ u32_max)%N → u32_add a b = (a + b)%N.
Proof. unfold u32_add, u32_max. intros. rewrite N.mod_small; lia. Qed.

Section replay.
Context (c : GuardrailsConfig).
Implicit Types (l : list StepRecord) (s : StepRecord).

Definition step_ok s : bool := obs_ok (step_observation s).
Definition edits (p : string) s : bool :=
  match step_action s with EditFile q _ _ => String.eqb p q | _ => false end.

(** The counter a file has after [n] edits. *)
Definition edit_counter (n : nat) : option N :=
  match n with 0 => None | S _ => Some (N.of_nat n) end.

Lemma replay_snoc l s :
  replay_steps c (l ++ [s]) = record_turn (step_action s) (step_ok s) (replay_steps c l).
Proof. unfold replay_steps. by rewrite foldl_app. Qed.

Lemma replay_config l : g_config (replay_steps c l) = c.
Proof.
  induction l as [|s l IH] using rev_ind; [done|]. by rewrite replay_snoc.
Qed.

Lemma replay_turns l :
  (N.of_nat (length l) ≤ u32_max)%N → turn_count (replay_steps c l) = N.of_nat (length l).
Proof.
  induction l as [|s l IH] using rev_ind; [done|]. rewrite replay_snoc, length_app.
  simpl. intros Hl. rewrite IH by lia. rewrite u32_add_small; lia.
Qed.

(** No counter exceeds the number of recorded turns. *)
Lemma replay_bounds l :
  (N.of_nat (length l) ≤ u32_max)%N →
  (consecutive_failures (replay_steps c l) ≤ N.of_nat (length l))%N ∧
  (identical_count (replay_steps c l) ≤ N.of_nat (length l))%N ∧
  ∀ p, file_edit_counts (replay_steps c l) !! p
       = edit_counter (length (List.filter (edits p) l)).
Proof.
  induction l as [|s l IH] using rev_ind; [done|]. rewrite replay_snoc, length_app.
  simpl. intros Hl. destruct IH as (Hf & Hi & He); [lia|]. split_and!.
  - destruct (step_ok s); [lia|]. rewrite u32_add_small; lia.
  - case_bool_decide; [|lia]. rewrite u32_add_small; lia.
  - intros p. rewrite List.filter_app, length_app. specialize (He p).
    assert (Hn : length (List.filter (edits p) l) ≤ length l)
      by apply List.filter_length_le.
    assert (Hs : edits p s = match step_action s with
                             | EditFile q _ _ => String.eqb p q | _ => false end) by done.
    simpl. rewrite Hs. destruct (step_action s) as [| |q old new| | |]; simpl;
      try (by rewrite Nat.add_0_r).
    destruct (String.eqb_spec p q) as [<-|Hne]; simpl.
    + rewrite lookup_insert_eq, He. rewrite Nat.add_1_r. simpl. f_equal.
      destruct (length (List.filter (edits p) l)); simpl; rewrite u32_add_small; lia.
    + rewrite lookup_insert_ne by done. by rewrite Nat.add_0_r.
Qed.

(** Trailing failures and repetitions are counted. *)
Lemma replay_failing l k :
  (N.of_nat (length (l ++ k)) ≤ u32_max)%N → Forall (λ s, step_ok s = false) k →
  (N.of_nat (length k) ≤ consecutive_failures (replay_steps c (l ++ k)))%N.
Proof.
  induction k as [|s k IH] using rev_ind; [simpl; lia|]. intros Hl [Hk Hs]%Forall_app.
  rewrite Forall_singleton in Hs. rewrite (assoc (++)) in *. rewrite replay_snoc. simpl.
  rewrite Hs. rewrite !length_app in *. simpl in *.
  destruct (replay_bounds (l ++ k)) as [Hb _]; rewrite ?length_app in *; [lia|].
  specialize (IH ltac:(lia) Hk). rewrite u32_add_small; lia.
Qed.

Lemma replay_repeated l k f :
  (N.of_nat (length (l ++ k)) ≤ u32_max)%N →
  Forall (λ s, fingerprint (step_action s) = f) k → k ≠ [] →
  last_fingerprint (replay_steps c (l ++ k)) = Some f ∧
  (N.of_nat (length k) ≤ identical_count (replay_steps c (l ++ k)))%N.
Proof.
  induction k as [|s k IH] using rev_ind; [done|]. intros Hl [Hk Hs]%Forall_app _.
  rewrite Forall_singleton in Hs. rewrite (assoc (++)) in *. rewrite replay_snoc. simpl.
  rewrite Hs. split; [done|]. rewrite !length_app in *. simpl in *.
  destruct (replay_bounds (l ++ k)) as (_ & Hb & _); rewrite ?length_app in *; [lia|].
  destruct k as [|s' k].
  { simpl. case_bool_decide; [|lia]. rewrite u32_add_small; [lia|].
    simpl in *. lia. }
  destruct IH as [Hf Hi]; [simpl in *; lia|done..|]. rewrite Hf, bool_decide_true by done.
  rewrite u32_add_small; simpl in *; lia.
Qed.

(** ** Admitted turns *)

(** Every step was let through by the guardrails of the steps before it. *)
Definition admitted l : Prop :=
  ∀ i s, l !! i = Some s → check (replay_steps c (take i l)) (step_action s) = Continue.

Lemma admitted_nil : admitted [].
Proof. intros i s. by rewrite lookup_nil. Qed.

Lemma admitted_snoc l s :
  admitted l → check (replay_steps c l) (step_action s) = Continue → admitted (l ++ [s]).
Proof.
  intros Hl Hs i x Hx. apply lookup_app_Some in Hx as [Hx|[Hi Hx]].
  - rewrite take_app_le; [by apply Hl|]. apply lookup_lt_Some in Hx. lia.
  - destruct (i - length l) as [|k] eqn:E; [|by destruct k]. injection Hx as <-.
    replace i with (length l) by lia. by rewrite take_app_length.
Qed.

Lemma admitted_split l s k :
  admitted (l ++ s :: k) → check (replay_steps c l) (step_action s) = Continue.
Proof.
  intros Ha. specialize (Ha (length l) s). rewrite take_app_length in Ha. apply Ha.
  by apply list_lookup_middle.
Qed.

Lemma admitted_prefix l k : admitted (l ++ k) → admitted l.
Proof.
  intros Ha i s Hi. specialize (Ha i s). rewrite take_app_le in Ha.
  - apply Ha. by apply lookup_app_l_Some.
  - apply lookup_lt_Some in Hi. lia.
Qed.

(** What [Continue] says about the counters. *)
Lemma check_continue g a :
  check g a = Continue →
  (turn_count g < max_turns (g_config g))%N ∧
  (identical_count g < max_identical_actions (g_config g))%N ∧
  (consecutive_failures g < max_consecutive_failures (g_config g))%N ∧
  ∀ p old new, a = EditFile p old new → too_many_edits g p = false.
Proof.
  unfold check. repeat case_match; try done; to_prop; intros _; split_and!; try done.
  all: intros; simplify_eq; done.
Qed.

Hypothesis Hmax : (max_turns c ≤ u32_max)%N.

Lemma admitted_length l : admitted l → (N.of_nat (length l) ≤ max_turns c)%N.
Proof.
  intros Ha. destruct (decide (N.of_nat (length l) ≤ max_turns c)%N); [done|].
  exfalso. destruct (lookup_lt_is_Some_2 l (N.to_nat (max_turns c))) as [s Hs]; [lia|].
  apply Ha, check_continue in Hs as (Ht & _). rewrite replay_config, replay_turns in Ht;
    rewrite length_take in *; lia.
Qed.

(** The limits on an admitted list of turns. *)
Record within_limits l : Prop := {
  wl_turns : (N.of_nat (length l) ≤ max_turns c)%N;
  wl_failures : ∀ a k b, l = a ++ k ++ b → Forall (λ s, step_ok s = false) k →
    (N.of_nat (length k) ≤ max_consecutive_failures c)%N;
  wl_identical : ∀ a k b f, l = a ++ k ++ b →
    Forall (λ s, fingerprint (step_action s) = f) k →
    (N.of_nat (length k) ≤ max_identical_actions c)%N;
  wl_edits : ∀ p, (N.of_nat (length (List.filter (edits p) l))
                   ≤ N.max 1 (max_edits_per_file c))%N
}.

Lemma admitted_window l a k s b :
  admitted l → l = a ++ (k ++ [s]) ++ b →
  check (replay_steps c (a ++ k)) (step_action s) = Continue ∧
  (N.of_nat (length (a ++ k)) ≤ u32_max)%N.
Proof.
  intros Ha Hl. pose proof (admitted_length l Ha) as Hlen. subst l.
  replace (a ++ (k ++ [s]) ++ b) with ((a ++ k) ++ s :: b) in *
    by (by rewrite <- !(assoc (++))).
  split; [by eapply admitted_split|]. rewrite length_app in Hlen. lia.
Qed.

Lemma admitted_within l : admitted l → within_limits l.
Proof.
  intros Ha. pose proof (admitted_length l Ha) as Hlen. split; [done|..].
  - intros a k b Hl Hk. destruct k as [|s k _] using rev_ind; [simpl; lia|].
    apply (admitted_window l a k s b) in Hl as [Hc Hb]; [|done].
    apply Forall_app in Hk as [Hk _]. pose proof (replay_failing a k Hb Hk).
    apply check_continue in Hc as (_ & _ & Hc & _). rewrite replay_config in Hc.
    rewrite length_app. simpl. lia.
  - intros a k b f Hl Hk. destruct k as [|s k _] using rev_ind; [simpl; lia|].
    apply (admitted_window l a k s b) in Hl as [Hc Hb]; [|done].
    apply Forall_app in Hk as [Hk _].
    apply check_continue in Hc as (_ & Hc & _). rewrite replay_config in Hc.
    rewrite length_app. simpl. destruct k as [|s' k]; [simpl; lia|].
    destruct (replay_repeated a (s' :: k) f Hb Hk) as [_ Hi]; [done|lia].
  - intros p. revert Ha Hlen. induction l as [|s l IH] using rev_ind; [simpl; lia|].
    intros Ha Hlen. rewrite List.filter_app, !length_app in *. simpl in *.
    pose proof (admitted_split l s [] Ha) as Hc. apply admitted_prefix in Ha.
    specialize (IH Ha ltac:(lia)). destruct (edits p s) eqn:He; simpl; [|lia].
    unfold edits in He. destruct (step_action s) as [| |q old new| | |] eqn:E; try done.
    to_prop. subst q. apply check_continue in Hc as (_ & _ & _ & Hc).
    specialize (Hc p old new eq_refl). unfold too_many_edits in Hc.
    destruct (replay_bounds l) as (_ & _ & Hr); [lia|]. rewrite Hr in Hc.
    rewrite replay_config in Hc. destruct (length (List.filter (edits p) l)); simpl in Hc;
      to_prop; lia.
Qed.
End replay.

(** * The run loop ends, within its limits

    The invariant of the loop: the guardrails are the summary of the steps of
    this run, the history is the initial one followed by the messages of
    those steps, and every step was admitted. *)

(** ** Errors of the local tools *)

Section errors.
Context `{ChatHost}.

Definition tool_error {A} (m : T A) : Prop :=
  ∀ w e w', m w = (Err e, w') → ∃ msg, e = Tool msg.

Lemma tool_error_ret {A : Type} (a : A) : tool_error (mret a).
Proof. done. Qed.
Lemma tool_error_panic {A : Type} s : tool_error (panic s : T A).
Proof. done. Qed.
Lemma tool_error_throw {A : Type} msg : tool_error (throw (Tool msg) : T A).
Proof. intros w e w' [= <- _]. eauto. Qed.
Lemma tool_error_bind {A B : Type} (m : T A) (f : A → T B) :
  tool_error m → (∀ a, tool_error (f a)) → tool_error (m ≫= f).
Proof.
  intros Hm Hf w e w'. unfold mbind, M_bind.
  destruct (m w) as [[a|e1|s] w1] eqn:E; intros Hw; simplify_eq; [by eapply Hf|eauto].
Qed.
Lemma tool_error_read {A : Type} (name : string) (f : fsys → io_kind + A) :
  tool_error (tool_read name f).
Proof.
  intros w e w'. unfold tool_read, tool_io. destruct (f (w_fs w)); [|done].
  intros [= <- _]. eauto.
Qed.
Lemma tool_error_write (name : string) f : tool_error (tool_write name f).
Proof.
  intros w e w'. unfold tool_write, tool_io. destruct (f (w_fs w)); [|done].
  intros [= <- _]. eauto.
Qed.

Create HintDb tool discriminated.
#[local] Hint Resolve tool_error_ret tool_error_panic tool_error_throw tool_error_read
  tool_error_write : tool.

Lemma tool_error_resolve root p : tool_error (resolve_workspace_path root p).
Proof.
  unfold resolve_workspace_path. apply tool_error_bind; [done|]. intros fs.
  apply tool_error_bind; [auto with tool|]. intros r.
  destruct (strip_path _ _); auto with tool.
Qed.

Lemma tool_error_format text dir n name : tool_error (format_stream text dir n name).
Proof.
  unfold format_stream. destruct dir as [d|].
  - intros w e w'. unfold format_command_stream. repeat case_match; done.
  - case_match; auto with tool.
Qed.

Lemma tool_error_shell dir command t : tool_error (run_shell dir command t).
Proof.
  intros w e w'. unfold run_shell, tool_io. repeat case_match; intros Hw; simplify_eq; eauto.
Qed.

Lemma tool_error_local d a : tool_error (dispatch_local d a).
Proof.
  destruct a; simpl; auto with tool.
  - unfold read_file. apply tool_error_bind; [apply tool_error_resolve|]. intros q.
    apply tool_error_bind; [auto with tool|]. intros s.
    apply tool_error_bind; [|auto with tool].
    destruct (lines s); [auto with tool|]. destruct (slice _ _ _); auto with tool.
  - unfold search_code. destruct (is_blank pattern); [auto with tool|].
    intros w e w'. unfold tool_io. repeat case_match; intros Hw; simplify_eq; eauto.
  - unfold edit_file. apply tool_error_bind; [apply tool_error_resolve|]. intros q.
    apply tool_error_bind; [auto with tool|]. intros s.
    destruct (string_replace s old_str new_str) as [[]|]; auto with tool.
    apply tool_error_bind; auto with tool.
  - unfold run_command. destruct (String.eqb (trim command) ""); [auto with tool|].
    destruct (blocked_by _ _); [auto with tool|].
    apply tool_error_bind; [destruct cwd; auto using tool_error_resolve with tool|]. intros dir.
    apply tool_error_bind; [apply tool_error_shell|]. intros o.
    apply tool_error_bind; [apply tool_error_format|]. intros out.
    apply tool_error_bind; [apply tool_error_format|]. intros err. auto with tool.
Qed.

Lemma tool_error_execute d a : core_delegate d = None → tool_error (execute d a).
Proof.
  intros Hd. unfold execute, dispatch. rewrite Hd.
  apply tool_error_bind; [apply tool_error_local|]. auto with tool.
Qed.
End errors.

(** ** The loop *)

Section loop.
Context `{Sys} `{ChatHost}.
Context (self : RunLoop) (session : SessionContext) (cancelled : option (nat → bool)).
Context (l0 : list StepRecord) (h0 : list ChatMessage).
Local Abbreviation c := (rl_guardrails self).

Definition step_messages (s : StepRecord) : list ChatMessage :=
  turn_messages (step_thought s) (step_action s) (step_observation s).

Record loop_inv (s : loop_state) (new : list StepRecord) : Prop := {
  li_steps : steps (ls_state s) = l0 ++ new;
  li_guards : ls_guardrails s = replay_steps c new;
  li_history : ls_history s = h0 ++ flat_map step_messages new;
  li_admitted : admitted c new
}.

(** The steps of a reported state: those of this run were admitted, the last
    one perhaps excepted. *)
Definition follows (l : list StepRecord) : Prop :=
  ∃ new, l = l0 ++ new ∧ admitted c (removelast new).

Definition reports (e : chat_event) : Prop :=
  match e with EvStatus s | EvStep s _ => follows (steps s) end.

Definition evolves (w w' : chat_world) : Prop :=
  ∃ es, cw_events w' = cw_events w ++ es ∧ Forall reports es.

(** A run that waits for an approval has reported what it waits for. *)
Definition paused (w : chat_world) : Prop :=
  ∃ st p, last (cw_events w) = Some (EvStatus st) ∧ pending_turn st = Some p ∧
    status st = RAwaitingToolApproval ∧ is_mutating (pt_action p) = true ∧
    awaiting_tool_approval st = Some {| tool_name := type_name (pt_action p);
                                        ta_summary := approval_summary (pt_action p) |} ∧
    sc_policy session = OnRequest.

Definition good {A} (P : A → Prop) (w : chat_world) (r : outcome ChatAgentError A)
    (w' : chat_world) : Prop :=
  evolves w w' ∧ (∀ a, r = Ok a → P a) ∧
  (core_delegate (rl_executor self) = None → r = Err AwaitingToolApproval → paused w').

Lemma follows_admitted new : admitted c new → follows (l0 ++ new).
Proof.
  intros Ha. exists new. split; [done|]. destruct new as [|s new _] using rev_ind; [done|].
  rewrite removelast_last. by apply admitted_prefix in Ha.
Qed.

Lemma follows_snoc new s : admitted c new → follows (l0 ++ new ++ [s]).
Proof. intros Ha. exists (new ++ [s]). split; [done|]. by rewrite removelast_last. Qed.

Lemma evolves_eq w w' : cw_events w' = cw_events w → evolves w w'.
Proof. intros He. exists []. by rewrite app_nil_r. Qed.

Lemma evolves_log w w1 w2 e :
  evolves w w1 → cw_events w2 = cw_events w1 ++ [e] → reports e → evolves w w2.
Proof.
  intros (es & He & Hes) H2 Hr. exists (es ++ [e]). rewrite H2, He, (assoc (++)).
  split; [done|]. apply Forall_app. auto.
Qed.

Lemma evolves_same w w1 w2 : evolves w w1 → cw_events w2 = cw_events w1 → evolves w w2.
Proof. intros (es & He & Hes) H2. exists es. by rewrite H2. Qed.

Lemma paused_last st thought a w :
  evaluate a (sc_policy session) = PromptUser →
  paused (logged (EvStatus (paused_state st thought a)) w).
Proof.
  intros He. eexists _, _. simpl. rewrite last_snoc. split; [done|]. simpl. split; [done|].
  split; [done|]. unfold evaluate, requires_user_approval in He.
  destruct (sc_policy session); [|done|by destruct (is_mutating a)].
  destruct (is_mutating a) eqn:Ha; [|done]. by split_and!.
Qed.

(** The gate: continue, pause or deny. *)
Lemma wp_gate st thought a (Q : outcome ChatAgentError ToolApprovalGate → chat_world → Prop) w :
  (evaluate a (sc_policy session) = Execute → Q (Ok GateExecute) w) →
  (evaluate a (sc_policy session) = DenyReadOnly → Q (Ok GateDeniedReadOnly) w) →
  (evaluate a (sc_policy session) = PromptUser →
     Q (Ok GatePaused) (logged (EvStatus (paused_state st thought a)) w)) →
  wp (gate_tool_approval session st thought a) Q w.
Proof.
  intros H1 H2 H3. unfold gate_tool_approval, wp, mbind, L_bind.
  destruct (evaluate a (sc_policy session)); simpl; eauto 10.
Qed.

Lemma good_pause {A : Type} (P : A → Prop) w w1 st thought a :
  evolves w w1 → follows (steps st) → evaluate a (sc_policy session) = PromptUser →
  good P w (Err AwaitingToolApproval) (logged (EvStatus (paused_state st thought a)) w1).
Proof.
  intros Hw Hs He. split; [by eapply evolves_log|]. split; [done|]. intros _ _.
  by apply paused_last.
Qed.

Lemma good_err {A : Type} (P : A → Prop) w w1 e :
  evolves w w1 → e ≠ AwaitingToolApproval → good P w (Err e) w1.
Proof. intros Hw He. split; [done|]. split; [done|]. naive_solver. Qed.

Lemma good_panic {A : Type} (P : A → Prop) w w1 s :
  evolves w w1 → good P w (Panic s) w1.
Proof. intros Hw. split; [done|]. split; [done|]. naive_solver. Qed.

Lemma good_ok {A : Type} (P : A → Prop) w w1 a :
  evolves w w1 → P a → good P w (Ok a) w1.
Proof. intros Hw Ha. split; [done|]. split; naive_solver. Qed.

(** The steps of an outcome. *)
Definition ends_well (out : RunLoopOutcome) : Prop := follows (steps (out_state out)).

(** A continuing turn added one admitted step. *)
Definition goes_on (new : list StepRecord) (r : loop_state + RunLoopOutcome) : Prop :=
  match r with
  | inl s => ∃ step, loop_inv s (new ++ [step])
  | inr out => ends_well out
  end.

(** An execution that fails keeps the run good. *)
Lemma good_execute {A : Type} (P : A → Prop) w w1 w2 a (r : outcome ChatAgentError Observation)
    (Q : Observation → Prop) :
  evolves w w1 → cw_events w2 = cw_events w1 →
  execute (rl_executor self) a (cw_world w1) = (r, cw_world w2) →
  match r with
  | Ok _ => True
  | Err e => good P w (Err e) w2
  | Panic s => good P w (Panic s) w2
  end.
Proof.
  intros Hw He Hx. assert (Hw2 : evolves w w2) by (by eapply evolves_same).
  destruct r as [o|e|s]; [done| |by apply good_panic].
  split; [done|]. split; [done|]. intros Hd [= ->].
  by apply tool_error_execute in Hx as [msg ?].
Qed.

(** [enter], [execute], the cancellation check and [commit_turn], in a row:
    what [k] needs to know about the state and the world it starts from. *)
Lemma wp_step {B : Type} (P : B → Prop) w w1 s new thought a g
    (k : loop_state → RunState → Observation → L B) :
  loop_inv s new → evolves w w1 →
  (∀ o step w2, step_action step = a → step_thought step = thought →
     step_observation step = o → evolves w w2 →
     wp (k {| ls_state := push_step step (set_run_status RExecuting (ls_state s));
              ls_guardrails := record_turn a (obs_ok o) (g o);
              ls_history := ls_history s ++ turn_messages thought a o |}
           (set_run_status RExecuting (ls_state s)) o) (good P w) w2) →
  wp (st ← enter RExecuting (ls_state s);
      o ← l_lift (execute (rl_executor self) a);
      _ ← stop_if_cancelled cancelled st;
      s' ← commit_turn {| ls_state := st; ls_guardrails := g o; ls_history := ls_history s |}
             thought a o;
      k s' st o) (good P w) w1.
Proof.
  intros [Hs _ _ Ha] Hw Hk. apply wp_bind, wp_enter.
  assert (Hf : follows (steps (ls_state s))) by (rewrite Hs; by apply follows_admitted).
  set (w2 := logged _ w1). assert (Hw2 : evolves w w2) by (by eapply evolves_log).
  apply wp_bind, wp_execute. intros r w3 He Hx.
  pose proof (good_execute P w w2 w3 a r (λ _, True) Hw2 He Hx) as Hr.
  destruct r as [o|e|x]; [|exact Hr..]. assert (Hw3 : evolves w w3) by (by eapply evolves_same).
  apply wp_bind, wp_stop.
  - intros w4 He4. apply wp_bind, wp_commit. intros step w5 Ht Hsa Ho He5.
    apply Hk; try done. eapply evolves_log; [|exact He5|].
    + by eapply evolves_same.
    + simpl. rewrite Hs, <- (assoc (++)). by apply follows_snoc.
  - intros w4 He4. apply good_err; [|done]. eapply evolves_log; [exact Hw3|exact He4|done].
Qed.

Lemma wp_finish w w1 s new thought a :
  loop_inv s new → evolves w w1 →
  wp (finish_with_action self session cancelled s thought a) (good ends_well w) w1.
Proof.
  intros Hi Hw. pose proof Hi as [Hs _ _ Ha]. unfold finish_with_action.
  assert (Hf : follows (steps (ls_state s))) by (rewrite Hs; by apply follows_admitted).
  apply wp_bind, wp_gate; intros He.
  - apply (wp_step ends_well w w1 s new thought a _ (λ s' st o, _)); [done..|].
    intros o step w2 Hsa Ht Ho Hw2. simpl.
    assert (Hf2 : follows (steps (ls_state s) ++ [step]))
      by (rewrite Hs, <- (assoc (++)); by apply follows_snoc).
    destruct (should_pause_for_user a).
    + apply wp_bind, wp_enter. apply wp_throw, good_err; [|done].
      eapply evolves_log; [exact Hw2|done|]. by destruct a.
    + apply wp_bind, wp_enter. apply wp_ret, good_ok; [by eapply evolves_log|done].
  - apply wp_bind, wp_commit. intros step w2 Ht Hsa Ho He2.
    assert (Hf2 : follows (steps (ls_state s) ++ [step]))
      by (rewrite Hs, <- (assoc (++)); by apply follows_snoc).
    assert (Hw2 : evolves w w2) by (by eapply evolves_log).
    apply wp_bind, wp_enter. apply wp_ret, good_ok; [by eapply evolves_log|done].
  - apply wp_throw. by apply good_pause.
Qed.

Lemma loop_inv_snoc s new step a st g :
  loop_inv s new → check (ls_guardrails s) a = Continue →
  step_action step = a → steps st = l0 ++ new ++ [step] →
  g = record_turn a (obs_ok (step_observation step)) (ls_guardrails s) →
  loop_inv {| ls_state := st; ls_guardrails := g;
              ls_history := ls_history s ++ step_messages step |} (new ++ [step]).
Proof.
  intros [Hs Hg Hh Ha] Hc Hst Hsteps ->. rewrite Hg in Hc. split; simpl.
  - done.
  - by rewrite replay_snoc, Hg, Hst.
  - rewrite Hh, flat_map_app, <- (assoc (++)).
    by replace (flat_map step_messages [step]) with (step_messages step)
      by (symmetry; apply app_nil_r).
  - apply admitted_snoc; [done|]. by rewrite Hst.
Qed.

Lemma wp_turn w w1 s new turn :
  loop_inv s new → evolves w w1 →
  wp (run_turn self session cancelled s turn) (good (goes_on new) w) w1.
Proof.
  intros Hi Hw. pose proof Hi as [Hs _ _ Ha]. unfold run_turn.
  set (thought := turn_thought turn). set (a := turn_action turn).
  assert (Hf : follows (steps (ls_state s))) by (rewrite Hs; by apply follows_admitted).
  assert (Hfin : ∀ a, wp (r ← finish_with_action self session cancelled s thought a;
            mret (inr r : loop_state + RunLoopOutcome)) (good (goes_on new) w) w1).
  { intros a'. apply wp_bind. eapply wp_mono; [|by apply (wp_finish w w1 s new thought a')].
    intros [out|e|x] w2 (H1 & H2 & H3); simpl.
    - apply wp_ret, good_ok; [done|]. by apply H2.
    - split; [done|]. split; [done|]. naive_solver.
    - by apply good_panic. }
  destruct (check (ls_guardrails s) a) eqn:Hc; [|apply Hfin..].
  destruct (_ || _); [apply Hfin|]. apply wp_bind, wp_gate; intros He.
  - apply (wp_step (goes_on new) w w1 s new thought a (λ _, ls_guardrails s)
      (λ s' st o, _)); [done..|].
    intros o step w2 Hsa Ht Ho Hw2. apply wp_bind, wp_enter.
    apply wp_ret, good_ok.
    + eapply evolves_log; [exact Hw2|done|]. simpl. rewrite Hs, <- (assoc (++)).
      by apply follows_snoc.
    + exists step. simpl. rewrite <- Ho, <- Ht, <- Hsa.
      eapply loop_inv_snoc; [done|exact Hc|done| |by rewrite Hsa].
      simpl. by rewrite Hs, <- (assoc (++)).
  - apply wp_bind, wp_commit. intros step w2 Ht Hsa Ho He2.
    assert (Hf2 : follows (steps (ls_state s) ++ [step]))
      by (rewrite Hs, <- (assoc (++)); by apply follows_snoc).
    apply wp_bind, wp_enter. apply wp_ret, good_ok.
    + eapply evolves_log; [by eapply evolves_log|done|done].
    + exists step. simpl. rewrite <- Ho, <- Ht, <- Hsa.
      eapply loop_inv_snoc; [done|exact Hc|done| |by rewrite Hsa, Ho].
      simpl. by rewrite Hs, <- (assoc (++)).
  - apply wp_throw. by apply good_pause.
Qed.

Lemma wp_iteration w w1 s new :
  loop_inv s new → evolves w w1 →
  wp (run_iteration self session cancelled s) (good (goes_on new) w) w1.
Proof.
  intros Hi Hw. pose proof Hi as [Hs Hg Hh Ha]. unfold run_iteration.
  assert (Hf : follows (steps (ls_state s))) by (rewrite Hs; by apply follows_admitted).
  apply wp_bind, wp_stop; intros w2 He2.
  2:{ apply good_err; [|done]. by eapply evolves_log. }
  assert (Hw2 : evolves w w2) by (by eapply evolves_same).
  apply wp_bind, wp_enter. set (w3 := logged _ w2).
  assert (Hw3 : evolves w w3) by (by eapply evolves_log).
  apply wp_bind, wp_attempt. unfold plan_next_action. apply wp_plan.
  intros r w4 He4 _ _ Hr. assert (Hw4 : evolves w w4) by (by eapply evolves_same).
  destruct Hr as [(_ & _ & turn & _ & _ & ->)|[(e & -> & _)|(e & ->)]].
  - by apply wp_turn.
  - apply wp_bind, wp_bind, wp_enter. apply wp_ret. simpl. apply wp_ret, good_ok; [|done].
    by eapply evolves_log.
  - apply wp_throw, good_err; [done|]. done.
Qed.

Hypothesis Hmax : (max_turns c ≤ u32_max)%N.

Lemma wp_loop fuel w w1 s new :
  loop_inv s new → evolves w w1 → N.to_nat (max_turns c) < fuel + length new →
  wp (run_loop fuel self session cancelled s) (good ends_well w) w1.
Proof.
  revert w1 s new. induction fuel as [|fuel IH]; intros w1 s new Hi Hw Hf.
  { pose proof (admitted_length c Hmax new (li_admitted _ _ Hi)). lia. }
  simpl. apply wp_bind. eapply wp_mono; [|by apply (wp_iteration w w1 s new)].
  intros [[s'|out]|e|x] w2 (H1 & H2 & H3); simpl.
  - destruct (H2 _ eq_refl) as [step Hi']. eapply IH; [exact Hi'|done|].
    rewrite length_app. simpl. lia.
  - apply wp_ret, good_ok; [done|]. exact (H2 _ eq_refl).
  - split; [done|]. split; [done|]. naive_solver.
  - by apply good_panic.
Qed.
End loop.

(** A whole run: it ends, what it reports follows from the initial state, and
    when it waits for an approval it has said so. *)
Lemma wp_run `{Sys} `{ChatHost} self session cancelled st history w :
  (max_turns (rl_guardrails self) ≤ u32_max)%N →
  wp (run_with_state self session st history cancelled)
     (good self session (steps st) (ends_well self (steps st)) w) w.
Proof.
  intros Hmax. unfold run_with_state. apply wp_bind, wp_enter.
  eapply (wp_loop self session cancelled (steps st) history Hmax) with (new := []).
  - split; simpl; [by rewrite app_nil_r|done|by rewrite app_nil_r|apply admitted_nil].
  - eapply evolves_log; [by apply evolves_eq|done|]. simpl.
    exists []. by rewrite app_nil_r; split; [|apply admitted_nil].
  - unfold loop_fuel. simpl. lia.
Qed.

(** More fuel does not change a run. *)
Lemma run_loop_fuel `{Sys} `{ChatHost} fuel k self session cancelled s w r :
  run_loop fuel self session cancelled s w = Some r →
  run_loop (fuel + k) self session cancelled s w = Some r.
Proof.
  revert s w. induction fuel as [|fuel IH]; intros s w; simpl; [done|].
  unfold mbind, L_bind. destruct (run_iteration _ _ _ _ w) as [[[[s'|out]|e|x] w1]|]; auto.
Qed.
