(* ===== verification/ChatProps.v ===== *)
(** * Properties of the chat agent's run loop *)

From S2P Require Import Prelude RustStr FsModel World FsFacts Frame ChatProtocol.
From S2P Require Import ChatTools ChatLoop ChatRunFacts ChatProtocol.

(** ** Requests to the model *)

(** [m] sends at most [n] requests. *)
Definition asks {A : Type} (n : nat) (m : L A) : Prop :=
  ∀ w r w', m w = Some (r, w') → cw_calls w' ≤ cw_calls w + n.

Section asks.
Context `{Sys} `{ChatHost}.

Lemma asks_mono {A : Type} n k (m : L A) : asks n m → n ≤ k → asks k m.
Proof. intros Hm Hk w r w' ?%Hm. lia. Qed.
Lemma asks_bind {A B : Type} n k (m : L A) (f : A → L B) :
  asks n m → (∀ a, asks k (f a)) → asks (n + k) (m ≫= f).
Proof.
  intros Hm Hf w r w'. unfold mbind, L_bind.
  destruct (m w) as [[[a|e|s] w1]|] eqn:E; intros Hw; simplify_eq.
  - apply Hm in E. apply Hf in Hw. lia.
  - apply Hm in E. lia.
  - apply Hm in E. lia.
Qed.
Lemma asks_ret {A : Type} (a : A) : asks 0 (mret a).
Proof. intros w r w' [= <- <-]. lia. Qed.
Lemma asks_throw {A : Type} e : asks 0 (l_throw e : L A).
Proof. intros w r w' [= <- <-]. lia. Qed.
Lemma asks_emit e : asks 0 (l_emit e).
Proof. intros w r w' [= <- <-]. simpl. lia. Qed.
Lemma asks_lift {A : Type} (m : T A) : asks 0 (l_lift m).
Proof.
  intros w r w'. unfold l_lift. destruct (m (cw_world w)). intros [= <- <-]. simpl. lia.
Qed.
(** Nothing is asked in either part. *)
Lemma asks_seq {A B : Type} (m : L A) (f : A → L B) :
  asks 0 m → (∀ a, asks 0 (f a)) → asks 0 (m ≫= f).
Proof. apply (asks_bind 0 0). Qed.

Create HintDb asks discriminated.
#[local] Hint Resolve asks_ret asks_throw asks_emit asks_lift : asks.

Lemma asks_enter s st : asks 0 (enter s st).
Proof. apply asks_seq; [apply asks_emit|]. auto with asks. Qed.
Lemma asks_stop cancelled st : asks 0 (stop_if_cancelled cancelled st).
Proof.
  apply asks_seq.
  - intros w r w'. unfold is_cancelled. destruct cancelled; intros [= <- <-]; simpl; lia.
  - intros []; [apply asks_seq; [apply asks_enter|]|]; auto with asks.
Qed.
Lemma asks_commit s thought a o : asks 0 (commit_turn s thought a o).
Proof.
  unfold commit_turn. do 3 (apply asks_seq; [apply asks_lift|intros]).
  apply asks_seq; [apply asks_emit|]. auto with asks.
Qed.
Lemma asks_gate session st thought a : asks 0 (gate_tool_approval session st thought a).
Proof.
  unfold gate_tool_approval. destruct (evaluate _ _); auto with asks.
  apply asks_seq; [apply asks_emit|]. auto with asks.
Qed.
#[local] Hint Resolve asks_enter asks_stop asks_commit asks_gate asks_seq : asks.

Context (self : RunLoop) (session : SessionContext) (cancelled : option (nat → bool)).

Lemma asks_finish s thought a :
  asks 0 (finish_with_action self session cancelled s thought a).
Proof.
  unfold finish_with_action. apply asks_seq; [auto with asks|].
  intros []; auto 10 with asks.
  apply asks_seq; [auto with asks|]. intros st. apply asks_seq; [auto with asks|]. intros o.
  apply asks_seq; [auto with asks|]. intros _. apply asks_seq; [auto with asks|]. intros s'.
  destruct (should_pause_for_user a); auto with asks.
Qed.

Lemma asks_turn s turn : asks 0 (run_turn self session cancelled s turn).
Proof.
  assert (Hfin : ∀ thought a, asks 0
    (r ← finish_with_action self session cancelled s thought a;
     mret (inr r : loop_state + RunLoopOutcome))).
  { intros. apply asks_seq; [apply asks_finish|]. auto with asks. }
  unfold run_turn. destruct (check _ _); [|apply Hfin..]. destruct (_ || _); [apply Hfin|].
  apply asks_seq; [auto with asks|]. intros []; auto 10 with asks.
Qed.

Lemma asks_plan model attempt left messages :
  asks (S left) (plan_attempts model attempt left messages).
Proof.
  intros w r w' Hw.
  destruct (wp_plan model attempt left messages (λ _ w2, cw_calls w2 ≤ cw_calls w + S left) w)
    as (r2 & w2 & Hw2 & Hle); [intros; lia|].
  rewrite Hw in Hw2. by simplify_eq.
Qed.

Lemma asks_iteration s :
  asks (S (max_parse_retries (rl_planner self))) (run_iteration self session cancelled s).
Proof.
  unfold run_iteration. apply (asks_bind 0); [auto with asks|]. intros _.
  apply (asks_bind 0); [auto with asks|]. intros st.
  eapply asks_mono; [eapply (asks_bind _ 0)|rewrite Nat.add_0_r; reflexivity].
  - intros w r w'. unfold l_attempt.
    destruct (plan_next_action _ _ _ _ w) as [[[] w1]|] eqn:E; intros [= <- <-];
      by apply asks_plan in E.
  - intros [[]|turn]; auto using asks_turn with asks.
    unfold parse_failed. auto 10 with asks.
Qed.

Lemma asks_loop fuel s :
  asks (fuel * S (max_parse_retries (rl_planner self)))
       (run_loop fuel self session cancelled s).
Proof.
  revert s. induction fuel as [|fuel IH]; intros s; simpl; [by intros w r w'|].
  apply (asks_bind (S _)); [apply asks_iteration|].
  intros [s'|out]; [apply IH|]. eapply asks_mono; [apply asks_ret|lia].
Qed.
End asks.

Section props.
Context `{Sys} `{ChatHost}.
Implicit Types (self : RunLoop) (session : SessionContext) (w : chat_world).

(** C9: The run loop of the chat agent ends for every model, every host and every
    starting state: the chosen fuel is enough and more fuel gives the same result,
    and the model is called at most (max_turns + 1) * (max_parse_retries + 1) times. *)
Theorem run_terminates self session st history cancelled w :
  (max_turns (rl_guardrails self) ≤ u32_max)%N →
  ∃ r w', run_with_state self session st history cancelled w = Some (r, w') ∧
    cw_calls w' ≤ cw_calls w
      + S (N.to_nat (max_turns (rl_guardrails self)))
        * S (max_parse_retries (rl_planner self)) ∧
    ∀ k s w1 res,
      run_loop (loop_fuel (rl_guardrails self)) self session cancelled s w1 = Some res →
      run_loop (loop_fuel (rl_guardrails self) + k) self session cancelled s w1 = Some res.
Proof.
  intros Hmax. destruct (wp_run self session cancelled st history w Hmax)
    as (r & w' & Hw & _). exists r, w'. split; [done|]. split.
  - revert r w' Hw. apply (asks_bind 0); [apply asks_enter|]. intros.
    eapply asks_mono; [apply asks_loop|]. reflexivity.
  - intros k s w1 res. apply run_loop_fuel.
Qed.

(** The steps [l'] extend [l] by steps that kept the limits, the last one
    perhaps excepted. *)
Definition bounded_steps (c : GuardrailsConfig) (l l' : list StepRecord) : Prop :=
  ∃ new, l' = l ++ new ∧ within_limits c (removelast new).

(** The state a callback was given. *)
Definition event_state (e : chat_event) : RunState :=
  match e with EvStatus s | EvStep s _ => s end.


(** A run that ends waiting for approval has reported, as its last event, a
    state that holds the pending turn, whose action is mutating, together with the
    tool name and the summary shown to the user; and this happens only under the on-
    request policy. *)
Theorem paused_run_reports self session st history cancelled w w' :
  (max_turns (rl_guardrails self) ≤ u32_max)%N →
  core_delegate (rl_executor self) = None →
  run_with_state self session st history cancelled w
    = Some (Err AwaitingToolApproval, w') →
  ∃ st' p, last (cw_events w') = Some (EvStatus st') ∧ pending_turn st' = Some p ∧
    status st' = RAwaitingToolApproval ∧ is_mutating (pt_action p) = true ∧
    awaiting_tool_approval st' = Some {| tool_name := type_name (pt_action p);
                                         ta_summary := approval_summary (pt_action p) |} ∧
    sc_policy session = OnRequest.
Proof.
  intros Hmax Hd Hw. destruct (wp_run self session cancelled st history w Hmax)
    as (r & w2 & Hw2 & _ & _ & Hp). rewrite Hw in Hw2. simplify_eq.
  exact (Hp Hd eq_refl).
Qed.

(** C8: A run of the chat agent whose policy is not Auto relates the file systems
    before and after it by every preorder that the ripgrep runs and a delegate's
    non-mutating actions respect: edits and commands planned by the model are never
    executed without approval. With equality as the preorder the files are
    unchanged. *)
Theorem unapproved_run_keeps_files (Rel : fsys → fsys → Prop) self session st history
    cancelled w r w' :
  PreOrder Rel →
  (∀ dir args fs, Rel fs (rg_run dir args fs).2) →
  delegate_looks (Rel := Rel) (rl_executor self) →
  sc_policy session ≠ Auto →
  run_with_state self session st history cancelled w = Some (r, w') →
  Rel (w_fs (cw_world w)) (w_fs (cw_world w')).
Proof. intros HR Hrg Hd Hp. by apply lstable_run. Qed.

(** Resuming a paused run executes at most the pending action: when it was
    denied nothing is executed, and when it was approved the effect on the files is
    that of executing the pending action once, followed by steps that respect the
    preorder. *)
Theorem approval_executes_pending (Rel : fsys → fsys → Prop) self session st history p
    (approved : bool) cancelled w r w' :
  PreOrder Rel →
  (∀ dir args fs, Rel fs (rg_run dir args fs).2) →
  delegate_looks (Rel := Rel) (rl_executor self) →
  sc_policy session ≠ Auto → pending_turn st = Some p →
  resume_pending_tool self session st history approved cancelled w = Some (r, w') →
  let fs := w_fs (cw_world w) in
  let fs' := w_fs (cw_world w') in
  Rel fs fs' ∨
  (approved = true ∧
   Rel (w_fs (execute (rl_executor self) (pt_action p) (cw_world w)).2) fs').
Proof.
  intros HR Hrg Hd Hp Hpend Hw fs fs'. unfold resume_pending_tool in Hw. rewrite Hpend in Hw.
  set (st1 := set_pending None None st) in Hw.
  assert (Hrest : ∀ st2 o g, lstable Rel
    (_ ← stop_if_cancelled cancelled st2;
     s' ← commit_turn {| ls_state := st2; ls_guardrails := g; ls_history := history |}
            (pt_thought p) (pt_action p) o;
     st' ← enter RPlanning (ls_state s');
     run_with_state self session st' (ls_history s') cancelled)).
  { intros. apply lstable_bind; [apply lstable_stop|]. intros _.
    apply lstable_bind; [apply lstable_commit|]. intros s'.
    apply lstable_bind; [apply lstable_enter|]. intros st'. by apply lstable_run. }
  unfold mbind at 1, L_bind in Hw.
  destruct (stop_if_cancelled cancelled st1 w) as [[[[]|e|x] w1]|] eqn:Hs; [|simplify_eq..].
  2,3: left; by eapply lstable_stop.
  assert (Hw1 : cw_world w1 = cw_world w).
  { revert Hs. unfold stop_if_cancelled, is_cancelled, mbind, L_bind.
    destruct cancelled as [flag|]; [destruct (flag (cw_loads w))|]; simpl;
      intros Hs; [done|by injection Hs as <-..]. }
  destruct approved; unfold mbind at 1, L_bind in Hw.
  - unfold mbind at 1, L_bind in Hw. unfold enter at 1, mbind at 1, L_bind in Hw. simpl in Hw.
    unfold mbind at 1, L_bind, l_lift in Hw. simpl in Hw. rewrite Hw1 in Hw.
    right. split; [done|].
    destruct (execute (rl_executor self) (pt_action p) (cw_world w)) as [[o|e|x] w2];
      simpl in Hw; [|simplify_eq; simpl; reflexivity..].
    apply Hrest in Hw. exact Hw.
  - left. simpl in Hw. apply Hrest in Hw. unfold fs, fs'. by rewrite <- Hw1.
Qed.
End props.
