(* ===== verification/ChatDemo.v ===== *)
(** * The chat agent on concrete inputs *)

From S2P Require Import Prelude RustStr FsModel World FsFacts Frame Concrete.
From S2P Require Import ChatProtocol ChatTools ChatLoop ChatFsProps.
From S2P Require Import ChatRunFacts ChatProps.

(** * The chat agent on concrete inputs

    A scripted host, the witnesses of the chat agent's properties, and closed
    runs that show where the agent departs from what it promises. *)

(** ** A scripted host *)

Fixpoint repeat_char (n : nat) (c : ascii) : string :=
  match n with O => "" | S k => String c (repeat_char k c) end.

(** The [n]th request is answered by [n] letters, which parse as the [n]th
    action of the script.  The search executable honours [--pre=COMMAND]: the
    command, here one that leaves a file, is run on every searched file. *)
Definition script_host (script : list Action) : ChatHost := {|
  model_complete n _ := inr (repeat_char n "x");
  parse_raw s := match script !! String.length s with
                 | Some a => inr ("think", a)
                 | None => inl "eof"
                 end;
  value_to_string _ := "{}";
  observation_to_string o := obs_summary o;
  rg_run _ args fs :=
    (inr {| out_code := Some 0%Z; out_status := "exit status: 0"; out_stdout := "hit";
            out_stderr := "" |},
     if existsb (String.eqb "--pre=./leave.sh") args
     then <[["left"] := File "by a search"]> fs else fs);
  sh_run _ _ _ fs :=
    (ShDone {| out_code := Some 0%Z; out_status := "exit status: 0"; out_stdout := "done";
               out_stderr := "" |}, fs) |}.

Definition chat_fs : fsys :=
  list_to_map [(["ws"], Dir); (["ws"; "a.txt"], File "one two")].
Definition chat_world0 : chat_world := ChatWorld (World chat_fs 0 0) 0 0 [].

Definition chat_executor : Dispatcher := {|
  d_workspace_root := ["ws"]; d_config := ExecutorConfig_default; d_spill_dir := None;
  core_delegate := None |}.
Definition chat_loop : RunLoop := {|
  rl_planner := {| max_parse_retries := 2 |}; rl_executor := chat_executor;
  rl_guardrails := GuardrailsConfig_default |}.
Definition chat_session (policy : ToolApprovalPolicy) : SessionContext := {|
  sc_run_id := "run"; sc_workspace_id := "id"; sc_workspace_root := "/ws";
  sc_thread_id := None; sc_model := "model"; task_prompt := "task";
  sc_security_mode := false; sc_policy := policy |}.

Definition edit_action : Action := EditFile "a.txt" "one" "1".
Definition chat_state : RunState := RunState_new "run" "id".

Definition chat_run (script : list Action) (policy : ToolApprovalPolicy)
  : option (outcome ChatAgentError RunLoopOutcome * chat_world) :=
  run_with_state (H0 := script_host script) chat_loop (chat_session policy) chat_state []
    None chat_world0.

Definition run_fs (r : option (outcome ChatAgentError RunLoopOutcome * chat_world))
  : option fsys := (λ x, w_fs (cw_world (snd x))) <$> r.
Definition run_outcome (r : option (outcome ChatAgentError RunLoopOutcome * chat_world))
  : option (outcome ChatAgentError RunLoopOutcome) := fst <$> r.

(** ** Witnesses *)

Lemma chat_max_ok : (max_turns (rl_guardrails chat_loop) ≤ u32_max)%N.
Proof. vm_compute. intros [=]. Qed.

Lemma edit_file_contained_witness :
  w_fs (snd (edit_file ["ws"] "a.txt" "one" "1" (cw_world chat_world0))) !! ["ws"; "a.txt"]
    = Some (File "1 two") ∧
  ((snd (edit_file ["ws"] "a.txt" "one" "1" (cw_world chat_world0)) = cw_world chat_world0 ∧
    (∀ o, fst (edit_file ["ws"] "a.txt" "one" "1" (cw_world chat_world0)) = Ok o →
          obs_ok o = false) ∧
    ∀ why, fst (edit_file ["ws"] "a.txt" "one" "1" (cw_world chat_world0)) ≠ Panic why) ∨
   ∃ q s s', canonical_root chat_fs ["ws"] `prefix_of` q ∧
     file_of chat_fs q = Some s ∧ string_replace s "one" "1" = Some (Applied s') ∧
     snd (edit_file ["ws"] "a.txt" "one" "1" (cw_world chat_world0))
       = set_fs (<[q := File s']> chat_fs) (cw_world chat_world0) ∧
     fst (edit_file ["ws"] "a.txt" "one" "1" (cw_world chat_world0))
       = Ok (obs_success "edit_file" ("Updated " +:+ "a.txt"))).
Proof.
  split; [vm_compute; reflexivity|].
  refine (edit_file_contained ["ws"] "a.txt" "one" "1" (cw_world chat_world0) _ _ _
    (surjective_pairing _)).
  vm_compute. reflexivity.
Defined.

Lemma read_file_panics_iff_witness :
  ∃ r, read_file ["ws"] "a.txt" (Some 5%N) (Some 2%N) (cw_world chat_world0)
         = (r, cw_world chat_world0) ∧ ∃ why, r = Panic why.
Proof.
  exact (read_file_panics_iff ["ws"] "a.txt" (Some 5%N) (Some 2%N) (cw_world chat_world0)
    ["ws"; "a.txt"] "one two" eq_refl eq_refl).
Defined.

Lemma spilled_output_complete_witness :
  ∃ res, fst (format_command_stream "out" ["ws"] "stdout" (cw_world chat_world0)) = Ok res ∧
    sr_total_bytes res = 3.
Proof.
  destruct (spilled_output_complete "out" ["ws"] "stdout" (cw_world chat_world0) _ _
    eq_refl (surjective_pairing _)) as (res & Hr & Hb & _).
  exists res. split; [exact Hr|exact Hb].
Defined.

Lemma run_terminates_witness :
  ∃ r w', run_with_state (H0 := script_host [edit_action]) chat_loop (chat_session ReadOnly)
            chat_state [] None chat_world0 = Some (r, w') ∧ cw_calls w' ≤ 63.
Proof.
  destruct (run_terminates (H0 := script_host [edit_action]) chat_loop
    (chat_session ReadOnly) chat_state [] None chat_world0 chat_max_ok)
    as (r & w' & Hw & Hc & _).
  exists r, w'. split; [exact Hw|exact Hc].
Defined.


(** The run that stops for the approval of an edit. *)
Definition paused_run : option (outcome ChatAgentError RunLoopOutcome * chat_world) :=
  chat_run [edit_action; Finalize "ok" None] OnRequest.

Lemma paused_run_reports_witness :
  ∃ w' st' p, paused_run = Some (Err AwaitingToolApproval, w') ∧
    last (cw_events w') = Some (EvStatus st') ∧ pending_turn st' = Some p.
Proof.
  destruct paused_run as [[[out|e|x] w']|] eqn:Hw; try (vm_compute in Hw; discriminate Hw).
  assert (He : e = AwaitingToolApproval).
  { assert (Ho : fst <$> paused_run = Some (Err AwaitingToolApproval))
      by (vm_compute; reflexivity). rewrite Hw in Ho. by injection Ho. }
  subst e.
  destruct (paused_run_reports (H0 := script_host [edit_action; Finalize "ok" None]) chat_loop
    (chat_session OnRequest) chat_state [] None chat_world0 w' chat_max_ok eq_refl Hw)
    as (st' & p & Hl & Hp & _).
  exists w', st', p. split; [reflexivity|]. split; [exact Hl|exact Hp].
Defined.

(** A script without search leaves the files alone under any relation that a
    plain search respects; here the host's search executable leaves files, so
    the relation lets one file appear. *)
Definition but_left (fs fs' : fsys) : Prop := ∀ p, p ≠ ["left"] → fs' !! p = fs !! p.

#[local] Instance but_left_preorder : PreOrder but_left.
Proof.
  split; [by intros fs p|]. intros a b c Hab Hbc p Hp. by rewrite Hbc, Hab.
Qed.

Lemma script_rg script dir args fs :
  but_left fs (rg_run (ChatHost := script_host script) dir args fs).2.
Proof. simpl. destruct (existsb _ _); intros p Hp; [by rewrite lookup_insert_ne|done]. Qed.

Lemma unapproved_run_keeps_files_witness :
  ∃ r w', paused_run = Some (r, w') ∧ but_left chat_fs (w_fs (cw_world w')).
Proof.
  destruct paused_run as [[r w']|] eqn:Hw; [|vm_compute in Hw; discriminate Hw].
  exists r, w'. split; [reflexivity|].
  refine (unapproved_run_keeps_files (H0 := script_host [edit_action; Finalize "ok" None])
    but_left chat_loop (chat_session OnRequest) chat_state [] None chat_world0 r w' _
    (script_rg _) _ _ Hw).
  - intros f a [=].
  - intros [=].
Defined.

(** The state of the paused run. *)
Definition pending_edit : PendingTurn := {| pt_thought := "think"; pt_action := edit_action |}.
Definition paused_chat_state : RunState :=
  set_pending (Some pending_edit) None chat_state.

Lemma approval_executes_pending_witness :
  ∃ r w', resume_pending_tool (H0 := script_host [Finalize "ok" None]) chat_loop
            (chat_session OnRequest) paused_chat_state [] true None chat_world0
          = Some (r, w') ∧
    (but_left chat_fs (w_fs (cw_world w')) ∨
     (true = true ∧
      but_left (w_fs (execute (H := script_host [Finalize "ok" None]) chat_executor
                        edit_action (cw_world chat_world0)).2) (w_fs (cw_world w')))).
Proof.
  destruct (resume_pending_tool (H0 := script_host [Finalize "ok" None]) chat_loop
    (chat_session OnRequest) paused_chat_state [] true None chat_world0)
    as [[r w']|] eqn:Hw; [|vm_compute in Hw; discriminate Hw].
  exists r, w'. split; [reflexivity|].
  refine (approval_executes_pending (H0 := script_host [Finalize "ok" None]) but_left
    chat_loop (chat_session OnRequest) paused_chat_state [] pending_edit true None
    chat_world0 r w' _ (script_rg _) _ _ eq_refl Hw).
  - intros f a [=].
  - intros [=].
Defined.

(** * Behaviours of the chat agent that the model exposes

    Closed runs that show where the agent departs from what its policies,
    limits and messages promise. *)

(** The search pattern is an argument of its own: one that starts with a dash
    is an option of [rg], and [--pre] runs a command, in read-only mode too. *)
Theorem search_pattern_is_option :
  In "--pre=./leave.sh" (search_args "--pre=./leave.sh" None) ∧
  (run_fs (chat_run [SearchCode "--pre=./leave.sh" None; Finalize "ok" None] ReadOnly)
     ≫= λ fs : fsys, file_of fs ["left"]) = Some "by a search".
Proof. split; [vm_compute; auto 10|vm_compute; reflexivity]. Qed.

(** A line range whose start is past its end panics, and with it the run. *)
Theorem reversed_range_panics :
  run_outcome (chat_run [ReadFile "a.txt" (Some 5%N) (Some 2%N)] ReadOnly)
  = Some (Panic "slice index starts after its end").
Proof. vm_compute. reflexivity. Qed.

(** Occurrences that overlap the first one are not counted: a text that occurs
    twice is replaced as if it were unique. *)
Theorem overlapping_match_replaced :
  string_replace "aaa" "aa" "b" = Some (Applied "ba") ∧
  occurs "aa" "aaa" 0 ∧ occurs "aa" "aaa" 1.
Proof. split_and!; [vm_compute; reflexivity|by exists "", "a"|by exists "a", ""]. Qed.

(** The byte limit counts characters: four two-byte characters and a limit of
    three bytes leave nine bytes. *)
Definition two_byte : string := of_bytes [ascii_of_N 195; ascii_of_N 169].

Theorem byte_limit_counts_characters :
  String.length (truncate_to_bytes (two_byte +:+ two_byte +:+ two_byte +:+ two_byte) 3) = 9.
Proof. vm_compute. reflexivity. Qed.

(** Edits of different texts of the same length are one action to the
    guardrails, and so are reads of different ranges. *)
Theorem fingerprints_collide :
  fingerprint (EditFile "a.txt" "one" "1") = fingerprint (EditFile "a.txt" "two" "2") ∧
  fingerprint (ReadFile "a.txt" (Some 1%N) (Some 9%N))
    = fingerprint (ReadFile "a.txt" (Some 10%N) (Some 19%N)).
Proof. split; vm_compute; reflexivity. Qed.

(** A step that edited the file. *)
Definition edit_step (n : nat) : StepRecord := {|
  step_id := pretty n; step_thought := "think"; step_action := edit_action;
  step_observation := obs_success "edit_file" "Updated a.txt"; started_at := 0;
  completed_at := None |}.

(** A state with five edits of the file and a sixth waiting for approval. *)
Definition edited_state : RunState :=
  set_pending (Some pending_edit) None
    (foldl (λ st n, push_step (edit_step n) st) chat_state [1; 2; 3; 4; 5]).

(** The guardrails of the steps so far would stop another edit; after an
    approval the loop starts from empty ones and asks for the next edit. *)
Theorem approval_resets_guardrails :
  check (replay_steps GuardrailsConfig_default (steps edited_state)) edit_action ≠ Continue ∧
  run_outcome (resume_pending_tool (H0 := script_host [edit_action]) chat_loop
    (chat_session OnRequest) edited_state [] true None chat_world0)
  = Some (Err AwaitingToolApproval).
Proof. split; [vm_compute; intros [=]|vm_compute; reflexivity]. Qed.

(** The answer to a question is part of the history of the run it resumes, but
    not of the state: the next pause forgets it. *)
Definition reply_history : list ChatMessage :=
  build_history_from_state (H0 := script_host []) chat_state "use tabs".

Definition resumed_run : option (outcome ChatAgentError RunLoopOutcome * chat_world) :=
  run_with_state (H0 := script_host [edit_action]) chat_loop (chat_session OnRequest)
    chat_state reply_history None chat_world0.

(** The history with which the run continues after the next approval. *)
Definition next_history : option (list ChatMessage) :=
  r ← resumed_run;
  e ← last (cw_events (snd r));
  Some (build_history_from_state (H0 := script_host []) (event_state e) "").

Theorem user_reply_forgotten :
  reply_history = [msg_user "use tabs"] ∧
  run_outcome resumed_run = Some (Err AwaitingToolApproval) ∧ next_history = Some [].
Proof. split_and!; vm_compute; reflexivity. Qed.
