(* ===== verification/StreamText.v ===== *)
(** * utils/stream-parser: parsers of streamed assistant text

    [stream_text.rs], [inline_hidden_tag.rs], [citation.rs],
    [tagged_line_parser.rs], [proposed_plan.rs], [assistant_text.rs] and
    [utf8_stream.rs] of [codex-rs/utils/stream-parser].  The texts and buffers
    of these parsers are lists of UTF-8 bytes.  The trait [StreamTextParser]
    is a class; [push_str] and [finish] return the new state of the parser. *)

From S2P Require Import Prelude RustStr FsModel.

Abbreviation text := (list ascii).

(** ** stream_text.rs *)

Record StreamTextChunk (X : Type) := {
  visible_text : text;
  extracted : list X
}.
Arguments visible_text {X} _.
Arguments extracted {X} _.

Definition chunk_default {X : Type} : StreamTextChunk X :=
  {| visible_text := []; extracted := [] |}.

Definition chunk_is_empty {X : Type} (c : StreamTextChunk X) : bool :=
  match visible_text c, extracted c with [], [] => true | _, _ => false end.

(** [out.visible_text.push_str(..); out.extracted.extend(..)]. *)
Definition chunk_app {X : Type} (c d : StreamTextChunk X) : StreamTextChunk X := {|
  visible_text := visible_text c ++ visible_text d;
  extracted := extracted c ++ extracted d |}.

Definition visible_chunk {X : Type} (t : text) : StreamTextChunk X :=
  {| visible_text := t; extracted := [] |}.
Definition extracted_chunk {X : Type} (x : X) : StreamTextChunk X :=
  {| visible_text := []; extracted := [x] |}.

Class StreamTextParser (P X : Type) := {
  push_str : text → P → StreamTextChunk X * P;
  finish : P → StreamTextChunk X * P
}.

(** ** Searching bytes *)

(** [haystack.find(needle)]. *)
Fixpoint find (p l : text) : option nat :=
  if bool_decide (p `prefix_of` l) then Some 0 else
  match l with
  | [] => None
  | _ :: l' => S <$> find p l'
  end.

(** [needle.is_char_boundary(k)]. *)
Definition is_char_boundary (l : text) (k : nat) : bool :=
  bool_decide (k = 0) ||
  match l !! k with
  | Some c => negb (is_cont c)
  | None => bool_decide (k = length l)
  end.

(** [longest_suffix_prefix_len]: the loop over [k] downwards. *)
Fixpoint suffix_prefix_go (s needle : text) (k : nat) : nat :=
  match k with
  | O => 0
  | S k' =>
      if is_char_boundary needle k && bool_decide (take k needle `suffix_of` s)
      then k else suffix_prefix_go s needle k'
  end.
Definition longest_suffix_prefix_len (s needle : text) : nat :=
  suffix_prefix_go s needle (Nat.min (length s) (length needle - 1)).

(** ** inline_hidden_tag.rs *)

Record InlineTagSpec (T : Type) := {
  it_tag : T;
  it_open : text;
  it_close : text
}.
Arguments it_tag {T} _.
Arguments it_open {T} _.
Arguments it_close {T} _.

Record ExtractedInlineTag (T : Type) := { xt_tag : T; xt_content : text }.
Arguments xt_tag {T} _.
Arguments xt_content {T} _.

Record ActiveTag (T : Type) := {
  at_tag : T;
  at_close : text;
  at_content : text
}.
Arguments at_tag {T} _.
Arguments at_close {T} _.
Arguments at_content {T} _.

Record InlineHiddenTagParser (T : Type) := {
  ih_specs : list (InlineTagSpec T);
  ih_pending : text;
  ih_active : option (ActiveTag T)
}.
Arguments ih_specs {T} _.
Arguments ih_pending {T} _.
Arguments ih_active {T} _.

Section inline.
Context {T : Type}.
Implicit Types specs : list (InlineTagSpec T).

(** [InlineHiddenTagParser::new]: panics ([None]) without specs or with an
    empty delimiter. *)
Definition InlineHiddenTagParser_new specs : option (InlineHiddenTagParser T) :=
  match specs with
  | [] => None
  | _ =>
      if forallb (λ s, negb (bool_decide (it_open s = [])) &&
                       negb (bool_decide (it_close s = []))) specs
      then Some {| ih_specs := specs; ih_pending := []; ih_active := None |}
      else None
  end.

(** The order of [find_next_open]: the earliest position, then the longest
    delimiter, then the first spec. *)
Definition before_candidate (a b : nat * nat * nat) : bool :=
  let '(pos_a, len_a, idx_a) := a in
  let '(pos_b, len_b, idx_b) := b in
  (pos_a <? pos_b) ||
  ((pos_a =? pos_b) && ((len_b <? len_a) || ((len_a =? len_b) && (idx_a <? idx_b)))).

Definition min_candidate (best : option (nat * nat * nat)) (x : nat * nat * nat)
  : option (nat * nat * nat) :=
  match best with
  | Some b => if before_candidate x b then Some x else Some b
  | None => Some x
  end.

Definition open_candidates specs (pending : text) : list (nat * nat * nat) :=
  omap (λ e, let '(idx, s) := e in
             (λ pos, (pos, length (it_open s), idx)) <$> find (it_open s) pending)
    (imap (λ i s, (i, s)) specs).

Definition find_next_open specs (pending : text) : option (nat * nat) :=
  (λ c, (fst (fst c), snd c)) <$>
    foldl min_candidate None (open_candidates specs pending).

Definition max_open_prefix_suffix_len specs (pending : text) : nat :=
  foldr Nat.max 0 (map (λ s, longest_suffix_prefix_len pending (it_open s)) specs).

(** The loop of [push_str]; an iteration that continues consumes a
    delimiter. *)
Fixpoint scan (fuel : nat) specs (pending : text) (active : option (ActiveTag T))
  : StreamTextChunk (ExtractedInlineTag T) * text * option (ActiveTag T) :=
  match fuel with
  | O => (chunk_default, pending, active)
  | S fuel' =>
      match active with
      | Some a =>
          match find (at_close a) pending with
          | Some close_idx =>
              let '(out, p, act) :=
                scan fuel' specs (drop (close_idx + length (at_close a)) pending) None in
              (chunk_app (extracted_chunk {| xt_tag := at_tag a;
                 xt_content := at_content a ++ take close_idx pending |}) out, p, act)
          | None =>
              let keep := longest_suffix_prefix_len pending (at_close a) in
              let take_ := length pending - keep in
              (chunk_default, drop take_ pending,
               Some {| at_tag := at_tag a; at_close := at_close a;
                       at_content := at_content a ++ take take_ pending |})
          end
      | None =>
          match find_next_open specs pending with
          | Some (open_idx, spec_idx) =>
              match specs !! spec_idx with
              | Some spec =>
                  let '(out, p, act) :=
                    scan fuel' specs (drop (open_idx + length (it_open spec)) pending)
                      (Some {| at_tag := it_tag spec; at_close := it_close spec;
                               at_content := [] |}) in
                  (chunk_app (visible_chunk (take open_idx pending)) out, p, act)
              | None => (chunk_default, pending, active)
              end
          | None =>
              let keep := max_open_prefix_suffix_len specs pending in
              let take_ := length pending - keep in
              (visible_chunk (take take_ pending), drop take_ pending, None)
          end
      end
  end.

Definition inline_push_str (chunk : text) (p : InlineHiddenTagParser T)
  : StreamTextChunk (ExtractedInlineTag T) * InlineHiddenTagParser T :=
  let pending := ih_pending p ++ chunk in
  let '(out, pending', active') :=
    scan (S (length pending)) (ih_specs p) pending (ih_active p) in
  (out, {| ih_specs := ih_specs p; ih_pending := pending'; ih_active := active' |}).

Definition inline_finish (p : InlineHiddenTagParser T)
  : StreamTextChunk (ExtractedInlineTag T) * InlineHiddenTagParser T :=
  let p' := {| ih_specs := ih_specs p; ih_pending := []; ih_active := None |} in
  match ih_active p with
  | Some a =>
      (extracted_chunk {| xt_tag := at_tag a; xt_content := at_content a ++ ih_pending p |},
       p')
  | None => (visible_chunk (ih_pending p), p')
  end.

#[global] Instance inline_parser
  : StreamTextParser (InlineHiddenTagParser T) (ExtractedInlineTag T) := {|
  push_str := inline_push_str;
  finish := inline_finish |}.
End inline.

(** ** citation.rs *)

Inductive CitationTag := Citation.

Definition CITATION_OPEN : text := bytes "<oai-mem-citation>".
Definition CITATION_CLOSE : text := bytes "</oai-mem-citation>".

Record CitationStreamParser := { cs_inner : InlineHiddenTagParser CitationTag }.

Definition citation_specs : list (InlineTagSpec CitationTag) :=
  [{| it_tag := Citation; it_open := CITATION_OPEN; it_close := CITATION_CLOSE |}].

Definition CitationStreamParser_new : CitationStreamParser :=
  {| cs_inner := {| ih_specs := citation_specs; ih_pending := []; ih_active := None |} |}.

Definition citation_chunk (c : StreamTextChunk (ExtractedInlineTag CitationTag))
  : StreamTextChunk text := {|
  visible_text := visible_text c; extracted := map xt_content (extracted c) |}.

#[global] Instance citation_parser : StreamTextParser CitationStreamParser text := {|
  push_str chunk p :=
    let (c, inner) := push_str chunk (cs_inner p) in
    (citation_chunk c, {| cs_inner := inner |});
  finish p :=
    let (c, inner) := finish (cs_inner p) in
    (citation_chunk c, {| cs_inner := inner |}) |}.

Definition strip_citations (t : text) : text * list text :=
  let (out, p) := push_str t CitationStreamParser_new in
  let (tail, _) := finish p in
  (visible_text out ++ visible_text tail, extracted out ++ extracted tail).

(** ** tagged_line_parser.rs *)

(** [str::chars]: a character is a byte and the continuation bytes after
    it. *)
Fixpoint chars (l : text) : list text :=
  match l with
  | [] => []
  | c :: l' =>
      match chars l' with
      | (d :: g) :: gs => if is_cont d then (c :: d :: g) :: gs else [c] :: (d :: g) :: gs
      | gs => [c] :: gs
      end
  end.

Record TagSpec (T : Type) := { ts_open : text; ts_close : text; ts_tag : T }.
Arguments ts_open {T} _.
Arguments ts_close {T} _.
Arguments ts_tag {T} _.

Inductive TaggedLineSegment (T : Type) :=
| Normal (t : text)
| TagStart (tag : T)
| TagDelta (tag : T) (t : text)
| TagEnd (tag : T).
Arguments Normal {T} t.
Arguments TagStart {T} tag.
Arguments TagDelta {T} tag t.
Arguments TagEnd {T} tag.

Record TaggedLineParser (T : Type) := {
  tl_specs : list (TagSpec T);
  tl_active_tag : option T;
  tl_detect_tag : bool;
  tl_line_buffer : text
}.
Arguments tl_specs {T} _.
Arguments tl_active_tag {T} _.
Arguments tl_detect_tag {T} _.
Arguments tl_line_buffer {T} _.

Section tagged.
Context {T : Type} `{EqDecision T}.
Implicit Types (p : TaggedLineParser T) (segments : list (TaggedLineSegment T)).

Definition TaggedLineParser_new (specs : list (TagSpec T)) : TaggedLineParser T :=
  {| tl_specs := specs; tl_active_tag := None; tl_detect_tag := true;
     tl_line_buffer := [] |}.

Definition with_active (a : option T) p : TaggedLineParser T :=
  {| tl_specs := tl_specs p; tl_active_tag := a; tl_detect_tag := tl_detect_tag p;
     tl_line_buffer := tl_line_buffer p |}.
Definition with_detect (d : bool) p : TaggedLineParser T :=
  {| tl_specs := tl_specs p; tl_active_tag := tl_active_tag p; tl_detect_tag := d;
     tl_line_buffer := tl_line_buffer p |}.
Definition with_buffer (b : text) p : TaggedLineParser T :=
  {| tl_specs := tl_specs p; tl_active_tag := tl_active_tag p;
     tl_detect_tag := tl_detect_tag p; tl_line_buffer := b |}.

(** [push_segment]: an empty text is dropped, adjacent texts are joined. *)
Definition push_segment segments (segment : TaggedLineSegment T)
  : list (TaggedLineSegment T) :=
  match segment with
  | Normal [] => segments
  | Normal delta =>
      match last segments with
      | Some (Normal existing) => removelast segments ++ [Normal (existing ++ delta)]
      | _ => segments ++ [Normal delta]
      end
  | TagDelta _ [] => segments
  | TagDelta tag delta =>
      match last segments with
      | Some (TagDelta existing_tag existing) =>
          if bool_decide (existing_tag = tag)
          then removelast segments ++ [TagDelta existing_tag (existing ++ delta)]
          else segments ++ [TagDelta tag delta]
      | _ => segments ++ [TagDelta tag delta]
      end
  | s => segments ++ [s]
  end.

Definition text_segment p (t : text) : TaggedLineSegment T :=
  match tl_active_tag p with Some tag => TagDelta tag t | None => Normal t end.
Definition push_text p (t : text) segments : list (TaggedLineSegment T) :=
  push_segment segments (text_segment p t).

Definition is_tag_prefix p (slug : text) : bool :=
  let slug := rtrim slug in
  existsb (λ s, bool_decide (slug `prefix_of` ts_open s) ||
                bool_decide (slug `prefix_of` ts_close s)) (tl_specs p).

Definition match_open p (slug : text) : option T :=
  ts_tag <$> find_first (λ s, bool_decide (ts_open s = slug)) (tl_specs p).
Definition match_close p (slug : text) : option T :=
  ts_tag <$> find_first (λ s, bool_decide (ts_close s = slug)) (tl_specs p).

(** [line.strip_suffix('\n').unwrap_or(line)]. *)
Definition strip_newline (l : text) : text :=
  match last l with
  | Some c => if Ascii.eqb c newline then removelast l else l
  | None => l
  end.
Definition line_slug (line : text) : text := rtrim (ltrim (strip_newline line)).

(** A complete line: a tag on its own or text. *)
Definition line_segment p (line : text) : TaggedLineSegment T * option T :=
  let slug := line_slug line in
  match match_open p slug, tl_active_tag p with
  | Some tag, None => (TagStart tag, Some tag)
  | _, _ =>
      match match_close p slug with
      | Some tag =>
          if bool_decide (tl_active_tag p = Some tag) then (TagEnd tag, None)
          else (text_segment p line, tl_active_tag p)
      | None => (text_segment p line, tl_active_tag p)
      end
  end.

(** [finish_line]. *)
Definition finish_line p segments : list (TaggedLineSegment T) * TaggedLineParser T :=
  let (segment, active) := line_segment p (tl_line_buffer p) in
  (push_segment segments segment,
   with_active active (with_detect true (with_buffer [] p))).

(** One character of [parse]; [run] is the text not yet pushed. *)
Definition parse_char (st : list (TaggedLineSegment T) * text * TaggedLineParser T)
    (ch : text) : list (TaggedLineSegment T) * text * TaggedLineParser T :=
  let '(segments, run, p) := st in
  if tl_detect_tag p then
    let segments := match run with [] => segments | _ => push_text p run segments end in
    let p := with_buffer (tl_line_buffer p ++ ch) p in
    if bool_decide (ch = [newline]) then
      let (segments, p) := finish_line p segments in (segments, [], p)
    else
      let slug := ltrim (tl_line_buffer p) in
      if bool_decide (slug = []) || is_tag_prefix p slug then (segments, [], p)
      else
        let buffered := tl_line_buffer p in
        let p := with_detect false (with_buffer [] p) in
        (push_text p buffered segments, [], p)
  else
    let run := run ++ ch in
    if bool_decide (ch = [newline])
    then (push_text p run segments, [], with_detect true p)
    else (segments, run, p).

Definition tagged_parse (delta : text) p
  : list (TaggedLineSegment T) * TaggedLineParser T :=
  let '(segments, run, p') := foldl parse_char ([], [], p) (chars delta) in
  (match run with [] => segments | _ => push_text p' run segments end, p').

Definition tagged_finish p : list (TaggedLineSegment T) * TaggedLineParser T :=
  let (segments, active) :=
    match tl_line_buffer p with
    | [] => ([], tl_active_tag p)
    | buffered =>
        let (segment, active) := line_segment p buffered in
        (push_segment [] segment, active)
    end in
  (match active with
   | Some tag => push_segment segments (TagEnd tag)
   | None => segments
   end,
   with_active None (with_detect true (with_buffer [] p))).
End tagged.

(** ** proposed_plan.rs *)

Inductive PlanTag := ProposedPlan.

#[global] Instance PlanTag_eq_dec : EqDecision PlanTag.
Proof. solve_decision. Defined.

Definition OPEN_TAG : text := bytes "<proposed_plan>".
Definition CLOSE_TAG : text := bytes "</proposed_plan>".

Inductive ProposedPlanSegment :=
| PlanNormal (t : text)
| ProposedPlanStart
| ProposedPlanDelta (t : text)
| ProposedPlanEnd.

Record ProposedPlanParser := { pp_parser : TaggedLineParser PlanTag }.

Definition ProposedPlanParser_new : ProposedPlanParser := {|
  pp_parser := TaggedLineParser_new
    [{| ts_open := OPEN_TAG; ts_close := CLOSE_TAG; ts_tag := ProposedPlan |}] |}.

Definition map_segment (s : TaggedLineSegment PlanTag) : ProposedPlanSegment :=
  match s with
  | Normal t => PlanNormal t
  | TagStart ProposedPlan => ProposedPlanStart
  | TagDelta ProposedPlan t => ProposedPlanDelta t
  | TagEnd ProposedPlan => ProposedPlanEnd
  end.

Definition segment_visible (s : ProposedPlanSegment) : text :=
  match s with PlanNormal t => t | _ => [] end.

Definition map_segments (segments : list (TaggedLineSegment PlanTag))
  : StreamTextChunk ProposedPlanSegment := {|
  visible_text := concat (map (segment_visible ∘ map_segment) segments);
  extracted := map map_segment segments |}.

#[global] Instance plan_parser
  : StreamTextParser ProposedPlanParser ProposedPlanSegment := {|
  push_str chunk p :=
    let (segments, q) := tagged_parse chunk (pp_parser p) in
    (map_segments segments, {| pp_parser := q |});
  finish p :=
    let (segments, q) := tagged_finish (pp_parser p) in
    (map_segments segments, {| pp_parser := q |}) |}.

Definition strip_proposed_plan_blocks (t : text) : text :=
  let (out, p) := push_str t ProposedPlanParser_new in
  visible_text out ++ visible_text (fst (finish p)).

(** The loop of [extract_proposed_plan_text]: whether a block was seen and
    the text of the last one. *)
Definition plan_text_step (acc : bool * text) (s : ProposedPlanSegment) : bool * text :=
  match s with
  | ProposedPlanStart => (true, [])
  | ProposedPlanDelta t => (fst acc, snd acc ++ t)
  | ProposedPlanEnd | PlanNormal _ => acc
  end.

Definition extract_proposed_plan_text (t : text) : option text :=
  let (out, p) := push_str t ProposedPlanParser_new in
  let (saw, plan) :=
    foldl plan_text_step (false, []) (extracted out ++ extracted (fst (finish p))) in
  if saw then Some plan else None.

(** ** assistant_text.rs *)

Record AssistantTextChunk := {
  as_visible_text : text;
  as_citations : list text;
  as_plan_segments : list ProposedPlanSegment
}.

Record AssistantTextStreamParser := {
  ap_plan_mode : bool;
  ap_citations : CitationStreamParser;
  ap_plan : ProposedPlanParser
}.

Definition AssistantTextStreamParser_new (plan_mode : bool) : AssistantTextStreamParser :=
  {| ap_plan_mode := plan_mode; ap_citations := CitationStreamParser_new;
     ap_plan := ProposedPlanParser_new |}.

(** [parse_visible_text]: in plan mode the visible text goes through the plan
    parser. *)
Definition parse_visible_text (mode : bool) (t : text) (plan : ProposedPlanParser)
  : text * list ProposedPlanSegment * ProposedPlanParser :=
  if mode then
    let (c, plan') := push_str t plan in (visible_text c, extracted c, plan')
  else (t, [], plan).

Definition assistant_push_str (chunk : text) (p : AssistantTextStreamParser)
  : AssistantTextChunk * AssistantTextStreamParser :=
  let (c, cites) := push_str chunk (ap_citations p) in
  let '(vis, segs, plan) :=
    parse_visible_text (ap_plan_mode p) (visible_text c) (ap_plan p) in
  ({| as_visible_text := vis; as_citations := extracted c; as_plan_segments := segs |},
   {| ap_plan_mode := ap_plan_mode p; ap_citations := cites; ap_plan := plan |}).

Definition assistant_finish (p : AssistantTextStreamParser)
  : AssistantTextChunk * AssistantTextStreamParser :=
  let (c, cites) := finish (ap_citations p) in
  let '(vis, segs, plan) :=
    parse_visible_text (ap_plan_mode p) (visible_text c) (ap_plan p) in
  let '(vis, segs, plan) :=
    if ap_plan_mode p then
      let (tail, plan') := finish plan in
      (vis ++ visible_text tail, segs ++ extracted tail, plan')
    else (vis, segs, plan) in
  ({| as_visible_text := vis; as_citations := extracted c; as_plan_segments := segs |},
   {| ap_plan_mode := ap_plan_mode p; ap_citations := cites; ap_plan := plan |}).

(** ** utf8_stream.rs *)

(** [str::from_utf8]: [Valid] or the length of the valid prefix and, unless
    the input ends inside a character, the length of the ill-formed part. *)
Inductive utf8_result :=
| Valid
| Invalid (valid_up_to : nat) (error_len : option nat).

(** A lead byte followed by too few bytes is not an error yet. *)
Definition is_lead (b : ascii) : bool := utf8_in 194 244 b.

Fixpoint from_utf8_go (done_ skip : nat) (l : text) : utf8_result :=
  match l with
  | [] => Valid
  | b :: l' =>
      match skip with
      | S k => from_utf8_go (S done_) k l'
      | O =>
          match utf8_step b l' with
          | inr n => from_utf8_go (S done_) (pred n) l'
          | inl n =>
              Invalid done_
                (if is_lead b && (n =? length l) then None else Some n)
          end
      end
  end.
Definition from_utf8 (l : text) : utf8_result := from_utf8_go 0 0 l.

Inductive Utf8StreamParserError :=
| InvalidUtf8 (valid_up_to error_len : nat)
| IncompleteUtf8AtEof.

Record Utf8StreamParser (P : Type) := {
  us_inner : P;
  us_pending : text
}.
Arguments us_inner {P} _.
Arguments us_pending {P} _.

Section utf8_stream.
Context {P X : Type} `{StreamTextParser P X}.

Definition Utf8StreamParser_new (inner : P) : Utf8StreamParser P :=
  {| us_inner := inner; us_pending := [] |}.

(** [push_bytes]: the buffered bytes are decoded with the chunk; an
    incomplete character stays buffered and an error drops the chunk.  The
    valid prefix of an input always decodes. *)
Definition push_bytes (chunk : text) (p : Utf8StreamParser P)
  : (Utf8StreamParserError + StreamTextChunk X) * Utf8StreamParser P :=
  let pending := us_pending p ++ chunk in
  match from_utf8 pending with
  | Valid =>
      let (out, inner) := push_str pending (us_inner p) in
      (inr out, {| us_inner := inner; us_pending := [] |})
  | Invalid valid_up_to (Some error_len) => (inl (InvalidUtf8 valid_up_to error_len), p)
  | Invalid valid_up_to None =>
      if valid_up_to =? 0
      then (inr chunk_default, {| us_inner := us_inner p; us_pending := pending |})
      else
        match from_utf8 (take valid_up_to pending) with
        | Valid =>
            let (out, inner) := push_str (take valid_up_to pending) (us_inner p) in
            (inr out, {| us_inner := inner; us_pending := drop valid_up_to pending |})
        | Invalid up error_len => (inl (InvalidUtf8 up (default 0 error_len)), p)
        end
  end.

(** The check of the bytes that are still buffered. *)
Definition pending_error (p : Utf8StreamParser P) : option Utf8StreamParserError :=
  match us_pending p with
  | [] => None
  | pending =>
      match from_utf8 pending with
      | Valid => None
      | Invalid up (Some n) => Some (InvalidUtf8 up n)
      | Invalid _ None => Some IncompleteUtf8AtEof
      end
  end.

Definition utf8_finish (p : Utf8StreamParser P)
  : (Utf8StreamParserError + StreamTextChunk X) * Utf8StreamParser P :=
  match pending_error p with
  | Some e => (inl e, p)
  | None =>
      let (out, inner) :=
        match us_pending p with
        | [] => (chunk_default, us_inner p)
        | pending => push_str pending (us_inner p)
        end in
      let (tail, inner') := finish inner in
      (inr (chunk_app out tail), {| us_inner := inner'; us_pending := [] |})
  end.

Definition into_inner (p : Utf8StreamParser P) : Utf8StreamParserError + P :=
  match pending_error p with
  | Some e => inl e
  | None => inr (us_inner p)
  end.

Definition into_inner_lossy (p : Utf8StreamParser P) : P := us_inner p.
End utf8_stream.

(** Feeding a sequence of chunks and finishing, as a caller does; the first
    error stops. *)
Fixpoint push_all {P X : Type} `{StreamTextParser P X} (cs : list text) (p : P)
  : StreamTextChunk X :=
  match cs with
  | [] => fst (finish p)
  | c :: cs' => let (out, p') := push_str c p in chunk_app out (push_all cs' p')
  end.

Fixpoint push_all_bytes {P X : Type} `{StreamTextParser P X} (cs : list text)
    (p : Utf8StreamParser P) : Utf8StreamParserError + StreamTextChunk X :=
  match cs with
  | [] => fst (utf8_finish p)
  | c :: cs' =>
      match push_bytes c p with
      | (inl e, _) => inl e
      | (inr out, p') =>
          match push_all_bytes cs' p' with
          | inl e => inl e
          | inr rest => inr (chunk_app out rest)
          end
      end
  end.
