(* ===== verification/StreamFacts.v ===== *)
(** * Facts about the stream parsers

    Texts and prefixes, and the scanning loop of the hidden tag parser. *)

From S2P Require Import Prelude RustStr FsModel StreamText.

(** * Facts about streamed text

    Searching a delimiter in a growing buffer, decoding a growing byte
    buffer, and the algebra of chunks and of joined segments. *)

(** ** Texts *)

Section texts.
Implicit Types (n t u : text) (j k : nat).

(** ** Where a delimiter can still start *)

(** A needle may occur at the head of a text, once more text follows. *)
Definition comparable n t : Prop := n `prefix_of` t ∨ t `prefix_of` n.

Lemma comparable_app n t u : comparable n (t ++ u) → comparable n t.
Proof.
  intros [[k E]|H].
  - destruct (decide (length n ≤ length t)) as [L|L].
    + left. exists (take (length t - length n) k).
      assert (E' : take (length t) (t ++ u) = take (length t) (n ++ k)) by by rewrite E.
      rewrite take_app_length, take_app, take_ge in E' by lia. done.
    + right. exists (drop (length t) n).
      assert (E' : take (length t) (t ++ u) = take (length t) (n ++ k)) by by rewrite E.
      rewrite take_app_length, take_app_le in E' by lia.
      rewrite E' at 1. by rewrite take_drop.
  - right. etrans; [|exact H]. apply prefix_app_r. done.
Qed.

(** No occurrence can start in [t], whatever the text after it is. *)
Definition dead n t u : Prop := ∀ j, j < length t → ¬ comparable n (drop j (t ++ u)).

Lemma dead_app n t u w : dead n t u → dead n t (u ++ w).
Proof.
  intros D j Hj C. apply (D j Hj). rewrite (assoc (++)), drop_app_le in C by
    (rewrite length_app; lia). by apply comparable_app in C.
Qed.

Lemma dead_tail n c t u : dead n (c :: t) u → dead n t u.
Proof. intros D j Hj. apply (D (S j)). simpl. lia. Qed.

(** ** [find] *)

Lemma find_unfold n t :
  find n t = if bool_decide (n `prefix_of` t) then Some 0 else
             match t with [] => None | _ :: t' => S <$> find n t' end.
Proof. by destruct t. Qed.

Lemma find_Some n t i :
  find n t = Some i ↔
  n `prefix_of` drop i t ∧ i ≤ length t ∧ ∀ j, j < i → ¬ n `prefix_of` drop j t.
Proof.
  revert i. induction t as [|c t IH]; intros i; rewrite find_unfold; case_bool_decide as P.
  - split; [intros [= <-]; split_and!; [done|lia|lia] |].
    intros (_ & L & _). simpl in L. f_equal. lia.
  - split; [done|]. intros (Q & L & _). simpl in L. destruct i; [done|lia].
  - split; [intros [= <-]; split_and!; [done|lia|lia] |].
    intros (_ & _ & N). destruct i; [done|]. destruct (N 0); [lia|done].
  - rewrite fmap_Some. split.
    + intros (i' & F & ->). apply IH in F as (Q & L & N).
      split_and!; [done|simpl; lia|]. intros [|j] Hj; [done|]. apply N. lia.
    + intros (Q & L & N). destruct i as [|i]; [done|]. exists i. split; [|done].
      apply IH. split_and!; [done|simpl in L; lia|]. intros j Hj. apply (N (S j)). lia.
Qed.

Lemma find_None n t : find n t = None ↔ ∀ j, j ≤ length t → ¬ n `prefix_of` drop j t.
Proof.
  induction t as [|c t IH]; rewrite find_unfold; case_bool_decide as P.
  - split; [done|]. intros N. by destruct (N 0).
  - split; [|done]. intros _ [|j] Hj; [done|simpl in Hj; lia].
  - split; [done|]. intros N. destruct (N 0); [lia|done].
  - rewrite fmap_None, IH. split.
    + intros N [|j] Hj; [done|]. apply N. simpl in Hj. lia.
    + intros N j Hj. apply (N (S j)). simpl. lia.
Qed.

Lemma find_bound n t i : find n t = Some i → i + length n ≤ length t.
Proof.
  intros (P & L & _)%find_Some. apply prefix_length in P. rewrite length_drop in P. lia.
Qed.

Lemma find_split n t i :
  find n t = Some i → t = take i t ++ n ++ drop (i + length n) t.
Proof.
  intros F. pose proof (find_bound _ _ _ F) as B.
  apply find_Some in F as ([k E] & L & _).
  rewrite <- (take_drop i t) at 1. f_equal. rewrite <- drop_drop, E.
  by rewrite drop_app_length.
Qed.

(** An occurrence is still the first one when text is appended. *)
Lemma find_app_Some n t u i :
  find n t = Some i → find n (t ++ u) = Some i.
Proof.
  intros F. pose proof (find_bound _ _ _ F) as B.
  apply find_Some in F as (P & L & N). apply find_Some. split_and!.
  - rewrite drop_app_le by done. by apply prefix_app_r.
  - rewrite length_app. lia.
  - intros j Hj Q. apply (N j Hj). rewrite drop_app_le in Q by lia.
    destruct Q as [k E]. exists (take (length t - j - length n) k).
    assert (E' : take (length (drop j t)) (drop j t ++ u) =
                 take (length (drop j t)) (n ++ k)) by by rewrite E.
    rewrite take_app_length, take_app, length_drop, take_ge in E' by lia. done.
Qed.

(** Dead text is skipped. *)
Lemma find_skip n t u :
  dead n t u → find n (t ++ u) = (λ i, length t + i) <$> find n u.
Proof.
  induction t as [|c t IH]; intros D; simpl.
  - destruct (find n u); done.
  - rewrite bool_decide_eq_false_2.
    + rewrite IH by by eapply dead_tail. by destruct (find n u).
    + intros P. apply (D 0); [simpl; lia|]. left. exact P.
Qed.

(** ** [longest_suffix_prefix_len] *)

Definition ascii_text t : Prop := Forall (λ c, (code c < 128)%N) t.

Lemma ascii_boundary t k : ascii_text t → k ≤ length t → is_char_boundary t k = true.
Proof.
  intros A L. unfold is_char_boundary. apply orb_true_iff. right.
  destruct (t !! k) as [c|] eqn:E.
  - pose proof (proj1 (Forall_lookup _ _) A _ _ E) as C. simpl in C. unfold is_cont.
    apply negb_true_iff, andb_false_iff. left. apply N.leb_gt. done.
  - apply lookup_ge_None in E. apply bool_decide_eq_true_2. lia.
Qed.

Lemma suffix_prefix_go_spec t n k :
  ascii_text n → k ≤ length n →
  let r := suffix_prefix_go t n k in
  r ≤ k ∧ take r n `suffix_of` t ∧
  ∀ j, r < j ≤ k → ¬ take j n `suffix_of` t.
Proof.
  intros A. induction k as [|k IH]; intros L; simpl.
  - split_and!; [lia|apply suffix_nil|lia].
  - rewrite ascii_boundary by done. simpl. case_bool_decide as Q.
    + split_and!; [lia|done|lia].
    + destruct IH as (I1 & I2 & I3); [lia|]. split_and!; [lia|done|].
      intros j Hj. destruct (decide (j = S k)) as [->|]; [done|]. apply I3. lia.
Qed.

Lemma lsp_spec t n :
  ascii_text n →
  let r := longest_suffix_prefix_len t n in
  r ≤ length t ∧ r ≤ length n - 1 ∧ take r n `suffix_of` t ∧
  ∀ j, r < j → j ≤ length t → j < length n → ¬ take j n `suffix_of` t.
Proof.
  intros A. unfold longest_suffix_prefix_len.
  destruct (suffix_prefix_go_spec t n (Nat.min (length t) (length n - 1)) A)
    as (I1 & I2 & I3); [lia|].
  split_and!; [lia|lia|done|]. intros j J1 J2 J3. apply I3. lia.
Qed.

(** The suffix that starts at a position is a prefix of the needle exactly when
    the position is among the last ones. *)
Lemma suffix_at t n k :
  k ≤ length t → k ≤ length n →
  (take k n `suffix_of` t ↔ drop (length t - k) t `prefix_of` n).
Proof.
  intros L1 L2. split.
  - intros [v ->]. rewrite length_app, length_take.
    replace (length v + Nat.min k (length n) - k) with (length v) by lia.
    rewrite drop_app_length. exists (drop k n). by rewrite take_drop.
  - intros [w E]. exists (take (length t - k) t). rewrite E.
    rewrite take_app_le by (rewrite length_drop; lia).
    rewrite (take_ge (drop _ _)) by (rewrite length_drop; lia). by rewrite take_drop.
Qed.

(** What is not kept is dead. *)
Lemma unkept_dead t n keep :
  ascii_text n → find n t = None → longest_suffix_prefix_len t n ≤ keep →
  dead n (take (length t - keep) t) (drop (length t - keep) t).
Proof.
  intros A F K j Hj. rewrite length_take in Hj. rewrite take_drop.
  destruct (lsp_spec t n A) as (_ & _ & _ & M).
  intros [P|P].
  - apply (proj1 (find_None n t) F j); [lia|done].
  - pose proof (prefix_length _ _ P) as PL. rewrite length_drop in PL.
    destruct (decide (length t - j < length n)) as [L|L].
    + apply (M (length t - j)); [lia|lia|done|].
      apply suffix_at; [lia|lia|]. by replace (length t - (length t - j)) with j by lia.
    + apply (proj1 (find_None n t) F j); [lia|].
      destruct P as [[|c w] E].
      * rewrite app_nil_r in E. by rewrite <- E.
      * apply (f_equal length) in E. rewrite length_app, length_drop in E.
        simpl in E. lia.
Qed.

Lemma lsp_skip n t u :
  ascii_text n → dead n t u →
  longest_suffix_prefix_len (t ++ u) n = longest_suffix_prefix_len u n.
Proof.
  intros A D.
  destruct (lsp_spec (t ++ u) n A) as (A1 & A2 & A3 & A4).
  destruct (lsp_spec u n A) as (B1 & B2 & B3 & B4).
  set (r := longest_suffix_prefix_len (t ++ u) n) in *.
  set (r' := longest_suffix_prefix_len u n) in *.
  rewrite length_app in A1, A4.
  destruct (decide (r ≤ length u)) as [L|L].
  - destruct (decide (r < r')) as [L1|L1].
    { exfalso. apply (A4 r'); [done|lia|lia|]. by apply suffix_app_r. }
    destruct (decide (r' < r)) as [L2|L2]; [|lia].
    exfalso. apply (B4 r); [done|done|lia|].
    apply suffix_at; [done|lia|].
    apply suffix_at in A3; [|rewrite length_app; lia|lia].
    rewrite length_app, drop_app_ge in A3 by lia.
    by replace (length t + length u - r - length t) with (length u - r) in A3 by lia.
  - exfalso. apply suffix_at in A3; [|rewrite length_app; lia|lia].
    rewrite length_app in A3. apply (D (length t + length u - r)); [lia|]. by right.
Qed.

(** * The hidden tag parser: candidates and the scanning loop *)

End texts.

(** * Facts about the hidden tag parser

    [find_next_open] picks the least candidate, the scanning loop ends with
    the fuel it is given, and scanning a text in two pieces is scanning it at
    once. *)

(** ** The order of candidates *)

Lemma before_candidate_spec p1 l1 i1 p2 l2 i2 :
  before_candidate (p1, l1, i1) (p2, l2, i2) = true ↔
  p1 < p2 ∨ (p1 = p2 ∧ (l2 < l1 ∨ (l1 = l2 ∧ i1 < i2))).
Proof.
  unfold before_candidate.
  rewrite !orb_true_iff, !andb_true_iff, !orb_true_iff, !andb_true_iff.
  rewrite !Nat.ltb_lt, !Nat.eqb_eq. done.
Qed.

Lemma before_candidate_total x y :
  before_candidate x y = false → before_candidate y x = false → x = y.
Proof.
  destruct x as [[p1 l1] i1], y as [[p2 l2] i2].
  rewrite <- !not_true_iff_false, !before_candidate_spec. intros H1 H2.
  replace p2 with p1 by lia. replace l2 with l1 by lia. by replace i2 with i1 by lia.
Qed.

Lemma before_candidate_trans x y z :
  before_candidate x y = true → before_candidate y z = true → before_candidate x z = true.
Proof.
  destruct x as [[p1 l1] i1], y as [[p2 l2] i2], z as [[p3 l3] i3].
  rewrite !before_candidate_spec. lia.
Qed.

Lemma before_candidate_irrefl x : before_candidate x x = false.
Proof.
  destruct x as [[p l] i]. apply not_true_iff_false. rewrite before_candidate_spec. lia.
Qed.

Lemma foldl_min (l : list (nat * nat * nat)) b :
  ∃ x, foldl min_candidate (Some b) l = Some x ∧ x ∈ b :: l ∧
       ∀ y, y ∈ b :: l → before_candidate y x = false.
Proof.
  revert b. induction l as [|c l IH]; intros b; simpl.
  - exists b. split_and!; [done|set_solver|].
    intros y ->%list_elem_of_singleton. apply before_candidate_irrefl.
  - destruct (before_candidate c b) eqn:B.
    + destruct (IH c) as (x & E & I & M). exists x. split_and!; [done|set_solver|].
      intros y Hy. destruct (decide (y = b)) as [->|N]; [|apply M; set_solver].
      apply not_true_iff_false. intros Bx.
      specialize (M c (list_elem_of_here _ _)).
      rewrite (before_candidate_trans c b x) in M by done. done.
    + destruct (IH b) as (x & E & I & M). exists x. split_and!; [done|set_solver|].
      intros y Hy. destruct (decide (y = c)) as [->|N]; [|apply M; set_solver].
      apply not_true_iff_false. intros Cx.
      pose proof (M b (list_elem_of_here _ _)) as Mb.
      destruct (before_candidate b c) eqn:BC.
      * rewrite (before_candidate_trans b c x) in Mb by done. done.
      * rewrite (before_candidate_total c b) in Cx by done. congruence.
Qed.

Section inline.
Context {T : Type}.
Implicit Types (specs : list (InlineTagSpec T)) (t u : text).

Lemma elem_of_candidates specs t pos len idx :
  (pos, len, idx) ∈ open_candidates specs t ↔
  ∃ s, specs !! idx = Some s ∧ find (it_open s) t = Some pos ∧ len = length (it_open s).
Proof.
  unfold open_candidates. rewrite list_elem_of_omap. split.
  - intros ([k s] & I & E). apply elem_of_lookup_imap in I as (k' & s' & [= -> ->] & L).
    apply fmap_Some in E as (q & F & [= -> -> ->]). by exists s'.
  - intros (s & L & F & ->). exists (idx, s). split.
    + apply elem_of_lookup_imap. by exists idx, s.
    + by rewrite F.
Qed.

(** The opener of the first spec among the longest at the earliest place. *)
Definition best_open specs t (i idx : nat) (s : InlineTagSpec T) : Prop :=
  specs !! idx = Some s ∧ find (it_open s) t = Some i ∧
  ∀ idx' s' i', specs !! idx' = Some s' → find (it_open s') t = Some i' →
    before_candidate (i', length (it_open s'), idx') (i, length (it_open s), idx) = false.

Lemma find_next_open_None specs t :
  find_next_open specs t = None ↔
  ∀ s, s ∈ specs → find (it_open s) t = None.
Proof.
  unfold find_next_open. split.
  - intros E s [idx L]%list_elem_of_lookup. destruct (find (it_open s) t) as [i|] eqn:F; [|done].
    assert (I : (i, length (it_open s), idx) ∈ open_candidates specs t)
      by (apply elem_of_candidates; eauto).
    destruct (open_candidates specs t) as [|b l]; [by apply elem_of_nil in I|].
    simpl in E. destruct (foldl_min l b) as (x & E' & _). rewrite E' in E. done.
  - intros N. destruct (open_candidates specs t) as [|[[pos len] idx] l] eqn:C; [done|].
    assert (I : (pos, len, idx) ∈ open_candidates specs t) by (rewrite C; set_solver).
    apply elem_of_candidates in I as (s & L & F & _).
    rewrite N in F; [done|]. by eapply list_elem_of_lookup_2.
Qed.

Lemma find_next_open_Some specs t i idx :
  find_next_open specs t = Some (i, idx) ↔ ∃ s, best_open specs t i idx s.
Proof.
  unfold find_next_open. split.
  - intros ([[pos len] k] & E & [= <- <-])%fmap_Some.
    destruct (open_candidates specs t) as [|b l] eqn:C; [done|]. simpl in E.
    destruct (foldl_min l b) as (x & E' & I & M). rewrite E' in E. injection E as ->.
    rewrite <- C in I, M. apply elem_of_candidates in I as (s & L & F & ->).
    exists s. split_and!; [done..|]. intros idx' s' i' L' F'. apply M.
    apply elem_of_candidates. eauto.
  - intros (s & L & F & M).
    assert (I : (i, length (it_open s), idx) ∈ open_candidates specs t)
      by (apply elem_of_candidates; eauto).
    destruct (open_candidates specs t) as [|b l] eqn:C; [by apply elem_of_nil in I|]. simpl.
    destruct (foldl_min l b) as ([[pos len] k] & -> & I' & M'). simpl.
    rewrite <- C in I'. apply elem_of_candidates in I' as (s' & L' & F' & ->).
    assert (E : (pos, length (it_open s'), k) = (i, length (it_open s), idx)).
    { apply before_candidate_total; [by eapply M|by apply M']. }
    by injection E as -> _ ->.
Qed.

(** Delimiters are not empty and are ASCII, and no opener contains another. *)
Record specs_ok specs : Prop := {
  so_open s : s ∈ specs → it_open s ≠ [] ∧ ascii_text (it_open s);
  so_close s : s ∈ specs → it_close s ≠ [] ∧ ascii_text (it_close s);
  so_infix s s' u v : s ∈ specs → s' ∈ specs →
    it_open s' = u ++ it_open s ++ v → it_open s' = it_open s
}.

Lemma best_open_app specs t u i idx s :
  specs_ok specs → best_open specs t i idx s → best_open specs (t ++ u) i idx s.
Proof.
  intros OK (L & F & M). split_and!; [done|by apply find_app_Some|].
  intros idx' s' i' L' F'. destruct (find (it_open s') t) as [k|] eqn:Fk.
  { rewrite (find_app_Some _ _ u _ Fk) in F'. injection F' as ->. by eapply M. }
  apply not_true_iff_false. rewrite before_candidate_spec. intros B.
  pose proof (find_bound _ _ _ F) as Bd.
  pose proof F' as F2. apply find_Some in F2 as (P & Li & _).
  assert (Hi : i' ≤ i) by lia.
  assert (Far : length t < i' + length (it_open s')).
  { destruct (decide (i' + length (it_open s') ≤ length t)) as [C|C]; [|lia].
    exfalso. apply (proj1 (find_None _ _) Fk i'); [lia|].
    rewrite drop_app_le in P by lia. destruct P as [w E].
    exists (take (length t - i' - length (it_open s')) w).
    assert (E' : take (length (drop i' t)) (drop i' t ++ u) =
                 take (length (drop i' t)) (it_open s' ++ w)) by by rewrite E.
    rewrite take_app_length, take_app, length_drop, take_ge in E' by lia. done. }
  destruct P as [w E1].
  assert (E2 : it_open s' = take (length (it_open s')) (drop i' (t ++ u)))
    by (by rewrite E1, take_app_length).
  assert (E3 : drop i' (t ++ u) =
    take (i - i') (drop i' t) ++ it_open s ++ drop (i + length (it_open s)) t ++ u).
  { rewrite drop_app_le by lia. rewrite <- (take_drop (i - i') (drop i' t)) at 1.
    rewrite <- !(assoc (++)). f_equal. rewrite (assoc (++)). f_equal.
    rewrite drop_drop. replace (i' + (i - i')) with i by lia.
    apply find_Some in F as ([k E] & _). rewrite E. f_equal.
    by rewrite <- drop_drop, E, drop_app_length. }
  rewrite E3, take_app, length_take, length_drop in E2.
  rewrite (take_ge (take _ _)) in E2 by (rewrite length_take, length_drop; lia).
  rewrite take_app, (take_ge (it_open s)) in E2 by lia.
  apply (so_infix _ OK s s') in E2 as E4; [|by eapply list_elem_of_lookup_2..].
  rewrite E4 in Far, B. lia.
Qed.

Lemma best_open_skip specs t u i idx s :
  (∀ s', s' ∈ specs → dead (it_open s') t u) →
  best_open specs u i idx s → best_open specs (t ++ u) (length t + i) idx s.
Proof.
  intros D (L & F & M). split_and!; [done| |].
  - rewrite find_skip by by eapply D, list_elem_of_lookup_2. by rewrite F.
  - intros idx' s' i' L' F'.
    rewrite find_skip in F' by by eapply D, list_elem_of_lookup_2.
    apply fmap_Some in F' as (k & F' & ->).
    apply not_true_iff_false. rewrite before_candidate_spec. intros B.
    specialize (M _ _ _ L' F'). apply not_true_iff_false in M. apply M.
    apply before_candidate_spec. lia.
Qed.

Lemma max_keep specs t s :
  s ∈ specs → longest_suffix_prefix_len t (it_open s) ≤ max_open_prefix_suffix_len specs t.
Proof.
  unfold max_open_prefix_suffix_len. induction specs as [|s' specs IH]; simpl.
  - by intros ?%elem_of_nil.
  - intros [->|H]%elem_of_cons; [lia|]. apply IH in H. lia.
Qed.

Lemma keep_bound specs t :
  specs_ok specs → max_open_prefix_suffix_len specs t ≤ length t.
Proof.
  intros OK. unfold max_open_prefix_suffix_len.
  assert (B : ∀ s, s ∈ specs → longest_suffix_prefix_len t (it_open s) ≤ length t).
  { intros s Hs. apply lsp_spec. by apply OK. }
  clear OK. induction specs as [|s specs IH]; simpl; [lia|].
  pose proof (B s (list_elem_of_here _ _)) as Bs.
  assert (Br : foldr Nat.max 0 (map (λ s, longest_suffix_prefix_len t (it_open s)) specs)
    ≤ length t) by (apply IH; intros s' Hs'; apply B; by right). lia.
Qed.

Lemma max_keep_skip specs t u :
  specs_ok specs → (∀ s, s ∈ specs → dead (it_open s) t u) →
  max_open_prefix_suffix_len specs (t ++ u) = max_open_prefix_suffix_len specs u.
Proof.
  intros OK D. unfold max_open_prefix_suffix_len. f_equal. apply map_ext_in.
  intros s Hs%list_elem_of_In. apply lsp_skip; [by apply OK|by apply D].
Qed.
End inline.

(** * The scanning loop of the hidden tag parser

    Its fuel is enough, what it leaves pending is no longer than its input,
    and it can be stopped and resumed anywhere. *)

(** ** Chunks form a monoid *)

Lemma chunk_app_nil_l {X : Type} (c : StreamTextChunk X) : chunk_app chunk_default c = c.
Proof. by destruct c. Qed.
Lemma chunk_app_nil_r {X : Type} (c : StreamTextChunk X) : chunk_app c chunk_default = c.
Proof. destruct c. unfold chunk_app. simpl. by rewrite !app_nil_r. Qed.
Lemma chunk_app_assoc {X : Type} (c d e : StreamTextChunk X) :
  chunk_app (chunk_app c d) e = chunk_app c (chunk_app d e).
Proof. unfold chunk_app. simpl. by rewrite <- !(assoc (++)). Qed.
Lemma visible_chunk_app {X : Type} (t u : text) :
  visible_chunk (X:=X) (t ++ u) = chunk_app (visible_chunk t) (visible_chunk u).
Proof. done. Qed.

Section inline.
Context {T : Type}.
Implicit Types (specs : list (InlineTagSpec T)) (t u : text) (a : option (ActiveTag T)).

Definition active_ok a : Prop :=
  match a with Some a => at_close a ≠ [] ∧ ascii_text (at_close a) | None => True end.

Lemma best_open_bound specs t i idx s :
  specs_ok specs → best_open specs t i idx s →
  i + length (it_open s) ≤ length t ∧ 0 < length (it_open s) ∧
  active_ok (Some {| at_tag := it_tag s; at_close := it_close s; at_content := [] |}).
Proof.
  intros OK (L & F & _). apply list_elem_of_lookup_2 in L.
  destruct (so_open _ OK s L) as [N _], (so_close _ OK s L).
  split_and!; [by apply find_bound| |done..]. destruct (it_open s); [done|simpl; lia].
Qed.

Lemma close_bound (a : ActiveTag T) t i :
  active_ok (Some a) → find (at_close a) t = Some i →
  i + length (at_close a) ≤ length t ∧ 0 < length (at_close a).
Proof.
  intros [N _] F. split; [by apply find_bound|]. destruct (at_close a); [done|simpl; lia].
Qed.

(** What an iteration that does not end the loop does. *)
Lemma scan_fuel specs f f' t a :
  specs_ok specs → active_ok a → length t < f → length t < f' →
  scan f specs t a = scan f' specs t a.
Proof.
  intros OK. revert f' t a. induction f as [|f IH]; intros [|f'] t a A L L'; [lia..|]. simpl.
  destruct a as [a|].
  - destruct (find (at_close a) t) as [i|] eqn:F; [|done].
    destruct (close_bound _ _ _ A F). rewrite (IH f'); [done|done|rewrite length_drop; lia..].
  - destruct (find_next_open specs t) as [[i idx]|] eqn:F; [|done].
    apply find_next_open_Some in F as [s B]. pose proof B as (L1 & _).
    destruct (best_open_bound _ _ _ _ _ OK B) as (B1 & B2 & B3). rewrite L1.
    rewrite (IH f'); [done|done|rewrite length_drop; lia..].
Qed.

Lemma scan_keeps specs f t a o p' a' :
  specs_ok specs → active_ok a → scan f specs t a = (o, p', a') →
  length p' ≤ length t ∧ active_ok a'.
Proof.
  intros OK. revert t a o p' a'. induction f as [|f IH]; intros t a o p' a' A; simpl.
  - by intros [= <- <- <-].
  - destruct a as [a|].
    + destruct (find (at_close a) t) as [i|] eqn:F.
      * destruct (scan f specs _ None) as [[o1 p1] a1] eqn:E. intros [= <- <- <-].
        apply IH in E as [E1 E2]; [|done]. rewrite length_drop in E1. split; [lia|done].
      * intros [= <- <- <-]. rewrite length_drop. split; [lia|done].
    + destruct (find_next_open specs t) as [[i idx]|] eqn:F.
      * apply find_next_open_Some in F as [s B]. pose proof B as (L1 & _). rewrite L1.
        destruct (scan f specs _ _) as [[o1 p1] a1] eqn:E. intros [= <- <- <-].
        apply IH in E as [E1 E2]; [|by apply (best_open_bound _ _ _ _ _ OK B)].
        rewrite length_drop in E1. split; [lia|done].
      * intros [= <- <- <-]. rewrite length_drop. split; [lia|done].
Qed.

(** The last iteration leaves a suffix in which a delimiter may have begun;
    the text before it is the same with or without the rest. *)
Lemma scan_resume_close specs f (a : ActiveTag T) t1 u :
  active_ok (Some a) → dead (at_close a) t1 u →
  scan (S f) specs (t1 ++ u) (Some a) =
  scan (S f) specs u (Some {| at_tag := at_tag a; at_close := at_close a;
                              at_content := at_content a ++ t1 |}).
Proof.
  intros [N A] D. simpl. rewrite (find_skip _ _ _ D).
  destruct (find (at_close a) u) as [i|] eqn:F; simpl.
  - rewrite <- Nat.add_assoc, drop_app_add, take_app_add.
    destruct (scan f specs _ None) as [[o p'] a']. by rewrite (assoc (++)).
  - rewrite (lsp_skip _ _ _ A D). destruct (lsp_spec u _ A) as [K _].
    rewrite length_app.
    replace (length t1 + length u - longest_suffix_prefix_len u (at_close a))
      with (length t1 + (length u - longest_suffix_prefix_len u (at_close a))) by lia.
    rewrite drop_app_add, take_app_add, (assoc (++)). done.
Qed.

Lemma scan_resume_open specs f t1 u :
  specs_ok specs → (∀ s, s ∈ specs → dead (it_open s) t1 u) →
  scan (S f) specs (t1 ++ u) None =
  let '(o, p, a) := scan (S f) specs u None in
  (chunk_app (visible_chunk t1) o, p, a).
Proof.
  intros OK D. simpl. destruct (find_next_open specs u) as [[i idx]|] eqn:F.
  - apply find_next_open_Some in F as [s B]. pose proof B as (L & _).
    assert (F' : find_next_open specs (t1 ++ u) = Some (length t1 + i, idx))
      by (apply find_next_open_Some; exists s; by apply best_open_skip).
    rewrite F', L, <- Nat.add_assoc, drop_app_add.
    destruct (scan f specs _ _) as [[o p'] a']. 
    by rewrite take_app_add, visible_chunk_app, chunk_app_assoc.
  - assert (F' : find_next_open specs (t1 ++ u) = None).
    { apply find_next_open_None. intros s Hs. rewrite find_skip by by apply D.
      by rewrite (proj1 (find_next_open_None _ _) F s Hs). }
    rewrite F', (max_keep_skip _ _ _ OK D). pose proof (keep_bound specs u OK) as K.
    rewrite length_app.
    replace (length t1 + length u - max_open_prefix_suffix_len specs u)
      with (length t1 + (length u - max_open_prefix_suffix_len specs u)) by lia.
    by rewrite drop_app_add, take_app_add.
Qed.

(** Scanning a text in two pieces. *)
Lemma scan_app specs f t u a :
  specs_ok specs → active_ok a → length (t ++ u) < f →
  scan f specs (t ++ u) a =
  let '(o1, p1, a1) := scan f specs t a in
  let '(o2, p2, a2) := scan f specs (p1 ++ u) a1 in
  (chunk_app o1 o2, p2, a2).
Proof.
  intros OK. revert t a. induction f as [|f IH]; intros t a A L; [lia|].
  assert (step : ∀ n a0 o0, 0 < n ≤ length t → active_ok a0 →
    (let '(o, p, a') := scan f specs (drop n (t ++ u)) a0 in (chunk_app o0 o, p, a')) =
    let '(o1, p1, a1) :=
      let '(o, p, a') := scan f specs (drop n t) a0 in (chunk_app o0 o, p, a') in
    let '(o2, p2, a2) := scan (S f) specs (p1 ++ u) a1 in (chunk_app o1 o2, p2, a2)).
  { intros n a0 o0 Hn A0. rewrite length_app in L. rewrite drop_app_le by lia.
    rewrite IH by (try done; rewrite length_app, length_drop; lia).
    destruct (scan f specs (drop n t) a0) as [[o1 p1] a1] eqn:E.
    apply scan_keeps in E as [E1 E2]; [|done..]. rewrite length_drop in E1.
    rewrite (scan_fuel specs f (S f)) by (try done; rewrite length_app; lia).
    destruct (scan (S f) specs (p1 ++ u) a1) as [[o2 p2] a2]. by rewrite chunk_app_assoc. }
  destruct a as [a|].
  - destruct (find (at_close a) t) as [i|] eqn:F.
    + destruct (close_bound _ _ _ A F). simpl (scan (S f) specs (t ++ u) _).
      rewrite (find_app_Some _ _ _ _ F), take_app_le by lia.
      rewrite step by (try done; lia). simpl (scan (S f) specs t _). by rewrite F.
    + simpl (scan (S f) specs t _). rewrite F. cbv zeta.
      set (k := length t - _). rewrite <- (take_drop k t) at 1. rewrite <- (assoc (++)).
      rewrite scan_resume_close; [|done|].
      2: { apply dead_app. apply unkept_dead; [by apply A|done|lia]. }
      destruct (scan (S f) specs _ _) as [[o p'] a']. by rewrite chunk_app_nil_l.
  - destruct (find_next_open specs t) as [[i idx]|] eqn:F.
    + pose proof F as F0. apply find_next_open_Some in F0 as [s B]. pose proof B as (Ls & _).
      destruct (best_open_bound _ _ _ _ _ OK B) as (B1 & B2 & B3).
      assert (F' : find_next_open specs (t ++ u) = Some (i, idx))
        by (apply find_next_open_Some; exists s; by apply best_open_app).
      simpl (scan (S f) specs (t ++ u) _). rewrite F', Ls, take_app_le by lia.
      rewrite step by (try done; lia). simpl (scan (S f) specs t _). by rewrite F, Ls.
    + simpl (scan (S f) specs t _). rewrite F. cbv zeta.
      set (k := length t - _). rewrite <- (take_drop k t) at 1. rewrite <- (assoc (++)).
      rewrite scan_resume_open; [|done|].
      2: { intros s Hs. apply dead_app. apply unkept_dead; [by apply OK| |by apply max_keep].
           by apply (proj1 (find_next_open_None _ _) F). }
      by destruct (scan (S f) specs _ _) as [[o p'] a'].
Qed.
End inline.
