(* ===== verification/StreamLaws.v ===== *)
(** * The contract of streamed parsers, and UTF-8 *)

From Stdlib Require Import ZifyBool.
From S2P Require Import Prelude RustStr FsModel StreamText StreamFacts.

(** * What a streamed text parser promises

    [StreamLaws] is the contract of the trait [StreamTextParser]: cutting the
    text differently changes neither the final state nor, up to a relation on
    the extracted items, the output.  The byte-level parser is verified
    against this contract; the hidden tag, citation and plan parsers discharge
    it in the files after this one. *)

(** Well-formed UTF-8. *)
Definition utf8 (t : text) : Prop := utf8_valid_go 0 t = true.

(** Equal visible text and related items. *)
Definition chunk_eq {X : Type} (R : relation (list X)) : relation (StreamTextChunk X) :=
  λ c d, visible_text c = visible_text d ∧ R (extracted c) (extracted d).

#[export] Instance chunk_eq_equiv {X : Type} (R : relation (list X)) `{!Equivalence R} :
  Equivalence (chunk_eq R).
Proof.
  split.
  - intros c. split; reflexivity.
  - intros c d [H1 H2]. split; by symmetry.
  - intros c d e [H1 H2] [H3 H4]. split; by etrans.
Qed.

#[export] Instance chunk_app_proper {X : Type} (R : relation (list X))
    `{!Proper (R ==> R ==> R) (++)} :
  Proper (chunk_eq R ==> chunk_eq R ==> chunk_eq R) chunk_app.
Proof.
  intros c c' [H1 H2] d d' [H3 H4]. split; simpl; [by rewrite H1, H3|by f_equiv].
Qed.

Class StreamLaws (P X : Type) `{StreamTextParser P X}
    (R : relation (list X)) (ok : P → Prop) : Prop := {
  sl_equiv :: Equivalence R;
  sl_app :: Proper (R ==> R ==> R) (++);
  sl_ok t p : ok p → ok (snd (push_str t p));
  sl_nil p : ok p →
    chunk_eq R (fst (push_str [] p)) chunk_default ∧ snd (push_str [] p) = p;
  sl_push t u p : ok p → utf8 t → utf8 u →
    chunk_eq R (fst (push_str (t ++ u) p))
      (chunk_app (fst (push_str t p)) (fst (push_str u (snd (push_str t p))))) ∧
    snd (push_str (t ++ u) p) = snd (push_str u (snd (push_str t p)))
}.

(** ** Decoding a growing buffer *)

(** A decoding step looks no further than the character it reads, and gives
    up on a lead byte only when the bytes after it are there. *)
Definition stable (b : ascii) (r : list ascii → nat + nat) : Prop :=
  ∀ l, match r l with
       | inr n => 1 ≤ n ≤ S (length l) ∧
           ∀ l', take (pred n) l' = take (pred n) l → r l' = inr n
       | inl n => 1 ≤ n ≤ S (length l) ∧
           (is_lead b && (n =? S (length l)) = false → ∀ k, r (l ++ k) = inl n)
       end.

Ltac solve_stable :=
  split; [simpl; lia|];
  first [ done
        | let E := fresh in intros l' E; destruct l' as [|? [|? [|? ?]]]; simplify_eq/=;
          repeat match goal with H : _ = true |- _ => rewrite H end; done ].

Lemma stable_const b (x : nat + nat) :
  match x with inr n => n = 1 | inl n => n = 1 ∧ is_lead b = false end →
  stable b (λ _, x).
Proof.
  intros H l. destruct x as [n|n]; simpl; [destruct H as [-> H]|subst]; (split; [lia|done]).
Qed.

Lemma stable2 b :
  is_lead b = true →
  stable b (λ l, match l with
    | c :: _ => if utf8_in 128 191 c then inr 2 else inl 1 | [] => inl 1 end).
Proof.
  intros L l. rewrite L. destruct l as [|c l]; simpl; [solve_stable|].
  destruct (utf8_in 128 191 c) eqn:?; solve_stable.
Qed.

Lemma stable3 b (ok2 : ascii → bool) :
  is_lead b = true →
  stable b (λ l, match l with
    | c :: l' => if ok2 c then
                   match l' with d :: _ => if utf8_in 128 191 d then inr 3 else inl 2
                   | [] => inl 2 end
                 else inl 1
    | [] => inl 1 end).
Proof.
  intros L l. rewrite L. destruct l as [|c [|d l]]; simpl; [solve_stable| |];
    destruct (ok2 c) eqn:?; simpl; try solve_stable.
  destruct (utf8_in 128 191 d) eqn:?; solve_stable.
Qed.

Lemma stable4 b (ok2 : ascii → bool) :
  is_lead b = true →
  stable b (λ l, match l with
    | c :: l' =>
        if ok2 c then
          match l' with
          | d :: l'' =>
              if utf8_in 128 191 d then
                match l'' with e :: _ => if utf8_in 128 191 e then inr 4 else inl 3
                | [] => inl 3 end
              else inl 2
          | [] => inl 2
          end
        else inl 1
    | [] => inl 1
    end).
Proof.
  intros L l. rewrite L. destruct l as [|c [|d [|e l]]]; simpl; [solve_stable| | |];
    destruct (ok2 c) eqn:?; simpl; try solve_stable;
    destruct (utf8_in 128 191 d) eqn:?; simpl; try solve_stable.
  destruct (utf8_in 128 191 e) eqn:?; solve_stable.
Qed.

Lemma utf8_step_spec b : stable b (utf8_step b).
Proof.
  assert (L : utf8_in 194 223 b || (code b =? 224)%N || (code b =? 237)%N ||
    utf8_in 225 239 b || (code b =? 240)%N || (code b =? 244)%N || utf8_in 241 243 b =
    is_lead b) by (unfold is_lead, utf8_in; lia).
  unfold utf8_step.
  destruct (utf8_in 0 127 b); [by apply stable_const|].
  destruct (utf8_in 194 223 b); [by apply stable2|].
  destruct (code b =? 224)%N; [by apply stable3|].
  destruct (code b =? 237)%N; [by apply stable3|].
  destruct (utf8_in 225 239 b); [by apply stable3|].
  destruct (code b =? 240)%N; [by apply stable4|].
  destruct (code b =? 244)%N; [by apply stable4|].
  destruct (utf8_in 241 243 b); [by apply stable4|].
  apply stable_const. done.
Qed.

Lemma from_utf8_go_shift d s l :
  from_utf8_go d s l =
  match from_utf8_go 0 s l with Valid => Valid | Invalid n e => Invalid (d + n) e end.
Proof.
  revert d s. induction l as [|b l IH]; intros d s; simpl; [done|].
  destruct s as [|s].
  - destruct (utf8_step b l) as [n|n]; [by rewrite Nat.add_0_r|].
    rewrite IH, (IH 1). destruct (from_utf8_go 0 _ l); [done|]. by rewrite Nat.add_succ_r.
  - rewrite IH, (IH 1). destruct (from_utf8_go 0 s l); [done|]. by rewrite Nat.add_succ_r.
Qed.

Lemma from_utf8_go_valid d s l :
  from_utf8_go d s l = Valid ↔ utf8_valid_go s l = true.
Proof.
  revert d s. induction l as [|b l IH]; intros d s; simpl; [done|].
  destruct s as [|s]; [|apply IH]. destruct (utf8_step b l); [done|apply IH].
Qed.

Lemma from_utf8_valid l : from_utf8 l = Valid ↔ utf8 l.
Proof. apply from_utf8_go_valid. Qed.

Lemma utf8_step_app b l n k : utf8_step b l = inr n → utf8_step b (l ++ k) = inr n.
Proof.
  intros E. pose proof (utf8_step_spec b l) as St. rewrite E in St. destruct St as [B St].
  apply St. by rewrite take_app_le by lia.
Qed.

Lemma utf8_step_take b l n k :
  utf8_step b l = inr n → pred n ≤ k → utf8_step b (take k l) = inr n.
Proof.
  intros E L. pose proof (utf8_step_spec b l) as St. rewrite E in St. destruct St as [B St].
  apply St. rewrite take_take. f_equal. lia.
Qed.

(** Appending bytes: after a valid text decoding starts afresh, an error
    stays, and an unfinished character is preceded by a valid text. *)
Lemma from_utf8_go_app d s a b :
  s ≤ length a →
  match from_utf8_go d s a with
  | Valid => from_utf8_go d s (a ++ b) = from_utf8_go (d + length a) 0 b
  | Invalid n (Some e) => from_utf8_go d s (a ++ b) = Invalid n (Some e)
  | Invalid n None =>
      d + s ≤ n ≤ d + length a ∧ utf8_valid_go s (take (n - d) a) = true ∧
      from_utf8 (drop (n - d) a) = Invalid 0 None
  end.
Proof.
  revert d s. induction a as [|c a IH]; intros d s L; cbn -[Nat.eqb] in L |- *.
  { assert (s = 0) as -> by lia. by rewrite Nat.add_0_r. }
  rewrite <- Nat.add_succ_comm. destruct s as [|s].
  - destruct (utf8_step c a) as [n|n] eqn:E.
    + pose proof (utf8_step_spec c a) as St. rewrite E in St. destruct St as [B St].
      destruct (is_lead c && (n =? S (length a))) eqn:C.
      * rewrite Nat.sub_diag. split_and!; [lia|lia|done|]. unfold from_utf8. cbn -[Nat.eqb].
        by rewrite E, C.
      * rewrite (St eq_refl), length_app.
        destruct (is_lead c && (n =? S (length a + length b))) eqn:C'; [|done]. lia.
    + pose proof (utf8_step_spec c a) as St. rewrite E in St. destruct St as [B _].
      rewrite (utf8_step_app _ _ _ b E). specialize (IH (S d) (pred n)).
      destruct (from_utf8_go (S d) (pred n) a) as [|m [e|]]; [apply IH; lia..|].
      destruct IH as (I1 & I2 & I3); [lia|].
      replace (m - d) with (S (m - S d)) by lia. simpl.
      rewrite (utf8_step_take _ _ _ _ E) by lia. split_and!; [lia|lia|done|done].
  - specialize (IH (S d) s).
    destruct (from_utf8_go (S d) s a) as [|m [e|]]; [apply IH; lia..|].
    destruct IH as (I1 & I2 & I3); [lia|].
    replace (m - d) with (S (m - S d)) by lia. simpl. split_and!; [lia|lia|done|done].
Qed.

Lemma utf8_app a b : utf8 a → utf8 (a ++ b) ↔ utf8 b.
Proof.
  intros V. rewrite <- !from_utf8_valid in *. unfold from_utf8 in *.
  pose proof (from_utf8_go_app 0 0 a b ltac:(lia)) as H. rewrite V in H.
  rewrite H, from_utf8_go_shift. by destruct (from_utf8_go 0 0 b).
Qed.

Lemma utf8_concat cs : Forall utf8 cs → utf8 (concat cs).
Proof. induction 1; simpl; [done|]. by apply utf8_app. Qed.

Lemma utf8_error_app a b n e :
  from_utf8 a = Invalid n (Some e) → ¬ utf8 (a ++ b).
Proof.
  intros V. rewrite <- from_utf8_valid. unfold from_utf8 in *.
  pose proof (from_utf8_go_app 0 0 a b ltac:(lia)) as H. rewrite V in H. by rewrite H.
Qed.

Lemma utf8_incomplete a n :
  from_utf8 a = Invalid n None →
  from_utf8 (take n a) = Valid ∧ from_utf8 (drop n a) = Invalid 0 None.
Proof.
  intros V. unfold from_utf8 in V.
  pose proof (from_utf8_go_app 0 0 a [] ltac:(lia)) as H. rewrite V, Nat.sub_0_r in H.
  destruct H as (_ & H1 & H2). split; [by apply from_utf8_valid|done].
Qed.

(** ** Cutting the text and the bytes *)

Section parser.
Context {P X : Type} `{StreamLaws P X R ok}.
Implicit Types (p : P) (t : text).

(** The output for a whole text. *)
Definition parse_whole t p : StreamTextChunk X :=
  chunk_app (fst (push_str t p)) (fst (finish (snd (push_str t p)))).

Lemma parse_whole_app t u p :
  ok p → utf8 t → utf8 u →
  chunk_eq R (parse_whole (t ++ u) p)
    (chunk_app (fst (push_str t p)) (parse_whole u (snd (push_str t p)))).
Proof.
  intros O V1 V2. destruct (sl_push t u p O V1 V2) as [E1 E2]. unfold parse_whole.
  rewrite E2, <- chunk_app_assoc. f_equiv. exact E1.
Qed.

Lemma parse_whole_nil p : ok p → chunk_eq R (parse_whole [] p) (fst (finish p)).
Proof.
  intros O. destruct (sl_nil p O) as [E1 E2]. unfold parse_whole. rewrite E2.
  by rewrite E1, chunk_app_nil_l.
Qed.

Lemma push_all_whole cs p :
  ok p → Forall utf8 cs → chunk_eq R (push_all cs p) (parse_whole (concat cs) p).
Proof.
  intros O V. revert p O. induction V as [|c cs V1 V IH]; intros p O; simpl.
  - symmetry. by apply parse_whole_nil.
  - rewrite parse_whole_app by (try done; by apply utf8_concat).
    pose proof (sl_ok c p O) as O'. destruct (push_str c p) as [out p'] eqn:E. simpl in *.
    f_equiv. by apply IH.
Qed.

Lemma push_all_bytes_whole cs p pending :
  ok p → pending = [] ∨ from_utf8 pending = Invalid 0 None →
  match push_all_bytes cs {| us_inner := p; us_pending := pending |} with
  | inr c => utf8 (pending ++ concat cs) ∧
             chunk_eq R c (parse_whole (pending ++ concat cs) p)
  | inl _ => ¬ utf8 (pending ++ concat cs)
  end.
Proof.
  revert p pending. induction cs as [|c cs IH]; intros p pending O I; simpl.
  { rewrite app_nil_r. unfold utf8_finish, pending_error. simpl.
    destruct I as [->|I].
    - destruct (finish p) as [tail p'] eqn:F. simpl. split; [done|].
      rewrite parse_whole_nil, F, chunk_app_nil_l by done. reflexivity.
    - destruct pending as [|b pending]; [done|]. rewrite I. simpl.
      rewrite <- from_utf8_valid. congruence. }
  rewrite app_assoc. unfold push_bytes. simpl.
  generalize (pending ++ c) as whole. intros whole.
  assert (step : ∀ t u, whole = t ++ u → from_utf8 t = Valid →
    u = [] ∨ from_utf8 u = Invalid 0 None →
    match
      (let (out, inner) := push_str t p in
       match push_all_bytes cs {| us_inner := inner; us_pending := u |} with
       | inl e => inl e
       | inr rest => inr (chunk_app out rest)
       end)
    with
    | inr d => utf8 (whole ++ concat cs) ∧ chunk_eq R d (parse_whole (whole ++ concat cs) p)
    | inl _ => ¬ utf8 (whole ++ concat cs)
    end).
  { intros t u -> V I'. apply from_utf8_valid in V. pose proof (sl_ok t p O) as O'.
    destruct (push_str t p) as [out inner] eqn:E. simpl in O'.
    specialize (IH inner u O' I'). rewrite <- app_assoc.
    destruct (push_all_bytes cs _) as [e|rest]; [by rewrite utf8_app|].
    destruct IH as [W C]. split; [by apply utf8_app|].
    rewrite parse_whole_app, E by done. by f_equiv. }
  destruct (from_utf8 whole) as [|n [e|]] eqn:V.
  - specialize (step whole [] (eq_sym (app_nil_r _)) V (or_introl eq_refl)).
    by destruct (push_str whole p).
  - by eapply utf8_error_app.
  - destruct (Nat.eqb_spec n 0) as [->|N].
    + specialize (IH p whole O (or_intror V)).
      destruct (push_all_bytes cs _); [done|]. by rewrite chunk_app_nil_l.
    + destruct (utf8_incomplete _ _ V) as [V1 V2]. rewrite V1.
      specialize (step (take n whole) (drop n whole) (eq_sym (take_drop _ _)) V1 (or_intror V2)).
      by destruct (push_str (take n whole) p).
Qed.
End parser.

(** * ASCII delimiters in UTF-8 text

    An ASCII byte is never inside a character, so cutting a well-formed text
    at an ASCII delimiter gives well-formed texts; the hidden tag parser shows
    and keeps well-formed text only. *)

(** A step that wants more bytes does not accept an ASCII byte. *)
Definition stops (r : list ascii → nat + nat) : Prop :=
  ∀ l c k, (code c < 128)%N → r l = inl (S (length l)) → ∃ m, r (l ++ c :: k) = inl m.

Lemma no_cont c lo hi : (code c < 128)%N → (128 ≤ lo)%N → utf8_in lo hi c = false.
Proof. unfold utf8_in. lia. Qed.

Lemma stops2 :
  stops (λ l, match l with
    | c :: _ => if utf8_in 128 191 c then inr 2 else inl 1 | [] => inl 1 end).
Proof.
  intros [|d l] c k A; simpl; [|by destruct (utf8_in 128 191 d)].
  rewrite no_cont by lia. eauto.
Qed.

Lemma stops3 (ok2 : ascii → bool) :
  (∀ c, (code c < 128)%N → ok2 c = false) →
  stops (λ l, match l with
    | c :: l' => if ok2 c then
                   match l' with d :: _ => if utf8_in 128 191 d then inr 3 else inl 2
                   | [] => inl 2 end
                 else inl 1
    | [] => inl 1 end).
Proof.
  intros Ok [|d [|e l]] c k A; simpl.
  - rewrite Ok by done. eauto.
  - rewrite (no_cont c) by lia. destruct (ok2 d); eauto.
  - destruct (ok2 d), (utf8_in 128 191 e); done.
Qed.

Lemma stops4 (ok2 : ascii → bool) :
  (∀ c, (code c < 128)%N → ok2 c = false) →
  stops (λ l, match l with
    | c :: l' =>
        if ok2 c then
          match l' with
          | d :: l'' =>
              if utf8_in 128 191 d then
                match l'' with e :: _ => if utf8_in 128 191 e then inr 4 else inl 3
                | [] => inl 3 end
              else inl 2
          | [] => inl 2
          end
        else inl 1
    | [] => inl 1
    end).
Proof.
  intros Ok [|d [|e [|g l]]] c k A; simpl.
  - rewrite Ok by done. eauto.
  - rewrite (no_cont c) by lia. destruct (ok2 d); eauto.
  - rewrite (no_cont c) by lia. destruct (ok2 d), (utf8_in 128 191 e); eauto.
  - destruct (ok2 d), (utf8_in 128 191 e), (utf8_in 128 191 g); done.
Qed.

Lemma utf8_step_stops b : is_lead b = true → stops (utf8_step b).
Proof.
  intros L. assert (L' : utf8_in 194 223 b || (code b =? 224)%N || (code b =? 237)%N ||
    utf8_in 225 239 b || (code b =? 240)%N || (code b =? 244)%N || utf8_in 241 243 b =
    true) by (revert L; unfold is_lead, utf8_in; lia).
  assert (C : ∀ lo hi c, (128 ≤ lo)%N → (code c < 128)%N → utf8_in lo hi c = false)
    by (intros; by apply no_cont).
  assert (utf8_in 0 127 b = false) as E by (revert L; unfold is_lead, utf8_in; lia).
  unfold utf8_step. rewrite E.
  destruct (utf8_in 194 223 b); [apply stops2|].
  destruct (code b =? 224)%N; [apply stops3; intros; by apply C|].
  destruct (code b =? 237)%N; [apply stops3; intros; by apply C|].
  destruct (utf8_in 225 239 b); [apply stops3; intros; by apply C|].
  destruct (code b =? 240)%N; [apply stops4; intros; by apply C|].
  destruct (code b =? 244)%N; [apply stops4; intros; by apply C|].
  destruct (utf8_in 241 243 b); [apply stops4; intros; by apply C|].
  done.
Qed.

Lemma utf8_before_ascii a c b : (code c < 128)%N → utf8 (a ++ c :: b) → utf8 a.
Proof.
  intros A V. destruct (from_utf8 a) as [|n [e|]] eqn:E.
  - by apply from_utf8_valid.
  - by apply (utf8_error_app _ (c :: b)) in E.
  - exfalso. destruct (utf8_incomplete _ _ E) as [E1 E2].
    rewrite <- (take_drop n a), <- app_assoc in V.
    apply utf8_app in V; [|by apply from_utf8_valid].
    destruct (drop n a) as [|d r]; [done|]. unfold from_utf8 in E2.
    cbn -[Nat.eqb] in E2. unfold utf8 in V. simpl in V.
    destruct (utf8_step d r) as [m|m] eqn:S1.
    + destruct (is_lead d && (m =? S (length r))) eqn:L; [|done].
      apply andb_true_iff in L as [L M%Nat.eqb_eq]. subst m.
      destruct (utf8_step_stops d L r c b A S1) as [m' S2]. by rewrite S2 in V.
    + pose proof (utf8_step_spec d r) as St. rewrite S1 in St. destruct St as [B _].
      rewrite from_utf8_go_shift in E2. by destruct (from_utf8_go 0 _ r).
Qed.

Lemma utf8_ascii t : ascii_text t → utf8 t.
Proof.
  induction 1 as [|c t A _ IH]; [done|]. unfold utf8. simpl. unfold utf8_step.
  replace (utf8_in 0 127 c) with true by (unfold utf8_in; lia). exact IH.
Qed.

(** Cutting at an ASCII delimiter. *)
Lemma utf8_cut a n b : ascii_text n → n ≠ [] → utf8 (a ++ n ++ b) → utf8 a ∧ utf8 b.
Proof.
  intros A N V. assert (Va : utf8 a).
  { destruct n as [|c n]; [done|]. inversion A; subst. by eapply utf8_before_ascii. }
  split; [done|]. apply utf8_app in V; [|done]. apply utf8_app in V; [done|by apply utf8_ascii].
Qed.

Lemma utf8_find t n i :
  ascii_text n → n ≠ [] → find n t = Some i → utf8 t →
  utf8 (take i t) ∧ utf8 (drop (i + length n) t).
Proof. intros A N F V. rewrite (find_split _ _ _ F) in V. by eapply utf8_cut. Qed.

Lemma ascii_text_take k n : ascii_text n → ascii_text (take k n).
Proof. apply Forall_take. Qed.

(** What is kept is an ASCII suffix. *)
Lemma utf8_keep t k n :
  ascii_text n → k ≤ length t → take k n `suffix_of` t → k ≤ length n → utf8 t →
  utf8 (take (length t - k) t) ∧ utf8 (drop (length t - k) t).
Proof.
  intros A L [v ->] L2 V. rewrite length_app, length_take, Nat.min_l by done.
  replace (length v + k - k) with (length v) by lia.
  rewrite take_app_length, drop_app_length. pose proof (ascii_text_take k n A) as A'.
  split; [|by apply utf8_ascii]. destruct (take k n) as [|c w] eqn:E.
  - by rewrite app_nil_r in V.
  - inversion A'; subst. by eapply utf8_before_ascii.
Qed.

Section inline.
Context {T : Type}.
Implicit Types (specs : list (InlineTagSpec T)) (t u : text) (a : option (ActiveTag T)).

Lemma max_keep_witness specs t :
  specs_ok specs →
  max_open_prefix_suffix_len specs t = 0 ∨
  ∃ s, s ∈ specs ∧ max_open_prefix_suffix_len specs t = longest_suffix_prefix_len t (it_open s).
Proof.
  intros _. unfold max_open_prefix_suffix_len.
  induction specs as [|s specs IH]; simpl; [by left|].
  destruct (Nat.max_spec (longest_suffix_prefix_len t (it_open s))
    (foldr Nat.max 0 (map (λ s, longest_suffix_prefix_len t (it_open s)) specs)))
    as [[_ ->]|[_ ->]].
  - destruct IH as [->|(s' & Hs & ->)]; [by left|right]. exists s'. split; [by right|done].
  - right. exists s. split; [by left|done].
Qed.

Lemma utf8_lsp t n :
  ascii_text n → utf8 t →
  let k := longest_suffix_prefix_len t n in
  utf8 (take (length t - k) t) ∧ utf8 (drop (length t - k) t).
Proof.
  intros A V. destruct (lsp_spec t n A) as (K1 & K2 & K3 & _).
  apply (utf8_keep t _ n); try done. lia.
Qed.

(** The text a scan shows and the text it leaves are well formed. *)
Lemma scan_utf8 specs f t a o q a' :
  specs_ok specs → active_ok a → utf8 t → scan f specs t a = (o, q, a') →
  utf8 (visible_text o) ∧ utf8 q.
Proof.
  intros O. revert t a o q a'. induction f as [|f IH]; intros t a o q a' A V; simpl.
  { by intros [= <- <- <-]. }
  destruct a as [a|].
  - destruct A as [A1 A2]. destruct (find (at_close a) t) as [i|] eqn:F.
    + destruct (scan f specs _ None) as [[o1 q1] a1] eqn:E. intros [= <- <- <-].
      by apply IH in E; [..|by eapply utf8_find].
    + intros [= <- <- <-]. split; [done|]. by apply utf8_lsp.
  - destruct (find_next_open specs t) as [[i idx]|] eqn:F.
    + apply find_next_open_Some in F as [s B]. pose proof B as (Ls & F & _). rewrite Ls.
      apply list_elem_of_lookup_2 in Ls. destruct (so_open _ O s Ls) as [N As].
      destruct (utf8_find _ _ _ As N F V) as [V1 V2].
      destruct (scan f specs _ _) as [[o1 q1] a1] eqn:E. intros [= <- <- <-].
      apply IH in E as [E1 E2];
        [|by apply (best_open_bound _ _ _ _ _ O B)|done].
      split; [|done]. simpl. by apply utf8_app.
    + intros [= <- <- <-]. simpl. destruct (max_keep_witness specs t O) as [->|(s & Hs & ->)].
      * rewrite Nat.sub_0_r, firstn_all, drop_all. done.
      * apply utf8_lsp; [by apply O|done].
Qed.
End inline.
