(* ===== verification/StreamProps.v ===== *)
(** * Streamed text: the parsers meet their specifications

    The parser of inline tags, and the theorems on hidden tags, plans and
    assistant text. *)

From Stdlib Require Import ZifyBool.
From S2P Require Import Prelude RustStr FsModel StreamText StreamFacts StreamLaws.

(** * The hidden tag and citation parsers

    Their laws, and the specification of the text they show and the tags they
    extract. *)

(** * The hidden tag and citation parsers

    Their laws, and the specification of the text they show and the tags they
    extract. *)

Section inline.
Context {T : Type}.
Implicit Types (specs : list (InlineTagSpec T)) (t u : text).
Implicit Types (p : InlineHiddenTagParser T).

(** A state between two pushes: the pending text is what a scan leaves. *)
Record inline_ok p : Prop := {
  io_specs : specs_ok (ih_specs p);
  io_active : active_ok (ih_active p);
  io_pending : scan (S (length (ih_pending p))) (ih_specs p) (ih_pending p) (ih_active p)
               = (chunk_default, ih_pending p, ih_active p)
}.

Lemma inline_push_str_scan t p f :
  inline_ok p → length (ih_pending p ++ t) < f →
  inline_push_str t p =
  let '(out, pending, active) := scan f (ih_specs p) (ih_pending p ++ t) (ih_active p) in
  (out, {| ih_specs := ih_specs p; ih_pending := pending; ih_active := active |}).
Proof.
  intros [O A _] L. unfold inline_push_str. by rewrite (scan_fuel _ _ f) by (try done; lia).
Qed.

(** What a scan leaves pending is left as it is by the next one. *)
Lemma scan_stable specs f t a o q a' :
  specs_ok specs → active_ok a → length t < f → scan f specs t a = (o, q, a') →
  scan (S (length q)) specs q a' = (chunk_default, q, a').
Proof.
  intros O A L E. pose proof (scan_app specs f t [] a O A) as S0.
  rewrite app_nil_r, E in S0. specialize (S0 L). simpl in S0. rewrite app_nil_r in S0.
  destruct (scan_keeps _ _ _ _ _ _ _ O A E) as [K A'].
  rewrite (scan_fuel _ _ f) by (try done; lia).
  destruct (scan f specs q a') as [[[v x] q'] a'']. unfold chunk_app in S0. simpl in S0.
  destruct o as [v0 x0]. injection S0 as Ev Ex <- <-. simpl in *.
  apply (f_equal length) in Ev, Ex. rewrite length_app in Ev, Ex.
  destruct v; simpl in Ev; [|lia]. destruct x; simpl in Ex; [done|lia].
Qed.

#[export] Instance inline_laws : StreamLaws (InlineHiddenTagParser T) _ (=) inline_ok.
Proof.
  split.
  - apply _.
  - apply _.
  - intros t p O. simpl. rewrite (inline_push_str_scan t p (S (length (ih_pending p ++ t))))
      by (done || lia).
    destruct (scan _ _ _ _) as [[o q] a] eqn:E. destruct O as [O A _].
    split; simpl; [done|by eapply scan_keeps|]. by eapply scan_stable; [..|exact E]; try lia.
  - intros p [O A I]. simpl. unfold inline_push_str. rewrite app_nil_r, I. by destruct p.
  - intros t u p O _ _. simpl. pose proof O as [Os Oa _].
    assert (Lf : ∃ f, length ((ih_pending p ++ t) ++ u) < f) by (eexists; apply Nat.lt_succ_diag_r).
    destruct Lf as [f Lf]. pose proof Lf as Ln. rewrite !length_app in Ln.
    rewrite (inline_push_str_scan t p f), (inline_push_str_scan (t ++ u) p f)
      by (try done; rewrite !length_app; lia).
    rewrite app_assoc, scan_app by done.
    destruct (scan f (ih_specs p) (ih_pending p ++ t) _) as [[o q] a] eqn:E. simpl.
    destruct (scan_keeps _ _ _ _ _ _ _ Os Oa E) as [K A'].
    unfold inline_push_str. cbn [ih_specs ih_pending ih_active].
    rewrite (scan_fuel _ (S (length (q ++ u))) f) by (try done; rewrite ?length_app in *; lia).
    by destruct (scan f (ih_specs p) (q ++ u) a) as [[o2 q2] a2].
Qed.

Lemma inline_new_ok specs p :
  InlineHiddenTagParser_new specs = Some p → specs_ok specs →
  inline_ok p ∧ ih_specs p = specs ∧ ih_pending p = [] ∧ ih_active p = None.
Proof.
  intros N O. unfold InlineHiddenTagParser_new in N.
  destruct specs as [|s specs]; [done|]. case_match; [|done]. injection N as <-.
  split_and!; [|done..]. split; [done|done|]. cbn [ih_specs ih_pending ih_active].
  simpl (length _). unfold scan.
  destruct (find_next_open (s :: specs) []) as [[i idx]|] eqn:F; [|done].
  apply find_next_open_Some in F as [s' B].
  destruct (best_open_bound _ _ _ _ _ O B) as (B1 & B2 & _). simpl in B1. lia.
Qed.

(** ** What is shown and what is extracted *)

(** The opener of [s] comes right after [v] and no opener comes before; of
    equal openers the first spec counts. *)
Definition opens_after specs s (v t : text) : Prop :=
  (∃ before after, specs = before ++ s :: after ∧
     ∀ s', s' ∈ before → it_open s' ≠ it_open s) ∧
  t = v ++ it_open s ++ drop (length (v ++ it_open s)) t ∧
  ∀ s' u w, s' ∈ specs → t = u ++ it_open s' ++ w → length v ≤ length u.

(** The first [n] in [t] comes right after [c]. *)
Definition closes_after (n c t : text) : Prop :=
  t = c ++ n ++ drop (length (c ++ n)) t ∧ ∀ u w, t = u ++ n ++ w → length c ≤ length u.

Definition tag_content (s : InlineTagSpec T) (c : text) :=
  extracted_chunk {| xt_tag := it_tag s; xt_content := c |}.

Inductive hides specs : text → StreamTextChunk (ExtractedInlineTag T) → Prop :=
| hides_plain t :
    (∀ s u w, s ∈ specs → t ≠ u ++ it_open s ++ w) →
    hides specs t (visible_chunk t)
| hides_tag s v c t out :
    opens_after specs s v (v ++ it_open s ++ c ++ it_close s ++ t) →
    closes_after (it_close s) c (c ++ it_close s ++ t) →
    hides specs t out →
    hides specs (v ++ it_open s ++ c ++ it_close s ++ t)
      (chunk_app (visible_chunk v) (chunk_app (tag_content s c) out))
| hides_unclosed s v c :
    opens_after specs s v (v ++ it_open s ++ c) →
    (∀ u w, c ≠ u ++ it_close s ++ w) →
    hides specs (v ++ it_open s ++ c) (chunk_app (visible_chunk v) (tag_content s c)).

Lemma find_None_app n t : find n t = None ↔ ∀ u w, t ≠ u ++ n ++ w.
Proof.
  rewrite find_None. split.
  - intros N u w ->. apply (N (length u)); [rewrite length_app; lia|].
    rewrite drop_app_length. by eexists.
  - intros N j L [w E]. apply (N (take j t) w). by rewrite <- E, take_drop.
Qed.

Lemma find_first_app n t i u w : find n t = Some i → t = u ++ n ++ w → i ≤ length u.
Proof.
  intros (_ & _ & N)%find_Some ->. destruct (decide (length u < i)) as [L|]; [|lia].
  exfalso. apply (N _ L). rewrite drop_app_length. by eexists.
Qed.

Lemma best_open_opens specs t i idx s :
  best_open specs t i idx s → specs_ok specs → opens_after specs s (take i t) t.
Proof.
  intros (L & F & M) O. pose proof (find_bound _ _ _ F) as B. split_and!.
  - exists (take idx specs), (drop (S idx) specs). split; [symmetry; by apply take_drop_middle|].
    intros s' [k Lk]%list_elem_of_lookup E. apply lookup_take_Some in Lk as [Lk K].
    specialize (M k s' i Lk). rewrite E in M. specialize (M F).
    apply not_true_iff_false in M. apply M, before_candidate_spec. lia.
  - rewrite length_app, length_take, Nat.min_l by lia. by apply find_split.
  - intros s' u w [k Lk]%list_elem_of_lookup E. rewrite length_take, Nat.min_l by lia.
    destruct (find (it_open s') t) as [i'|] eqn:F'.
    + pose proof (find_first_app _ _ _ _ _ F' E) as L1. specialize (M _ _ _ Lk F').
      apply not_true_iff_false in M. rewrite before_candidate_spec in M. lia.
    + by destruct (proj1 (find_None_app _ _) F' u w).
Qed.

Lemma find_closes n t i : find n t = Some i → closes_after n (take i t) t.
Proof.
  intros F. pose proof (find_bound _ _ _ F) as B. split.
  - rewrite length_app, length_take, Nat.min_l by lia. by apply find_split.
  - intros u w E. rewrite length_take, Nat.min_l by lia. by eapply find_first_app.
Qed.

Lemma best_open_parts specs t i idx s :
  best_open specs t i idx s → specs_ok specs →
  ∃ v t', t = v ++ it_open s ++ t' ∧ v = take i t ∧
          drop (i + length (it_open s)) t = t' ∧
          opens_after specs s v (v ++ it_open s ++ t').
Proof.
  intros B O. pose proof (best_open_opens _ _ _ _ _ B O) as OA. destruct B as (_ & F & _).
  pose proof (find_split _ _ _ F) as Sp. eexists _, _. split_and!; [exact Sp|done|done|].
  by rewrite <- Sp.
Qed.

Lemma find_parts n t i :
  find n t = Some i →
  ∃ c t', t = c ++ n ++ t' ∧ c = take i t ∧ drop (i + length n) t = t' ∧
          closes_after n c (c ++ n ++ t').
Proof.
  intros F. pose proof (find_split _ _ _ F) as Sp. eexists _, _.
  split_and!; [exact Sp|done|done|]. rewrite <- Sp. by apply find_closes.
Qed.

Definition inline_tail (a : option (ActiveTag T)) (q : text) :=
  match a with
  | Some a => extracted_chunk {| xt_tag := at_tag a; xt_content := at_content a ++ q |}
  | None => visible_chunk q
  end.

Lemma scan_hides specs f t o q a :
  specs_ok specs → length t < f → scan f specs t None = (o, q, a) →
  hides specs t (chunk_app o (inline_tail a q)).
Proof.
  intros O. revert t o q a. induction f as [f IH] using lt_wf_ind. intros t o q a L E.
  destruct f as [|f]; [lia|]. simpl in E.
  destruct (find_next_open specs t) as [[i idx]|] eqn:F; cycle 1.
  { injection E as <- <- <-. simpl. unfold chunk_app, visible_chunk. simpl.
    rewrite take_drop. apply hides_plain. intros s u w Hs.
    by apply find_None_app, (proj1 (find_next_open_None _ _) F). }
  apply find_next_open_Some in F as [s B]. pose proof B as (Ls & F & _). rewrite Ls in E.
  destruct (best_open_bound _ _ _ _ _ O B) as (B1 & B2 & B3).
  destruct (best_open_parts _ _ _ _ _ B O) as (v & t' & Et & E0 & E2 & OA).
  rewrite E2, <- E0 in E. assert (Lt : length t' < length t) by (rewrite <- E2, length_drop; lia).
  rewrite Et at 1. destruct f as [|f]; [lia|]. simpl in E.
  destruct (find (it_close s) t') as [j|] eqn:Fc.
  - destruct (find_parts _ _ _ Fc) as (c & t'' & Ec & E4 & E3 & CA).
    rewrite E3, <- E4 in E. destruct (scan f specs t'' None) as [[o1 q1] a1] eqn:E1.
    injection E as <- <- <-. rewrite Ec in OA. rewrite Ec at 1.
    rewrite !chunk_app_assoc. apply hides_tag; [done|done|].
    destruct (close_bound _ _ _ B3 Fc) as [C1 C2]. simpl in C1, C2.
    eapply (IH f); [lia| |exact E1]. rewrite <- E3, length_drop. lia.
  - injection E as <- <- <-. rewrite chunk_app_assoc.
    replace (chunk_app chunk_default (inline_tail _ _)) with (tag_content s t').
    + apply hides_unclosed; [done|]. by apply find_None_app.
    + rewrite chunk_app_nil_l. unfold tag_content, inline_tail. simpl. by rewrite take_drop.
Qed.
End inline.

(** * The tagged line, plan and citation parsers

    Segments that are joined when adjacent, the independence of the tagged
    line parser from the way its input is cut, and the laws of the parsers
    built on the two generic ones. *)

(** ** Characters of a text in two pieces *)

Lemma chars_cons c l : ∃ g gs, chars (c :: l) = (c :: g) :: gs.
Proof.
  simpl. destruct (chars l) as [|[|d g] gs]; [eauto..|]. destruct (is_cont d); eauto.
Qed.

Lemma utf8_head c l : utf8 (c :: l) → is_cont c = false.
Proof.
  unfold utf8. simpl. intros V. apply not_true_iff_false. intros C. revert V.
  assert (F : ∀ lo hi, (hi < 128 ∨ 192 ≤ lo)%N → utf8_in lo hi c = false)
    by (revert C; unfold is_cont, utf8_in; lia).
  assert (F' : ∀ n, (192 ≤ n)%N → (code c =? n)%N = false)
    by (revert C; unfold is_cont; lia).
  unfold utf8_step. rewrite !F, !F' by lia. done.
Qed.

Lemma chars_app a b : utf8 b → chars (a ++ b) = chars a ++ chars b.
Proof.
  intros V. induction a as [|c a IH]; [done|]. simpl. rewrite IH.
  destruct a as [|d a].
  - simpl. destruct b as [|d b]; [done|]. apply utf8_head in V.
    destruct (chars_cons d b) as (g & gs & ->). by rewrite V.
  - destruct (chars_cons d a) as (g & gs & ->). simpl. by destruct (is_cont d).
Qed.

(** ** Joined segments *)

Section tagged.
Context {T : Type} `{EqDecision T}.
Implicit Types (p : TaggedLineParser T) (l k : list (TaggedLineSegment T)).
Implicit Types (x y : TaggedLineSegment T).

(** A list of segments in which adjacent texts are joined. *)
Definition coalesce l : list (TaggedLineSegment T) := foldl push_segment [] l.
Definition same_segments l k : Prop := coalesce l = coalesce k.

(** Two segments that are joined, and the result. *)
Definition merged x y : option (TaggedLineSegment T) :=
  match x, y with
  | Normal t, Normal u => Some (Normal (t ++ u))
  | TagDelta a t, TagDelta b u => if bool_decide (a = b) then Some (TagDelta a (t ++ u)) else None
  | _, _ => None
  end.
Definition empty_segment x : bool :=
  match x with Normal [] | TagDelta _ [] => true | _ => false end.

Lemma push_segment_unfold l x :
  push_segment l x =
  if empty_segment x then l else
  match last l with
  | Some y => match merged y x with Some z => removelast l ++ [z] | None => l ++ [x] end
  | None => l ++ [x]
  end.
Proof.
  destruct x as [[|c t]|a|a [|c t]|a]; simpl; try done.
  - by destruct (last l) as [[]|].
  - by destruct (last l) as [[]|].
  - destruct (last l) as [[| |b u|]|]; try done. simpl. by case_bool_decide.
  - by destruct (last l) as [[]|].
Qed.

Lemma empty_merged x y z : merged x y = Some z → empty_segment z = empty_segment x && empty_segment y.
Proof.
  destruct x as [t| |a t|], y as [u| |b u|]; simpl; try done.
  - intros [= <-]. by destruct t, u.
  - case_bool_decide; [|done]. intros [= <-]. by destruct t, u.
Qed.

Lemma merged_empty_l x y z : merged x y = Some z → empty_segment x = true → z = y.
Proof.
  destruct x as [[]| |a []|], y as [u| |b u|]; simpl; try done.
  - by intros [= <-].
  - case_bool_decide; [|done]. intros [= <-]. by subst.
Qed.

Lemma merged_empty_r x y z : merged x y = Some z → empty_segment y = true → z = x.
Proof.
  destruct x as [t| |a t|], y as [[]| |b []|]; simpl; try done.
  - intros [= <-]. by rewrite app_nil_r.
  - case_bool_decide; [|done]. intros [= <-]. by rewrite app_nil_r.
Qed.

Lemma merged_assoc x y z w u : merged x y = Some w → merged y z = Some u →
  merged w z = merged x u.
Proof.
  destruct x as [?| |a ?|], y as [?| |b ?|], z as [?| |c ?|]; simpl; try done.
  - intros [= <-] [= <-]. simpl. by rewrite app_assoc.
  - do 2 (case_bool_decide; [|done]). intros [= <-] [= <-]. subst. simpl.
    rewrite !bool_decide_eq_true_2 by done. by rewrite app_assoc.
Qed.

Lemma merged_None x y z w : merged x y = Some w → merged z x = None → merged z w = None.
Proof.
  destruct x as [?| |a ?|], y as [?| |b ?|], z as [?| |c ?|]; simpl; try done;
    repeat (case_bool_decide; simpl); try done; intros [= <-]; simpl;
    rewrite ?bool_decide_eq_false_2 by done; done.
Qed.

(** Pushing two texts that are joined is pushing the joined text. *)
Lemma push_merged l x y z :
  merged x y = Some z → push_segment (push_segment l x) y = push_segment l z.
Proof.
  intros M. rewrite !(push_segment_unfold l), (empty_merged _ _ _ M).
  destruct (empty_segment x) eqn:Ex; simpl.
  { rewrite (merged_empty_l _ _ _ M Ex). by rewrite push_segment_unfold. }
  rewrite push_segment_unfold. destruct (empty_segment y) eqn:Ey.
  { by rewrite (merged_empty_r _ _ _ M Ey). }
  destruct (last l) as [w|] eqn:E.
  - destruct (merged w x) as [u|] eqn:Mu.
    + rewrite last_snoc, (merged_assoc _ _ _ _ _ Mu M).
      destruct (merged w z) as [v|] eqn:Mv.
      * by rewrite removelast_last.
      * exfalso. revert Mu M Mv. clear.
        destruct w, x, y; simpl; try done; repeat (case_bool_decide; simpl); try done;
          intros [= <-] [= <-]; simpl; rewrite ?bool_decide_eq_true_2; congruence.
    + by rewrite last_snoc, M, removelast_last, (merged_None _ _ _ _ M Mu).
  - by rewrite last_snoc, M, removelast_last.
Qed.

Lemma foldl_push_segment l k x :
  foldl push_segment l (push_segment k x) = push_segment (foldl push_segment l k) x.
Proof.
  rewrite (push_segment_unfold k). destruct (empty_segment x) eqn:E.
  { by rewrite push_segment_unfold, E. }
  destruct (last k) as [y|] eqn:L; [|by rewrite foldl_snoc].
  apply last_Some in L as [k' ->].
  destruct (merged y x) as [z|] eqn:M; [|by rewrite foldl_snoc].
  rewrite removelast_last, !foldl_snoc. symmetry. by apply push_merged.
Qed.

Lemma foldl_coalesce l k : foldl push_segment l (coalesce k) = foldl push_segment l k.
Proof.
  unfold coalesce. induction k as [|x k IH] using rev_ind; [done|].
  by rewrite !foldl_snoc, foldl_push_segment, IH.
Qed.

Lemma coalesce_app l k : coalesce (l ++ k) = foldl push_segment (coalesce l) (coalesce k).
Proof. rewrite foldl_coalesce. unfold coalesce. apply foldl_app. Qed.

#[export] Instance same_segments_equiv : Equivalence same_segments.
Proof. split; unfold same_segments; [done|by intros ? ?|intros ? ? ? -> ->; done]. Qed.

#[export] Instance same_segments_app : Proper (same_segments ==> same_segments ==> same_segments) (++).
Proof. intros l l' H k k' H'. unfold same_segments. by rewrite !coalesce_app, H, H'. Qed.

Lemma same_coalesce l : same_segments (coalesce l) l.
Proof. exact (foldl_coalesce [] l). Qed.

(** ** One character at a time *)

Implicit Types (ch : text) (cs : list text).

(** The segments a character emits and the state after it, whatever was
    emitted before. *)
Definition char_step p ch : list (TaggedLineSegment T) * TaggedLineParser T :=
  let buffered := tl_line_buffer p ++ ch in
  if tl_detect_tag p then
    if bool_decide (ch = [newline]) then
      let (segment, active) := line_segment (with_buffer buffered p) buffered in
      ([segment], with_active active (with_detect true (with_buffer [] p)))
    else if bool_decide (ltrim buffered = []) || is_tag_prefix p (ltrim buffered)
    then ([], with_buffer buffered p)
    else ([text_segment p buffered], with_detect false (with_buffer [] p))
  else ([text_segment p ch], with_detect (bool_decide (ch = [newline])) p).

Fixpoint chars_steps cs p : list (TaggedLineSegment T) * TaggedLineParser T :=
  match cs with
  | [] => ([], p)
  | ch :: cs' =>
      let (l, p') := char_step p ch in
      let (k, q) := chars_steps cs' p' in (l ++ k, q)
  end.

Lemma text_segment_merged p t u :
  merged (text_segment p t) (text_segment p u) = Some (text_segment p (t ++ u)).
Proof.
  unfold text_segment. destruct (tl_active_tag p); simpl; [|done].
  by rewrite bool_decide_eq_true_2.
Qed.

Lemma push_text_nil p l : push_text p [] l = l.
Proof. unfold push_text, text_segment. by destruct (tl_active_tag p). Qed.

(** The text of [run] counts as emitted. *)
Definition flushed (st : list (TaggedLineSegment T) * text * TaggedLineParser T) :=
  let '(segments, run, p) := st in push_text p run segments.

Lemma parse_char_step segments run p ch :
  let '(segments', run', p') := parse_char (segments, run, p) ch in
  let (l, q) := char_step p ch in
  p' = q ∧ flushed (segments', run', p') = foldl push_segment (push_text p run segments) l.
Proof.
  unfold parse_char, char_step. destruct (tl_detect_tag p) eqn:D.
  - assert (E : match run with [] => segments | _ => push_text p run segments end =
                push_text p run segments) by (destruct run; by rewrite ?push_text_nil).
    rewrite E. clear E. simpl. case_bool_decide as N.
    + unfold finish_line. simpl. destruct (line_segment _ _) as [x a]. simpl.
      rewrite push_text_nil. by destruct p.
    + replace (is_tag_prefix (with_buffer _ p) _)
        with (is_tag_prefix p (ltrim (tl_line_buffer p ++ ch))) by done.
      destruct (_ || _); simpl; rewrite push_text_nil; [done|by destruct p].
  - case_bool_decide as N; simpl; rewrite ?push_text_nil.
    + split; [by destruct p|]. unfold push_text. symmetry.
      apply push_merged, text_segment_merged.
    + split; [by destruct p; simpl in D; subst|]. unfold push_text. symmetry.
      apply push_merged, text_segment_merged.
Qed.

Lemma foldl_parse_char cs segments run p :
  let '(segments', run', p') := foldl parse_char (segments, run, p) cs in
  let (l, q) := chars_steps cs p in
  p' = q ∧ flushed (segments', run', p') = foldl push_segment (push_text p run segments) l.
Proof.
  revert segments run p. induction cs as [|ch cs IH]; intros segments run p; cbn [foldl chars_steps]; [done|].
  pose proof (parse_char_step segments run p ch) as S0.
  destruct (parse_char _ ch) as [[segments1 run1] p1].
  destruct (char_step p ch) as [l q]. destruct S0 as [<- S0].
  specialize (IH segments1 run1 p1). destruct (foldl parse_char _ cs) as [[segments2 run2] p2].
  destruct (chars_steps cs p1) as [k r]. destruct IH as [-> IH]. split; [done|].
  rewrite IH, foldl_app. f_equal. done.
Qed.

Lemma tagged_parse_steps delta p :
  tagged_parse delta p =
  let (l, q) := chars_steps (chars delta) p in (coalesce l, q).
Proof.
  unfold tagged_parse. pose proof (foldl_parse_char (chars delta) [] [] p) as F.
  destruct (foldl parse_char _ _) as [[segments run] q].
  destruct (chars_steps _ p) as [l r]. destruct F as [<- F]. f_equal.
  rewrite push_text_nil in F. unfold coalesce. rewrite <- F. simpl.
  destruct run; by rewrite ?push_text_nil.
Qed.

Lemma chars_steps_app cs ds p :
  chars_steps (cs ++ ds) p =
  let (l, q) := chars_steps cs p in let (k, r) := chars_steps ds q in (l ++ k, r).
Proof.
  revert p. induction cs as [|ch cs IH]; intros p; simpl.
  - by destruct (chars_steps ds p).
  - destruct (char_step p ch) as [l q]. rewrite IH.
    destruct (chars_steps cs q) as [k r]. destruct (chars_steps ds r) as [k' r'].
    by rewrite app_assoc.
Qed.

(** Parsing a text in two pieces. *)
Lemma tagged_parse_app t u p :
  utf8 u →
  let (l, q) := tagged_parse t p in
  let (k, r) := tagged_parse u q in
  let (j, r') := tagged_parse (t ++ u) p in
  same_segments j (l ++ k) ∧ r' = r.
Proof.
  intros V. rewrite !tagged_parse_steps.
  rewrite chars_app, chars_steps_app by done.
  destruct (chars_steps (chars t) p) as [l q].
  destruct (chars_steps (chars u) q) as [k r] eqn:E.
  rewrite tagged_parse_steps, E. split; [|done]. by rewrite !same_coalesce.
Qed.
End tagged.

(** * Properties of the streamed text parsers

    The citation and the plan parser obey the laws of a streamed parser; the
    properties: hidden tags are shown and extracted as specified, bytes are
    decoded as the text they encode, and the assistant's text is parsed
    independently of how it arrives. *)

(** ** Citations *)

Lemma citation_specs_ok : specs_ok citation_specs.
Proof.
  split.
  - intros s ->%list_elem_of_singleton. split; [done|].
    apply (bool_decide_unpack (Forall (λ c, (code c < 128)%N) _)). by vm_compute.
  - intros s ->%list_elem_of_singleton. split; [done|].
    apply (bool_decide_unpack (Forall (λ c, (code c < 128)%N) _)). by vm_compute.
  - by intros s s' u v ->%list_elem_of_singleton ->%list_elem_of_singleton.
Qed.

(** Between two pushes. *)
Definition citation_ok (p : CitationStreamParser) : Prop :=
  inline_ok (cs_inner p) ∧ utf8 (ih_pending (cs_inner p)).

Lemma citation_new_ok : citation_ok CitationStreamParser_new.
Proof. split; [|done]. by apply (inline_new_ok citation_specs _ eq_refl citation_specs_ok). Qed.

Lemma citation_chunk_app c d :
  citation_chunk (chunk_app c d) = chunk_app (citation_chunk c) (citation_chunk d).
Proof. unfold citation_chunk, chunk_app. simpl. by rewrite map_app. Qed.

Lemma citation_push t p :
  push_str t p =
  (citation_chunk (fst (push_str t (cs_inner p))), {| cs_inner := snd (push_str t (cs_inner p)) |}).
Proof. simpl. by destruct (inline_push_str t (cs_inner p)). Qed.

(** Text in, text out. *)
Lemma citation_push_utf8 t p :
  citation_ok p → utf8 t →
  utf8 (visible_text (fst (push_str t p))) ∧ citation_ok (snd (push_str t p)).
Proof.
  intros [O V] Vt. rewrite citation_push. simpl.
  pose proof (sl_ok t (cs_inner p) O) as O'. simpl in O'.
  assert (Vp : utf8 (ih_pending (cs_inner p) ++ t)) by by apply utf8_app.
  unfold inline_push_str in *. destruct (scan _ _ _ _) as [[o q] a] eqn:E.
  destruct O as [Os Oa _]. by destruct (scan_utf8 _ _ _ _ _ _ _ Os Oa Vp E).
Qed.

Lemma citation_finish_utf8 p :
  citation_ok p → utf8 (visible_text (fst (finish p))).
Proof.
  intros [O V]. simpl. unfold inline_finish. by destruct (ih_active (cs_inner p)).
Qed.

(** The unrestricted law: the pieces need not be well formed here. *)
#[export] Instance citation_laws :
  StreamLaws CitationStreamParser text (=) (λ p, inline_ok (cs_inner p)).
Proof.
  split.
  - apply _.
  - apply _.
  - intros t p O. rewrite citation_push. by apply (sl_ok t (cs_inner p)).
  - intros p O. rewrite citation_push. destruct (sl_nil (cs_inner p) O) as [[E1 E2] E3].
    cbn [fst snd]. rewrite E3. split; [|by destruct p]. split; simpl; [exact E1|].
    simpl in E2. by rewrite E2.
  - intros t u p O Vt Vu. rewrite !citation_push. cbn [fst snd cs_inner].
    destruct (sl_push t u (cs_inner p) O Vt Vu) as [[E1 E2] E3].
    rewrite E3. split; [|done]. split; simpl in *; [exact E1|]. by rewrite E2, map_app.
Qed.

(** ** Plans *)

Definition plan_tagged (s : ProposedPlanSegment) : TaggedLineSegment PlanTag :=
  match s with
  | PlanNormal t => Normal t
  | ProposedPlanStart => TagStart ProposedPlan
  | ProposedPlanDelta t => TagDelta ProposedPlan t
  | ProposedPlanEnd => TagEnd ProposedPlan
  end.

(** The same plan segments once adjacent texts are joined. *)
Definition same_plan (l k : list ProposedPlanSegment) : Prop :=
  same_segments (map plan_tagged l) (map plan_tagged k).

Lemma map_plan_tagged l : map plan_tagged (map map_segment l) = l.
Proof.
  rewrite map_map. rewrite <- (map_id l) at 2. apply map_ext.
  by intros [|[]|[]|[]].
Qed.

#[export] Instance same_plan_equiv : Equivalence same_plan.
Proof. split; unfold same_plan; [done|by intros ? ?|intros ? ? ? H1 H2; by rewrite H1]. Qed.

#[export] Instance same_plan_app : Proper (same_plan ==> same_plan ==> same_plan) (++).
Proof. intros l l' H k k' H'. unfold same_plan in *. rewrite !map_app. by rewrite H, H'. Qed.

(** Joining does not change what is visible. *)
Definition segments_visible (l : list (TaggedLineSegment PlanTag)) : text :=
  concat (map (segment_visible ∘ map_segment) l).

Lemma segments_visible_app l k :
  segments_visible (l ++ k) = segments_visible l ++ segments_visible k.
Proof. unfold segments_visible. by rewrite map_app, concat_app. Qed.

Lemma push_segment_visible l x :
  segments_visible (push_segment l x) = segments_visible (l ++ [x]).
Proof.
  rewrite push_segment_unfold. destruct (empty_segment x) eqn:E.
  { rewrite segments_visible_app. destruct x as [[]| |[] []|]; try done;
      unfold segments_visible at 3; simpl; by rewrite app_nil_r. }
  destruct (last l) as [y|] eqn:L; [|done]. destruct (merged y x) as [z|] eqn:M; [|done].
  apply last_Some in L as [k ->]. rewrite removelast_last, !segments_visible_app, <- app_assoc.
  f_equal. destruct y as [t|[]|[] t|[]], x as [u|[]|[] u|[]]; simpl in M; try done.
  - injection M as <-. unfold segments_visible. simpl. by rewrite !app_nil_r.
  - by injection M as <-.
Qed.

Lemma coalesce_visible l : segments_visible (coalesce l) = segments_visible l.
Proof.
  unfold coalesce. induction l as [|x l IH] using rev_ind; [done|].
  by rewrite foldl_snoc, push_segment_visible, !segments_visible_app, IH.
Qed.

Lemma same_segments_visible l k : same_segments l k → segments_visible l = segments_visible k.
Proof. intros E. by rewrite <- coalesce_visible, E, coalesce_visible. Qed.

#[export] Instance plan_laws :
  StreamLaws ProposedPlanParser ProposedPlanSegment same_plan (λ _, True).
Proof.
  split.
  - apply _.
  - apply _.
  - done.
  - intros p _. simpl. split; [split; done|by destruct p].
  - intros t u p _ _ Vu. simpl. pose proof (tagged_parse_app t u (pp_parser p) Vu) as E.
    destruct (tagged_parse t (pp_parser p)) as [l q]. simpl.
    destruct (tagged_parse u q) as [k r].
    destruct (tagged_parse (t ++ u) (pp_parser p)) as [j r']. destruct E as [E ->].
    split; [|done]. split; simpl.
    + change (segments_visible j = segments_visible l ++ segments_visible k).
      rewrite <- segments_visible_app. by apply same_segments_visible.
    + unfold same_plan. by rewrite map_app, !map_plan_tagged.
Qed.

(** ** The assistant's text *)

Definition as_app (a b : AssistantTextChunk) : AssistantTextChunk := {|
  as_visible_text := as_visible_text a ++ as_visible_text b;
  as_citations := as_citations a ++ as_citations b;
  as_plan_segments := as_plan_segments a ++ as_plan_segments b |}.

(** The same output once adjacent plan texts are joined. *)
Definition as_eq (a b : AssistantTextChunk) : Prop :=
  as_visible_text a = as_visible_text b ∧ as_citations a = as_citations b ∧
  same_plan (as_plan_segments a) (as_plan_segments b).

(** Pushing pieces one after the other and finishing. *)
Fixpoint assistant_all (cs : list text) (p : AssistantTextStreamParser) : AssistantTextChunk :=
  match cs with
  | [] => fst (assistant_finish p)
  | c :: cs' => let (out, p') := assistant_push_str c p in as_app out (assistant_all cs' p')
  end.

#[export] Instance as_eq_equiv : Equivalence as_eq.
Proof.
  split.
  - by intros a.
  - intros a b (H1 & H2 & H3). split_and!; [done|done|by symmetry].
  - intros a b c (H1 & H2 & H3) (H4 & H5 & H6). split_and!; [congruence..|by etrans].
Qed.

#[export] Instance as_app_proper : Proper (as_eq ==> as_eq ==> as_eq) as_app.
Proof.
  intros a a' (H1 & H2 & H3) b b' (H4 & H5 & H6).
  split_and!; simpl; [congruence..|by f_equiv].
Qed.

Lemma as_app_assoc a b c : as_app (as_app a b) c = as_app a (as_app b c).
Proof. unfold as_app. simpl. by rewrite <- !app_assoc. Qed.

Definition assistant_ok (p : AssistantTextStreamParser) : Prop := citation_ok (ap_citations p).

(** The plan parser's part of a push, as a chunk. *)
Lemma parse_visible_app mode t u plan :
  utf8 t → utf8 u →
  let '(v1, s1, p1) := parse_visible_text mode t plan in
  let '(v2, s2, p2) := parse_visible_text mode u p1 in
  let '(v, s, p) := parse_visible_text mode (t ++ u) plan in
  v = v1 ++ v2 ∧ same_plan s (s1 ++ s2) ∧ p = p2.
Proof.
  intros Vt Vu. unfold parse_visible_text. destruct mode; [|done].
  destruct (sl_push t u plan I Vt Vu) as [[E1 E2] E3].
  destruct (push_str t plan) as [c1 p1]. cbn [fst snd] in *.
  destruct (push_str u p1) as [c2 p2]. cbn [fst snd] in *.
  destruct (push_str (t ++ u) plan) as [c p]. cbn [fst snd] in *. done.
Qed.

Lemma assistant_push_app t u p :
  assistant_ok p → utf8 t → utf8 u →
  let (o1, p1) := assistant_push_str t p in
  let (o2, p2) := assistant_push_str u p1 in
  let (o, p') := assistant_push_str (t ++ u) p in
  as_eq o (as_app o1 o2) ∧ p' = p2 ∧ assistant_ok p1.
Proof.
  intros O Vt Vu. unfold assistant_ok, assistant_push_str in *.
  destruct (sl_push t u (ap_citations p) (proj1 O) Vt Vu) as [[E1 E2] E3].
  destruct (citation_push_utf8 t _ O Vt) as [V1 O1].
  destruct (push_str t (ap_citations p)) as [c1 q1]. cbn [fst snd] in *.
  destruct (citation_push_utf8 u _ O1 Vu) as [V2 O2].
  pose proof (parse_visible_app (ap_plan_mode p) (visible_text c1)
    (visible_text (fst (push_str u q1))) (ap_plan p) V1 V2) as E.
  destruct (parse_visible_text _ (visible_text c1) _) as [[v1 s1] r1].
  cbn [ap_citations ap_plan ap_plan_mode].
  destruct (push_str u q1) as [c2 q2]. cbn [fst snd] in *.
  destruct (parse_visible_text _ (visible_text c2) r1) as [[v2 s2] r2].
  destruct (push_str (t ++ u) (ap_citations p)) as [c q]. cbn [fst snd] in *.
  cbn [visible_text chunk_app] in E1. rewrite E1.
  destruct (parse_visible_text _ (_ ++ _) _) as [[v s] r]. destruct E as (-> & E & ->).
  subst q. split_and!; try done.
Qed.

Lemma assistant_push_nil p :
  assistant_ok p →
  let (o, p') := assistant_push_str [] p in
  as_eq o {| as_visible_text := []; as_citations := []; as_plan_segments := [] |} ∧ p' = p.
Proof.
  intros O. unfold assistant_push_str.
  destruct (sl_nil (ap_citations p) (proj1 O)) as [[E1 E2] E3].
  destruct (push_str [] (ap_citations p)) as [c q]. cbn [fst snd] in *. subst q.
  cbn [visible_text extracted chunk_default] in E1, E2. rewrite E1, E2.
  unfold parse_visible_text. destruct (ap_plan_mode p) eqn:M.
  - destruct (sl_nil (ap_plan p) I) as [[E3 E4] E5].
    destruct (push_str [] (ap_plan p)) as [d r]. cbn [fst snd] in *. subst r.
    split; [done|]. destruct p; simpl in *; by subst.
  - split; [done|]. destruct p; simpl in *; by subst.
Qed.

(** Pieces are pushed as the text they make up. *)
Lemma assistant_all_concat cs p :
  assistant_ok p → Forall utf8 cs →
  as_eq (assistant_all cs p) (assistant_all [concat cs] p).
Proof.
  intros O V. revert p O. induction V as [|c cs Vc V IH]; intros p O; simpl.
  - pose proof (assistant_push_nil p O) as E.
    destruct (assistant_push_str [] p) as [o p']. destruct E as [E ->]. rewrite E.
    destruct (assistant_finish p) as [[? ? ?] ?]. done.
  - pose proof (assistant_push_app c (concat cs) p O Vc (utf8_concat cs V)) as E.
    destruct (assistant_push_str c p) as [o1 p1].
    destruct (assistant_push_str (concat cs) p1) as [o2 p2] eqn:E2.
    destruct (assistant_push_str (c ++ concat cs) p) as [o p']. destruct E as (E & -> & O1).
    rewrite E, as_app_assoc, (IH p1 O1). simpl. by rewrite E2.
Qed.

(** ** Properties *)

(** However a text is cut into chunks, the parser of hidden tags shows the text
    outside the tags and extracts the contents of the tags: each tag starts at the
    leftmost opening delimiter after the previous one, no opening delimiter lying in
    another, and ends with its first closing delimiter or with the text. *)
Theorem hidden_tags_extracted {T : Type} (specs : list (InlineTagSpec T))
    (p : InlineHiddenTagParser T) (cs : list text) :
  InlineHiddenTagParser_new specs = Some p → specs_ok specs → Forall utf8 cs →
  hides specs (concat cs) (push_all cs p).
Proof.
  intros N O V. destruct (inline_new_ok specs p N O) as (Op & E1 & E2 & E3).
  destruct (push_all_whole cs p Op V) as [W1 W2].
  replace (push_all cs p) with (parse_whole (concat cs) p)
    by (destruct (push_all cs p), (parse_whole (concat cs) p); simpl in *; congruence).
  unfold parse_whole. simpl. unfold inline_push_str. rewrite E1, E2, E3. simpl (_ ++ _).
  destruct (scan _ specs (concat cs) None) as [[o q] a] eqn:E. simpl.
  assert (L : length (concat cs) < S (length (concat cs))) by lia.
  pose proof (scan_hides _ _ _ _ _ _ O L E) as H.
  unfold inline_finish. simpl. by destruct a.
Qed.

Lemma hidden_tags_extracted_witness :
  let specs := [{| it_tag := 1; it_open := bytes "<a>"; it_close := bytes "</a>" |};
                {| it_tag := 2; it_open := bytes "<b>"; it_close := bytes "</b>" |}] in
  let p := {| ih_specs := specs; ih_pending := []; ih_active := None |} in
  let cs := [bytes "1<"; bytes "a>x<b>y<"; bytes "/a>2<"; bytes "b>z"] in
  hides specs (bytes "1<a>x<b>y</a>2<b>z") (push_all cs p) ∧
  push_all cs p =
    {| visible_text := bytes "12";
       extracted := [{| xt_tag := 1; xt_content := bytes "x<b>y" |};
                     {| xt_tag := 2; xt_content := bytes "z" |}] |}.
Proof.
  split; [|vm_compute; reflexivity].
  apply (hidden_tags_extracted
    [{| it_tag := 1; it_open := bytes "<a>"; it_close := bytes "</a>" |};
     {| it_tag := 2; it_open := bytes "<b>"; it_close := bytes "</b>" |}] _
    [bytes "1<"; bytes "a>x<b>y<"; bytes "/a>2<"; bytes "b>z"]).
  - vm_compute. reflexivity.
  - split.
    + intros s H. repeat (apply elem_of_cons in H as [->|H]); [..|by apply elem_of_nil in H];
        (split; [done|]; apply (bool_decide_unpack (Forall (λ c, (code c < 128)%N) _));
         by vm_compute).
    + intros s H. repeat (apply elem_of_cons in H as [->|H]); [..|by apply elem_of_nil in H];
        (split; [done|]; apply (bool_decide_unpack (Forall (λ c, (code c < 128)%N) _));
         by vm_compute).
    + intros s s' u w H H' E. apply (f_equal length) in E as E'.
      repeat (apply elem_of_cons in H as [->|H]); [..|by apply elem_of_nil in H];
      repeat (apply elem_of_cons in H' as [->|H']); try (by apply elem_of_nil in H'); try done;
      rewrite !length_app in E'; simpl in E'; destruct u, w; simpl in E'; try lia; done.
  - repeat constructor.
Defined.

(** The wrapper that decodes bytes refines the parser it wraps, for every
    parser that keeps the stream laws: it succeeds exactly when all bytes together
    are UTF-8, and then its output is that of the inner parser on the whole text. *)
Theorem utf8_stream_decodes {P X : Type} `{StreamLaws P X R ok} (p : P) (cs : list text) :
  ok p →
  match push_all_bytes cs (Utf8StreamParser_new p) with
  | inr out => utf8 (concat cs) ∧ chunk_eq R out (push_all [concat cs] p)
  | inl _ => ¬ utf8 (concat cs)
  end.
Proof.
  intros O. pose proof (push_all_bytes_whole cs p [] O (or_introl eq_refl)) as W.
  unfold Utf8StreamParser_new. destruct (push_all_bytes cs _) as [e|out]; [done|].
  destruct W as [V W]. split; [done|]. rewrite W. unfold parse_whole. simpl.
  by destruct (push_str (concat cs) p).
Qed.

Lemma utf8_stream_decodes_witness :
  let cs := [bytes "<oai-mem-cit"; bytes "ation>" ++ [ascii_of_N 195];
             [ascii_of_N 169] ++ bytes "</oai-mem-citation>!"] in
  match push_all_bytes cs (Utf8StreamParser_new CitationStreamParser_new) with
  | inr out => utf8 (concat cs) ∧
               chunk_eq (=) out (push_all [concat cs] CitationStreamParser_new)
  | inl _ => ¬ utf8 (concat cs)
  end.
Proof.
  apply (utf8_stream_decodes CitationStreamParser_new
    [bytes "<oai-mem-cit"; bytes "ation>" ++ [ascii_of_N 195];
     [ascii_of_N 169] ++ bytes "</oai-mem-citation>!"]).
  apply citation_new_ok.
Defined.

(** C40: Parsing streamed assistant text does not depend on how it arrives: for
    every cut of a text into chunks the visible text and the citations are those of
    the whole text, and the plan segments are the same up to merging adjacent text
    segments. *)
Theorem assistant_text_chunking (plan_mode : bool) (cs : list text) :
  Forall utf8 cs →
  as_eq (assistant_all cs (AssistantTextStreamParser_new plan_mode))
        (assistant_all [concat cs] (AssistantTextStreamParser_new plan_mode)).
Proof. intros V. apply assistant_all_concat; [apply citation_new_ok|done]. Qed.

Lemma assistant_text_chunking_witness :
  let cs := [bytes "a" ++ bytes nl ++ bytes "<propos";
             bytes "ed_plan>" ++ bytes nl ++ bytes "step";
             bytes "s" ++ bytes nl ++ bytes "</proposed_plan>" ++ bytes nl ++ bytes "b<oai"] in
  as_eq (assistant_all cs (AssistantTextStreamParser_new true))
        (assistant_all [concat cs] (AssistantTextStreamParser_new true)) ∧
  as_visible_text (assistant_all cs (AssistantTextStreamParser_new true)) =
    bytes "a" ++ bytes nl ++ bytes "b<oai".
Proof.
  split; [|vm_compute; reflexivity].
  apply (assistant_text_chunking true
    [bytes "a" ++ bytes nl ++ bytes "<propos";
     bytes "ed_plan>" ++ bytes nl ++ bytes "step";
     bytes "s" ++ bytes nl ++ bytes "</proposed_plan>" ++ bytes nl ++ bytes "b<oai"]).
  repeat constructor.
Defined.
