(* ===== verification/ShellCommand.v ===== *)
(** * shell-command: what a command runs and whether it is known to be safe

    [bash.rs], [shell_detect.rs], [is_dangerous_command.rs],
    [is_safe_command.rs] and [windows_safe_commands.rs] of
    [codex-rs/shell-command], on Linux.  The Tree-sitter grammar of bash and
    the PowerShell process that parses PowerShell scripts are parameters: the
    first gives the root node of a syntax tree, the second the commands of a
    script. *)

From S2P Require Import Prelude RustStr FsModel.

(** ** Syntax trees *)

(** [tree_sitter::Node]: named nodes are those of the grammar's rules, the
    others are literal tokens; a node spans bytes of the source. *)
Inductive Node := mk_node {
  nd_kind : string;
  nd_named : bool;
  nd_has_error : bool;
  nd_start_byte : nat;
  nd_end_byte : nat;
  nd_children : list Node
}.

Class ShellParsers := {
  try_parse_shell : string → option Node;
  parse_with_powershell_ast : string → string → option (list (list string))
}.

Definition named_children (n : Node) : list Node := List.filter nd_named (nd_children n).

(** [node.utf8_text(src.as_bytes()).ok()]. *)
Definition node_text (src : string) (n : Node) : option string :=
  let s := of_bytes (take (nd_end_byte n - nd_start_byte n)
                          (drop (nd_start_byte n) (bytes src))) in
  if utf8_valid s then Some s else None.

Definition kind_in (kinds : list string) (n : Node) : bool :=
  existsb (String.eqb (nd_kind n)) kinds.

(** The nodes of a tree; the walks of the code visit each once. *)
Fixpoint tree_size (n : Node) : nat := S (foldr plus 0 (map tree_size (nd_children n))).

(** ** Words of a command *)

(** [parse_double_quoted_string]. *)
Definition parse_double_quoted_string (src : string) (n : Node) : option string :=
  if String.eqb (nd_kind n) "string" then
    if forallb (λ part, String.eqb (nd_kind part) "string_content") (named_children n) then
      raw ← node_text src n;
      rest ← strip_prefix dquote raw;
      strip_suffix dquote rest
    else None
  else None.

(** [parse_raw_string]. *)
Definition parse_raw_string (src : string) (n : Node) : option string :=
  if String.eqb (nd_kind n) "raw_string" then
    raw ← node_text src n;
    rest ← strip_prefix "'" raw;
    strip_suffix "'" rest
  else None.

(** A part of a concatenation, and any argument that is not one. *)
Definition parse_word_part (src : string) (n : Node) : option string :=
  if kind_in ["word"; "number"] n then node_text src n
  else if String.eqb (nd_kind n) "string" then parse_double_quoted_string src n
  else if String.eqb (nd_kind n) "raw_string" then parse_raw_string src n
  else None.

Definition parse_concatenation (src : string) (n : Node) : option string :=
  parts ← mapM (parse_word_part src) (named_children n);
  let concatenated := concat_str parts in
  if String.eqb concatenated "" then None else Some concatenated.

Definition parse_plain_word (src : string) (child : Node) : option string :=
  if String.eqb (nd_kind child) "command_name" then
    word_node ← head (named_children child);
    if String.eqb (nd_kind word_node) "word" then node_text src word_node else None
  else if String.eqb (nd_kind child) "concatenation" then parse_concatenation src child
  else parse_word_part src child.

Definition parse_plain_command_from_node (src : string) (cmd : Node) : option (list string) :=
  if String.eqb (nd_kind cmd) "command" then mapM (parse_plain_word src) (named_children cmd)
  else None.

(** ** Scripts of plain commands *)

Definition ALLOWED_KINDS : list string :=
  ["program"; "list"; "pipeline"; "command"; "command_name"; "word"; "string";
   "string_content"; "raw_string"; "number"; "concatenation"].
Definition ALLOWED_PUNCT_TOKENS : list string := ["&&"; "||"; ";"; "|"; dquote; "'"].

(** What the walk accepts of one node. *)
Definition allowed_node (n : Node) : bool :=
  if nd_named n then kind_in ALLOWED_KINDS n
  else kind_in ALLOWED_PUNCT_TOKENS n
       || (negb (existsb (λ c, existsb (Ascii.eqb c) (bytes "&;|")) (bytes (nd_kind n)))
           && is_blank (nd_kind n)).

Definition is_command (n : Node) : bool := nd_named n && String.eqb (nd_kind n) "command".

(** The loop over [stack], whose last element is the head of the list:
    [None] when a node is rejected or the fuel runs out. *)
Fixpoint collect_commands (fuel : nat) (stack command_nodes : list Node)
  : option (list Node) :=
  match stack, fuel with
  | [], _ => Some command_nodes
  | _, O => None
  | node :: rest, S fuel' =>
      if allowed_node node then
        collect_commands fuel' (reverse (nd_children node) ++ rest)
          (command_nodes ++ if is_command node then [node] else [])
      else None
  end.

Definition start_le (a b : Node) : bool := nd_start_byte a <=? nd_start_byte b.

Definition try_parse_word_only_commands_sequence (root : Node) (src : string)
  : option (list (list string)) :=
  if nd_has_error root then None
  else
    command_nodes ← collect_commands (tree_size root) [root] [];
    mapM (parse_plain_command_from_node src) (sort_by start_le command_nodes).

(** ** shell_detect.rs *)

Inductive ShellType := Zsh | Bash | PowerShellType | Sh | CmdType.

#[global] Instance ShellType_eq_dec : EqDecision ShellType.
Proof. solve_decision. Defined.

Definition named_shell (s : string) : option ShellType :=
  if String.eqb s "zsh" then Some Zsh
  else if String.eqb s "sh" then Some Sh
  else if String.eqb s "cmd" then Some CmdType
  else if String.eqb s "bash" then Some Bash
  else if String.eqb s "pwsh" || String.eqb s "powershell" then Some PowerShellType
  else None.

(** [Path::new(name) == path] for a plain [name]: a leading [.] component
    makes a difference, a trailing slash does not. *)
Definition same_path (name s : string) : bool :=
  negb (is_absolute s)
  && negb (match split_char "/" s with c :: _ => String.eqb c "." | [] => false end)
  && bool_decide (comps s = [name]).

Fixpoint detect_shell_type_go (fuel : nat) (shell_path : string) : option ShellType :=
  match named_shell shell_path with
  | Some t => Some t
  | None =>
      match fuel, file_stem (comps shell_path) with
      | S fuel', Some shell_name =>
          if same_path shell_name shell_path then None
          else detect_shell_type_go fuel' shell_name
      | _, _ => None
      end
  end.
Definition detect_shell_type (shell_path : string) : option ShellType :=
  detect_shell_type_go (String.length shell_path) shell_path.

(** ** [bash -lc] *)

Definition extract_bash_command (command : list string) : option (string * string) :=
  match command with
  | [shell; flag; script] =>
      if negb (existsb (String.eqb flag) ["-lc"; "-c"])
         || negb (bool_decide (detect_shell_type shell ∈ [Some Zsh; Some Bash; Some Sh]))
      then None
      else Some (shell, script)
  | _ => None
  end.

Definition is_literal_word_or_number (n : Node) : bool :=
  kind_in ["word"; "number"] n && match named_children n with [] => true | _ => false end.

Definition is_allowed_heredoc_attachment_kind (kind : string) : bool :=
  existsb (String.eqb kind)
    ["heredoc_body"; "simple_heredoc_body"; "heredoc_redirect"; "herestring_redirect";
     "redirected_statement"].

(** The word a child contributes: [Some None] for none, [None] to give up. *)
Definition parse_heredoc_word (src : string) (child : Node) : option (option string) :=
  if String.eqb (nd_kind child) "command_name" then
    word_node ← head (named_children child);
    if is_literal_word_or_number word_node then Some <$> node_text src word_node else None
  else if kind_in ["word"; "number"] child then
    if is_literal_word_or_number child then Some <$> node_text src child else None
  else if String.eqb (nd_kind child) "comment" then Some None
  else if is_allowed_heredoc_attachment_kind (nd_kind child) then Some None
  else None.

Definition parse_heredoc_command_words (src : string) (cmd : Node) : option (list string) :=
  if String.eqb (nd_kind cmd) "command" then
    words ← mapM (parse_heredoc_word src) (named_children cmd);
    match omap id words with [] => None | words => Some words end
  else None.

(** The walk over the named nodes below [stack]. *)
Fixpoint named_walk (fuel : nat) (stack : list Node) : list Node :=
  match stack, fuel with
  | node :: rest, S fuel' =>
      node :: named_walk fuel' (reverse (named_children node) ++ rest)
  | _, _ => []
  end.
Definition named_nodes (root : Node) : list Node := named_walk (tree_size root) [root].

(** [find_single_command_node]: [None] also when there are two. *)
Definition find_single_command_node (root : Node) : option Node :=
  match List.filter (λ n, String.eqb (nd_kind n) "command") (named_nodes root) with
  | [n] => Some n
  | _ => None
  end.

Definition has_named_descendant_kind (root : Node) (kind : string) : bool :=
  existsb (λ n, String.eqb (nd_kind n) kind) (named_nodes root).

Section shell.
Context `{ShellParsers}.

Definition parse_shell_lc_plain_commands (command : list string) : option (list (list string)) :=
  '(_, script) ← extract_bash_command command;
  tree ← try_parse_shell script;
  try_parse_word_only_commands_sequence tree script.

Definition parse_shell_lc_single_command_prefix (command : list string)
  : option (list string) :=
  '(_, script) ← extract_bash_command command;
  root ← try_parse_shell script;
  if nd_has_error root then None
  else if negb (has_named_descendant_kind root "heredoc_redirect") then None
  else if has_named_descendant_kind root "file_redirect" then None
  else
    command_node ← find_single_command_node root;
    parse_heredoc_command_words script command_node.
End shell.

(** ** is_dangerous_command.rs *)

Definition executable_name_lookup_key (raw : string) : option string := file_name (comps raw).

Definition is_git_global_option_with_value (arg : string) : bool :=
  existsb (String.eqb arg)
    ["-C"; "-c"; "--config-env"; "--exec-path"; "--git-dir"; "--namespace"; "--super-prefix";
     "--work-tree"].

Definition is_git_global_option_with_inline_value (arg : string) : bool :=
  existsb (λ p, starts_with p arg)
    ["--config-env="; "--exec-path="; "--git-dir="; "--namespace="; "--super-prefix=";
     "--work-tree="]
  || ((starts_with "-C" arg || starts_with "-c" arg) && (2 <? String.length arg)).

(** The loop of [find_git_subcommand] over the tokens from [idx] on. *)
Fixpoint find_subcommand_go (subcommands : list string) (idx : nat) (skip_next : bool)
    (l : list string) : option (nat * string) :=
  match l with
  | [] => None
  | arg :: rest =>
      if skip_next then find_subcommand_go subcommands (S idx) false rest
      else if is_git_global_option_with_inline_value arg
      then find_subcommand_go subcommands (S idx) false rest
      else if is_git_global_option_with_value arg
      then find_subcommand_go subcommands (S idx) true rest
      else if String.eqb arg "--" || starts_with "-" arg
      then find_subcommand_go subcommands (S idx) false rest
      else if existsb (String.eqb arg) subcommands then Some (idx, arg)
      else None
  end.

Definition find_git_subcommand (command : list string) (subcommands : list string)
  : option (nat * string) :=
  match command with
  | [] => None
  | cmd0 :: rest =>
      if bool_decide (executable_name_lookup_key cmd0 = Some "git")
      then find_subcommand_go subcommands 1 false rest
      else None
  end.

Fixpoint is_dangerous_to_call_with_exec (command : list string) : bool :=
  match command with
  | [] => false
  | cmd0 :: rest =>
      if String.eqb cmd0 "rm" then
        match rest with
        | arg :: _ => String.eqb arg "-f" || String.eqb arg "-rf"
        | [] => false
        end
      else if String.eqb cmd0 "sudo" then is_dangerous_to_call_with_exec rest
      else false
  end.

Definition command_might_be_dangerous `{ShellParsers} (command : list string) : bool :=
  is_dangerous_to_call_with_exec command
  || match parse_shell_lc_plain_commands command with
     | Some all_commands => existsb is_dangerous_to_call_with_exec all_commands
     | None => false
     end.

(** ** is_safe_command.rs *)

Inductive GitOptionPattern :=
| Exact (option : string)
| ShortWithInlineValue (option : string)
| Prefix (prefix : string).

Definition option_matches (pattern : GitOptionPattern) (arg : string) : bool :=
  match pattern with
  | Exact o => String.eqb arg o
  | ShortWithInlineValue o => starts_with o arg && (String.length o <? String.length arg)
  | Prefix p => starts_with p arg
  end.

Definition UNSAFE_GIT_GLOBAL_OPTIONS : list GitOptionPattern :=
  [Exact "-C"; ShortWithInlineValue "-C"; Exact "-c"; ShortWithInlineValue "-c"; Exact "-p";
   Exact "--config-env"; Prefix "--config-env="; Exact "--exec-path"; Prefix "--exec-path=";
   Exact "--git-dir"; Prefix "--git-dir="; Exact "--namespace"; Prefix "--namespace=";
   Exact "--paginate"; Exact "--super-prefix"; Prefix "--super-prefix=";
   Exact "--work-tree"; Prefix "--work-tree="].

Definition UNSAFE_GIT_SUBCOMMAND_OPTIONS : list GitOptionPattern :=
  [Exact "--output"; Prefix "--output="; Exact "--ext-diff"; Exact "--textconv";
   Exact "--exec"; Prefix "--exec="].

Definition git_matches_option_pattern (arg : string) (patterns : list GitOptionPattern) : bool :=
  existsb (λ pattern, option_matches pattern arg) patterns.

Definition git_has_unsafe_global_option (global_args : list string) : bool :=
  existsb (λ arg, git_matches_option_pattern arg UNSAFE_GIT_GLOBAL_OPTIONS) global_args.

Definition git_subcommand_args_are_read_only (args : list string) : bool :=
  negb (existsb (λ arg, git_matches_option_pattern arg UNSAFE_GIT_SUBCOMMAND_OPTIONS) args).

Definition branch_listing_flag (arg : string) : bool :=
  existsb (String.eqb arg)
    ["--list"; "-l"; "--show-current"; "-a"; "--all"; "-r"; "--remotes"; "-v"; "-vv";
     "--verbose"]
  || starts_with "--format=" arg.

Fixpoint branch_flags_go (saw_read_only_flag : bool) (branch_args : list string) : bool :=
  match branch_args with
  | [] => saw_read_only_flag
  | arg :: rest => if branch_listing_flag arg then branch_flags_go true rest else false
  end.

Definition git_branch_is_read_only (branch_args : list string) : bool :=
  match branch_args with
  | [] => true
  | _ => branch_flags_go false branch_args
  end.

Definition SAFE_GIT_SUBCOMMANDS : list string := ["status"; "log"; "diff"; "show"; "branch"].

Definition is_safe_git_command (command : list string) : bool :=
  match find_git_subcommand command SAFE_GIT_SUBCOMMANDS with
  | None => false
  | Some (subcommand_idx, subcommand) =>
      let global_args := drop 1 (take subcommand_idx command) in
      let subcommand_args := drop (S subcommand_idx) command in
      if git_has_unsafe_global_option global_args then false
      else if existsb (String.eqb subcommand) ["status"; "log"; "diff"; "show"]
      then git_subcommand_args_are_read_only subcommand_args
      else String.eqb subcommand "branch"
           && (git_subcommand_args_are_read_only subcommand_args
               && git_branch_is_read_only subcommand_args)
  end.

Definition all_digits (s : string) : bool :=
  negb (String.eqb s "") && forallb is_ascii_digit (bytes s).

Definition is_valid_sed_n_arg (arg : option string) : bool :=
  match arg with
  | None => false
  | Some s =>
      match strip_suffix "p" s with
      | None => false
      | Some core =>
          match split_char "," core with
          | [num] => all_digits num
          | [a; b] => all_digits a && all_digits b
          | _ => false
          end
      end
  end.

Definition ALWAYS_SAFE_COMMANDS : list string :=
  ["cat"; "cd"; "cut"; "echo"; "expr"; "false"; "grep"; "head"; "id"; "ls"; "nl"; "paste";
   "pwd"; "rev"; "seq"; "stat"; "tail"; "tr"; "true"; "uname"; "uniq"; "wc"; "which"; "whoami"].

Definition UNSAFE_BASE64_OPTIONS : list string := ["-o"; "--output"].
Definition UNSAFE_FIND_OPTIONS : list string :=
  ["-exec"; "-execdir"; "-ok"; "-okdir"; "-delete"; "-fls"; "-fprint"; "-fprint0"; "-fprintf"].
Definition UNSAFE_RIPGREP_OPTIONS_WITH_ARGS : list string := ["--pre"; "--hostname-bin"].
Definition UNSAFE_RIPGREP_OPTIONS_WITHOUT_ARGS : list string := ["--search-zip"; "-z"].

Definition unsafe_base64_arg (arg : string) : bool :=
  existsb (String.eqb arg) UNSAFE_BASE64_OPTIONS || starts_with "--output=" arg
  || (starts_with "-o" arg && negb (String.eqb arg "-o")).

Definition unsafe_ripgrep_arg (arg : string) : bool :=
  existsb (String.eqb arg) UNSAFE_RIPGREP_OPTIONS_WITHOUT_ARGS
  || existsb (λ opt, String.eqb arg opt || starts_with (opt +:+ "=") arg)
       UNSAFE_RIPGREP_OPTIONS_WITH_ARGS.

Definition is_safe_to_call_with_exec (command : list string) : bool :=
  match command with
  | [] => false
  | cmd0 :: args =>
      match executable_name_lookup_key cmd0 with
      | None => false
      | Some cmd =>
          if existsb (String.eqb cmd) ["numfmt"; "tac"] then true
          else if existsb (String.eqb cmd) ALWAYS_SAFE_COMMANDS then true
          else if String.eqb cmd "base64" then negb (existsb unsafe_base64_arg args)
          else if String.eqb cmd "find" then
            negb (existsb (λ arg, existsb (String.eqb arg) UNSAFE_FIND_OPTIONS) command)
          else if String.eqb cmd "rg" then negb (existsb unsafe_ripgrep_arg command)
          else if String.eqb cmd "git" then is_safe_git_command command
          else String.eqb cmd "sed"
               && ((length command <=? 4) && bool_decide (command !! 1 = Some "-n")
                   && is_valid_sed_n_arg (command !! 2))
      end
  end.

(** ** windows_safe_commands.rs *)

Definition is_powershell_executable (exe : string) : bool :=
  let executable_name := to_ascii_lowercase (default exe (file_name (comps exe))) in
  existsb (String.eqb executable_name) ["powershell"; "powershell.exe"; "pwsh"; "pwsh.exe"].

Definition quote_argument (arg : string) : string :=
  if String.eqb arg "" then "''"
  else if negb (has_whitespace arg) then arg
  else "'" +:+ replace_char "'" "''" arg +:+ "'".

Definition join_arguments_as_script (args : list string) : string :=
  match args with
  | [] => ""
  | first :: rest => join_with " " (first :: map quote_argument rest)
  end.

Definition is_paren (c : ascii) : bool := Ascii.eqb c "(" || Ascii.eqb c ")".
Fixpoint drop_parens (l : list ascii) : list ascii :=
  match l with
  | c :: l' => if is_paren c then drop_parens l' else l
  | [] => []
  end.

(** [w.trim_matches(['(', ')']).trim_start_matches('-').to_ascii_lowercase()]. *)
Definition cmdlet_name (w : string) : string :=
  to_ascii_lowercase (trim_start_char "-"
    (of_bytes (reverse (drop_parens (reverse (drop_parens (bytes w))))))).

Definition SIDE_EFFECT_CMDLETS : list string :=
  ["set-content"; "add-content"; "out-file"; "new-item"; "remove-item"; "move-item";
   "copy-item"; "rename-item"; "start-process"; "stop-process"].
Definition READ_ONLY_CMDLETS : list string :=
  ["echo"; "write-output"; "write-host"; "dir"; "ls"; "get-childitem"; "gci"; "cat"; "type";
   "gc"; "get-content"; "select-string"; "sls"; "findstr"; "measure-object"; "measure";
   "get-location"; "gl"; "pwd"; "test-path"; "tp"; "resolve-path"; "rvpa"; "select-object";
   "select"; "get-item"].

Definition is_safe_ripgrep (words : list string) : bool :=
  negb (existsb (λ arg, unsafe_ripgrep_arg (to_ascii_lowercase arg)) (tail words)).

Definition is_safe_powershell_words (words : list string) : bool :=
  match words with
  | [] => false
  | first :: _ =>
      if existsb (λ w, existsb (String.eqb (cmdlet_name w)) SIDE_EFFECT_CMDLETS) words then false
      else
        let command := cmdlet_name first in
        if existsb (String.eqb command) READ_ONLY_CMDLETS then true
        else if String.eqb command "git" then is_safe_git_command words
        else if String.eqb command "rg" then is_safe_ripgrep words
        else false
  end.

Section powershell.
Context `{ShellParsers}.

(** The loop of [parse_powershell_invocation] over the remaining arguments. *)
Fixpoint parse_powershell_invocation (executable : string) (args : list string)
  : option (list (list string)) :=
  match args with
  | [] => None
  | arg :: rest =>
      let lower := to_ascii_lowercase arg in
      if existsb (String.eqb lower) ["-command"; "/command"; "-c"] then
        match rest with
        | [script] => parse_with_powershell_ast executable script
        | _ => None
        end
      else if starts_with "-command:" lower || starts_with "/command:" lower then
        match rest with
        | [] => '(_, script) ← split_once ":" arg; parse_with_powershell_ast executable script
        | _ => None
        end
      else if existsb (String.eqb lower)
                ["-nologo"; "-noprofile"; "-noninteractive"; "-mta"; "-sta"]
      then parse_powershell_invocation executable rest
      else if existsb (String.eqb lower)
                ["-encodedcommand"; "-ec"; "-file"; "/file"; "-windowstyle"; "-executionpolicy";
                 "-workingdirectory"]
      then None
      else if starts_with "-" lower then None
      else parse_with_powershell_ast executable (join_arguments_as_script args)
  end.

Definition try_parse_powershell_command_sequence (command : list string)
  : option (list (list string)) :=
  match command with
  | [] => None
  | exe :: rest =>
      if is_powershell_executable exe then parse_powershell_invocation exe rest else None
  end.

Definition is_safe_command_windows (command : list string) : bool :=
  match try_parse_powershell_command_sequence command with
  | Some commands => forallb is_safe_powershell_words commands
  | None => false
  end.

(** ** [is_known_safe_command] *)

Definition is_known_safe_command (command : list string) : bool :=
  let command := map (λ s, if String.eqb s "zsh" then "bash" else s) command in
  if is_safe_command_windows command then true
  else if is_safe_to_call_with_exec command then true
  else
    match parse_shell_lc_plain_commands command with
    | Some all_commands =>
        bool_decide (all_commands ≠ []) && forallb is_safe_to_call_with_exec all_commands
    | None => false
    end.
End powershell.
