(* ===== verification/ShellProps.v ===== *)
(** * shell-command: scripts of plain commands and the safe commands

    The walk over a syntax tree sees every node once, so a script is split
    into plain commands exactly when all its nodes are allowed; and the shape
    of the git commands that are known to be safe. *)

From S2P Require Import Prelude RustStr FsModel ShellCommand.

(** ** The nodes of a tree *)

Fixpoint tree_nodes (n : Node) : list Node := n :: concat (map tree_nodes (nd_children n)).

(** The order of the walk: the last child first. *)
Fixpoint visit (n : Node) : list Node := n :: concat (reverse (map visit (nd_children n))).
Definition visits (stack : list Node) : list Node := concat (map visit stack).

Lemma Node_nested (P : Node → Prop) :
  (∀ n, Forall P (nd_children n) → P n) → ∀ n, P n.
Proof.
  intros H. fix IH 1. intros n. apply H. destruct n as [k b e s t l]. simpl. clear k b e s t.
  induction l as [|m l IHl]; constructor; [apply IH|exact IHl].
Qed.

Lemma tree_nodes_size n : length (tree_nodes n) = tree_size n.
Proof.
  induction n as [n IH] using Node_nested. destruct n as [k b e s t l]. simpl in *. f_equal.
  induction IH as [|m l E _ IHl]; simpl; [done|]. by rewrite length_app, E, IHl.
Qed.

Lemma visit_tree_nodes n : visit n ≡ₚ tree_nodes n.
Proof.
  induction n as [n IH] using Node_nested. destruct n as [k b e s t l]. simpl in *. constructor.
  induction IH as [|m l E _ IHl]; simpl; [done|].
  rewrite reverse_cons, concat_app. simpl. rewrite app_nil_r, (Permutation_app_comm (concat _)).
  by f_equiv.
Qed.

Lemma visit_size n : length (visit n) = tree_size n.
Proof. by rewrite visit_tree_nodes, tree_nodes_size. Qed.

Lemma map_reverse {A B} (f : A → B) (l : list A) : map f (reverse l) = reverse (map f l).
Proof. induction l as [|x l IH]; [done|]. simpl. by rewrite !reverse_cons, map_app, IH. Qed.

Lemma visits_unfold node rest :
  visits (node :: rest) = node :: visits (reverse (nd_children node) ++ rest).
Proof.
  unfold visits. destruct node as [k b e s t l]. simpl. f_equal.
  by rewrite map_app, concat_app, map_reverse.
Qed.

Lemma collect_commands_visits fuel stack acc :
  length (visits stack) ≤ fuel →
  collect_commands fuel stack acc =
    if forallb allowed_node (visits stack)
    then Some (acc ++ List.filter is_command (visits stack)) else None.
Proof.
  revert stack acc. induction fuel as [|fuel IH]; intros [|node rest] acc L;
    [by rewrite app_nil_r|..].
  - rewrite visits_unfold in L. simpl in L. lia.
  - by rewrite app_nil_r.
  - rewrite visits_unfold in *. simpl in *. destruct (allowed_node node); [|done].
    rewrite IH by lia. destruct (forallb _ _); [|done]. simpl.
    destruct (is_command node); by rewrite <- ?app_assoc.
Qed.

Lemma collect_commands_root root :
  collect_commands (tree_size root) [root] [] =
    if forallb allowed_node (visit root) then Some (List.filter is_command (visit root)) else None.
Proof.
  rewrite collect_commands_visits; unfold visits; simpl; rewrite app_nil_r; [done|].
  by rewrite visit_size.
Qed.

Lemma mapM_None_elem {A B} (f : A → option B) (l : list A) :
  mapM f l = None → ∃ x, x ∈ l ∧ f x = None.
Proof.
  induction l as [|x l IH]; simpl; [done|]. destruct (f x) eqn:E; simpl.
  - destruct (mapM f l); simpl; [done|]. intros _.
    destruct IH as (y & Y1 & Y2); [done|]. exists y. split; [by right|done].
  - intros _. exists x. split; [left|done].
Qed.

Lemma filter_perm {A} (f : A → bool) (l k : list A) :
  l ≡ₚ k → List.filter f l ≡ₚ List.filter f k.
Proof.
  induction 1 as [|x l k _ IH|x y l|l k m _ IH1 _ IH2]; simpl; [done|..].
  - by destruct (f x); rewrite IH.
  - destruct (f x), (f y); try done. constructor.
  - by rewrite IH1.
Qed.

Lemma sorted_impl {A} (R S : A → A → Prop) (l : list A) :
  (∀ x y, R x y → S x y) → StronglySorted R l → StronglySorted S l.
Proof.
  intros H. induction 1 as [|x l _ IH F]; constructor; [done|].
  eapply Forall_impl; [exact F|]. auto.
Qed.

#[local] Instance start_le_total : Total (λ a b, Is_true (start_le a b)) := key_le_total _.
#[local] Instance start_le_trans : Transitive (λ a b, Is_true (start_le a b)) := key_le_trans _.

(** C15: The plain commands of a script are exactly those of its syntax tree: they
    are given when the tree has no error and every node is of an allowed kind, one
    for each command node, in source order, and otherwise, or when a command is not
    plain, the script is refused. *)
Theorem plain_commands_exact (root : Node) (src : string) :
  match try_parse_word_only_commands_sequence root src with
  | Some commands =>
      nd_has_error root = false ∧
      (∀ n, n ∈ tree_nodes root → allowed_node n = true) ∧
      ∃ nodes, nodes ≡ₚ List.filter is_command (tree_nodes root) ∧
        StronglySorted (λ a b, nd_start_byte a ≤ nd_start_byte b) nodes ∧
        mapM (parse_plain_command_from_node src) nodes = Some commands
  | None =>
      nd_has_error root = true ∨
      ∃ n, n ∈ tree_nodes root ∧
        (allowed_node n = false ∨ is_command n = true ∧ parse_plain_command_from_node src n = None)
  end.
Proof.
  unfold try_parse_word_only_commands_sequence.
  destruct (nd_has_error root); [by left|]. rewrite collect_commands_root.
  assert (V : ∀ n, n ∈ visit root ↔ n ∈ tree_nodes root) by (intros n; by rewrite visit_tree_nodes).
  destruct (forallb allowed_node (visit root)) eqn:F; simpl.
  2:{ right. apply not_true_iff_false in F. rewrite forallb_forall in F.
      destruct (decide (Exists (λ n, allowed_node n = false) (visit root))) as [X|X].
      - apply Exists_exists in X as (n & N1 & N2). exists n. split; [by apply V|by left].
      - destruct F. intros n N. destruct (allowed_node n) eqn:E; [done|]. destruct X.
        apply Exists_exists. exists n. split; [by apply list_elem_of_In|done]. }
  rewrite forallb_forall in F.
  set (nodes := sort_by start_le (List.filter is_command (visit root))).
  assert (P : nodes ≡ₚ List.filter is_command (visit root)) by apply sort_by_Permutation.
  destruct (mapM _ nodes) as [commands|] eqn:M.
  - split_and!; [done| |].
    + intros n N. apply F, list_elem_of_In. by apply V.
    + exists nodes. split_and!; [rewrite P; apply filter_perm, visit_tree_nodes|
        |done].
      eapply sorted_impl; [|apply sort_by_sorted; apply _].
      intros a b. by rewrite Is_true_true, <- Nat.leb_le.
  - right. apply mapM_None_elem in M as (n & N1 & N2). rewrite P in N1.
    apply list_elem_of_In, filter_In in N1 as [N1 C]. exists n.
    split; [apply V; by apply list_elem_of_In|by right].
Qed.

(** ** Safe git commands *)

(** What may stand between [git] and the subcommand. *)
Definition harmless_flag (arg : string) : Prop :=
  starts_with "-" arg = true ∧ git_matches_option_pattern arg UNSAFE_GIT_GLOBAL_OPTIONS = false.

Lemma inline_option_unsafe arg :
  is_git_global_option_with_inline_value arg = true →
  git_matches_option_pattern arg UNSAFE_GIT_GLOBAL_OPTIONS = true.
Proof.
  unfold is_git_global_option_with_inline_value, git_matches_option_pattern. simpl.
  rewrite !orb_true_iff, !andb_true_iff, orb_true_iff. intuition.
Qed.

Lemma option_with_value_unsafe arg :
  is_git_global_option_with_value arg = true →
  git_matches_option_pattern arg UNSAFE_GIT_GLOBAL_OPTIONS = true.
Proof.
  unfold is_git_global_option_with_value, git_matches_option_pattern. simpl.
  rewrite !orb_true_iff. intuition.
Qed.

Lemma find_subcommand_bound subs idx skip l i sub :
  find_subcommand_go subs idx skip l = Some (i, sub) → idx ≤ i.
Proof.
  revert idx skip. induction l as [|arg l IH]; intros idx skip; simpl; [done|].
  repeat case_match; try done; try (intros E%IH; lia). intros [= <- _]. lia.
Qed.

Lemma safe_prefix_cons idx i arg l :
  S idx ≤ i → git_has_unsafe_global_option (take (i - idx) (arg :: l)) = false →
  git_matches_option_pattern arg UNSAFE_GIT_GLOBAL_OPTIONS = false ∧
  git_has_unsafe_global_option (take (i - S idx) l) = false.
Proof.
  intros L. replace (i - idx) with (S (i - S idx)) by lia. simpl.
  by rewrite orb_false_iff.
Qed.

Lemma find_subcommand_flags subs idx l i sub :
  find_subcommand_go subs idx false l = Some (i, sub) →
  git_has_unsafe_global_option (take (i - idx) l) = false →
  ∃ flags rest, l = flags ++ sub :: rest ∧ i = idx + length flags ∧
    Forall harmless_flag flags ∧ sub ∈ subs.
Proof.
  revert idx. induction l as [|arg l IH]; intros idx; simpl find_subcommand_go; [done|].
  destruct (is_git_global_option_with_inline_value arg) eqn:E1.
  { intros E U. pose proof (find_subcommand_bound _ _ _ _ _ _ E).
    apply safe_prefix_cons in U as [U _]; [|done]. by rewrite inline_option_unsafe in U. }
  destruct (is_git_global_option_with_value arg) eqn:E2.
  { intros E U. pose proof (find_subcommand_bound _ _ _ _ _ _ E).
    apply safe_prefix_cons in U as [U _]; [|done]. by rewrite option_with_value_unsafe in U. }
  destruct (String.eqb arg "--" || starts_with "-" arg) eqn:E3.
  { intros E U. pose proof (find_subcommand_bound _ _ _ _ _ _ E).
    apply safe_prefix_cons in U as [U1 U2]; [|done].
    destruct (IH _ E U2) as (flags & rest & -> & -> & F & M).
    exists (arg :: flags), rest. split_and!; [done|simpl; lia| |done]. constructor; [|done].
    split; [|done]. apply orb_true_iff in E3 as [->%String.eqb_eq|]; done. }
  destruct (existsb (String.eqb arg) subs) eqn:E4; [|done]. intros [= -> ->] _.
  exists [], l. split_and!; [done|simpl; lia|constructor|].
  apply existsb_exists_elem in E4 as (s & S1 & ->%String.eqb_eq). done.
Qed.

Lemma flags_find_subcommand subs idx flags sub rest :
  Forall harmless_flag flags → sub ∈ subs → (∀ s, s ∈ subs → starts_with "-" s = false) →
  find_subcommand_go subs idx false (flags ++ sub :: rest) = Some (idx + length flags, sub) ∧
  git_has_unsafe_global_option flags = false.
Proof.
  intros F M N. revert idx. induction F as [|arg flags [A1 A2] F IH]; intros idx;
    cbn [app find_subcommand_go length].
  - assert (D : starts_with "-" sub = false) by by apply N.
    assert (O : ∀ p, String.length p ≠ 0 → starts_with "-" p = true → starts_with p sub = false).
    { intros p. destruct p as [|c p], sub as [|d sub]; try done. unfold starts_with in *.
      cbn [strip_prefix] in *. intros _ C. destruct (Ascii.eqb_spec "-" c) as [<-|]; [|done].
      by destruct (Ascii.eqb_spec "-" d). }
    assert (E : ∀ s, starts_with "-" s = true → String.eqb sub s = false).
    { intros s C. apply String.eqb_neq. intros ->. congruence. }
    unfold is_git_global_option_with_inline_value, is_git_global_option_with_value.
    cbn [existsb]. rewrite !O, !E by done. cbn [orb andb].
    replace (existsb (String.eqb sub) subs) with true; [split; [do 2 f_equal; lia|done]|].
    symmetry. apply existsb_exists_elem. exists sub. split; [done|apply String.eqb_refl].
  - destruct (IH (S idx)) as [IH1 IH2].
    destruct (is_git_global_option_with_inline_value arg) eqn:E1.
    { by rewrite inline_option_unsafe in A2. }
    destruct (is_git_global_option_with_value arg) eqn:E2.
    { by rewrite option_with_value_unsafe in A2. }
    unfold git_has_unsafe_global_option in *. cbn [existsb].
    rewrite A1, orb_true_r, IH1, A2, IH2. split; [do 2 f_equal; lia|done].
Qed.

Lemma branch_flags_spec saw args :
  branch_flags_go saw args = forallb branch_listing_flag args && (saw || bool_decide (args ≠ [])).
Proof.
  revert saw. induction args as [|arg args IH]; intros saw; simpl; [by destruct saw|].
  destruct (branch_listing_flag arg); [|done]. rewrite IH. simpl. by rewrite orb_true_r, andb_true_r.
Qed.

Lemma branch_read_only_spec args :
  git_branch_is_read_only args = forallb branch_listing_flag args.
Proof. destruct args; [done|]. unfold git_branch_is_read_only. by rewrite branch_flags_spec, andb_true_r. Qed.

Lemma drop_past {A} (l k : list A) x : drop (S (length l)) (l ++ x :: k) = k.
Proof. by rewrite drop_app_ge, Nat.sub_succ_l, Nat.sub_diag by lia. Qed.

(** A git command is known to be safe exactly when, after global options that are not in the list of
    unsafe ones, its first operand is one of the reading subcommands with harmless arguments. *)
Theorem safe_git_shape (command : list string) :
  is_safe_git_command command = true ↔
  ∃ program flags sub args,
    command = program :: flags ++ sub :: args ∧
    executable_name_lookup_key program = Some "git" ∧
    Forall harmless_flag flags ∧ sub ∈ SAFE_GIT_SUBCOMMANDS ∧
    (∀ arg, arg ∈ args → git_matches_option_pattern arg UNSAFE_GIT_SUBCOMMAND_OPTIONS = false) ∧
    (sub = "branch" → ∀ arg, arg ∈ args → branch_listing_flag arg = true).
Proof.
  assert (RO : ∀ args, git_subcommand_args_are_read_only args = true ↔
    ∀ arg, arg ∈ args → git_matches_option_pattern arg UNSAFE_GIT_SUBCOMMAND_OPTIONS = false).
  { intros args. unfold git_subcommand_args_are_read_only.
    by rewrite negb_true_iff, existsb_false_elem. }
  assert (BR : ∀ args, git_branch_is_read_only args = true ↔
    ∀ arg, arg ∈ args → branch_listing_flag arg = true).
  { intros args. rewrite branch_read_only_spec, forallb_forall. by setoid_rewrite list_elem_of_In. }
  unfold is_safe_git_command, find_git_subcommand. split.
  - destruct command as [|program l]; [done|]. case_bool_decide as K; [|done].
    destruct (find_subcommand_go _ 1 false l) as [[i sub]|] eqn:E; [|done].
    pose proof (find_subcommand_bound _ _ _ _ _ _ E).
    destruct (git_has_unsafe_global_option _) eqn:U; [done|].
    destruct i as [|i]; [lia|]. cbn [take drop] in U.
    edestruct (find_subcommand_flags _ _ _ _ _ E) as (flags & rest & -> & Ei & F & M).
    { by rewrite Nat.sub_succ, Nat.sub_0_r. }
    injection Ei as ->. cbn [drop].
    rewrite drop_past. intros S. exists program, flags, sub, rest. split_and!; [done..| |].
    + apply RO. revert S. case_match; [done|]. by intros [_ [? _]%andb_prop]%andb_prop.
    + intros ->. apply BR. simpl in S. by apply andb_prop in S as [_ ?].
  - intros (program & flags & sub & args & -> & K & F & M & R & B).
    apply RO in R. rewrite (bool_decide_eq_true_2 _ K).
    destruct (flags_find_subcommand SAFE_GIT_SUBCOMMANDS 1 flags sub args F M) as [-> U].
    { intros s. unfold SAFE_GIT_SUBCOMMANDS. set_unfold. intros Hs. by repeat destruct Hs as [->|Hs]. }
    cbn [Nat.add take drop]. rewrite take_app_length, drop_0, U.
    rewrite !drop_past, R. case_match; [done|].
    unfold SAFE_GIT_SUBCOMMANDS in M. set_unfold in M.
    repeat destruct M as [->|M]; try done. rewrite (proj2 (BR args)); [done|by apply B].
Qed.
