(* ===== verification/PatchFormat.v ===== *)
(** * apply-patch: the patch format

    [parser.rs] of [codex-rs/apply-patch]: the data of a patch and the parser
    of a complete patch text.  A [Vec<&str>] of lines is a list of strings;
    the loops over the remaining lines run on fuel, one unit per line. *)

From S2P Require Import Prelude RustStr World.

Definition BEGIN_PATCH_MARKER := "*** Begin Patch".
Definition ENVIRONMENT_ID_MARKER := "*** Environment ID: ".
Definition END_PATCH_MARKER := "*** End Patch".
Definition ADD_FILE_MARKER := "*** Add File: ".
Definition DELETE_FILE_MARKER := "*** Delete File: ".
Definition UPDATE_FILE_MARKER := "*** Update File: ".
Definition MOVE_TO_MARKER := "*** Move to: ".
Definition EOF_MARKER := "*** End of File".
Definition CHANGE_CONTEXT_MARKER := "@@ ".
Definition EMPTY_CHANGE_CONTEXT_MARKER := "@@".

Inductive ParseError :=
| InvalidPatchError (message : string)
| InvalidHunkError (message : string) (line_number : nat).

(** A [PathBuf] of a patch is kept as it is written. *)
Record UpdateFileChunk := {
  change_context : option string;
  old_lines : list string;
  new_lines : list string;
  is_end_of_file : bool
}.

Inductive Hunk :=
| AddFile (path contents : string)
| DeleteFile (path : string)
| UpdateFile (path : string) (move_path : option string) (chunks : list UpdateFileChunk).

(** [Hunk::path]: the destination for a rename. *)
Definition hunk_path (h : Hunk) : string :=
  match h with
  | AddFile p _ | DeleteFile p => p
  | UpdateFile _ (Some d) _ => d
  | UpdateFile p None _ => p
  end.

#[global] Instance UpdateFileChunk_eq_dec : EqDecision UpdateFileChunk.
Proof. solve_decision. Defined.
#[global] Instance Hunk_eq_dec : EqDecision Hunk.
Proof. solve_decision. Defined.

Record ApplyPatchArgs := {
  aa_patch : string;
  aa_hunks : list Hunk;
  aa_workdir : option string;
  aa_environment_id : option string
}.

Inductive ParseMode := Strict | Lenient.

(** ** The boundaries *)

Definition first_line_error : ParseError :=
  InvalidPatchError "The first line of the patch must be '*** Begin Patch'".
Definition last_line_error : ParseError :=
  InvalidPatchError "The last line of the patch must be '*** End Patch'".

Definition check_start_and_end_lines_strict (first_line last_line : option string)
  : ParseError + unit :=
  match trim <$> first_line, trim <$> last_line with
  | Some first, Some last_ =>
      if String.eqb first BEGIN_PATCH_MARKER then
        if String.eqb last_ END_PATCH_MARKER then inr tt else inl last_line_error
      else inl first_line_error
  | Some first, None =>
      if String.eqb first BEGIN_PATCH_MARKER then inl last_line_error
      else inl first_line_error
  | None, _ => inl last_line_error
  end.

(** [&lines[1..lines.len() - 1]], for at least two lines. *)
Definition inner_lines (l : list string) : list string := removelast (tail l).

Definition check_patch_boundaries_strict (l : list string)
  : ParseError + (list string * list string) :=
  let? _ := check_start_and_end_lines_strict (head l) (last l) in
  inr (l, inner_lines l).

Definition heredoc_openers : list string :=
  ["<<EOF"; "<<'EOF'"; "<<" +:+ dquote +:+ "EOF" +:+ dquote].

Definition check_patch_boundaries_lenient (l : list string)
  : ParseError + (list string * list string) :=
  match check_patch_boundaries_strict l with
  | inr r => inr r
  | inl e =>
      match l, last l with
      | first :: _ :: _, Some last_ =>
          if existsb (String.eqb first) heredoc_openers && ends_with "EOF" last_
             && (4 <=? length l)
          then check_patch_boundaries_strict (inner_lines l)
          else inl e
      | _, _ => inl e
      end
  end.

Definition parse_environment_id_preamble (hunk_lines : list string)
  : ParseError + (option string * list string * nat) :=
  match hunk_lines with
  | [] => inr (None, hunk_lines, 2)
  | first_line :: rest =>
      match strip_prefix ENVIRONMENT_ID_MARKER (trim_start first_line) with
      | None => inr (None, hunk_lines, 2)
      | Some environment_id =>
          let environment_id := trim environment_id in
          if String.eqb environment_id ""
          then inl (InvalidPatchError "apply_patch environment_id cannot be empty")
          else inr (Some environment_id, rest, 3)
      end
  end.

(** ** Chunks *)

Definition no_lines_error (line_number : nat) : ParseError :=
  InvalidHunkError "Update hunk does not contain any lines" line_number.
Definition unexpected_line_error (line : string) (line_number : nat) : ParseError :=
  InvalidHunkError ("Unexpected line found in update hunk: '" +:+ line +:+
    "'. Every line should start with ' ' (context line), '+' (added line), or '-' (removed line)")
    line_number.
Definition expected_context_error (line : string) (line_number : nat) : ParseError :=
  InvalidHunkError ("Expected update hunk to start with a @@ context marker, got: '" +:+
    line +:+ "'") line_number.
Definition bad_header_error (line : string) (line_number : nat) : ParseError :=
  InvalidHunkError ("'" +:+ line +:+ "' is not a valid hunk header. Valid hunk headers: '*** Add File: {path}', '*** Delete File: {path}', '*** Update File: {path}'")
    line_number.
Definition empty_update_error (path : string) (line_number : nat) : ParseError :=
  InvalidHunkError ("Update file hunk for path '" +:+ path +:+ "' is empty") line_number.

Definition push_old (s : string) (c : UpdateFileChunk) : UpdateFileChunk := {|
  change_context := change_context c; old_lines := old_lines c ++ [s];
  new_lines := new_lines c; is_end_of_file := is_end_of_file c |}.
Definition push_new (s : string) (c : UpdateFileChunk) : UpdateFileChunk := {|
  change_context := change_context c; old_lines := old_lines c;
  new_lines := new_lines c ++ [s]; is_end_of_file := is_end_of_file c |}.
Definition set_eof (c : UpdateFileChunk) : UpdateFileChunk := {|
  change_context := change_context c; old_lines := old_lines c;
  new_lines := new_lines c; is_end_of_file := true |}.
Definition empty_chunk (context : option string) : UpdateFileChunk := {|
  change_context := context; old_lines := []; new_lines := []; is_end_of_file := false |}.

(** A change line added to a chunk; [None] for a line that is none. *)
Definition push_change_line (line : string) (c : UpdateFileChunk) : option UpdateFileChunk :=
  match line with
  | EmptyString => Some (push_new "" (push_old "" c))
  | String ch rest =>
      if Ascii.eqb ch " " then Some (push_new rest (push_old rest c))
      else if Ascii.eqb ch "+" then Some (push_new rest c)
      else if Ascii.eqb ch "-" then Some (push_old rest c)
      else None
  end.

(** The loop over the change lines; [n] is [parsed_lines]. *)
Fixpoint chunk_body (line_number n : nat) (l : list string) (c : UpdateFileChunk)
  : ParseError + (UpdateFileChunk * nat) :=
  match l with
  | [] => inr (c, n)
  | line :: l' =>
      if String.eqb line EOF_MARKER then
        if n =? 0 then inl (no_lines_error (line_number + 1)) else inr (set_eof c, S n)
      else
        match push_change_line line c with
        | Some c' => chunk_body line_number (S n) l' c'
        | None =>
            if n =? 0 then inl (unexpected_line_error line (line_number + 1)) else inr (c, n)
        end
  end.

Definition parse_update_file_chunk (l : list string) (line_number : nat)
    (allow_missing_context : bool) : ParseError + (UpdateFileChunk * nat) :=
  match l with
  | [] => inl (no_lines_error line_number)
  | first :: rest =>
      let? (context, start_index) :=
        if String.eqb first EMPTY_CHANGE_CONTEXT_MARKER then inr (None, 1)
        else match strip_prefix CHANGE_CONTEXT_MARKER first with
        | Some context => inr (Some context, 1)
        | None =>
            if allow_missing_context then inr (None, 0)
            else inl (expected_context_error first line_number)
        end in
      if length l <=? start_index then inl (no_lines_error (line_number + 1))
      else
        let? (c, n) := chunk_body line_number 0 (drop start_index l) (empty_chunk context) in
        inr (c, n + start_index)
  end.

(** ** Hunks *)

(** The added lines at the head of [l] and their number. *)
Fixpoint add_lines (l : list string) : string * nat :=
  match l with
  | [] => ("", 0)
  | line :: l' =>
      match strip_prefix "+" line with
      | Some added => let (contents, n) := add_lines l' in (added +:+ nl +:+ contents, S n)
      | None => ("", 0)
      end
  end.

(** The loop over the chunks of an update hunk: the chunks and
    [parsed_lines]. *)
Fixpoint update_chunks (fuel line_number parsed_lines : nat) (remaining : list string)
    (chunks : list UpdateFileChunk) : ParseError + (list UpdateFileChunk * nat) :=
  match fuel, remaining with
  | O, _ | _, [] => inr (chunks, parsed_lines)
  | S fuel', line :: rest =>
      if is_blank line then update_chunks fuel' line_number (S parsed_lines) rest chunks
      else if starts_with "*" line then inr (chunks, parsed_lines)
      else
        let? (chunk, n) :=
          parse_update_file_chunk remaining (line_number + parsed_lines)
            (bool_decide (chunks = [])) in
        update_chunks fuel' line_number (parsed_lines + n) (drop n remaining)
          (chunks ++ [chunk])
  end.

(** [parse_one_hunk], for at least one line. *)
Definition parse_one_hunk (l : list string) (line_number : nat) : ParseError + (Hunk * nat) :=
  match l with
  | [] => inl (bad_header_error "" line_number)
  | line :: rest =>
      let first_line := trim line in
      match strip_prefix ADD_FILE_MARKER first_line with
      | Some path => let (contents, n) := add_lines rest in inr (AddFile path contents, S n)
      | None =>
      match strip_prefix DELETE_FILE_MARKER first_line with
      | Some path => inr (DeleteFile path, 1)
      | None =>
      match strip_prefix UPDATE_FILE_MARKER first_line with
      | Some path =>
          let move_path := head rest ≫= strip_prefix MOVE_TO_MARKER in
          let (remaining, parsed_lines) :=
            match move_path with Some _ => (tail rest, 2) | None => (rest, 1) end in
          let? (chunks, n) :=
            update_chunks (length remaining) line_number parsed_lines remaining [] in
          if bool_decide (chunks = []) then inl (empty_update_error path line_number)
          else inr (UpdateFile path move_path chunks, n)
      | None => inl (bad_header_error first_line line_number)
      end end end
  end.

Fixpoint parse_hunks (fuel : nat) (remaining : list string) (line_number : nat)
    (hunks : list Hunk) : ParseError + list Hunk :=
  match fuel, remaining with
  | O, _ | _, [] => inr hunks
  | S fuel', _ =>
      let? (hunk, n) := parse_one_hunk remaining line_number in
      parse_hunks fuel' (drop n remaining) (line_number + n) (hunks ++ [hunk])
  end.

Definition parse_patch_text (patch : string) (mode : ParseMode) : ParseError + ApplyPatchArgs :=
  let l := lines (trim patch) in
  let? (patch_lines, hunk_lines) :=
    match mode with
    | Strict => check_patch_boundaries_strict l
    | Lenient => check_patch_boundaries_lenient l
    end in
  let? (environment_id, remaining, line_number) := parse_environment_id_preamble hunk_lines in
  let? hunks := parse_hunks (length remaining) remaining line_number [] in
  inr {| aa_patch := join_with nl patch_lines; aa_hunks := hunks; aa_workdir := None;
         aa_environment_id := environment_id |}.

Definition PARSE_IN_STRICT_MODE : bool := false.

Definition parse_patch (patch : string) : ParseError + ApplyPatchArgs :=
  parse_patch_text patch (if PARSE_IN_STRICT_MODE then Strict else Lenient).
