(* ===== verification/PatchStream.v ===== *)
(** * apply-patch: the streaming parser

    [streaming_parser.rs] of [codex-rs/apply-patch]: the parser that is fed the
    patch while the model is still writing it.  The line buffer holds bytes;
    a line feed ends a line in every chunking of a UTF-8 text. *)

From S2P Require Import Prelude RustStr World PatchFormat.

Inductive StreamingParserMode :=
| NotStarted
| StartedPatch
| AddFileMode
| DeleteFileMode
| UpdateFileMode (hunk_line_number : nat)
| EndedPatch.

Record StreamingPatchParser := {
  sp_line_buffer : list ascii;
  sp_mode : StreamingParserMode;
  sp_hunks : list Hunk;
  sp_line_number : nat
}.

Definition StreamingPatchParser_default : StreamingPatchParser :=
  {| sp_line_buffer := []; sp_mode := NotStarted; sp_hunks := []; sp_line_number := 0 |}.

Definition set_mode (m : StreamingParserMode) (p : StreamingPatchParser) : StreamingPatchParser :=
  {| sp_line_buffer := sp_line_buffer p; sp_mode := m; sp_hunks := sp_hunks p;
     sp_line_number := sp_line_number p |}.
Definition set_hunks (h : list Hunk) (p : StreamingPatchParser) : StreamingPatchParser :=
  {| sp_line_buffer := sp_line_buffer p; sp_mode := sp_mode p; sp_hunks := h;
     sp_line_number := sp_line_number p |}.
Definition set_buffer (b : list ascii) (p : StreamingPatchParser) : StreamingPatchParser :=
  {| sp_line_buffer := b; sp_mode := sp_mode p; sp_hunks := sp_hunks p;
     sp_line_number := sp_line_number p |}.
Definition next_line (p : StreamingPatchParser) : StreamingPatchParser :=
  {| sp_line_buffer := []; sp_mode := sp_mode p; sp_hunks := sp_hunks p;
     sp_line_number := S (sp_line_number p) |}.

Definition is_environment_id_preamble_line (line : string) : bool :=
  starts_with ENVIRONMENT_ID_MARKER line.

Definition chunk_empty (c : UpdateFileChunk) : bool :=
  match old_lines c, new_lines c with [], [] => true | _, _ => false end.
Definition last_chunk_empty (chunks : list UpdateFileChunk) : bool :=
  match last chunks with Some c => chunk_empty c | None => false end.

Definition ensure_update_hunk_is_not_empty (line : string) (p : StreamingPatchParser)
  : ParseError + unit :=
  match last (sp_hunks p) with
  | Some (UpdateFile path _ chunks) =>
      match chunks, sp_mode p with
      | [], UpdateFileMode hunk_line_number => inl (empty_update_error path hunk_line_number)
      | _, _ =>
          if last_chunk_empty chunks then
            if String.eqb line END_PATCH_MARKER then inl (no_lines_error (sp_line_number p))
            else inl (unexpected_line_error line (sp_line_number p))
          else inr tt
      end
  | _ => inr tt
  end.

(** The new state when the line was a header or the end marker. *)
Definition handle_hunk_headers_and_end_patch (trimmed : string) (p : StreamingPatchParser)
  : ParseError + option StreamingPatchParser :=
  if String.eqb trimmed END_PATCH_MARKER then
    let? _ := ensure_update_hunk_is_not_empty trimmed p in inr (Some (set_mode EndedPatch p))
  else
  match strip_prefix ADD_FILE_MARKER trimmed with
  | Some path =>
      let? _ := ensure_update_hunk_is_not_empty trimmed p in
      inr (Some (set_mode AddFileMode (set_hunks (sp_hunks p ++ [AddFile path ""]) p)))
  | None =>
  match strip_prefix DELETE_FILE_MARKER trimmed with
  | Some path =>
      let? _ := ensure_update_hunk_is_not_empty trimmed p in
      inr (Some (set_mode DeleteFileMode (set_hunks (sp_hunks p ++ [DeleteFile path]) p)))
  | None =>
  match strip_prefix UPDATE_FILE_MARKER trimmed with
  | Some path =>
      let? _ := ensure_update_hunk_is_not_empty trimmed p in
      inr (Some (set_mode (UpdateFileMode (sp_line_number p))
        (set_hunks (sp_hunks p ++ [UpdateFile path None []]) p)))
  | None => inr None
  end end end.

Definition set_chunks (chunks : list UpdateFileChunk) (h : Hunk) : Hunk :=
  match h with UpdateFile path move_path _ => UpdateFile path move_path chunks | h => h end.
Definition set_move_path (d : string) (h : Hunk) : Hunk :=
  match h with UpdateFile path _ chunks => UpdateFile path (Some d) chunks | h => h end.
Definition append_contents (t : string) (h : Hunk) : Hunk :=
  match h with AddFile path contents => AddFile path (contents +:+ t) | h => h end.

(** Chunks with a first one when there is none. *)
Definition ensure_chunk (chunks : list UpdateFileChunk) : list UpdateFileChunk :=
  match chunks with [] => [empty_chunk None] | _ => chunks end.

(** The lines of an update hunk that are no header: the new chunks. *)
Definition update_line_chunks (line update_line : string) (line_number : nat)
    (chunks : list UpdateFileChunk) : ParseError + list UpdateFileChunk :=
  if (String.eqb update_line EMPTY_CHANGE_CONTEXT_MARKER
      || starts_with CHANGE_CONTEXT_MARKER update_line) && last_chunk_empty chunks
  then inl (unexpected_line_error line line_number)
  else if String.eqb update_line EMPTY_CHANGE_CONTEXT_MARKER
  then inr (chunks ++ [empty_chunk None])
  else
  match strip_prefix CHANGE_CONTEXT_MARKER update_line with
  | Some context => inr (chunks ++ [empty_chunk (Some context)])
  | None =>
      if String.eqb update_line EOF_MARKER then
        if last_chunk_empty chunks then inl (no_lines_error line_number)
        else inr (update_last set_eof chunks)
      else
      match push_change_line line (empty_chunk None) with
      | Some _ =>
          inr (update_last (λ c, default c (push_change_line line c)) (ensure_chunk chunks))
      | None =>
          match last chunks with
          | Some c =>
              if chunk_empty c then inl (unexpected_line_error line line_number)
              else inl (expected_context_error line line_number)
          | None => inl (unexpected_line_error line line_number)
          end
      end
  end.

Definition process_line (line : string) (p : StreamingPatchParser)
  : ParseError + StreamingPatchParser :=
  let trimmed := trim line in
  match sp_mode p with
  | NotStarted =>
      if String.eqb trimmed BEGIN_PATCH_MARKER then inr (set_mode StartedPatch p)
      else inl first_line_error
  | StartedPatch =>
      if is_environment_id_preamble_line line then inr p else
      let? handled := handle_hunk_headers_and_end_patch trimmed p in
      match handled with
      | Some p' => inr p'
      | None => inl (bad_header_error trimmed (sp_line_number p))
      end
  | AddFileMode =>
      let? handled := handle_hunk_headers_and_end_patch trimmed p in
      match handled with
      | Some p' => inr p'
      | None =>
          match strip_prefix "+" line, last (sp_hunks p) with
          | Some line_to_add, Some (AddFile _ _) =>
              inr (set_hunks (update_last (append_contents (line_to_add +:+ nl)) (sp_hunks p)) p)
          | _, _ => inl (bad_header_error trimmed (sp_line_number p))
          end
      end
  | DeleteFileMode =>
      let? handled := handle_hunk_headers_and_end_patch trimmed p in
      match handled with
      | Some p' => inr p'
      | None => inl (bad_header_error trimmed (sp_line_number p))
      end
  | UpdateFileMode _ =>
      let update_line := trim_end line in
      let? handled := handle_hunk_headers_and_end_patch update_line p in
      match handled with
      | Some p' => inr p'
      | None =>
          match last (sp_hunks p) with
          | Some (UpdateFile _ move_path chunks) =>
              match chunks, move_path, strip_prefix MOVE_TO_MARKER update_line with
              | [], None, Some d => inr (set_hunks (update_last (set_move_path d) (sp_hunks p)) p)
              | _, _, _ =>
                  let? chunks' := update_line_chunks line update_line (sp_line_number p) chunks in
                  inr (set_hunks (update_last (set_chunks chunks') (sp_hunks p)) p)
              end
          | _ => inl (unexpected_line_error line (sp_line_number p))
          end
      end
  | EndedPatch => inr p
  end.

(** One character of a delta; the state after an error is the state in which
    the line was taken from the buffer. *)
Definition push_char (p : StreamingPatchParser) (ch : ascii)
  : (ParseError + unit) * StreamingPatchParser :=
  if Ascii.eqb ch newline then
    let line := of_bytes (strip_cr (sp_line_buffer p)) in
    match process_line line (next_line p) with
    | inl e => (inl e, next_line p)
    | inr p' => (inr tt, p')
    end
  else (inr tt, set_buffer (sp_line_buffer p ++ [ch]) p).

Fixpoint push_chars (p : StreamingPatchParser) (l : list ascii)
  : (ParseError + unit) * StreamingPatchParser :=
  match l with
  | [] => (inr tt, p)
  | ch :: l' =>
      match push_char p ch with
      | (inl e, p') => (inl e, p')
      | (inr _, p') => push_chars p' l'
      end
  end.

Definition push_delta (delta : list ascii) (p : StreamingPatchParser)
  : (ParseError + list Hunk) * StreamingPatchParser :=
  let (r, p') := push_chars p delta in
  match r with inl e => (inl e, p') | inr _ => (inr (sp_hunks p'), p') end.

(** The last line when it has no line feed. *)
Definition finish_buffer (p : StreamingPatchParser)
  : (ParseError + unit) * StreamingPatchParser :=
  match sp_line_buffer p with
  | [] => (inr tt, p)
  | buffer =>
      let line := of_bytes buffer in
      let p := next_line p in
      if String.eqb (trim line) END_PATCH_MARKER then
        match ensure_update_hunk_is_not_empty (trim line) p with
        | inl e => (inl e, p)
        | inr _ => (inr tt, set_mode EndedPatch p)
        end
      else
        match process_line line p with
        | inl e => (inl e, p)
        | inr p' => (inr tt, p')
        end
  end.

Definition patch_finish (p : StreamingPatchParser)
  : (ParseError + list Hunk) * StreamingPatchParser :=
  let (r, p') := finish_buffer p in
  match r with
  | inl e => (inl e, p')
  | inr _ =>
      match sp_mode p' with
      | EndedPatch => (inr (sp_hunks p'), p')
      | _ => (inl last_line_error, p')
      end
  end.
