(* ===== verification/PatchGrammar.v ===== *)
(** * The documented patch grammar, and that the parser reads it back *)

From Stdlib Require Import ZifyBool.
From S2P Require Import Prelude RustStr World PatchFormat.

(** * Text lines and the documented patch grammar *)

(** * Facts about trimming and lines

    When trimming leaves a text as it is, the lines of a joined text, and
    prefixes of strings. *)

Section text_facts.
Implicit Types (c : ascii) (l k : list ascii) (s t : string).

(** ** Trimming *)

Definition ascii_char c : Prop := (code c < 128)%N.

Lemma ws2_ascii_l c d : ascii_char c → ws2 c d = false.
Proof. unfold ascii_char, ws2. lia. Qed.
Lemma ws2_ascii_r c d : ascii_char d → ws2 c d = false.
Proof. unfold ascii_char, ws2. lia. Qed.
Lemma ws3_ascii_1 c d e : ascii_char c → ws3 c d e = false.
Proof. unfold ascii_char, ws3. lia. Qed.
Lemma ws3_ascii_2 c d e : ascii_char d → ws3 c d e = false.
Proof. unfold ascii_char, ws3. lia. Qed.
Lemma ws3_ascii_3 c d e : ascii_char e → ws3 c d e = false.
Proof. unfold ascii_char, ws3. lia. Qed.

Lemma ltrim_cons c l : ascii_char c → ws1 c = false → ltrim (c :: l) = c :: l.
Proof.
  intros A W. simpl. rewrite W. destruct l as [|d [|e l]]; [done| |];
    rewrite ws2_ascii_l by done; [done|]. by rewrite ws3_ascii_1.
Qed.

Lemma rtrim_snoc c l : ascii_char c → ws1 c = false → rtrim (l ++ [c]) = l ++ [c].
Proof.
  intros A W. unfold rtrim. rewrite reverse_snoc. simpl. rewrite W.
  rewrite <- (reverse_involutive (l ++ [c])), reverse_snoc. f_equal.
  destruct (reverse l) as [|d [|e k]]; [done| |];
    rewrite ws2_ascii_r by done; [done|]. by rewrite ws3_ascii_3.
Qed.

Lemma length_ltrim_rev l : length (ltrim_rev l) ≤ length l.
Proof.
  assert (H : ∀ n l, length l ≤ n → length (ltrim_rev l) ≤ length l); [|by eapply H].
  intros n. induction n as [|n IH]; intros [|c [|d [|e k]]] L; simpl in *; try lia.
  - destruct (ws1 c); simpl; lia.
  - destruct (ws1 c); [specialize (IH [d]); simpl in IH; lia|].
    destruct (ws2 d c); simpl; lia.
  - destruct (ws1 c); [specialize (IH (d :: e :: k)); simpl in IH; lia|].
    destruct (ws2 d c); [specialize (IH (e :: k)); simpl in IH; lia|].
    destruct (ws3 e d c); [specialize (IH k); lia|simpl; lia].
Qed.

(** An ASCII character before the last word does not change its end. *)
Lemma ltrim_rev_app c l k :
  ascii_char c → l ≠ [] → ltrim_rev l = l → ltrim_rev (l ++ c :: k) = l ++ c :: k.
Proof.
  intros A N E. destruct l as [|x l]; [done|].
  pose proof (length_ltrim_rev l) as L1. simpl in E |- *.
  destruct (ws1 x); [apply (f_equal length) in E; simpl in E; lia|].
  destruct l as [|y l]; simpl.
  - rewrite ws2_ascii_l by done. destruct k; [done|]. by rewrite ws3_ascii_2.
  - pose proof (length_ltrim_rev l) as L2. simpl in E.
    destruct (ws2 y x); [apply (f_equal length) in E; simpl in E; lia|].
    destruct l as [|z l]; simpl; [by rewrite ws3_ascii_1|].
    pose proof (length_ltrim_rev l) as L3.
    destruct (ws3 z y x); [apply (f_equal length) in E; simpl in E; lia|done].
Qed.

Lemma rtrim_app c l k :
  ascii_char c → l ≠ [] → rtrim l = l → rtrim (k ++ c :: l) = k ++ c :: l.
Proof.
  intros A N E. unfold rtrim in *. rewrite reverse_app, reverse_cons, <- app_assoc. simpl.
  rewrite ltrim_rev_app; [| done | | ].
  - by rewrite reverse_app, reverse_cons, !reverse_involutive, <- app_assoc.
  - intros R. apply N. rewrite <- (reverse_involutive l). by rewrite R.
  - rewrite <- E at 2. by rewrite reverse_involutive.
Qed.

(** A non-empty text without white space at its end, as a path or a context
    is written in a patch. *)
Definition end_trimmed s : Prop := s ≠ "" ∧ trim_end s = s.

Lemma end_trimmed_bytes s : end_trimmed s → bytes s ≠ [] ∧ rtrim (bytes s) = bytes s.
Proof.
  intros [N E]. split; [by destruct s|]. unfold trim_end in E.
  by rewrite <- (bytes_of_bytes (rtrim _)), E.
Qed.

Lemma trim_end_app s t : end_trimmed t → trim_end (s +:+ " " +:+ t) = s +:+ " " +:+ t.
Proof.
  intros [N E]%end_trimmed_bytes. unfold trim_end. rewrite bytes_app. simpl.
  rewrite rtrim_app by done. rewrite of_bytes_app, of_bytes_bytes. f_equal. simpl.
  by rewrite of_bytes_bytes.
Qed.

Lemma trim_marker c s t :
  ascii_char c → ws1 c = false → end_trimmed t →
  trim (String c s +:+ " " +:+ t) = String c s +:+ " " +:+ t.
Proof.
  intros A W E. unfold trim. change (bytes (String c s +:+ " " +:+ t))
    with (c :: bytes (s +:+ " " +:+ t)). rewrite ltrim_cons by done.
  change (c :: bytes (s +:+ " " +:+ t)) with (bytes (String c s +:+ (" " +:+ t))).
  by apply trim_end_app.
Qed.

(** ** Lines *)

(** A text that [lines] gives back: no line feed and no carriage return at the
    end. *)
Definition line_ok s : Prop := (newline ∉ bytes s) ∧ strip_cr (bytes s) = bytes s.

Lemma lines_go_last l cur :
  newline ∉ l → reverse cur ++ l ≠ [] → lines_go cur l = [reverse cur ++ l].
Proof.
  revert cur. induction l as [|c l IH]; intros cur N E; cbn [lines_go].
  - rewrite app_nil_r in *. by destruct cur.
  - apply not_elem_of_cons in N as [N1 N2].
    replace (Ascii.eqb newline c) with false by (symmetry; by apply Ascii.eqb_neq).
    rewrite IH; [by rewrite reverse_cons, <- app_assoc|done|].
    rewrite reverse_cons. destruct (reverse cur); simpl; done.
Qed.

(** Every line with its line feed. *)
Definition text_of (ls : list string) : list ascii :=
  concat (map (λ s, bytes s ++ [newline]) ls).

Lemma bytes_join_lines ls s : bytes (join_with nl (ls ++ [s])) = text_of ls ++ bytes s.
Proof.
  induction ls as [|t ls IH]; [done|].
  change (text_of (t :: ls)) with ((bytes t ++ [newline]) ++ text_of ls).
  rewrite <- !app_assoc, <- IH. simpl (join_with nl _).
  destruct (ls ++ [s]) as [|u us] eqn:E; [by destruct ls|].
  by rewrite bytes_app.
Qed.

Lemma lines_go_text_of ls l :
  Forall line_ok ls →
  lines_go [] (text_of ls ++ l) = map bytes ls ++ lines_go [] l.
Proof.
  unfold text_of. induction 1 as [|s ls [N C] _ IH]; [done|]. simpl.
  rewrite <- !app_assoc. simpl (_ ++ _).
  rewrite lines_go_line by done. change (reverse [] ++ bytes s) with (bytes s).
  by rewrite IH, C.
Qed.

Lemma lines_join ls s :
  Forall line_ok (ls ++ [s]) → s ≠ "" → lines (join_with nl (ls ++ [s])) = ls ++ [s].
Proof.
  intros [F1 F2]%Forall_app N. unfold lines. rewrite bytes_join_lines, lines_go_text_of by done.
  inversion F2 as [|? ? [M _] _]; subst. rewrite lines_go_last by (done || by destruct s).
  simpl. rewrite map_app, map_map. simpl. rewrite of_bytes_bytes. f_equal.
  rewrite <- (map_id ls) at 2. apply map_ext. intros. apply of_bytes_bytes.
Qed.
End text_facts.

(** * apply-patch: the documented grammar

    The grammar that heads [parser.rs], as syntax trees: the lines each tree
    is written as and the hunk it stands for.  The grammar lets an update hunk
    have no change and a context line have no change line; the code refuses
    both ([hunk_accepted]).  The parser of complete patches reads back every
    well-formed tree that is accepted and fails on the others. *)

(** [change_line]. *)
Inductive change_line := Context_line (s : string) | Added_line (s : string) | Removed_line (s : string).

Definition change_text (c : change_line) : string :=
  match c with
  | Context_line s => " " +:+ s
  | Added_line s => "+" +:+ s
  | Removed_line s => "-" +:+ s
  end.

Definition apply_change (c : UpdateFileChunk) (l : change_line) : UpdateFileChunk :=
  match l with
  | Context_line s => push_new s (push_old s c)
  | Added_line s => push_new s c
  | Removed_line s => push_old s c
  end.

(** [change_context change_line* eof_line?]: the grammar's changes, cut before
    each context line. *)
Record change := {
  ch_context : option string;
  ch_lines : list change_line;
  ch_eof : bool
}.

Definition context_text (o : option string) : string :=
  match o with None => EMPTY_CHANGE_CONTEXT_MARKER | Some s => CHANGE_CONTEXT_MARKER +:+ s end.

Definition change_lines (c : change) : list string :=
  context_text (ch_context c) :: map change_text (ch_lines c) ++
  (if ch_eof c then [EOF_MARKER] else []).

Definition change_chunk (c : change) : UpdateFileChunk :=
  let chunk := foldl apply_change (empty_chunk (ch_context c)) (ch_lines c) in
  if ch_eof c then set_eof chunk else chunk.

Inductive patch_hunk :=
| Add_hunk (path : string) (added : list string)
| Delete_hunk (path : string)
| Update_hunk (path : string) (move : option string) (bare : bool) (changes : list change).

(** A bare first change is written without its context line. *)
Definition change_block (bare : bool) (changes : list change) : list string :=
  let ls := concat (map change_lines changes) in if bare then tail ls else ls.

Definition hunk_lines (h : patch_hunk) : list string :=
  match h with
  | Add_hunk path added => (ADD_FILE_MARKER +:+ path) :: map (String.append "+") added
  | Delete_hunk path => [DELETE_FILE_MARKER +:+ path]
  | Update_hunk path move bare changes =>
      (UPDATE_FILE_MARKER +:+ path) ::
      (match move with Some d => [MOVE_TO_MARKER +:+ d] | None => [] end) ++
      change_block bare changes
  end.

(** The lines with a line feed after each. *)
Definition contents_of (ls : list string) : string :=
  foldr (λ s t, s +:+ nl +:+ t) "" ls.

Definition hunk_of (h : patch_hunk) : Hunk :=
  match h with
  | Add_hunk path added => AddFile path (contents_of added)
  | Delete_hunk path => DeleteFile path
  | Update_hunk path move _ changes => UpdateFile path move (map change_chunk changes)
  end.

(** [begin_patch environment_id? hunk+ end_patch]. *)
Record patch := { p_environment : option string; p_hunks : list patch_hunk }.

Definition environment_lines (o : option string) : list string :=
  match o with Some e => [ENVIRONMENT_ID_MARKER +:+ e] | None => [] end.

Definition patch_body (p : patch) : list string :=
  environment_lines (p_environment p) ++ concat (map hunk_lines (p_hunks p)).

Definition patch_lines (p : patch) : list string :=
  BEGIN_PATCH_MARKER :: patch_body p ++ [END_PATCH_MARKER].

Definition patch_text (p : patch) : string := join_with nl (patch_lines p).

(** ** Well-formed trees *)

(** A path or context: one line, not empty, no white space at its end. *)
Definition name_ok (s : string) : Prop := end_trimmed s ∧ newline ∉ bytes s.

Record change_ok (c : change) : Prop := {
  co_context s : ch_context c = Some s → name_ok s;
  co_lines : Forall (λ l, line_ok (change_text l)) (ch_lines c)
}.

(** A bare change has a first line, which is not blank: the parser of complete
    patches skips blank lines before a change. *)
Definition bare_ok (changes : list change) : Prop :=
  match changes with
  | c :: _ => ch_context c = None ∧
      match ch_lines c with l :: _ => is_blank (change_text l) = false | [] => False end
  | [] => False
  end.

Definition hunk_ok (h : patch_hunk) : Prop :=
  match h with
  | Add_hunk path added => name_ok path ∧ Forall (λ s, line_ok ("+" +:+ s)) added
  | Delete_hunk path => name_ok path
  | Update_hunk path move bare changes =>
      name_ok path ∧ (∀ d, move = Some d → name_ok d) ∧ Forall change_ok changes ∧
      (bare = true → bare_ok changes)
  end.

(** What the code accepts of the grammar. *)
Definition has_lines (c : change) : bool := negb (bool_decide (length (ch_lines c) = 0)).
Definition hunk_accepted (h : patch_hunk) : bool :=
  match h with
  | Update_hunk _ _ _ changes =>
      negb (bool_decide (length changes = 0)) && forallb has_lines changes
  | _ => true
  end.
Definition patch_accepted (p : patch) : bool := forallb hunk_accepted (p_hunks p).

Record patch_ok (p : patch) : Prop := {
  po_environment e : p_environment p = Some e → name_ok e ∧ trim e = e;
  po_hunks : Forall hunk_ok (p_hunks p)
}.

(** ** Lines *)

Lemma name_line_ok s t : name_ok s → newline ∉ bytes t → line_ok (t +:+ " " +:+ s).
Proof.
  intros [E N] M. split.
  - rewrite bytes_app. apply not_elem_of_app. split; [done|]. simpl.
    apply not_elem_of_cons. done.
  - pose proof (trim_end_app t s E) as T. unfold trim_end in T.
    apply (f_equal bytes) in T. rewrite bytes_of_bytes in T.
    unfold strip_cr. unfold rtrim in T.
    destruct (reverse (bytes (t +:+ " " +:+ s))) as [|c l] eqn:R; [done|].
    destruct (Ascii.eqb_spec c cr) as [->|]; [exfalso|done].
    apply (f_equal length) in T. rewrite <- (length_reverse (bytes _)), R, length_reverse in T.
    simpl in T. pose proof (length_ltrim_rev l). lia.
Qed.

(** A line that ends a chunk. *)
Definition stop_line (s : string) : bool :=
  match s with
  | String c _ => (Ascii.eqb c "*" || Ascii.eqb c "@") && negb (String.eqb s EOF_MARKER)
  | EmptyString => false
  end.
Definition stops_chunk (ls : list string) : Prop :=
  match ls with [] => True | s :: _ => stop_line s = true end.
(** A line that ends a hunk. *)
Definition star_line (s : string) : bool :=
  match s with String c _ => Ascii.eqb c "*" && negb (String.eqb s EOF_MARKER) | _ => false end.
Definition stops_hunk (ls : list string) : Prop :=
  match ls with [] => True | s :: _ => star_line s = true end.

Lemma stops_hunk_chunk ls : stops_hunk ls → stops_chunk ls.
Proof.
  destruct ls as [|[|c s] ls]; [done..|]. cbn [stops_hunk stops_chunk star_line stop_line].
  by intros [-> ->]%andb_true_iff.
Qed.

Lemma stop_line_push s c : stop_line s = true → push_change_line s c = None.
Proof.
  destruct s as [|ch s]; [done|]. cbn [stop_line push_change_line].
  intros [[->%Ascii.eqb_eq| ->%Ascii.eqb_eq]%orb_true_iff _]%andb_true_iff; done.
Qed.

Lemma stop_line_not_eof s : stop_line s = true → String.eqb s EOF_MARKER = false.
Proof. destruct s; [done|]. by intros [_ H%negb_true_iff]%andb_true_iff. Qed.

Lemma star_line_head s : star_line s = true → ∃ t, s = String "*" t.
Proof. destruct s as [|c s]; [done|]. intros [->%Ascii.eqb_eq _]%andb_true_iff. eauto. Qed.

Lemma change_text_push c l : push_change_line (change_text l) c = Some (apply_change c l).
Proof. by destruct l. Qed.

Lemma change_text_not_eof l : String.eqb (change_text l) EOF_MARKER = false.
Proof. by destruct l. Qed.

Lemma context_text_head o : ∃ s, context_text o = String "@" s ∧ stop_line (String "@" s) = true.
Proof. destruct o; simpl; eauto. Qed.

(** A text that starts with a printing ASCII character is not blank. *)
Lemma ltrim_rev_snoc l c : ascii_char c → ws1 c = false → last (ltrim_rev (l ++ [c])) = Some c.
Proof.
  intros A W.
  assert (H : ∀ n l, length l ≤ n → last (ltrim_rev (l ++ [c])) = Some c); [|by eapply H].
  intros n. induction n as [|n IH]; intros [|x k] L; simpl in L; try lia.
  - simpl. by rewrite W.
  - simpl. by rewrite W.
  - cbn [app ltrim_rev]. destruct (ws1 x); [apply IH; lia|].
    destruct k as [|y k]; cbn [app].
    + by rewrite ws2_ascii_l.
    + destruct (ws2 y x); [apply IH; simpl in L; lia|].
      destruct k as [|z k]; cbn [app].
      * by rewrite ws3_ascii_1.
      * destruct (ws3 z y x); [apply IH; simpl in L; lia|].
        change (x :: y :: z :: k ++ [c]) with ((x :: y :: z :: k) ++ [c]).
        by rewrite last_snoc.
Qed.

Lemma not_blank c s : ascii_char c → ws1 c = false → is_blank (String c s) = false.
Proof.
  intros A W. unfold is_blank, trim. apply bool_decide_eq_false. intros E.
  apply (f_equal bytes) in E. rewrite bytes_of_bytes in E.
  change (bytes (String c s)) with (c :: bytes s) in E. rewrite ltrim_cons in E by done.
  unfold rtrim in E. rewrite reverse_cons in E.
  pose proof (ltrim_rev_snoc (reverse (bytes s)) c A W) as L.
  destruct (ltrim_rev _) as [|d l]; [done|]. rewrite reverse_cons in E.
  by destruct (reverse l).
Qed.

(** ** Chunks are read back *)

Lemma chunk_body_lines ln n ls rest c :
  stops_chunk rest → n + length ls ≠ 0 →
  chunk_body ln n (map change_text ls ++ rest) c =
    inr (foldl apply_change c ls, n + length ls).
Proof.
  intros R. revert n c. induction ls as [|l ls IH]; intros n c N; simpl in N |- *.
  - destruct rest as [|s r]; simpl; [by rewrite Nat.add_0_r|].
    rewrite stop_line_not_eof, stop_line_push by done.
    destruct n; [done|]. by rewrite Nat.add_0_r.
  - rewrite change_text_not_eof, change_text_push, IH by lia. do 2 f_equal. lia.
Qed.

Lemma chunk_body_eof ln n ls rest c :
  n + length ls ≠ 0 →
  chunk_body ln n (map change_text ls ++ EOF_MARKER :: rest) c =
    inr (set_eof (foldl apply_change c ls), n + length ls + 1).
Proof.
  revert n c. induction ls as [|l ls IH]; intros n c N; simpl in N.
  - simpl (map _ _ ++ _). cbn [chunk_body]. rewrite String.eqb_refl.
    destruct n; [done|]. simpl. do 2 f_equal. lia.
  - cbn [map app chunk_body]. rewrite change_text_not_eof, change_text_push, IH by lia.
    simpl. do 2 f_equal. lia.
Qed.

Lemma has_lines_length c : has_lines c = true → 0 + length (ch_lines c) ≠ 0.
Proof. unfold has_lines. case_bool_decide; [done|]. simpl. lia. Qed.

(** The lines of a change below its context line. *)
Definition change_body (c : change) : list string :=
  map change_text (ch_lines c) ++ (if ch_eof c then [EOF_MARKER] else []).

Lemma chunk_body_read c rest ln :
  has_lines c = true → stops_chunk rest →
  chunk_body ln 0 (change_body c ++ rest) (empty_chunk (ch_context c)) =
    inr (change_chunk c, length (change_body c)).
Proof.
  intros L%has_lines_length R. unfold change_body, change_chunk. rewrite <- app_assoc.
  destruct (ch_eof c); cbn [app].
  - rewrite chunk_body_eof by done. by rewrite length_app, length_map.
  - rewrite chunk_body_lines by done. by rewrite app_nil_r, length_map.
Qed.

Lemma change_body_ne c rest : has_lines c = true → length (change_body c ++ rest) ≠ 0.
Proof. intros L%has_lines_length. unfold change_body. rewrite !length_app, length_map. lia. Qed.

(** The context line, whether or not one may be missing. *)
Lemma context_read o (allow : bool) ln :
  (if String.eqb (context_text o) EMPTY_CHANGE_CONTEXT_MARKER then inr (None, 1)
   else match strip_prefix CHANGE_CONTEXT_MARKER (context_text o) with
        | Some context => inr (Some context, 1)
        | None => if allow then inr (None, 0) else inl (expected_context_error (context_text o) ln)
        end) = inr (o, 1).
Proof. destruct o as [s|]; [|done]. simpl. by rewrite strip_prefix_app || done. Qed.

Lemma parse_chunk_lines c rest ln allow :
  has_lines c = true → stops_chunk rest →
  parse_update_file_chunk (change_lines c ++ rest) ln allow =
    inr (change_chunk c, length (change_lines c)).
Proof.
  intros L R. change (change_lines c) with (context_text (ch_context c) :: change_body c).
  unfold parse_update_file_chunk. cbn [app]. rewrite context_read. cbn [and_then].
  pose proof (change_body_ne c rest L) as NE. simpl (length (_ :: _)).
  destruct (length (change_body c ++ rest)) as [|m]; [done|]. simpl (_ <=? _).
  cbn [drop]. rewrite drop_0, chunk_body_read by done. simpl. do 2 f_equal. lia.
Qed.

(** A change line is no context line. *)
Lemma change_text_no_context l :
  String.eqb (change_text l) EMPTY_CHANGE_CONTEXT_MARKER = false ∧
  strip_prefix CHANGE_CONTEXT_MARKER (change_text l) = None ∧ starts_with "*" (change_text l) = false.
Proof. by destruct l. Qed.

Lemma parse_bare_chunk c rest ln :
  has_lines c = true → ch_context c = None → stops_chunk rest →
  parse_update_file_chunk (change_body c ++ rest) ln true =
    inr (change_chunk c, length (change_body c)).
Proof.
  intros L N R. pose proof (chunk_body_read c rest ln L R) as B. rewrite N in B.
  unfold change_body in *. apply has_lines_length in L.
  destruct (ch_lines c) as [|l ls] eqn:E; [done|]. cbn [map app] in *. unfold parse_update_file_chunk.
  destruct (change_text_no_context l) as (-> & -> & _). cbn [and_then]. simpl (_ <=? _).
  rewrite drop_0, B. cbn [and_then]. by rewrite Nat.add_0_r.
Qed.

(** A context line without change lines. *)
Lemma parse_empty_chunk c rest ln allow :
  has_lines c = false → stops_chunk rest → ∃ e, parse_update_file_chunk (change_lines c ++ rest) ln allow = inl e.
Proof.
  unfold has_lines. intros L%negb_false_iff%bool_decide_eq_true R.
  unfold parse_update_file_chunk, change_lines. cbn [app]. rewrite context_read. cbn [and_then].
  destruct (ch_lines c); [|done]. cbn [map app].
  destruct (ch_eof c); cbn [app]; [by eexists|].
  destruct rest as [|s r]; [by eexists|]. simpl (_ <=? _). cbn [drop chunk_body].
  rewrite stop_line_not_eof, stop_line_push by done. by eexists.
Qed.

Lemma length_change_lines c : 0 < length (change_lines c).
Proof. unfold change_lines. simpl. lia. Qed.

Lemma changes_stop_chunk cs rest :
  stops_chunk rest → stops_chunk (concat (map change_lines cs) ++ rest).
Proof.
  intros R. destruct cs as [|c cs]; [done|]. simpl.
  by destruct (context_text_head (ch_context c)) as (s & -> & S1).
Qed.

Lemma change_lines_head c : ∃ s ls, change_lines c = String "@" s :: ls.
Proof.
  unfold change_lines. destruct (context_text_head (ch_context c)) as (s & -> & _). eauto.
Qed.

(** The first changes are read, and the loop goes on with the rest. *)
Lemma update_chunks_read fuel ln n cs rest chunks :
  forallb has_lines cs = true → stops_chunk rest →
  length (concat (map change_lines cs) ++ rest) ≤ fuel →
  ∃ fuel', length rest ≤ fuel' ∧
    update_chunks fuel ln n (concat (map change_lines cs) ++ rest) chunks =
    update_chunks fuel' ln (n + length (concat (map change_lines cs))) rest
      (chunks ++ map change_chunk cs).
Proof.
  intros F R. revert fuel n chunks. induction cs as [|c cs IH]; intros fuel n chunks L.
  - exists fuel. simpl in *. by rewrite app_nil_r, Nat.add_0_r.
  - cbn [forallb] in F. apply andb_true_iff in F as [Fc F].
    cbn [map concat] in *. rewrite <- app_assoc in *. rewrite length_app in L.
    pose proof (length_change_lines c). destruct fuel as [|fuel]; [lia|].
    destruct (IH F fuel (n + length (change_lines c)) (chunks ++ [change_chunk c])) as (f & Lf & E);
      [lia|]. exists f. split; [done|].
    pose proof (parse_chunk_lines c (concat (map change_lines cs) ++ rest) (ln + n)
      (bool_decide (chunks = [])) Fc (changes_stop_chunk cs rest R)) as P.
    destruct (change_lines_head c) as (s & ls & Hl). rewrite Hl in P at 1. rewrite Hl at 1.
    cbn [app update_chunks] in P |- *. rewrite not_blank by done.
    simpl (starts_with _ _). rewrite P. cbn [and_then].
    rewrite app_comm_cons, <- Hl, drop_app_length, E, <- app_assoc, length_app. simpl. f_equal. lia.
Qed.

Lemma bare_block c cs : change_block true (c :: cs) = change_body c ++ concat (map change_lines cs).
Proof. done. Qed.

Lemma update_block_read fuel ln n bare cs rest :
  (bare = true → bare_ok cs) → forallb has_lines cs = true → stops_chunk rest →
  length (change_block bare cs ++ rest) ≤ fuel →
  ∃ fuel', length rest ≤ fuel' ∧
    update_chunks fuel ln n (change_block bare cs ++ rest) [] =
    update_chunks fuel' ln (n + length (change_block bare cs)) rest (map change_chunk cs).
Proof.
  intros B F R L. destruct bare; [|by apply update_chunks_read].
  specialize (B eq_refl). destruct cs as [|c cs]; [done|]. destruct B as [N Bl].
  cbn [forallb] in F. apply andb_true_iff in F as [Fc F]. rewrite bare_block in *.
  rewrite <- app_assoc in *. rewrite length_app in L.
  pose proof (parse_bare_chunk c (concat (map change_lines cs) ++ rest) (ln + n) Fc N
    (changes_stop_chunk cs rest R)) as P.
  assert (H : ∃ l ls, change_body c = l :: ls ∧ is_blank l = false ∧ starts_with "*" l = false).
  { unfold change_body. destruct (ch_lines c) as [|l ls]; [done|].
    destruct (change_text_no_context l) as (_ & _ & St). eauto 10. }
  destruct H as (l & ls & Hl & Bll & St). assert (L1 : length (change_body c) ≠ 0) by by rewrite Hl.
  destruct fuel as [|fuel]; [lia|].
  destruct (update_chunks_read fuel ln (n + length (change_body c)) cs rest [change_chunk c] F R)
    as (f & Lf & Ef); [lia|].
  exists f. split; [done|]. cbn [app map] in Ef |- *. rewrite length_app, Nat.add_assoc, <- Ef.
  rewrite Hl in P at 1. rewrite Hl at 1. cbn [app update_chunks] in P |- *.
  rewrite Bll, St, bool_decide_eq_true_2, P by done. cbn [and_then].
  by rewrite app_comm_cons, <- Hl, drop_app_length.
Qed.

Lemma update_chunks_stop fuel ln n rest chunks :
  stops_hunk rest → length rest ≤ fuel → update_chunks fuel ln n rest chunks = inr (chunks, n).
Proof.
  destruct fuel, rest as [|s r]; try done. intros R _. cbn [update_chunks].
  destruct (star_line_head s R) as [t ->]. by rewrite not_blank.
Qed.

(** The first change without change lines. *)
Lemma first_empty cs :
  forallb has_lines cs = false →
  ∃ k c k', cs = k ++ c :: k' ∧ forallb has_lines k = true ∧ has_lines c = false.
Proof.
  induction cs as [|c cs IH]; [done|]. cbn [forallb]. destruct (has_lines c) eqn:E.
  - intros F. destruct (IH F) as (k & d & k' & -> & Fk & Fd). exists (c :: k), d, k'.
    simpl. by rewrite E.
  - intros _. by exists [], c, cs.
Qed.

Lemma change_block_split bare k c k' :
  (bare = true → bare_ok (k ++ c :: k')) → has_lines c = false →
  change_block bare (k ++ c :: k') = change_block bare k ++ concat (map change_lines (c :: k')) ∧
  (bare = true → bare_ok k).
Proof.
  intros B E. unfold change_block. rewrite map_app, concat_app. destruct bare; [|done].
  specialize (B eq_refl). destruct k as [|d k]; [exfalso|done]. destruct B as [_ B].
  unfold has_lines in E. by destruct (ch_lines c).
Qed.

Lemma update_block_rejected fuel ln n bare cs rest :
  (bare = true → bare_ok cs) → forallb has_lines cs = false → stops_hunk rest →
  length (change_block bare cs ++ rest) ≤ fuel →
  ∃ e, update_chunks fuel ln n (change_block bare cs ++ rest) [] = inl e.
Proof.
  intros B (k & c & k' & -> & Fk & Fc)%first_empty R L.
  destruct (change_block_split bare k c k' B Fc) as [Eb Bk]. rewrite Eb in *.
  rewrite <- app_assoc in *. cbn [map concat] in *. rewrite <- app_assoc in *.
  set (tl := concat (map change_lines k') ++ rest) in *.
  assert (Rt : stops_chunk tl) by by apply changes_stop_chunk, stops_hunk_chunk.
  destruct (change_lines_head c) as (s & ls & Hl).
  assert (Rc : stops_chunk (change_lines c ++ tl)).
  { unfold change_lines. cbn [app]. by destruct (context_text_head (ch_context c)) as (? & -> & ?). }
  destruct (update_block_read fuel ln n bare k (change_lines c ++ tl) Bk Fk Rc L) as (f & Lf & ->).
  destruct (parse_empty_chunk c tl (ln + (n + length (change_block bare k)))
    (bool_decide (map change_chunk k = [])) Fc Rt) as [e E].
  rewrite Hl in *. cbn [app] in *. destruct f as [|f]; [simpl in Lf; lia|].
  cbn [update_chunks]. rewrite not_blank by done. simpl (starts_with _ _). rewrite E. by eexists.
Qed.

(** * apply-patch: well-formed patches are read back

    The parser of complete patches returns, for every well-formed tree of the
    grammar, the hunks the tree stands for, also inside a heredoc wrapper. *)

(** ** Markers *)

Lemma marker_trim c s t :
  ascii_char c → ws1 c = false → name_ok t → trim (String c s +:+ " " +:+ t) = String c s +:+ " " +:+ t.
Proof. intros A W [E _]. by apply trim_marker. Qed.

(** Every header marker ends in a blank. *)
Lemma add_marker_trim s : name_ok s → trim (ADD_FILE_MARKER +:+ s) = ADD_FILE_MARKER +:+ s.
Proof. exact (marker_trim "*" "** Add File:" s eq_refl eq_refl). Qed.
Lemma delete_marker_trim s : name_ok s → trim (DELETE_FILE_MARKER +:+ s) = DELETE_FILE_MARKER +:+ s.
Proof. exact (marker_trim "*" "** Delete File:" s eq_refl eq_refl). Qed.
Lemma update_marker_trim s : name_ok s → trim (UPDATE_FILE_MARKER +:+ s) = UPDATE_FILE_MARKER +:+ s.
Proof. exact (marker_trim "*" "** Update File:" s eq_refl eq_refl). Qed.

(** ** Hunks *)

Lemma add_lines_read added rest :
  stops_hunk rest →
  add_lines (map (String.append "+") added ++ rest) = (contents_of added, length added).
Proof.
  intros R. induction added as [|s added IH]; simpl.
  - destruct rest as [|s r]; [done|]. by destruct (star_line_head s R) as [t ->].
  - rewrite IH. done.
Qed.

(** The header of an update hunk, its destination and the loop over its
    changes. *)
Lemma parse_update_hunk path move block rest ln :
  name_ok path → (∀ d, move = Some d → name_ok d) →
  head (block ++ rest) ≫= strip_prefix MOVE_TO_MARKER = None →
  let before := match move with Some _ => 2 | None => 1 end in
  parse_one_hunk ((UPDATE_FILE_MARKER +:+ path) ::
    (match move with Some d => [MOVE_TO_MARKER +:+ d] | None => [] end) ++ block ++ rest) ln =
  let? (chunks, n) := update_chunks (length (block ++ rest)) ln before (block ++ rest) [] in
  if bool_decide (chunks = []) then inl (empty_update_error path ln)
  else inr (UpdateFile path move chunks, n).
Proof.
  intros P M H. cbn [parse_one_hunk]. rewrite update_marker_trim, strip_prefix_app by done.
  replace (strip_prefix ADD_FILE_MARKER (UPDATE_FILE_MARKER +:+ path)) with (@None string) by done.
  replace (strip_prefix DELETE_FILE_MARKER (UPDATE_FILE_MARKER +:+ path)) with (@None string) by done.
  destruct move as [d|]; cbn [app head tail mbind option_bind]; [by rewrite strip_prefix_app|].
  by rewrite H.
Qed.

Lemma change_block_head bare cs rest :
  cs ≠ [] → (bare = true → bare_ok cs) →
  head (change_block bare cs ++ rest) ≫= strip_prefix MOVE_TO_MARKER = None.
Proof.
  intros N B. destruct cs as [|c cs]; [done|]. destruct bare.
  - rewrite bare_block. destruct (B eq_refl) as [_ L]. unfold change_body.
    destruct (ch_lines c) as [|[]]; done.
  - unfold change_block. cbn [map concat]. by destruct (change_lines_head c) as (s & ls & ->).
Qed.

(** What follows a hunk: nothing, or the header of another one. *)
Definition next_hunk (ls : list string) : Prop :=
  stops_hunk ls ∧ head ls ≫= strip_prefix MOVE_TO_MARKER = None.

Lemma accepted_changes path move bare cs :
  hunk_accepted (Update_hunk path move bare cs) = true ↔ cs ≠ [] ∧ forallb has_lines cs = true.
Proof.
  cbn [hunk_accepted]. rewrite andb_true_iff, negb_true_iff, bool_decide_eq_false,
    length_zero_iff_nil. done.
Qed.

Lemma parse_hunk_lines h rest ln :
  hunk_ok h → hunk_accepted h = true → next_hunk rest →
  parse_one_hunk (hunk_lines h ++ rest) ln = inr (hunk_of h, length (hunk_lines h)).
Proof.
  intros Ok A [R _]. destruct h as [path added|path|path move bare cs]; cbn [hunk_lines app].
  - destruct Ok as [P _]. cbn [parse_one_hunk]. rewrite add_marker_trim, strip_prefix_app, add_lines_read by done.
    cbn. by rewrite length_map.
  - cbn [parse_one_hunk]. by rewrite delete_marker_trim, strip_prefix_app.
  - destruct Ok as (P & M & F & B). apply accepted_changes in A as [N A].
    rewrite <- app_assoc, parse_update_hunk by (done || by apply change_block_head).
    destruct (update_block_read (length (change_block bare cs ++ rest)) ln
      match move with Some _ => 2 | None => 1 end bare cs rest B A) as (f & Lf & ->);
      [by apply stops_hunk_chunk|done|].
    rewrite update_chunks_stop by done. cbn [and_then].
    rewrite bool_decide_eq_false_2 by by destruct cs.
    cbn [hunk_of]. do 2 f_equal. cbn [length]. rewrite length_app. by destruct move.
Qed.

Lemma parse_hunk_rejected h rest ln :
  hunk_ok h → hunk_accepted h = false → next_hunk rest →
  ∃ e, parse_one_hunk (hunk_lines h ++ rest) ln = inl e.
Proof.
  intros Ok A [R Mv]. destruct h as [path added|path|path move bare cs]; try done.
  destruct Ok as (P & M & F & B). cbn [hunk_lines app]. rewrite <- app_assoc.
  destruct cs as [|c cs].
  - assert (bare = false) as -> by (destruct bare; [by destruct (B eq_refl)|done]).
    change (change_block false []) with (@nil string). rewrite parse_update_hunk by done.
    cbn [app]. rewrite update_chunks_stop by done. cbn. by eexists.
  - rewrite parse_update_hunk by (done || by apply change_block_head). cbn [hunk_accepted] in A.
    destruct (update_block_rejected (length (change_block bare (c :: cs) ++ rest)) ln
      match move with Some _ => 2 | None => 1 end bare (c :: cs) rest B) as [e ->];
      [by destruct (forallb has_lines (c :: cs))|done|done|]. by eexists.
Qed.

Lemma hunk_lines_head h : ∃ s ls, hunk_lines h = String "*" s :: ls ∧ star_line (String "*" s) = true.
Proof. destruct h; simpl; eauto. Qed.

Lemma hunks_next hs : next_hunk (concat (map hunk_lines hs)).
Proof. destruct hs as [|h hs]; [done|]. by destruct h. Qed.

(** The first hunks are read, and the loop goes on with the rest. *)
Lemma parse_hunks_read fuel hs rest ln hunks :
  Forall hunk_ok hs → forallb hunk_accepted hs = true →
  length (concat (map hunk_lines (hs ++ rest))) ≤ fuel →
  ∃ fuel' ln', length (concat (map hunk_lines rest)) ≤ fuel' ∧
    parse_hunks fuel (concat (map hunk_lines (hs ++ rest))) ln hunks =
    parse_hunks fuel' (concat (map hunk_lines rest)) ln' (hunks ++ map hunk_of hs).
Proof.
  intros F. revert fuel ln hunks. induction F as [|h hs Ok F IH]; intros fuel ln hunks A L.
  - exists fuel, ln. simpl. by rewrite app_nil_r.
  - cbn [map concat app forallb] in *. rewrite length_app in L. apply andb_true_iff in A as [Ah A].
    destruct (hunk_lines_head h) as (s & ls & E & _).
    assert (L0 : 0 < length (hunk_lines h)) by (rewrite E; simpl; lia).
    destruct fuel as [|fuel]; [lia|].
    pose proof (parse_hunk_lines h (concat (map hunk_lines (hs ++ rest))) ln Ok Ah (hunks_next _)) as P.
    rewrite E in P at 1 |- *. cbn [app] in P |- *. cbn [parse_hunks]. rewrite P. cbn [and_then].
    rewrite app_comm_cons, <- E, drop_app_length.
    destruct (IH fuel (ln + length (hunk_lines h)) (hunks ++ [hunk_of h]) A) as (f & n & Lf & ->); [lia|].
    exists f, n. split; [done|]. by rewrite <- app_assoc.
Qed.

Lemma parse_hunks_lines fuel hs ln hunks :
  Forall hunk_ok hs → forallb hunk_accepted hs = true → length (concat (map hunk_lines hs)) ≤ fuel →
  parse_hunks fuel (concat (map hunk_lines hs)) ln hunks = inr (hunks ++ map hunk_of hs).
Proof.
  intros F A L. destruct (parse_hunks_read fuel hs [] ln hunks F A) as (f & n & _ & E);
    rewrite app_nil_r in *; [done|]. rewrite E. by destruct f.
Qed.

Lemma first_rejected hs :
  forallb hunk_accepted hs = false →
  ∃ k h k', hs = k ++ h :: k' ∧ forallb hunk_accepted k = true ∧ hunk_accepted h = false.
Proof.
  induction hs as [|h hs IH]; [done|]. cbn [forallb]. destruct (hunk_accepted h) eqn:E.
  - intros F. destruct (IH F) as (k & d & k' & -> & Fk & Fd). exists (h :: k), d, k'.
    simpl. by rewrite E.
  - intros _. by exists [], h, hs.
Qed.

Lemma parse_hunks_rejected fuel hs ln hunks :
  Forall hunk_ok hs → forallb hunk_accepted hs = false → length (concat (map hunk_lines hs)) ≤ fuel →
  ∃ e, parse_hunks fuel (concat (map hunk_lines hs)) ln hunks = inl e.
Proof.
  intros F (k & h & k' & -> & Ak & Ah)%first_rejected L.
  apply Forall_app in F as [Fk F]. apply Forall_cons in F as [Fh _].
  destruct (parse_hunks_read fuel k (h :: k') ln hunks Fk Ak L) as (f & n & Lf & ->).
  cbn [map concat] in *.
  destruct (parse_hunk_rejected h (concat (map hunk_lines k')) n Fh Ah (hunks_next _)) as [e E].
  destruct (hunk_lines_head h) as (s & ls & El & _). rewrite El in *. cbn [app] in *.
  destruct f as [|f]; [simpl in Lf; lia|]. cbn [parse_hunks]. rewrite E. by eexists.
Qed.

(** ** Patches *)

Lemma environment_read p :
  patch_ok p →
  ∃ ln, parse_environment_id_preamble (patch_body p) =
    inr (p_environment p, concat (map hunk_lines (p_hunks p)), ln).
Proof.
  intros [Oe _]. unfold patch_body, parse_environment_id_preamble.
  destruct (p_environment p) as [e|]; cbn [environment_lines app].
  - destruct (Oe e eq_refl) as [N T].
    assert (S1 : trim_start (ENVIRONMENT_ID_MARKER +:+ e) = ENVIRONMENT_ID_MARKER +:+ e).
    { unfold trim_start. change (bytes (ENVIRONMENT_ID_MARKER +:+ e))
        with ("*"%char :: bytes ("** Environment ID: " +:+ e)).
      rewrite ltrim_cons by done. simpl. by rewrite of_bytes_bytes. }
    rewrite S1, strip_prefix_app, T.
    destruct N as [[N _] _]. destruct e as [|c e]; [done|]. simpl. by eexists.
  - destruct (p_hunks p) as [|h hs]; [by eexists|].
    assert (S1 : ∀ s t, s = String "*" t → trim_start s = s).
    { intros s t ->. unfold trim_start. change (bytes (String "*" t)) with ("*"%char :: bytes t).
      rewrite ltrim_cons by done. simpl. by rewrite of_bytes_bytes. }
    destruct h; cbn [map concat hunk_lines app];
      (erewrite S1; [by eexists|reflexivity]).
Qed.

Lemma boundaries_read p :
  check_patch_boundaries_strict (patch_lines p) = inr (patch_lines p, patch_body p).
Proof.
  unfold check_patch_boundaries_strict, patch_lines.
  rewrite app_comm_cons, last_snoc. unfold inner_lines. cbn [tail app].
  by rewrite removelast_last.
Qed.

(** ** The text *)

Lemma name_ok_line s t :
  name_ok s → newline ∉ bytes t → line_ok (t +:+ " " +:+ s).
Proof. apply name_line_ok. Qed.

Lemma contents_lines_ok added : Forall (λ s, line_ok ("+" +:+ s)) added →
  Forall line_ok (map (String.append "+") added).
Proof. intros F. by apply Forall_map. Qed.

Ltac no_newline := apply (bool_decide_unpack (newline ∉ _)); vm_compute; reflexivity.

Lemma context_line_ok o : (∀ s, o = Some s → name_ok s) → line_ok (context_text o).
Proof.
  intros N. destruct o as [s|].
  - apply (name_line_ok s "@@"); [by apply N|no_newline].
  - split; [no_newline|done].
Qed.

Lemma change_lines_ok c : change_ok c → Forall line_ok (change_lines c).
Proof.
  intros [C L]. unfold change_lines. constructor; [by apply context_line_ok|].
  apply Forall_app. split; [by apply Forall_map|]. destruct (ch_eof c); constructor; [|done].
  split; [no_newline|done].
Qed.

Lemma hunk_lines_ok h : hunk_ok h → Forall line_ok (hunk_lines h).
Proof.
  destruct h as [path added|path|path move bare cs]; simpl.
  - intros [N F]. constructor; [|by apply contents_lines_ok].
    apply (name_line_ok path "*** Add File:"); [done|no_newline].
  - intros N. constructor; [|done].
    apply (name_line_ok path "*** Delete File:"); [done|no_newline].
  - intros (N & M & F & _). constructor.
    { apply (name_line_ok path "*** Update File:"); [done|no_newline]. }
    apply Forall_app. split.
    + destruct move as [d|]; constructor; [|done].
      apply (name_line_ok d "*** Move to:"); [by apply M|no_newline].
    + assert (Fl : Forall line_ok (concat (map change_lines cs))).
      { apply Forall_concat, Forall_map. eapply Forall_impl; [exact F|]. apply change_lines_ok. }
      unfold change_block. destruct bare; [|done]. by destruct Fl.
Qed.

Lemma patch_body_ok p : patch_ok p → Forall line_ok (patch_body p).
Proof.
  intros [E F]. unfold patch_body. apply Forall_app. split.
  - destruct (p_environment p) as [e|]; constructor; [|done].
    apply (name_line_ok e "*** Environment ID:"); [by apply E|no_newline].
  - apply Forall_concat, Forall_map. eapply Forall_impl; [exact F|]. apply hunk_lines_ok.
Qed.

Lemma patch_lines_ok p : patch_ok p → Forall line_ok (patch_lines p).
Proof.
  intros Ok. unfold patch_lines. constructor; [split; [no_newline|done]|].
  apply Forall_app. split; [by apply patch_body_ok|].
  constructor; [split; [no_newline|done]|done].
Qed.

(** A text between two printing characters is trimmed. *)
Lemma trim_between c s d :
  ascii_char c → ws1 c = false → ascii_char d → ws1 d = false →
  trim (String c s +:+ String d "") = String c s +:+ String d "".
Proof.
  intros A W B X. unfold trim. change (bytes (String c s +:+ String d ""))
    with (c :: bytes (s +:+ String d "")).
  rewrite ltrim_cons, bytes_app by done. change (bytes (String d "")) with [d].
  rewrite app_comm_cons, rtrim_snoc by done. rewrite of_bytes_app. simpl.
  by rewrite of_bytes_bytes.
Qed.

Lemma join_first_last c s d ls t :
  ∃ m, join_with nl (String c s :: ls ++ [t +:+ String d ""]) = String c m +:+ String d "".
Proof.
  change (String c s :: ls ++ [t +:+ String d ""])
    with ((String c s :: ls) ++ [t +:+ String d ""]).
  set (m := bytes s ++ [newline] ++ text_of ls ++ bytes t). exists (of_bytes m).
  apply (inj bytes). rewrite bytes_join_lines, !bytes_app.
  change (bytes (String c (of_bytes m))) with (c :: bytes (of_bytes m)).
  rewrite bytes_of_bytes. unfold m.
  change (text_of (String c s :: ls)) with ((c :: bytes s ++ [newline]) ++ text_of ls).
  cbn [app]. rewrite <- !app_assoc. cbn [app]. by rewrite <- !app_assoc.
Qed.

Lemma patch_text_read p :
  patch_ok p → lines (trim (patch_text p)) = patch_lines p.
Proof.
  intros Ok. unfold patch_text.
  assert (T : trim (join_with nl (patch_lines p)) = join_with nl (patch_lines p)).
  { destruct (join_first_last "*" "** Begin Patch" "h" (patch_body p) "*** End Patc") as [m E].
    unfold patch_lines. change END_PATCH_MARKER with ("*** End Patc" +:+ "h").
    change BEGIN_PATCH_MARKER with (String "*" "** Begin Patch").
    rewrite E. by apply trim_between. }
  rewrite T. unfold patch_lines. rewrite app_comm_cons. apply lines_join; [|done].
  rewrite <- app_comm_cons. by apply patch_lines_ok.
Qed.

(** The heredoc a shell would have removed. *)
Definition heredoc (opener : string) (p : patch) : string :=
  join_with nl (opener :: patch_lines p ++ ["EOF"]).

Lemma heredoc_read opener p :
  patch_ok p → opener ∈ heredoc_openers →
  lines (trim (heredoc opener p)) = opener :: patch_lines p ++ ["EOF"].
Proof.
  intros Ok O. unfold heredoc.
  assert (H : ∃ s, opener = String "<" s ∧ line_ok opener).
  { repeat (apply elem_of_cons in O as [->|O]); [..|by apply elem_of_nil in O];
      eexists; (split; [reflexivity|]; split; [no_newline|done]). }
  destruct H as (s & -> & Lo).
  assert (T : trim (join_with nl (String "<" s :: patch_lines p ++ ["EOF"])) =
              join_with nl (String "<" s :: patch_lines p ++ ["EOF"])).
  { destruct (join_first_last "<" s "F" (patch_lines p) "EO") as [m E].
    change "EOF" with ("EO" +:+ "F"). rewrite E. by apply trim_between. }
  rewrite T, app_comm_cons. apply lines_join; [|done]. rewrite <- app_comm_cons.
  constructor; [done|]. apply Forall_app. split; [by apply patch_lines_ok|].
  constructor; [split; [no_newline|done]|done].
Qed.

Lemma heredoc_boundaries opener p :
  opener ∈ heredoc_openers →
  check_patch_boundaries_lenient (opener :: patch_lines p ++ ["EOF"]) =
    inr (patch_lines p, patch_body p).
Proof.
  intros O. unfold check_patch_boundaries_lenient.
  assert (S1 : check_patch_boundaries_strict (opener :: patch_lines p ++ ["EOF"]) =
    inl first_line_error).
  { unfold check_patch_boundaries_strict. rewrite app_comm_cons, last_snoc.
    repeat (apply elem_of_cons in O as [->|O]); [done..|by apply elem_of_nil in O]. }
  rewrite S1. set (l := patch_lines p ++ ["EOF"]).
  assert (H : ∃ s r, l = s :: r ∧ last (opener :: l) = Some "EOF").
  { unfold l, patch_lines. cbn [app]. do 2 eexists. split; [reflexivity|].
    rewrite !app_comm_cons. apply last_snoc. }
  destruct H as (s & r & E & La). rewrite E at 1. rewrite <- E, La.
  unfold inner_lines, l. cbn [tail]. rewrite removelast_last, boundaries_read.
  assert (existsb (String.eqb opener) heredoc_openers = true) as ->.
  { apply existsb_exists_elem. exists opener. split; [done|]. apply String.eqb_refl. }
  assert ((4 <=? length (opener :: patch_lines p ++ ["EOF"])) = true) as ->.
  { apply Nat.leb_le. unfold patch_lines. rewrite length_cons, !length_app. simpl.
    rewrite length_app. simpl. lia. }
  done.
Qed.

Definition parsed (p : patch) : ApplyPatchArgs := {|
  aa_patch := patch_text p; aa_hunks := map hunk_of (p_hunks p); aa_workdir := None;
  aa_environment_id := p_environment p |}.

Lemma patch_read (p : patch) :
  patch_ok p → patch_accepted p = true →
  parse_patch (patch_text p) = inr (parsed p) ∧
  ∀ opener, opener ∈ heredoc_openers → parse_patch (heredoc opener p) = inr (parsed p).
Proof.
  intros Ok A. destruct (environment_read p Ok) as [ln E].
  assert (F : parse_hunks (length (concat (map hunk_lines (p_hunks p))))
    (concat (map hunk_lines (p_hunks p))) ln [] = inr (map hunk_of (p_hunks p)))
    by (apply parse_hunks_lines; [apply Ok|done|done]).
  split; [|intros opener O]; unfold parse_patch, parse_patch_text; cbn [PARSE_IN_STRICT_MODE].
  - rewrite patch_text_read by done. unfold check_patch_boundaries_lenient.
    rewrite boundaries_read. cbn [and_then]. rewrite E. cbn [and_then]. by rewrite F.
  - rewrite heredoc_read, heredoc_boundaries by done. cbn [and_then]. rewrite E.
    cbn [and_then]. by rewrite F.
Qed.

Lemma patch_rejected (p : patch) :
  patch_ok p → patch_accepted p = false →
  (∃ e, parse_patch (patch_text p) = inl e) ∧
  ∀ opener, opener ∈ heredoc_openers → ∃ e, parse_patch (heredoc opener p) = inl e.
Proof.
  intros Ok A. destruct (environment_read p Ok) as [ln E].
  destruct (parse_hunks_rejected (length (concat (map hunk_lines (p_hunks p)))) (p_hunks p) ln [])
    as [e F]; [apply Ok|done|done|].
  split; [exists e|intros opener O; exists e]; unfold parse_patch, parse_patch_text; cbn [PARSE_IN_STRICT_MODE].
  - rewrite patch_text_read by done. unfold check_patch_boundaries_lenient.
    rewrite boundaries_read. cbn [and_then]. rewrite E. cbn [and_then]. by rewrite F.
  - rewrite heredoc_read, heredoc_boundaries by done. cbn [and_then]. rewrite E.
    cbn [and_then]. by rewrite F.
Qed.
