(* ===== verification/PatchStreamFacts.v ===== *)
(** * apply-patch: the streaming parser on well-formed patches

    Whatever pieces a well-formed patch arrives in, the streaming parser
    returns the hunks of its tree when the tree is accepted, and fails when it
    is not, and so agrees with the parser of complete patches. *)

From S2P Require Import Prelude RustStr World PatchFormat PatchStream PatchGrammar.

(** ** Deltas, characters and lines *)

(** The deltas one after the other, then the end. *)
Fixpoint push_deltas (ds : list (list ascii)) (p : StreamingPatchParser)
  : ParseError + list Hunk :=
  match ds with
  | [] => fst (patch_finish p)
  | d :: ds' =>
      match push_delta d p with
      | (inl e, _) => inl e
      | (inr _, p') => push_deltas ds' p'
      end
  end.

Lemma push_chars_app l k p :
  push_chars p (l ++ k) =
  match push_chars p l with (inl e, q) => (inl e, q) | (inr _, q) => push_chars q k end.
Proof.
  revert p. induction l as [|c l IH]; intros p; [done|]. cbn [app push_chars].
  destruct (push_char p c) as [[e|u] q]; [done|]. apply IH.
Qed.

Lemma push_deltas_concat ds p :
  push_deltas ds p =
  match push_chars p (concat ds) with (inl e, _) => inl e | (inr _, q) => fst (patch_finish q) end.
Proof.
  revert p. induction ds as [|d ds IH]; intros p; [done|]. cbn [push_deltas concat].
  rewrite push_chars_app. unfold push_delta. destruct (push_chars p d) as [[e|u] q]; [done|].
  apply IH.
Qed.

Lemma push_chars_buffer l p :
  newline ∉ l → push_chars p l = (inr tt, set_buffer (sp_line_buffer p ++ l) p).
Proof.
  revert p. induction l as [|c l IH]; intros p N; cbn [push_chars].
  - rewrite app_nil_r. by destruct p.
  - apply not_elem_of_cons in N as [N1 N2]. unfold push_char.
    replace (Ascii.eqb c newline) with false
      by (symmetry; apply Ascii.eqb_neq; intros ->; done).
    rewrite IH by done. cbn. by rewrite <- app_assoc.
Qed.

(** A state between two lines. *)
Definition st (m : StreamingParserMode) (hs : list Hunk) (n : nat) : StreamingPatchParser :=
  {| sp_line_buffer := []; sp_mode := m; sp_hunks := hs; sp_line_number := n |}.

Definition step_line (p : StreamingPatchParser) (s : string) : ParseError + StreamingPatchParser :=
  process_line s (next_line p).

Lemma push_line s m hs n q :
  line_ok s → step_line (st m hs n) s = inr q →
  push_chars (st m hs n) (bytes s ++ [newline]) = (inr tt, q).
Proof.
  intros [N C] E. rewrite push_chars_app, push_chars_buffer by done. cbn [push_chars].
  unfold push_char. rewrite Ascii.eqb_refl.
  change (sp_line_buffer (set_buffer _ _)) with (sp_line_buffer (st m hs n) ++ bytes s).
  cbn [sp_line_buffer st app]. rewrite C, of_bytes_bytes.
  change (next_line (set_buffer _ _)) with (next_line (st m hs n)).
  unfold step_line in E. by rewrite E.
Qed.

(** Every line leads from a state between lines to another. *)
Fixpoint runs (ls : list string) (p q : StreamingPatchParser) : Prop :=
  match ls with
  | [] => p = q
  | s :: ls' => ∃ m hs n, step_line p s = inr (st m hs n) ∧ runs ls' (st m hs n) q
  end.

Lemma runs_app ls ls' p q r : runs ls p q → runs ls' q r → runs (ls ++ ls') p r.
Proof.
  revert p. induction ls as [|s ls IH]; intros p; simpl; [by intros ->|].
  intros (m & hs & n & E & R) R'. exists m, hs, n. split; [done|]. by apply IH.
Qed.

Lemma runs_one s p m hs n : step_line p s = inr (st m hs n) → runs [s] p (st m hs n).
Proof. intros E. exists m, hs, n. split; [done|]. done. Qed.

Lemma push_runs ls m hs n q :
  Forall line_ok ls → runs ls (st m hs n) q → push_chars (st m hs n) (text_of ls) = (inr tt, q).
Proof.
  intros F. revert m hs n. induction F as [|s ls L F IH]; intros m hs n; simpl.
  - by intros <-.
  - intros (m' & hs' & n' & E & R). change (text_of (s :: ls))
      with ((bytes s ++ [newline]) ++ text_of ls).
    rewrite push_chars_app, (push_line _ _ _ _ _ L E). by apply IH.
Qed.

(** ** Headers *)

(** A hunk may start here: the last one is complete. *)
Definition closed (m : StreamingParserMode) (hs : list Hunk) : Prop :=
  match m with
  | NotStarted | EndedPatch => False
  | UpdateFileMode _ =>
      ∃ path move cs c, last hs = Some (UpdateFile path move (cs ++ [c])) ∧ chunk_empty c = false
  | StartedPatch => hs = []
  | AddFileMode => ∃ path contents, last hs = Some (AddFile path contents)
  | DeleteFileMode => ∃ path, last hs = Some (DeleteFile path)
  end.

Lemma closed_ensure m hs n line :
  closed m hs → ensure_update_hunk_is_not_empty line (st m hs n) = inr tt.
Proof.
  unfold ensure_update_hunk_is_not_empty. destruct m; simpl; try done.
  - by intros ->.
  - by intros (path & contents & ->).
  - by intros (path & ->).
  - intros (path & move & cs & c & -> & E).
    destruct (cs ++ [c]) as [|d ds] eqn:D; [by destruct cs|].
    rewrite <- D. unfold last_chunk_empty. by rewrite last_snoc, E.
Qed.

(** A line that is its own trimming and is handled as a header. *)
Lemma header_step m hs n line p' :
  closed m hs → trim line = line → trim_end line = line →
  is_environment_id_preamble_line line = false →
  handle_hunk_headers_and_end_patch line (st m hs (S n)) = inr (Some p') →
  step_line (st m hs n) line = inr p'.
Proof.
  intros C T T' E H. unfold step_line, process_line. change (next_line (st m hs n))
    with (st m hs (S n)). cbn [sp_mode st]. fold (st m hs (S n)).
  destruct m; simpl in C; try done; rewrite ?T, ?T', ?E; by rewrite H.
Qed.

Lemma trim_end_of_marker s t : name_ok s → trim_end (t +:+ " " +:+ s) = t +:+ " " +:+ s.
Proof. intros [E _]. by apply trim_end_app. Qed.

Lemma add_header m hs n path :
  closed m hs → name_ok path →
  step_line (st m hs n) (ADD_FILE_MARKER +:+ path) =
    inr (st AddFileMode (hs ++ [AddFile path ""]) (S n)).
Proof.
  intros C N. apply header_step; [done|by apply add_marker_trim| |done|].
  - by apply (trim_end_of_marker path "*** Add File:").
  - unfold handle_hunk_headers_and_end_patch.
    rewrite strip_prefix_app, closed_ensure by done. done.
Qed.

Lemma delete_header m hs n path :
  closed m hs → name_ok path →
  step_line (st m hs n) (DELETE_FILE_MARKER +:+ path) =
    inr (st DeleteFileMode (hs ++ [DeleteFile path]) (S n)).
Proof.
  intros C N. apply header_step; [done|by apply delete_marker_trim| |done|].
  - by apply (trim_end_of_marker path "*** Delete File:").
  - unfold handle_hunk_headers_and_end_patch.
    rewrite strip_prefix_app, closed_ensure by done. done.
Qed.

Lemma update_header m hs n path :
  closed m hs → name_ok path →
  step_line (st m hs n) (UPDATE_FILE_MARKER +:+ path) =
    inr (st (UpdateFileMode (S n)) (hs ++ [UpdateFile path None []]) (S n)).
Proof.
  intros C N. apply header_step; [done|by apply update_marker_trim| |done|].
  - by apply (trim_end_of_marker path "*** Update File:").
  - unfold handle_hunk_headers_and_end_patch.
    rewrite strip_prefix_app, closed_ensure by done. done.
Qed.

(** ** The lines of a hunk *)

Lemma ltrim_rev_suffix l : ltrim_rev l `suffix_of` l.
Proof.
  assert (H : ∀ n l, length l ≤ n → ltrim_rev l `suffix_of` l); [|by eapply H].
  intros n. induction n as [|n IH]; intros [|c k] L; simpl in L; try done; try lia.
  cbn [ltrim_rev]. destruct (ws1 c); [apply suffix_cons_r, IH; lia|].
  destruct k as [|d k]; [done|]. simpl in L.
  destruct (ws2 d c); [apply suffix_cons_r, suffix_cons_r, IH; lia|].
  destruct k as [|e k]; [done|]. simpl in L.
  destruct (ws3 e d c); [|done]. do 3 apply suffix_cons_r. apply IH. lia.
Qed.

(** Trimming the end leaves nothing or the first character. *)
Lemma trim_end_head c s : trim_end (String c s) = "" ∨ ∃ t, trim_end (String c s) = String c t.
Proof.
  unfold trim_end, rtrim. destruct (ltrim_rev_suffix (reverse (bytes (String c s)))) as [k E].
  destruct (ltrim_rev _) as [|x l] eqn:D; [by left|right].
  apply (f_equal reverse) in E. rewrite reverse_involutive, reverse_app in E.
  destruct (reverse (x :: l)) as [|y z] eqn:R.
  - by apply (f_equal length) in R; rewrite length_reverse in R.
  - simpl in E. injection E as <- _. by eexists.
Qed.

(** The first character decides that a line is no marker. *)
Lemma no_header c line m hs n :
  c ≠ "*"%char →
  (line = "" ∨ ∃ t, line = String c t) →
  handle_hunk_headers_and_end_patch line (st m hs n) = inr None.
Proof.
  intros N [->|[t ->]]; [done|]. unfold handle_hunk_headers_and_end_patch.
  assert (E : Ascii.eqb "*" c = false) by (apply Ascii.eqb_neq; congruence).
  assert (S1 : ∀ s, strip_prefix (String "*" s) (String c t) = None)
    by (intros s; cbn [strip_prefix]; by rewrite E).
  replace (String.eqb (String c t) END_PATCH_MARKER) with false
    by (symmetry; apply String.eqb_neq; intros [= ->]; done).
  unfold ADD_FILE_MARKER, DELETE_FILE_MARKER, UPDATE_FILE_MARKER. by rewrite !S1.
Qed.

Lemma added_runs added hs path contents n :
  ∃ n', runs (map (String.append "+") added) (st AddFileMode (hs ++ [AddFile path contents]) n)
    (st AddFileMode (hs ++ [AddFile path (contents +:+ contents_of added)]) n').
Proof.
  revert contents n. induction added as [|s added IH]; intros contents n.
  - exists n. simpl. by rewrite str_app_nil_r.
  - destruct (IH (contents +:+ s +:+ nl) (S n)) as [n' R]. exists n'. cbn [map].
    exists AddFileMode, (hs ++ [AddFile path (contents +:+ s +:+ nl)]), (S n).
    split; [|simpl; by rewrite <- !str_app_assoc in R; exact R].
    unfold step_line, process_line. change (next_line (st ?m ?h n)) with (st m h (S n)).
    cbn [sp_mode st]. fold (st AddFileMode (hs ++ [AddFile path contents]) (S n)).
    assert (T : ∃ t, trim ("+" +:+ s) = String "+" t).
    { unfold trim. change (bytes ("+" +:+ s)) with ("+"%char :: bytes s).
      rewrite ltrim_cons by done. change ("+"%char :: bytes s) with (bytes (String "+" s)).
      pose proof (not_blank "+" s eq_refl eq_refl) as B. unfold is_blank, trim in B.
      apply bool_decide_eq_false in B. change (bytes (String "+" s)) with ("+"%char :: bytes s) in B.
      rewrite ltrim_cons in B by done. destruct (trim_end_head "+" s) as [E|E]; [|done].
      by destruct B. }
    rewrite (no_header "+"); [|done|by right]. cbn [and_then].
    change ("+" +:+ s) with (String "+" s). cbn [sp_hunks st].
    simpl (strip_prefix _ _). rewrite last_snoc, update_last_snoc. done.
Qed.

(** A state inside an update hunk. *)
Definition upd (k : nat) (hs : list Hunk) (path : string) (move : option string)
    (cs : list UpdateFileChunk) (n : nat) : StreamingPatchParser :=
  st (UpdateFileMode k) (hs ++ [UpdateFile path move cs]) n.

Lemma update_step k hs path move cs n line cs' :
  handle_hunk_headers_and_end_patch (trim_end line) (upd k hs path move cs (S n)) = inr None →
  strip_prefix MOVE_TO_MARKER (trim_end line) = None →
  update_line_chunks line (trim_end line) (S n) cs = inr cs' →
  step_line (upd k hs path move cs n) line = inr (upd k hs path move cs' (S n)).
Proof.
  intros H M E. unfold step_line, process_line.
  change (next_line (upd k hs path move cs n)) with (upd k hs path move cs (S n)).
  cbn [upd sp_mode st]. fold (upd k hs path move cs (S n)). rewrite H. cbn [and_then].
  change (sp_hunks (upd k hs path move cs (S n))) with (hs ++ [UpdateFile path move cs]).
  rewrite last_snoc, M.
  assert (R : (let? chunks' := update_line_chunks line (trim_end line)
      (sp_line_number (upd k hs path move cs (S n))) cs in
    inr (set_hunks (update_last (set_chunks chunks') (hs ++ [UpdateFile path move cs]))
      (upd k hs path move cs (S n)))) = inr (upd k hs path move cs' (S n))).
  { change (sp_line_number (upd k hs path move cs (S n))) with (S n). rewrite E.
    cbn [and_then]. rewrite update_last_snoc. done. }
  destruct cs, move; exact R.
Qed.

Lemma no_move c line : c ≠ "*"%char → (line = "" ∨ ∃ t, line = String c t) →
  strip_prefix MOVE_TO_MARKER line = None.
Proof.
  intros N [->|[t ->]]; [done|]. unfold MOVE_TO_MARKER. cbn [strip_prefix].
  by replace (Ascii.eqb "*" c) with false by (symmetry; apply Ascii.eqb_neq; congruence).
Qed.

Lemma context_trimmed o : (∀ s, o = Some s → name_ok s) → trim_end (context_text o) = context_text o.
Proof.
  intros N. destruct o as [s|]; [|done]. apply (trim_end_of_marker s "@@"). by apply N.
Qed.

(** Chunks before another one: none or a last one with lines. *)
Definition full_chunks (cs : list UpdateFileChunk) : Prop := last_chunk_empty cs = false.

Lemma context_step k hs path move cs n o :
  (∀ s, o = Some s → name_ok s) → full_chunks cs →
  step_line (upd k hs path move cs n) (context_text o) =
    inr (upd k hs path move (cs ++ [empty_chunk o]) (S n)).
Proof.
  intros N F. destruct (context_text_head o) as (t & E & _). apply update_step.
  - rewrite context_trimmed by done. apply (no_header "@"); [done|]. right. by exists t.
  - rewrite context_trimmed by done. apply (no_move "@"); [done|]. right. by exists t.
  - rewrite context_trimmed by done. unfold update_line_chunks.
    rewrite F, andb_false_r. destruct o as [s|]; [|done]. cbn [context_text].
    rewrite strip_prefix_app. done.
Qed.

Lemma trim_end_change l :
  ∃ c, (c = " " ∨ c = "+" ∨ c = "-")%char ∧ (∃ t, change_text l = String c t) ∧
       (trim_end (change_text l) = "" ∨ ∃ t, trim_end (change_text l) = String c t).
Proof.
  destruct l as [s|s|s]; [exists " "%char|exists "+"%char|exists "-"%char];
    (split; [tauto|]; split; [by eexists|apply trim_end_head]).
Qed.

Lemma change_step k hs path move cs c n l :
  step_line (upd k hs path move (cs ++ [c]) n) (change_text l) =
    inr (upd k hs path move (cs ++ [apply_change c l]) (S n)).
Proof.
  destruct (trim_end_change l) as (ch & Hc & _ & T).
  assert (N : ch ≠ "*"%char) by (by intros ->; destruct Hc as [?|[?|?]]).
  apply update_step; [by apply (no_header ch)|by apply (no_move ch)|].
  assert (U : String.eqb (trim_end (change_text l)) EMPTY_CHANGE_CONTEXT_MARKER = false ∧
    starts_with CHANGE_CONTEXT_MARKER (trim_end (change_text l)) = false ∧
    strip_prefix CHANGE_CONTEXT_MARKER (trim_end (change_text l)) = None ∧
    String.eqb (trim_end (change_text l)) EOF_MARKER = false).
  { destruct T as [->|[t ->]]; [done|]. by destruct Hc as [->|[->| ->]]. }
  destruct U as (U1 & U2 & U3 & U4). unfold update_line_chunks.
  rewrite U1, U2, U3, U4, change_text_push. cbn [orb andb].
  assert (E : ensure_chunk (cs ++ [c]) = cs ++ [c]) by (by destruct cs).
  by rewrite E, update_last_snoc, change_text_push.
Qed.

Lemma apply_change_full c l : chunk_empty (apply_change c l) = false.
Proof.
  unfold chunk_empty. destruct l; cbn [apply_change push_new push_old old_lines new_lines].
  - by destruct (old_lines c).
  - destruct (old_lines c), (new_lines c); done.
  - destruct (old_lines c); done.
Qed.

Lemma changes_runs k hs path move cs c n ls :
  ∃ n', runs (map change_text ls) (upd k hs path move (cs ++ [c]) n)
    (upd k hs path move (cs ++ [foldl apply_change c ls]) n').
Proof.
  revert c n. induction ls as [|l ls IH]; intros c n; [by exists n|].
  destruct (IH (apply_change c l) (S n)) as [n' R]. exists n'. do 3 eexists.
  split; [apply change_step|exact R].
Qed.

Lemma foldl_apply_full c ls : ls ≠ [] → chunk_empty (foldl apply_change c ls) = false.
Proof.
  intros N. destruct (exists_last N) as (k & l & ->). rewrite foldl_snoc. apply apply_change_full.
Qed.

Lemma eof_step k hs path move cs c n :
  chunk_empty c = false →
  step_line (upd k hs path move (cs ++ [c]) n) EOF_MARKER =
    inr (upd k hs path move (cs ++ [set_eof c]) (S n)).
Proof.
  intros F. apply update_step; [done|done|].
  change (trim_end EOF_MARKER) with EOF_MARKER. unfold update_line_chunks.
  unfold last_chunk_empty. by rewrite last_snoc, F, update_last_snoc.
Qed.

Lemma chunk_runs k hs path move cs n c :
  change_ok c → has_lines c = true → full_chunks cs →
  ∃ n', runs (change_lines c) (upd k hs path move cs n)
          (upd k hs path move (cs ++ [change_chunk c]) n') ∧
        full_chunks (cs ++ [change_chunk c]).
Proof.
  intros [C _] HL F. assert (N : ch_lines c ≠ []).
  { apply has_lines_length in HL. by destruct (ch_lines c). }
  pose proof (foldl_apply_full (empty_chunk (ch_context c)) _ N) as E.
  destruct (changes_runs k hs path move cs (empty_chunk (ch_context c)) (S n) (ch_lines c))
    as [n' R].
  unfold change_lines, change_chunk, full_chunks, last_chunk_empty. rewrite last_snoc.
  destruct (ch_eof c).
  - exists (S n'). split; [|done]. do 3 eexists. split; [by apply context_step|].
    eapply runs_app; [exact R|]. by apply runs_one, eof_step.
  - exists n'. split; [|done]. do 3 eexists. split; [by apply context_step|].
    by rewrite app_nil_r.
Qed.

Lemma chunks_runs k hs path move cs n l :
  Forall change_ok l → forallb has_lines l = true → full_chunks cs →
  ∃ n', runs (concat (map change_lines l)) (upd k hs path move cs n)
          (upd k hs path move (cs ++ map change_chunk l) n') ∧
        full_chunks (cs ++ map change_chunk l).
Proof.
  intros Ok. revert cs n. induction Ok as [|c l Oc Ok IH]; intros cs n A F.
  - exists n. by rewrite app_nil_r.
  - cbn [forallb] in A. apply andb_true_iff in A as [Ac A].
    destruct (chunk_runs k hs path move cs n c Oc Ac F) as (n1 & R1 & F1).
    destruct (IH _ n1 A F1) as (n2 & R2 & F2). exists n2.
    rewrite <- app_assoc in R2, F2. split; [|done]. by eapply runs_app.
Qed.

(** A first change without its context line. *)
Lemma bare_step k hs path move n l :
  step_line (upd k hs path move [] n) (change_text l) =
    inr (upd k hs path move [apply_change (empty_chunk None) l] (S n)).
Proof.
  destruct (trim_end_change l) as (ch & Hc & _ & T).
  assert (N : ch ≠ "*"%char) by (by intros ->; destruct Hc as [?|[?|?]]).
  apply update_step; [by apply (no_header ch)|by apply (no_move ch)|].
  unfold update_line_chunks.
  assert (U : String.eqb (trim_end (change_text l)) EMPTY_CHANGE_CONTEXT_MARKER = false ∧
    strip_prefix CHANGE_CONTEXT_MARKER (trim_end (change_text l)) = None ∧
    String.eqb (trim_end (change_text l)) EOF_MARKER = false).
  { destruct T as [->|[t ->]]; [done|]. by destruct Hc as [->|[->| ->]]. }
  destruct U as (U1 & U2 & U3). rewrite andb_false_r, U1, U2, U3, change_text_push.
  cbn [ensure_chunk]. change [empty_chunk None] with ([] ++ [empty_chunk None]).
  by rewrite update_last_snoc, change_text_push.
Qed.

Lemma block_runs k hs path move n bare l :
  Forall change_ok l → forallb has_lines l = true → (bare = true → bare_ok l) →
  ∃ n', runs (change_block bare l) (upd k hs path move [] n)
          (upd k hs path move (map change_chunk l) n') ∧ full_chunks (map change_chunk l).
Proof.
  intros Ok A B. destruct bare; [|by apply (chunks_runs k hs path move [])].
  specialize (B eq_refl). destruct l as [|c l]; [done|]. destruct B as [N _].
  apply Forall_cons in Ok as [_ Ok]. cbn [forallb] in A. apply andb_true_iff in A as [Ac A].
  assert (H : ∃ n1, runs (change_body c) (upd k hs path move [] n)
                      (upd k hs path move [change_chunk c] n1) ∧ full_chunks [change_chunk c]).
  { apply has_lines_length in Ac. unfold change_body, change_chunk. rewrite N.
    destruct (ch_lines c) as [|x ls]; [done|]. cbn [map app foldl].
    set (c1 := apply_change (empty_chunk None) x).
    assert (E : chunk_empty (foldl apply_change c1 ls) = false).
    { destruct ls; [apply apply_change_full|by apply foldl_apply_full]. }
    destruct (changes_runs k hs path move [] c1 (S n) ls) as [n1 R].
    destruct (ch_eof c).
    - exists (S n1). split; [|done]. do 3 eexists. split; [apply bare_step|].
      eapply runs_app; [exact R|]. by apply runs_one, (eof_step k hs path move []).
    - exists n1. split; [|done]. do 3 eexists. split; [apply bare_step|]. by rewrite app_nil_r. }
  destruct H as (n1 & R1 & F1). rewrite bare_block.
  destruct (chunks_runs k hs path move [change_chunk c] n1 l Ok A F1) as (n2 & R2 & F2).
  exists n2. split; [|done]. by eapply runs_app.
Qed.

Lemma move_step k hs path n d :
  name_ok d →
  step_line (upd k hs path None [] n) (MOVE_TO_MARKER +:+ d) = inr (upd k hs path (Some d) [] (S n)).
Proof.
  intros N. unfold step_line, process_line.
  change (next_line (upd k hs path None [] n)) with (upd k hs path None [] (S n)).
  pose proof (trim_end_of_marker d "*** Move to:" N) as T. change ("*** Move to:" +:+ " " +:+ d)
    with (MOVE_TO_MARKER +:+ d) in T.
  cbn [upd sp_mode st]. fold (upd k hs path None [] (S n)). rewrite T.
  replace (handle_hunk_headers_and_end_patch (MOVE_TO_MARKER +:+ d) _)
    with (inr None : ParseError + option StreamingPatchParser) by done.
  cbn [and_then]. change (sp_hunks (upd k hs path None [] (S n)))
    with (hs ++ [UpdateFile path None []]).
  by rewrite last_snoc, strip_prefix_app, update_last_snoc.
Qed.

(** ** Hunks and patches *)

Lemma full_closed k hs path move cs :
  cs ≠ [] → full_chunks cs → closed (UpdateFileMode k) (hs ++ [UpdateFile path move cs]).
Proof.
  intros N F. destruct (exists_last N) as (l & c & ->). exists path, move, l, c.
  rewrite last_snoc. split; [done|]. unfold full_chunks, last_chunk_empty in F.
  by rewrite last_snoc in F.
Qed.

(** The header of an update hunk and its destination. *)
Definition update_lines path (move : option string) : list string :=
  (UPDATE_FILE_MARKER +:+ path) :: match move with Some d => [MOVE_TO_MARKER +:+ d] | None => [] end.

Lemma update_header_runs m hs n path move :
  closed m hs → name_ok path → (∀ d, move = Some d → name_ok d) →
  ∃ n', runs (update_lines path move) (st m hs n) (upd (S n) hs path move [] n').
Proof.
  intros C N M. destruct move as [d|]; [exists (S (S n))|exists (S n)]; unfold update_lines.
  - do 3 eexists. split; [by apply update_header|]. by apply runs_one, move_step, M.
  - by apply runs_one, update_header.
Qed.

Lemma update_hunk_lines path move bare cs :
  hunk_lines (Update_hunk path move bare cs) = update_lines path move ++ change_block bare cs.
Proof. by destruct move. Qed.

Lemma hunk_runs m hs n h :
  closed m hs → hunk_ok h → hunk_accepted h = true →
  ∃ m' n', runs (hunk_lines h) (st m hs n) (st m' (hs ++ [hunk_of h]) n') ∧
           closed m' (hs ++ [hunk_of h]).
Proof.
  intros C Ok A. destruct h as [path added|path|path move bare cs];
    [cbn [hunk_lines hunk_of]..|rewrite update_hunk_lines; cbn [hunk_of]].
  - destruct Ok as [N _]. destruct (added_runs added hs path "" (S n)) as [n' R].
    exists AddFileMode, n'. split; [|simpl; rewrite last_snoc; eauto].
    do 3 eexists. split; [by apply add_header|exact R].
  - exists DeleteFileMode, (S n). split; [|simpl; rewrite last_snoc; eauto].
    by apply runs_one, delete_header.
  - destruct Ok as (N & M & F & B). apply accepted_changes in A as [NE A].
    destruct (update_header_runs m hs n path move C N M) as [n1 R1].
    destruct (block_runs (S n) hs path move n1 bare cs F A B) as (n2 & R2 & Fu).
    exists (UpdateFileMode (S n)), n2. split; [by eapply runs_app|].
    apply full_closed; [by destruct cs|done].
Qed.

Lemma hunks_runs m hs n l :
  closed m hs → Forall hunk_ok l → forallb hunk_accepted l = true →
  ∃ m' n', runs (concat (map hunk_lines l)) (st m hs n) (st m' (hs ++ map hunk_of l) n') ∧
           closed m' (hs ++ map hunk_of l).
Proof.
  intros C Ok. revert m hs n C. induction Ok as [|h l Oh Ok IH]; intros m hs n C A.
  - exists m, n. by rewrite app_nil_r.
  - cbn [forallb] in A. apply andb_true_iff in A as [Ah A].
    destruct (hunk_runs m hs n h C Oh Ah) as (m1 & n1 & R1 & C1).
    destruct (IH m1 _ n1 C1 A) as (m2 & n2 & R2 & C2). exists m2, n2.
    rewrite <- app_assoc in R2, C2. split; [|done]. by eapply runs_app.
Qed.

(** ** Hunks that are refused *)

(** A line at which the parser fails, also when it is the last one and has no
    line feed. *)
Definition refuses (q : StreamingPatchParser) (s : string) : Prop :=
  (∃ e, step_line q s = inl e) ∧
  (s = END_PATCH_MARKER → ∃ e, fst (patch_finish (set_buffer (bytes s) q)) = inl e).

(** An update hunk without a chunk, or whose last chunk has no line, cannot be
    followed by a hunk or the end. *)
Definition unfinished (cs : list UpdateFileChunk) : Prop := cs = [] ∨ last_chunk_empty cs = true.

Lemma unfinished_ensure k hs path move cs n line :
  unfinished cs → ∃ e, ensure_update_hunk_is_not_empty line (upd k hs path move cs n) = inl e.
Proof.
  intros U. unfold ensure_update_hunk_is_not_empty. cbn [upd sp_hunks st sp_mode]. rewrite last_snoc.
  destruct U as [->|U]; [by eexists|].
  destruct cs as [|c cs]; [done|]. rewrite U. destruct (String.eqb _ _); by eexists.
Qed.

(** The header of a hunk. *)
Definition header_line (s : string) : Prop := ∃ path,
  name_ok path ∧ (s = ADD_FILE_MARKER +:+ path ∨ s = DELETE_FILE_MARKER +:+ path ∨
                  s = UPDATE_FILE_MARKER +:+ path).

Lemma header_line_trim s : header_line s → trim_end s = s.
Proof.
  intros (path & N & [->|[->| ->]]).
  - by apply (trim_end_of_marker path "*** Add File:").
  - by apply (trim_end_of_marker path "*** Delete File:").
  - by apply (trim_end_of_marker path "*** Update File:").
Qed.

Lemma update_mode_step k hs path move cs n line e :
  handle_hunk_headers_and_end_patch (trim_end line) (upd k hs path move cs (S n)) = inl e →
  step_line (upd k hs path move cs n) line = inl e.
Proof.
  intros H. unfold step_line, process_line.
  change (next_line (upd k hs path move cs n)) with (upd k hs path move cs (S n)).
  cbn [upd sp_mode st]. fold (upd k hs path move cs (S n)). by rewrite H.
Qed.

Lemma header_refused k hs path move cs n s :
  unfinished cs → header_line s → refuses (upd k hs path move cs n) s.
Proof.
  intros U H. pose proof (header_line_trim s H) as T.
  split; [|destruct H as (q & _ & [->|[->| ->]]); done].
  destruct (unfinished_ensure k hs path move cs (S n) s U) as [e E]. exists e.
  apply update_mode_step. rewrite T. unfold handle_hunk_headers_and_end_patch.
  destruct H as (q & _ & [->|[->| ->]]); rewrite strip_prefix_app; simpl in E |- *; by rewrite E.
Qed.

Lemma end_refused k hs path move cs n :
  unfinished cs → refuses (upd k hs path move cs n) END_PATCH_MARKER.
Proof.
  intros U. destruct (unfinished_ensure k hs path move cs (S n) END_PATCH_MARKER U) as [e E].
  split; [|intros _]; exists e.
  - apply update_mode_step. unfold handle_hunk_headers_and_end_patch.
    change (trim_end END_PATCH_MARKER) with END_PATCH_MARKER. by rewrite String.eqb_refl, E.
  - unfold patch_finish, finish_buffer.
    change (sp_line_buffer (set_buffer (bytes END_PATCH_MARKER) (upd k hs path move cs n)))
      with (bytes END_PATCH_MARKER).
    destruct (bytes END_PATCH_MARKER) as [|c l] eqn:Eb; [done|]. rewrite <- Eb, of_bytes_bytes.
    change (next_line (set_buffer _ _)) with (upd k hs path move cs (S n)).
    change (String.eqb (trim END_PATCH_MARKER) END_PATCH_MARKER) with true. cbn iota.
    change (trim END_PATCH_MARKER) with END_PATCH_MARKER. by rewrite E.
Qed.

(** A second context line, or the end of the file, after a context line. *)
Lemma update_line_refused k hs path move cs n line e :
  last_chunk_empty cs = true →
  handle_hunk_headers_and_end_patch (trim_end line) (upd k hs path move cs (S n)) = inr None →
  update_line_chunks line (trim_end line) (S n) cs = inl e →
  step_line (upd k hs path move cs n) line = inl e.
Proof.
  intros L H E. unfold step_line, process_line.
  change (next_line (upd k hs path move cs n)) with (upd k hs path move cs (S n)).
  cbn [upd sp_mode st]. fold (upd k hs path move cs (S n)). rewrite H. cbn [and_then].
  change (sp_hunks (upd k hs path move cs (S n))) with (hs ++ [UpdateFile path move cs]).
  rewrite last_snoc.
  change (sp_line_number (upd k hs path move cs (S n))) with (S n). rewrite E.
  destruct cs as [|c cs]; [done|]. by destruct move.
Qed.

Lemma context_refused k hs path move cs n o :
  (∀ s, o = Some s → name_ok s) → last_chunk_empty cs = true →
  refuses (upd k hs path move cs n) (context_text o).
Proof.
  intros N U. destruct (context_text_head o) as (t & Et & _).
  split; [|intros E; by rewrite Et in E].
  eexists. apply update_line_refused; [done|..]; rewrite context_trimmed by done.
  - apply (no_header "@"); [done|]. right. by exists t.
  - unfold update_line_chunks. rewrite U. destruct o as [s|]; [|done].
    unfold starts_with. cbn [context_text]. by rewrite strip_prefix_app.
Qed.

Lemma eof_refused k hs path move cs n :
  last_chunk_empty cs = true → refuses (upd k hs path move cs n) EOF_MARKER.
Proof.
  intros U. split; [|done]. eexists. apply update_line_refused; [done|done|].
  change (trim_end EOF_MARKER) with EOF_MARKER. unfold update_line_chunks. rewrite U.
  rewrite andb_true_r. reflexivity.
Qed.

(** *** Where a refused patch fails *)

(** The lines lead to one that is refused. *)
Definition fails (ls : list string) (p : StreamingPatchParser) : Prop :=
  ∃ ls1 s ls2 m hs n, ls = ls1 ++ s :: ls2 ∧ runs ls1 p (st m hs n) ∧ refuses (st m hs n) s.

Lemma fails_app ls ls' p m hs n : runs ls p (st m hs n) → fails ls' (st m hs n) → fails (ls ++ ls') p.
Proof.
  intros R (ls1 & s & ls2 & m' & hs' & n' & -> & R' & F). exists (ls ++ ls1), s, ls2, m', hs', n'.
  rewrite <- app_assoc. split; [done|]. split; [by eapply runs_app|done].
Qed.

Lemma fails_here s ls m hs n : refuses (st m hs n) s → fails (s :: ls) (st m hs n).
Proof. intros F. by exists [], s, ls, m, hs, n. Qed.

Lemma hunk_header h : hunk_ok h → ∃ s ls, hunk_lines h = s :: ls ∧ header_line s.
Proof.
  destruct h as [path added|path|path move bare cs]; intros Ok; do 2 eexists; (split; [reflexivity|]);
    exists path; [destruct Ok|..|destruct Ok]; tauto.
Qed.

(** What follows an unfinished hunk is refused. *)
Lemma unfinished_fails k hs path move cs n l :
  unfinished cs → Forall hunk_ok l →
  fails (concat (map hunk_lines l) ++ [END_PATCH_MARKER]) (upd k hs path move cs n).
Proof.
  intros U F. destruct F as [|h l Oh _]; [by apply fails_here, end_refused|].
  cbn [map concat]. destruct (hunk_header h Oh) as (s & ls & -> & H).
  by apply fails_here, header_refused.
Qed.

Lemma empty_chunk_fails k hs path move cs n c k' l :
  Forall change_ok (c :: k') → has_lines c = false → full_chunks cs → Forall hunk_ok l →
  fails (concat (map change_lines (c :: k')) ++ concat (map hunk_lines l) ++ [END_PATCH_MARKER])
    (upd k hs path move cs n).
Proof.
  intros [[C _] F]%Forall_cons E Fu Fl. cbn [map concat]. unfold change_lines at 1.
  unfold has_lines in E. apply negb_false_iff, bool_decide_eq_true, length_zero_iff_nil in E.
  rewrite E. cbn [map app].
  assert (L : last_chunk_empty (cs ++ [empty_chunk (ch_context c)]) = true)
    by (unfold last_chunk_empty; by rewrite last_snoc).
  apply (fails_app [context_text (ch_context c)] _ _ (UpdateFileMode k)
    (hs ++ [UpdateFile path move (cs ++ [empty_chunk (ch_context c)])]) (S n));
    [by apply runs_one, context_step|].
  destruct (ch_eof c); cbn [app]; [by apply fails_here, eof_refused|].
  destruct F as [|d k' [Cd _] _]; cbn [map concat app]; [by apply unfinished_fails; [right|]|].
  unfold change_lines at 1. cbn [app]. by apply fails_here, context_refused.
Qed.

Lemma hunk_fails m hs n h l :
  closed m hs → hunk_ok h → hunk_accepted h = false → Forall hunk_ok l →
  fails (hunk_lines h ++ concat (map hunk_lines l) ++ [END_PATCH_MARKER]) (st m hs n).
Proof.
  intros C Ok A Fl. destruct h as [path added|path|path move bare cs]; try done.
  destruct Ok as (N & M & F & B). rewrite update_hunk_lines, <- app_assoc.
  destruct (update_header_runs m hs n path move C N M) as [n1 R1].
  eapply fails_app; [exact R1|]. destruct cs as [|c0 cs0].
  - assert (bare = false) as -> by (destruct bare; [by destruct (B eq_refl)|done]).
    change (change_block false []) with (@nil string). by apply unfinished_fails; [left|].
  - cbn [hunk_accepted] in A. assert (A' : forallb has_lines (c0 :: cs0) = false)
      by (by destruct (forallb has_lines (c0 :: cs0))).
    apply first_empty in A' as (k & c & k' & E & Ak & Ac). rewrite E in *.
    destruct (change_block_split bare k c k' B Ac) as [-> Bk]. rewrite <- app_assoc.
    apply Forall_app in F as [Fk F].
    destruct (block_runs (S n) hs path move n1 bare k Fk Ak Bk) as (n2 & R2 & Fu).
    eapply fails_app; [exact R2|]. by apply empty_chunk_fails.
Qed.

Lemma hunks_fail m hs n l :
  closed m hs → Forall hunk_ok l → forallb hunk_accepted l = false →
  fails (concat (map hunk_lines l) ++ [END_PATCH_MARKER]) (st m hs n).
Proof.
  intros C F (k & h & k' & -> & Ak & Ah)%first_rejected.
  apply Forall_app in F as [Fk F]. apply Forall_cons in F as [Fh F].
  destruct (hunks_runs m hs n k C Fk Ak) as (m1 & n1 & R & C1).
  rewrite map_app, concat_app, <- app_assoc. eapply fails_app; [exact R|].
  cbn [map concat]. rewrite <- app_assoc. by apply hunk_fails.
Qed.

(** The lines before the hunks. *)
Lemma preamble_runs p :
  patch_ok p →
  ∃ n, runs (BEGIN_PATCH_MARKER :: environment_lines (p_environment p)) StreamingPatchParser_default
         (st StartedPatch [] n).
Proof.
  intros [Oe _]. destruct (p_environment p) as [e|].
  - exists 2. exists StartedPatch, [], 1. split; [done|]. apply runs_one.
    unfold step_line, process_line. cbn [next_line sp_mode st].
    unfold is_environment_id_preamble_line, starts_with.
    by rewrite strip_prefix_app.
  - exists 1. by exists StartedPatch, [], 1.
Qed.

(** Everything up to the end marker. *)
Lemma patch_runs p :
  patch_ok p → patch_accepted p = true →
  ∃ m n, runs (BEGIN_PATCH_MARKER :: patch_body p) StreamingPatchParser_default
           (st m (map hunk_of (p_hunks p)) n) ∧
         closed m (map hunk_of (p_hunks p)).
Proof.
  intros Ok A. destruct (preamble_runs p Ok) as [n E].
  destruct (hunks_runs StartedPatch [] n (p_hunks p) eq_refl (po_hunks p Ok) A) as (m & n' & R & C).
  exists m, n'. split; [|done]. unfold patch_body. rewrite app_comm_cons. by eapply runs_app.
Qed.

Lemma patch_fails p :
  patch_ok p → patch_accepted p = false → fails (patch_lines p) StreamingPatchParser_default.
Proof.
  intros Ok A. destruct (preamble_runs p Ok) as [n E]. unfold patch_lines, patch_body.
  rewrite <- app_assoc, app_comm_cons. eapply fails_app; [exact E|].
  apply hunks_fail; [done|by apply po_hunks|done].
Qed.

Lemma end_step m hs n :
  closed m hs → step_line (st m hs n) END_PATCH_MARKER = inr (st EndedPatch hs (S n)).
Proof.
  intros C. apply header_step; try done. unfold handle_hunk_headers_and_end_patch.
  rewrite String.eqb_refl. by rewrite closed_ensure.
Qed.

Lemma end_buffer_step m hs n :
  closed m hs →
  fst (patch_finish (set_buffer (bytes END_PATCH_MARKER) (st m hs n))) = inr hs.
Proof.
  intros C. unfold patch_finish, finish_buffer.
  change (sp_line_buffer (set_buffer (bytes END_PATCH_MARKER) (st m hs n)))
    with (bytes END_PATCH_MARKER).
  destruct (bytes END_PATCH_MARKER) as [|c l] eqn:E; [done|]. rewrite <- E, of_bytes_bytes.
  change (next_line (set_buffer _ _)) with (st m hs (S n)).
  change (String.eqb (trim END_PATCH_MARKER) END_PATCH_MARKER) with true. cbn iota.
  by rewrite closed_ensure.
Qed.

Lemma patch_streamed (p : patch) (ds : list (list ascii)) :
  patch_ok p → patch_accepted p = true →
  concat ds = bytes (patch_text p) ∨ concat ds = bytes (patch_text p) ++ [newline] →
  push_deltas ds StreamingPatchParser_default = inr (map hunk_of (p_hunks p)).
Proof.
  intros Ok A Ed.
  rewrite push_deltas_concat. destruct (patch_runs p Ok A) as (m & n & R & C).
  pose proof (patch_lines_ok p Ok) as L. unfold patch_lines in L.
  rewrite app_comm_cons in L. apply Forall_app in L as [L1 L2].
  pose proof (push_runs _ _ _ _ _ L1 R) as P. change (st NotStarted [] 0)
    with StreamingPatchParser_default in P.
  assert (T : bytes (patch_text p) = text_of (BEGIN_PATCH_MARKER :: patch_body p) ++
    bytes END_PATCH_MARKER).
  { unfold patch_text, patch_lines. rewrite app_comm_cons. apply bytes_join_lines. }
  inversion L2 as [|? ? Le _]; subst. rewrite T in Ed. destruct Ed as [->| ->].
  - rewrite push_chars_app, P, push_chars_buffer by apply Le. by apply end_buffer_step.
  - rewrite <- app_assoc, push_chars_app, P.
    by rewrite (push_line _ _ _ _ _ Le (end_step m _ n C)).
Qed.

Lemma push_line_fails s m hs n e rest :
  line_ok s → step_line (st m hs n) s = inl e →
  ∃ q, push_chars (st m hs n) (bytes s ++ newline :: rest) = (inl e, q).
Proof.
  intros [N C] E. rewrite push_chars_app, push_chars_buffer by done. cbn [push_chars].
  unfold push_char. rewrite Ascii.eqb_refl.
  change (sp_line_buffer (set_buffer _ _)) with (sp_line_buffer (st m hs n) ++ bytes s).
  cbn [sp_line_buffer st app]. rewrite C, of_bytes_bytes.
  change (next_line (set_buffer _ _)) with (next_line (st m hs n)).
  unfold step_line in E. rewrite E. by eexists.
Qed.

Lemma patch_stream_fails (p : patch) (ds : list (list ascii)) :
  patch_ok p → patch_accepted p = false →
  concat ds = bytes (patch_text p) ∨ concat ds = bytes (patch_text p) ++ [newline] →
  ∃ e, push_deltas ds StreamingPatchParser_default = inl e.
Proof.
  intros Ok A Ed. rewrite push_deltas_concat.
  destruct (patch_fails p Ok A) as (ls1 & s & ls2 & m & hs & n & E & R & [e Es] & Fin).
  pose proof (patch_lines_ok p Ok) as L. rewrite E in L. apply Forall_app in L as [L1 L2].
  inversion L2 as [|? ? Ls L3]; subst.
  pose proof (push_runs _ _ _ _ _ L1 R) as P. change (st NotStarted [] 0)
    with StreamingPatchParser_default in P.
  destruct (decide (ls2 = [])) as [->|N2].
  - assert (Es' : s = END_PATCH_MARKER).
    { unfold patch_lines in E. rewrite app_comm_cons in E. by apply app_inj_tail in E as [_ <-]. }
    assert (T : bytes (patch_text p) = text_of ls1 ++ bytes s)
      by (unfold patch_text; rewrite E; apply bytes_join_lines).
    rewrite T in Ed. destruct Ed as [->| ->].
    + rewrite push_chars_app, P, push_chars_buffer by apply Ls. by apply Fin.
    + rewrite <- app_assoc, push_chars_app, P.
      destruct (push_line_fails _ _ _ _ _ [] Ls Es) as [q ->]. by eexists.
  - destruct (exists_last N2) as (ls3 & t & ->).
    assert (T : bytes (patch_text p) = text_of ls1 ++ bytes s ++ newline :: text_of ls3 ++ bytes t).
    { unfold patch_text. rewrite E, (cons_middle s ls1), app_assoc, app_assoc, bytes_join_lines.
      unfold text_of. rewrite !map_app, !concat_app. simpl. rewrite app_nil_r, <- !app_assoc. done. }
    assert (Ed' : ∃ rest, concat ds = text_of ls1 ++ bytes s ++ newline :: rest).
    { rewrite T in Ed. destruct Ed as [->| ->]; eexists; [done|]. by rewrite <- !app_assoc. }
    destruct Ed' as [rest ->]. rewrite push_chars_app, P.
    destruct (push_line_fails _ _ _ _ _ rest Ls Es) as [q ->]. by eexists.
Qed.
