(* ===== verification/ExecFs.v ===== *)
(** * Absolute paths and the executor's file system *)

From S2P Require Import Prelude RustStr FsModel StreamText.

(** * utils/absolute-path: absolute paths

    [AbsolutePathBuf] of [codex-rs/utils/absolute-path] on Unix: a normalised
    absolute path is the list of its components.  The home directory, which
    [dirs::home_dir] finds, is a parameter. *)

(** [maybe_expand_home_directory]. *)
Definition maybe_expand_home_directory (home : option string) (p : string) : string :=
  match home, p with
  | Some h, String "~" "" => h
  | Some h, String "~" (String "/" rest) => h +:+ "/" +:+ trim_start_char "/" rest
  | _, _ => p
  end.

(** [normalize_path]: [.] components vanish, [..] removes the last component
    (and nothing at the root). *)
Definition normalize_step (normalized : path) (component : string) : path :=
  if String.eqb component ".." then removelast normalized else normalized ++ [component].
Definition normalize_path (p : path) : path := foldl normalize_step [] p.

(** [path_with_base]. *)
Definition path_with_base (p : string) (base : path) : path := FsModel.join base p.

Definition absolutize_from (p : string) (base : path) : path :=
  normalize_path (path_with_base p base).

Definition resolve_path_against_base (home : option string) (p : string) (base : path) : path :=
  absolutize_from (maybe_expand_home_directory home p) base.

(** [AbsolutePathBuf::from_absolute_path]: a relative path is resolved against
    the current directory of the process, when there is one. *)
Definition absolutize (current_dir : option path) (p : string) : option path :=
  if is_absolute p then Some (normalize_path (comps p))
  else absolutize_from p <$> current_dir.
Definition from_absolute_path (home : option string) (current_dir : option path) (p : string)
  : option path :=
  absolutize current_dir (maybe_expand_home_directory home p).

(** What a process finds in its environment: the home directory, the current
    directory, when there is one, and [TMPDIR]. *)
Class ProcessEnv := {
  env_home : option string;
  env_current_dir : option path;
  env_tmpdir : option string
}.

(** [AbsolutePathBuf::parent]. *)
Definition abs_parent (p : path) : option path := FsModel.parent p.

(** ** A resolved path has no [..] left *)

Lemma normalize_no_dotdot p : no_dotdot (normalize_path p).
Proof.
  unfold normalize_path, no_dotdot.
  assert (H : ∀ q, Forall (λ c, c ≠ "..") q → Forall (λ c, c ≠ "..") (foldl normalize_step q p)).
  { induction p as [|c p IH]; intros q F; [done|]. simpl. apply IH. unfold normalize_step.
    destruct (String.eqb_spec c "..") as [|N].
    - destruct q as [|d q] using rev_ind; [done|]. rewrite removelast_last.
      by apply Forall_app in F as [F _].
    - apply Forall_app. split; [done|]. by constructor. }
  by apply H.
Qed.

Lemma normalize_id p : no_dotdot p → normalize_path p = p.
Proof.
  unfold normalize_path, no_dotdot.
  assert (H : ∀ q, Forall (λ c, c ≠ "..") p → foldl normalize_step q p = q ++ p).
  { induction p as [|c p IH]; intros q F; [by rewrite app_nil_r|]. simpl.
    inversion F as [|? ? N F']; subst. unfold normalize_step at 2.
    destruct (String.eqb_spec c "..") as [|_]; [done|]. by rewrite IH, <- app_assoc. }
  by apply H.
Qed.

Lemma normalize_path_idemp p : normalize_path (normalize_path p) = normalize_path p.
Proof. apply normalize_id, normalize_no_dotdot. Qed.

(** * file-system, exec-server: the executor's file system

    The trait [ExecutorFileSystem] of [codex-rs/file-system] is a class over
    the state of a file system; [DirectFileSystem] of
    [codex-rs/exec-server] implements it on the file system of the model.  A
    sandbox context is opaque here: the direct file system only asks whether
    there is one. *)

Record io_error := { ek : io_kind; etext : string }.

(** An error of the operating system. *)
Definition os_error (k : io_kind) : io_error := {| ek := k; etext := io_message k |}.

Record FileMetadata := { is_directory : bool; is_file : bool; is_symlink : bool }.

(** The operations that the verified callers use.  Times are left out of the
    metadata. *)
Class ExecutorFileSystem (Ctx F : Type) := {
  read_file : path → option Ctx → F → io_error + string;
  write_file : path → string → option Ctx → F → (io_error + unit) * F;
  create_directory : path → bool → option Ctx → F → (io_error + unit) * F;
  get_metadata : path → option Ctx → F → io_error + FileMetadata;
  remove : path → bool → bool → option Ctx → F → (io_error + unit) * F
}.

(** The text of [Utf8Error]. *)
Definition utf8_error_text (s : string) : string :=
  match from_utf8 (bytes s) with
  | Valid => ""
  | Invalid up (Some n) =>
      "invalid utf-8 sequence of " +:+ pretty n +:+ " bytes from index " +:+ pretty up
  | Invalid up None => "incomplete utf-8 byte sequence from index " +:+ pretty up
  end.

(** [read_file_text]: the default method. *)
Definition read_file_text {Ctx F : Type} `{ExecutorFileSystem Ctx F}
    (p : path) (sandbox : option Ctx) (fs : F) : io_error + string :=
  let? s := read_file p sandbox fs in
  if utf8_valid s then inr s else inl {| ek := InvalidData; etext := utf8_error_text s |}.

(** ** DirectFileSystem *)

Definition MAX_READ_FILE_BYTES : N := 512 * 1024 * 1024.

Section direct.
Context {Ctx : Type}.
Implicit Types (sandbox : option Ctx) (fs : fsys).

Definition reject_sandbox_context sandbox : io_error + unit :=
  match sandbox with
  | Some _ => inl {| ek := InvalidInput;
                     etext := "direct filesystem operations do not accept sandbox context" |}
  | None => inr tt
  end.

(** An effect of [std::fs], which changes nothing when it fails. *)
Definition run_fs (r : io_kind + fsys) fs : (io_error + unit) * fsys :=
  match r with inl k => (inl (os_error k), fs) | inr fs' => (inr tt, fs') end.

Definition with_context sandbox (r : (io_error + unit) * fsys) fs : (io_error + unit) * fsys :=
  match reject_sandbox_context sandbox with inl e => (inl e, fs) | inr _ => r end.

(** The size the metadata of an open file reports. *)
Definition direct_read_file (p : path) sandbox fs : io_error + string :=
  let? _ := reject_sandbox_context sandbox in
  match stat fs p with
  | inl k => inl (os_error k)
  | inr (_, n) =>
      let too_large :=
        match n with
        | File s => (MAX_READ_FILE_BYTES <? N.of_nat (String.length s))%N
        | _ => false
        end in
      if too_large then
        inl {| ek := InvalidInput; etext := "file is too large to read: limit is " +:+
                 pretty MAX_READ_FILE_BYTES +:+ " bytes" |}
      else map_err os_error (fs_read fs p)
  end.

Definition direct_write_file (p : path) (s : string) sandbox fs : (io_error + unit) * fsys :=
  with_context sandbox (run_fs (fs_write fs p s) fs) fs.

(** [fs::create_dir]. *)
Definition fs_create_dir fs (p : path) : io_kind + fsys :=
  match lresolve fs p with
  | inl k => inl k
  | inr q => match look fs q with Some _ => inl AlreadyExists | None => inr (<[q := Dir]> fs) end
  end.

Definition direct_create_directory (p : path) (recursive : bool) sandbox fs
  : (io_error + unit) * fsys :=
  with_context sandbox
    (run_fs (if recursive then fs_create_dir_all fs p else fs_create_dir fs p) fs) fs.

Definition direct_get_metadata (p : path) sandbox fs : io_error + FileMetadata :=
  let? _ := reject_sandbox_context sandbox in
  match stat fs p with
  | inl k => inl (os_error k)
  | inr (_, n) =>
      match lstat fs p with
      | inl k => inl (os_error k)
      | inr l =>
          inr {| is_directory := bool_decide (n = Dir);
                 is_file := match n with File _ => true | _ => false end;
                 is_symlink := match l with Link _ => true | _ => false end |}
      end
  end.

(** Nothing lies below [q]. *)
Definition dir_empty fs (q : path) : bool :=
  forallb (λ e, match strip_path q (fst e) with Some (_ :: _) => false | _ => true end)
    (map_to_list fs).

(** [fs::remove_dir]: only an empty directory can be removed. *)
Definition fs_remove_dir fs (p : path) : io_kind + fsys :=
  match lresolve fs p with
  | inl k => inl k
  | inr q =>
      match look fs q with
      | None => inl NotFound
      | Some Dir => if dir_empty fs q then inr (delete q fs) else inl OtherIo
      | Some _ => inl NotADirectory
      end
  end.

(** [fs::remove_dir_all]. *)
Definition fs_remove_dir_all fs (p : path) : io_kind + fsys :=
  match lresolve fs p with
  | inl k => inl k
  | inr q =>
      match look fs q with
      | None => inl NotFound
      | Some Dir =>
          inr (filter (λ e, strip_path q (fst e) = None) fs)
      | Some _ => inl NotADirectory
      end
  end.

Definition direct_remove (p : path) (recursive force : bool) sandbox fs
  : (io_error + unit) * fsys :=
  with_context sandbox
    match lstat fs p with
    | inr Dir => run_fs (if recursive then fs_remove_dir_all fs p else fs_remove_dir fs p) fs
    | inr _ => run_fs (fs_remove_file fs p) fs
    | inl NotFound => if force then (inr tt, fs) else (inl (os_error NotFound), fs)
    | inl k => (inl (os_error k), fs)
    end fs.

#[global] Instance DirectFileSystem : ExecutorFileSystem Ctx fsys := {|
  read_file := direct_read_file;
  write_file := direct_write_file;
  create_directory := direct_create_directory;
  get_metadata := direct_get_metadata;
  remove := direct_remove |}.
End direct.
