(* ===== verification/Permissions.v ===== *)
(** * protocol: file-system permissions

    [permissions.rs] of [codex-rs/protocol] on Unix: which paths a policy
    lets an agent read and write, with the legacy sandbox policies of
    [protocol.rs].  The environment of the process and the file system are
    parameters of what reads them; the glob compiler ([globset]) is one, too.
    Texts are UTF-8, so [to_str] and the lossy conversions change nothing. *)

From S2P Require Import Prelude RustStr FsModel ExecFs.

(** ** std::path

    A [Path] is its components: [/] alone makes it absolute, empty components
    and [.] vanish, except a [.] at the beginning of a relative path.  Two
    paths are equal when their components are. *)

Record os_path := OsPath { os_root : bool; os_comps : list string }.

#[global] Instance os_path_eq_dec : EqDecision os_path.
Proof. solve_decision. Defined.

Definition os_of (s : string) : os_path := {|
  os_root := is_absolute s;
  os_comps := match split_char "/" s with
              | "."%string :: _ => "."%string :: comps s
              | _ => comps s
              end |}.

Definition os_str (p : os_path) : string :=
  (if os_root p then "/" else "") +:+ join_with "/" (os_comps p).

(** [AbsolutePathBuf::as_path]. *)
Definition as_path (p : path) : os_path := OsPath true p.

(** [Path::strip_prefix] and [Path::starts_with]. *)
Definition os_strip_prefix (r p : os_path) : option (list string) :=
  if Bool.eqb (os_root r) (os_root p) then strip_path (os_comps r) (os_comps p) else None.
Definition path_starts_with (r p : path) : bool :=
  match strip_path r p with Some _ => true | None => false end.
Definition os_starts_with (r p : os_path) : bool :=
  match os_strip_prefix r p with Some _ => true | None => false end.

(** [Path::ancestors]: the path, its parent, and so on to the root. *)
Fixpoint ancestors_go (n : nat) (p : path) : list path :=
  take n p :: match n with O => [] | S m => ancestors_go m p end.
Definition ancestors (p : path) : list path := ancestors_go (length p) p.

(** [Path::cmp]. *)
Fixpoint path_leb (p q : path) : bool :=
  match p, q with
  | [], _ => true
  | _ :: _, [] => false
  | c :: p', d :: q' => if String.eqb c d then path_leb p' q' else String.leb c d
  end.

(** [Iterator::max_by_key]: of equal keys the last one counts. *)
Definition max_by_key {A : Type} (le : A → A → bool) (l : list A) : option A :=
  foldl (λ acc x, match acc with
                  | None => Some x
                  | Some y => Some (if le y x then x else y)
                  end) None l.

(** [Vec::dedup]. *)
Fixpoint dedup_adjacent {A : Type} `{EqDecision A} (l : list A) : list A :=
  match l with
  | x :: ((y :: _) as l') =>
      if decide (x = y) then dedup_adjacent l' else x :: dedup_adjacent l'
  | _ => l
  end.

(** [push_unique], and pushing what a vector does not contain. *)
Definition push_unique {A : Type} `{EqDecision A} (l : list A) (x : A) : list A :=
  if bool_decide (x ∈ l) then l else l ++ [x].

(** ** Policies *)

Definition PROTECTED_METADATA_PATH_NAMES : list string := [".git"; ".agents"; ".codex"].

Definition is_protected_metadata_name (name : string) : bool :=
  existsb (String.eqb name) PROTECTED_METADATA_PATH_NAMES.
Definition is_protected_metadata_directory_name (name : string) : bool :=
  String.eqb name ".agents" || String.eqb name ".codex".
Definition metadata_path_name (name : string) : option string :=
  List.find (String.eqb name) PROTECTED_METADATA_PATH_NAMES.

Inductive NetworkSandboxPolicy := NetworkRestricted | NetworkEnabled.

Definition is_enabled (n : NetworkSandboxPolicy) : bool :=
  match n with NetworkEnabled => true | NetworkRestricted => false end.

(** [Read], [Write] and [None]. *)
Inductive FileSystemAccessMode := AccessRead | AccessWrite | AccessNone.

Definition can_read (a : FileSystemAccessMode) : bool :=
  match a with AccessNone => false | _ => true end.
Definition can_write (a : FileSystemAccessMode) : bool :=
  match a with AccessWrite => true | _ => false end.

(** The derived order: the conflict precedence of equally specific entries. *)
Definition access_rank (a : FileSystemAccessMode) : nat :=
  match a with AccessRead => 0 | AccessWrite => 1 | AccessNone => 2 end.

Inductive FileSystemSpecialPath :=
| Root
| Minimal
| ProjectRoots (subpath : option os_path)
| Tmpdir
| SlashTmp
| Unknown (token : string) (subpath : option os_path).

Inductive FileSystemPath :=
| PathEntry (p : path)
| GlobPattern (pattern : string)
| Special (value : FileSystemSpecialPath).

Record FileSystemSandboxEntry := Entry {
  entry_path : FileSystemPath;
  entry_access : FileSystemAccessMode
}.

Inductive FileSystemSandboxKind := Restricted | Unrestricted | ExternalSandbox.

Record FileSystemSandboxPolicy := {
  policy_kind : FileSystemSandboxKind;
  glob_scan_max_depth : option N;
  policy_entries : list FileSystemSandboxEntry
}.

Record ResolvedFileSystemEntry := Resolved {
  resolved_path : path;
  resolved_access : FileSystemAccessMode
}.

Record WritableRoot := {
  wr_root : path;
  read_only_subpaths : list path;
  protected_metadata_names : list string
}.

#[global] Instance NetworkSandboxPolicy_eq_dec : EqDecision NetworkSandboxPolicy.
Proof. solve_decision. Defined.
#[global] Instance FileSystemAccessMode_eq_dec : EqDecision FileSystemAccessMode.
Proof. solve_decision. Defined.
#[global] Instance FileSystemSpecialPath_eq_dec : EqDecision FileSystemSpecialPath.
Proof. solve_decision. Defined.
#[global] Instance FileSystemPath_eq_dec : EqDecision FileSystemPath.
Proof. solve_decision. Defined.
#[global] Instance FileSystemSandboxEntry_eq_dec : EqDecision FileSystemSandboxEntry.
Proof. solve_decision. Defined.
#[global] Instance FileSystemSandboxKind_eq_dec : EqDecision FileSystemSandboxKind.
Proof. solve_decision. Defined.
#[global] Instance FileSystemSandboxPolicy_eq_dec : EqDecision FileSystemSandboxPolicy.
Proof. solve_decision. Defined.
#[global] Instance WritableRoot_eq_dec : EqDecision WritableRoot.
Proof. solve_decision. Defined.

Implicit Types (policy : FileSystemSandboxPolicy) (entry : FileSystemSandboxEntry).

Definition is_restricted policy : bool :=
  match policy_kind policy with Restricted => true | _ => false end.

(** ** Constructors of policies *)

Definition policy_of (kind : FileSystemSandboxKind) (entries : list FileSystemSandboxEntry)
  : FileSystemSandboxPolicy := {|
  policy_kind := kind; glob_scan_max_depth := None; policy_entries := entries |}.

Definition unrestricted : FileSystemSandboxPolicy := policy_of Unrestricted [].
Definition external_sandbox : FileSystemSandboxPolicy := policy_of ExternalSandbox [].
Definition restricted (entries : list FileSystemSandboxEntry) : FileSystemSandboxPolicy :=
  policy_of Restricted entries.
Definition default_policy : FileSystemSandboxPolicy :=
  restricted [Entry (Special Root) AccessRead].

Definition set_entries (entries : list FileSystemSandboxEntry) policy
  : FileSystemSandboxPolicy := {|
  policy_kind := policy_kind policy; glob_scan_max_depth := glob_scan_max_depth policy;
  policy_entries := entries |}.
Definition push_entry policy entry : FileSystemSandboxPolicy :=
  set_entries (policy_entries policy ++ [entry]) policy.

(** ** Entries that name one target *)

Definition special_paths_share_target (left right : FileSystemSpecialPath) : bool :=
  match left, right with
  | Root, Root | Minimal, Minimal | Tmpdir, Tmpdir | SlashTmp, SlashTmp => true
  | ProjectRoots l, ProjectRoots r => bool_decide (l = r)
  | Unknown l ls, Unknown r rs => String.eqb l r && bool_decide (ls = rs)
  | _, _ => false
  end.

Definition special_path_matches_absolute_path (value : FileSystemSpecialPath) (p : path)
  : bool :=
  match value with
  | Root => match FsModel.parent p with None => true | Some _ => false end
  | SlashTmp => bool_decide (p = ["tmp"])
  | _ => false
  end.

Definition file_system_paths_share_target (left right : FileSystemPath) : bool :=
  match left, right with
  | PathEntry l, PathEntry r => bool_decide (l = r)
  | Special l, Special r => special_paths_share_target l r
  | PathEntry p, Special v | Special v, PathEntry p => special_path_matches_absolute_path v p
  | GlobPattern l, GlobPattern r => String.eqb l r
  | GlobPattern _, _ | _, GlobPattern _ => false
  end.

(** ** What a policy allows everywhere *)

Definition has_root_access policy (predicate : FileSystemAccessMode → bool) : bool :=
  is_restricted policy &&
  existsb (λ entry, match entry_path entry with
                    | Special Root => predicate (entry_access entry)
                    | _ => false
                    end) (policy_entries policy).

Definition is_deny entry : bool := bool_decide (entry_access entry = AccessNone).

Definition has_denied_read_restrictions policy : bool :=
  is_restricted policy && existsb is_deny (policy_entries policy).

Definition has_same_target_write_override policy entry : bool :=
  existsb (λ candidate,
    can_write (entry_access candidate) &&
    (access_rank (entry_access entry) <? access_rank (entry_access candidate)) &&
    file_system_paths_share_target (entry_path candidate) (entry_path entry))
    (policy_entries policy).

Definition narrows_write policy entry : bool :=
  if can_write (entry_access entry) then false else
  match entry_path entry with
  | PathEntry _ => negb (has_same_target_write_override policy entry)
  | GlobPattern _ => true
  | Special Root => is_deny entry
  | Special Minimal | Special (Unknown _ _) => false
  | Special _ => negb (has_same_target_write_override policy entry)
  end.

Definition has_write_narrowing_entries policy : bool :=
  is_restricted policy && existsb (narrows_write policy) (policy_entries policy).

Definition has_full_disk_read_access policy : bool :=
  match policy_kind policy with
  | Unrestricted | ExternalSandbox => true
  | Restricted => has_root_access policy can_read && negb (has_denied_read_restrictions policy)
  end.

Definition has_full_disk_write_access policy : bool :=
  match policy_kind policy with
  | Unrestricted | ExternalSandbox => true
  | Restricted => has_root_access policy can_write && negb (has_write_narrowing_entries policy)
  end.

Definition include_platform_defaults policy : bool :=
  negb (has_full_disk_read_access policy) && is_restricted policy &&
  existsb (λ entry, match entry_path entry with
                    | Special Minimal => can_read (entry_access entry)
                    | _ => false
                    end) (policy_entries policy).

(** ** Resolving paths *)

Definition PROJECT_ROOTS_GLOB_PATTERN_PREFIX : string := "codex-project-roots://".
Definition project_roots_glob_pattern (subpath : os_path) : string :=
  PROJECT_ROOTS_GLOB_PATTERN_PREFIX +:+ os_str subpath.
Definition parse_project_roots_glob_pattern (pattern : string) : option os_path :=
  os_of <$> strip_prefix PROJECT_ROOTS_GLOB_PATTERN_PREFIX pattern.

Section resolve.
Context `{ProcessEnv} (fs : fsys).
Implicit Types (cwd : os_path).

(** [AbsolutePathBuf::from_absolute_path], [resolve_path_against_base] and
    [join]. *)
Definition absolute (p : os_path) : option path :=
  from_absolute_path env_home env_current_dir (os_str p).
Definition resolve_against (p : os_path) (base : path) : path :=
  resolve_path_against_base env_home (os_str p) base.
Definition abs_join (base : path) (name : string) : path :=
  resolve_path_against_base env_home name base.

(** [resolve_path_against_base] for a base that may be relative. *)
Definition resolve_text_against (s : string) (base : os_path) : os_path :=
  if os_root base then as_path (resolve_path_against_base env_home s (os_comps base)) else
  let expanded := maybe_expand_home_directory env_home s in
  if is_absolute expanded then as_path (normalize_path (comps expanded)) else
  OsPath false
    match normalize_path (List.filter (λ c, negb (String.eqb c "."))
                            (os_comps base ++ comps expanded)) with
    | [] => ["."]
    | q => q
    end.

(** The root of a Unix path is [/]. *)
Definition absolute_root_path_for_cwd (cwd : path) : path := [].

Definition resolve_file_system_special_path (value : FileSystemSpecialPath) (cwd : option path)
  : option path :=
  match value with
  | Root | Minimal | Unknown _ _ => None
  | ProjectRoots subpath =>
      cwd ← cwd;
      Some match subpath with Some sub => resolve_against sub cwd | None => cwd end
  | Tmpdir =>
      tmpdir ← env_tmpdir;
      if String.eqb tmpdir "" then None else absolute (os_of tmpdir)
  | SlashTmp => if fs_is_dir fs ["tmp"] then Some ["tmp"] else None
  end.

Definition resolve_file_system_path (p : FileSystemPath) (cwd : option path) : option path :=
  match p with
  | PathEntry p => Some p
  | GlobPattern _ => None
  | Special value => resolve_file_system_special_path value cwd
  end.

Definition resolve_entry_path (p : FileSystemPath) (cwd : option path) : option path :=
  match p with
  | Special Root => absolute_root_path_for_cwd <$> cwd
  | _ => resolve_file_system_path p cwd
  end.

Definition resolve_candidate_path (p cwd : os_path) : option path :=
  if os_root p then absolute p else base ← absolute cwd; Some (resolve_against p base).

(** ** Access to a path *)

Definition resolved_entries_with_cwd policy cwd : list ResolvedFileSystemEntry :=
  omap (λ entry, (λ p, Resolved p (entry_access entry)) <$>
                 resolve_entry_path (entry_path entry) (absolute cwd))
    (policy_entries policy).

(** [resolved_entry_precedence], a pair ordered lexicographically; the root
    directory is a component of every absolute path. *)
Definition resolved_entry_precedence (e : ResolvedFileSystemEntry) : nat * nat :=
  (S (length (resolved_path e)), access_rank (resolved_access e)).
Definition precedence_leb (d e : ResolvedFileSystemEntry) : bool :=
  let '(n, a) := resolved_entry_precedence d in
  let '(m, b) := resolved_entry_precedence e in
  (n <? m) || (n =? m) && (a <=? b).

(** The access of a resolved path. *)
Definition access_of (entries : list ResolvedFileSystemEntry) (p : path)
  : FileSystemAccessMode :=
  match max_by_key precedence_leb
          (List.filter (λ e, path_starts_with (resolved_path e) p) entries) with
  | Some e => resolved_access e
  | None => AccessNone
  end.

Definition resolve_access_with_cwd policy (p : os_path) cwd : FileSystemAccessMode :=
  match policy_kind policy with
  | Unrestricted | ExternalSandbox => AccessWrite
  | Restricted =>
      match resolve_candidate_path p cwd with
      | None => AccessNone
      | Some p => access_of (resolved_entries_with_cwd policy cwd) p
      end
  end.

Definition can_read_path_with_cwd policy (p : os_path) cwd : bool :=
  can_read (resolve_access_with_cwd policy p cwd).

(** ** Workspace metadata *)

(** The first writable entry that has [target] below one of its protected
    names. *)
Definition metadata_child_of (target : path) (e : ResolvedFileSystemEntry)
  : option (path * string) :=
  if negb (can_write (resolved_access e)) then None else
  relative_path ← strip_path (resolved_path e) target;
  first_component ← head relative_path;
  metadata_name ← metadata_path_name first_component;
  Some (abs_join (resolved_path e) metadata_name, metadata_name).

Definition metadata_child_of_writable_root policy (target : path) cwd : option (path * string) :=
  head (omap (metadata_child_of target) (resolved_entries_with_cwd policy cwd)).

Definition has_explicit_write_entry_for_metadata_path policy
    (protected_metadata_path target : path) cwd : bool :=
  existsb (λ e, can_write (resolved_access e) && path_starts_with (resolved_path e) target &&
                path_starts_with protected_metadata_path (resolved_path e))
    (resolved_entries_with_cwd policy cwd).

Definition is_metadata_write_denied policy (p : os_path) cwd : bool :=
  is_restricted policy &&
  match resolve_candidate_path p cwd with
  | None => true
  | Some target =>
      match metadata_child_of_writable_root policy target cwd with
      | None => false
      | Some (protected_metadata_path, _) =>
          negb (has_explicit_write_entry_for_metadata_path policy protected_metadata_path
                  target cwd)
      end
  end.

Definition can_write_path_with_cwd policy (p : os_path) cwd : bool :=
  can_write (resolve_access_with_cwd policy p cwd) &&
  (has_full_disk_write_access policy || negb (is_metadata_write_denied policy p cwd)).

Definition forbidden_agent_metadata_write (p : os_path) cwd policy : option string :=
  if negb (is_restricted policy) then None else
  target ← resolve_candidate_path p cwd;
  '(protected_metadata_path, metadata_name) ←
    metadata_child_of_writable_root policy target cwd;
  if has_explicit_write_entry_for_metadata_path policy protected_metadata_path target cwd
  then None
  else if negb (can_write_path_with_cwd policy (as_path target) cwd) then Some metadata_name
  else None.

(** ** Replacing symbolic project roots *)

Definition materialize_entry_with_cwd (cwd : option path) entry : FileSystemSandboxEntry :=
  match entry_path entry with
  | Special (ProjectRoots _) =>
      match resolve_file_system_path (entry_path entry) cwd with
      | Some p => Entry (PathEntry p) (entry_access entry)
      | None => entry
      end
  | GlobPattern pattern =>
      match cwd, parse_project_roots_glob_pattern pattern with
      | Some cwd, Some subpath =>
          Entry (GlobPattern (display (resolve_against subpath cwd))) (entry_access entry)
      | _, _ => entry
      end
  | _ => entry
  end.

Definition materialize_project_roots_with_cwd policy cwd : FileSystemSandboxPolicy :=
  set_entries (map (materialize_entry_with_cwd (absolute cwd)) (policy_entries policy)) policy.

Definition materialize_entry (workspace_roots : list path) entry : list FileSystemSandboxEntry :=
  let with_access p := Entry p (entry_access entry) in
  match entry_path entry with
  | Special (ProjectRoots subpath) =>
      map (λ root, with_access (PathEntry match subpath with
                                          | Some sub => resolve_against sub root
                                          | None => root
                                          end)) workspace_roots
  | GlobPattern pattern =>
      match parse_project_roots_glob_pattern pattern with
      | Some subpath =>
          map (λ root, with_access (GlobPattern (display (resolve_against subpath root))))
            workspace_roots
      | None => [entry]
      end
  | _ => [entry]
  end.

Definition materialize_project_roots_with_workspace_roots policy (workspace_roots : list path)
  : FileSystemSandboxPolicy :=
  set_entries (concat (map (materialize_entry workspace_roots) (policy_entries policy))) policy.

Definition with_materialized_project_roots_for_workspace_roots policy
    (workspace_roots : list path) : FileSystemSandboxPolicy :=
  set_entries
    (foldl push_unique (policy_entries policy)
       (policy_entries (materialize_project_roots_with_workspace_roots policy workspace_roots)))
    policy.

(** ** Adding roots *)

Definition with_additional_readable_roots policy cwd (additional_readable_roots : list path)
  : FileSystemSandboxPolicy :=
  if has_full_disk_read_access policy then policy else
  foldl (λ policy root,
           if can_read_path_with_cwd policy (as_path root) cwd then policy
           else push_entry policy (Entry (PathEntry root) AccessRead))
    policy additional_readable_roots.

Definition with_additional_writable_roots policy cwd (additional_writable_roots : list path)
  : FileSystemSandboxPolicy :=
  foldl (λ policy root,
           if can_write_path_with_cwd policy (as_path root) cwd then policy
           else push_entry policy (Entry (PathEntry root) AccessWrite))
    policy additional_writable_roots.
End resolve.

(** ** Keeping denied paths *)

(** [preserve_deny_read_restrictions_from] and
    [from_legacy_sandbox_policy_preserving_deny_entries] add the denying
    entries of [existing] that are missing. *)
Definition add_deny_entries (entries : list FileSystemSandboxEntry)
    (existing : FileSystemSandboxPolicy) : list FileSystemSandboxEntry :=
  foldl push_unique entries (List.filter is_deny (policy_entries existing)).

Definition preserve_deny_read_restrictions_from policy (existing : FileSystemSandboxPolicy)
  : FileSystemSandboxPolicy :=
  let has_deny_read_entries := existsb is_deny (policy_entries existing) in
  let policy :=
    match policy_kind policy with
    | Unrestricted =>
        if has_deny_read_entries then restricted [Entry (Special Root) AccessWrite] else policy
    | _ => policy
    end in
  if negb (is_restricted policy) then policy else
  {| policy_kind := Restricted;
     glob_scan_max_depth :=
       match glob_scan_max_depth policy with
       | None => glob_scan_max_depth existing
       | d => d
       end;
     policy_entries := add_deny_entries (policy_entries policy) existing |}.
