(* ===== verification/PermFacts.v ===== *)
(** * Facts about file-system permissions

    The reference definition of the access of a path, which walks from the
    path to the root and lets the first directory with an entry decide, and
    the lemmas on resolution, precedence and entries the properties share. *)

From S2P Require Import Prelude RustStr FsModel FsFacts FsxProps ExecFs Permissions.

Implicit Types (policy : FileSystemSandboxPolicy) (entry : FileSystemSandboxEntry).
Implicit Types (cwd : os_path) (p q r : path) (e d : ResolvedFileSystemEntry).

(** ** Plain paths

    Resolving a path text gives a path of plain names, which its text denotes
    again. *)

Lemma split_go_free c l : ∀ cur, c ∉ cur → Forall (λ x, c ∉ x) (split_go c cur l).
Proof.
  induction l as [|d l IH]; intros cur Hc; simpl.
  - constructor; [|done]. by rewrite elem_of_reverse.
  - destruct (Ascii.eqb_spec c d) as [->|N].
    + constructor; [by rewrite elem_of_reverse|]. apply IH. apply not_elem_of_nil.
    + apply IH. by apply not_elem_of_cons.
Qed.

Lemma comps_plain s : Forall (λ c, c = ".." ∨ plain_name c = true) (comps s).
Proof.
  apply Forall_forall. intros c Hc. unfold comps in Hc.
  apply list_elem_of_In, filter_In in Hc as [Hc Hn]. to_prop.
  apply list_elem_of_In, list_elem_of_fmap in Hc as (l & -> & Hl).
  pose proof (split_go_free "/" (bytes s) [] (not_elem_of_nil _)) as F.
  rewrite Forall_forall in F. specialize (F l Hl).
  destruct (decide (of_bytes l = "..")) as [|Hd]; [by left|right].
  unfold plain_name. apply String.eqb_neq in Hd.
  repeat match goal with Hx : of_bytes _ ≠ _ |- _ => apply String.eqb_neq in Hx; rewrite Hx end.
  rewrite Hd. simpl. apply negb_true_iff, existsb_false_elem. intros x Hx.
  rewrite bytes_of_bytes in Hx. apply Ascii.eqb_neq. by intros <-.
Qed.

Lemma normalize_plain q :
  Forall (λ c, c = ".." ∨ plain_name c = true) q →
  Forall (λ c, plain_name c = true) (normalize_path q).
Proof.
  unfold normalize_path.
  assert (G : ∀ acc, Forall (λ c, plain_name c = true) acc →
    Forall (λ c, c = ".." ∨ plain_name c = true) q →
    Forall (λ c, plain_name c = true) (foldl normalize_step acc q)).
  { induction q as [|c q IH]; intros acc Ha Hq; [done|]. simpl. inversion Hq; subst.
    apply IH; [|done]. unfold normalize_step. destruct (String.eqb_spec c "..") as [|N].
    - destruct acc as [|x acc _] using rev_ind; [done|]. rewrite removelast_last.
      by apply Forall_app in Ha as [? _].
    - apply Forall_app. split; [done|]. constructor; [|done]. naive_solver. }
  intros Hq. by apply G.
Qed.

Abbreviation plain_path p := (Forall (λ c, plain_name c = true) p).

(** The current directory is a path of plain names. *)
Definition plain_current_dir `{ProcessEnv} : Prop :=
  ∀ d : path, env_current_dir = Some d → plain_path d.

Lemma plain_no_dotdot p : plain_path p → no_dotdot p.
Proof. intros F. eapply Forall_impl; [exact F|]. apply plain_not_dotdot. Qed.

Lemma comps_slash s : comps ("/" +:+ s) = comps s.
Proof.
  unfold comps. change ("/" +:+ s) with ("" +:+ String "/" s).
  by rewrite split_char_app by apply not_elem_of_nil.
Qed.

Lemma display_absolute home (d : option path) p :
  plain_path p → from_absolute_path home d (display p) = Some p.
Proof.
  intros F. unfold from_absolute_path, display.
  replace (maybe_expand_home_directory home ("/" +:+ join_with "/" p))
    with ("/" +:+ join_with "/" p) by by destruct home.
  unfold absolutize. change (is_absolute ("/" +:+ _)) with true. cbn match.
  rewrite comps_slash, comps_join_with by done. by rewrite normalize_id by by apply plain_no_dotdot.
Qed.

Section plain.
Context `{ProcessEnv} (Hcwd : plain_current_dir).

Lemma absolute_as_path p : plain_path p → absolute (as_path p) = Some p.
Proof. apply display_absolute. Qed.

Lemma resolve_plain home s base : plain_path base → plain_path (resolve_path_against_base home s base).
Proof.
  intros F. unfold resolve_path_against_base, absolutize_from, path_with_base, join.
  apply normalize_plain. case_match; [apply comps_plain|].
  apply Forall_app. split; [|apply comps_plain]. eapply Forall_impl; [exact F|]. by right.
Qed.

Lemma absolute_plain (p : os_path) q : absolute p = Some q → plain_path q.
Proof.
  unfold absolute, from_absolute_path, absolutize. case_match.
  - intros [= <-]. apply normalize_plain, comps_plain.
  - intros (d & Hd & ->)%fmap_Some. apply Hcwd in Hd. unfold absolutize_from, path_with_base, join.
    apply normalize_plain. case_match; [apply comps_plain|].
    apply Forall_app. split; [|apply comps_plain]. eapply Forall_impl; [exact Hd|]. by right.
Qed.

Lemma candidate_as_path p cwd : plain_path p → resolve_candidate_path (as_path p) cwd = Some p.
Proof. apply absolute_as_path. Qed.

Lemma candidate_plain (p : os_path) cwd q : resolve_candidate_path p cwd = Some q → plain_path q.
Proof.
  unfold resolve_candidate_path. case_match; [apply absolute_plain|].
  intros (base & Hb & [= <-])%bind_Some. by eapply resolve_plain, absolute_plain.
Qed.
End plain.

(** ** Prefixes and ancestors *)

Lemma path_starts_with_spec r p : path_starts_with r p = true ↔ r `prefix_of` p.
Proof.
  unfold path_starts_with. split.
  - destruct (strip_path r p) as [k|] eqn:E; [|done]. intros _.
    apply strip_path_Some in E as ->. by apply prefix_app_r.
  - intros [k ->]. by rewrite (proj2 (strip_path_Some r (r ++ k) k)).
Qed.

Lemma path_starts_with_false r p : path_starts_with r p = false ↔ ¬ r `prefix_of` p.
Proof. by rewrite <- path_starts_with_spec, not_true_iff_false. Qed.

Lemma elem_of_ancestors_go n q p :
  q ∈ ancestors_go n p ↔ ∃ k, k ≤ n ∧ q = take k p.
Proof.
  induction n as [|n IH]; simpl.
  - rewrite list_elem_of_singleton. split; [by exists 0|].
    intros (k & Hk & ->). by replace k with 0 by lia.
  - rewrite elem_of_cons, IH. split.
    + intros [->|(k & Hk & ->)]; [by exists (S n)|exists k; split; [lia|done]].
    + intros (k & Hk & ->). destruct (decide (k = S n)) as [->|]; [by left|].
      right. exists k. split; [lia|done].
Qed.

Lemma elem_of_ancestors q p : q ∈ ancestors p ↔ q `prefix_of` p.
Proof.
  unfold ancestors. rewrite elem_of_ancestors_go. split.
  - intros (k & _ & ->). apply prefix_take.
  - intros [k ->]. exists (length q). rewrite length_app, take_app_length. split; [lia|done].
Qed.

(** The ancestors before [r] are the longer ones. *)
Lemma ancestors_split r p :
  r `prefix_of` p →
  ∃ l1 l2, ancestors p = l1 ++ r :: l2 ∧
    ∀ q, q ∈ l1 → q `prefix_of` p ∧ length r < length q.
Proof.
  intros [k ->]. unfold ancestors.
  assert (G : ∀ n, n ≤ length (r ++ k) → length r ≤ n → ∃ l1 l2,
    ancestors_go n (r ++ k) = l1 ++ r :: l2 ∧
    ∀ q, q ∈ l1 → q `prefix_of` (r ++ k) ∧ length r < length q).
  { induction n as [|n IH]; intros Hn Hr.
    - destruct r; [|simpl in Hr; lia]. exists [], []. split; [done|]. by intros q ?%elem_of_nil.
    - cbn [ancestors_go]. destruct (decide (length r = S n)) as [E|N].
      + exists [], (ancestors_go n (r ++ k)). rewrite <- E, take_app_length. split; [done|].
        by intros q ?%elem_of_nil.
      + destruct IH as (l1 & l2 & -> & H1); [lia|lia|].
        exists (take (S n) (r ++ k) :: l1), l2. split; [done|].
        intros q [->|Hq]%elem_of_cons; [|by apply H1]. split; [apply prefix_take|].
        rewrite length_take. lia. }
  apply G; rewrite ?length_app; lia.
Qed.

Lemma head_omap_skip {A B : Type} (f : A → option B) l1 x l2 y :
  (∀ a, a ∈ l1 → f a = None) → f x = Some y → head (omap f (l1 ++ x :: l2)) = Some y.
Proof.
  intros N S. induction l1 as [|a l1 IH]; simpl; [by rewrite S|].
  rewrite N by set_solver. apply IH. set_solver.
Qed.

Lemma head_omap_None {A B : Type} (f : A → option B) l :
  (∀ a, a ∈ l → f a = None) → head (omap f l) = None.
Proof.
  induction l as [|a l IH]; intros N; [done|]. simpl. rewrite N by set_solver. set_solver.
Qed.

Lemma head_omap_Some {A B : Type} (f : A → option B) l y :
  head (omap f l) = Some y → ∃ x, x ∈ l ∧ f x = Some y.
Proof.
  intros E. assert (H : y ∈ omap f l) by (destruct (omap f l); set_solver).
  apply list_elem_of_omap in H as (x & Hx & E'). by exists x.
Qed.

(** ** The greatest entry *)

Lemma max_by_key_spec {A : Type} (le : A → A → bool) l :
  (∀ x y, le x y = true ∨ le y x = true) →
  (∀ x y z, le x y = true → le y z = true → le x z = true) →
  match max_by_key le l with
  | None => l = []
  | Some m => m ∈ l ∧ ∀ x, x ∈ l → le x m = true
  end.
Proof.
  intros T Tr. unfold max_by_key. induction l as [|x l IH] using rev_ind; [done|].
  rewrite foldl_app. simpl. destruct (foldl _ None l) as [m|]; simpl.
  - destruct IH as [Hm Hl]. destruct (le m x) eqn:E; split; [set_solver| |set_solver|].
    + intros y [Hy|Hy%list_elem_of_singleton]%elem_of_app; [eauto|subst y].
      by destruct (T x x).
    + intros y [Hy|Hy%list_elem_of_singleton]%elem_of_app; [eauto|subst y].
      destruct (T m x); congruence.
  - subst l. split; [set_solver|]. intros y [?%elem_of_nil|Hy%list_elem_of_singleton]%elem_of_app;
      [done|subst y]. by destruct (T x x).
Qed.

Lemma precedence_leb_spec d e :
  precedence_leb d e = true ↔
  length (resolved_path d) < length (resolved_path e) ∨
  length (resolved_path d) = length (resolved_path e) ∧
  access_rank (resolved_access d) ≤ access_rank (resolved_access e).
Proof.
  unfold precedence_leb, resolved_entry_precedence.
  rewrite orb_true_iff, andb_true_iff, Nat.ltb_lt, Nat.eqb_eq, Nat.leb_le. lia.
Qed.

(** ** The reference definition *)

(** The access that the entries at one directory give it: denying beats
    writing, and writing beats reading. *)
Definition has_entry (entries : list ResolvedFileSystemEntry) r (a : FileSystemAccessMode)
  : bool := existsb (λ e, bool_decide (resolved_path e = r ∧ resolved_access e = a)) entries.

Definition access_at (entries : list ResolvedFileSystemEntry) r : option FileSystemAccessMode :=
  if has_entry entries r AccessNone then Some AccessNone
  else if has_entry entries r AccessWrite then Some AccessWrite
  else if has_entry entries r AccessRead then Some AccessRead
  else None.

(** The nearest directory with an entry decides; without one nothing is
    allowed. *)
Definition nearest_access (entries : list ResolvedFileSystemEntry) p : FileSystemAccessMode :=
  default AccessNone (head (omap (access_at entries) (ancestors p))).

Lemma has_entry_spec entries r a : has_entry entries r a = true ↔ Resolved r a ∈ entries.
Proof.
  unfold has_entry. rewrite existsb_exists_elem. split.
  - intros ([r' a'] & He & D). apply bool_decide_eq_true in D. simpl in D. by destruct D as [-> ->].
  - intros He. eexists. split; [done|]. by apply bool_decide_eq_true.
Qed.

Lemma access_at_None entries r :
  (∀ a, Resolved r a ∉ entries) → access_at entries r = None.
Proof.
  intros N. unfold access_at.
  assert (H : ∀ a, has_entry entries r a = false).
  { intros a. apply not_true_is_false. rewrite has_entry_spec. apply N. }
  by rewrite !H.
Qed.

(** The entry of the highest rank gives the access of its directory. *)
Lemma access_at_greatest entries e :
  e ∈ entries →
  (∀ d, d ∈ entries → resolved_path d = resolved_path e →
        access_rank (resolved_access d) ≤ access_rank (resolved_access e)) →
  access_at entries (resolved_path e) = Some (resolved_access e).
Proof.
  intros He G. destruct e as [r a]. simpl in *.
  assert (H : ∀ b, access_rank a < access_rank b → has_entry entries r b = false).
  { intros b Hb. apply not_true_is_false. rewrite has_entry_spec. intros Hd.
    specialize (G _ Hd eq_refl). simpl in G. lia. }
  apply has_entry_spec in He. unfold access_at. destruct a.
  - by rewrite (H AccessNone), (H AccessWrite), He by (simpl; lia).
  - by rewrite (H AccessNone), He by (simpl; lia).
  - by rewrite He.
Qed.

Lemma access_of_nearest entries p : access_of entries p = nearest_access entries p.
Proof.
  unfold access_of, nearest_access.
  pose proof (max_by_key_spec precedence_leb
                (List.filter (λ e, path_starts_with (resolved_path e) p) entries)) as M.
  specialize (M ltac:(intros x y; rewrite !precedence_leb_spec; lia)
                ltac:(intros x y z; rewrite !precedence_leb_spec; lia)).
  assert (F : ∀ e, e ∈ List.filter (λ e, path_starts_with (resolved_path e) p) entries ↔
                   e ∈ entries ∧ resolved_path e `prefix_of` p).
  { intros e. rewrite list_elem_of_In, filter_In, <- list_elem_of_In, path_starts_with_spec.
    done. }
  destruct (max_by_key _ _) as [m|].
  - destruct M as [Hm G]. apply F in Hm as [Hm Pm].
    destruct (ancestors_split _ _ Pm) as (l1 & l2 & -> & L1).
    erewrite head_omap_skip; [done| |].
    + intros q Hq. apply L1 in Hq as [Pq Lq]. apply access_at_None. intros a Ha.
      assert (H : precedence_leb (Resolved q a) m = true) by (apply G, F; done).
      apply precedence_leb_spec in H. simpl in H. lia.
    + apply access_at_greatest; [done|]. intros d Hd Ed.
      assert (H : precedence_leb d m = true).
      { apply G, F. split; [done|]. by rewrite Ed. }
      apply precedence_leb_spec in H. rewrite Ed in H. lia.
  - rewrite head_omap_None; [done|]. intros q Hq. apply elem_of_ancestors in Hq.
    apply access_at_None. intros a Ha.
    assert (H : Resolved q a ∈ List.filter (λ e, path_starts_with (resolved_path e) p) entries)
      by (apply F; done).
    rewrite M in H. by apply elem_of_nil in H.
Qed.

(** Only which entries there are matters. *)
Lemma has_entry_ext entries entries' r a :
  (∀ e, e ∈ entries ↔ e ∈ entries') → has_entry entries r a = has_entry entries' r a.
Proof. intros E. apply eq_true_iff_eq. by rewrite !has_entry_spec, E. Qed.

Lemma nearest_access_ext entries entries' p :
  (∀ e, e ∈ entries ↔ e ∈ entries') → nearest_access entries p = nearest_access entries' p.
Proof.
  intros E. unfold nearest_access. do 2 f_equal. apply list_omap_ext, Forall2_same_length_lookup_2; [done|].
  intros i q q' L L'. assert (q' = q) as -> by congruence. unfold access_at.
  by rewrite !(has_entry_ext _ _ _ _ E).
Qed.

(** ** What decides the access of a path *)

Lemma head_omap_inv {A B : Type} (f : A → option B) l y :
  head (omap f l) = Some y → ∃ l1 x l2, l = l1 ++ x :: l2 ∧ f x = Some y ∧
    ∀ a, a ∈ l1 → f a = None.
Proof.
  induction l as [|a l IH]; intros E; [done|]. simpl in E. destruct (f a) as [b|] eqn:Ea.
  - simpl in E. injection E as ->. exists [], a, l. repeat split; [done|].
    by intros ? ?%elem_of_nil.
  - destruct (IH E) as (l1 & x & l2 & -> & Fx & N). exists (a :: l1), x, l2.
    repeat split; [done|]. intros b [->|Hb]%elem_of_cons; [done|by apply N].
Qed.

Lemma access_at_Some entries r a : access_at entries r = Some a → Resolved r a ∈ entries.
Proof.
  unfold access_at. intros E. apply has_entry_spec.
  repeat case_match; by simplify_eq.
Qed.

Lemma access_at_deny entries r :
  Resolved r AccessNone ∈ entries → access_at entries r = Some AccessNone.
Proof. intros H. apply has_entry_spec in H. unfold access_at. by rewrite H. Qed.

Lemma access_at_is_Some entries r a :
  Resolved r a ∈ entries → is_Some (access_at entries r).
Proof.
  intros H. apply has_entry_spec in H. unfold access_at. destruct a; rewrite H; repeat case_match; done.
Qed.

(** The access of a path is that of the nearest directory with an entry. *)
Lemma nearest_access_at entries r p a :
  r `prefix_of` p → access_at entries r = Some a →
  (∀ q, q `prefix_of` p → length r < length q → access_at entries q = None) →
  nearest_access entries p = a.
Proof.
  intros P A N. unfold nearest_access. destruct (ancestors_split _ _ P) as (l1 & l2 & -> & L).
  erewrite head_omap_skip; [done| |done]. intros q [Pq Lq]%L. by apply N.
Qed.

Lemma nearest_access_inv entries p :
  (∃ r a, r `prefix_of` p ∧ access_at entries r = Some a ∧ nearest_access entries p = a ∧
     ∀ q, q `prefix_of` p → length r < length q → access_at entries q = None) ∨
  (nearest_access entries p = AccessNone ∧ ∀ q, q `prefix_of` p → access_at entries q = None).
Proof.
  destruct (head (omap (access_at entries) (ancestors p))) as [a|] eqn:E.
  - left. apply head_omap_inv in E as (l1 & r & l2 & El & A & N).
    assert (P : r `prefix_of` p) by (apply elem_of_ancestors; rewrite El; set_solver).
    assert (N' : ∀ q, q `prefix_of` p → length r < length q → access_at entries q = None).
    { intros q Pq Lq. apply N. apply elem_of_ancestors in Pq as Hq. rewrite El in Hq.
      apply elem_of_app in Hq as [Hq|Hq]; [done|]. exfalso.
      assert (Sub : ∀ k, k ∈ r :: l2 → length k ≤ length r); [|apply Sub in Hq; lia].
      clear -El. unfold ancestors in El. revert El. generalize (length p) as n.
      intros n. revert l1. induction n as [|n IH]; intros l1 El k Hk.
      - destruct l1 as [|? [|]]; simplify_eq/=. apply list_elem_of_singleton in Hk as ->. done.
      - destruct l1 as [|b l1]; simplify_eq/=; [|by eapply IH].
        apply elem_of_cons in Hk as [->|Hk]; [done|].
        apply elem_of_ancestors_go in Hk as (m & Hm & ->). rewrite !length_take. lia. }
    exists r, a. split_and!; [done|done| |done]. by eapply nearest_access_at.
  - right. unfold nearest_access. rewrite E. split; [done|]. intros q Pq.
    apply elem_of_ancestors in Pq. destruct (access_at entries q) as [b|] eqn:Eq; [|done].
    assert (H : b ∈ omap (access_at entries) (ancestors p))
      by (apply list_elem_of_omap; eauto).
    destruct (omap _ _); [by apply elem_of_nil in H|done].
Qed.

(** ** The entries of a policy *)

Section entries.
Context `{ProcessEnv} (fs : fsys).

Lemma elem_of_resolved policy cwd e :
  e ∈ resolved_entries_with_cwd fs policy cwd ↔
  ∃ entry, entry ∈ policy_entries policy ∧
    resolve_entry_path fs (entry_path entry) (absolute cwd) = Some (resolved_path e) ∧
    entry_access entry = resolved_access e.
Proof.
  unfold resolved_entries_with_cwd. rewrite list_elem_of_omap. split.
  - intros (entry & He & E). apply fmap_Some in E as (r & Er & ->). by exists entry.
  - intros (entry & He & E & A). exists entry. split; [done|]. rewrite E. simpl.
    rewrite A. by destruct e.
Qed.

Lemma resolved_entry policy cwd entry r :
  entry ∈ policy_entries policy →
  resolve_entry_path fs (entry_path entry) (absolute cwd) = Some r →
  Resolved r (entry_access entry) ∈ resolved_entries_with_cwd fs policy cwd.
Proof. intros He E. apply elem_of_resolved. by exists entry. Qed.

(** Policies with the same entries have the same resolved entries. *)
Lemma resolved_mono policy policy' cwd e :
  (∀ entry, entry ∈ policy_entries policy → entry ∈ policy_entries policy') →
  e ∈ resolved_entries_with_cwd fs policy cwd → e ∈ resolved_entries_with_cwd fs policy' cwd.
Proof. intros S (entry & He & E)%elem_of_resolved. apply elem_of_resolved. eauto. Qed.

Lemma resolved_push policy cwd entry :
  resolved_entries_with_cwd fs (push_entry policy entry) cwd =
  resolved_entries_with_cwd fs policy cwd ++
  option_list ((λ p, Resolved p (entry_access entry)) <$>
                 resolve_entry_path fs (entry_path entry) (absolute cwd)).
Proof.
  unfold resolved_entries_with_cwd. cbn [push_entry set_entries policy_entries].
  rewrite omap_app. simpl. by destruct (resolve_entry_path _ _ _).
Qed.

(** The access of a path under a restricted policy. *)
Lemma resolve_access_nearest policy (p : os_path) cwd target :
  policy_kind policy = Restricted → resolve_candidate_path p cwd = Some target →
  resolve_access_with_cwd fs policy p cwd =
  nearest_access (resolved_entries_with_cwd fs policy cwd) target.
Proof.
  intros K C. unfold resolve_access_with_cwd. rewrite K, C. apply access_of_nearest.
Qed.

Lemma resolve_access_candidate policy (p q : os_path) cwd :
  resolve_candidate_path p cwd = resolve_candidate_path q cwd →
  resolve_access_with_cwd fs policy p cwd = resolve_access_with_cwd fs policy q cwd.
Proof. intros E. unfold resolve_access_with_cwd. by rewrite E. Qed.

Lemma can_write_candidate policy (p q : os_path) cwd :
  resolve_candidate_path p cwd = resolve_candidate_path q cwd →
  can_write_path_with_cwd fs policy p cwd = can_write_path_with_cwd fs policy q cwd.
Proof.
  intros E. unfold can_write_path_with_cwd, is_metadata_write_denied.
  by rewrite E, (resolve_access_candidate _ _ _ _ E).
Qed.

(** A denied directory is denied whatever the other entries are. *)
Lemma deny_entry_denies policy (p : os_path) cwd r :
  policy_kind policy = Restricted → resolve_candidate_path p cwd = Some r →
  Resolved r AccessNone ∈ resolved_entries_with_cwd fs policy cwd →
  resolve_access_with_cwd fs policy p cwd = AccessNone.
Proof.
  intros K C D. rewrite (resolve_access_nearest _ _ _ _ K C).
  eapply nearest_access_at; [done|by apply access_at_deny|].
  intros q P L. apply prefix_length in P. lia.
Qed.

(** *** Workspace metadata *)

Lemma metadata_path_name_spec s n :
  metadata_path_name s = Some n ↔ s = n ∧ s ∈ PROTECTED_METADATA_PATH_NAMES.
Proof.
  unfold metadata_path_name. split.
  - intros E. apply find_some in E as [Hi E]. apply String.eqb_eq in E as ->.
    split; [done|by apply list_elem_of_In].
  - intros [-> Hi]. unfold PROTECTED_METADATA_PATH_NAMES in Hi.
    rewrite !elem_of_cons, elem_of_nil in Hi. destruct Hi as [->|[->|[->|[]]]]; done.
Qed.

Lemma protected_plain n : n ∈ PROTECTED_METADATA_PATH_NAMES → plain_name n = true ∧ n ≠ "~".
Proof.
  unfold PROTECTED_METADATA_PATH_NAMES. rewrite !elem_of_cons, elem_of_nil.
  intros [->|[->|[->|[]]]]; done.
Qed.

Lemma abs_join_protected r n :
  n ∈ PROTECTED_METADATA_PATH_NAMES → plain_path r → abs_join r n = r ++ [n].
Proof.
  intros Hn F. apply protected_plain in Hn as P. destruct P as [P _].
  unfold abs_join, resolve_path_against_base.
  replace (maybe_expand_home_directory env_home n) with n.
  - unfold absolutize_from, path_with_base. rewrite join_plain by done.
    apply normalize_id, Forall_app. split; [by apply plain_no_dotdot|].
    constructor; [|done]. by apply plain_not_dotdot.
  - unfold PROTECTED_METADATA_PATH_NAMES in Hn. rewrite !elem_of_cons, elem_of_nil in Hn.
    destruct env_home, Hn as [->|[->|[->|[]]]]; done.
Qed.

(** Which writable entries have a path below one of their protected names. *)
Lemma metadata_child_spec target e q n :
  metadata_child_of target e = Some (q, n) ↔
  resolved_access e = AccessWrite ∧ n ∈ PROTECTED_METADATA_PATH_NAMES ∧
  resolved_path e ++ [n] `prefix_of` target ∧ q = abs_join (resolved_path e) n.
Proof.
  unfold metadata_child_of. destruct e as [r a]. simpl. split.
  - destruct a; simpl; [done| |done]. intros E.
    apply bind_Some in E as (rel & Er & E). apply strip_path_Some in Er as ->.
    apply bind_Some in E as (c & Ec & E). destruct rel as [|c' rel]; [done|].
    injection Ec as ->. apply bind_Some in E as (m & Em & [= <- <-]).
    apply metadata_path_name_spec in Em as [-> Hm]. split_and!; [done|done| |done].
    exists rel. by rewrite <- app_assoc.
  - intros (-> & Hn & [k ->] & ->). simpl. rewrite <- app_assoc.
    rewrite (proj2 (strip_path_Some r (r ++ [n] ++ k) ([n] ++ k))) by done. simpl.
    assert (metadata_path_name n = Some n) as -> by by apply metadata_path_name_spec.
    done.
Qed.
End entries.

(** ** Pushing what is missing *)

Lemma elem_of_push_unique {A : Type} `{EqDecision A} (l : list A) x y :
  y ∈ push_unique l x ↔ y ∈ l ∨ y = x.
Proof.
  unfold push_unique. case_bool_decide; [|by rewrite elem_of_app, list_elem_of_singleton].
  naive_solver.
Qed.

Lemma elem_of_push_all {A : Type} `{EqDecision A} (k l : list A) y :
  y ∈ foldl push_unique l k ↔ y ∈ l ∨ y ∈ k.
Proof.
  revert l. induction k as [|x k IH]; intros l; simpl; [set_solver|].
  rewrite IH, elem_of_push_unique. set_solver.
Qed.

Lemma NoDup_push_all {A : Type} `{EqDecision A} (k l : list A) :
  NoDup l → NoDup (foldl push_unique l k).
Proof.
  revert l. induction k as [|x k IH]; intros l N; simpl; [done|]. apply IH.
  unfold push_unique. case_bool_decide; [done|]. apply NoDup_app. split_and!; [done| |].
  - intros y Hy ->%list_elem_of_singleton. done.
  - apply NoDup_singleton.
Qed.

Lemma is_deny_spec entry : is_deny entry = true ↔ entry_access entry = AccessNone.
Proof. apply bool_decide_eq_true. Qed.

(** ** Comparing accesses by what they allow *)

Definition access_le (a b : FileSystemAccessMode) : Prop :=
  match a, b with
  | AccessNone, _ | AccessRead, AccessRead | AccessRead, AccessWrite
  | AccessWrite, AccessWrite => True
  | _, _ => False
  end.

#[global] Instance access_le_preorder : PreOrder access_le.
Proof. split; [by intros []|by intros [] [] []]. Qed.

Lemma access_le_read a b : access_le a b → can_read a = true → can_read b = true.
Proof. by destruct a, b. Qed.
Lemma access_le_write b : access_le AccessWrite b → b = AccessWrite.
Proof. by destruct b. Qed.

(** *** An entry added at the end *)

Lemma has_entry_snoc entries r a q b :
  has_entry (entries ++ [Resolved r a]) q b =
  has_entry entries q b || bool_decide (r = q ∧ a = b).
Proof. unfold has_entry. rewrite existsb_app. simpl. by rewrite orb_false_r. Qed.

Lemma access_at_snoc_ne entries r a q :
  q ≠ r → access_at (entries ++ [Resolved r a]) q = access_at entries q.
Proof.
  intros N. unfold access_at. rewrite !has_entry_snoc.
  assert (X : ∀ b, bool_decide (r = q ∧ a = b) = false)
    by (intros b; apply bool_decide_eq_false; naive_solver).
  by rewrite !X, !orb_false_r.
Qed.

(** The access of a directory after an entry is added to it. *)
Definition add_access (a : FileSystemAccessMode) (o : option FileSystemAccessMode)
  : FileSystemAccessMode :=
  match o with
  | None => a
  | Some b => if access_rank a <? access_rank b then b else a
  end.

Lemma access_at_snoc entries r a :
  access_at (entries ++ [Resolved r a]) r = Some (add_access a (access_at entries r)).
Proof.
  unfold access_at, add_access. rewrite !has_entry_snoc.
  assert (X : ∀ b, bool_decide (r = r ∧ a = b) = bool_decide (a = b))
    by (intros b; apply bool_decide_ext; naive_solver).
  rewrite !X. destruct a, (has_entry entries r AccessNone), (has_entry entries r AccessWrite),
    (has_entry entries r AccessRead); done.
Qed.

(** A path outside the new directory, or below a nearer entry, keeps its
    access. *)
Lemma nearest_access_snoc entries r a q :
  nearest_access (entries ++ [Resolved r a]) q = nearest_access entries q ∨
  r `prefix_of` q ∧
  nearest_access (entries ++ [Resolved r a]) q = add_access a (access_at entries r) ∧
  (∀ k, k `prefix_of` q → length r < length k → access_at entries k = None).
Proof.
  destruct (decide (r `prefix_of` q)) as [P|NP].
  - destruct (nearest_access_inv entries q) as [(k & b & Pk & Ak & <- & N)|[E N]].
    + destruct (decide (length r < length k)) as [L|L].
      * left. eapply nearest_access_at; [exact Pk| |].
        -- rewrite access_at_snoc_ne; [done|]. intros ->. lia.
        -- intros j Pj Lj. rewrite access_at_snoc_ne; [by apply N|]. intros ->. lia.
      * right. split_and!; [done| |].
        -- eapply nearest_access_at; [exact P|apply access_at_snoc|].
           intros j Pj Lj. rewrite access_at_snoc_ne by (intros ->; lia). apply N; [done|lia].
        -- intros j Pj Lj. apply N; [done|lia].
    + right. split_and!; [done| |].
      * eapply nearest_access_at; [exact P|apply access_at_snoc|].
        intros j Pj Lj. rewrite access_at_snoc_ne by (intros ->; lia). by apply N.
      * intros j Pj Lj. by apply N.
  - left. unfold nearest_access. do 2 f_equal.
    apply list_omap_ext, Forall2_same_length_lookup_2; [done|]. intros i k k' Lk Lk'.
    assert (k' = k) as -> by congruence. apply access_at_snoc_ne. intros ->.
    apply NP, elem_of_ancestors. by eapply list_elem_of_lookup_2.
Qed.

(** When nothing nearer decides, a path has the access of its ancestor. *)
Lemma nearest_access_below entries r q :
  r `prefix_of` q →
  (∀ k, k `prefix_of` q → length r < length k → access_at entries k = None) →
  nearest_access entries q = nearest_access entries r.
Proof.
  intros P N. destruct (nearest_access_inv entries q) as [(k & b & Pk & Ak & <- & Nk)|[E Nk]].
  - symmetry. eapply nearest_access_at; [|exact Ak|].
    + destruct (prefix_weak_total _ _ _ P Pk) as [L|L]; [|done].
      destruct (decide (length r < length k)) as [Lt|Ge]; [by rewrite N in Ak|].
      destruct L as [[|x l] ->]; [by rewrite app_nil_r|]. rewrite length_app in Ge. simpl in Ge. lia.
    + intros j Pj Lj. apply Nk; [by trans r|done].
  - rewrite E. symmetry. destruct (nearest_access_inv entries r) as [(k & b & Pk & Ak & <- & _)|[-> _]];
      [|done]. rewrite Nk in Ak; [done|by trans r].
Qed.
