(* ===== verification/SandboxRoots.v ===== *)
(** * protocol: the roots a sandbox is built from, and legacy policies

    The rest of [permissions.rs]: the readable, writable and unreadable roots
    a policy stands for, the matcher of denied reads, and the conversions from
    and to the legacy policies of [protocol.rs]; the permission profiles of
    [models.rs].  Log messages are left out. *)

From S2P Require Import Prelude RustStr FsModel ExecFs Permissions.

Implicit Types (policy : FileSystemSandboxPolicy) (entry : FileSystemSandboxEntry).
Implicit Types (cwd : os_path).

(** ** Canonical paths (utils/absolute-path) *)

Section canonical.
Context `{ProcessEnv} (fs : fsys).

(** [Path::canonicalize]: a relative path starts at the current directory. *)
Definition fs_canonicalize (p : os_path) : option path :=
  base ← if os_root p then Some [] else env_current_dir;
  if negb (os_root p) && bool_decide (os_comps p = []) then None else
  fst <$> ok_of (stat fs (base ++ List.filter (λ c, negb (String.eqb c ".")) (os_comps p))).

Definition is_symlink (p : path) : bool :=
  match lstat fs p with inr (Link _) => true | _ => false end.

(** A symbolic link below the top level. *)
Definition should_preserve_logical_path (logical : path) : bool :=
  existsb (λ a, is_symlink a && match FsModel.parent a ≫= FsModel.parent with
                             | Some _ => true
                             | None => false
                             end) (ancestors logical).

Definition canonicalize_preserving_symlinks (p : os_path) : option path :=
  logical ← absolute p;
  Some match fs_canonicalize p with
       | Some canonical =>
           if should_preserve_logical_path logical && negb (bool_decide (canonical = logical))
           then logical else canonical
       | None => logical
       end.

Definition normalize_ancestor (raw_path ancestor : path) : option path :=
  if negb (match lstat fs ancestor with inr _ => true | inl _ => false end) then None else
  normalized_ancestor ← canonicalize_preserving_symlinks (as_path ancestor);
  suffix ← strip_path ancestor raw_path;
  absolute (as_path (normalized_ancestor ++ suffix)).

Definition normalize_effective_absolute_path (p : path) : path :=
  default p (head (omap (normalize_ancestor p) (ancestors p))).

Definition dedup_absolute_paths (paths : list path) (normalize_effective_paths : bool)
  : list path :=
  foldl (λ deduped p, push_unique deduped
           (if normalize_effective_paths then normalize_effective_absolute_path p else p))
    [] paths.

(** ** Subpaths that stay read-only *)

Definition is_git_pointer_file (p : path) : bool :=
  fs_is_file fs p && bool_decide (file_name p = Some ".git").

Definition resolve_gitdir_from_file (dot_git : path) : option path :=
  contents ← ok_of (fs_read_to_string fs dot_git);
  '(before, gitdir_raw) ← split_once ":" (trim contents);
  if negb (String.eqb (trim before) "gitdir") then None else
  let gitdir_raw := trim gitdir_raw in
  if String.eqb gitdir_raw "" then None else
  base ← FsModel.parent dot_git;
  let gitdir_path := abs_join base gitdir_raw in
  if fs_exists fs gitdir_path then Some gitdir_path else None.

Definition default_read_only_subpaths_for_writable_root (writable_root : path)
    (protect_missing_dot_codex : bool) : list path :=
  let top_level_git := abs_join writable_root ".git" in
  let git :=
    if fs_is_dir fs top_level_git || fs_is_file fs top_level_git then
      (if fs_is_file fs top_level_git && is_git_pointer_file top_level_git
       then option_list (resolve_gitdir_from_file top_level_git) else []) ++ [top_level_git]
    else [] in
  let top_level_agents := abs_join writable_root ".agents" in
  let agents := if fs_is_dir fs top_level_agents then [top_level_agents] else [] in
  let top_level_codex := abs_join writable_root ".codex" in
  let codex :=
    if protect_missing_dot_codex || fs_is_dir fs top_level_codex then [top_level_codex]
    else [] in
  dedup_absolute_paths (git ++ agents ++ codex) false.

(** ** The roots of a policy *)

Definition get_readable_roots_with_cwd policy cwd : list path :=
  if has_full_disk_read_access policy then [] else
  dedup_absolute_paths
    (map resolved_path
       (List.filter (λ e, can_read (resolved_access e) &&
                          can_read_path_with_cwd fs policy (as_path (resolved_path e)) cwd)
          (resolved_entries_with_cwd fs policy cwd)))
    true.

Definition has_explicit_resolved_path_entry (entries : list ResolvedFileSystemEntry) (p : path)
  : bool := existsb (λ e, bool_decide (resolved_path e = p)) entries.

Definition protected_metadata_names_for_writable_root policy (root : path)
    (raw_writable_roots : list path) cwd : list string :=
  List.filter (λ metadata_name,
    forallb (λ r, negb (can_write_path_with_cwd fs policy
                          (as_path (abs_join r metadata_name)) cwd))
      (root :: raw_writable_roots)) PROTECTED_METADATA_PATH_NAMES.

(** The path under which a narrower entry is masked in a writable root. *)
Definition raw_carveout_path (root : path) (raw_writable_roots : list path) (p : path)
  : option path :=
  match FsModel.parent root with
  | None => None
  | Some _ =>
      if bool_decide (p = root) then None
      else if path_starts_with root p then Some p
      else head (omap (λ raw_root,
                   suffix ← strip_path raw_root p;
                   match suffix with
                   | [] => None
                   | _ => Some (resolve_against (OsPath false suffix) root)
                   end) raw_writable_roots)
  end.

Definition carveout_path (root : path) (raw_writable_roots : list path) (p : path)
  : option path :=
  match raw_carveout_path root raw_writable_roots p with
  | Some raw => Some raw
  | None =>
      let effective_path := normalize_effective_absolute_path p in
      if bool_decide (effective_path = root) || negb (path_starts_with root effective_path)
      then None else Some effective_path
  end.

Definition writable_entries policy cwd : list path :=
  map resolved_path
    (List.filter (λ e, can_write (resolved_access e) &&
                       can_write_path_with_cwd fs policy (as_path (resolved_path e)) cwd)
       (resolved_entries_with_cwd fs policy cwd)).

Definition writable_root_of policy cwd (root : path) : WritableRoot :=
  let resolved_entries := resolved_entries_with_cwd fs policy cwd in
  let raw_writable_roots :=
    List.filter (λ p, bool_decide (normalize_effective_absolute_path p = root))
      (writable_entries policy cwd) in
  let protect_missing_dot_codex :=
    match absolute cwd with
    | Some cwd => bool_decide (normalize_effective_absolute_path cwd = root)
    | None => false
    end in
  {| wr_root := root;
     protected_metadata_names :=
       protected_metadata_names_for_writable_root policy root raw_writable_roots cwd;
     read_only_subpaths :=
       dedup_absolute_paths
         (List.filter (λ p, negb (has_explicit_resolved_path_entry resolved_entries p))
            (default_read_only_subpaths_for_writable_root root protect_missing_dot_codex) ++
          omap (λ e, carveout_path root raw_writable_roots (resolved_path e))
            (List.filter (λ e, negb (can_write (resolved_access e)) &&
                               negb (can_write_path_with_cwd fs policy
                                       (as_path (resolved_path e)) cwd))
               resolved_entries)) false |}.

Definition get_writable_roots_with_cwd policy cwd : list WritableRoot :=
  if has_full_disk_write_access policy then [] else
  map (writable_root_of policy cwd) (dedup_absolute_paths (writable_entries policy cwd) true).

Definition get_unreadable_roots_with_cwd policy cwd : list path :=
  if negb (is_restricted policy) then [] else
  let root := absolute_root_path_for_cwd <$> absolute cwd in
  dedup_absolute_paths
    (map resolved_path
       (List.filter (λ e, bool_decide (resolved_access e = AccessNone) &&
                          negb (can_read_path_with_cwd fs policy (as_path (resolved_path e)) cwd)
                          && negb (bool_decide (root = Some (resolved_path e))))
          (resolved_entries_with_cwd fs policy cwd)))
    true.

Definition get_unreadable_globs_with_cwd policy cwd : list string :=
  if negb (is_restricted policy) then [] else
  dedup_adjacent
    (merge_sort String.le
       (omap (λ entry, match entry_path entry with
                       | GlobPattern pattern => Some (os_str (resolve_text_against pattern cwd))
                       | _ => None
                       end) (List.filter is_deny (policy_entries policy)))).
End canonical.

(** ** Whether a root lets a path be written *)

Definition path_contains_protected_metadata_name (w : WritableRoot) (p : path) : bool :=
  match strip_path (wr_root w) p with
  | Some (first_component :: _) => existsb (String.eqb first_component) (protected_metadata_names w)
  | _ => false
  end.

Definition is_path_writable (w : WritableRoot) (p : path) : bool :=
  path_starts_with (wr_root w) p &&
  negb (existsb (λ subpath, path_starts_with subpath p) (read_only_subpaths w)) &&
  negb (path_contains_protected_metadata_name w p).

(** ** Denied reads *)

(** The glob compiler ([GlobBuilder] with the options of
    [build_glob_matcher]): a matcher of paths, or the text of an error. *)
Class Globset := { build_glob_matcher : string → string + (os_path → bool) }.

Record ReadDenyMatcher := {
  denied_candidates : list (list os_path);
  deny_read_matchers : list (os_path → bool);
  invalid_pattern : bool
}.

Inductive InvalidDenyReadGlobBehavior := FailClosed | ReturnError.

Section read_deny.
Context `{ProcessEnv, Globset} (fs : fsys).

Definition normalized_and_canonical_candidates (p : os_path) : list os_path :=
  let candidates := [match absolute p with Some normalized => as_path normalized | None => p end] in
  match fs_canonicalize fs p ≫= (absolute ∘ as_path) with
  | Some canonical_absolute => push_unique candidates (as_path canonical_absolute)
  | None => candidates
  end.

(** One pattern: the matchers so far, and whether one was invalid. *)
Definition add_deny_pattern (invalid_glob_behavior : InvalidDenyReadGlobBehavior)
    (acc : list (os_path → bool) * bool) (pattern : string)
  : string + (list (os_path → bool) * bool) :=
  match build_glob_matcher pattern with
  | inr matcher => inr (acc.1 ++ [matcher], acc.2)
  | inl err =>
      match invalid_glob_behavior with
      | FailClosed => inr (acc.1, true)
      | ReturnError =>
          inl ("invalid deny-read glob pattern `" +:+ pattern +:+ "`: " +:+ err)
      end
  end.

Definition build_read_deny_matcher policy cwd
    (invalid_glob_behavior : InvalidDenyReadGlobBehavior) : string + option ReadDenyMatcher :=
  if negb (has_denied_read_restrictions policy) then inr None else
  let? acc := try_fold (add_deny_pattern invalid_glob_behavior) ([], false)
                (get_unreadable_globs_with_cwd policy cwd) in
  inr (Some {|
    denied_candidates :=
      map (normalized_and_canonical_candidates ∘ as_path)
        (get_unreadable_roots_with_cwd fs policy cwd);
    deny_read_matchers := acc.1;
    invalid_pattern := acc.2 |}).

(** [ReadDenyMatcher::new]: the outer [None] is its [unreachable!]. *)
Definition read_deny_matcher_new policy cwd : option (option ReadDenyMatcher) :=
  ok_of (build_read_deny_matcher policy cwd FailClosed).
Definition read_deny_matcher_try_new policy cwd : string + option ReadDenyMatcher :=
  build_read_deny_matcher policy cwd ReturnError.

Definition is_read_denied (m : ReadDenyMatcher) (p : os_path) : bool :=
  if invalid_pattern m then true else
  let path_candidates := normalized_and_canonical_candidates p in
  existsb (λ denied,
    existsb (λ candidate,
      existsb (λ d, bool_decide (candidate = d) || os_starts_with d candidate) denied)
      path_candidates) (denied_candidates m) ||
  existsb (λ matcher, existsb matcher path_candidates) (deny_read_matchers m).
End read_deny.

(** ** Legacy policies (protocol.rs) *)

Inductive NetworkAccess := NetworkAccessRestricted | NetworkAccessEnabled.

Inductive SandboxPolicy :=
| DangerFullAccess
| ReadOnly (network_access : bool)
| ExternalSandboxPolicy (network_access : NetworkAccess)
| WorkspaceWrite (writable_roots : list path)
    (network_access exclude_tmpdir_env_var exclude_slash_tmp : bool).

#[global] Instance NetworkAccess_eq_dec : EqDecision NetworkAccess.
Proof. solve_decision. Defined.
#[global] Instance SandboxPolicy_eq_dec : EqDecision SandboxPolicy.
Proof. solve_decision. Defined.

Definition network_access_of (network : NetworkSandboxPolicy) : NetworkAccess :=
  if is_enabled network then NetworkAccessEnabled else NetworkAccessRestricted.

Definition has_full_network_access (p : SandboxPolicy) : bool :=
  match p with
  | DangerFullAccess => true
  | ExternalSandboxPolicy n => match n with NetworkAccessEnabled => true | _ => false end
  | ReadOnly n | WorkspaceWrite _ n _ _ => n
  end.

(** [From<&SandboxPolicy> for NetworkSandboxPolicy]. *)
Definition network_policy_of (p : SandboxPolicy) : NetworkSandboxPolicy :=
  if has_full_network_access p then NetworkEnabled else NetworkRestricted.

Section legacy.
Context `{ProcessEnv} (fs : fsys).

(** [SandboxPolicy::get_writable_roots_with_cwd]. *)
Definition legacy_writable_roots (p : SandboxPolicy) cwd : list WritableRoot :=
  match p with
  | DangerFullAccess | ExternalSandboxPolicy _ | ReadOnly _ => []
  | WorkspaceWrite writable_roots _ exclude_tmpdir_env_var exclude_slash_tmp =>
      let tmpdir :=
        tmpdir ← env_tmpdir;
        if exclude_tmpdir_env_var || String.eqb tmpdir "" then None
        else absolute (os_of tmpdir) in
      let roots :=
        writable_roots ++ option_list (absolute cwd) ++
        (if negb exclude_slash_tmp && fs_is_dir fs ["tmp"] then [["tmp"]] else []) ++
        option_list tmpdir in
      map (λ root, {|
        wr_root := root;
        read_only_subpaths :=
          default_read_only_subpaths_for_writable_root fs root
            (bool_decide (absolute cwd = Some root));
        protected_metadata_names := [] |}) roots
  end.

(** *** From legacy policies *)

Definition append_default_read_only_entry_if_no_explicit_rule
    (entries : list FileSystemSandboxEntry) (p : FileSystemPath) : list FileSystemSandboxEntry :=
  if existsb (λ entry, file_system_paths_share_target (entry_path entry) p) entries
  then entries else entries ++ [Entry p AccessRead].

Definition append_default_read_only_project_root_subpath_if_no_explicit_rule
    (entries : list FileSystemSandboxEntry) (subpath : string) : list FileSystemSandboxEntry :=
  append_default_read_only_entry_if_no_explicit_rule entries
    (Special (ProjectRoots (Some (os_of subpath)))).

Definition append_default_read_only_path_if_no_explicit_rule
    (entries : list FileSystemSandboxEntry) (p : path) : list FileSystemSandboxEntry :=
  append_default_read_only_entry_if_no_explicit_rule entries (PathEntry p).

(** The default read-only subpaths of one root, and of several. *)
Definition protect_root (protect_missing_dot_codex : bool)
    (entries : list FileSystemSandboxEntry) (root : path) : list FileSystemSandboxEntry :=
  foldl append_default_read_only_path_if_no_explicit_rule entries
    (default_read_only_subpaths_for_writable_root fs root protect_missing_dot_codex).

(** The entries every workspace policy starts with. *)
Definition workspace_entries (writable_roots : list path)
    (exclude_tmpdir_env_var exclude_slash_tmp : bool) : list FileSystemSandboxEntry :=
  [Entry (Special Root) AccessRead; Entry (Special (ProjectRoots None)) AccessWrite] ++
  (if exclude_slash_tmp then [] else [Entry (Special SlashTmp) AccessWrite]) ++
  (if exclude_tmpdir_env_var then [] else [Entry (Special Tmpdir) AccessWrite]) ++
  map (λ root, Entry (PathEntry root) AccessWrite) writable_roots.

Definition workspace_write (writable_roots : list path)
    (exclude_tmpdir_env_var exclude_slash_tmp : bool) : FileSystemSandboxPolicy :=
  restricted
    (foldl (protect_root false)
       (foldl append_default_read_only_project_root_subpath_if_no_explicit_rule
          (workspace_entries writable_roots exclude_tmpdir_env_var exclude_slash_tmp)
          [".git"; ".agents"; ".codex"])
       writable_roots).

(** [From<&SandboxPolicy> for FileSystemSandboxPolicy]. *)
Definition from_legacy (p : SandboxPolicy) : FileSystemSandboxPolicy :=
  match p with
  | DangerFullAccess => unrestricted
  | ExternalSandboxPolicy _ => external_sandbox
  | ReadOnly _ => restricted [Entry (Special Root) AccessRead]
  | WorkspaceWrite writable_roots _ exclude_tmpdir_env_var exclude_slash_tmp =>
      workspace_write writable_roots exclude_tmpdir_env_var exclude_slash_tmp
  end.

Definition protect_cwd cwd (entries : list FileSystemSandboxEntry)
  : list FileSystemSandboxEntry :=
  match absolute cwd with Some root => protect_root true entries root | None => entries end.

Definition from_legacy_sandbox_policy_for_cwd (p : SandboxPolicy) cwd
  : FileSystemSandboxPolicy :=
  let policy := from_legacy p in
  match p with
  | WorkspaceWrite writable_roots _ _ _ =>
      set_entries (foldl (protect_root false) (protect_cwd cwd (policy_entries policy))
                     writable_roots) policy
  | _ => policy
  end.

Definition from_legacy_sandbox_policy_preserving_deny_entries (p : SandboxPolicy) cwd
    (existing : FileSystemSandboxPolicy) : FileSystemSandboxPolicy :=
  let rebuilt := from_legacy_sandbox_policy_for_cwd p cwd in
  if negb (is_restricted rebuilt) then rebuilt else
  {| policy_kind := policy_kind rebuilt;
     glob_scan_max_depth := glob_scan_max_depth existing;
     policy_entries := add_deny_entries (policy_entries rebuilt) existing |}.

Definition legacy_runtime_file_system_policy_for_cwd (p : SandboxPolicy) cwd
  : FileSystemSandboxPolicy :=
  match p with
  | WorkspaceWrite writable_roots _ exclude_tmpdir_env_var exclude_slash_tmp =>
      restricted
        (foldl (protect_root false)
           (protect_cwd cwd
              (workspace_entries writable_roots exclude_tmpdir_env_var exclude_slash_tmp))
           writable_roots)
  | _ => from_legacy p
  end.

Definition with_additional_legacy_workspace_writable_roots policy
    (additional_writable_roots : list path) : FileSystemSandboxPolicy :=
  if negb (is_restricted policy) then policy else
  set_entries
    (foldl (λ entries root,
       protect_root false
         (if existsb (λ entry, can_write (entry_access entry) &&
                               bool_decide (entry_path entry = PathEntry root)) entries
          then entries else entries ++ [Entry (PathEntry root) AccessWrite]) root)
       (policy_entries policy) additional_writable_roots) policy.

(** *** To legacy policies *)

(** What the loop over the entries collects. *)
Record LegacyScan := {
  workspace_root_writable : bool;
  scanned_writable_roots : list path;
  tmpdir_writable : bool;
  slash_tmp_writable : bool;
  unbridgeable_root_write : bool
}.

Definition empty_scan : LegacyScan := {|
  workspace_root_writable := false; scanned_writable_roots := [];
  tmpdir_writable := false; slash_tmp_writable := false; unbridgeable_root_write := false |}.

Definition mark_workspace_root (s : LegacyScan) : LegacyScan := {|
  workspace_root_writable := true; scanned_writable_roots := scanned_writable_roots s;
  tmpdir_writable := tmpdir_writable s; slash_tmp_writable := slash_tmp_writable s;
  unbridgeable_root_write := unbridgeable_root_write s |}.
Definition push_writable_root (p : path) (s : LegacyScan) : LegacyScan := {|
  workspace_root_writable := workspace_root_writable s;
  scanned_writable_roots := scanned_writable_roots s ++ [p];
  tmpdir_writable := tmpdir_writable s; slash_tmp_writable := slash_tmp_writable s;
  unbridgeable_root_write := unbridgeable_root_write s |}.
Definition mark_tmpdir (s : LegacyScan) : LegacyScan := {|
  workspace_root_writable := workspace_root_writable s;
  scanned_writable_roots := scanned_writable_roots s;
  tmpdir_writable := true; slash_tmp_writable := slash_tmp_writable s;
  unbridgeable_root_write := unbridgeable_root_write s |}.
Definition mark_slash_tmp (s : LegacyScan) : LegacyScan := {|
  workspace_root_writable := workspace_root_writable s;
  scanned_writable_roots := scanned_writable_roots s;
  tmpdir_writable := tmpdir_writable s; slash_tmp_writable := true;
  unbridgeable_root_write := unbridgeable_root_write s |}.
Definition mark_root_write (s : LegacyScan) : LegacyScan := {|
  workspace_root_writable := workspace_root_writable s;
  scanned_writable_roots := scanned_writable_roots s;
  tmpdir_writable := tmpdir_writable s; slash_tmp_writable := slash_tmp_writable s;
  unbridgeable_root_write := true |}.

Definition scan_entry (cwd_absolute : option path) (s : LegacyScan) entry : LegacyScan :=
  let writes := can_write (entry_access entry) in
  match entry_path entry with
  | GlobPattern _ => s
  | PathEntry p =>
      if negb writes then s
      else if bool_decide (cwd_absolute = Some p) then mark_workspace_root s
      else push_writable_root p s
  | Special value =>
      match value with
      | Root => if writes then mark_root_write s else s
      | Minimal | Unknown _ _ => s
      | ProjectRoots subpath =>
          if bool_decide (subpath = None) && writes then mark_workspace_root s else
          match resolve_file_system_special_path fs value cwd_absolute with
          | Some p => if writes then push_writable_root p s else s
          | None => s
          end
      | Tmpdir => if writes then mark_tmpdir s else s
      | SlashTmp => if writes then mark_slash_tmp s else s
      end
  end.

Definition UNBRIDGEABLE_POLICY : string :=
  "permissions profile requests filesystem writes outside the workspace root, which is not supported until the runtime enforces FileSystemSandboxPolicy directly".

(** A policy without restrictions of its own. *)
Definition unsandboxed_policy (network : NetworkSandboxPolicy) : SandboxPolicy :=
  if is_enabled network then DangerFullAccess else ExternalSandboxPolicy NetworkAccessRestricted.

Definition to_legacy_sandbox_policy policy (network : NetworkSandboxPolicy) cwd
  : io_error + SandboxPolicy :=
  match policy_kind policy with
  | ExternalSandbox => inr (ExternalSandboxPolicy (network_access_of network))
  | Unrestricted => inr (unsandboxed_policy network)
  | Restricted =>
      let s := foldl (scan_entry (absolute cwd)) empty_scan (policy_entries policy) in
      if has_full_disk_write_access policy then inr (unsandboxed_policy network)
      else if workspace_root_writable s then
        inr (WorkspaceWrite (dedup_absolute_paths fs (scanned_writable_roots s) false)
               (is_enabled network) (negb (tmpdir_writable s)) (negb (slash_tmp_writable s)))
      else if unbridgeable_root_write s || negb (bool_decide (scanned_writable_roots s = []))
              || tmpdir_writable s || slash_tmp_writable s
      then inl {| ek := InvalidInput; etext := UNBRIDGEABLE_POLICY |}
      else inr (ReadOnly (is_enabled network))
  end.

(** ** Comparing policies *)

Record FileSystemSemanticSignature := {
  sig_full_disk_read : bool;
  sig_full_disk_write : bool;
  sig_platform_defaults : bool;
  sig_readable_roots : list path;
  sig_writable_roots : list WritableRoot;
  sig_unreadable_roots : list path;
  sig_unreadable_globs : list string
}.

#[global] Instance FileSystemSemanticSignature_eq_dec : EqDecision FileSystemSemanticSignature.
Proof. solve_decision. Defined.

Definition sorted_absolute_paths (paths : list path) : list path := sort_by path_leb paths.

Definition sorted_writable_roots (roots : list WritableRoot) : list WritableRoot :=
  sort_by (λ l r, path_leb (wr_root l) (wr_root r))
    (map (λ w, {|
       wr_root := wr_root w;
       read_only_subpaths := sorted_absolute_paths (read_only_subpaths w);
       protected_metadata_names :=
         dedup_adjacent (merge_sort String.le (protected_metadata_names w)) |}) roots).

Definition semantic_signature policy cwd : FileSystemSemanticSignature := {|
  sig_full_disk_read := has_full_disk_read_access policy;
  sig_full_disk_write := has_full_disk_write_access policy;
  sig_platform_defaults := include_platform_defaults policy;
  sig_readable_roots := sorted_absolute_paths (get_readable_roots_with_cwd fs policy cwd);
  sig_writable_roots := sorted_writable_roots (get_writable_roots_with_cwd fs policy cwd);
  sig_unreadable_roots := sorted_absolute_paths (get_unreadable_roots_with_cwd fs policy cwd);
  sig_unreadable_globs := get_unreadable_globs_with_cwd policy cwd |}.

Definition is_semantically_equivalent_to policy (other : FileSystemSandboxPolicy) cwd : bool :=
  bool_decide (semantic_signature policy cwd = semantic_signature other cwd).

Definition protected_metadata_names_need_direct_runtime_enforcement policy
    (legacy_policy : SandboxPolicy) cwd : bool :=
  let legacy_roots := legacy_writable_roots legacy_policy cwd in
  existsb (λ w,
    match List.find (λ candidate, bool_decide (wr_root candidate = wr_root w)) legacy_roots with
    | None => negb (bool_decide (protected_metadata_names w = []))
    | Some legacy_root =>
        existsb (λ metadata_name,
          negb (existsb (λ subpath, bool_decide (subpath = abs_join (wr_root w) metadata_name))
                  (read_only_subpaths legacy_root))) (protected_metadata_names w)
    end) (get_writable_roots_with_cwd fs policy cwd).

Definition needs_direct_runtime_enforcement policy (network : NetworkSandboxPolicy) cwd : bool :=
  is_restricted policy &&
  match to_legacy_sandbox_policy policy network cwd with
  | inl _ => true
  | inr legacy_policy =>
      protected_metadata_names_need_direct_runtime_enforcement policy legacy_policy cwd ||
      negb (bool_decide (semantic_signature policy cwd =
              semantic_signature (legacy_runtime_file_system_policy_for_cwd legacy_policy cwd)
                cwd))
  end.
End legacy.
