(* ===== verification/Profiles.v ===== *)
(** * Permission profiles, and the permissions added to them

    The profiles of [protocol/src/models.rs] and the transformations of
    [sandboxing/src/policy_transforms.rs]: normalizing, merging and
    intersecting the additional permissions of a command, and the profile a
    command runs with. *)

From S2P Require Import Prelude RustStr FsModel ExecFs Permissions SandboxRoots.

Implicit Types (policy : FileSystemSandboxPolicy) (entry : FileSystemSandboxEntry).
Implicit Types (cwd : os_path).

(** ** Additional permissions (models.rs) *)

(** A [NonZeroUsize] is a positive number. *)
Record FileSystemPermissions := {
  fsp_entries : list FileSystemSandboxEntry;
  fsp_glob_scan_max_depth : option positive
}.

Definition non_zero (n : N) : option positive :=
  match n with N0 => None | Npos p => Some p end.

Definition fsp_is_empty (f : FileSystemPermissions) : bool := bool_decide (fsp_entries f = []).

Definition default_file_system_permissions : FileSystemPermissions :=
  {| fsp_entries := []; fsp_glob_scan_max_depth := None |}.

Definition from_read_write_roots (read write : option (list path)) : FileSystemPermissions := {|
  fsp_entries :=
    map (λ p, Entry (PathEntry p) AccessRead) (default [] read) ++
    map (λ p, Entry (PathEntry p) AccessWrite) (default [] write);
  fsp_glob_scan_max_depth := None |}.

Definition explicit_path_entries (f : FileSystemPermissions)
  : list (path * FileSystemAccessMode) :=
  omap (λ entry, match entry_path entry with
                 | PathEntry p => Some (p, entry_access entry)
                 | _ => None
                 end) (fsp_entries f).

Record LegacyFileSystemPermissions := {
  legacy_read : option (list path);
  legacy_write : option (list path)
}.

(** One entry of the loop: the paths read and written so far. *)
Definition add_legacy_entry (acc : list path * list path) entry
  : option (list path * list path) :=
  match entry_path entry, entry_access entry with
  | PathEntry p, AccessRead => Some (acc.1 ++ [p], acc.2)
  | PathEntry p, AccessWrite => Some (acc.1, acc.2 ++ [p])
  | _, _ => None
  end.

Definition some_non_empty (l : list path) : option (list path) :=
  match l with [] => None | _ => Some l end.

Definition as_legacy_permissions (f : FileSystemPermissions)
  : option LegacyFileSystemPermissions :=
  match fsp_glob_scan_max_depth f with
  | Some _ => None
  | None =>
      '(read, write) ← foldl (λ acc entry, acc ≫= λ rw, add_legacy_entry rw entry)
                         (Some ([], [])) (fsp_entries f);
      Some {| legacy_read := some_non_empty read; legacy_write := some_non_empty write |}
  end.

(** What is serialized, and what a deserialized value becomes. *)
Definition to_serialized (f : FileSystemPermissions)
  : LegacyFileSystemPermissions + FileSystemPermissions :=
  match as_legacy_permissions f with Some legacy => inl legacy | None => inr f end.
Definition of_serialized (v : LegacyFileSystemPermissions + FileSystemPermissions)
  : FileSystemPermissions :=
  match v with
  | inl legacy => from_read_write_roots (legacy_read legacy) (legacy_write legacy)
  | inr canonical => canonical
  end.

Record NetworkPermissions := { network_enabled : option bool }.
Definition network_is_empty (n : NetworkPermissions) : bool :=
  bool_decide (network_enabled n = None).

Record AdditionalPermissionProfile := {
  ap_network : option NetworkPermissions;
  ap_file_system : option FileSystemPermissions
}.
Definition ap_is_empty (p : AdditionalPermissionProfile) : bool :=
  match ap_network p, ap_file_system p with None, None => true | _, _ => false end.

(** ** Profiles *)

Inductive SandboxEnforcement :=
| EnforcementManaged | EnforcementDisabled | EnforcementExternal.

Definition enforcement_from_legacy (p : SandboxPolicy) : SandboxEnforcement :=
  match p with
  | DangerFullAccess => EnforcementDisabled
  | ExternalSandboxPolicy _ => EnforcementExternal
  | ReadOnly _ | WorkspaceWrite _ _ _ _ => EnforcementManaged
  end.

Inductive ManagedFileSystemPermissions :=
| ManagedRestricted (entries : list FileSystemSandboxEntry)
    (glob_scan_max_depth : option positive)
| ManagedUnrestricted.

(** [from_sandbox_policy] is [unreachable!] for an external policy, and never
    called with one. *)
Definition managed_of policy : option ManagedFileSystemPermissions :=
  match policy_kind policy with
  | Restricted =>
      Some (ManagedRestricted (policy_entries policy) (glob_scan_max_depth policy ≫= non_zero))
  | Unrestricted => Some ManagedUnrestricted
  | ExternalSandbox => None
  end.

Definition managed_policy (m : ManagedFileSystemPermissions) : FileSystemSandboxPolicy :=
  match m with
  | ManagedRestricted entries depth =>
      {| policy_kind := Restricted; glob_scan_max_depth := Npos <$> depth;
         policy_entries := entries |}
  | ManagedUnrestricted => unrestricted
  end.

Inductive PermissionProfile :=
| Managed (file_system : ManagedFileSystemPermissions) (network : NetworkSandboxPolicy)
| Disabled
| External (network : NetworkSandboxPolicy).

Definition read_only_profile : PermissionProfile :=
  Managed (ManagedRestricted [Entry (Special Root) AccessRead] None) NetworkRestricted.

Definition managed_profile policy (network : NetworkSandboxPolicy) : PermissionProfile :=
  match managed_of policy with
  | Some file_system => Managed file_system network
  | None => Disabled
  end.

Definition from_runtime_permissions_with_enforcement (enforcement : SandboxEnforcement) policy
    (network : NetworkSandboxPolicy) : PermissionProfile :=
  match policy_kind policy, enforcement with
  | ExternalSandbox, _ => External network
  | Unrestricted, EnforcementDisabled => Disabled
  | _, _ => managed_profile policy network
  end.

Definition from_runtime_permissions policy (network : NetworkSandboxPolicy)
  : PermissionProfile :=
  from_runtime_permissions_with_enforcement
    match policy_kind policy with
    | Restricted | Unrestricted => EnforcementManaged
    | ExternalSandbox => EnforcementExternal
    end policy network.

Definition enforcement (p : PermissionProfile) : SandboxEnforcement :=
  match p with
  | Managed _ _ => EnforcementManaged
  | Disabled => EnforcementDisabled
  | External _ => EnforcementExternal
  end.

Definition file_system_sandbox_policy (p : PermissionProfile) : FileSystemSandboxPolicy :=
  match p with
  | Managed file_system _ => managed_policy file_system
  | Disabled => unrestricted
  | External _ => external_sandbox
  end.

Definition network_sandbox_policy (p : PermissionProfile) : NetworkSandboxPolicy :=
  match p with
  | Managed _ network | External network => network
  | Disabled => NetworkEnabled
  end.

Definition to_runtime_permissions (p : PermissionProfile)
  : FileSystemSandboxPolicy * NetworkSandboxPolicy :=
  (file_system_sandbox_policy p, network_sandbox_policy p).

Section profiles.
Context `{ProcessEnv} (fs : fsys).

Definition workspace_write_with (writable_roots : list path) (network : NetworkSandboxPolicy)
    (exclude_tmpdir_env_var exclude_slash_tmp : bool) : PermissionProfile :=
  managed_profile
    (workspace_write fs writable_roots exclude_tmpdir_env_var exclude_slash_tmp) network.

Definition profile_from_legacy (p : SandboxPolicy) : PermissionProfile :=
  from_runtime_permissions_with_enforcement (enforcement_from_legacy p) (from_legacy fs p)
    (network_policy_of p).

Definition profile_from_legacy_for_cwd (p : SandboxPolicy) cwd : PermissionProfile :=
  from_runtime_permissions_with_enforcement (enforcement_from_legacy p)
    (from_legacy_sandbox_policy_for_cwd fs p cwd) (network_policy_of p).

Definition profile_to_legacy (p : PermissionProfile) cwd : io_error + SandboxPolicy :=
  match p with
  | Managed file_system network =>
      to_legacy_sandbox_policy fs (managed_policy file_system) network cwd
  | Disabled => inr DangerFullAccess
  | External network => inr (ExternalSandboxPolicy (network_access_of network))
  end.

Definition materialize_profile (p : PermissionProfile) (workspace_roots : list path)
  : PermissionProfile :=
  match p with
  | Managed file_system network =>
      managed_profile
        (materialize_project_roots_with_workspace_roots (managed_policy file_system)
           workspace_roots) network
  | _ => p
  end.
End profiles.

(** [From] for [FileSystemPermissions], and back. *)
Definition permissions_of_policy policy : FileSystemPermissions := {|
  fsp_entries :=
    match policy_kind policy with
    | Restricted => policy_entries policy
    | Unrestricted | ExternalSandbox => [Entry (Special Root) AccessWrite]
    end;
  fsp_glob_scan_max_depth := glob_scan_max_depth policy ≫= non_zero |}.
Definition policy_of_permissions (f : FileSystemPermissions) : FileSystemSandboxPolicy := {|
  policy_kind := Restricted; glob_scan_max_depth := Npos <$> fsp_glob_scan_max_depth f;
  policy_entries := fsp_entries f |}.

(** [From<LegacyPermissionProfile> for PermissionProfile]. *)
Definition profile_of_untagged (network : option NetworkPermissions)
    (file_system : option FileSystemPermissions) : PermissionProfile :=
  from_runtime_permissions
    match file_system with Some f => policy_of_permissions f | None => restricted [] end
    (if default false (network ≫= network_enabled) then NetworkEnabled else NetworkRestricted).

(** * Combining permissions (policy_transforms.rs) *)

(** ** The depth globs are scanned to *)

Inductive GlobScanDepth := Bounded (depth : N) | Unbounded.

Definition is_deny_glob entry : bool :=
  is_deny entry && match entry_path entry with GlobPattern _ => true | _ => false end.

Definition effective_glob_scan_depth (entries : list FileSystemSandboxEntry) (depth : option N)
  : option GlobScanDepth :=
  if existsb is_deny_glob entries
  then Some match depth with Some d => Bounded d | None => Unbounded end else None.

Definition merge_glob_scan_max_depth (left_entries : list FileSystemSandboxEntry)
    (left_depth : option N) (right_entries : list FileSystemSandboxEntry)
    (right_depth : option N) : option N :=
  match effective_glob_scan_depth left_entries left_depth,
        effective_glob_scan_depth right_entries right_depth with
  | Some Unbounded, _ | _, Some Unbounded => None
  | Some (Bounded l), Some (Bounded r) => Some (N.max l r)
  | Some (Bounded d), None | None, Some (Bounded d) => Some d
  | None, None => None
  end.

(** ** Merging *)

Definition merge_permission_entries (base permissions : list FileSystemSandboxEntry)
  : list FileSystemSandboxEntry := foldl push_unique [] (base ++ permissions).

Definition merge_file_systems (base permissions : FileSystemPermissions)
  : FileSystemPermissions := {|
  fsp_entries := merge_permission_entries (fsp_entries base) (fsp_entries permissions);
  fsp_glob_scan_max_depth :=
    merge_glob_scan_max_depth (fsp_entries base) (Npos <$> fsp_glob_scan_max_depth base)
      (fsp_entries permissions) (Npos <$> fsp_glob_scan_max_depth permissions) ≫= non_zero |}.

Definition network_granted (n : option NetworkPermissions) : bool :=
  bool_decide (network_enabled <$> n = Some (Some true)).

Definition enabled_network : NetworkPermissions := {| network_enabled := Some true |}.

(** [Option::filter]. *)
Definition opt_filter {A : Type} (f : A → bool) (o : option A) : option A :=
  match o with Some a => if f a then Some a else None | None => None end.

Definition merge_permission_profiles (base permissions : option AdditionalPermissionProfile)
  : option AdditionalPermissionProfile :=
  match permissions, base with
  | None, _ => base
  | Some permissions, Some base =>
      opt_filter (negb ∘ ap_is_empty) (Some {|
        ap_network :=
          if network_granted (ap_network base) || network_granted (ap_network permissions)
          then Some enabled_network else None;
        ap_file_system :=
          match ap_file_system base, ap_file_system permissions with
          | Some b, Some p => opt_filter (negb ∘ fsp_is_empty) (Some (merge_file_systems b p))
          | Some b, None => Some b
          | None, Some p => Some p
          | None, None => None
          end |})
  | Some permissions, None => opt_filter (negb ∘ ap_is_empty) (Some permissions)
  end.

Definition merge_file_system_policy_with_additional_permissions policy
    (f : FileSystemPermissions) : FileSystemSandboxPolicy :=
  match policy_kind policy with
  | Restricted => {|
      policy_kind := Restricted;
      glob_scan_max_depth :=
        merge_glob_scan_max_depth (policy_entries policy) (glob_scan_max_depth policy)
          (fsp_entries f) (Npos <$> fsp_glob_scan_max_depth f);
      policy_entries := foldl push_unique (policy_entries policy) (fsp_entries f) |}
  | Unrestricted | ExternalSandbox => policy
  end.

Definition effective_file_system_sandbox_policy policy
    (additional_permissions : option AdditionalPermissionProfile) : FileSystemSandboxPolicy :=
  match additional_permissions ≫= ap_file_system with
  | None => policy
  | Some f =>
      if fsp_is_empty f then policy
      else merge_file_system_policy_with_additional_permissions policy f
  end.

Definition merge_network_access (base_network_access : bool) (p : AdditionalPermissionProfile)
  : bool := base_network_access || default false (ap_network p ≫= network_enabled).

Definition effective_network_sandbox_policy (network : NetworkSandboxPolicy)
    (additional_permissions : option AdditionalPermissionProfile) : NetworkSandboxPolicy :=
  match additional_permissions with
  | Some p =>
      if merge_network_access (is_enabled network) p then NetworkEnabled else NetworkRestricted
  | None => network
  end.

Definition effective_permission_profile (p : PermissionProfile)
    (additional_permissions : option AdditionalPermissionProfile) : PermissionProfile :=
  let '(file_system_policy, network_policy) := to_runtime_permissions p in
  from_runtime_permissions_with_enforcement (enforcement p)
    (effective_file_system_sandbox_policy file_system_policy additional_permissions)
    (effective_network_sandbox_policy network_policy additional_permissions).

Definition should_require_platform_sandbox policy (network : NetworkSandboxPolicy)
    (has_managed_network_requirements : bool) : bool :=
  if has_managed_network_requirements then true
  else if negb (is_enabled network) then
    match policy_kind policy with ExternalSandbox => false | _ => true end
  else
    match policy_kind policy with
    | Restricted => negb (has_full_disk_write_access policy)
    | Unrestricted | ExternalSandbox => false
    end.

(** ** Normalizing and intersecting *)

Section transforms.
Context `{ProcessEnv, Globset} (fs : fsys).

Definition normalize_additional_entry entry : string + FileSystemSandboxEntry :=
  match entry_path entry with
  | GlobPattern _ =>
      if is_deny entry then inr entry
      else inl "glob file system permissions only support deny-read entries"
  | PathEntry p =>
      inr (Entry (PathEntry (default p (canonicalize_preserving_symlinks fs (as_path p)
                                          ≫= (absolute ∘ as_path)))) (entry_access entry))
  | Special _ => inr entry
  end.

Definition normalize_additional_permissions (p : AdditionalPermissionProfile)
  : string + AdditionalPermissionProfile :=
  let network := opt_filter (negb ∘ network_is_empty) (ap_network p) in
  match ap_file_system p with
  | None => inr {| ap_network := network; ap_file_system := None |}
  | Some f =>
      let? entries := try_fold (λ entries entry,
        let? normalized_entry := normalize_additional_entry entry in
        inr (push_unique entries normalized_entry)) [] (fsp_entries f) in
      let f' := {| fsp_entries := entries;
                   fsp_glob_scan_max_depth := fsp_glob_scan_max_depth f |} in
      inr {| ap_network := network;
             ap_file_system := if negb (fsp_is_empty f') then Some f' else None |}
  end.

(** The root of a relative directory is the empty path, which is resolved
    against the current directory. *)
Definition resolve_permission_path (p : FileSystemPath) cwd : option path :=
  match p with
  | PathEntry p => Some p
  | GlobPattern _ => None
  | Special value =>
      match value with
      | Root => absolute (OsPath (os_root cwd) [])
      | ProjectRoots subpath =>
          cwd ← absolute cwd;
          Some match subpath with Some sub => resolve_against sub cwd | None => cwd end
      | Tmpdir =>
          tmpdir ← env_tmpdir;
          if String.eqb tmpdir "" then None else absolute (os_of tmpdir)
      | SlashTmp => if fs_is_dir fs ["tmp"] then Some ["tmp"] else None
      | Minimal | Unknown _ _ => None
      end
  end.

Definition access_covers (requested granted : FileSystemAccessMode) : bool :=
  match granted with
  | AccessRead => can_read requested
  | AccessWrite => can_write requested
  | AccessNone => false
  end.

Definition paths_overlap (l r : path) : bool := path_starts_with r l || path_starts_with l r.

(** Everything before the first wildcard, cut at its last separator. *)
Definition glob_static_prefix_path (pattern : string) cwd : option path :=
  let resolved_pattern := os_str (resolve_text_against pattern cwd) in
  match fst <$> list_find (λ c, c ∈ ["*"%char; "?"%char; "["%char; "]"%char])
                  (bytes resolved_pattern) with
  | Some 0 => None
  | Some index =>
      let prefix := take index (bytes resolved_pattern) in
      let p := os_of (of_bytes prefix) in
      if bool_decide (last prefix = Some "/"%char) || bool_decide (last prefix = Some "\"%char)
      then absolute p
      else match os_comps p with
           | [] => None
           | _ => absolute (OsPath (os_root p) (removelast (os_comps p)))
           end
  | None => absolute (os_of resolved_pattern)
  end.

Definition materialize_cwd_dependent_entry cwd entry : FileSystemSandboxEntry :=
  match entry_path entry with
  | Special (ProjectRoots _) =>
      match resolve_permission_path (entry_path entry) cwd with
      | Some p => Entry (PathEntry p) (entry_access entry)
      | None => entry
      end
  | GlobPattern pattern =>
      Entry (GlobPattern (os_str (resolve_text_against pattern cwd))) (entry_access entry)
  | _ => entry
  end.

Definition deny_entry_constrains_accepted_grant (accepted : list FileSystemSandboxEntry) cwd
    (deny : FileSystemSandboxEntry) : bool :=
  existsb (λ entry,
    match resolve_permission_path (entry_path entry) cwd with
    | None => false
    | Some grant_path =>
        match match entry_path deny with
              | GlobPattern pattern => glob_static_prefix_path pattern cwd
              | p => resolve_permission_path p cwd
              end with
        | Some deny_path => paths_overlap deny_path grant_path
        | None => false
        end
    end) (List.filter (λ entry, can_read (entry_access entry)) accepted).

(** The entries kept, for the output and for the depth. *)
Definition retain_constraining_deny_entries (source accepted : list FileSystemSandboxEntry) cwd
    (output : list FileSystemSandboxEntry)
  : list FileSystemSandboxEntry * list FileSystemSandboxEntry :=
  let retained :=
    map (materialize_cwd_dependent_entry cwd)
      (List.filter (deny_entry_constrains_accepted_grant accepted cwd)
         (List.filter is_deny source)) in
  (foldl push_unique output retained, retained).

Definition granted_file_system_entry_within_request (requested : FileSystemPermissions)
    (requested_policy : FileSystemSandboxPolicy) (matcher : option ReadDenyMatcher) cwd
    (granted : FileSystemSandboxEntry) : bool :=
  if negb (can_read (entry_access granted)) then false else
  match resolve_permission_path (entry_path granted) cwd with
  | Some p =>
      if match matcher with Some m => is_read_denied fs m (as_path p) | None => false end
      then false
      else access_covers (resolve_access_with_cwd fs requested_policy (as_path p) cwd)
             (entry_access granted)
  | None =>
      existsb (λ requested_entry,
        access_covers (entry_access requested_entry) (entry_access granted) &&
        bool_decide (entry_path requested_entry = entry_path granted)) (fsp_entries requested)
  end.

(** [None] where the construction of the matcher panics, which it never does
    ([read_deny_matcher_total]). *)
Definition intersect_file_systems (requested granted : FileSystemPermissions) cwd
  : option FileSystemPermissions :=
  let requested_policy := restricted (fsp_entries requested) in
  matcher ← read_deny_matcher_new fs requested_policy cwd;
  let accepted :=
    foldl push_unique []
      (map (materialize_cwd_dependent_entry cwd)
         (List.filter
            (granted_file_system_entry_within_request requested requested_policy matcher cwd)
            (fsp_entries granted))) in
  let '(entries, requested_retained) :=
    retain_constraining_deny_entries (fsp_entries requested) accepted cwd accepted in
  let '(entries, granted_retained) :=
    retain_constraining_deny_entries (fsp_entries granted) accepted cwd entries in
  Some {|
    fsp_entries := entries;
    fsp_glob_scan_max_depth :=
      merge_glob_scan_max_depth requested_retained (Npos <$> fsp_glob_scan_max_depth requested)
        granted_retained (Npos <$> fsp_glob_scan_max_depth granted) ≫= non_zero |}.

Definition intersect_permission_profiles (requested granted : AdditionalPermissionProfile) cwd
  : option AdditionalPermissionProfile :=
  let network :=
    if network_granted (ap_network requested) && network_granted (ap_network granted)
    then Some enabled_network else None in
  match ap_file_system requested with
  | None => Some {| ap_network := network; ap_file_system := None |}
  | Some requested_file_system =>
      f ← intersect_file_systems requested_file_system
            (default default_file_system_permissions (ap_file_system granted)) cwd;
      Some {| ap_network := network;
              ap_file_system := if negb (fsp_is_empty f) then Some f else None |}
  end.
End transforms.
