(* ===== verification/PermProps.v ===== *)
(** * What file-system permissions guarantee

    The most specific entry decides, protected metadata stays unwritable,
    denied paths stay denied when a policy is replaced or extended, added
    roots only add access, and full access means every path. *)

From S2P Require Import Prelude RustStr FsModel FsFacts FsxProps ExecFs Permissions PermFacts.
From S2P Require Import SandboxRoots Profiles.

Implicit Types (policy : FileSystemSandboxPolicy) (entry : FileSystemSandboxEntry).
Implicit Types (cwd p : os_path) (target r root : path).

Section access.
Context `{ProcessEnv} (fs : fsys).

(** ** Precedence *)

(** C20: The access of a path is decided by the nearest of its ancestors that has an
    entry, where denying beats writing and writing beats reading, whatever the order
    of the entries is. *)
Theorem access_most_specific policy p cwd target :
  policy_kind policy = Restricted → resolve_candidate_path p cwd = Some target →
  resolve_access_with_cwd fs policy p cwd =
    nearest_access (resolved_entries_with_cwd fs policy cwd) target ∧
  ∀ policy', policy_kind policy' = Restricted →
    policy_entries policy' ≡ₚ policy_entries policy →
    resolve_access_with_cwd fs policy' p cwd = resolve_access_with_cwd fs policy p cwd.
Proof.
  intros K C. split; [by apply resolve_access_nearest|]. intros policy' K' P.
  rewrite !(resolve_access_nearest _ _ _ _ target) by done. apply nearest_access_ext.
  intros e. rewrite !elem_of_resolved. by setoid_rewrite P.
Qed.

(** ** Protected metadata *)

Lemma abs_join_ends (base : path) n : n ∈ PROTECTED_METADATA_PATH_NAMES → n ∈ abs_join base n.
Proof.
  intros Hn. apply protected_plain in Hn as HP. destruct HP as [P _].
  unfold abs_join, resolve_path_against_base.
  replace (maybe_expand_home_directory env_home n) with n.
  - unfold absolutize_from, path_with_base. rewrite join_plain by done.
    unfold normalize_path. rewrite foldl_app. simpl. unfold normalize_step at 1.
    pose proof (plain_not_dotdot _ P) as D. apply String.eqb_neq in D. rewrite D. set_solver.
  - unfold PROTECTED_METADATA_PATH_NAMES in Hn. rewrite !elem_of_cons, elem_of_nil in Hn.
    destruct env_home, Hn as [->|[->|[->|[]]]]; done.
Qed.

(** A path with a metadata child and no explicit entry is denied. *)
Lemma metadata_denied policy p cwd target q n :
  policy_kind policy = Restricted → resolve_candidate_path p cwd = Some target →
  metadata_child_of_writable_root fs policy target cwd = Some (q, n) →
  has_explicit_write_entry_for_metadata_path fs policy q target cwd = false →
  is_metadata_write_denied fs policy p cwd = true.
Proof.
  intros K C M E. unfold is_metadata_write_denied, is_restricted. by rewrite K, C, M, E.
Qed.

(** C21: Unless the policy allows all writes, a path below [.git], [.agents] or
    [.codex] of a writable directory is not writable, and the agent is told which
    name protects it, as long as no writable directory lies inside such metadata. *)
Theorem protected_metadata_unwritable policy p cwd target r n :
  plain_current_dir →
  policy_kind policy = Restricted → has_full_disk_write_access policy = false →
  resolve_candidate_path p cwd = Some target →
  Resolved r AccessWrite ∈ resolved_entries_with_cwd fs policy cwd →
  n ∈ PROTECTED_METADATA_PATH_NAMES → r ++ [n] `prefix_of` target →
  (∀ w c, Resolved w AccessWrite ∈ resolved_entries_with_cwd fs policy cwd → c ∈ w →
          c ∉ PROTECTED_METADATA_PATH_NAMES) →
  can_write_path_with_cwd fs policy p cwd = false ∧
  ∃ m, forbidden_agent_metadata_write fs p cwd policy = Some m ∧
       m ∈ PROTECTED_METADATA_PATH_NAMES ∧ m ∈ target.
Proof.
  intros D K Fw C Hr Hn P W.
  destruct (metadata_child_of_writable_root fs policy target cwd) as [[q m]|] eqn:M.
  - pose proof M as M'. unfold metadata_child_of_writable_root in M'.
    apply head_omap_Some in M' as ([w a] & Hw & Em).
    apply metadata_child_spec in Em as (Ea & Hm & Pm & ->). simpl in *. subst a.
    assert (E : has_explicit_write_entry_for_metadata_path fs policy (abs_join w m) target cwd
                = false).
    { unfold has_explicit_write_entry_for_metadata_path. apply existsb_false_elem.
      intros [x a] Hx. destruct a; [done| |done]. simpl.
      destruct (path_starts_with x target); [|done]. simpl. apply path_starts_with_false.
      intros [k ->]. apply (W _ m Hx); [|done]. apply elem_of_app. left. by apply abs_join_ends. }
    assert (NW : ∀ p', resolve_candidate_path p' cwd = Some target →
                       can_write_path_with_cwd fs policy p' cwd = false).
    { intros p' C'. unfold can_write_path_with_cwd. rewrite Fw.
      rewrite (metadata_denied _ _ _ _ _ _ K C' M E). by rewrite andb_false_r. }
    split; [by apply NW|]. exists m. split_and!; [|done|].
    + unfold forbidden_agent_metadata_write, is_restricted. rewrite K. simpl. rewrite C. simpl.
      rewrite M. simpl. rewrite E, NW; [done|].
      by apply candidate_as_path, (candidate_plain D _ _ _ C).
    + destruct Pm as [k ->]. set_solver.
  - exfalso. assert (Hq : (abs_join r n, n) ∈ omap (metadata_child_of target)
                            (resolved_entries_with_cwd fs policy cwd)).
    { apply list_elem_of_omap. exists (Resolved r AccessWrite). split; [done|].
      by apply metadata_child_spec. }
    unfold metadata_child_of_writable_root in M. destruct (omap _ _); [set_solver|done].
Qed.

(** ** Denied paths stay denied *)

Lemma deny_entry_kept policy cwd p r entry :
  policy_kind policy = Restricted → entry ∈ policy_entries policy → is_deny entry = true →
  resolve_entry_path fs (entry_path entry) (absolute cwd) = Some r →
  resolve_candidate_path p cwd = Some r →
  resolve_access_with_cwd fs policy p cwd = AccessNone.
Proof.
  intros K He D R C. apply is_deny_spec in D. eapply deny_entry_denies; [done..|].
  rewrite <- D. by apply resolved_entry.
Qed.

Lemma elem_of_add_deny_entries entries existing entry :
  entry ∈ policy_entries existing → is_deny entry = true →
  entry ∈ add_deny_entries entries existing.
Proof.
  intros He D. unfold add_deny_entries. apply elem_of_push_all. right.
  by apply list_elem_of_In, filter_In; rewrite <- list_elem_of_In.
Qed.
Lemma effective_policy_entries policy additional entry :
  entry ∈ policy_entries policy →
  entry ∈ policy_entries (effective_file_system_sandbox_policy policy additional).
Proof.
  intros He. unfold effective_file_system_sandbox_policy.
  destruct (additional ≫= ap_file_system) as [f|]; [|done]. destruct (fsp_is_empty f); [done|].
  unfold merge_file_system_policy_with_additional_permissions.
  destruct (policy_kind policy); [|done..]. apply elem_of_push_all. by left.
Qed.

Lemma effective_kind policy additional :
  policy_kind (effective_file_system_sandbox_policy policy additional) = policy_kind policy.
Proof.
  unfold effective_file_system_sandbox_policy, merge_file_system_policy_with_additional_permissions.
  repeat case_match; done.
Qed.

Lemma extend_foldl (step : FileSystemSandboxPolicy → path → FileSystemSandboxPolicy) :
  (∀ policy root, step policy root = policy ∨ ∃ entry, step policy root = push_entry policy entry) →
  ∀ roots policy, policy_kind (foldl step policy roots) = policy_kind policy ∧
    ∀ entry, entry ∈ policy_entries policy → entry ∈ policy_entries (foldl step policy roots).
Proof.
  intros S roots. induction roots as [|root roots IH]; intros policy; [done|]. simpl.
  destruct (IH (step policy root)) as [K I]. destruct (S policy root) as [->|[e E]]; [done|].
  rewrite E in K, I |- *. split; [done|]. intros x Hx. apply I. set_solver.
Qed.

Lemma additional_readable_extends policy cwd roots :
  policy_kind (with_additional_readable_roots fs policy cwd roots) = policy_kind policy ∧
  ∀ entry, entry ∈ policy_entries policy →
           entry ∈ policy_entries (with_additional_readable_roots fs policy cwd roots).
Proof.
  unfold with_additional_readable_roots. destruct (has_full_disk_read_access policy); [done|].
  apply extend_foldl. intros ? root. case_match; eauto.
Qed.

Lemma additional_writable_extends policy cwd roots :
  policy_kind (with_additional_writable_roots fs policy cwd roots) = policy_kind policy ∧
  ∀ entry, entry ∈ policy_entries policy →
           entry ∈ policy_entries (with_additional_writable_roots fs policy cwd roots).
Proof.
  unfold with_additional_writable_roots. apply extend_foldl. intros ? root. case_match; eauto.
Qed.

(** C22: A path that an entry of a restricted policy denies is still denied when the
    policy is replaced by another one that keeps its denials, rebuilt from a legacy
    policy, extended by the permissions granted to a command, or given more readable
    or writable roots; only a policy that leaves the sandbox to others, or the full
    access of a legacy policy, lifts the denial. *)
Theorem denied_paths_stay_denied policy existing legacy additional roots cwd p r entry :
  policy_kind existing = Restricted →
  entry ∈ policy_entries existing → entry_access entry = AccessNone →
  resolve_entry_path fs (entry_path entry) (absolute cwd) = Some r →
  resolve_candidate_path p cwd = Some r →
  (policy_kind policy ≠ ExternalSandbox →
     resolve_access_with_cwd fs (preserve_deny_read_restrictions_from policy existing) p cwd
     = AccessNone) ∧
  (enforcement_from_legacy legacy = EnforcementManaged →
     resolve_access_with_cwd fs
       (from_legacy_sandbox_policy_preserving_deny_entries fs legacy cwd existing) p cwd
     = AccessNone) ∧
  resolve_access_with_cwd fs (effective_file_system_sandbox_policy existing additional) p cwd
    = AccessNone ∧
  resolve_access_with_cwd fs (with_additional_readable_roots fs existing cwd roots) p cwd
    = AccessNone ∧
  resolve_access_with_cwd fs (with_additional_writable_roots fs existing cwd roots) p cwd
    = AccessNone.
Proof.
  intros K He D R C. apply is_deny_spec in D as Dn. split_and!.
  - intros Kp. eapply deny_entry_kept; [|  |done..].
    + unfold preserve_deny_read_restrictions_from, is_restricted.
      assert (X : existsb is_deny (policy_entries existing) = true)
        by (apply existsb_exists_elem; eauto).
      rewrite X. by destruct (policy_kind policy) eqn:E; rewrite ?E.
    + unfold preserve_deny_read_restrictions_from, is_restricted.
      assert (X : existsb is_deny (policy_entries existing) = true)
        by (apply existsb_exists_elem; eauto).
      rewrite X. destruct (policy_kind policy) eqn:E; rewrite ?E; simpl; [..|done];
        by apply elem_of_add_deny_entries.
  - intros L. eapply deny_entry_kept; [| |done..];
      unfold from_legacy_sandbox_policy_preserving_deny_entries;
      destruct legacy as [|n|n|ws n t s]; try done; simpl; by apply elem_of_add_deny_entries.
  - eapply deny_entry_kept; [| |done..]; [by rewrite effective_kind|by apply effective_policy_entries].
  - destruct (additional_readable_extends existing cwd roots) as [K' I].
    eapply deny_entry_kept; [by rewrite K'|by apply I|done..].
  - destruct (additional_writable_extends existing cwd roots) as [K' I].
    eapply deny_entry_kept; [by rewrite K'|by apply I|done..].
Qed.
(** ** Added roots only add access *)

Lemma resolve_access_push policy p cwd target r a :
  policy_kind policy = Restricted → resolve_candidate_path p cwd = Some target →
  resolve_access_with_cwd fs (push_entry policy (Entry (PathEntry r) a)) p cwd =
  nearest_access (resolved_entries_with_cwd fs policy cwd ++ [Resolved r a]) target.
Proof.
  intros K C. rewrite (resolve_access_nearest _ _ _ _ target), resolved_push by done. done.
Qed.

(** Adding an entry at a directory that lacks the access it gives. *)
Lemma push_access_le policy p cwd r a :
  plain_path r → policy_kind policy = Restricted → a ≠ AccessNone →
  (a = AccessRead → resolve_access_with_cwd fs policy (as_path r) cwd = AccessNone) →
  access_le (resolve_access_with_cwd fs policy p cwd)
    (resolve_access_with_cwd fs (push_entry policy (Entry (PathEntry r) a)) p cwd).
Proof.
  intros F K Na Nr. destruct (resolve_candidate_path p cwd) as [t|] eqn:C.
  2:{ unfold resolve_access_with_cwd. by rewrite C, K. }
  rewrite (resolve_access_push _ _ _ _ _ _ K C), (resolve_access_nearest _ _ _ _ _ K C).
  rewrite (resolve_access_nearest _ _ _ _ r K) in Nr by by apply candidate_as_path.
  set (es := resolved_entries_with_cwd fs policy cwd) in *.
  destruct (nearest_access_snoc es r a t) as [->|(P & -> & N)]; [done|].
  rewrite (nearest_access_below _ _ _ P N).
  destruct (access_at es r) as [b|] eqn:A; simpl.
  - assert (nearest_access es r = b) as E.
    { eapply nearest_access_at; [done|done|]. intros k Pk L. apply prefix_length in Pk. lia. }
    rewrite E in *. destruct a, b; try done; specialize (Nr eq_refl); done.
  - destruct a; [by rewrite (Nr eq_refl)|by destruct (nearest_access es r)|done].
Qed.

Lemma full_disk_write_restricted policy p cwd target :
  policy_kind policy = Restricted → resolve_candidate_path p cwd = Some target →
  can_write_path_with_cwd fs policy p cwd = true ↔
  nearest_access (resolved_entries_with_cwd fs policy cwd) target = AccessWrite ∧
  (has_full_disk_write_access policy = true ∨
   ∀ q n, metadata_child_of_writable_root fs policy target cwd = Some (q, n) →
     has_explicit_write_entry_for_metadata_path fs policy q target cwd = true).
Proof.
  intros K C. unfold can_write_path_with_cwd, is_metadata_write_denied, is_restricted.
  rewrite K, C, (resolve_access_nearest _ _ _ _ _ K C), andb_true_iff, orb_true_iff, negb_true_iff.
  simpl. destruct (metadata_child_of_writable_root fs policy target cwd) as [[q n]|].
  - rewrite negb_false_iff. destruct (nearest_access _ _); simpl; naive_solver.
  - destruct (nearest_access _ _); simpl; naive_solver.
Qed.

Lemma explicit_entry_spec policy q target cwd :
  has_explicit_write_entry_for_metadata_path fs policy q target cwd = true ↔
  ∃ w, Resolved w AccessWrite ∈ resolved_entries_with_cwd fs policy cwd ∧
       w `prefix_of` target ∧ q `prefix_of` w.
Proof.
  unfold has_explicit_write_entry_for_metadata_path. rewrite existsb_exists_elem. split.
  - intros ([w a] & Hw & E). simpl in E. rewrite !andb_true_iff, !path_starts_with_spec in E.
    destruct a; naive_solver.
  - intros (w & Hw & P & Q). eexists. split; [done|]. simpl.
    by rewrite andb_true_iff, !path_starts_with_spec.
Qed.

(** Entries of plain paths, below which names are joined as they are. *)
Definition plain_entries policy cwd : Prop :=
  ∀ e, e ∈ resolved_entries_with_cwd fs policy cwd → plain_path (resolved_path e).

Lemma override_push policy entry new :
  has_same_target_write_override policy entry = true →
  has_same_target_write_override (push_entry policy new) entry = true.
Proof. unfold has_same_target_write_override. simpl. rewrite existsb_app. by intros ->. Qed.

Lemma push_full_disk_write policy r :
  has_full_disk_write_access policy = true →
  has_full_disk_write_access (push_entry policy (Entry (PathEntry r) AccessWrite)) = true.
Proof.
  unfold has_full_disk_write_access. simpl. destruct (policy_kind policy) eqn:K; [|done..].
  rewrite !andb_true_iff, !negb_true_iff. unfold has_root_access, has_write_narrowing_entries,
    is_restricted. simpl. rewrite K, !existsb_app. simpl. intros [-> N].
  split; [done|]. rewrite !orb_false_r. apply existsb_false_elem. intros entry He.
  rewrite existsb_false_elem in N. specialize (N entry He). unfold narrows_write in *.
  destruct (can_write (entry_access entry)); [done|].
  destruct (entry_path entry) as [q|g|[]]; try done; rewrite negb_false_iff in *;
    by apply override_push.
Qed.

(** The first metadata child, and one of the new directory. *)
Lemma metadata_child_push policy target cwd r q n :
  metadata_child_of_writable_root fs (push_entry policy (Entry (PathEntry r) AccessWrite)) target
    cwd = Some (q, n) →
  metadata_child_of_writable_root fs policy target cwd = Some (q, n) ∨
  metadata_child_of_writable_root fs policy target cwd = None ∧
  n ∈ PROTECTED_METADATA_PATH_NAMES ∧ r ++ [n] `prefix_of` target ∧ q = abs_join r n.
Proof.
  unfold metadata_child_of_writable_root. rewrite resolved_push, omap_app, head_app.
  destruct (head (omap _ (resolved_entries_with_cwd fs policy cwd))) as [[q' n']|]; simpl; [by left|].
  intros E. right. split; [done|]. destruct (metadata_child_of _ _) as [[q' n']|] eqn:M; [|done].
  injection E as -> ->. apply metadata_child_spec in M as (_ & ? & ? & ?). done.
Qed.

(** A path below one that has a metadata child has it, too. *)
Lemma metadata_child_below policy r target cwd :
  r `prefix_of` target → metadata_child_of_writable_root fs policy target cwd = None →
  metadata_child_of_writable_root fs policy r cwd = None.
Proof.
  intros P N. destruct (metadata_child_of_writable_root fs policy r cwd) as [[q n]|] eqn:M; [|done].
  apply head_omap_Some in M as (e & He & M). apply metadata_child_spec in M as (Ea & Hn & Pr & Eq).
  assert (X : (q, n) ∈ omap (metadata_child_of target) (resolved_entries_with_cwd fs policy cwd)).
  { apply list_elem_of_omap. exists e. split; [done|]. apply metadata_child_spec.
    split_and!; [done|done|by trans r|done]. }
  unfold metadata_child_of_writable_root in N. destruct (omap _ _); [set_solver|done].
Qed.

Lemma push_can_write policy p cwd r :
  plain_path r → policy_kind policy = Restricted →
  can_write_path_with_cwd fs policy (as_path r) cwd = false →
  can_write_path_with_cwd fs policy p cwd = true →
  can_write_path_with_cwd fs (push_entry policy (Entry (PathEntry r) AccessWrite)) p cwd = true.
Proof.
  intros F K Nr W. destruct (resolve_candidate_path p cwd) as [t|] eqn:C.
  2:{ unfold can_write_path_with_cwd, resolve_access_with_cwd in W. by rewrite C, K in W. }
  destruct (proj1 (full_disk_write_restricted _ _ _ _ K C) W) as [Aw Wm].
  apply (full_disk_write_restricted (push_entry policy (Entry (PathEntry r) AccessWrite)) _ _ t);
    [done|done|]. split.
  - pose proof (push_access_le policy p cwd r AccessWrite F K ltac:(done) ltac:(done)) as Le.
    rewrite (resolve_access_nearest _ _ _ _ _ K C), Aw in Le. apply access_le_write in Le.
    by rewrite (resolve_access_nearest _ _ _ _ t) in Le.
  - destruct (has_full_disk_write_access policy) eqn:Fl; [left; by apply push_full_disk_write|right].
    destruct Wm as [?|Wm]; [done|]. intros q n M. apply explicit_entry_spec.
    assert (Mono : ∀ w, Resolved w AccessWrite ∈ resolved_entries_with_cwd fs policy cwd →
      Resolved w AccessWrite ∈ resolved_entries_with_cwd fs
        (push_entry policy (Entry (PathEntry r) AccessWrite)) cwd)
      by (intros w; apply resolved_mono; set_solver).
    apply metadata_child_push in M as [M|(M & Hn & P & ->)].
    + apply Wm, explicit_entry_spec in M as (w & Hw & ?). exists w. split; [by apply Mono|done].
    + assert (Pr : r `prefix_of` t) by (etrans; [by apply prefix_app_r|exact P]).
      destruct (nearest_access_inv (resolved_entries_with_cwd fs policy cwd) t)
        as [(w & a & Pw & Ew & En & N)|[En _]]; [|congruence]. rewrite Aw in En. subst a.
      apply access_at_Some in Ew as Hw. exists w. split_and!; [by apply Mono|done|].
      rewrite abs_join_protected by done.
      destruct (decide (length r < length w)) as [L|L].
      * destruct (prefix_weak_total _ _ _ P Pw) as [|Q]; [done|].
        apply prefix_length in Q as Lq. rewrite length_app in Lq. simpl in Lq.
        destruct Q as [k Ek]. assert (k = []) as ->; [|by rewrite app_nil_r in Ek; rewrite Ek].
        apply (f_equal length) in Ek. rewrite !length_app in Ek. simpl in Ek.
        destruct k; [done|simpl in Ek; lia].
      * exfalso. revert Nr. apply not_false_iff_true.
        apply (full_disk_write_restricted _ _ _ r); [done|by apply candidate_as_path|]. split.
        -- rewrite <- (nearest_access_below _ r t); [done|done|]. intros k Pk Lk. apply N; [done|lia].
        -- right. intros q' n' M'. by rewrite (metadata_child_below _ _ _ _ Pr M) in M'.
Qed.

Lemma additional_writable_can_write policy cwd p roots :
  policy_kind policy = Restricted → Forall (λ root, plain_path root) roots →
  can_write_path_with_cwd fs policy p cwd = true →
  can_write_path_with_cwd fs (with_additional_writable_roots fs policy cwd roots) p cwd = true.
Proof.
  intros K F. unfold with_additional_writable_roots. revert policy K.
  induction F as [|root roots F Fs IH]; intros policy K W; simpl; [done|].
  destruct (can_write_path_with_cwd fs policy (as_path root) cwd) eqn:E; [by apply IH|].
  apply IH; [done|]. by apply push_can_write.
Qed.

(** One root: the access it gives, and no denial added. *)
Lemma push_root_access policy cwd root a :
  plain_path root → policy_kind policy = Restricted → a ≠ AccessNone →
  Resolved root AccessNone ∉ resolved_entries_with_cwd fs policy cwd →
  access_le a (resolve_access_with_cwd fs (push_entry policy (Entry (PathEntry root) a))
                 (as_path root) cwd).
Proof.
  intros F K Na D.
  rewrite (resolve_access_push _ _ _ root), (nearest_access_at _ root root _ (reflexivity _)
    (access_at_snoc _ _ _)); [|by intros q ?%prefix_length ?; lia|done|by apply candidate_as_path].
  unfold add_access. destruct (access_at _ root) as [b|] eqn:A; [|done].
  apply access_at_Some in A. by destruct a, b.
Qed.

Lemma push_no_denial policy cwd root r a :
  a ≠ AccessNone → Resolved root AccessNone ∉ resolved_entries_with_cwd fs policy cwd →
  Resolved root AccessNone ∉
    resolved_entries_with_cwd fs (push_entry policy (Entry (PathEntry r) a)) cwd.
Proof.
  intros Na D. rewrite resolved_push. simpl. rewrite not_elem_of_app. split; [done|].
  rewrite list_elem_of_singleton. intros [= _ E]. by subst a.
Qed.

(** The two loops, with what one step of each does. *)
Section loop.
Context (cwd : os_path) (a : FileSystemAccessMode) (ok : FileSystemSandboxPolicy → path → bool).
Context (Na : a ≠ AccessNone).
Context (Ok : ∀ policy root, plain_path root → policy_kind policy = Restricted →
  ok policy root = true → access_le a (resolve_access_with_cwd fs policy (as_path root) cwd)).
Context (Nok : ∀ policy root, ok policy root = false → a = AccessRead →
  resolve_access_with_cwd fs policy (as_path root) cwd = AccessNone).

Definition add_root policy root : FileSystemSandboxPolicy :=
  if ok policy root then policy else push_entry policy (Entry (PathEntry root) a).

Lemma add_root_le policy p root :
  plain_path root → policy_kind policy = Restricted →
  access_le (resolve_access_with_cwd fs policy p cwd)
    (resolve_access_with_cwd fs (add_root policy root) p cwd).
Proof.
  intros F K. unfold add_root. destruct (ok policy root) eqn:O; [done|].
  apply push_access_le; [done..|]. by apply Nok.
Qed.

Lemma add_roots_access policy roots :
  policy_kind policy = Restricted → Forall (λ root, plain_path root) roots →
  (∀ p, access_le (resolve_access_with_cwd fs policy p cwd)
    (resolve_access_with_cwd fs (foldl add_root policy roots) p cwd)) ∧
  ∀ root, root ∈ roots → Resolved root AccessNone ∉ resolved_entries_with_cwd fs policy cwd →
    access_le a (resolve_access_with_cwd fs (foldl add_root policy roots) (as_path root) cwd).
Proof.
  intros K F. revert policy K. induction F as [|root roots F Fs IH]; intros policy K; simpl.
  - split; [done|]. by intros ? ?%elem_of_nil.
  - assert (K' : policy_kind (add_root policy root) = Restricted)
      by (unfold add_root; by case_match).
    destruct (IH _ K') as [Le Rt]. split.
    + intros p. etrans; [by apply add_root_le|apply Le].
    + intros r [->|Hr]%elem_of_cons D.
      * etrans; [|apply Le]. unfold add_root. destruct (ok policy root) eqn:O.
        -- by apply Ok.
        -- by apply push_root_access.
      * apply Rt; [done|]. unfold add_root. destruct (ok policy root); [done|].
        by apply push_no_denial.
Qed.
End loop.

(** Adding writable roots takes no access away: what could be read or written
    before still can be, and every added root can be written unless an entry denies
    that very directory. Adding readable roots likewise. *)
Theorem additional_roots_only_add policy cwd p roots :
  policy_kind policy = Restricted → Forall (λ root, plain_path root) roots →
  access_le (resolve_access_with_cwd fs policy p cwd)
    (resolve_access_with_cwd fs (with_additional_writable_roots fs policy cwd roots) p cwd) ∧
  access_le (resolve_access_with_cwd fs policy p cwd)
    (resolve_access_with_cwd fs (with_additional_readable_roots fs policy cwd roots) p cwd) ∧
  (can_write_path_with_cwd fs policy p cwd = true →
   can_write_path_with_cwd fs (with_additional_writable_roots fs policy cwd roots) p cwd = true) ∧
  ∀ root, root ∈ roots → Resolved root AccessNone ∉ resolved_entries_with_cwd fs policy cwd →
    resolve_access_with_cwd fs (with_additional_writable_roots fs policy cwd roots)
      (as_path root) cwd = AccessWrite ∧
    (has_full_disk_read_access policy = false →
     can_read_path_with_cwd fs (with_additional_readable_roots fs policy cwd roots)
       (as_path root) cwd = true).
Proof.
  intros K F.
  pose proof (add_roots_access cwd AccessWrite
    (λ policy root, can_write_path_with_cwd fs policy (as_path root) cwd) ltac:(done)
    ltac:(intros ? ? _ _ O; unfold can_write_path_with_cwd in O; apply andb_true_iff in O as [O _];
          by destruct (resolve_access_with_cwd _ _ _ _)) ltac:(done) policy roots K F) as [W Wr].
  pose proof (add_roots_access cwd AccessRead
    (λ policy root, can_read_path_with_cwd fs policy (as_path root) cwd) ltac:(done)
    ltac:(intros ? ? _ _ O; unfold can_read_path_with_cwd in O;
          by destruct (resolve_access_with_cwd _ _ _ _))
    ltac:(intros ? ? O _; unfold can_read_path_with_cwd in O;
          by destruct (resolve_access_with_cwd _ _ _ _)) policy roots K F) as [R Rr].
  split_and!; [apply W| |by apply additional_writable_can_write|].
  - unfold with_additional_readable_roots. destruct (has_full_disk_read_access policy); [done|].
    apply R.
  - intros root Hr D. split; [by apply access_le_write, Wr|]. intros Fl.
    unfold with_additional_readable_roots, can_read_path_with_cwd. rewrite Fl.
    by apply (access_le_read AccessRead); [apply Rr|].
Qed.
(** ** Full access *)

Lemma root_access_entry policy cwd d (f : FileSystemAccessMode → bool) :
  has_root_access policy f = true → absolute cwd = Some d →
  ∃ a, f a = true ∧ Resolved [] a ∈ resolved_entries_with_cwd fs policy cwd.
Proof.
  unfold has_root_access. intros [_ R]%andb_true_iff A.
  apply existsb_exists_elem in R as ([ep a] & He & R). simpl in R.
  destruct ep as [q|g|[]]; try done. exists a. split; [done|].
  apply elem_of_resolved. eexists. split; [done|]. by rewrite A.
Qed.

(** A path below the root, which has an entry that satisfies [f], has such an
    access when the entries at every directory give one. *)
Lemma access_everywhere entries (f : FileSystemAccessMode → bool) target a :
  (∀ q b, access_at entries q = Some b → f b = true) → access_at entries [] = Some a →
  f (nearest_access entries target) = true.
Proof.
  intros All R. destruct (nearest_access_inv entries target) as [(r & b & _ & Ar & -> & _)|[_ N]].
  - by eapply All.
  - rewrite N in R; [done|apply prefix_nil].
Qed.

Lemma full_disk_read_sound policy p cwd d target :
  has_full_disk_read_access policy = true → absolute cwd = Some d →
  resolve_candidate_path p cwd = Some target → can_read_path_with_cwd fs policy p cwd = true.
Proof.
  intros Full A C. unfold can_read_path_with_cwd.
  destruct (policy_kind policy) eqn:K;
    [|by unfold resolve_access_with_cwd; rewrite K..].
  rewrite (resolve_access_nearest _ _ _ _ _ K C). unfold has_full_disk_read_access in Full.
  rewrite K in Full. apply andb_true_iff in Full as [Rt Nd]. apply negb_true_iff in Nd.
  destruct (root_access_entry _ _ _ _ Rt A) as (a & Ha & Hr).
  destruct (access_at_is_Some _ _ _ Hr) as [b Hb]. eapply access_everywhere; [|exact Hb].
  intros q c Hc. apply access_at_Some in Hc. destruct c; [done..|]. exfalso.
  apply elem_of_resolved in Hc as (entry & He & _ & Ea). unfold has_denied_read_restrictions in Nd.
  unfold is_restricted in Nd. rewrite K in Nd. simpl in Nd. rewrite existsb_false_elem in Nd.
  specialize (Nd _ He). apply is_deny_spec in Ea. congruence.
Qed.

(** An entry that a writable entry overrides, in resolved form. *)
Lemma override_resolved policy entry cwd d r :
  fs_is_dir fs ["tmp"] = true → absolute cwd = Some d →
  has_same_target_write_override policy entry = true →
  resolve_entry_path fs (entry_path entry) (absolute cwd) = Some r →
  entry_access entry = AccessRead ∧
  Resolved r AccessWrite ∈ resolved_entries_with_cwd fs policy cwd.
Proof.
  intros T A O R. unfold has_same_target_write_override in O.
  apply existsb_exists_elem in O as ([cp ca] & Hc & O). simpl in O.
  rewrite !andb_true_iff, Nat.ltb_lt in O. destruct O as [[W L] S].
  destruct ca; try done. split; [destruct (entry_access entry); simpl in L; [done|lia..]|].
  apply elem_of_resolved. eexists. split; [done|]. split; [|done]. simpl. rewrite <- R, A.
  destruct cp as [q|g|v], (entry_path entry) as [q'|g'|v']; try done; simpl in S |- *.
  - by apply bool_decide_eq_true in S as ->.
  - destruct v'; try done; simpl in S |- *; [destruct q; done|].
    apply bool_decide_eq_true in S as ->. by rewrite T.
  - destruct v; try done; simpl in S |- *; [destruct q'; done|].
    apply bool_decide_eq_true in S as ->. by rewrite T.
  - destruct v, v'; try done; simpl in S |- *. by apply bool_decide_eq_true in S as ->.
Qed.

Lemma full_disk_write_sound policy p cwd d target :
  fs_is_dir fs ["tmp"] = true →
  has_full_disk_write_access policy = true → absolute cwd = Some d →
  resolve_candidate_path p cwd = Some target →
  resolve_access_with_cwd fs policy p cwd = AccessWrite ∧
  can_write_path_with_cwd fs policy p cwd = true.
Proof.
  intros T Full A C.
  assert (E : resolve_access_with_cwd fs policy p cwd = AccessWrite).
  { destruct (policy_kind policy) eqn:K; [|by unfold resolve_access_with_cwd; rewrite K..].
    rewrite (resolve_access_nearest _ _ _ _ _ K C). unfold has_full_disk_write_access in Full.
    rewrite K in Full. apply andb_true_iff in Full as [Rt Nd]. apply negb_true_iff in Nd.
    destruct (root_access_entry _ _ _ _ Rt A) as (a & Ha & Hr). destruct a; try done.
    assert (All : ∀ q c, access_at (resolved_entries_with_cwd fs policy cwd) q = Some c →
                         c = AccessWrite).
    { intros q c Hc. destruct (decide (c = AccessWrite)) as [|N]; [done|exfalso].
      assert (Hw : Resolved q AccessWrite ∈ resolved_entries_with_cwd fs policy cwd ∧
                   c = AccessRead).
      { apply access_at_Some in Hc as He. apply elem_of_resolved in He as (entry & He & R & Ea).
        simpl in *. unfold has_write_narrowing_entries, is_restricted in Nd. rewrite K in Nd.
        simpl in Nd. rewrite existsb_false_elem in Nd. specialize (Nd _ He).
        unfold narrows_write in Nd.
        assert (W : can_write (entry_access entry) = false) by (rewrite Ea; by destruct c).
        rewrite W in Nd.
        assert (Ov : has_same_target_write_override policy entry = true →
                     Resolved q AccessWrite ∈ resolved_entries_with_cwd fs policy cwd ∧
                     c = AccessRead).
        { intros O. destruct (override_resolved _ _ _ _ _ T A O R). split; [done|congruence]. }
        destruct (entry_path entry) as [q'|g|v] eqn:Ep; [by apply Ov, negb_false_iff|done|].
        destruct v; try (by apply Ov, negb_false_iff); try done.
        rewrite A in R. injection R as <-. split; [done|].
        destruct c; try done. apply bool_decide_eq_false in Nd. congruence. }
      destruct Hw as [Hw ->]. apply has_entry_spec in Hw. unfold access_at in Hc.
      rewrite Hw in Hc. repeat case_match; done. }
    destruct (access_at_is_Some _ _ _ Hr) as [b Hb].
    pose proof (access_everywhere _ can_write target b
                  ltac:(intros q c Hc; by rewrite (All _ _ Hc)) Hb) as X.
    by destruct (nearest_access _ _). }
  split; [done|]. unfold can_write_path_with_cwd. by rewrite E, Full.
Qed.
End access.
