(* ===== verification/SandboxProps.v ===== *)
(** * What the sandbox is built from

    The writable roots of a policy allow no more than the policy, the matcher
    of denied reads, legacy policies survive the conversion to permissions and
    back, and granted permissions stay within the requested ones. *)

From S2P Require Import Prelude RustStr FsModel FsFacts FsxProps ExecFs Permissions PermFacts.
From S2P Require Import SandboxRoots Profiles PermProps.

Implicit Types (policy : FileSystemSandboxPolicy) (entry : FileSystemSandboxEntry).
Implicit Types (cwd : os_path) (p q r root target : path).

(** ** Removing duplicates *)

Section dedup.
Context `{ProcessEnv} (fs : fsys).

Lemma elem_of_dedup paths p :
  p ∈ dedup_absolute_paths fs paths false ↔ p ∈ paths.
Proof.
  unfold dedup_absolute_paths. rewrite elem_of_push_all. set_solver.
Qed.

Lemma elem_of_dedup_effective paths p :
  p ∈ dedup_absolute_paths fs paths true ↔
  p ∈ map (normalize_effective_absolute_path fs) paths.
Proof.
  unfold dedup_absolute_paths.
  assert (G : ∀ acc, foldl (λ deduped p0, push_unique deduped
            (normalize_effective_absolute_path fs p0)) acc paths =
          foldl push_unique acc (map (normalize_effective_absolute_path fs) paths)).
  { induction paths as [|x l IH]; intros acc; [done|]. simpl. apply IH. }
  rewrite G, elem_of_push_all. set_solver.
Qed.

End dedup.

(** ** Paths on a file system without links *)

Section canonical.
Context `{ProcessEnv} (fs : fsys) (Hfs : fs_ok no_links fs).

Lemma filter_plain_dots p : plain_path p → List.filter (λ c, negb (String.eqb c ".")) p = p.
Proof.
  induction 1 as [|c p Hc Hp IH]; [done|]. simpl.
  apply plain_name_inv in Hc as (_ & D & _). apply String.eqb_neq in D. by rewrite D, IH.
Qed.

Lemma canonicalize_link_free p q : plain_path p → fs_canonicalize fs (as_path p) = Some q → q = p.
Proof.
  intros F. unfold fs_canonicalize. cbn [as_path os_root os_comps mbind option_bind negb andb].
  rewrite filter_plain_dots by done. simpl.
  destruct (stat fs p) as [k|[q' n]] eqn:S; [done|]. intros [= <-].
  by apply (stat_clear _ _ Hfs) in S as [-> _]; [|by apply clear_no_links, plain_no_dotdot].
Qed.

Lemma canonicalize_preserving_link_free p :
  plain_path p → canonicalize_preserving_symlinks fs (as_path p) = Some p.
Proof.
  intros F. unfold canonicalize_preserving_symlinks. rewrite absolute_as_path by done. simpl.
  destruct (fs_canonicalize fs (as_path p)) as [q|] eqn:E; [|done].
  apply canonicalize_link_free in E as ->; [|done]. by case_match.
Qed.

Lemma normalize_effective_link_free p :
  plain_path p → normalize_effective_absolute_path fs p = p.
Proof.
  intros F. unfold normalize_effective_absolute_path.
  destruct (head (omap (normalize_ancestor fs p) (ancestors p))) as [q|] eqn:E; [|done].
  apply head_omap_Some in E as (a & [k ->]%elem_of_ancestors & E).
  unfold normalize_ancestor in E. destruct (negb _); [done|].
  apply Forall_app in F as F'. destruct F' as [Fa _].
  rewrite canonicalize_preserving_link_free in E by done. simpl in E.
  rewrite (proj2 (strip_path_Some a (a ++ k) k)) in E by done. simpl in E.
  rewrite absolute_as_path in E by done. by injection E as <-.
Qed.

(** ** Writable roots *)

Lemma elem_of_writable_entries policy cwd r :
  r ∈ writable_entries fs policy cwd ↔
  Resolved r AccessWrite ∈ resolved_entries_with_cwd fs policy cwd ∧
  can_write_path_with_cwd fs policy (as_path r) cwd = true.
Proof.
  unfold writable_entries. rewrite list_elem_of_fmap. split.
  - intros ([r' a] & -> & He). apply list_elem_of_In, filter_In in He as [He W].
    apply andb_true_iff in W as [Wa W]. destruct a; try done.
    split; [by apply list_elem_of_In|done].
  - intros [He W]. eexists. split; [|apply list_elem_of_In, filter_In; split;
      [by apply list_elem_of_In|]]; simpl; done.
Qed.

(** A narrower entry that does not give write access is masked. *)
Lemma carveout_masked root raw p :
  plain_path p → root `prefix_of` p → p ≠ root → carveout_path fs root raw p = Some p.
Proof.
  intros F P N. unfold carveout_path, raw_carveout_path.
  destruct (FsModel.parent root) as [x|] eqn:R.
  - rewrite bool_decide_eq_false_2 by done. by rewrite (proj2 (path_starts_with_spec root p)).
  - rewrite normalize_effective_link_free by done. rewrite bool_decide_eq_false_2 by done.
    by rewrite (proj2 (path_starts_with_spec root p)).
Qed.

Lemma can_write_access policy p cwd :
  plain_path p → policy_kind policy = Restricted →
  can_write_path_with_cwd fs policy (as_path p) cwd = true →
  nearest_access (resolved_entries_with_cwd fs policy cwd) p = AccessWrite.
Proof.
  intros F K W. apply (full_disk_write_restricted fs _ _ _ p K) in W as [W _]; [done|].
  by apply candidate_as_path.
Qed.

(** A path below a writable root is writable when none of the masks below the
    root covers it. *)
Lemma writable_root_grants policy cwd w target :
  policy_kind policy = Restricted → plain_entries fs policy cwd →
  w ∈ get_writable_roots_with_cwd fs policy cwd →
  plain_path target → wr_root w `prefix_of` target →
  (∀ k, k ∈ read_only_subpaths w → wr_root w `prefix_of` k → ¬ k `prefix_of` target) →
  nearest_access (resolved_entries_with_cwd fs policy cwd) target = AccessWrite.
Proof.
  intros K Pl Hw Ft P Ro. unfold get_writable_roots_with_cwd in Hw.
  destruct (has_full_disk_write_access policy); [by apply elem_of_nil in Hw|].
  apply list_elem_of_fmap in Hw as (root & -> & Hroot).
  apply elem_of_dedup_effective, list_elem_of_fmap in Hroot as (r & -> & Hr).
  apply elem_of_writable_entries in Hr as [He Wr].
  assert (Fr : plain_path r) by apply (Pl _ He).
  rewrite normalize_effective_link_free in P, Ro by done. simpl in P.
  apply can_write_access in Wr; [|done..].
  set (es := resolved_entries_with_cwd fs policy cwd) in *.
  destruct (nearest_access_inv es target) as [(k & b & Pk & Ak & -> & N)|[_ N]].
  - destruct (decide (b = AccessWrite)) as [|Nb]; [done|exfalso].
    assert (Ek : nearest_access es k = b).
    { eapply nearest_access_at; [done|done|]. intros j Pj L. apply prefix_length in Pj. lia. }
    assert (Lr : length r ≤ length k).
    { destruct (decide (length k < length r)) as [L|]; [|lia]. exfalso.
      apply access_at_is_Some in He as [c Hc]. by rewrite N in Hc. }
    assert (Pr : r `prefix_of` k) by (by eapply prefix_shorter).
    assert (Nk : k ≠ r) by (intros ->; congruence).
    apply access_at_Some in Ak as Hk.
    assert (Fk : plain_path k) by apply (Pl _ Hk).
    apply (Ro k); [|done..].
    cbn [writable_root_of read_only_subpaths]. apply elem_of_dedup, elem_of_app. right.
    apply list_elem_of_omap. exists (Resolved k b). split.
    + apply list_elem_of_In, filter_In. split; [by apply list_elem_of_In|]. simpl.
      apply andb_true_iff. split; [by destruct b|]. apply negb_true_iff, not_true_is_false.
      intros Wk. apply can_write_access in Wk; [|done..]. fold es in Wk. congruence.
    + simpl. by apply carveout_masked.
  - apply access_at_is_Some in He as [c Hc]. by rewrite N in Hc.
Qed.

(** Without symbolic links, every path that a writable root of the policy lets
    be written, outside its read-only subpaths and protected names, is writable by
    the policy's own access rules. *)
Theorem writable_roots_sound policy cwd w target :
  policy_kind policy = Restricted → plain_entries fs policy cwd →
  w ∈ get_writable_roots_with_cwd fs policy cwd →
  plain_path target → is_path_writable w target = true →
  resolve_access_with_cwd fs policy (as_path target) cwd = AccessWrite.
Proof.
  intros K Pl Hw Ft W.
  rewrite (resolve_access_nearest _ _ _ _ target K) by by apply candidate_as_path.
  unfold is_path_writable in W. rewrite !andb_true_iff, negb_true_iff in W.
  destruct W as [[P Ro] _]. rewrite existsb_false_elem in Ro.
  eapply writable_root_grants; [done..|by apply path_starts_with_spec|].
  intros k Hk _. apply path_starts_with_false. by apply Ro.
Qed.
End canonical.

(** ** Denied reads *)

Section denied.
Context `{ProcessEnv, Globset} (fs : fsys).

(** The patterns that do not compile, and the matchers of the others. *)
Definition bad_pattern (g : string) : bool :=
  match build_glob_matcher g with inl _ => true | inr _ => false end.

Lemma patterns_fail_closed gs acc :
  try_fold (add_deny_pattern FailClosed) acc gs =
  inr (acc.1 ++ omap (ok_of ∘ build_glob_matcher) gs, acc.2 || existsb bad_pattern gs).
Proof.
  revert acc. induction gs as [|g gs IH]; intros [ms b].
  - simpl. by rewrite app_nil_r, orb_false_r.
  - cbn [try_fold]. unfold add_deny_pattern at 1, bad_pattern, compose. simpl.
    destruct (build_glob_matcher g) as [err|m]; cbn [and_then ok_of]; rewrite IH; simpl.
    + by rewrite orb_true_r.
    + by rewrite <- app_assoc.
Qed.

(** The constructor for runtime checks never reaches its [unreachable!]. *)
Lemma read_deny_matcher_total policy cwd :
  ∃ m, read_deny_matcher_new fs policy cwd = Some m ∧
       (m = None ↔ has_denied_read_restrictions policy = false).
Proof.
  unfold read_deny_matcher_new, build_read_deny_matcher.
  destruct (has_denied_read_restrictions policy); simpl; [|by exists None].
  rewrite patterns_fail_closed. eexists. split; [done|]. done.
Qed.

Lemma matcher_of policy cwd m :
  read_deny_matcher_new fs policy cwd = Some (Some m) →
  m = {| denied_candidates := map (normalized_and_canonical_candidates fs ∘ as_path)
                                (get_unreadable_roots_with_cwd fs policy cwd);
         deny_read_matchers :=
           omap (ok_of ∘ build_glob_matcher) (get_unreadable_globs_with_cwd policy cwd);
         invalid_pattern := existsb bad_pattern (get_unreadable_globs_with_cwd policy cwd) |}.
Proof.
  unfold read_deny_matcher_new, build_read_deny_matcher.
  destruct (has_denied_read_restrictions policy); simpl; [|done].
  rewrite patterns_fail_closed. simpl. by intros [= <-].
Qed.

Lemma os_starts_with_spec (r p : os_path) :
  os_starts_with r p = true ↔ os_root r = os_root p ∧ os_comps r `prefix_of` os_comps p.
Proof.
  unfold os_starts_with, os_strip_prefix. destruct (Bool.eqb (os_root r) (os_root p)) eqn:E.
  - apply eqb_prop in E. change (path_starts_with (os_comps r) (os_comps p) = true ↔
      os_root r = os_root p ∧ os_comps r `prefix_of` os_comps p).
    rewrite path_starts_with_spec. naive_solver.
  - apply eqb_false_iff in E. naive_solver.
Qed.

(** Every denying entry but one at the root is an unreadable root. *)
Lemma deny_unreadable_root policy cwd r :
  policy_kind policy = Restricted → plain_path r → r ≠ [] →
  Resolved r AccessNone ∈ resolved_entries_with_cwd fs policy cwd →
  normalize_effective_absolute_path fs r ∈ get_unreadable_roots_with_cwd fs policy cwd.
Proof.
  intros K F N D. unfold get_unreadable_roots_with_cwd, is_restricted. rewrite K. simpl.
  apply elem_of_dedup_effective, list_elem_of_fmap. exists r. split; [done|].
  apply list_elem_of_fmap. eexists. split; [|apply list_elem_of_In, filter_In;
    split; [by apply list_elem_of_In|]]; [done|]. simpl.
  unfold can_read_path_with_cwd.
  rewrite (deny_entry_denies fs policy (as_path r) cwd r K); [|by apply candidate_as_path|done].
  simpl. apply negb_true_iff, bool_decide_eq_false.
  destruct (absolute cwd); simpl; [|done]. unfold absolute_root_path_for_cwd. congruence.
Qed.

(** The matcher of denied reads denies exactly: everything when a denied
    pattern does not compile, and otherwise the paths of which the absolute or the
    canonical form lies at or below a denied directory (in its own absolute or
    canonical form) or is matched by a denied pattern; it can always be built, and
    every denying entry other than one for the root is such a directory. *)
Theorem denied_reads_exact policy cwd m (p : os_path) :
  read_deny_matcher_new fs policy cwd = Some (Some m) →
  (is_read_denied fs m p = true ↔
     (∃ g, g ∈ get_unreadable_globs_with_cwd policy cwd ∧ ∃ err, build_glob_matcher g = inl err) ∨
     (∃ c, c ∈ normalized_and_canonical_candidates fs p ∧
        ((∃ r d, r ∈ get_unreadable_roots_with_cwd fs policy cwd ∧
                 d ∈ normalized_and_canonical_candidates fs (as_path r) ∧
                 os_root d = os_root c ∧ os_comps d `prefix_of` os_comps c) ∨
         (∃ g f, g ∈ get_unreadable_globs_with_cwd policy cwd ∧
                 build_glob_matcher g = inr f ∧ f c = true)))) ∧
  (∀ r, plain_path r → r ≠ [] →
     Resolved r AccessNone ∈ resolved_entries_with_cwd fs policy cwd →
     normalize_effective_absolute_path fs r ∈ get_unreadable_roots_with_cwd fs policy cwd).
Proof.
  intros M. split.
  - apply matcher_of in M as ->. unfold is_read_denied. simpl.
    assert (B : existsb bad_pattern (get_unreadable_globs_with_cwd policy cwd) = true ↔
                ∃ g, g ∈ get_unreadable_globs_with_cwd policy cwd ∧
                     ∃ err, build_glob_matcher g = inl err).
    { rewrite existsb_exists_elem. unfold bad_pattern. split; intros (g & Hg & E); exists g;
        (split; [done|]); destruct (build_glob_matcher g); naive_solver. }
    rewrite <- B. destruct (existsb bad_pattern _); [naive_solver|].
    rewrite orb_true_iff, !existsb_exists_elem. split.
    + intros [(ds & Hds & E)|(f & Hf & E)]; right.
      * apply list_elem_of_fmap in Hds as (r & -> & Hr). apply existsb_exists_elem in E as (c & Hc & E).
        apply existsb_exists_elem in E as (d & Hd & E). exists c. split; [done|left]. exists r, d.
        split; [done|]. split; [done|]. apply orb_true_iff in E as [E|E].
        -- by apply bool_decide_eq_true in E as ->.
        -- by apply os_starts_with_spec.
      * apply list_elem_of_omap in Hf as (g & Hg & Eg). apply existsb_exists_elem in E as (c & Hc & E).
        exists c. split; [done|right]. exists g, f. split_and!; [done| |done].
        unfold compose in Eg. destruct (build_glob_matcher g); naive_solver.
    + intros [?|(c & Hc & [(r & d & Hr & Hd & E)|(g & f & Hg & Eg & E)])]; [done|left|right].
      * eexists. split; [apply list_elem_of_fmap; by exists r|]. apply existsb_exists_elem.
        exists c. split; [done|]. apply existsb_exists_elem. exists d. split; [done|].
        apply orb_true_iff. right. by apply os_starts_with_spec.
      * exists f. split; [apply list_elem_of_omap; exists g; split; [done|]; unfold compose; by rewrite Eg|].
        apply existsb_exists_elem. by exists c.
  - intros r F N D. apply deny_unreadable_root; [|done..].
    unfold read_deny_matcher_new, build_read_deny_matcher, has_denied_read_restrictions,
      is_restricted in M. by destruct (policy_kind policy).
Qed.
End denied.

(** ** Legacy policies *)

Section legacy.
Context `{ProcessEnv} (fs : fsys).

(** What protecting subpaths appends is read-only. *)
Definition appends_reads (entries entries' : list FileSystemSandboxEntry) : Prop :=
  ∃ reads, entries' = entries ++ reads ∧ Forall (λ entry, entry_access entry = AccessRead) reads.

#[local] Instance appends_reads_preorder : PreOrder appends_reads.
Proof.
  split.
  - intros l. exists []. by rewrite app_nil_r.
  - intros l1 l2 l3 (r1 & -> & F1) (r2 & -> & F2). exists (r1 ++ r2).
    by rewrite app_assoc, Forall_app.
Qed.

Lemma append_default_reads entries (ep : FileSystemPath) :
  appends_reads entries (append_default_read_only_entry_if_no_explicit_rule entries ep).
Proof.
  unfold append_default_read_only_entry_if_no_explicit_rule. case_match; [done|].
  eexists. split; [done|]. by repeat constructor.
Qed.

Lemma appends_reads_foldl {A : Type} (f : list FileSystemSandboxEntry → A → list FileSystemSandboxEntry)
    l entries :
  (∀ entries a, appends_reads entries (f entries a)) → appends_reads entries (foldl f entries l).
Proof.
  intros R. revert entries. induction l as [|a l IH]; intros entries; simpl; [done|].
  etrans; [apply R|apply IH].
Qed.

Lemma protect_root_reads b entries root : appends_reads entries (protect_root fs b entries root).
Proof. apply appends_reads_foldl. intros. apply append_default_reads. Qed.

Lemma protect_cwd_reads cwd entries : appends_reads entries (protect_cwd fs cwd entries).
Proof. unfold protect_cwd. case_match; [apply protect_root_reads|done]. Qed.

Lemma workspace_reads ws t s :
  appends_reads (workspace_entries ws t s) (policy_entries (workspace_write fs ws t s)).
Proof.
  unfold workspace_write. simpl.
  etrans; [|apply appends_reads_foldl; intros; apply protect_root_reads].
  apply (appends_reads_foldl append_default_read_only_project_root_subpath_if_no_explicit_rule
           [".git"; ".agents"; ".codex"]).
  intros. apply append_default_reads.
Qed.

(** Read-only entries leave the scan as it is. *)
Lemma scan_reads d s reads :
  Forall (λ entry, entry_access entry = AccessRead) reads → foldl (scan_entry fs d) s reads = s.
Proof.
  induction 1 as [|[ep a] reads E Es IH]; simpl in *; [done|]. subst a. rewrite <- IH at 2. f_equal.
  unfold scan_entry. simpl. destruct ep as [q|g|[]]; simpl; try done.
  - by rewrite andb_false_r; repeat case_match.
Qed.

Definition scan_of (writable_roots : list path) (t s : bool) : LegacyScan := {|
  workspace_root_writable := true; scanned_writable_roots := writable_roots;
  tmpdir_writable := t; slash_tmp_writable := s; unbridgeable_root_write := false |}.

Lemma scan_writable_roots d ws t s acc :
  foldl (scan_entry fs d) (scan_of acc t s) (map (λ root, Entry (PathEntry root) AccessWrite) ws) =
  scan_of (acc ++ List.filter (λ root, negb (bool_decide (d = Some root))) ws) t s.
Proof.
  revert acc. induction ws as [|root ws IH]; intros acc; simpl; [by rewrite app_nil_r|].
  unfold scan_entry at 2. simpl. case_bool_decide; simpl; [apply IH|].
  unfold push_writable_root. simpl. change (foldl (scan_entry fs d) (scan_of (acc ++ [root]) t s)
    (map (λ root, Entry (PathEntry root) AccessWrite) ws) =
    scan_of (acc ++ root :: List.filter (λ root, negb (bool_decide (d = Some root))) ws) t s).
  by rewrite IH, <- app_assoc.
Qed.

Lemma scan_workspace d ws t s :
  foldl (scan_entry fs d) empty_scan (workspace_entries ws t s) =
  scan_of (List.filter (λ root, negb (bool_decide (d = Some root))) ws) (negb t) (negb s).
Proof.
  unfold workspace_entries. rewrite !foldl_app. simpl. rewrite <- (scan_writable_roots d ws _ _ []).
  f_equal. by destruct t, s.
Qed.

(** A policy that extends the entries of a workspace by read-only ones. *)
Lemma workspace_not_full ws t s entries :
  appends_reads (workspace_entries ws t s) entries →
  has_full_disk_write_access (restricted entries) = false.
Proof.
  intros (reads & -> & F). unfold has_full_disk_write_access, has_root_access. simpl.
  apply andb_false_iff. left. rewrite existsb_app. apply orb_false_iff. split.
  - unfold workspace_entries. rewrite !existsb_app. simpl.
    assert (X : existsb (λ entry, match entry_path entry with
                  | Special Root => can_write (entry_access entry)
                  | _ => false
                  end) (map (λ root, Entry (PathEntry root) AccessWrite) ws) = false).
    { apply existsb_false_elem. by intros ? (root & -> & _)%list_elem_of_fmap. }
    rewrite X. by destruct t, s.
  - apply existsb_false_elem. intros [ep a] He. rewrite Forall_forall in F. apply F in He.
    simpl in He. subst a. by destruct ep as [| |[]].
Qed.

Lemma workspace_to_legacy ws n t s entries network cwd :
  appends_reads (workspace_entries ws t s) entries → is_enabled network = n →
  to_legacy_sandbox_policy fs (restricted entries) network cwd =
  inr (WorkspaceWrite
         (dedup_absolute_paths fs
            (List.filter (λ root, negb (bool_decide (absolute cwd = Some root))) ws) false) n t s).
Proof.
  intros R <-. unfold to_legacy_sandbox_policy. cbn [policy_kind restricted policy_of].
  rewrite (workspace_not_full _ _ _ _ R). destruct R as (reads & -> & F).
  cbn [policy_entries restricted policy_of]. rewrite foldl_app, scan_workspace, scan_reads by done. simpl.
  by rewrite !negb_involutive.
Qed.

(** What a legacy policy becomes: the workspace root and repeated roots need not
    be listed. *)
Definition canonical_legacy (p : SandboxPolicy) cwd : SandboxPolicy :=
  match p with
  | WorkspaceWrite ws n t s =>
      WorkspaceWrite
        (dedup_absolute_paths fs
           (List.filter (λ root, negb (bool_decide (absolute cwd = Some root))) ws) false) n t s
  | p => p
  end.

Lemma network_roundtrip (p : SandboxPolicy) : is_enabled (network_policy_of p) = has_full_network_access p.
Proof. unfold network_policy_of. by destruct (has_full_network_access p). Qed.

(** A legacy sandbox policy converted to file-system and network permissions
    and back is the same policy, up to repeated writable roots and the workspace
    root among them; so it is through a permission profile, and whether or not the
    protected metadata of the workspace is added on the way. *)
Theorem legacy_policy_roundtrip (p : SandboxPolicy) cwd :
  to_legacy_sandbox_policy fs (from_legacy fs p) (network_policy_of p) cwd =
    inr (canonical_legacy p cwd) ∧
  profile_to_legacy fs (profile_from_legacy fs p) cwd = inr (canonical_legacy p cwd) ∧
  profile_to_legacy fs (profile_from_legacy_for_cwd fs p cwd) cwd = inr (canonical_legacy p cwd).
Proof.
  destruct p as [|n|[]|ws n t s].
  - done.
  - by destruct n.
  - done.
  - done.
  - assert (W : appends_reads (workspace_entries ws t s)
                  (policy_entries (from_legacy_sandbox_policy_for_cwd fs (WorkspaceWrite ws n t s) cwd))).
    { etrans; [apply workspace_reads|]. simpl.
      etrans; [apply protect_cwd_reads|]. apply appends_reads_foldl. intros. apply protect_root_reads. }
    assert (N : is_enabled (network_policy_of (WorkspaceWrite ws n t s)) = n)
      by (by rewrite network_roundtrip).
    split_and!.
    + apply (workspace_to_legacy ws n t s); [apply workspace_reads|done].
    + apply (workspace_to_legacy ws n t s); [apply workspace_reads|done].
    + apply (workspace_to_legacy ws n t s _ _ _ W N).
Qed.
End legacy.

(** ** Granted permissions stay within the requested ones *)

Section intersect.
Context `{ProcessEnv, Globset} (fs : fsys) (Hcwd : plain_current_dir).
Context (cwd : os_path) (d : path) (Abs : os_root cwd = true) (Hd : absolute cwd = Some d).

(** The entries name plain paths. *)
Definition plain_policy (entries : list FileSystemSandboxEntry) : Prop :=
  ∀ entry q, entry ∈ entries → entry_path entry = PathEntry q → plain_path q.

Lemma resolve_entry_plain entries entry r :
  plain_policy entries → entry ∈ entries →
  resolve_entry_path fs (entry_path entry) (absolute cwd) = Some r → plain_path r.
Proof.
  intros Pl He. rewrite Hd. destruct entry as [ep a]. simpl.
  destruct ep as [q|g|v]; simpl; [intros [= <-]; by eapply Pl|done|].
  destruct v as [| |sub| | |]; simpl; try done.
  - by intros [= <-].
  - intros [= <-]. apply absolute_plain in Hd; [|done].
    destruct sub; [by apply resolve_plain|done].
  - intros (t & Ht & E)%bind_Some. case_match; [done|]. by apply absolute_plain in E.
  - case_match; [|done]. intros [= <-]. by repeat constructor.
Qed.

Lemma permission_path_resolves (ep : FileSystemPath) :
  resolve_permission_path fs ep cwd = resolve_entry_path fs ep (absolute cwd).
Proof.
  rewrite Hd. destruct ep as [q|g|v]; [done..|]. destruct v as [| |sub| | |]; simpl; try done.
  - rewrite Abs. unfold absolute_root_path_for_cwd. by apply (absolute_as_path []).
  - by rewrite Hd.
Qed.

(** An entry resolves as it does after its project roots are replaced. *)
Lemma materialize_resolves entry :
  resolve_entry_path fs (entry_path (materialize_cwd_dependent_entry fs cwd entry)) (absolute cwd) =
  resolve_entry_path fs (entry_path entry) (absolute cwd).
Proof.
  unfold materialize_cwd_dependent_entry. destruct entry as [ep a]. simpl.
  destruct ep as [q|g|v]; [done..|]. destruct v as [| |sub| | |]; try done.
  destruct (resolve_permission_path fs (Special (ProjectRoots sub)) cwd) as [r|] eqn:E; [|done].
  rewrite permission_path_resolves in E. by rewrite E.
Qed.

Lemma materialize_access entry :
  entry_access (materialize_cwd_dependent_entry fs cwd entry) = entry_access entry.
Proof. unfold materialize_cwd_dependent_entry. by repeat case_match. Qed.

Lemma paths_overlap_spec q r : paths_overlap q r = true ↔ q `prefix_of` r ∨ r `prefix_of` q.
Proof. unfold paths_overlap. rewrite orb_true_iff, !path_starts_with_spec. naive_solver. Qed.

(** A denial at a path comparable with an accepted grant is retained. *)
Lemma denial_retained source accepted output entry k g r :
  entry ∈ source → entry_access entry = AccessNone →
  resolve_entry_path fs (entry_path entry) (absolute cwd) = Some k →
  g ∈ accepted → can_read (entry_access g) = true →
  resolve_entry_path fs (entry_path g) (absolute cwd) = Some r →
  k `prefix_of` r ∨ r `prefix_of` k →
  materialize_cwd_dependent_entry fs cwd entry ∈
    (retain_constraining_deny_entries fs source accepted cwd output).1.
Proof.
  intros He Ea Rk Hg Rd Rr O. cbn [retain_constraining_deny_entries fst].
  apply elem_of_push_all. right. apply list_elem_of_fmap. exists entry. split; [done|].
  apply list_elem_of_In, filter_In. split.
  - apply filter_In. split; [by apply list_elem_of_In|by apply is_deny_spec].
  - unfold deny_entry_constrains_accepted_grant. apply existsb_exists_elem. exists g. split.
    + apply list_elem_of_In, filter_In. split; [by apply list_elem_of_In|done].
    + rewrite permission_path_resolves, Rr.
      assert (X : match entry_path entry with
                  | GlobPattern pattern => glob_static_prefix_path pattern cwd
                  | ep => resolve_permission_path fs ep cwd
                  end = Some k).
      { destruct (entry_path entry); [by rewrite permission_path_resolves|done|
          by rewrite permission_path_resolves]. }
      rewrite X. by apply paths_overlap_spec.
Qed.

(** Where an entry of the intersection comes from. *)
Lemma retained_source source accepted output x :
  x ∈ (retain_constraining_deny_entries fs source accepted cwd output).1 →
  x ∈ output ∨ entry_access x = AccessNone.
Proof.
  cbn [retain_constraining_deny_entries fst]. rewrite elem_of_push_all.
  intros [?|Hx]; [by left|right]. apply list_elem_of_fmap in Hx as (y & -> & Hy).
  rewrite materialize_access. apply list_elem_of_In, filter_In in Hy as [Hy _].
  apply filter_In in Hy as [_ Hy]. by apply is_deny_spec.
Qed.

Lemma retained_mono source accepted output x :
  x ∈ output → x ∈ (retain_constraining_deny_entries fs source accepted cwd output).1.
Proof. cbn [retain_constraining_deny_entries fst]. rewrite elem_of_push_all. by left. Qed.

Context (requested granted f : FileSystemPermissions).
Context (Preq : plain_policy (fsp_entries requested)) (Pgr : plain_policy (fsp_entries granted)).
Context (I : intersect_file_systems fs requested granted cwd = Some f).

Abbreviation entries_of g := (resolved_entries_with_cwd fs (policy_of_permissions g) cwd).

Lemma intersect_accepted :
  ∃ accepted,
    (∀ x, x ∈ accepted → ∃ g, g ∈ fsp_entries granted ∧
       x = materialize_cwd_dependent_entry fs cwd g ∧ can_read (entry_access g) = true ∧
       ∀ r, resolve_entry_path fs (entry_path g) (absolute cwd) = Some r →
         can_read (nearest_access (entries_of requested) r) = true) ∧
    fsp_entries f =
      (retain_constraining_deny_entries fs (fsp_entries granted) accepted cwd
         (retain_constraining_deny_entries fs (fsp_entries requested) accepted cwd accepted).1).1.
Proof.
  unfold intersect_file_systems in I. apply bind_Some in I as (m & _ & E).
  match type of E with context [foldl push_unique [] ?l] => set (acc := foldl push_unique [] l) in E end.
  exists acc. split; [|by injection E as <-].
  intros x Hx. unfold acc in Hx. apply elem_of_push_all in Hx as [?%elem_of_nil|Hx]; [done|].
  apply list_elem_of_fmap in Hx as (g & -> & Hg). apply list_elem_of_In, filter_In in Hg as [Hg W].
  apply list_elem_of_In in Hg. exists g. unfold granted_file_system_entry_within_request in W.
  destruct (can_read (entry_access g)) eqn:R; [|done]. split_and!; [done..|].
  intros r Hr. rewrite permission_path_resolves, Hr in W. cbn [negb] in W.
  destruct (match m with Some m => _ | None => false end); [done|].
  assert (Fr : plain_path r) by (eapply resolve_entry_plain; [exact Pgr|done..]).
  rewrite (resolve_access_nearest fs _ _ _ r) in W; [|done|by apply candidate_as_path].
  change (resolved_entries_with_cwd fs (restricted (fsp_entries requested)) cwd)
    with (entries_of requested) in W.
  destruct (entry_access g), (nearest_access (entries_of requested) r); done.
Qed.

(** The resolved entries of the intersection: readable ones were granted, and
    requested at that directory; denials near them are kept. *)
Lemma intersect_entries :
  (∀ r a, Resolved r a ∈ entries_of f → a ≠ AccessNone →
     Resolved r a ∈ entries_of granted ∧ can_read (nearest_access (entries_of requested) r) = true) ∧
  (∀ r a k, Resolved r a ∈ entries_of f → a ≠ AccessNone →
     k `prefix_of` r ∨ r `prefix_of` k →
     Resolved k AccessNone ∈ entries_of requested ∨ Resolved k AccessNone ∈ entries_of granted →
     Resolved k AccessNone ∈ entries_of f).
Proof.
  destruct intersect_accepted as (accepted & A & Ef).
  assert (S : ∀ r a, Resolved r a ∈ entries_of f → a ≠ AccessNone → ∃ x, x ∈ accepted ∧
    resolve_entry_path fs (entry_path x) (absolute cwd) = Some r ∧ entry_access x = a).
  { intros r a (x & Hx & Rx & Ax)%elem_of_resolved Na. simpl in *. exists x. split; [|done].
    rewrite Ef in Hx. apply retained_source in Hx as [Hx|]; [|congruence].
    apply retained_source in Hx as [|]; [done|congruence]. }
  split.
  - intros r a Hr Na. destruct (S r a Hr Na) as (x & Hx & Rx & Ax).
    destruct (A x Hx) as (g & Hg & -> & Rg & Cov). rewrite materialize_resolves in Rx.
    rewrite materialize_access in Ax. split; [|by apply Cov].
    apply elem_of_resolved. by exists g.
  - intros r a k Hr Na O D. destruct (S r a Hr Na) as (x & Hx & Rx & Ax).
    assert (Rd : can_read (entry_access x) = true) by (rewrite Ax; by destruct a).
    assert (K : ∃ y, y ∈ fsp_entries f ∧ entry_access y = AccessNone ∧
      resolve_entry_path fs (entry_path y) (absolute cwd) = Some k).
    { destruct D as [D|D]; apply elem_of_resolved in D as (y & Hy & Ry & Ay); simpl in *;
        exists (materialize_cwd_dependent_entry fs cwd y);
        rewrite materialize_access, materialize_resolves, Ef; (split; [|done]).
      - apply retained_mono. by eapply denial_retained.
      - by eapply denial_retained. }
    destruct K as (y & Hy & Ay & Ry). apply elem_of_resolved. by exists y.
Qed.

(** A readable path of the intersection is readable on both sides. *)
Lemma intersect_readable target :
  can_read (nearest_access (entries_of f) target) = true →
  can_read (nearest_access (entries_of requested) target) = true ∧
  can_read (nearest_access (entries_of granted) target) = true.
Proof.
  intros Rd. destruct intersect_entries as [G D].
  destruct (nearest_access_inv (entries_of f) target) as [(r & a & Pr & Ar & E & N)|[E _]];
    rewrite E in Rd; [|done].
  assert (Na : a ≠ AccessNone) by (by intros ->).
  apply access_at_Some in Ar as Hr. destruct (G r a Hr Na) as [Gr Rr].
  (* a denial that decides [target] would be kept, at [r] or above it *)
  assert (Kept : ∀ k, k `prefix_of` target →
    Resolved k AccessNone ∈ entries_of requested ∨ Resolved k AccessNone ∈ entries_of granted →
    length k < length r ∧ k `prefix_of` r).
  { intros k Pk Hk. assert (O : k `prefix_of` r ∨ r `prefix_of` k)
      by (destruct (prefix_weak_total _ _ _ Pk Pr); eauto).
    pose proof (D r a k Hr Na O Hk) as Hf. apply access_at_deny in Hf.
    assert (L : length k ≤ length r).
    { destruct (decide (length r < length k)) as [L|]; [|lia]. by rewrite N in Hf. }
    assert (Nk : k ≠ r) by (intros ->; congruence).
    destruct O as [O|O].
    - split; [|done]. by apply prefix_ne_length.
    - exfalso. apply prefix_ne_length in O; [lia|done]. }
  split.
  - destruct (nearest_access_inv (entries_of requested) target) as [(k & b & Pk & Ak & Eb & Nk)|[Eb Nk]].
    + rewrite Eb. destruct b; [done..|exfalso]. apply access_at_Some in Ak as Hk.
      destruct (Kept k Pk (or_introl Hk)) as [L P].
      rewrite (nearest_access_at _ k r AccessNone P Ak) in Rr; [done|].
      intros j Pj Lj. apply Nk; [by trans r|done].
    + exfalso. destruct (nearest_access_inv (entries_of requested) r) as [(k & b & Pk & Ak & _)|[E' _]];
        [|by rewrite E' in Rr]. rewrite Nk in Ak; [done|by trans r].
  - destruct (nearest_access_inv (entries_of granted) target) as [(k & b & Pk & Ak & Eb & Nk)|[Eb Nk]].
    + rewrite Eb. destruct b; [done..|exfalso]. apply access_at_Some in Ak as Hk.
      destruct (Kept k Pk (or_intror Hk)) as [L P].
      apply access_at_is_Some in Gr as [c Hc]. by rewrite Nk in Hc.
    + apply access_at_is_Some in Gr as [c Hc]. by rewrite Nk in Hc.
Qed.
End intersect.

(** C23: Intersecting the permissions a command requested with those the user
    granted gives no read access beyond either: every path readable under the
    intersection is readable under the request and under the grant, and the network
    is enabled only if both enable it. *)
Theorem intersection_within_both `{ProcessEnv, Globset} (fs : fsys) cwd d
    (requested granted out : AdditionalPermissionProfile) requested_fs granted_fs f (p : os_path)
    target :
  plain_current_dir → os_root cwd = true → absolute cwd = Some d →
  ap_file_system requested = Some requested_fs → ap_file_system granted = Some granted_fs →
  plain_policy (fsp_entries requested_fs) → plain_policy (fsp_entries granted_fs) →
  intersect_permission_profiles fs requested granted cwd = Some out →
  (network_granted (ap_network out) = true →
     network_granted (ap_network requested) = true ∧ network_granted (ap_network granted) = true) ∧
  (ap_file_system out = Some f → resolve_candidate_path p cwd = Some target →
   can_read_path_with_cwd fs (policy_of_permissions f) p cwd = true →
   can_read_path_with_cwd fs (policy_of_permissions requested_fs) p cwd = true ∧
   can_read_path_with_cwd fs (policy_of_permissions granted_fs) p cwd = true).
Proof.
  intros Hcwd Abs Hd Er Eg Pr Pg E. unfold intersect_permission_profiles in E. rewrite Er, Eg in E.
  apply bind_Some in E as (g & I & [= <-]). simpl. split.
  - destruct (network_granted (ap_network requested)), (network_granted (ap_network granted)); done.
  - intros Ef C. destruct (negb (fsp_is_empty g)); [|done]. injection Ef as ->.
    unfold can_read_path_with_cwd. rewrite !(resolve_access_nearest _ _ _ _ target) by done.
    by eapply intersect_readable.
Qed.
