(* ===== verification/Bwrap.v ===== *)
(** * linux-sandbox: the file system a sandboxed command sees

    [bwrap.rs] of [codex-rs/linux-sandbox]: the command line that makes
    bubblewrap build the file-system view of a policy.  A mount flag keeps its
    operands apart until the command line is put together ([flag_args]).  The
    numbers of open files, the identity of files (device and inode), the
    program [rg] and the glob sets are parameters. *)

From S2P Require Import Prelude RustStr FsModel ExecFs Permissions SandboxRoots.

Implicit Types (policy : FileSystemSandboxPolicy) (cwd : os_path) (fs : fsys).
Implicit Types (p root : path).

(** ** What the helper finds around it *)

(** How a run of [rg] ends; a killed process has no code. *)
Inductive RgRun :=
| RgError (e : io_error)
| RgOutput (code : option Z) (stdout stderr : string).

(** Which file an object on disk is, by device and inode. *)
Record FileIdentity := { dev : N; ino : N }.

#[global] Instance FileIdentity_eq_dec : EqDecision FileIdentity.
Proof. solve_decision. Defined.

Class BwrapEnv := {
  dev_null : io_error + N;
  file_identity : path → FileIdentity;
  run_rg : list string → RgRun;
  glob_set_error : list string → option string
}.

Inductive BwrapError := Fatal (text : string) | Io (e : io_error).

(** ** Options *)

Definition LINUX_PLATFORM_DEFAULT_READ_ROOTS : list path :=
  [["bin"]; ["sbin"]; ["usr"]; ["etc"]; ["lib"]; ["lib64"]; ["nix"; "store"];
   ["run"; "current-system"; "sw"]].

Definition MAX_UNREADABLE_GLOB_MATCHES : nat := N.to_nat 8192.

Inductive BwrapNetworkMode := FullAccess | Isolated | ProxyOnly.

#[global] Instance BwrapNetworkMode_eq_dec : EqDecision BwrapNetworkMode.
Proof. solve_decision. Defined.

Definition should_unshare_network (m : BwrapNetworkMode) : bool :=
  match m with FullAccess => false | _ => true end.

Record BwrapOptions := {
  mount_proc : bool;
  network_mode : BwrapNetworkMode;
  options_glob_scan_max_depth : option N
}.

Definition default_options : BwrapOptions := {|
  mount_proc := true; network_mode := FullAccess; options_glob_scan_max_depth := None |}.

(** ** Flags *)

Inductive bwrap_flag :=
| NewSession
| DieWithParent
| UnshareUser
| UnsharePid
| UnshareNet
| Proc (dest : path)
| Dev (dest : path)
| Bind (src dest : path)
| RoBind (src dest : path)
| RoBindData (fd : N) (dest : path)
| Perms (mode : string)
| TmpfsAt (dest : path)
| RemountRo (dest : path)
| DirAt (dest : path)
| Chdir (dir : os_path).

Definition flag_args (f : bwrap_flag) : list string :=
  match f with
  | NewSession => ["--new-session"]
  | DieWithParent => ["--die-with-parent"]
  | UnshareUser => ["--unshare-user"]
  | UnsharePid => ["--unshare-pid"]
  | UnshareNet => ["--unshare-net"]
  | Proc dest => ["--proc"; display dest]
  | Dev dest => ["--dev"; display dest]
  | Bind src dest => ["--bind"; display src; display dest]
  | RoBind src dest => ["--ro-bind"; display src; display dest]
  | RoBindData fd dest => ["--ro-bind-data"; pretty fd; display dest]
  | Perms mode => ["--perms"; mode]
  | TmpfsAt dest => ["--tmpfs"; display dest]
  | RemountRo dest => ["--remount-ro"; display dest]
  | DirAt dest => ["--dir"; display dest]
  | Chdir dir => ["--chdir"; os_str dir]
  end.

(** ** Targets that have to be cleaned up *)

(** What [symlink_metadata] reports. *)
Record Metadata := { md_node : node; md_identity : FileIdentity }.

Inductive SyntheticMountTargetKind := EmptyFile | EmptyDirectory.

Record SyntheticMountTarget := {
  target_path : path;
  target_kind : SyntheticMountTargetKind;
  pre_existing_path : option FileIdentity
}.

Record ProtectedCreateTarget := { protected_path : path }.

#[global] Instance SyntheticMountTargetKind_eq_dec : EqDecision SyntheticMountTargetKind.
Proof. solve_decision. Defined.
#[global] Instance SyntheticMountTarget_eq_dec : EqDecision SyntheticMountTarget.
Proof. solve_decision. Defined.

Definition synthetic_missing (p : path) : SyntheticMountTarget := {|
  target_path := p; target_kind := EmptyFile; pre_existing_path := None |}.
Definition synthetic_missing_empty_directory (p : path) : SyntheticMountTarget := {|
  target_path := p; target_kind := EmptyDirectory; pre_existing_path := None |}.
Definition synthetic_existing_empty_file (p : path) (m : Metadata) : SyntheticMountTarget := {|
  target_path := p; target_kind := EmptyFile; pre_existing_path := Some (md_identity m) |}.
Definition synthetic_existing_empty_directory (p : path) (m : Metadata)
  : SyntheticMountTarget := {|
  target_path := p; target_kind := EmptyDirectory; pre_existing_path := Some (md_identity m) |}.

Definition preserves_pre_existing_path (t : SyntheticMountTarget) : bool :=
  match pre_existing_path t with Some _ => true | None => false end.

Definition should_remove_after_bwrap (t : SyntheticMountTarget) (m : Metadata) : bool :=
  match target_kind t, md_node m with
  | EmptyFile, File content => String.eqb content ""
  | EmptyDirectory, Dir => true
  | _, _ => false
  end &&
  match pre_existing_path t with
  | Some identity => negb (bool_decide (identity = md_identity m))
  | None => true
  end.

(** The arguments so far, the files to keep open (by number), and the targets. *)
Record BwrapArgs (A : Type) := {
  args : list A;
  preserved_files : list N;
  synthetic_mount_targets : list SyntheticMountTarget;
  protected_create_targets : list ProtectedCreateTarget
}.
Arguments args {A}.
Arguments preserved_files {A}.
Arguments synthetic_mount_targets {A}.
Arguments protected_create_targets {A}.

Definition args_only {A : Type} (l : list A) : BwrapArgs A := {|
  args := l; preserved_files := []; synthetic_mount_targets := [];
  protected_create_targets := [] |}.

Definition push_args {A : Type} (l : list A) (b : BwrapArgs A) : BwrapArgs A := {|
  args := args b ++ l; preserved_files := preserved_files b;
  synthetic_mount_targets := synthetic_mount_targets b;
  protected_create_targets := protected_create_targets b |}.
Definition push_file {A : Type} (fd : N) (b : BwrapArgs A) : BwrapArgs A := {|
  args := args b; preserved_files := preserved_files b ++ [fd];
  synthetic_mount_targets := synthetic_mount_targets b;
  protected_create_targets := protected_create_targets b |}.
Definition push_target {A : Type} (t : SyntheticMountTarget) (b : BwrapArgs A) : BwrapArgs A := {|
  args := args b; preserved_files := preserved_files b;
  synthetic_mount_targets := synthetic_mount_targets b ++ [t];
  protected_create_targets := protected_create_targets b |}.
Definition push_protected {A : Type} (t : ProtectedCreateTarget) (b : BwrapArgs A)
  : BwrapArgs A := {|
  args := args b; preserved_files := preserved_files b;
  synthetic_mount_targets := synthetic_mount_targets b;
  protected_create_targets := protected_create_targets b ++ [t] |}.

(** ** Paths *)

(** The root directory is a component, too. *)
Definition path_depth (p : path) : nat := S (length p).
Definition by_depth (p q : path) : bool := path_depth p <=? path_depth q.

(** The elements of a [BTreeSet]. *)
Definition path_set (l : list path) : list path := dedup_adjacent (sort_by path_leb l).

Section paths.
Context `{ProcessEnv, BwrapEnv} (fs : fsys).

Definition os_exists (p : os_path) : bool :=
  match fs_canonicalize fs p with Some _ => true | None => false end.

Definition symlink_metadata (p : path) : io_kind + Metadata :=
  let? n := lstat fs p in inr {| md_node := n; md_identity := file_identity p |}.

(** The target of a path with a link among its components; [None] at the
    first component that does not exist. *)
Fixpoint canonical_target_go (p current rest : path) : option path :=
  match rest with
  | [] => None
  | c :: rest' =>
      if String.eqb c ".." then canonical_target_go p (removelast current) rest' else
      let current := current ++ [c] in
      match lstat fs current with
      | inl _ => None
      | inr (Link _) =>
          target ← fs_canonicalize fs (as_path p);
          if decide (target = p) then None else Some target
      | inr _ => canonical_target_go p current rest'
      end
  end.
Definition canonical_target_if_symlinked_path (p : path) : option path :=
  canonical_target_go p [] p.

Definition remap_paths_for_symlink_target (paths : list path) (root target : path) : list path :=
  map (λ p, match strip_path root p with Some relative => target ++ relative | None => p end) paths.

Definition normalize_command_cwd_for_bwrap (command_cwd : os_path) : os_path :=
  match fs_canonicalize fs command_cwd with Some q => as_path q | None => command_cwd end.

Definition is_within_allowed_write_paths (p : path) (allowed_write_paths : list path) : bool :=
  existsb (λ root, path_starts_with root p) allowed_write_paths.

(** The first link that lies under a writable root. *)
Fixpoint first_writable_symlink_go (allowed_write_paths : list path) (current rest : path)
  : option path :=
  match rest with
  | [] => None
  | c :: rest' =>
      if String.eqb c ".." then first_writable_symlink_go allowed_write_paths (removelast current) rest'
      else
      let current := current ++ [c] in
      match lstat fs current with
      | inl _ => None
      | inr (Link _) =>
          if is_within_allowed_write_paths current allowed_write_paths then Some current
          else first_writable_symlink_go allowed_write_paths current rest'
      | inr _ => first_writable_symlink_go allowed_write_paths current rest'
      end
  end.
Definition first_writable_symlink_component_in_path (target_path : path)
    (allowed_write_paths : list path) : option path :=
  first_writable_symlink_go allowed_write_paths [] target_path.

Fixpoint first_non_existent_go (current rest : path) : option path :=
  match rest with
  | [] => None
  | c :: rest' =>
      if String.eqb c ".." then first_non_existent_go (removelast current) rest' else
      let current := current ++ [c] in
      if negb (fs_exists fs current) then Some current else first_non_existent_go current rest'
  end.
Definition find_first_non_existent_component (target_path : path) : option path :=
  first_non_existent_go [] target_path.

(** ** Mounts *)

Definition append_empty_file_bind_data_args (p : path) (b : BwrapArgs bwrap_flag)
  : BwrapError + BwrapArgs bwrap_flag :=
  let? b := match preserved_files b with
            | [] => let? fd := map_err Io dev_null in inr (push_file fd b)
            | _ => inr b
            end in
  inr (push_args [RoBindData (default 0%N (head (preserved_files b))) p] b).

Definition append_empty_directory_args (p : path) (b : BwrapArgs bwrap_flag)
  : BwrapArgs bwrap_flag := push_args [Perms "555"; TmpfsAt p; RemountRo p] b.

Definition append_missing_empty_file_bind_data_args (p : path) (b : BwrapArgs bwrap_flag)
  : BwrapError + BwrapArgs bwrap_flag :=
  let? b := append_empty_file_bind_data_args p b in
  inr (push_target (synthetic_missing p) b).

Definition append_existing_empty_file_bind_data_args (p : path) (m : Metadata)
    (b : BwrapArgs bwrap_flag) : BwrapError + BwrapArgs bwrap_flag :=
  let? b := append_empty_file_bind_data_args p b in
  inr (push_target (synthetic_existing_empty_file p m) b).

Definition append_existing_empty_directory_args (p : path) (m : Metadata)
    (b : BwrapArgs bwrap_flag) : BwrapArgs bwrap_flag :=
  push_target (synthetic_existing_empty_directory p m) (append_empty_directory_args p b).

Definition has_protected_metadata_name (p : path) : bool :=
  match file_name p with Some name => is_protected_metadata_name name | None => false end.

Definition append_missing_read_only_subpath_args (p : path) (b : BwrapArgs bwrap_flag)
  : BwrapError + BwrapArgs bwrap_flag :=
  if has_protected_metadata_name p
  then inr (push_target (synthetic_missing_empty_directory p) (append_empty_directory_args p b))
  else append_missing_empty_file_bind_data_args p b.

(** [take_while] the paths differ from the anchor; from the top down. *)
Fixpoint take_while {A : Type} (f : A → bool) (l : list A) : list A :=
  match l with [] => [] | x :: l' => if f x then x :: take_while f l' else [] end.

Definition append_mount_target_parent_dir_args (mount_target anchor : path)
    (b : BwrapArgs bwrap_flag) : BwrapArgs bwrap_flag :=
  match (if fs_is_dir fs mount_target then Some mount_target else FsModel.parent mount_target) with
  | None => b
  | Some mount_target_dir =>
      push_args (map DirAt (reverse (take_while (λ p, negb (bool_decide (p = anchor)))
                                       (ancestors mount_target_dir)))) b
  end.

Definition directory_is_empty (p : path) : bool :=
  match fs_read_dir fs p with inr [] => true | _ => false end.

Inductive EmptyProtectedMetadataPath := EmptyFileAt (m : Metadata) | EmptyDirectoryAt (m : Metadata).

Definition transient_empty_metadata_path (p : path) : option EmptyProtectedMetadataPath :=
  if negb (has_protected_metadata_name p) then None else
  match symlink_metadata p with
  | inl _ => None
  | inr m =>
      match md_node m with
      | File content => if String.eqb content "" then Some (EmptyFileAt m) else None
      | Dir => if directory_is_empty p then Some (EmptyDirectoryAt m) else None
      | Link _ => None
      end
  end.

Definition crosses_writable_symlink (what : string) (p symlink : path) : BwrapError :=
  Fatal ("cannot enforce sandbox " +:+ what +:+ " path " +:+ display p +:+
         " because it crosses writable symlink " +:+ display symlink).

Definition append_read_only_subpath_args (allowed_write_paths : list path)
    (b : BwrapArgs bwrap_flag) (subpath : path) : BwrapError + BwrapArgs bwrap_flag :=
  match first_writable_symlink_component_in_path subpath allowed_write_paths with
  | Some symlink => inl (crosses_writable_symlink "read-only" subpath symlink)
  | None =>
      match (if is_within_allowed_write_paths subpath allowed_write_paths
             then transient_empty_metadata_path subpath else None) with
      | Some (EmptyFileAt m) => append_existing_empty_file_bind_data_args subpath m b
      | Some (EmptyDirectoryAt m) => inr (append_existing_empty_directory_args subpath m b)
      | None =>
          if negb (fs_exists fs subpath) then
            match find_first_non_existent_component subpath with
            | Some first_missing_component =>
                if is_within_allowed_write_paths first_missing_component allowed_write_paths
                then append_missing_read_only_subpath_args first_missing_component b
                else inr b
            | None => inr b
            end
          else if is_within_allowed_write_paths subpath allowed_write_paths
          then inr (push_args [RoBind subpath subpath] b)
          else inr b
      end
  end.

Definition append_existing_unreadable_path_args (allowed_write_paths : list path)
    (unreadable_root : path) (b : BwrapArgs bwrap_flag) : BwrapError + BwrapArgs bwrap_flag :=
  if fs_is_dir fs unreadable_root then
    let writable_descendants :=
      List.filter (λ p, negb (bool_decide (p = unreadable_root)) &&
                        path_starts_with unreadable_root p) allowed_write_paths in
    let mode := match writable_descendants with [] => "000" | _ => "111" end in
    let b := push_args [Perms mode; TmpfsAt unreadable_root] b in
    let b := foldl (λ b descendant,
               append_mount_target_parent_dir_args descendant unreadable_root b) b
               (sort_by by_depth writable_descendants) in
    inr (push_args [RemountRo unreadable_root] b)
  else append_empty_file_bind_data_args unreadable_root (push_args [Perms "000"] b).

Definition append_unreadable_root_args (allowed_write_paths : list path)
    (b : BwrapArgs bwrap_flag) (unreadable_root : path) : BwrapError + BwrapArgs bwrap_flag :=
  match first_writable_symlink_component_in_path unreadable_root allowed_write_paths with
  | Some symlink => inl (crosses_writable_symlink "deny-read" unreadable_root symlink)
  | None =>
      if negb (fs_exists fs unreadable_root) then
        match find_first_non_existent_component unreadable_root with
        | Some first_missing_component =>
            if is_within_allowed_write_paths first_missing_component allowed_write_paths
            then append_missing_empty_file_bind_data_args first_missing_component b
            else inr b
        | None => inr b
        end
      else append_existing_unreadable_path_args allowed_write_paths unreadable_root b
  end.

(** ** Metadata of writable roots *)

Definition ancestor_has_git_metadata (ancestor : path) : bool :=
  let git_path := FsModel.join ancestor ".git" in
  match lstat fs git_path with
  | inr Dir => match lstat fs (FsModel.join git_path "HEAD") with inr _ => true | inl _ => false end
  | inr (File _) =>
      match fs_read_to_string fs git_path with
      | inr contents => starts_with "gitdir:" (trim_start contents)
      | inl _ => false
      end
  | _ => false
  end.

Definition should_leave_missing_git_for_parent_repo_discovery (mount_root : path) (name : string)
  : bool :=
  String.eqb name ".git" &&
  match lstat fs (FsModel.join mount_root name) with inl NotFound => true | _ => false end &&
  existsb ancestor_has_git_metadata (drop 1 (ancestors mount_root)).

Definition append_metadata_path_masks_for_writable_root (root mount_root : path)
    (protected_metadata_names : list string) (read_only_subpaths : list path) : list path :=
  foldl (λ read_only_subpaths name,
    let p := FsModel.join root name in
    if should_leave_missing_git_for_parent_repo_discovery mount_root name then read_only_subpaths
    else push_unique read_only_subpaths p) read_only_subpaths protected_metadata_names.

Definition append_protected_create_targets_for_writable_root
    (protected_metadata_names : list string) (root : path) (symlink_target : option path)
    (read_only_subpaths : list path) (b : BwrapArgs bwrap_flag) : BwrapArgs bwrap_flag :=
  foldl (λ b name,
    let p := FsModel.join root name in
    let p := match symlink_target, strip_path root p with
             | Some target, Some relative_path => target ++ relative_path
             | _, _ => p
             end in
    if bool_decide (p ∈ read_only_subpaths) || fs_exists fs p then b
    else push_protected {| protected_path := p |} b) b protected_metadata_names.
End paths.

(** ** Expanding patterns *)

Definition is_glob_meta (c : ascii) : bool :=
  existsb (Ascii.eqb c) ["*"%char; "?"%char; "["%char; "]"%char].

(** The index of the first metacharacter. *)
Fixpoint first_glob_index (l : list ascii) : option nat :=
  match l with
  | [] => None
  | c :: l' => if is_glob_meta c then Some 0 else S <$> first_glob_index l'
  end.

(** [str::rfind] of a separator. *)
Definition rfind_slash (l : list ascii) : option nat :=
  foldl (λ acc '(i, c), if Ascii.eqb c "/" then Some i else acc) None (imap pair l).

(** Inside a class, [class] holds what follows its bracket. *)
Fixpoint escape_go (class : option (list ascii)) (l : list ascii) : list ascii :=
  match class, l with
  | None, [] => []
  | None, c :: l' => if Ascii.eqb c "[" then escape_go (Some []) l' else c :: escape_go None l'
  | Some cls, [] => "\"%char :: "["%char :: cls
  | Some cls, c :: l' =>
      if Ascii.eqb c "]" then "["%char :: cls ++ "]"%char :: escape_go None l'
      else escape_go (Some (cls ++ [c])) l'
  end.
Definition escape_unclosed_glob_classes (glob : string) : string :=
  of_bytes (escape_go None (bytes glob)).

(** [AbsolutePathBuf::from_absolute_path_checked]. *)
Definition from_absolute_path_checked `{ProcessEnv} (s : string) : io_error + path :=
  let expanded := maybe_expand_home_directory env_home s in
  if is_absolute expanded then inr (normalize_path (comps expanded))
  else inl {| ek := InvalidInput; etext := "path is not absolute: " +:+ s |}.

Definition split_pattern_for_ripgrep `{ProcessEnv} (pattern : string) (cwd : os_path)
  : option (path * string) :=
  let pattern := bytes (os_str (resolve_text_against pattern cwd)) in
  i ← first_glob_index pattern;
  let static_prefix := take i pattern in
  if bool_decide (static_prefix = []) || bool_decide (static_prefix = ["/"%char]) then None else
  let search_root_end :=
    if bool_decide (last static_prefix = Some "/"%char) then length static_prefix - 1
    else default 0 (rfind_slash static_prefix) in
  search_root ← ok_of (from_absolute_path_checked
                         (if search_root_end =? 0 then "/"
                          else of_bytes (take search_root_end pattern)));
  let glob := escape_unclosed_glob_classes (of_bytes (drop (S search_root_end) pattern)) in
  if String.eqb glob "" then None else Some (search_root, glob).

Section globs.
Context `{ProcessEnv, BwrapEnv, Globset} (fs : fsys).

(** The entries of a directory, with the type each has without following
    links; [fuel] bounds the depth. *)
Fixpoint collect_glob_files (fuel : nat) (search_root dir : path) (glob_set : os_path → bool)
    (remaining_depth : option N) (paths : list path) : BwrapError + list path :=
  match fuel with
  | O => inr paths
  | S fuel =>
      let? names := map_err (λ k, Io (os_error k)) (fs_read_dir fs dir) in
      try_fold (λ paths name,
        let p := FsModel.join dir name in
        let? file_type := map_err (λ k, Io (os_error k)) (lstat fs p) in
        let relative := match strip_path search_root p with
                        | Some relative => OsPath false relative
                        | None => as_path p
                        end in
        let? paths :=
          match file_type with
          | Dir => inr paths
          | _ =>
              if glob_set relative then
                let? q := map_err Io (from_absolute_path_checked (display p)) in inr (paths ++ [q])
              else inr paths
          end in
        match file_type with
        | Dir =>
            match remaining_depth with
            | Some 0%N | Some 1%N => inr paths
            | Some depth => collect_glob_files fuel search_root p glob_set (Some (depth - 1)%N) paths
            | None => collect_glob_files fuel search_root p glob_set None paths
            end
        | _ => inr paths
        end) paths names
  end.

(** No path of the file system is deeper. *)
Definition glob_fuel : nat := S (max_list (map (length ∘ fst) (map_to_list fs))).

Definition glob_files (search_root : path) (globs : list string) (max_depth : option N)
  : BwrapError + list path :=
  let? matchers := try_fold (λ matchers glob,
      match build_glob_matcher glob with
      | inr matcher => inr (matchers ++ [matcher])
      | inl err => inl (Fatal ("unreadable glob pattern is invalid for " +:+ display search_root +:+
                                ": " +:+ err))
      end) [] globs in
  match glob_set_error globs with
  | Some err => inl (Fatal ("unreadable glob matcher failed for " +:+ display search_root +:+
                             ": " +:+ err))
  | None =>
      collect_glob_files glob_fuel search_root search_root
        (λ relative, existsb (λ matcher, matcher relative) matchers) max_depth []
  end.

Definition rg_args (search_root : path) (globs : list string) (max_depth : option N) : list string :=
  ["--files"; "--hidden"; "--no-ignore"; "--null"] ++
  match max_depth with Some d => ["--max-depth"; pretty d] | None => [] end ++
  concat (map (λ glob, ["--glob"; glob]) globs) ++
  ["--"; display search_root].

Definition ripgrep_files (search_root : path) (globs : list string) (max_depth : option N)
  : BwrapError + list path :=
  match run_rg (rg_args search_root globs max_depth) with
  | RgError e =>
      if bool_decide (ek e = NotFound) then glob_files search_root globs max_depth else inl (Io e)
  | RgOutput code stdout stderr =>
      if negb (bool_decide (code = Some 0%Z)) then
        if bool_decide (code = Some 1%Z) && String.eqb stderr "" then inr []
        else inl (Fatal ("ripgrep unreadable glob scan failed for " +:+ display search_root +:+
                          ": " +:+ from_utf8_lossy stderr))
      else
        try_fold (λ paths s,
          let s := if is_absolute s then s else display (FsModel.join search_root s) in
          let? q := map_err Io (from_absolute_path_checked s) in inr (paths ++ [q])) []
          (List.filter (λ s, negb (String.eqb s "")) (split_char "000" stdout))
  end.

(** The [BTreeMap] from search roots to their globs. *)
Fixpoint push_glob (search_root : path) (glob : string) (m : list (path * list string))
  : list (path * list string) :=
  match m with
  | [] => [(search_root, [glob])]
  | (r, globs) :: m' =>
      if decide (r = search_root) then (r, globs ++ [glob]) :: m'
      else if path_leb search_root r then (search_root, [glob]) :: m
      else (r, globs) :: push_glob search_root glob m'
  end.

Definition patterns_by_search_root (patterns : list string) (cwd : os_path)
  : list (path * list string) :=
  foldl (λ m pattern,
    match split_pattern_for_ripgrep pattern cwd with
    | Some (search_root, glob) => if fs_is_dir fs search_root then push_glob search_root glob m else m
    | None => m
    end) [] patterns.

(** A match, and the canonical target of a match behind a link. *)
Definition expand_match (search_root : path) (expanded_paths : list path) (p : path)
  : BwrapError + list path :=
  let? expanded_paths :=
    match canonical_target_if_symlinked_path fs p with
    | Some target =>
        let? target := map_err Io (from_absolute_path_checked (display target)) in
        inr (push_unique expanded_paths target)
    | None => inr expanded_paths
    end in
  let expanded_paths := push_unique expanded_paths p in
  if MAX_UNREADABLE_GLOB_MATCHES <? length expanded_paths then
    inl (Fatal ("unreadable glob expansion for " +:+ display search_root +:+
                " matched more than 8192 paths"))
  else inr expanded_paths.

Definition expand_unreadable_globs_with_ripgrep (patterns : list string) (cwd : os_path)
    (max_depth : option N) : BwrapError + list path :=
  if bool_decide (patterns = []) || bool_decide (max_depth = Some 0%N) then inr [] else
  let? expanded_paths :=
    try_fold (λ expanded_paths '(search_root, globs),
      let? paths := ripgrep_files search_root globs max_depth in
      try_fold (expand_match search_root) expanded_paths paths) []
      (patterns_by_search_root patterns cwd) in
  inr (path_set expanded_paths).

(** ** The file-system view *)

(** Metadata of the project root that is read-only but does not exist. *)
Definition missing_auto_metadata_read_only_project_root_subpaths policy cwd : list os_path :=
  omap (λ entry,
    match entry_path entry, entry_access entry with
    | Special (ProjectRoots (Some subpath)), AccessRead =>
        if negb (existsb (λ name, bool_decide (subpath = os_of name)) [".git"; ".agents"; ".codex"])
        then None else
        let resolved := resolve_text_against (os_str subpath) cwd in
        if os_exists fs resolved then None else Some resolved
    | _, _ => None
    end) (policy_entries policy).

(** The writable roots that exist. *)
Definition bwrap_writable_roots policy cwd (unreadable_globs : list string) : list WritableRoot :=
  let writable_roots :=
    List.filter (λ w, fs_exists fs (wr_root w)) (get_writable_roots_with_cwd fs policy cwd) in
  if bool_decide (writable_roots = []) && has_full_disk_write_access policy
     && negb (bool_decide (unreadable_globs = []))
  then [{| wr_root := []; read_only_subpaths := []; protected_metadata_names := [] |}]
  else writable_roots.

Definition bwrap_unreadable_roots policy cwd (glob_matches : list path) : list path :=
  path_set (get_unreadable_roots_with_cwd fs policy cwd ++ glob_matches).

(** The host below a restricted policy, or what of it can be read. *)
Definition full_base : list bwrap_flag := [RoBind [] []; Dev ["dev"]].

Definition readable_root_args (writable_roots : list WritableRoot) (root : path)
  : list bwrap_flag :=
  if negb (fs_exists fs root) then [] else
  let mount_root :=
    if existsb (λ w, path_starts_with (wr_root w) root) writable_roots
    then default root (canonical_target_if_symlinked_path fs root) else root in
  [RoBind mount_root mount_root].

Definition base_args policy cwd (writable_roots : list WritableRoot) : list bwrap_flag :=
  if has_full_disk_read_access policy then full_base else
  let readable_roots :=
    path_set (get_readable_roots_with_cwd fs policy cwd ++
              if include_platform_defaults policy
              then List.filter (fs_exists fs) LINUX_PLATFORM_DEFAULT_READ_ROOTS else []) in
  if bool_decide ([] ∈ readable_roots) then full_base
  else [TmpfsAt []; Dev ["dev"]] ++ concat (map (readable_root_args writable_roots) readable_roots).

Definition allowed_write_paths_of (writable_roots : list WritableRoot) : list path :=
  concat (map (λ w, wr_root w :: option_list (canonical_target_if_symlinked_path fs (wr_root w)))
            writable_roots).

Definition unreadable_ancestors_of_writable_roots (unreadable_roots allowed_write_paths : list path)
  : list path :=
  sort_by by_depth
    (List.filter (λ u, negb (existsb (λ r, path_starts_with r u) allowed_write_paths) &&
                       existsb (λ r, path_starts_with u r) allowed_write_paths) unreadable_roots).

Definition rootless_unreadable_roots (unreadable_roots allowed_write_paths : list path)
  : list path :=
  sort_by by_depth
    (List.filter (λ u, negb (existsb (λ r, path_starts_with r u || path_starts_with u r)
                               allowed_write_paths)) unreadable_roots).

(** The subpaths of a writable root that are mounted read-only. *)
Definition read_only_subpaths_to_mount (unreadable_roots : list path) (missing : list os_path)
    (mount_root : path) (symlink_target : option path) (w : WritableRoot) : list path :=
  let paths :=
    List.filter (λ p, negb (bool_decide (p ∈ unreadable_roots)) &&
                      negb (bool_decide (as_path p ∈ missing))) (read_only_subpaths w) in
  let paths :=
    append_metadata_path_masks_for_writable_root fs (wr_root w) mount_root
      (protected_metadata_names w) paths in
  match symlink_target with
  | Some target => remap_paths_for_symlink_target paths (wr_root w) target
  | None => paths
  end.

Definition nested_unreadable_roots (unreadable_roots : list path) (symlink_target : option path)
    (root : path) : list path :=
  let nested := List.filter (path_starts_with root) unreadable_roots in
  sort_by by_depth
    match symlink_target with
    | Some target => remap_paths_for_symlink_target nested root target
    | None => nested
    end.

(** The mounts of one writable root: parents below a denied ancestor, the
    root itself, its read-only subpaths, and the denied paths below it. *)
Definition append_writable_root_args (unreadable_roots : list path) (missing : list os_path)
    (allowed_write_paths : list path) (b : BwrapArgs bwrap_flag) (w : WritableRoot)
  : BwrapError + BwrapArgs bwrap_flag :=
  let root := wr_root w in
  let symlink_target := canonical_target_if_symlinked_path fs root in
  let b := match max_by_key by_depth
                   (List.filter (λ u, path_starts_with u root) unreadable_roots) with
           | Some masking_root => append_mount_target_parent_dir_args fs root masking_root b
           | None => b
           end in
  let mount_root := default root symlink_target in
  let b := push_args [Bind mount_root mount_root] b in
  let read_only_subpaths :=
    read_only_subpaths_to_mount unreadable_roots missing mount_root symlink_target w in
  let b := append_protected_create_targets_for_writable_root fs (protected_metadata_names w) root
             symlink_target read_only_subpaths b in
  let? b := try_fold (append_read_only_subpath_args fs allowed_write_paths) b
              (sort_by by_depth read_only_subpaths) in
  try_fold (append_unreadable_root_args fs allowed_write_paths) b
    (nested_unreadable_roots unreadable_roots symlink_target root).

Definition create_filesystem_args policy cwd (glob_scan_max_depth : option N)
  : BwrapError + BwrapArgs bwrap_flag :=
  let unreadable_globs := get_unreadable_globs_with_cwd policy cwd in
  let writable_roots := bwrap_writable_roots policy cwd unreadable_globs in
  let missing := missing_auto_metadata_read_only_project_root_subpaths policy cwd in
  let? glob_matches :=
    expand_unreadable_globs_with_ripgrep unreadable_globs cwd glob_scan_max_depth in
  let unreadable_roots := bwrap_unreadable_roots policy cwd glob_matches in
  let b := args_only (base_args policy cwd writable_roots) in
  let allowed_write_paths := allowed_write_paths_of writable_roots in
  let? b := try_fold (append_unreadable_root_args fs allowed_write_paths) b
              (unreadable_ancestors_of_writable_roots unreadable_roots allowed_write_paths) in
  let? b := try_fold (append_writable_root_args unreadable_roots missing allowed_write_paths) b
              (sort_by (λ v w, by_depth (wr_root v) (wr_root w)) writable_roots) in
  try_fold (append_unreadable_root_args fs allowed_write_paths) b
    (rootless_unreadable_roots unreadable_roots allowed_write_paths).

(** ** The command line *)

Definition network_flags (o : BwrapOptions) : list bwrap_flag :=
  if should_unshare_network (network_mode o) then [UnshareNet] else [].
Definition proc_flags (o : BwrapOptions) : list bwrap_flag :=
  if mount_proc o then [Proc ["proc"]] else [].

Definition command_line (flags : list bwrap_flag) (command : list string) : list string :=
  concat (map flag_args flags) ++ ["--"] ++ command.

Definition create_bwrap_flags_full_filesystem (command : list string) (o : BwrapOptions)
  : BwrapArgs string :=
  args_only (command_line
    ([NewSession; DieWithParent; Bind [] []; UnshareUser; UnsharePid] ++ network_flags o ++
     proc_flags o) command).

(** The flags around those of the file system. *)
Definition flags_around (b : BwrapArgs bwrap_flag) (command_cwd : os_path) (o : BwrapOptions)
  : list bwrap_flag :=
  let normalized_command_cwd := normalize_command_cwd_for_bwrap fs command_cwd in
  let chdir := if decide (normalized_command_cwd = command_cwd) then []
               else [Chdir normalized_command_cwd] in
  [NewSession; DieWithParent] ++ args b ++ [UnshareUser; UnsharePid] ++
  network_flags o ++ proc_flags o ++ chdir.

Definition create_bwrap_flags (command : list string) policy (sandbox_policy_cwd command_cwd : os_path)
    (o : BwrapOptions) : BwrapError + BwrapArgs string :=
  let? b := create_filesystem_args policy sandbox_policy_cwd
              match options_glob_scan_max_depth o with
              | Some d => Some d
              | None => glob_scan_max_depth policy
              end in
  inr {| args := command_line (flags_around b command_cwd o) command;
         preserved_files := preserved_files b;
         synthetic_mount_targets := synthetic_mount_targets b;
         protected_create_targets := protected_create_targets b |}.

Definition create_bwrap_command_args (command : list string) policy
    (sandbox_policy_cwd command_cwd : os_path) (o : BwrapOptions)
  : BwrapError + BwrapArgs string :=
  let unreadable_globs := get_unreadable_globs_with_cwd policy sandbox_policy_cwd in
  if has_full_disk_write_access policy && bool_decide (unreadable_globs = []) then
    if decide (network_mode o = FullAccess) then inr (args_only command)
    else inr (create_bwrap_flags_full_filesystem command o)
  else create_bwrap_flags command policy sandbox_policy_cwd command_cwd o.
End globs.
