(* ===== verification/BwrapProps.v ===== *)
(** * What a sandboxed command sees

    Mounts are made in order, so the last one at or above a path decides
    ([shown]).  On a file system without symbolic links this determines what
    the command line of [Bwrap] shows: nothing is writable that the policy
    does not let be written, nothing denied is shown, and what may be written
    stays writable. *)

From S2P Require Import Prelude RustStr FsModel FsFacts FsxProps ExecFs Permissions PermFacts.
From S2P Require Import SandboxRoots Profiles PermProps SandboxProps Bwrap.

Implicit Types (policy : FileSystemSandboxPolicy) (cwd : os_path) (p q r s t u : path).
Implicit Types (b : BwrapArgs bwrap_flag) (l : list bwrap_flag) (w : WritableRoot).

(** ** Mounts

    What bubblewrap does with its flags ([vendor/bubblewrap/bubblewrap.c],
    [setup_newroot]): a path shows the file of the host that the last mount
    at or above it shows, or something that is not from the host. *)

Inductive view :=
| NotHost
| Host (mount source : path) (writable : bool).

#[global] Instance view_eq_dec : EqDecision view.
Proof. solve_decision. Defined.

Definition flag_view (p : path) (v : view) (f : bwrap_flag) : view :=
  match f with
  | Bind src dest =>
      match strip_path dest p with Some rel => Host dest (src ++ rel) true | None => v end
  | RoBind src dest =>
      match strip_path dest p with Some rel => Host dest (src ++ rel) false | None => v end
  | Proc dest | Dev dest | RoBindData _ dest | TmpfsAt dest =>
      if path_starts_with dest p then NotHost else v
  | RemountRo dest =>
      match v with
      | Host mount source _ => if decide (mount = dest) then Host mount source false else v
      | NotHost => NotHost
      end
  | _ => v
  end.

Definition view_after (p : path) (v : view) (l : list bwrap_flag) : view := foldl (flag_view p) v l.
Definition shown (l : list bwrap_flag) (p : path) : view := view_after p NotHost l.

(** A mount that shows a path lies at or above it. *)
Definition view_ok (p : path) (v : view) : Prop :=
  match v with Host mount _ _ => mount `prefix_of` p | NotHost => True end.

Definition view_writable (v : view) : bool :=
  match v with Host _ _ writable => writable | NotHost => false end.

Definition binds (f : bwrap_flag) : bool := match f with Bind _ _ => true | _ => false end.

Lemma view_after_app p v l k : view_after p v (l ++ k) = view_after p (view_after p v l) k.
Proof. apply foldl_app. Qed.

Lemma flag_view_ok p v f : view_ok p v → view_ok p (flag_view p v f).
Proof.
  intros V. destruct f; simpl; repeat case_match; simplify_eq/=; try done;
    match goal with E : strip_path _ _ = Some _ |- _ => apply strip_path_Some in E as -> end;
    by apply prefix_app_r.
Qed.

Lemma view_after_ok p v l : view_ok p v → view_ok p (view_after p v l).
Proof. revert v. induction l as [|f l IH]; intros v V; [done|]. by apply IH, flag_view_ok. Qed.

(** Without a bind nothing becomes writable, and what stays writable is
    what was there. *)
Lemma view_writable_inv p v l :
  Forall (λ f, binds f = false) l → view_writable (view_after p v l) = true → view_after p v l = v.
Proof.
  revert v. induction l as [|f l IH]; intros v F W; [done|]. inversion F as [|? ? Ff Fl]; subst.
  change (view_after p v (f :: l)) with (view_after p (flag_view p v f) l) in *.
  pose proof (IH _ Fl W) as E. rewrite E in W |- *.
  destruct f; simpl in *; repeat case_match; simplify_eq/=; done.
Qed.

(** ** What a group of flags does *)

Definition masks t l : Prop :=
  Forall (λ f, binds f = false) l ∧
  ∀ p v, view_ok p v → view_after p v l = if path_starts_with t p then NotHost else v.
Definition protects t l : Prop :=
  Forall (λ f, binds f = false) l ∧
  ∀ p v, view_after p v l = if path_starts_with t p then Host t p false else v.

Lemma dirs_view p v ds : view_after p v (map DirAt ds) = v.
Proof. by induction ds. Qed.

Lemma tmpfs_masks t m ds : masks t (Perms m :: TmpfsAt t :: map DirAt ds ++ [RemountRo t]).
Proof.
  split.
  - repeat constructor. apply Forall_app. split; [|by repeat constructor].
    by apply Forall_map, Forall_true.
  - intros p v V. unfold view_after. cbn [foldl flag_view]. rewrite foldl_app.
    change (foldl (flag_view p) ?x (map DirAt ds)) with (view_after p x (map DirAt ds)).
    rewrite dirs_view. simpl. destruct (path_starts_with t p) eqn:E; [done|].
    destruct v as [|mount source wr]; [done|]. simpl in V. case_decide as D; [|done].
    subst. by apply path_starts_with_spec in V; rewrite V in E.
Qed.

Lemma data_masks t fd pre :
  (pre = [] ∨ ∃ m, pre = [Perms m]) → masks t (pre ++ [RoBindData fd t]).
Proof. intros [->|[m ->]]; (split; [by repeat constructor|done]). Qed.

Lemma bind_protects t : protects t [RoBind t t].
Proof.
  split; [by repeat constructor|]. intros p v. simpl. unfold path_starts_with.
  destruct (strip_path t p) as [k|] eqn:E; [|done]. by apply strip_path_Some in E as ->.
Qed.

(** ** Without symbolic links *)

Section link_free.
Context `{ProcessEnv, BwrapEnv, Globset} (fs : fsys) (Hfs : fs_ok no_links fs).

Lemma lstat_no_link p t : lstat fs p ≠ inr (Link t).
Proof.
  unfold lstat. destruct (lresolve fs p) as [|q]; [done|]. unfold look.
  destruct q as [|c q]; [done|]. destruct (fs !! (c :: q)) as [n|] eqn:E; [|done].
  intros [= ->]. by apply (ok_links _ _ Hfs) in E.
Qed.

Lemma no_canonical_target p : canonical_target_if_symlinked_path fs p = None.
Proof.
  unfold canonical_target_if_symlinked_path. generalize (@nil string) as current.
  generalize p at 2 as rest. induction rest as [|c rest IH]; intros current; [done|]. simpl.
  case_match; [done|]. destruct (lstat fs (current ++ [c])) as [|[| |t]] eqn:E; try done.
  by apply lstat_no_link in E.
Qed.

Lemma no_writable_symlink p allowed : first_writable_symlink_component_in_path fs p allowed = None.
Proof.
  unfold first_writable_symlink_component_in_path. generalize (@nil string) as current.
  induction p as [|c rest IH]; intros current; [done|]. simpl.
  case_match; [done|]. destruct (lstat fs (current ++ [c])) as [|[| |t]] eqn:E; try done.
  by apply lstat_no_link in E.
Qed.

Lemma exists_prefix p q :
  plain_path p → fs_exists fs p = true → q `prefix_of` p → fs_exists fs q = true.
Proof.
  intros F E P. assert (C : clear no_links p) by by apply clear_no_links, plain_no_dotdot.
  destruct (decide (q = [])) as [->|N]; [done|]. destruct (decide (q = p)) as [->|Nq]; [done|].
  apply (exists_true_clear _ _ Hfs) in E as [->|[n En]]; [| |done].
  - by apply prefix_nil_inv in P.
  - apply (exists_file_clear _ _ Hfs); [by eapply clear_prefix|].
    exists Dir. by eapply (ok_tree _ _ Hfs).
Qed.

(** The first component that does not exist. *)
Lemma first_missing_not_exists p t :
  find_first_non_existent_component fs p = Some t → fs_exists fs t = false.
Proof.
  unfold find_first_non_existent_component. generalize (@nil string) as current.
  induction p as [|c p IH]; intros current E; [done|]. simpl in E. case_match; [by eapply IH|].
  destruct (fs_exists fs (current ++ [c])) eqn:X; simpl in E; [by eapply IH|by simplify_eq].
Qed.

Lemma first_missing_plain p :
  plain_path p → fs_exists fs p = false →
  ∃ t, find_first_non_existent_component fs p = Some t ∧ t `prefix_of` p.
Proof.
  unfold find_first_non_existent_component. intros F E.
  assert (G : ∀ current, fs_exists fs current = true → fs_exists fs (current ++ p) = false →
    ∃ t, first_non_existent_go fs current p = Some t ∧ t `prefix_of` current ++ p).
  { clear E. induction F as [|c p Fc Fp IH]; intros current X E.
    - rewrite app_nil_r in E. congruence.
    - simpl. apply plain_not_dotdot, String.eqb_neq in Fc. rewrite Fc.
      destruct (fs_exists fs (current ++ [c])) eqn:Y; simpl.
      + destruct (IH (current ++ [c])) as (t & -> & P); [done|by rewrite <- app_assoc|].
        rewrite <- app_assoc in P. by exists t.
      + eexists. split; [done|]. apply prefix_app, prefix_cons, prefix_nil. }
  by apply (G []).
Qed.

(** ** The mounts of one path

    [Denied] hides a path, [ReadOnly] protects one. *)

Inductive mount_kind := Denied | Protected.

Inductive mount_step (kind : mount_kind) (allowed : list path) s : list bwrap_flag → Prop :=
| step_mask l : masks s l → mount_step kind allowed s l
| step_missing t l :
    fs_exists fs s = false → find_first_non_existent_component fs s = Some t →
    is_within_allowed_write_paths t allowed = true → masks t l → mount_step kind allowed s l
| step_protect l :
    kind = Protected → fs_exists fs s = true → protects s l → mount_step kind allowed s l
| step_outside :
    kind = Protected → is_within_allowed_write_paths s allowed = false →
    fs_exists fs s = true → mount_step kind allowed s []
| step_missing_outside :
    fs_exists fs s = false →
    (∀ t, find_first_non_existent_component fs s = Some t →
          is_within_allowed_write_paths t allowed = false) → mount_step kind allowed s [].

Lemma empty_file_masks t pre b b' :
  (pre = [] ∨ ∃ m, pre = [Perms m]) →
  append_empty_file_bind_data_args t (push_args pre b) = inr b' →
  ∃ l, args b' = args b ++ l ∧ masks t l.
Proof.
  intros P E. unfold append_empty_file_bind_data_args in E. simpl in E.
  destruct (preserved_files b) as [|fd fds]; [destruct (map_err Io dev_null) as [|fd]|];
    simplify_eq/=; (eexists; split; [by rewrite <- app_assoc|by apply data_masks]).
Qed.

Lemma missing_file_masks t b b' :
  append_missing_empty_file_bind_data_args t b = inr b' →
  ∃ l, args b' = args b ++ l ∧ masks t l.
Proof.
  unfold append_missing_empty_file_bind_data_args. intros (c & E & [= <-])%and_then_inr. simpl.
  apply (empty_file_masks t []); [by left|]. rewrite <- E. unfold push_args. rewrite app_nil_r.
  by destruct b.
Qed.

Lemma empty_directory_masks t b :
  ∃ l, args (append_empty_directory_args t b) = args b ++ l ∧ masks t l.
Proof. eexists. split; [done|]. apply (tmpfs_masks t "555" []). Qed.

(** A missing path: its first missing component is masked, when it lies below
    a writable root. *)
Lemma missing_step kind allowed s (mask : path → BwrapArgs bwrap_flag → BwrapError + BwrapArgs bwrap_flag)
    b b' :
  (∀ t c, mask t b = inr c → ∃ l, args c = args b ++ l ∧ masks t l) →
  fs_exists fs s = false →
  match find_first_non_existent_component fs s with
  | Some t => if is_within_allowed_write_paths t allowed then mask t b else inr b
  | None => inr b
  end = inr b' →
  ∃ l, args b' = args b ++ l ∧ mount_step kind allowed s l.
Proof.
  intros M X E. destruct (find_first_non_existent_component fs s) as [t|] eqn:Ft.
  - destruct (is_within_allowed_write_paths t allowed) eqn:Wt.
    + destruct (M _ _ E) as (l & A & Ml). exists l. split; [done|]. by eapply step_missing.
    + injection E as <-. exists []. rewrite app_nil_r. split; [done|].
      apply step_missing_outside; [done|]. intros. congruence.
  - injection E as <-. exists []. rewrite app_nil_r. split; [done|].
    apply step_missing_outside; [done|]. intros. congruence.
Qed.

Lemma missing_read_only_masks t b c :
  append_missing_read_only_subpath_args t b = inr c → ∃ l, args c = args b ++ l ∧ masks t l.
Proof.
  unfold append_missing_read_only_subpath_args. destruct (has_protected_metadata_name t).
  - intros [= <-]. apply empty_directory_masks.
  - apply missing_file_masks.
Qed.

Lemma read_only_step allowed b s b' :
  append_read_only_subpath_args fs allowed b s = inr b' →
  ∃ l, args b' = args b ++ l ∧ mount_step Protected allowed s l.
Proof.
  unfold append_read_only_subpath_args. rewrite no_writable_symlink. intros E.
  destruct (if is_within_allowed_write_paths s allowed then _ else None) as [[m|m]|].
  - unfold append_existing_empty_file_bind_data_args in E.
    apply and_then_inr in E as (c & E & [= <-]).
    destruct (empty_file_masks s [] b c) as (l & A & M); [by left| |].
    { rewrite <- E. unfold push_args. rewrite app_nil_r. by destruct b. }
    exists l. split; [done|by constructor].
  - injection E as <-. destruct (empty_directory_masks s b) as (l & A & M).
    exists l. split; [done|by constructor].
  - destruct (fs_exists fs s) eqn:X; cbn [negb] in E.
    + destruct (is_within_allowed_write_paths s allowed) eqn:W; injection E as <-.
      * eexists. split; [done|]. by apply step_protect, bind_protects.
      * exists []. rewrite app_nil_r. split; [done|]. by apply step_outside.
    + eapply missing_step; [|done|exact E]. intros t c. apply missing_read_only_masks.
Qed.

Lemma unreadable_step allowed b u b' :
  append_unreadable_root_args fs allowed b u = inr b' →
  ∃ l, args b' = args b ++ l ∧ mount_step Denied allowed u l.
Proof.
  unfold append_unreadable_root_args. rewrite no_writable_symlink. intros E.
  destruct (fs_exists fs u) eqn:X; cbn [negb] in E;
    [|eapply missing_step; [|done|exact E]; intros t c; apply missing_file_masks].
  unfold append_existing_unreadable_path_args in E. destruct (fs_is_dir fs u).
  - injection E as <-. set (ws := List.filter _ allowed) in *.
    set (m := match ws with [] => "000" | _ => "111" end).
    assert (D : ∀ c, ∃ ds, args (foldl (λ b d, append_mount_target_parent_dir_args fs d u b) c
                                  (sort_by by_depth ws)) = args c ++ map DirAt ds).
    { generalize (sort_by by_depth ws). intros ps. induction ps as [|q ps IH]; intros c.
      - exists []. by rewrite app_nil_r.
      - simpl. destruct (IH (append_mount_target_parent_dir_args fs q u c)) as [ds ->].
        unfold append_mount_target_parent_dir_args. case_match; [|by eexists].
        eexists. simpl. by rewrite <- app_assoc, <- map_app. }
    destruct (D (push_args [Perms m; TmpfsAt u] b)) as [ds Eds].
    eexists. split; [|apply step_mask, (tmpfs_masks u m ds)].
    simpl. rewrite Eds. simpl. by rewrite <- !app_assoc.
  - apply empty_file_masks in E as (l & A & M); [|right; by eexists].
    exists l. split; [done|by constructor].
Qed.

(** ** What the mounts show of a path *)

Lemma mount_step_no_bind kind allowed s l :
  mount_step kind allowed s l → Forall (λ f, binds f = false) l.
Proof. destruct 1; [apply H2|apply H5|apply H4|constructor..]. Qed.

(** A mask of a missing component hides no path that exists. *)
Lemma missing_not_above p t :
  plain_path p → fs_exists fs p = true → fs_exists fs t = false → path_starts_with t p = false.
Proof.
  intros F X N. apply path_starts_with_false. intros P. by rewrite (exists_prefix p t) in N.
Qed.

Lemma mount_step_existing kind allowed s l p v :
  mount_step kind allowed s l → plain_path p → fs_exists fs p = true → view_ok p v →
  view_after p v l = v ∧ (s `prefix_of` p → kind = Protected ∧ is_within_allowed_write_paths s allowed = false) ∨
  s `prefix_of` p ∧ (view_after p v l = NotHost ∨ kind = Protected ∧ view_after p v l = Host s p false).
Proof.
  intros M F X V. destruct M as [l [_ M]|t l N Ft _ [_ M]|l -> _ [_ M]| -> W _|N _].
  - rewrite M by done. destruct (path_starts_with s p) eqn:E.
    + apply path_starts_with_spec in E. by right; split; [|left].
    + left. apply path_starts_with_false in E. by split.
  - left. rewrite M by done. rewrite (missing_not_above p t) by (done || by eapply first_missing_not_exists).
    split; [done|]. intros P. by rewrite (exists_prefix p s) in N.
  - rewrite M. destruct (path_starts_with s p) eqn:E.
    + apply path_starts_with_spec in E. by right; split; [|right].
    + left. apply path_starts_with_false in E. by split.
  - by left.
  - left. split; [done|]. intros P. by rewrite (exists_prefix p s) in N.
Qed.

(** At or below a path that is mounted under an existing writable root
    nothing stays writable. *)
Lemma mount_step_covers kind allowed s l p v root :
  mount_step kind allowed s l → plain_path p → s `prefix_of` p → view_ok p v →
  root ∈ allowed → fs_exists fs root = true → root `prefix_of` s →
  view_writable (view_after p v l) = false.
Proof.
  intros M F P V Hr X Pr.
  assert (W : ∀ t, root `prefix_of` t → is_within_allowed_write_paths t allowed = true).
  { intros t Pt. apply existsb_exists_elem. exists root. split; [done|]. by apply path_starts_with_spec. }
  assert (Fs : plain_path s) by by destruct P as [k ->]; apply Forall_app in F as [? _].
  assert (Miss : ∀ t, fs_exists fs s = false → find_first_non_existent_component fs s = Some t →
    t `prefix_of` s ∧ is_within_allowed_write_paths t allowed = true).
  { intros t N Ft. destruct (first_missing_plain s Fs N) as (t' & Ft' & Pt).
    rewrite Ft in Ft'. injection Ft' as <-. split; [done|]. apply W.
    destruct (prefix_weak_total _ _ _ Pr Pt) as [|Q]; [done|]. exfalso.
    apply first_missing_not_exists in Ft. rewrite (exists_prefix root t) in Ft; [done| |done|done].
    by destruct Pr as [k ->]; apply Forall_app in Fs as [? _]. }
  destruct M as [l [_ M]|t l N Ft _ [_ M]|l -> _ [_ M]| -> Ws _|N Nt].
  - rewrite M by done. apply path_starts_with_spec in P. by rewrite P.
  - rewrite M by done. destruct (Miss t N Ft) as [Pt _].
    assert (Q : t `prefix_of` p) by by etrans. apply path_starts_with_spec in Q. by rewrite Q.
  - rewrite M. apply path_starts_with_spec in P. by rewrite P.
  - by rewrite W in Ws.
  - destruct (first_missing_plain s Fs N) as (t & Ft & _). destruct (Miss t N Ft) as [_ Wt].
    by rewrite Nt in Wt.
Qed.

(** *** Several paths *)

Lemma concat_no_bind kind allowed ss ls :
  Forall2 (mount_step kind allowed) ss ls → Forall (λ f, binds f = false) (concat ls).
Proof.
  induction 1 as [|s l ss ls M _ IH]; [constructor|]. simpl. apply Forall_app.
  split; [by eapply mount_step_no_bind|done].
Qed.

Lemma mounts_cover kind allowed ss ls p v s root :
  Forall2 (mount_step kind allowed) ss ls → plain_path p → view_ok p v →
  s ∈ ss → s `prefix_of` p → root ∈ allowed → fs_exists fs root = true → root `prefix_of` s →
  view_writable (view_after p v (concat ls)) = false.
Proof.
  intros M F V Hs P Hr X Pr. revert v V. induction M as [|s' l ss ls M Ms IH]; intros v V;
    [by apply elem_of_nil in Hs|]. simpl. rewrite view_after_app.
  apply elem_of_cons in Hs as [<-|Hs]; [|by apply IH, view_after_ok].
  apply not_true_is_false. intros W. pose proof (concat_no_bind _ _ _ _ Ms) as Nb.
  pose proof (view_writable_inv _ _ _ Nb W) as E. rewrite E in W.
  by rewrite (mount_step_covers kind allowed s l p v root) in W.
Qed.

Lemma mounts_existing kind allowed ss ls p v :
  Forall2 (mount_step kind allowed) ss ls → plain_path p → fs_exists fs p = true → view_ok p v →
  view_after p v (concat ls) = v ∧
    (∀ s, s ∈ ss → s `prefix_of` p → kind = Protected ∧ is_within_allowed_write_paths s allowed = false) ∨
  ∃ s, s ∈ ss ∧ s `prefix_of` p ∧
    (view_after p v (concat ls) = NotHost ∨
     kind = Protected ∧ view_after p v (concat ls) = Host s p false).
Proof.
  intros M F X. revert v. induction M as [|s l ss ls M Ms IH]; intros v V; simpl.
  { left. split; [done|]. by intros s ?%elem_of_nil. }
  rewrite view_after_app. specialize (IH (view_after p v l) (view_after_ok _ _ _ V)).
  destruct (mount_step_existing _ _ _ _ _ _ M F X V) as [[E N]|[P E]].
  - rewrite E in *. destruct IH as [[E' N']|(s' & Hs & P & E')].
    + left. split; [done|]. intros s' [->|Hs]%elem_of_cons; [done|by apply N'].
    + right. exists s'. split; [by right|done].
  - right. destruct IH as [[E' _]|(s' & Hs & P' & E')].
    + exists s. split; [by left|]. split; [done|]. by rewrite E'.
    + exists s'. split; [by right|done].
Qed.

(** Denied paths are hidden, and nothing else is. *)
Lemma denied_existing allowed us ls p v :
  Forall2 (mount_step Denied allowed) us ls → plain_path p → fs_exists fs p = true → view_ok p v →
  view_after p v (concat ls) =
  if existsb (λ u, path_starts_with u p) us then NotHost else v.
Proof.
  intros M F X V. destruct (existsb _ us) eqn:E.
  - apply existsb_exists_elem in E as (u & Hu & P). apply path_starts_with_spec in P.
    destruct (mounts_existing _ _ _ _ _ _ M F X V) as [[_ N]|(s & _ & _ & [|[? _]])]; [|done..].
    by destruct (N u Hu P).
  - rewrite existsb_false_elem in E.
    destruct (mounts_existing _ _ _ _ _ _ M F X V) as [[-> _]|(s & Hs & P & _)]; [done|].
    apply E in Hs. by apply path_starts_with_false in Hs.
Qed.

(** ** The whole command line *)

Lemma try_fold_flags {A : Type} (R : A → list bwrap_flag → Prop)
    (f : BwrapArgs bwrap_flag → A → BwrapError + BwrapArgs bwrap_flag) xs b b' :
  (∀ b x b', f b x = inr b' → ∃ l, args b' = args b ++ l ∧ R x l) →
  try_fold f b xs = inr b' → ∃ ls, args b' = args b ++ concat ls ∧ Forall2 R xs ls.
Proof.
  intros Step. revert b. induction xs as [|x xs IH]; intros b E.
  - injection E as <-. exists []. by rewrite app_nil_r.
  - apply and_then_inr in E as (c & Ec & E). destruct (Step _ _ _ Ec) as (l & A1 & R1).
    destruct (IH c E) as (ls & A2 & R2). exists (l :: ls). split; [|by constructor].
    simpl. by rewrite A2, A1, <- app_assoc.
Qed.

Definition protected_paths (us : list path) (missing : list os_path) w : list path :=
  sort_by by_depth (read_only_subpaths_to_mount fs us missing (wr_root w) None w).

Inductive root_step (us : list path) (missing : list os_path) (allowed : list path) w
  : list bwrap_flag → Prop :=
| RootStep ds rs ns :
    Forall2 (mount_step Protected allowed) (protected_paths us missing w) rs →
    Forall2 (mount_step Denied allowed) (nested_unreadable_roots us None (wr_root w)) ns →
    root_step us missing allowed w
      (map DirAt ds ++ Bind (wr_root w) (wr_root w) :: concat rs ++ concat ns).

Lemma append_protected_args names root target paths b :
  args (append_protected_create_targets_for_writable_root fs names root target paths b) = args b.
Proof.
  unfold append_protected_create_targets_for_writable_root. revert b.
  induction names as [|n names IH]; intros b; [done|]. simpl. rewrite IH. by destruct (_ || _).
Qed.

Lemma writable_root_step us missing allowed b w b' :
  append_writable_root_args fs us missing allowed b w = inr b' →
  ∃ l, args b' = args b ++ l ∧ root_step us missing allowed w l.
Proof.
  unfold append_writable_root_args. rewrite no_canonical_target. cbn [default].
  assert (D : ∃ ds, args match max_by_key by_depth (List.filter (λ u, path_starts_with u (wr_root w)) us) with
                | Some masking_root => append_mount_target_parent_dir_args fs (wr_root w) masking_root b
                | None => b
                end = args b ++ map DirAt ds).
  { destruct (max_by_key _ _); [|by exists []; rewrite app_nil_r].
    unfold append_mount_target_parent_dir_args. case_match; [by eexists|].
    exists []. by rewrite app_nil_r. }
  destruct D as [ds Ed]. intros (c & Ec & E)%and_then_inr.
  apply (try_fold_flags (mount_step Protected allowed)) in Ec as (rs & Ac & Fr);
    [|intros; by apply read_only_step].
  apply (try_fold_flags (mount_step Denied allowed)) in E as (ns & A & Fn);
    [|intros; by apply unreadable_step].
  eexists. split; [|by apply (RootStep _ _ _ _ ds rs ns)].
  rewrite A, Ac, append_protected_args. simpl. rewrite Ed. by rewrite <- !app_assoc.
Qed.

Lemma allowed_link_free ws : allowed_write_paths_of fs ws = map wr_root ws.
Proof.
  unfold allowed_write_paths_of. induction ws as [|w ws IH]; [done|]. simpl.
  rewrite no_canonical_target. simpl. by rewrite IH.
Qed.

Definition mounted_roots policy cwd : list WritableRoot :=
  bwrap_writable_roots fs policy cwd (get_unreadable_globs_with_cwd policy cwd).
Abbreviation sort_roots := (sort_by (λ v w, by_depth (wr_root v) (wr_root w))).
Abbreviation missing_metadata :=
  (missing_auto_metadata_read_only_project_root_subpaths fs).

(** The flags in order: the base, the denied ancestors of writable roots, the
    writable roots by depth, and the other denied paths. *)
Lemma create_filesystem_flags policy cwd depth b :
  create_filesystem_args fs policy cwd depth = inr b →
  ∃ matches anc roots others,
    let ws := mounted_roots policy cwd in
    let allowed := map wr_root ws in
    let us := bwrap_unreadable_roots fs policy cwd matches in
    expand_unreadable_globs_with_ripgrep fs (get_unreadable_globs_with_cwd policy cwd) cwd depth
      = inr matches ∧
    args b = base_args fs policy cwd ws ++ concat anc ++ concat roots ++ concat others ∧
    Forall2 (mount_step Denied allowed) (unreadable_ancestors_of_writable_roots us allowed) anc ∧
    Forall2 (root_step us (missing_metadata policy cwd) allowed) (sort_roots ws) roots ∧
    Forall2 (mount_step Denied allowed) (rootless_unreadable_roots us allowed) others.
Proof.
  unfold create_filesystem_args. intros (matches & Em & E)%and_then_inr.
  apply and_then_inr in E as (b1 & E1 & E). apply and_then_inr in E as (b2 & E2 & E).
  rewrite allowed_link_free in *. fold (mounted_roots policy cwd) in *.
  apply (try_fold_flags (mount_step Denied (map wr_root (mounted_roots policy cwd))))
    in E1 as (anc & A1 & F1); [|intros; by apply unreadable_step].
  eapply try_fold_flags in E2 as (roots & A2 & F2); [|intros; by apply writable_root_step].
  apply (try_fold_flags (mount_step Denied (map wr_root (mounted_roots policy cwd))))
    in E as (others & A3 & F3); [|intros; by apply unreadable_step].
  exists matches, anc, roots, others. split; [done|]. split; [|done].
  rewrite A3, A2, A1. cbn [args_only args]. by rewrite <- !app_assoc.
Qed.

(** ** What stays writable *)

Lemma root_step_writable us missing allowed w l p v :
  root_step us missing allowed w l → plain_path p → view_ok p v →
  view_writable (view_after p v l) = true →
  ¬ wr_root w `prefix_of` p ∧ view_after p v l = v ∨
  wr_root w `prefix_of` p ∧ view_after p v l = Host (wr_root w) p true ∧
  (wr_root w ∈ allowed → fs_exists fs (wr_root w) = true →
   ∀ s, s ∈ protected_paths us missing w ∨ s ∈ nested_unreadable_roots us None (wr_root w) →
        wr_root w `prefix_of` s → ¬ s `prefix_of` p).
Proof.
  intros [ds rs ns Frs Fns] F V. rewrite view_after_app, dirs_view.
  set (bound := flag_view p v (Bind (wr_root w) (wr_root w))).
  change (view_after p v (_ :: ?l)) with (view_after p bound l). intros W.
  assert (Vb : view_ok p bound) by by apply flag_view_ok.
  assert (Nb : Forall (λ f, binds f = false) (concat rs ++ concat ns))
    by (apply Forall_app; split; by eapply concat_no_bind).
  pose proof (view_writable_inv _ _ _ Nb W) as E. rewrite E.
  assert (Cov : ∀ s, s ∈ protected_paths us missing w ∨ s ∈ nested_unreadable_roots us None (wr_root w) →
      s `prefix_of` p → wr_root w ∈ allowed → fs_exists fs (wr_root w) = true →
      wr_root w `prefix_of` s → False).
  { rewrite view_after_app in W.
    assert (Vr : view_ok p (view_after p bound (concat rs))) by by apply view_after_ok.
    intros s [Hs|Hs] P A X Pr.
    - apply Forall_app in Nb as [_ Nn]. pose proof (view_writable_inv _ _ _ Nn W) as En.
      rewrite En in W. by rewrite (mounts_cover _ _ _ _ p bound s (wr_root w) Frs) in W.
    - by rewrite (mounts_cover _ _ _ _ p _ s (wr_root w) Fns) in W. }
  subst bound. simpl in E |- *. destruct (strip_path (wr_root w) p) as [k|] eqn:Sp.
  - apply strip_path_Some in Sp. rewrite <- Sp in *. right.
    split; [by exists k|]. split; [done|]. intros A X s Hs Pr P. by apply (Cov s).
  - left. split; [|done]. intros [k ->].
    by rewrite (proj2 (strip_path_Some (wr_root w) (wr_root w ++ k) k)) in Sp.
Qed.

(** A writable path lies below the deepest of the writable roots above it, and
    outside of what is mounted below that root. *)
Lemma roots_writable us missing allowed ws ls p v :
  Forall2 (root_step us missing allowed) ws ls → plain_path p → view_ok p v →
  StronglySorted (λ v w, Is_true (by_depth (wr_root v) (wr_root w))) ws →
  view_writable v = false → view_writable (view_after p v (concat ls)) = true →
  ∃ w, w ∈ ws ∧ wr_root w `prefix_of` p ∧
    view_after p v (concat ls) = Host (wr_root w) p true ∧
    (∀ w', w' ∈ ws → wr_root w' `prefix_of` p → length (wr_root w') ≤ length (wr_root w)) ∧
    (wr_root w ∈ allowed → fs_exists fs (wr_root w) = true →
     ∀ s, s ∈ protected_paths us missing w ∨ s ∈ nested_unreadable_roots us None (wr_root w) →
          wr_root w `prefix_of` s → ¬ s `prefix_of` p).
Proof.
  intros Fs F V. revert ls Fs. induction ws as [|w ws IH] using rev_ind; intros ls Fs S Nw W.
  { inversion Fs; subst. simpl in W. congruence. }
  apply Forall2_app_inv_l in Fs as (ls1 & ls2 & Fs & Fl & ->).
  inversion Fl as [|? l ? ? Hl Fn]; subst. inversion Fn; subst.
  rewrite concat_app, view_after_app in W |- *. simpl in W |- *. rewrite app_nil_r in *.
  apply StronglySorted_app in S as (Sm & S & _).
  destruct (root_step_writable _ _ _ _ _ p _ Hl F (view_after_ok p v (concat ls1) V) W)
    as [[N E]|(P & E & Cov)]; rewrite E in *.
  - destruct (IH ls1 Fs S Nw W) as (w0 & Hw & P & E0 & D & Cov). exists w0.
    split; [by apply elem_of_app; left|]. split; [done|]. split; [done|]. split; [|done].
    intros w' [Hw'|Hw']%elem_of_app P'; [by apply D|].
    apply list_elem_of_singleton in Hw' as ->. done.
  - exists w. split; [by apply elem_of_app; right; left|]. split; [done|]. split; [done|].
    split; [|done]. intros w' [Hw'|Hw']%elem_of_app P'.
    + specialize (Sm w' w Hw' ltac:(by left)).
      apply Is_true_true, Nat.leb_le in Sm. unfold path_depth in Sm. lia.
    + apply list_elem_of_singleton in Hw' as ->. done.
Qed.

Lemma sort_roots_sorted ws :
  StronglySorted (λ v w, Is_true (by_depth (wr_root v) (wr_root w))) (sort_roots ws).
Proof.
  apply (sort_by_sorted (λ v w, path_depth (wr_root v) <=? path_depth (wr_root w))).
Qed.

Lemma elem_of_sort {A : Type} (le : A → A → bool) xs x : x ∈ sort_by le xs ↔ x ∈ xs.
Proof. by rewrite sort_by_Permutation. Qed.

Lemma elem_of_filter {A : Type} (f : A → bool) xs x : x ∈ List.filter f xs ↔ x ∈ xs ∧ f x = true.
Proof. by rewrite !list_elem_of_In, filter_In. Qed.

Lemma base_no_bind policy cwd ws : Forall (λ f, binds f = false) (base_args fs policy cwd ws).
Proof.
  unfold base_args, full_base. case_match; [by repeat constructor|]. case_match; [by repeat constructor|].
  do 2 (constructor; [done|]). apply Forall_concat, Forall_map, Forall_true. intros r.
  unfold readable_root_args. destruct (negb _); cbv zeta; by repeat constructor.
Qed.

Lemma elem_of_nested us root u :
  u ∈ nested_unreadable_roots us None root ↔ u ∈ us ∧ root `prefix_of` u.
Proof.
  unfold nested_unreadable_roots. by rewrite elem_of_sort, elem_of_filter, path_starts_with_spec.
Qed.

Lemma elem_of_metadata_masks root mount_root names paths p :
  p ∈ append_metadata_path_masks_for_writable_root fs root mount_root names paths ↔
  p ∈ paths ∨ ∃ n, n ∈ names ∧ p = FsModel.join root n ∧
    should_leave_missing_git_for_parent_repo_discovery fs mount_root n = false.
Proof.
  unfold append_metadata_path_masks_for_writable_root. revert paths.
  induction names as [|n names IH]; intros paths; simpl.
  { split; [by left|]. intros [?|(n & Hn & _)]; [done|by apply elem_of_nil in Hn]. }
  rewrite IH. setoid_rewrite elem_of_cons. clear IH.
  destruct (should_leave_missing_git_for_parent_repo_discovery fs mount_root n) eqn:E;
    [|rewrite elem_of_push_unique];
    (split; [intros [Hp|(m & Hm & Ep & Em)]|intros [Hp|(m & [->|Hm] & Ep & Em)]]); subst; eauto 7.
  - congruence.
  - destruct Hp as [Hp| ->]; eauto 7.
Qed.

Lemma elem_of_protected us missing w p :
  p ∈ protected_paths us missing w ↔
  p ∈ read_only_subpaths w ∧ (p ∉ us) ∧ (as_path p ∉ missing) ∨
  ∃ n, n ∈ protected_metadata_names w ∧ p = FsModel.join (wr_root w) n ∧
    should_leave_missing_git_for_parent_repo_discovery fs (wr_root w) n = false.
Proof.
  unfold protected_paths. rewrite elem_of_sort. unfold read_only_subpaths_to_mount.
  rewrite elem_of_metadata_masks, elem_of_filter, andb_true_iff, !negb_true_iff,
    !bool_decide_eq_false. done.
Qed.

(** Full write access leaves no denied pattern to expand. *)
Lemma full_write_no_globs policy cwd :
  has_full_disk_write_access policy = true → get_unreadable_globs_with_cwd policy cwd = [].
Proof.
  unfold has_full_disk_write_access, get_unreadable_globs_with_cwd, is_restricted.
  destruct (policy_kind policy) eqn:K; [|done..]. intros [_ N]%andb_true_iff.
  apply negb_true_iff in N. unfold has_write_narrowing_entries, is_restricted in N.
  rewrite K in N. simpl in N. rewrite existsb_false_elem in N.
  replace (omap _ _) with (@nil string); [done|]. symmetry. apply elem_of_nil_inv.
  intros g (entry & [He D]%elem_of_filter & G)%list_elem_of_omap.
  specialize (N _ He). apply is_deny_spec in D. unfold narrows_write in N. rewrite D in N. simpl in N.
  destruct (entry_path entry); done.
Qed.

Lemma elem_of_mounted_roots policy cwd w :
  w ∈ mounted_roots policy cwd ↔
  w ∈ get_writable_roots_with_cwd fs policy cwd ∧ fs_exists fs (wr_root w) = true.
Proof.
  unfold mounted_roots, bwrap_writable_roots.
  destruct (has_full_disk_write_access policy) eqn:Full.
  - rewrite full_write_no_globs by done. rewrite (bool_decide_eq_true_2 (@nil string = [])) by done.
    rewrite andb_false_r. cbv iota. by rewrite elem_of_filter.
  - rewrite andb_false_r. cbn [andb]. cbv iota. by rewrite elem_of_filter.
Qed.

Lemma protected_name_join root n :
  n ∈ PROTECTED_METADATA_PATH_NAMES → FsModel.join root n = root ++ [n].
Proof.
  unfold PROTECTED_METADATA_PATH_NAMES. rewrite !elem_of_cons.
  intros [->|[->|[->|Hn]]]; [done..|by apply elem_of_nil in Hn].
Qed.

Lemma protected_names_of policy cwd w n :
  w ∈ get_writable_roots_with_cwd fs policy cwd → n ∈ protected_metadata_names w →
  n ∈ PROTECTED_METADATA_PATH_NAMES.
Proof.
  unfold get_writable_roots_with_cwd. case_match; [by intros ?%elem_of_nil|].
  intros (r & -> & _)%list_elem_of_fmap. simpl. unfold protected_metadata_names_for_writable_root.
  by intros [? _]%elem_of_filter.
Qed.

(** The file-system part of the command line. *)
Lemma filesystem_writes_within policy cwd depth b p mount source :
  policy_kind policy = Restricted → plain_entries fs policy cwd → plain_path p →
  create_filesystem_args fs policy cwd depth = inr b →
  shown (args b) p = Host mount source true →
  source = p ∧
  (resolve_access_with_cwd fs policy (as_path p) cwd = AccessWrite ∨
   ∃ k, as_path k ∈ missing_metadata policy cwd ∧ k `prefix_of` p) ∧
  ∃ w, w ∈ get_writable_roots_with_cwd fs policy cwd ∧ wr_root w = mount ∧ mount `prefix_of` p ∧
    (∀ w', w' ∈ get_writable_roots_with_cwd fs policy cwd → fs_exists fs (wr_root w') = true →
       wr_root w' `prefix_of` p → wr_root w' `prefix_of` mount) ∧
    ∀ n, n ∈ protected_metadata_names w → mount ++ [n] `prefix_of` p →
         should_leave_missing_git_for_parent_repo_discovery fs mount n = true.
Proof.
  intros K Pl F E Sh.
  apply create_filesystem_flags in E as (matches & anc & roots & others & _ & A & Fa & Fr & Fo).
  set (us := bwrap_unreadable_roots fs policy cwd matches) in *.
  assert (W : view_writable (shown (args b) p) = true) by by rewrite Sh.
  unfold shown in W, Sh. rewrite A, !view_after_app in W, Sh.
  set (v0 := view_after p (view_after p NotHost (base_args fs policy cwd _)) (concat anc)) in *.
  assert (V0 : view_ok p v0) by by do 2 apply view_after_ok.
  assert (N0 : view_writable v0 = false).
  { apply not_true_is_false. intros W0. pose proof (concat_no_bind _ _ _ _ Fa) as Nb.
    unfold v0 in W0. rewrite <- view_after_app in W0.
    rewrite (view_writable_inv p NotHost _ (proj2 (Forall_app _ _ _) (conj (base_no_bind _ _ _) Nb)) W0)
      in W0. done. }
  pose proof (view_writable_inv _ _ _ (concat_no_bind _ _ _ _ Fo) W) as Eo. rewrite Eo in W, Sh.
  destruct (roots_writable _ _ _ _ _ p v0 Fr F V0 (sort_roots_sorted _) N0 W)
    as (w & Hw & P & Ew & Dp & Cov).
  rewrite Ew in Sh. injection Sh as <- <-. apply elem_of_sort, elem_of_mounted_roots in Hw as [Hw X].
  assert (Hm : wr_root w ∈ map wr_root (mounted_roots policy cwd)).
  { apply list_elem_of_fmap. exists w. split; [done|]. by apply elem_of_mounted_roots. }
  specialize (Cov Hm X). split; [done|]. split.
  - destruct (existsb (λ k, bool_decide (as_path k ∈ missing_metadata policy cwd) &&
                            path_starts_with k p) (read_only_subpaths w)) eqn:M.
    + right. apply existsb_exists_elem in M as (k & _ & M). apply andb_true_iff in M as [Mk Pk].
      exists k. split; [by apply bool_decide_eq_true in Mk|by apply path_starts_with_spec].
    + left. rewrite existsb_false_elem in M.
      rewrite (resolve_access_nearest _ _ _ _ p K) by by apply candidate_as_path.
      eapply writable_root_grants; [done..|]. intros k Hk Pr Pk.
      specialize (M k Hk). simpl in M. rewrite (proj2 (path_starts_with_spec k p) Pk), andb_true_r in M.
      apply bool_decide_eq_false in M.
      destruct (decide (k ∈ us)) as [Uk|Uk]; (eapply (Cov k); [|done..]).
      * right. by apply elem_of_nested.
      * left. apply elem_of_protected. by left.
  - exists w. split_and!; [done..| |].
    { intros w' Hw' X' P'. assert (L : length (wr_root w') ≤ length (wr_root w)).
      { apply Dp; [|done]. apply elem_of_sort, elem_of_mounted_roots. done. }
      by eapply prefix_shorter. }
    intros n Hn Pn.
    destruct (should_leave_missing_git_for_parent_repo_discovery fs (wr_root w) n) eqn:L; [done|].
    exfalso. apply (Cov (wr_root w ++ [n])); [|by apply prefix_app_r|done]. left.
    apply elem_of_protected. right. exists n. split; [done|]. split; [|done].
    symmetry. eapply protected_name_join, protected_names_of; done.
Qed.

(** The other flags hide [/proc] when a fresh one is mounted. *)
Lemma flags_around_shown b command_cwd o p :
  shown (flags_around fs b command_cwd o) p =
  if mount_proc o && path_starts_with ["proc"] p then NotHost else shown (args b) p.
Proof.
  unfold shown, flags_around. rewrite !view_after_app. cbn [view_after foldl flag_view].
  set (v := view_after p NotHost (args b)).
  assert (N : view_after p v (network_flags o) = v)
    by (unfold network_flags; by destruct (should_unshare_network _)).
  change (foldl (flag_view p)) with (view_after p). rewrite N. unfold proc_flags.
  destruct (decide _), (mount_proc o); simpl; done.
Qed.

(** C26: On a file system without symbolic links, a path that the command line of
    bubblewrap lets the sandboxed command write shows the file of the host under
    that same path, and lies in a writable root of a restricted policy; the policy's
    own rules let it be written, unless it lies at or below read-only metadata of
    the project that does not exist yet; and it lies below no protected name of the
    root that is mounted there, the deepest of the writable roots above it that
    exist, except for a missing .git inside another repository. A deeper writable
    root that does not exist is not mounted, and its protected names are not looked
    at. *)
Theorem bwrap_writes_within_policy policy cwd depth command_cwd o b p mount source :
  policy_kind policy = Restricted → plain_entries fs policy cwd → plain_path p →
  create_filesystem_args fs policy cwd depth = inr b →
  shown (flags_around fs b command_cwd o) p = Host mount source true →
  source = p ∧
  (resolve_access_with_cwd fs policy (as_path p) cwd = AccessWrite ∨
   ∃ k, as_path k ∈ missing_metadata policy cwd ∧ k `prefix_of` p) ∧
  ∃ w, w ∈ get_writable_roots_with_cwd fs policy cwd ∧ wr_root w = mount ∧ mount `prefix_of` p ∧
    (∀ w', w' ∈ get_writable_roots_with_cwd fs policy cwd → fs_exists fs (wr_root w') = true →
       wr_root w' `prefix_of` p → wr_root w' `prefix_of` mount) ∧
    ∀ n, n ∈ protected_metadata_names w → mount ++ [n] `prefix_of` p →
         should_leave_missing_git_for_parent_repo_discovery fs mount n = true.
Proof.
  intros K Pl F E. rewrite flags_around_shown. destruct (mount_proc o && _); [done|].
  by eapply filesystem_writes_within.
Qed.

(** ** What a path that exists shows *)

(** What a writable root above [p] can make of it. *)
Definition root_view (us : list path) (missing : list os_path) (allowed : list path) w p (x : view)
  : Prop :=
  (∃ u, u ∈ us ∧ wr_root w `prefix_of` u ∧ u `prefix_of` p) ∧ x = NotHost ∨
  (∀ u, u ∈ us → wr_root w `prefix_of` u → ¬ u `prefix_of` p) ∧
  (x = Host (wr_root w) p true ∧
     (∀ s, s ∈ protected_paths us missing w → s `prefix_of` p →
           is_within_allowed_write_paths s allowed = false) ∨
   ∃ s, s ∈ protected_paths us missing w ∧ s `prefix_of` p ∧ (x = NotHost ∨ x = Host s p false)).

Lemma root_step_existing us missing allowed w l p v :
  root_step us missing allowed w l → plain_path p → fs_exists fs p = true → view_ok p v →
  (∀ s, s ∈ protected_paths us missing w → wr_root w `prefix_of` s) →
  if path_starts_with (wr_root w) p then root_view us missing allowed w p (view_after p v l)
  else view_after p v l = v.
Proof.
  intros [ds rs ns Frs Fns] F X V Below. rewrite view_after_app, dirs_view.
  set (bound := flag_view p v (Bind (wr_root w) (wr_root w))).
  change (view_after p v (_ :: ?l)) with (view_after p bound l). rewrite view_after_app.
  assert (Vb : view_ok p bound) by by apply flag_view_ok.
  rewrite (denied_existing _ _ _ _ _ Fns) by (done || by apply view_after_ok).
  destruct (existsb _ (nested_unreadable_roots _ _ _)) eqn:En.
  - apply existsb_exists_elem in En as (u & Hu & Pu). apply elem_of_nested in Hu as [Hu Pr].
    apply path_starts_with_spec in Pu. rewrite (proj2 (path_starts_with_spec (wr_root w) p)) by by etrans.
    left. by eauto.
  - rewrite existsb_false_elem in En.
    assert (Nu : ∀ u, u ∈ us → wr_root w `prefix_of` u → ¬ u `prefix_of` p).
    { intros u Hu Pr. apply path_starts_with_false, En. by apply elem_of_nested. }
    destruct (mounts_existing _ _ _ _ _ _ Frs F X Vb) as [[E N]|(s & Hs & Ps & E)].
    + rewrite E. subst bound. unfold path_starts_with. simpl.
      destruct (strip_path (wr_root w) p) as [k|] eqn:Sp; [|done].
      apply strip_path_Some in Sp. rewrite <- Sp in *. right. split; [done|]. left.
      split; [done|]. intros s Hs Ps. by apply N.
    + rewrite (proj2 (path_starts_with_spec (wr_root w) p)) by (etrans; [by apply Below|done]).
      right. split; [done|]. right. exists s. split; [done|]. split; [done|]. naive_solver.
Qed.

Lemma roots_existing us missing allowed ws ls p v :
  Forall2 (root_step us missing allowed) ws ls → plain_path p → fs_exists fs p = true → view_ok p v →
  StronglySorted (λ v w, Is_true (by_depth (wr_root v) (wr_root w))) ws →
  (∀ w s, w ∈ ws → s ∈ protected_paths us missing w → wr_root w `prefix_of` s) →
  (∀ w, w ∈ ws → ¬ wr_root w `prefix_of` p) ∧ view_after p v (concat ls) = v ∨
  ∃ w, w ∈ ws ∧ wr_root w `prefix_of` p ∧ root_view us missing allowed w p (view_after p v (concat ls)).
Proof.
  intros Fs F X V. revert ls Fs. induction ws as [|w ws IH] using rev_ind; intros ls Fs S Below.
  { inversion Fs; subst. left. split; [|done]. by intros w ?%elem_of_nil. }
  apply Forall2_app_inv_l in Fs as (ls1 & ls2 & Fs & Fl & ->).
  inversion Fl as [|? l ? ? Hl Fn]; subst. inversion Fn; subst.
  rewrite concat_app, view_after_app. simpl. rewrite app_nil_r.
  apply StronglySorted_app in S as (_ & S & _).
  pose proof (root_step_existing _ _ _ _ _ p _ Hl F X (view_after_ok p v (concat ls1) V)) as R.
  specialize (R (λ s, Below w s ltac:(set_solver))).
  destruct (path_starts_with (wr_root w) p) eqn:P.
  - right. exists w. split; [set_solver|]. split; [by apply path_starts_with_spec|done].
  - rewrite R. apply path_starts_with_false in P.
    destruct (IH ls1 Fs S) as [[N E]|(w' & Hw & Pw & E)].
    + intros w' s Hw. apply Below. set_solver.
    + left. split; [|done]. intros w' [Hw'|Hw']%elem_of_app; [by apply N|].
      by apply list_elem_of_singleton in Hw' as ->.
    + right. exists w'. split; [set_solver|done].
Qed.

(** The masks of a writable root lie below it, as the ones of a policy do
    unless a [.git] file points elsewhere. *)
Definition masks_below policy cwd : Prop :=
  ∀ w s, w ∈ get_writable_roots_with_cwd fs policy cwd → s ∈ read_only_subpaths w →
         wr_root w `prefix_of` s.

Lemma protected_below policy cwd us missing w s :
  masks_below policy cwd → w ∈ get_writable_roots_with_cwd fs policy cwd →
  s ∈ protected_paths us missing w → wr_root w `prefix_of` s.
Proof.
  intros B Hw. rewrite elem_of_protected. intros [[Hs _]|(n & Hn & -> & _)]; [by eapply B|].
  rewrite protected_name_join by by eapply protected_names_of. by apply prefix_app_r.
Qed.

(** A denied path above [p] is an ancestor of a writable root or unrelated to
    all of them, when no writable root lies above [p]. *)
Lemma denied_split us allowed p :
  (∀ r, r ∈ allowed → ¬ r `prefix_of` p) →
  existsb (λ u, path_starts_with u p) us =
  existsb (λ u, path_starts_with u p) (rootless_unreadable_roots us allowed) ||
  existsb (λ u, path_starts_with u p) (unreadable_ancestors_of_writable_roots us allowed).
Proof.
  intros N. apply eq_true_iff_eq. rewrite orb_true_iff, !existsb_exists_elem. split.
  - intros (u & Hu & P). apply path_starts_with_spec in P as P'.
    assert (Nr : existsb (λ r, path_starts_with r u) allowed = false).
    { apply existsb_false_elem. intros r Hr. apply path_starts_with_false. intros Q.
      apply (N r Hr). by etrans. }
    destruct (existsb (λ r, path_starts_with u r) allowed) eqn:An; [right|left]; exists u;
      (split; [|done]); apply elem_of_sort, elem_of_filter; (split; [done|]).
    + by rewrite Nr, An.
    + rewrite existsb_false_elem in Nr, An. apply negb_true_iff, existsb_false_elem.
      intros r Hr. by rewrite Nr, An.
  - intros [(u & Hu & P)|(u & Hu & P)]; exists u; (split; [|done]);
      apply elem_of_sort, elem_of_filter in Hu; by destruct Hu.
Qed.

Lemma rootless_apart us allowed r p :
  r ∈ allowed → r `prefix_of` p →
  existsb (λ u, path_starts_with u p) (rootless_unreadable_roots us allowed) = false.
Proof.
  intros Hr Pr. apply existsb_false_elem. intros u Hu. apply elem_of_sort, elem_of_filter in Hu as [_ N].
  apply negb_true_iff in N. rewrite existsb_false_elem in N. specialize (N r Hr).
  apply orb_false_iff in N as [N1 N2]. apply path_starts_with_false in N1, N2.
  apply path_starts_with_false. intros Pu. by destruct (prefix_weak_total _ _ _ Pr Pu).
Qed.

(** The deepest writable root above a path decides what it shows; without one
    it is hidden when it is denied, and shows the base otherwise. *)
Lemma shown_existing policy cwd depth b p :
  masks_below policy cwd → plain_path p → fs_exists fs p = true →
  create_filesystem_args fs policy cwd depth = inr b →
  ∃ matches,
    let us := bwrap_unreadable_roots fs policy cwd matches in
    let ws := mounted_roots policy cwd in
    expand_unreadable_globs_with_ripgrep fs (get_unreadable_globs_with_cwd policy cwd) cwd depth
      = inr matches ∧
    ((∃ w, w ∈ ws ∧ wr_root w `prefix_of` p ∧
        root_view us (missing_metadata policy cwd) (map wr_root ws) w p (shown (args b) p)) ∨
     (∀ w, w ∈ ws → ¬ wr_root w `prefix_of` p) ∧
     shown (args b) p =
       if existsb (λ u, path_starts_with u p) us then NotHost
       else shown (base_args fs policy cwd ws) p).
Proof.
  intros B F X E.
  apply create_filesystem_flags in E as (matches & anc & roots & others & Em & A & Fa & Fr & Fo).
  exists matches. cbv zeta. split; [done|].
  set (us := bwrap_unreadable_roots fs policy cwd matches) in *.
  unfold shown. rewrite A, !view_after_app.
  set (base := view_after p NotHost (base_args fs policy cwd _)).
  assert (Vb : view_ok p base) by by apply view_after_ok.
  assert (Va : view_ok p (view_after p base (concat anc))) by by apply view_after_ok.
  rewrite (denied_existing _ _ _ _ _ Fo) by (done || by apply view_after_ok).
  assert (In : ∀ r, r ∈ map wr_root (mounted_roots policy cwd) ↔
                    ∃ w, w ∈ mounted_roots policy cwd ∧ r = wr_root w)
    by (intros r; rewrite list_elem_of_fmap; naive_solver).
  destruct (roots_existing _ _ _ _ _ p _ Fr F X Va (sort_roots_sorted _)) as [[N Er]|(w & Hw & P & Er)].
  - intros w s Hw%elem_of_sort. apply elem_of_mounted_roots in Hw as [Hw _]. by eapply protected_below.
  - right. assert (N' : ∀ w, w ∈ mounted_roots policy cwd → ¬ wr_root w `prefix_of` p)
      by (intros w Hw; apply N; by apply elem_of_sort).
    split; [done|]. rewrite Er, (denied_existing _ _ _ _ _ Fa) by done.
    rewrite (denied_split us (map wr_root (mounted_roots policy cwd)));
      [by destruct (existsb _ _), (existsb _ _)|].
    intros r (w & Hw & ->)%In. by apply N'.
  - left. apply elem_of_sort in Hw. exists w. split; [done|]. split; [done|].
    rewrite (rootless_apart _ _ (wr_root w)); [done| |done]. apply In. by exists w.
Qed.

(** ** The base *)

Lemma elem_of_dedup_adjacent {A : Type} `{EqDecision A} (xs : list A) x :
  x ∈ dedup_adjacent xs ↔ x ∈ xs.
Proof.
  induction xs as [|y [|z xs] IH]; [done..|].
  change (dedup_adjacent (y :: z :: xs)) with
    (if decide (y = z) then dedup_adjacent (z :: xs) else y :: dedup_adjacent (z :: xs)).
  case_decide as D; [subst; rewrite IH; set_solver|]. rewrite elem_of_cons, IH. set_solver.
Qed.

Lemma elem_of_path_set xs p : p ∈ path_set xs ↔ p ∈ xs.
Proof. unfold path_set. by rewrite elem_of_dedup_adjacent, elem_of_sort. Qed.

Lemma readable_root_mount ws r :
  readable_root_args fs ws r = if fs_exists fs r then [RoBind r r] else [].
Proof.
  unfold readable_root_args. rewrite no_canonical_target. destruct (fs_exists fs r); [|done].
  simpl. by case_match.
Qed.

(** The readable roots show what lies below them. *)
Lemma readable_roots_view ws rs p v :
  plain_path p → fs_exists fs p = true →
  view_after p v (concat (map (readable_root_args fs ws) rs)) = v ∧
    (∀ r, r ∈ rs → ¬ r `prefix_of` p) ∨
  ∃ r, r ∈ rs ∧ r `prefix_of` p ∧
    view_after p v (concat (map (readable_root_args fs ws) rs)) = Host r p false.
Proof.
  intros F X. revert v. induction rs as [|r rs IH]; intros v; simpl.
  { left. split; [done|]. by intros r ?%elem_of_nil. }
  rewrite view_after_app, readable_root_mount. destruct (path_starts_with r p) eqn:P.
  - apply path_starts_with_spec in P. rewrite (exists_prefix p r) by done.
    rewrite (proj2 (bind_protects r)), (proj2 (path_starts_with_spec r p)) by done. right.
    destruct (IH (Host r p false)) as [[-> _]|(r' & Hr & P' & E)].
    + exists r. split; [by left|done].
    + exists r'. split; [by right|done].
  - assert (E : view_after p v (if fs_exists fs r then [RoBind r r] else []) = v).
    { destruct (fs_exists fs r); [|done]. by rewrite (proj2 (bind_protects r)), P. }
    rewrite E. apply path_starts_with_false in P. destruct (IH v) as [[-> N]|(r' & Hr & P' & E')].
    + left. split; [done|]. intros r' [->|Hr]%elem_of_cons; [done|by apply N].
    + right. exists r'. split; [by right|done].
Qed.

(** The readable roots of a policy, and those of its platform defaults. *)
Definition base_roots policy cwd : list path :=
  get_readable_roots_with_cwd fs policy cwd ++
  if include_platform_defaults policy
  then List.filter (fs_exists fs) LINUX_PLATFORM_DEFAULT_READ_ROOTS else [].

Lemma full_base_view p :
  shown full_base p = if path_starts_with ["dev"] p then NotHost else Host [] p false.
Proof. unfold shown, full_base. simpl. done. Qed.

Lemma base_view policy cwd ws p :
  plain_path p → fs_exists fs p = true →
  (has_full_disk_read_access policy = true ∨ [] ∈ base_roots policy cwd) ∧
    shown (base_args fs policy cwd ws) p = shown full_base p ∨
  has_full_disk_read_access policy = false ∧
  ((∀ r, r ∈ base_roots policy cwd → ¬ r `prefix_of` p) ∧
     shown (base_args fs policy cwd ws) p = NotHost ∨
   ∃ r, r ∈ base_roots policy cwd ∧ r `prefix_of` p ∧
        shown (base_args fs policy cwd ws) p = Host r p false).
Proof.
  intros F X. unfold base_args. fold (base_roots policy cwd).
  destruct (has_full_disk_read_access policy) eqn:Full; [by left; split; [left|]|].
  case_bool_decide as R; rewrite elem_of_path_set in R; [by left; split; [right|]|].
  right. split; [done|]. unfold shown. rewrite view_after_app.
  assert (T : view_after p NotHost [TmpfsAt []; Dev ["dev"]] = NotHost)
    by (simpl; by case_match).
  rewrite T. destruct (readable_roots_view ws (path_set (base_roots policy cwd)) p NotHost F X)
    as [[E N]|(r & Hr & P & E)].
  - left. split; [|done]. intros r Hr. apply N. by apply elem_of_path_set.
  - right. exists r. split; [by apply elem_of_path_set|done].
Qed.

(** A readable root is an entry that can be read. *)
Lemma readable_root_entry policy cwd r :
  policy_kind policy = Restricted → plain_entries fs policy cwd →
  r ∈ get_readable_roots_with_cwd fs policy cwd →
  ∃ a, Resolved r a ∈ resolved_entries_with_cwd fs policy cwd ∧
       can_read (nearest_access (resolved_entries_with_cwd fs policy cwd) r) = true.
Proof.
  intros K Pl Hr. unfold get_readable_roots_with_cwd in Hr.
  destruct (has_full_disk_read_access policy); [by apply elem_of_nil in Hr|].
  apply elem_of_dedup_effective, list_elem_of_fmap in Hr as (q & -> & Hq).
  apply list_elem_of_fmap in Hq as ([q' a] & -> & Hq). apply elem_of_filter in Hq as [He R]. simpl in *.
  assert (Fq : plain_path q') by apply (Pl _ He).
  rewrite normalize_effective_link_free by done. exists a. split; [done|].
  apply andb_true_iff in R as [_ R]. unfold can_read_path_with_cwd in R.
  by rewrite (resolve_access_nearest _ _ _ _ q' K) in R by by apply candidate_as_path.
Qed.

Lemma writable_root_entry policy cwd w :
  policy_kind policy = Restricted → plain_entries fs policy cwd →
  w ∈ get_writable_roots_with_cwd fs policy cwd →
  Resolved (wr_root w) AccessWrite ∈ resolved_entries_with_cwd fs policy cwd ∧
  nearest_access (resolved_entries_with_cwd fs policy cwd) (wr_root w) = AccessWrite.
Proof.
  intros K Pl Hw. unfold get_writable_roots_with_cwd in Hw.
  destruct (has_full_disk_write_access policy); [by apply elem_of_nil in Hw|].
  apply list_elem_of_fmap in Hw as (root & -> & Hroot).
  apply elem_of_dedup_effective, list_elem_of_fmap in Hroot as (r & -> & Hr).
  apply elem_of_writable_entries in Hr as [He Wr].
  assert (Fr : plain_path r) by apply (Pl _ He). simpl.
  rewrite normalize_effective_link_free by done. split; [done|]. by apply can_write_access.
Qed.

(** An entry at or above a path whose nearest entry is the root's, or that has
    none, is one of the root; its access does not let it be read. *)
Lemma denied_at_root es p r a :
  (∀ q, q `prefix_of` p → 0 < length q → access_at es q = None) → nearest_access es p = AccessNone →
  Resolved r a ∈ es → r `prefix_of` p → r = [] ∧ nearest_access es r = AccessNone.
Proof.
  intros N D He P. apply access_at_is_Some in He as [c Hc].
  destruct (decide (r = [])) as [->|Nr]; [|by rewrite N in Hc; [|done|destruct r; [|simpl; lia]]].
  split; [done|]. rewrite <- D. symmetry.
  rewrite (nearest_access_at es [] [] c) by
    (try done; intros q Q L; apply prefix_length in Q; simpl in *; lia).
  by apply (nearest_access_at es []).
Qed.

(** A path that no entry below the root covers is shown only by a full base or
    by a platform default. *)
Lemma base_denied policy cwd d p mount source writable :
  policy_kind policy = Restricted → plain_entries fs policy cwd → absolute cwd = Some d →
  plain_path p → fs_exists fs p = true →
  (∀ q, q `prefix_of` p → 0 < length q →
        access_at (resolved_entries_with_cwd fs policy cwd) q = None) →
  nearest_access (resolved_entries_with_cwd fs policy cwd) p = AccessNone →
  shown (base_args fs policy cwd (mounted_roots policy cwd)) p = Host mount source writable →
  include_platform_defaults policy = true ∧
  ∃ r, r ∈ LINUX_PLATFORM_DEFAULT_READ_ROOTS ∧ r `prefix_of` p.
Proof.
  intros K Pl A F X N D Sh. set (es := resolved_entries_with_cwd fs policy cwd) in *.
  assert (Readable : ∀ r, r ∈ get_readable_roots_with_cwd fs policy cwd → ¬ r `prefix_of` p).
  { intros r Hr P. destruct (readable_root_entry _ _ _ K Pl Hr) as (a & He & R).
    destruct (denied_at_root es p r a N D He P) as [_ D']. fold es in R. by rewrite D' in R. }
  assert (Base : ∀ r, r ∈ base_roots policy cwd → r `prefix_of` p →
    include_platform_defaults policy = true ∧ r ∈ LINUX_PLATFORM_DEFAULT_READ_ROOTS).
  { intros r [Hr|Hr]%elem_of_app P; [by destruct (Readable r Hr)|].
    destruct (include_platform_defaults policy); [|by apply elem_of_nil in Hr].
    by apply elem_of_filter in Hr as [? _]. }
  destruct (base_view policy cwd (mounted_roots policy cwd) p F X)
    as [[[Full|Rt] _]|[_ [[_ E]|(r & Hr & P & _)]]].
  - pose proof (full_disk_read_sound fs policy (as_path p) cwd d p Full A
                  (candidate_as_path p cwd F)) as R.
    unfold can_read_path_with_cwd in R.
    rewrite (resolve_access_nearest _ _ _ _ p K) in R by by apply candidate_as_path.
    fold es in R. by rewrite D in R.
  - destruct (Base [] Rt (prefix_nil _)) as [? H']. unfold LINUX_PLATFORM_DEFAULT_READ_ROOTS in H'.
    by repeat (apply elem_of_cons in H' as [?|H']; [done|]); apply elem_of_nil in H'.
  - congruence.
  - destruct (Base r Hr P). by eauto.
Qed.

Lemma base_source policy cwd ws p mount source writable :
  plain_path p → fs_exists fs p = true →
  shown (base_args fs policy cwd ws) p = Host mount source writable → source = p ∧ writable = false.
Proof.
  intros F X E. destruct (base_view policy cwd ws p F X) as [[_ Eb]|[_ [[_ Eb]|(r & _ & _ & Eb)]]];
    rewrite Eb in E; [|done|by simplify_eq]. rewrite full_base_view in E. case_match; by simplify_eq.
Qed.

(** C27: On a file system without symbolic links, and when the masks of every
    writable root lie below it, a path of the host that the sandboxed command is
    shown is shown as itself; every denied directory and every match of a denied
    pattern at or above it is reopened by a deeper writable root; and the policy
    lets it be read, unless it lies below a platform default that the policy
    includes and no entry below the root directory speaks of it. *)
Theorem bwrap_hides_denied policy cwd d depth b p mount source writable :
  policy_kind policy = Restricted → plain_entries fs policy cwd → absolute cwd = Some d →
  masks_below policy cwd → plain_path p → fs_exists fs p = true →
  create_filesystem_args fs policy cwd depth = inr b →
  shown (args b) p = Host mount source writable →
  source = p ∧
  (∀ matches u,
     expand_unreadable_globs_with_ripgrep fs (get_unreadable_globs_with_cwd policy cwd) cwd depth
       = inr matches →
     u ∈ get_unreadable_roots_with_cwd fs policy cwd ∨ u ∈ matches → u `prefix_of` p →
     ∃ w, w ∈ get_writable_roots_with_cwd fs policy cwd ∧
          u `prefix_of` wr_root w ∧ u ≠ wr_root w ∧ wr_root w `prefix_of` p) ∧
  (can_read_path_with_cwd fs policy (as_path p) cwd = true ∨
   include_platform_defaults policy = true ∧
   (∃ r, r ∈ LINUX_PLATFORM_DEFAULT_READ_ROOTS ∧ r `prefix_of` p) ∧
   ∀ r a, Resolved r a ∈ resolved_entries_with_cwd fs policy cwd → r `prefix_of` p → r = []).
Proof.
  intros K Pl A B F X E Sh.
  destruct (shown_existing _ _ _ _ _ B F X E) as (matches & Em & C).
  set (us := bwrap_unreadable_roots fs policy cwd matches) in *.
  assert (Us : ∀ u, u ∈ us ↔ u ∈ get_unreadable_roots_with_cwd fs policy cwd ∨ u ∈ matches).
  { intros u. unfold us, bwrap_unreadable_roots. by rewrite elem_of_path_set, elem_of_app. }
  assert (Re : ∀ u, u ∈ us → u `prefix_of` p →
     ∃ w, w ∈ get_writable_roots_with_cwd fs policy cwd ∧
          u `prefix_of` wr_root w ∧ u ≠ wr_root w ∧ wr_root w `prefix_of` p).
  { intros u Hu Pu. destruct C as [(w & Hw & Pw & [[_ Ec]|[Nu _]])|[_ Ec]]; [congruence| |].
    - apply elem_of_mounted_roots in Hw as [Hw _]. exists w. split; [done|].
      destruct (prefix_weak_total _ _ _ Pu Pw) as [Q|Q]; [|by destruct (Nu u Hu Q)].
      split; [done|]. split; [|done]. intros ->. by apply (Nu _ Hu Q).
    - rewrite (proj2 (existsb_exists_elem _ _)) in Ec; [congruence|].
      exists u. split; [done|]. by apply path_starts_with_spec. }
  split_and!.
  - destruct C as [(w & _ & _ & [[_ Ec]|[_ [[Ec _]|(s & _ & _ & [Ec|Ec])]]])|[_ Ec]]; try congruence.
    case_match; [congruence|]. rewrite Ec in Sh. by eapply base_source in Sh as [? _].
  - intros matches' u Em' Hu Pu. rewrite Em in Em'. injection Em' as <-. by apply Re; [apply Us|].
  - unfold can_read_path_with_cwd.
    rewrite (resolve_access_nearest _ _ _ _ p K) by by apply candidate_as_path.
    set (es := resolved_entries_with_cwd fs policy cwd) in *.
    destruct (can_read (nearest_access es p)) eqn:R; [by left|right].
    assert (D : nearest_access es p = AccessNone) by (by destruct (nearest_access es p)).
    assert (N : ∀ q, q `prefix_of` p → 0 < length q → access_at es q = None).
    { destruct (nearest_access_inv es p) as [(k & a & Pk & Ak & Ek & N)|[_ N]]; [|by auto].
      destruct (decide (k = [])) as [->|Nk]; [done|]. exfalso. rewrite D in Ek. subst a.
      apply access_at_Some in Ak as Hk. assert (Fk : plain_path k) by apply (Pl _ Hk).
      destruct (Re k) as (w & Hw & Pw & Nw & Pp); [|done|].
      - apply Us. left. rewrite <- (normalize_effective_link_free fs Hfs k) by done.
        by apply deny_unreadable_root.
      - destruct (writable_root_entry _ _ _ K Pl Hw) as [Hw' _].
        apply access_at_is_Some in Hw' as [c Hc]. fold es in Hc.
        rewrite N in Hc; [done|done|]. by apply prefix_ne_length. }
    assert (No : ∀ w, w ∈ mounted_roots policy cwd → ¬ wr_root w `prefix_of` p).
    { intros w [Hw _]%elem_of_mounted_roots Pw.
      destruct (writable_root_entry _ _ _ K Pl Hw) as [Hw' Ew].
      destruct (denied_at_root es p _ _ N D Hw' Pw) as [_ D']. fold es in Ew. congruence. }
    destruct C as [(w & Hw & Pw & _)|[_ Ec]]; [by destruct (No w Hw)|].
    case_match; [congruence|]. rewrite Ec in Sh.
    destruct (base_denied _ _ _ _ _ _ _ K Pl A F X N D Sh) as [I P].
    split; [done|]. split; [done|]. intros r a Hr Pr. by apply (denied_at_root es p r a).
Qed.

(** The file-system part of the command line. *)
Lemma filesystem_keeps_access policy cwd depth b p :
  policy_kind policy = Restricted → plain_entries fs policy cwd →
  masks_below policy cwd → plain_path p → fs_exists fs p = true →
  create_filesystem_args fs policy cwd depth = inr b →
  (∀ matches u,
     expand_unreadable_globs_with_ripgrep fs (get_unreadable_globs_with_cwd policy cwd) cwd depth
       = inr matches →
     u ∈ get_unreadable_roots_with_cwd fs policy cwd ∨ u ∈ matches → ¬ u `prefix_of` p) →
  let roots := List.filter (λ w, path_starts_with (wr_root w) p)
                 (get_writable_roots_with_cwd fs policy cwd) in
  (roots ≠ [] → (∀ w, w ∈ roots → is_path_writable w p = true) →
   ∃ mount, shown (args b) p = Host mount p true) ∧
  (roots = [] → can_read_path_with_cwd fs policy (as_path p) cwd = true →
   ¬ ["dev"] `prefix_of` p → ∃ mount, shown (args b) p = Host mount p false).
Proof.
  intros K Pl B F X E Nd roots.
  destruct (shown_existing _ _ _ _ _ B F X E) as (matches & Em & C).
  set (us := bwrap_unreadable_roots fs policy cwd matches) in *.
  assert (Nu : ∀ u, u ∈ us → ¬ u `prefix_of` p).
  { intros u Hu. apply (Nd matches); [done|]. unfold us, bwrap_unreadable_roots in Hu.
    by rewrite elem_of_path_set, elem_of_app in Hu. }
  assert (Above : ∀ w, w ∈ mounted_roots policy cwd ∧ wr_root w `prefix_of` p ↔ w ∈ roots).
  { intros w. unfold roots. rewrite elem_of_mounted_roots, elem_of_filter, path_starts_with_spec.
    split; [by intros [[? _] ?]|]. intros [Hw P]. split; [|done]. split; [done|].
    by eapply exists_prefix. }
  split.
  - intros Ne Wr. destruct C as [(w & Hw & Pw & [[(u & Hu & _ & Pu) _]|[_ [[Ec _]|(s & Hs & Ps & _)]]])|[No _]].
    + by destruct (Nu u Hu).
    + by exists (wr_root w).
    + exfalso. assert (Hr : w ∈ roots) by by apply Above.
      specialize (Wr w Hr). unfold is_path_writable in Wr.
      rewrite !andb_true_iff, !negb_true_iff in Wr. destruct Wr as [[_ Ro] Md].
      apply elem_of_protected in Hs as [[Hs _]|(n & Hn & -> & _)].
      * rewrite existsb_false_elem in Ro. specialize (Ro s Hs). by apply path_starts_with_false in Ro.
      * apply elem_of_mounted_roots in Hw as [Hw _].
        rewrite protected_name_join in Ps by by eapply protected_names_of.
        destruct Ps as [k ->]. unfold path_contains_protected_metadata_name in Md.
        rewrite <- app_assoc, (proj2 (strip_path_Some (wr_root w) (wr_root w ++ [n] ++ k) ([n] ++ k))) in Md
          by done.
        simpl in Md. rewrite existsb_false_elem in Md. specialize (Md n Hn).
        by rewrite String.eqb_refl in Md.
    + exfalso. destruct roots as [|w roots']; [done|].
      destruct (proj2 (Above w) (list_elem_of_here _ _)) as [Hw Pw]. by apply (No w).
  - intros Em0 R Ndev. destruct C as [(w & Hw & Pw & _)|[_ ->]].
    { exfalso. assert (H' : w ∈ roots) by by apply Above. rewrite Em0 in H'. by apply elem_of_nil in H'. }
    assert (Eu : existsb (λ u, path_starts_with u p) us = false).
    { apply existsb_false_elem. intros u Hu. by apply path_starts_with_false, Nu. }
    rewrite Eu. destruct (base_view policy cwd (mounted_roots policy cwd) p F X)
      as [[_ ->]|[Full [[N _]|(r & _ & _ & ->)]]]; [| |by exists r].
    + exists []. rewrite full_base_view. by apply path_starts_with_false in Ndev as ->.
    + exfalso. unfold can_read_path_with_cwd in R.
      rewrite (resolve_access_nearest _ _ _ _ p K) in R by by apply candidate_as_path.
      set (es := resolved_entries_with_cwd fs policy cwd) in *.
      destruct (nearest_access_inv es p) as [(k & a & Pk & Ak & Ek & Nk)|[Ek _]]; [|by rewrite Ek in R].
      rewrite Ek in R. apply (N k); [|done]. apply elem_of_app. left.
      apply access_at_Some in Ak as Hk. assert (Fk : plain_path k) by apply (Pl _ Hk).
      unfold get_readable_roots_with_cwd. rewrite Full. apply elem_of_dedup_effective, list_elem_of_fmap.
      exists k. split; [by rewrite normalize_effective_link_free|]. apply list_elem_of_fmap.
      exists (Resolved k a). split; [done|]. apply elem_of_filter. split; [done|]. simpl.
      rewrite R. simpl. unfold can_read_path_with_cwd.
      rewrite (resolve_access_nearest _ _ _ _ k K) by by apply candidate_as_path. fold es.
      rewrite (nearest_access_at es k k a); [done|done|done|].
      intros q Q L. apply prefix_length in Q. lia.
Qed.

(** C28: On a file system without symbolic links, and when the masks of every
    writable root lie below it, the command line of bubblewrap leaves the paths of
    the host that are not denied as they are: one that exists stays writable when it
    lies in a writable root and every writable root above it lets it be written, and
    stays readable when it lies outside the writable roots and of [/dev] and the
    policy lets it be read. When a fresh [/proc] is mounted, it hides what the host
    has below [/proc]. *)
Theorem bwrap_keeps_access policy cwd depth command_cwd o b p :
  policy_kind policy = Restricted → plain_entries fs policy cwd →
  masks_below policy cwd → plain_path p → fs_exists fs p = true →
  create_filesystem_args fs policy cwd depth = inr b →
  (∀ matches u,
     expand_unreadable_globs_with_ripgrep fs (get_unreadable_globs_with_cwd policy cwd) cwd depth
       = inr matches →
     u ∈ get_unreadable_roots_with_cwd fs policy cwd ∨ u ∈ matches → ¬ u `prefix_of` p) →
  let roots := List.filter (λ w, path_starts_with (wr_root w) p)
                 (get_writable_roots_with_cwd fs policy cwd) in
  let view := shown (flags_around fs b command_cwd o) p in
  if mount_proc o && path_starts_with ["proc"] p then view = NotHost else
  (roots ≠ [] → (∀ w, w ∈ roots → is_path_writable w p = true) → ∃ mount, view = Host mount p true) ∧
  (roots = [] → can_read_path_with_cwd fs policy (as_path p) cwd = true →
   ¬ ["dev"] `prefix_of` p → ∃ mount, view = Host mount p false).
Proof.
  intros K Pl B F X E Nd roots view. unfold view. rewrite flags_around_shown.
  destruct (mount_proc o && _); [done|]. by apply (filesystem_keeps_access policy cwd depth).
Qed.

(** ** Walking a directory for matches

    The walk finds every matching entry below the directory that is not a
    directory itself, down to the depth; its fuel is enough. *)

Definition plain_tree : Prop := ∀ q n, fs !! q = Some n → plain_path q.

(** A directory lists the last component of each entry in it. *)
Lemma elem_of_read_dir dir names :
  plain_path dir → fs_read_dir fs dir = inr names →
  ∀ name, name ∈ names ↔ is_Some (fs !! (dir ++ [name])).
Proof.
  intros F. unfold fs_read_dir. destruct (stat fs dir) as [|[q n]] eqn:S; [done|].
  apply (stat_clear _ _ Hfs) in S as [-> _]; [|by apply clear_no_links, plain_no_dotdot].
  destruct n; try done. intros [= <-] name. rewrite list_elem_of_omap. split.
  - intros ([r m] & Hr & E). destruct (strip_path dir r) as [[|c [|]]|] eqn:Sr; try done.
    injection E as ->. apply strip_path_Some in Sr as ->. exists m. by apply elem_of_map_to_list.
  - intros [m Hm]. exists (dir ++ [name], m). split; [by apply elem_of_map_to_list|].
    by rewrite (proj2 (strip_path_Some dir (dir ++ [name]) [name])).
Qed.

Lemma read_dir_ok dir : dir = [] ∨ plain_path dir ∧ fs !! dir = Some Dir → ∃ names, fs_read_dir fs dir = inr names.
Proof.
  unfold fs_read_dir. intros [->|[F D]]; [by eexists|].
  rewrite (stat_present _ _ Hfs dir Dir) by (done || by apply clear_no_links, plain_no_dotdot). by eexists.
Qed.

Definition depth_allows (depth : option N) (n : nat) : Prop :=
  match depth with Some d => n ≤ Nat.max 1 (N.to_nat d) | None => True end.

(** What the walk of [dir] adds. *)
Definition walk_finds (search_root : path) (glob_set : os_path → bool) (depth : option N)
    (dir q : path) : Prop :=
  ∃ rel n, q = dir ++ rel ∧ fs !! q = Some n ∧ n ≠ Dir ∧ depth_allows depth (length rel) ∧
    ∃ below, q = search_root ++ below ∧ glob_set (OsPath false below) = true.

(** The part of the walk below one name. *)
Definition finds_below (search_root : path) (glob_set : os_path → bool) (depth : option N)
    (dir : path) (name : string) (q : path) : Prop :=
  ∃ rel n, q = (dir ++ [name]) ++ rel ∧ fs !! q = Some n ∧ n ≠ Dir ∧
    depth_allows depth (S (length rel)) ∧
    ∃ below, q = search_root ++ below ∧ glob_set (OsPath false below) = true.

Lemma walk_finds_names search_root glob_set depth dir (names : list string) q :
  (dir = [] ∨ fs !! dir = Some Dir) →
  (∀ name, name ∈ names ↔ is_Some (fs !! (dir ++ [name]))) →
  walk_finds search_root glob_set depth dir q ↔
  ∃ name, name ∈ names ∧ finds_below search_root glob_set depth dir name q.
Proof.
  intros D Hn. split.
  - intros ([|name rel] & n & -> & L & Nd & Dp & B).
    + rewrite app_nil_r in L. destruct D as [->|D]; [by rewrite (ok_root _ _ Hfs) in L|congruence].
    + exists name. split.
      * apply Hn. destruct rel as [|c rel]; [by exists n|]. exists Dir.
        apply (ok_tree _ _ Hfs (dir ++ name :: c :: rel) _ n L).
        -- exists (c :: rel). by rewrite <- app_assoc.
        -- intros E%(f_equal length). rewrite !length_app in E. simpl in E. lia.
        -- by destruct dir.
      * exists rel, n. rewrite <- app_assoc. split; [done|]. split; [done|]. done.
  - intros (name & _ & rel & n & -> & L & Nd & Dp & B). exists (name :: rel), n.
    rewrite <- app_assoc in *. split; [done|]. split; [done|]. done.
Qed.

Lemma try_fold_adds {E A B : Type} (f : list B → A → E + list B) (adds : A → B → Prop)
    (xs : list A) (acc : list B) :
  (∀ acc x, x ∈ xs → ∃ acc', f acc x = inr acc' ∧ ∀ y, y ∈ acc' ↔ y ∈ acc ∨ adds x y) →
  ∃ acc', try_fold f acc xs = inr acc' ∧ ∀ y, y ∈ acc' ↔ y ∈ acc ∨ ∃ x, x ∈ xs ∧ adds x y.
Proof.
  revert acc. induction xs as [|x xs IH]; intros acc Step.
  - exists acc. split; [done|]. intros y. split; [by left|]. intros [?|(x & Hx & _)]; [done|].
    by apply elem_of_nil in Hx.
  - destruct (Step acc x ltac:(by left)) as (acc1 & E1 & S1).
    destruct (IH acc1) as (acc2 & E2 & S2); [intros; apply Step; by right|].
    exists acc2. split; [simpl; by rewrite E1|]. intros y. rewrite S2, S1. setoid_rewrite elem_of_cons.
    split; [intros [[?|?]|(z & ? & ?)]|intros [?|(z & [->|?] & ?)]]; eauto 6.
Qed.

Lemma checked_display p : plain_path p → from_absolute_path_checked (display p) = inr p.
Proof.
  intros F. unfold from_absolute_path_checked, display.
  replace (maybe_expand_home_directory env_home ("/" +:+ join_with "/" p))
    with ("/" +:+ join_with "/" p) by by destruct env_home.
  change (is_absolute ("/" +:+ _)) with true. cbn match.
  rewrite comps_slash, comps_join_with by done. by rewrite normalize_id by by apply plain_no_dotdot.
Qed.

Lemma collect_step fuel search_root dir glob_set depth acc name :
  (∀ depth acc, fs !! (dir ++ [name]) = Some Dir → ∃ acc',
     collect_glob_files fs fuel search_root (dir ++ [name]) glob_set depth acc = inr acc' ∧
     ∀ q, q ∈ acc' ↔ q ∈ acc ∨ walk_finds search_root glob_set depth (dir ++ [name]) q) →
  plain_path (dir ++ [name]) → search_root `prefix_of` dir → is_Some (fs !! (dir ++ [name])) →
  ∃ acc',
    (let p := FsModel.join dir name in
     let? file_type := map_err (λ k, Io (os_error k)) (lstat fs p) in
     let relative := match strip_path search_root p with
                     | Some relative => OsPath false relative
                     | None => as_path p
                     end in
     let? paths :=
       match file_type with
       | Dir => inr acc
       | _ =>
           if glob_set relative then
             let? q := map_err Io (from_absolute_path_checked (display p)) in inr (acc ++ [q])
           else inr acc
       end in
     match file_type with
     | Dir =>
         match depth with
         | Some 0%N | Some 1%N => inr paths
         | Some depth => collect_glob_files fs fuel search_root p glob_set (Some (depth - 1)%N) paths
         | None => collect_glob_files fs fuel search_root p glob_set None paths
         end
     | _ => inr paths
     end) = inr acc' ∧
    ∀ q, q ∈ acc' ↔ q ∈ acc ∨ finds_below search_root glob_set depth dir name q.
Proof.
  intros IH F [below ->] [n L].
  assert (Fn : plain_name name = true) by (apply Forall_app in F as [_ F]; by inversion F).
  rewrite (join_plain (search_root ++ below) name Fn). cbv zeta.
  set (p := (search_root ++ below) ++ [name]) in *.
  rewrite (lstat_present _ _ Hfs p n) by (done || by apply clear_no_links, plain_no_dotdot).
  cbn [map_err and_then].
  assert (Ep : p = search_root ++ (below ++ [name])) by by unfold p; rewrite <- app_assoc.
  rewrite (proj2 (strip_path_Some search_root p (below ++ [name])) Ep).
  assert (NoBelow : n ≠ Dir → ∀ rel m, fs !! (p ++ rel) = Some m → rel = []).
  { intros Nd rel m Lm. destruct rel as [|c rel]; [done|]. exfalso. apply Nd.
    assert (Dp : fs !! p = Some Dir); [|congruence].
    apply (ok_tree _ _ Hfs (p ++ c :: rel) p m Lm); [by eexists|..].
    - intros E%(f_equal length). rewrite length_app in E. simpl in E. lia.
    - unfold p. by destruct (search_root ++ below). }
  assert (File : n ≠ Dir → ∃ acc',
    (if glob_set (OsPath false (below ++ [name])) then
       let? q := map_err Io (from_absolute_path_checked (display p)) in inr (acc ++ [q])
     else inr acc) = inr acc' ∧
    ∀ q, q ∈ acc' ↔ q ∈ acc ∨ finds_below search_root glob_set depth (search_root ++ below) name q).
  { intros Nd. rewrite checked_display by done. cbn [map_err and_then].
    assert (Fb : ∀ q, finds_below search_root glob_set depth (search_root ++ below) name q ↔
                      q = p ∧ glob_set (OsPath false (below ++ [name])) = true).
    { intros q. split.
      - intros (rel & m & -> & Lm & _ & _ & b' & Eb & G).
        fold p in Lm, Eb |- *. apply NoBelow in Lm as ->; [|done]. rewrite app_nil_r in *.
        split; [done|]. rewrite Ep in Eb. by apply app_inv_head in Eb as <-.
      - intros [-> G]. exists [], n. fold p. rewrite app_nil_r. split_and!; [done..| |by eexists].
        unfold depth_allows. destruct depth; simpl; lia. }
    destruct (glob_set _); eexists; (split; [done|]); intros q; rewrite Fb;
      [rewrite elem_of_app, list_elem_of_singleton|]; naive_solver. }
  destruct n as [content| |t].
  - destruct File as (acc' & E & S); [done|]. exists acc'. split; [|done].
    destruct (glob_set _); [|done]. by rewrite checked_display in * by done.
  - cbn [and_then].
    assert (Deep : ∀ depth' : option N,
      (∀ k, depth_allows depth' k ↔ depth_allows depth (S k)) →
      ∃ acc', collect_glob_files fs fuel search_root p glob_set depth' acc = inr acc' ∧
      ∀ q, q ∈ acc' ↔ q ∈ acc ∨ finds_below search_root glob_set depth (search_root ++ below) name q).
    { intros depth' Hd. destruct (IH depth' acc L) as (acc' & E & S). exists acc'. split; [done|].
      intros q. rewrite S. unfold walk_finds, finds_below. fold p. setoid_rewrite Hd. done. }
    assert (Shallow : ∀ d, (d ≤ 1)%N → depth = Some d → ∀ q,
      q ∈ acc ↔ q ∈ acc ∨ finds_below search_root glob_set depth (search_root ++ below) name q).
    { intros d Hd -> q. split; [by left|]. intros [?|(rel & m & -> & Lm & Nd & Dp & _)]; [done|exfalso].
      fold p in Lm. unfold depth_allows in Dp. destruct rel; [|simpl in Dp; lia].
      rewrite app_nil_r in Lm. congruence. }
    destruct depth as [[|[d|d|]]|]; try (apply Deep; unfold depth_allows; intros k; lia);
      (exists acc; split; [done|]; eapply Shallow; [|done]; lia).
  - by apply (ok_links _ _ Hfs) in L.
Qed.

Lemma collect_walks search_root glob_set fuel :
  plain_tree → ∀ dir depth acc,
  dir = [] ∨ fs !! dir = Some Dir → plain_path dir → search_root `prefix_of` dir →
  (∀ q, is_Some (fs !! q) → dir `prefix_of` q → length q < length dir + fuel) →
  ∃ acc', collect_glob_files fs fuel search_root dir glob_set depth acc = inr acc' ∧
    ∀ q, q ∈ acc' ↔ q ∈ acc ∨ walk_finds search_root glob_set depth dir q.
Proof.
  intros Pt. induction fuel as [|fuel IH]; intros dir depth acc D F P Fu.
  - exists acc. split; [done|]. intros q. split; [by left|].
    intros [?|(rel & n & -> & L & _)]; [done|exfalso].
    specialize (Fu (dir ++ rel) ltac:(by exists n) (prefix_app_r _ _ _ (reflexivity dir))).
    rewrite length_app in Fu. lia.
  - destruct (read_dir_ok dir) as [names En]; [destruct D; auto|].
    pose proof (elem_of_read_dir _ _ F En) as Hn. cbn [collect_glob_files]. rewrite En.
    cbn [map_err and_then]. setoid_rewrite walk_finds_names; [|done..].
    apply try_fold_adds. intros acc0 name Hname. apply collect_step; [|..|done|by apply Hn].
    + intros depth' acc' L. apply IH; [by right|by eapply Pt|by apply prefix_app_r|].
      intros q Hq Pq. rewrite length_app. simpl.
      specialize (Fu q Hq ltac:(by etrans; [apply prefix_app_r|exact Pq])). lia.
    + apply Hn in Hname as [n L]. by eapply Pt.
Qed.

Lemma glob_fuel_enough q : is_Some (fs !! q) → length q < glob_fuel fs.
Proof.
  intros [n L]. unfold glob_fuel. apply elem_of_map_to_list in L.
  assert (In' : length q ∈ map (length ∘ fst) (map_to_list fs))
    by (apply list_elem_of_fmap; by exists (q, n)).
  pose proof (max_list_elem_of_le _ _ In'). lia.
Qed.

(** Without [rg], the expansion of denied patterns finds exactly the entries below
    the search root that match one of the patterns, are not directories and lie within
    the depth; the walk always ends. *)
Theorem glob_files_finds search_root globs matchers depth :
  plain_tree → search_root = [] ∨ fs !! search_root = Some Dir → plain_path search_root →
  map build_glob_matcher globs = map inr matchers → glob_set_error globs = None →
  ∃ paths, glob_files fs search_root globs depth = inr paths ∧
    ∀ q, q ∈ paths ↔
      ∃ below n matcher, q = search_root ++ below ∧ fs !! q = Some n ∧ n ≠ Dir ∧
        depth_allows depth (length below) ∧ matcher ∈ matchers ∧ matcher (OsPath false below) = true.
Proof.
  intros Pt D F Ms Er. unfold glob_files.
  assert (Fm : ∀ acc, try_fold (λ ms glob,
      match build_glob_matcher glob with
      | inr matcher => inr (ms ++ [matcher])
      | inl err => inl (Fatal ("unreadable glob pattern is invalid for " +:+ display search_root +:+
                                ": " +:+ err))
      end) acc globs = inr (acc ++ matchers)).
  { clear Er. revert matchers Ms. induction globs as [|g gs IH]; intros [|m ms] Ms acc; try done.
    - by rewrite app_nil_r.
    - injection Ms as Eg Ms. cbn [try_fold]. rewrite Eg. cbn [and_then].
      by rewrite (IH ms Ms), <- app_assoc. }
  rewrite (Fm []), Er. cbn [and_then app].
  destruct (collect_walks search_root (λ relative, existsb (λ m, m relative) matchers) (glob_fuel fs)
              Pt search_root depth [] D F (reflexivity _)) as (paths & E & S).
  { intros q Hq _. pose proof (glob_fuel_enough q Hq). lia. }
  exists paths. split; [done|]. intros q. rewrite S. split.
  - intros [?%elem_of_nil|(rel & n & -> & L & Nd & Dp & below & Eb & G)]; [done|].
    apply app_inv_head in Eb as <-. apply existsb_exists_elem in G as (m & Hm & G).
    by exists rel, n, m.
  - intros (below & n & m & -> & L & Nd & Dp & Hm & G). right. exists below, n.
    split_and!; [done..|]. exists below. split; [done|]. apply existsb_exists_elem. by exists m.
Qed.
End link_free.
