(* ===== verification/ExecPolicy.v ===== *)
(** * execpolicy: rules, policies and their evaluation

    [decision.rs], [rule.rs], [executable_name.rs] and [policy.rs] of
    [codex-rs/execpolicy], on Unix.  Prefix rules are the only implementation
    of the trait [Rule], so a [RuleRef] is a [PrefixRule]; the multimap of a
    policy is a finite map to lists.  A panic is [None]. *)

From S2P Require Import Prelude RustStr FsModel ExecFs.

(** ** decision.rs *)

Inductive Decision := Allow | Prompt | Forbidden.

#[global] Instance Decision_eq_dec : EqDecision Decision.
Proof. solve_decision. Defined.

(** The derived order: [Allow] < [Prompt] < [Forbidden]. *)
Definition severity (d : Decision) : nat :=
  match d with Allow => 0 | Prompt => 1 | Forbidden => 2 end.
Definition decision_max (a b : Decision) : Decision := if severity a <=? severity b then b else a.

(** ** error.rs *)

Record ErrorLocation := { el_path : string; el_range : (nat * nat) * (nat * nat) }.

Inductive PolicyError :=
| InvalidDecision (raw : string)
| InvalidPattern (message : string)
| InvalidExample (message : string)
| InvalidRule (message : string)
| ExampleDidNotMatch (rules examples : list string) (location : option ErrorLocation)
| ExampleDidMatch (rule example : string) (location : option ErrorLocation)
| StarlarkError (message : string) (location : option ErrorLocation).

Definition with_location (e : PolicyError) (location : ErrorLocation) : PolicyError :=
  match e with
  | ExampleDidNotMatch rules examples None => ExampleDidNotMatch rules examples (Some location)
  | ExampleDidMatch rule example None => ExampleDidMatch rule example (Some location)
  | other => other
  end.

Definition error_location (e : PolicyError) : option ErrorLocation :=
  match e with
  | ExampleDidNotMatch _ _ location | ExampleDidMatch _ _ location | StarlarkError _ location =>
      location
  | _ => None
  end.

Definition parse_decision (raw : string) : PolicyError + Decision :=
  if String.eqb raw "allow" then inr Allow
  else if String.eqb raw "prompt" then inr Prompt
  else if String.eqb raw "forbidden" then inr Forbidden
  else inl (InvalidDecision raw).

(** ** Patterns and rules *)

Inductive PatternToken := Single (value : string) | Alts (alternatives : list string).

Definition token_matches (t : PatternToken) (token : string) : bool :=
  match t with
  | Single expected => String.eqb expected token
  | Alts alternatives => existsb (λ alt, String.eqb alt token) alternatives
  end.

Definition alternatives (t : PatternToken) : list string :=
  match t with Single expected => [expected] | Alts alternatives => alternatives end.

Record PrefixPattern := { pat_first : string; pat_rest : list PatternToken }.

Definition matches_prefix (p : PrefixPattern) (cmd : list string) : option (list string) :=
  let pattern_length := length (pat_rest p) + 1 in
  if (length cmd <? pattern_length) || negb (bool_decide (cmd !! 0 = Some (pat_first p)))
  then None
  else if forallb (λ '(t, token), token_matches t token)
            (zip (pat_rest p) (take (pattern_length - 1) (drop 1 cmd)))
  then Some (take pattern_length cmd)
  else None.

Inductive RuleMatch :=
| PrefixRuleMatch (matched_prefix : list string) (decision : Decision)
    (resolved_program : option path) (justification : option string)
| HeuristicsRuleMatch (command : list string) (decision : Decision).

Definition match_decision (m : RuleMatch) : Decision :=
  match m with
  | PrefixRuleMatch _ decision _ _ => decision
  | HeuristicsRuleMatch _ decision => decision
  end.

Definition with_resolved_program (program : path) (m : RuleMatch) : RuleMatch :=
  match m with
  | PrefixRuleMatch matched_prefix decision _ justification =>
      PrefixRuleMatch matched_prefix decision (Some program) justification
  | other => other
  end.

Record PrefixRule := {
  pr_pattern : PrefixPattern;
  pr_decision : Decision;
  pr_justification : option string
}.

(** [Rule::program] and [Rule::matches]. *)
Definition rule_program (r : PrefixRule) : string := pat_first (pr_pattern r).
Definition rule_matches (cmd : list string) (r : PrefixRule) : option RuleMatch :=
  matched_prefix ← matches_prefix (pr_pattern r) cmd;
  Some (PrefixRuleMatch matched_prefix (pr_decision r) None (pr_justification r)).

(** ** Network rules *)

Inductive NetworkRuleProtocol := Http | Https | Socks5Tcp | Socks5Udp.

Definition parse_protocol (raw : string) : PolicyError + NetworkRuleProtocol :=
  if String.eqb raw "http" then inr Http
  else if existsb (String.eqb raw) ["https"; "https_connect"; "http-connect"] then inr Https
  else if String.eqb raw "socks5_tcp" then inr Socks5Tcp
  else if String.eqb raw "socks5_udp" then inr Socks5Udp
  else inl (InvalidRule
    ("network_rule protocol must be one of http, https, socks5_tcp, socks5_udp (got " +:+ raw
     +:+ ")")).

Definition as_policy_string (p : NetworkRuleProtocol) : string :=
  match p with
  | Http => "http" | Https => "https" | Socks5Tcp => "socks5_tcp" | Socks5Udp => "socks5_udp"
  end.

Record NetworkRule := {
  nr_host : string;
  nr_protocol : NetworkRuleProtocol;
  nr_decision : Decision;
  nr_justification : option string
}.

(** [host.rsplit_once(c)] for an ASCII [c]. *)
Definition rsplit_once (c : ascii) (s : string) : option (string * string) :=
  '(after, before) ← split_once c (rev_str s);
  Some (rev_str before, rev_str after).

Definition port_digits (port : string) : bool :=
  negb (String.eqb port "") && forallb is_ascii_digit (bytes port).

(** The host without brackets or port. *)
Definition host_part (raw host : string) : PolicyError + string :=
  match strip_prefix "[" host with
  | Some stripped =>
      match split_once "]" stripped with
      | None => inl (InvalidRule "network_rule host has an invalid bracketed IPv6 literal")
      | Some (inside, rest) =>
          let port_ok := match strip_prefix ":" rest with
                         | Some port => port_digits port
                         | None => false
                         end in
          if negb (String.eqb rest "") && negb port_ok
          then inl (InvalidRule ("network_rule host contains an unsupported suffix: " +:+ raw))
          else inr inside
      end
  | None =>
      if count_char ":" host =? 1 then
        match rsplit_once ":" host with
        | Some (candidate, port) =>
            if negb (String.eqb candidate "") && port_digits port then inr candidate else inr host
        | None => inr host
        end
      else inr host
  end.

Definition normalize_network_rule_host (raw : string) : PolicyError + string :=
  let host := trim raw in
  if String.eqb host "" then inl (InvalidRule "network_rule host cannot be empty")
  else if contains "://" host || contains "/" host || contains "?" host || contains "#" host
  then inl (InvalidRule
    "network_rule host must be a hostname or IP literal (without scheme or path)")
  else
    let? host := host_part raw host in
    let normalized := to_ascii_lowercase (trim (trim_end_char "." host)) in
    if String.eqb normalized "" then inl (InvalidRule "network_rule host cannot be empty")
    else if contains "*" normalized
    then inl (InvalidRule
      "network_rule host must be a specific host; wildcards are not allowed")
    else if has_whitespace normalized
    then inl (InvalidRule "network_rule host cannot contain whitespace")
    else inr normalized.

(** ** policy.rs *)

Record MatchOptions := { resolve_host_executables : bool }.
Definition MatchOptions_default : MatchOptions := {| resolve_host_executables := false |}.

Record Policy := {
  rules_by_program : gmap string (list PrefixRule);
  network_rules : list NetworkRule;
  host_executables_by_name : gmap string (list path)
}.

Definition from_parts rules_by_program network_rules host_executables_by_name : Policy := {|
  rules_by_program := rules_by_program; network_rules := network_rules;
  host_executables_by_name := host_executables_by_name |}.
Definition Policy_new rules_by_program : Policy := from_parts rules_by_program [] ∅.
Definition Policy_empty : Policy := Policy_new ∅.

(** [MultiMap::insert] and [get_vec]. *)
Definition multi_insert (program : string) (rule : PrefixRule)
    (m : gmap string (list PrefixRule)) : gmap string (list PrefixRule) :=
  <[program := default [] (m !! program) ++ [rule]]> m.

Definition set_rules (m : gmap string (list PrefixRule)) (p : Policy) : Policy :=
  from_parts m (network_rules p) (host_executables_by_name p).

Definition render_pattern_token (t : PatternToken) : string :=
  match t with
  | Single value => value
  | Alts alternatives => "[" +:+ join_with "|" alternatives +:+ "]"
  end.

Definition allowed_prefix (rule : PrefixRule) : option (list string) :=
  if bool_decide (pr_decision rule = Allow)
  then Some (pat_first (pr_pattern rule) :: map render_pattern_token (pat_rest (pr_pattern rule)))
  else None.

(** The order of vectors of strings. *)
Fixpoint words_le (a b : list string) : bool :=
  match a, b with
  | [], _ => true
  | _, [] => false
  | x :: a', y :: b' =>
      if String.eqb x y then words_le a' b' else bool_decide (String.le x y)
  end.
(** [Vec::dedup]. *)
Fixpoint dedup (l : list (list string)) : list (list string) :=
  match l with
  | x :: (y :: _) as l' => if bool_decide (x = y) then dedup l' else x :: dedup l'
  | _ => l
  end.

Definition get_allowed_prefixes (p : Policy) : list (list string) :=
  dedup (sort_by words_le
    (omap allowed_prefix (concat (map snd (map_to_list (rules_by_program p)))))).

Definition prefix_rule_of (first_token : string) (rest : list string) (decision : Decision)
  : PrefixRule := {|
  pr_pattern := {| pat_first := first_token; pat_rest := map Single rest |};
  pr_decision := decision; pr_justification := None |}.

Definition add_prefix_rule (prefix : list string) (decision : Decision) (p : Policy)
  : PolicyError + Policy :=
  match prefix with
  | [] => inl (InvalidPattern "prefix cannot be empty")
  | first_token :: rest =>
      inr (set_rules (multi_insert first_token (prefix_rule_of first_token rest decision)
                        (rules_by_program p)) p)
  end.

Definition empty_justification (justification : option string) : bool :=
  match justification with Some raw => is_blank raw | None => false end.

Definition add_network_rule (host : string) (protocol : NetworkRuleProtocol)
    (decision : Decision) (justification : option string) (p : Policy) : PolicyError + Policy :=
  let? host := normalize_network_rule_host host in
  if empty_justification justification then inl (InvalidRule "justification cannot be empty")
  else inr (from_parts (rules_by_program p)
    (network_rules p ++ [{| nr_host := host; nr_protocol := protocol; nr_decision := decision;
                            nr_justification := justification |}])
    (host_executables_by_name p)).

Definition set_host_executable_paths (name : string) (paths : list path) (p : Policy) : Policy :=
  from_parts (rules_by_program p) (network_rules p)
    (<[name := paths]> (host_executables_by_name p)).

(** The rules of the overlay come after those of the policy; its host
    executables replace them. *)
Definition merge_overlay (p overlay : Policy) : Policy :=
  from_parts
    (union_with (λ rules more, Some (rules ++ more)) (rules_by_program p)
       (rules_by_program overlay))
    (network_rules p ++ network_rules overlay)
    (host_executables_by_name overlay ∪ host_executables_by_name p).

Definition retain_other (host : string) (entries : list string) : list string :=
  List.filter (λ entry, negb (String.eqb entry host)) entries.
Definition upsert_domain (host : string) (entries : list string) : list string :=
  retain_other host entries ++ [host].

Definition network_step (acc : list string * list string) (rule : NetworkRule)
  : list string * list string :=
  let (allowed, denied) := acc in
  match nr_decision rule with
  | Allow => (upsert_domain (nr_host rule) allowed, retain_other (nr_host rule) denied)
  | Forbidden => (retain_other (nr_host rule) allowed, upsert_domain (nr_host rule) denied)
  | Prompt => (allowed, denied)
  end.
Definition compiled_network_domains (p : Policy) : list string * list string :=
  foldl network_step ([], []) (network_rules p).

(** ** Evaluation *)

Record Evaluation := { ev_decision : Decision; matched_rules : list RuleMatch }.

Definition is_policy_match (m : RuleMatch) : bool :=
  match m with PrefixRuleMatch _ _ _ _ => true | HeuristicsRuleMatch _ _ => false end.

Definition is_match (e : Evaluation) : bool := existsb is_policy_match (matched_rules e).

(** [None]: the [expect] on the maximum of no decisions panics. *)
Definition from_matches (matched_rules : list RuleMatch) : option Evaluation :=
  match map match_decision matched_rules with
  | [] => None
  | d :: ds => Some {| ev_decision := foldl decision_max d ds; matched_rules := matched_rules |}
  end.

(** ** executable_name.rs *)

Definition executable_lookup_key (raw : string) : string := raw.
Definition executable_path_lookup_key (p : path) : option string :=
  executable_lookup_key <$> file_name p.

Section evaluate.
Context `{ProcessEnv}.

Definition match_exact_rules (p : Policy) (cmd : list string) : option (list RuleMatch) :=
  first ← head cmd;
  Some (omap (rule_matches cmd) (default [] (rules_by_program p !! first))).

Definition match_host_executable_rules (p : Policy) (cmd : list string) : list RuleMatch :=
  match head cmd with
  | None => []
  | Some first =>
      match from_absolute_path env_home env_current_dir first with
      | None => []
      | Some program =>
          match executable_path_lookup_key program with
          | None => []
          | Some basename =>
              match rules_by_program p !! basename with
              | None => []
              | Some rules =>
                  let refused := match host_executables_by_name p !! basename with
                                 | Some paths => negb (bool_decide (program ∈ paths))
                                 | None => false
                                 end in
                  if refused then []
                  else map (with_resolved_program program)
                         (omap (rule_matches (basename :: tail cmd)) rules)
              end
          end
      end
  end.

Definition non_empty (l : option (list RuleMatch)) : option (list RuleMatch) :=
  match l with Some (_ :: _) => l | _ => None end.

Definition matches_for_command_with_options (p : Policy) (cmd : list string)
    (heuristics_fallback : option (list string → Decision)) (options : MatchOptions)
  : list RuleMatch :=
  let matched_rules :=
    match non_empty (match_exact_rules p cmd) with
    | Some l => l
    | None =>
        if resolve_host_executables options
        then default [] (non_empty (Some (match_host_executable_rules p cmd)))
        else []
    end in
  match matched_rules, heuristics_fallback with
  | [], Some fallback => [HeuristicsRuleMatch cmd (fallback cmd)]
  | _, _ => matched_rules
  end.

Definition matches_for_command (p : Policy) (cmd : list string)
    (heuristics_fallback : option (list string → Decision)) : list RuleMatch :=
  matches_for_command_with_options p cmd heuristics_fallback MatchOptions_default.

Definition check_with_options (p : Policy) (cmd : list string)
    (heuristics_fallback : list string → Decision) (options : MatchOptions) : option Evaluation :=
  from_matches (matches_for_command_with_options p cmd (Some heuristics_fallback) options).

Definition check_command (p : Policy) (cmd : list string)
    (heuristics_fallback : list string → Decision) : option Evaluation :=
  from_matches (matches_for_command p cmd (Some heuristics_fallback)).

Definition check_multiple_with_options (p : Policy) (commands : list (list string))
    (heuristics_fallback : list string → Decision) (options : MatchOptions) : option Evaluation :=
  from_matches (concat (map (λ command,
    matches_for_command_with_options p command (Some heuristics_fallback) options) commands)).

Definition check_multiple (p : Policy) (commands : list (list string))
    (heuristics_fallback : list string → Decision) : option Evaluation :=
  check_multiple_with_options p commands heuristics_fallback MatchOptions_default.
End evaluate.
