(* ===== verification/PolicyFile.v ===== *)
(** * execpolicy: policy files

    [amend.rs] and [parser.rs] of [codex-rs/execpolicy], and the rules of an
    administrator's requirements ([requirements_exec_policy.rs] of
    [codex-rs/config]), whose decoding from TOML is serde's.  The Starlark
    evaluator, [serde_json] and [shlex] are parameters: evaluating a file
    makes a sequence of calls of the three functions a policy may use, until
    one of them fails or the script ends, itself possibly with an error.  The
    advisory lock of a policy file has no effect on a sequential run, and a
    file that was opened can be written. *)

From S2P Require Import Prelude RustStr FsModel ExecFs ExecPolicy.

(** ** Starlark values and scripts *)

Inductive Value := VStr (s : string) | VList (l : list Value) | VOther (type_name : string).

Definition get_type (v : Value) : string :=
  match v with VStr _ => "string" | VList _ => "list" | VOther t => t end.
Definition unpack_str (v : Value) : option string :=
  match v with VStr s => Some s | _ => None end.

Inductive builtin_call :=
| Call_prefix_rule (pattern : list Value) (decision : option string)
    (match_ not_match : option (list Value)) (justification : option string)
    (location : option ErrorLocation)
| Call_network_rule (host protocol decision : string) (justification : option string)
| Call_host_executable (name : string) (paths : list Value).

Class PolicyText := {
  json_string : string → string;
  shlex_try_join : list string → option string;
  shlex_split : string → option (list string);
  debug_rule : PrefixRule → string;
  debug_match : RuleMatch → string;
  (** The calls of a script and the error it ends with, if any. *)
  starlark_eval : string → string → list builtin_call * option PolicyError;
  (** The evaluator's error for a function that failed. *)
  starlark_failure : PolicyError → PolicyError
}.

(** ** parser.rs: literals *)

Definition parse_str_items (message : string → string) (l : list Value)
  : PolicyError + list string :=
  try_fold (λ acc v, match unpack_str v with
                     | Some s => inr (acc ++ [s])
                     | None => inl (InvalidPattern (message (get_type v)))
                     end) [] l.

Definition parse_pattern_token (value : Value) : PolicyError + PatternToken :=
  match value with
  | VStr s => inr (Single s)
  | VList l =>
      let? tokens := parse_str_items
        (λ t, "pattern alternative must be a string (got " +:+ t +:+ ")") l in
      match tokens with
      | [] => inl (InvalidPattern "pattern alternatives cannot be empty")
      | [single] => inr (Single single)
      | _ => inr (Alts tokens)
      end
  | VOther t => inl (InvalidPattern
      ("pattern element must be a string or list of strings (got " +:+ t +:+ ")"))
  end.

Definition collect {E A B : Type} (f : A → E + B) (l : list A) : E + list B :=
  try_fold (λ acc x, let? y := f x in inr (acc ++ [y])) [] l.

Definition parse_pattern (pattern : list Value) : PolicyError + list PatternToken :=
  let? tokens := collect parse_pattern_token pattern in
  match tokens with
  | [] => inl (InvalidPattern "pattern cannot be empty")
  | _ => inr tokens
  end.

Definition parse_network_rule_decision (raw : string) : PolicyError + Decision :=
  if String.eqb raw "deny" then inr Forbidden else parse_decision raw.

(** [Path::new(s).components().count()]. *)
Definition component_count (s : string) : nat :=
  (if is_absolute s then 1
   else match split_char "/" s with c :: _ => if String.eqb c "." then 1 else 0 | [] => 0 end)
  + length (comps s).

Definition validate_host_executable_name (name : string) : PolicyError + unit :=
  if String.eqb name "" then inl (InvalidRule "host_executable name cannot be empty")
  else if negb (component_count name =? 1) || negb (bool_decide (file_name (comps name) = Some name))
  then inl (InvalidRule
    ("host_executable name must be a bare executable name (got " +:+ name +:+ ")"))
  else inr tt.

Section literals.
Context `{PolicyText} `{ProcessEnv}.

Definition parse_string_example (raw : string) : PolicyError + list string :=
  match shlex_split raw with
  | None => inl (InvalidExample "example string has invalid shell syntax")
  | Some [] => inl (InvalidExample "example cannot be an empty string")
  | Some tokens => inr tokens
  end.

Definition parse_list_example (l : list Value) : PolicyError + list string :=
  let? tokens := try_fold (λ acc v,
    match unpack_str v with
    | Some s => inr (acc ++ [s])
    | None => inl (InvalidExample
        ("example tokens must be strings (got " +:+ get_type v +:+ ")"))
    end) [] l in
  match tokens with
  | [] => inl (InvalidExample "example cannot be an empty list")
  | _ => inr tokens
  end.

Definition parse_example (value : Value) : PolicyError + list string :=
  match value with
  | VStr raw => parse_string_example raw
  | VList l => parse_list_example l
  | VOther t => inl (InvalidExample
      ("example must be a string or list of strings (got " +:+ t +:+ ")"))
  end.

(** [examples.map(parse_examples).transpose()?.unwrap_or_default()]. *)
Definition parse_examples (examples : option (list Value)) : PolicyError + list (list string) :=
  match examples with None => inr [] | Some items => collect parse_example items end.

Definition parse_literal_absolute_path (raw : string) : PolicyError + path :=
  if negb (is_absolute raw)
  then inl (InvalidRule ("host_executable paths must be absolute (got " +:+ raw +:+ ")"))
  else match from_absolute_path env_home env_current_dir raw with
       | Some p => inr p
       | None => inl (InvalidRule ("invalid absolute path `" +:+ raw +:+ "`"))
       end.

Definition basename_error (raw name : string) : PolicyError :=
  InvalidRule ("host_executable path `" +:+ raw +:+ "` must have basename `" +:+ name +:+ "`").

(** One path of [host_executable]. *)
Definition add_host_path (name : string) (parsed_paths : list path) (value : Value)
  : PolicyError + list path :=
  match unpack_str value with
  | None => inl (InvalidRule
      ("host_executable paths must be strings (got " +:+ get_type value +:+ ")"))
  | Some raw =>
      let? p := parse_literal_absolute_path raw in
      if bool_decide (executable_path_lookup_key p = Some (executable_lookup_key name))
      then inr (if bool_decide (p ∈ parsed_paths) then parsed_paths else parsed_paths ++ [p])
      else inl (basename_error raw name)
  end.

(** ** PolicyBuilder *)

Record PendingExampleValidation := {
  pv_rules : list PrefixRule;
  pv_matches : list (list string);
  pv_not_matches : list (list string);
  pv_location : option ErrorLocation
}.

Record PolicyBuilder := {
  pb_rules_by_program : gmap string (list PrefixRule);
  pb_network_rules : list NetworkRule;
  pb_host_executables : gmap string (list path);
  pb_pending : list PendingExampleValidation
}.

Definition PolicyBuilder_new : PolicyBuilder :=
  {| pb_rules_by_program := ∅; pb_network_rules := []; pb_host_executables := ∅;
     pb_pending := [] |}.

Definition add_rule (b : PolicyBuilder) (rule : PrefixRule) : PolicyBuilder :=
  {| pb_rules_by_program := multi_insert (rule_program rule) rule (pb_rules_by_program b);
     pb_network_rules := pb_network_rules b; pb_host_executables := pb_host_executables b;
     pb_pending := pb_pending b |}.
Definition builder_add_network_rule (rule : NetworkRule) (b : PolicyBuilder) : PolicyBuilder :=
  {| pb_rules_by_program := pb_rules_by_program b;
     pb_network_rules := pb_network_rules b ++ [rule];
     pb_host_executables := pb_host_executables b; pb_pending := pb_pending b |}.
Definition add_host_executable (name : string) (paths : list path) (b : PolicyBuilder)
  : PolicyBuilder :=
  {| pb_rules_by_program := pb_rules_by_program b; pb_network_rules := pb_network_rules b;
     pb_host_executables := <[name := paths]> (pb_host_executables b);
     pb_pending := pb_pending b |}.
Definition add_pending_example_validation (v : PendingExampleValidation) (b : PolicyBuilder)
  : PolicyBuilder :=
  {| pb_rules_by_program := pb_rules_by_program b; pb_network_rules := pb_network_rules b;
     pb_host_executables := pb_host_executables b; pb_pending := pb_pending b ++ [v] |}.

Definition build (b : PolicyBuilder) : Policy :=
  from_parts (pb_rules_by_program b) (pb_network_rules b) (pb_host_executables b).

(** ** The functions a policy may call *)

Definition parse_justification (justification : option string)
  : PolicyError + option string :=
  if empty_justification justification
  then inl (InvalidRule "justification cannot be empty") else inr justification.

Definition rule_with_head (rest : list PatternToken) (decision : Decision)
    (justification : option string) (head : string) : PrefixRule :=
  {| pr_pattern := {| pat_first := head; pat_rest := rest |};
     pr_decision := decision; pr_justification := justification |}.

Definition prefix_rule (pattern : list Value) (decision : option string)
    (match_ not_match : option (list Value)) (justification : option string)
    (location : option ErrorLocation) (b : PolicyBuilder) : PolicyError + PolicyBuilder :=
  let? decision := match decision with Some raw => parse_decision raw | None => inr Allow end in
  let? justification := parse_justification justification in
  let? pattern_tokens := parse_pattern pattern in
  let? matches := parse_examples match_ in
  let? not_matches := parse_examples not_match in
  match pattern_tokens with
  | [] => inl (InvalidPattern "pattern cannot be empty")
  | first_token :: rest =>
      let rules := map (rule_with_head rest decision justification) (alternatives first_token) in
      let b := add_pending_example_validation
        {| pv_rules := rules; pv_matches := matches; pv_not_matches := not_matches;
           pv_location := location |} b in
      inr (foldl add_rule b rules)
  end.

Definition network_rule (host protocol decision : string) (justification : option string)
    (b : PolicyBuilder) : PolicyError + PolicyBuilder :=
  let? protocol := parse_protocol protocol in
  let? decision := parse_network_rule_decision decision in
  let? justification := parse_justification justification in
  let? host := normalize_network_rule_host host in
  inr (builder_add_network_rule
    {| nr_host := host; nr_protocol := protocol; nr_decision := decision;
       nr_justification := justification |} b).

Definition host_executable (name : string) (paths : list Value) (b : PolicyBuilder)
  : PolicyError + PolicyBuilder :=
  let? _ := validate_host_executable_name name in
  let? parsed_paths := try_fold (add_host_path name) [] paths in
  inr (add_host_executable (executable_lookup_key name) parsed_paths b).

Definition run_call (b : PolicyBuilder) (c : builtin_call) : PolicyError + PolicyBuilder :=
  match c with
  | Call_prefix_rule pattern decision m n justification location =>
      prefix_rule pattern decision m n justification location b
  | Call_network_rule host protocol decision justification =>
      network_rule host protocol decision justification b
  | Call_host_executable name paths => host_executable name paths b
  end.

(** ** Examples *)

Definition example_options : MatchOptions := {| resolve_host_executables := true |}.

Definition render_example (example : list string) : string :=
  default "unable to render example" (shlex_try_join example).

Definition example_matches (p : Policy) (example : list string) : list RuleMatch :=
  matches_for_command_with_options p example None example_options.

Definition validate_match_examples (p : Policy) (rules : list PrefixRule)
    (matches : list (list string)) : PolicyError + unit :=
  let unmatched_examples :=
    List.filter (λ example, bool_decide (example_matches p example = [])) matches in
  match unmatched_examples with
  | [] => inr tt
  | _ => inl (ExampleDidNotMatch (map debug_rule rules) (map render_example unmatched_examples)
                None)
  end.

Definition validate_not_match_examples (p : Policy) (not_matches : list (list string))
  : PolicyError + unit :=
  try_fold (λ _ example,
    match example_matches p example with
    | rule :: _ => inl (ExampleDidMatch (debug_match rule) (render_example example) None)
    | [] => inr tt
    end) tt not_matches.

Definition attach_validation_location (location : option ErrorLocation) (e : PolicyError)
  : PolicyError :=
  match location with Some l => with_location e l | None => e end.

(** The policy of one declaration's rules. *)
Definition validation_policy (b : PolicyBuilder) (v : PendingExampleValidation) : Policy :=
  from_parts (foldl (λ m rule, multi_insert (rule_program rule) rule m) ∅ (pv_rules v)) []
    (pb_host_executables b).

Definition validate_one (b : PolicyBuilder) (v : PendingExampleValidation) : PolicyError + unit :=
  let p := validation_policy b v in
  let? _ := map_err (attach_validation_location (pv_location v))
    (validate_not_match_examples p (pv_not_matches v)) in
  map_err (attach_validation_location (pv_location v))
    (validate_match_examples p (pv_rules v) (pv_matches v)).

Definition validate_pending_examples_from (start : nat) (b : PolicyBuilder)
  : PolicyError + unit :=
  try_fold (λ _ v, validate_one b v) tt (drop start (pb_pending b)).

(** ** PolicyParser *)

(** The builder keeps what the calls before a failure have added. *)
Fixpoint run_calls (calls : list builtin_call) (b : PolicyBuilder)
  : (PolicyError + unit) * PolicyBuilder :=
  match calls with
  | [] => (inr tt, b)
  | c :: calls' =>
      match run_call b c with
      | inl e => (inl (starlark_failure e), b)
      | inr b' => run_calls calls' b'
      end
  end.

Definition eval_module (policy_identifier contents : string) (b : PolicyBuilder)
  : (PolicyError + unit) * PolicyBuilder :=
  let (calls, ending) := starlark_eval policy_identifier contents in
  let (r, b') := run_calls calls b in
  (let? _ := r in match ending with Some e => inl e | None => inr tt end, b').

Definition parse_policy (policy_identifier policy_file_contents : string) (b : PolicyBuilder)
  : (PolicyError + unit) * PolicyBuilder :=
  let pending_validation_count := length (pb_pending b) in
  let (r, b') := eval_module policy_identifier policy_file_contents b in
  (let? _ := r in validate_pending_examples_from pending_validation_count b', b').
End literals.

(** ** amend.rs *)

Inductive AmendError :=
| EmptyPrefix
| InvalidNetworkRule (message : string)
| MissingParent (p : path)
| CreatePolicyDir (dir : path) (source : io_kind)
| OpenPolicyFile (p : path) (source : io_kind)
| WritePolicyFile (p : path) (source : io_kind)
| ReadPolicyFile (p : path) (source : io_kind).

(** One [write_all] to the open file. *)
Definition append_to (policy_path : path) (s : string) (fs : fsys) : AmendError + fsys :=
  match fs_append fs policy_path s with
  | inl k => inl (WritePolicyFile policy_path k)
  | inr fs' => inr fs'
  end.

Definition append_locked_line (policy_path : path) (line : string) (fs : fsys)
  : (AmendError + unit) * fsys :=
  match fs_append fs policy_path "" with
  | inl k => (inl (OpenPolicyFile policy_path k), fs)
  | inr fs =>
      match fs_read_to_string fs policy_path with
      | inl k => (inl (ReadPolicyFile policy_path k), fs)
      | inr contents =>
          if existsb (String.eqb line) (lines contents) then (inr tt, fs)
          else
            let ended :=
              if negb (String.eqb contents "") && negb (ends_with nl contents)
              then append_to policy_path nl fs else inr fs in
            match ended with
            | inl e => (inl e, fs)
            | inr fs =>
                match append_to policy_path (line +:+ nl) fs with
                | inl e => (inl e, fs)
                | inr fs => (inr tt, fs)
                end
            end
      end
  end.

Definition append_rule_line (policy_path : path) (rule : string) (fs : fsys)
  : (AmendError + unit) * fsys :=
  match parent policy_path with
  | None => (inl (MissingParent policy_path), fs)
  | Some dir =>
      match fs_create_dir fs dir with
      | inr fs => append_locked_line policy_path rule fs
      | inl AlreadyExists => append_locked_line policy_path rule fs
      | inl k => (inl (CreatePolicyDir dir k), fs)
      end
  end.

Section amend.
Context `{PolicyText}.

Definition allow_rule_line (prefix : list string) : string :=
  "prefix_rule(pattern=[" +:+ join_with ", " (map json_string prefix) +:+ "], decision=" +:+
  dquote +:+ "allow" +:+ dquote +:+ ")".

Definition blocking_append_allow_prefix_rule (policy_path : path) (prefix : list string)
    (fs : fsys) : (AmendError + unit) * fsys :=
  match prefix with
  | [] => (inl EmptyPrefix, fs)
  | _ => append_rule_line policy_path (allow_rule_line prefix) fs
  end.

Definition network_decision_text (d : Decision) : string :=
  match d with Allow => "allow" | Prompt => "prompt" | Forbidden => "deny" end.

(** [err.to_string()] of a rejected host. *)
Definition rule_error_text (e : PolicyError) : string :=
  match e with
  | InvalidDecision s => "invalid decision: " +:+ s
  | InvalidPattern s => "invalid pattern element: " +:+ s
  | InvalidExample s => "invalid example: " +:+ s
  | InvalidRule s => "invalid rule: " +:+ s
  | _ => ""
  end.

Definition network_rule_line (host : string) (protocol : NetworkRuleProtocol)
    (decision : Decision) (justification : option string) : string :=
  "network_rule(" +:+ join_with ", "
    (["host=" +:+ json_string host; "protocol=" +:+ json_string (as_policy_string protocol);
      "decision=" +:+ json_string (network_decision_text decision)]
     ++ match justification with
        | Some j => ["justification=" +:+ json_string j]
        | None => []
        end) +:+ ")".

Definition blocking_append_network_rule (policy_path : path) (host : string)
    (protocol : NetworkRuleProtocol) (decision : Decision) (justification : option string)
    (fs : fsys) : (AmendError + unit) * fsys :=
  match normalize_network_rule_host host with
  | inl e => (inl (InvalidNetworkRule (rule_error_text e)), fs)
  | inr host =>
      if empty_justification justification
      then (inl (InvalidNetworkRule "justification cannot be empty"), fs)
      else append_rule_line policy_path (network_rule_line host protocol decision justification)
             fs
  end.
End amend.

(** ** requirements_exec_policy.rs *)

Record RequirementsExecPolicyPatternTokenToml := {
  pt_token : option string;
  pt_any_of : option (list string)
}.

Inductive RequirementsExecPolicyDecisionToml := TomlAllow | TomlPrompt | TomlForbidden.

Definition as_decision (d : RequirementsExecPolicyDecisionToml) : Decision :=
  match d with TomlAllow => Allow | TomlPrompt => Prompt | TomlForbidden => Forbidden end.

Record RequirementsExecPolicyPrefixRuleToml := {
  tr_pattern : list RequirementsExecPolicyPatternTokenToml;
  tr_decision : option RequirementsExecPolicyDecisionToml;
  tr_justification : option string
}.

(** [RequirementsExecPolicyToml] has one field, [prefix_rules]. *)
Record RequirementsExecPolicyToml := {
  prefix_rules : list RequirementsExecPolicyPrefixRuleToml
}.

Inductive RequirementsExecPolicyParseError :=
| EmptyPrefixRules
| EmptyPattern (rule_index : nat)
| InvalidPatternToken (rule_index token_index : nat) (reason : string)
| EmptyJustification (rule_index : nat)
| MissingDecision (rule_index : nat)
| AllowDecisionNotAllowed (rule_index : nat).

(** [Iterator::enumerate]. *)
Definition enumerate {A : Type} (l : list A) : list (nat * A) := imap pair l.

(** [parse_pattern_token] of the requirements. *)
Definition requirements_pattern_token (rule_index : nat)
    (indexed : nat * RequirementsExecPolicyPatternTokenToml)
  : RequirementsExecPolicyParseError + PatternToken :=
  let (token_index, token) := indexed in
  let invalid reason := inl (InvalidPatternToken rule_index token_index reason) in
  match pt_token token, pt_any_of token with
  | Some single, None =>
      if is_blank single then invalid "token cannot be empty" else inr (Single single)
  | None, Some [] => invalid "any_of cannot be empty"
  | None, Some alternatives =>
      if existsb is_blank alternatives then invalid "any_of cannot include empty tokens"
      else inr (Alts alternatives)
  | Some _, Some _ => invalid "set either token or any_of, not both"
  | None, None => invalid "set either token or any_of"
  end.

(** One rule of the requirements is one rule per alternative of its first
    token. *)
Definition requirements_rule (rules_by_program : gmap string (list PrefixRule))
    (indexed : nat * RequirementsExecPolicyPrefixRuleToml)
  : RequirementsExecPolicyParseError + gmap string (list PrefixRule) :=
  let (rule_index, rule) := indexed in
  if empty_justification (tr_justification rule) then inl (EmptyJustification rule_index)
  else if bool_decide (length (tr_pattern rule) = 0) then inl (EmptyPattern rule_index) else
  let? pattern_tokens :=
    collect (requirements_pattern_token rule_index) (enumerate (tr_pattern rule)) in
  let? decision :=
    match tr_decision rule with
    | Some TomlAllow => inl (AllowDecisionNotAllowed rule_index)
    | Some decision => inr (as_decision decision)
    | None => inl (MissingDecision rule_index)
    end in
  match pattern_tokens with
  | [] => inl (EmptyPattern rule_index)
  | first_token :: rest =>
      inr (foldl (λ m head,
             multi_insert head (rule_with_head rest decision (tr_justification rule) head) m)
             rules_by_program (alternatives first_token))
  end.

Definition to_policy (toml : RequirementsExecPolicyToml)
  : RequirementsExecPolicyParseError + Policy :=
  if bool_decide (length (prefix_rules toml) = 0) then inl EmptyPrefixRules else
  let? rules_by_program := try_fold requirements_rule ∅ (enumerate (prefix_rules toml)) in
  inr (Policy_new rules_by_program).
