(* ===== verification/ExecApproval.v ===== *)
(** * core: approval of commands by the execution policy

    [exec_policy.rs] of [codex-rs/core], on Unix: which commands a tool call
    runs, the decision for each of them, the approval requirement, the
    amendments a client may accept, and loading and amending the policy.  The
    configuration layers are those of [codex-rs/config].  Updates are
    serialized by a semaphore, so one update is one function of the state. *)

From S2P Require Import Prelude RustStr FsModel ShellCommand ExecFs ExecPolicy PolicyFile.
From S2P Require Import Permissions SandboxRoots Profiles.

(** ** Settings of a turn (codex-rs/protocol) *)

Record GranularApprovalConfig := {
  sandbox_approval : bool;
  rules_approval : bool;
  skill_approval : bool;
  request_permissions : bool;
  mcp_elicitations : bool
}.

Inductive AskForApproval :=
| UnlessTrusted | OnFailure | OnRequest | Granular (config : GranularApprovalConfig) | Never.

#[global] Instance GranularApprovalConfig_eq_dec : EqDecision GranularApprovalConfig.
Proof. solve_decision. Defined.
#[global] Instance AskForApproval_eq_dec : EqDecision AskForApproval.
Proof. solve_decision. Defined.

Inductive SandboxPermissions := UseDefault | RequireEscalated | WithAdditionalPermissions.

Definition requests_sandbox_override (p : SandboxPermissions) : bool :=
  match p with UseDefault => false | _ => true end.

Record ExecPolicyAmendment := { am_command : list string }.

Inductive ExecApprovalRequirement :=
| Skip (bypass_sandbox : bool) (proposed_execpolicy_amendment : option ExecPolicyAmendment)
| NeedsApproval (reason : option string)
    (proposed_execpolicy_amendment : option ExecPolicyAmendment)
| ForbiddenRequirement (reason : string).

Definition proposed_execpolicy_amendment (r : ExecApprovalRequirement)
  : option ExecPolicyAmendment :=
  match r with
  | NeedsApproval _ prefix | Skip _ prefix => prefix
  | ForbiddenRequirement _ => None
  end.

(** ** Prompts *)

Definition PROMPT_CONFLICT_REASON : string :=
  "approval required by policy, but AskForApproval is set to Never".
Definition REJECT_SANDBOX_APPROVAL_REASON : string :=
  "approval required by policy, but AskForApproval::Granular.sandbox_approval is false".
Definition REJECT_RULES_APPROVAL_REASON : string :=
  "approval required by policy rule, but AskForApproval::Granular.rules is false".

Definition prompt_is_rejected_by_policy (approval_policy : AskForApproval)
    (prompt_is_rule : bool) : option string :=
  match approval_policy with
  | Never => Some PROMPT_CONFLICT_REASON
  | OnFailure | OnRequest | UnlessTrusted => None
  | Granular config =>
      if prompt_is_rule then
        if negb (rules_approval config) then Some REJECT_RULES_APPROVAL_REASON else None
      else if negb (sandbox_approval config) then Some REJECT_SANDBOX_APPROVAL_REASON
      else None
  end.

(** ** Commands without a rule *)

Record UnmatchedCommandContext := {
  uc_approval_policy : AskForApproval;
  uc_permission_profile : PermissionProfile;
  uc_file_system_sandbox_policy : FileSystemSandboxPolicy;
  uc_sandbox_permissions : SandboxPermissions;
  uc_used_complex_parsing : bool
}.

(** [cfg!(windows) && ...]. *)
Definition environment_lacks_sandbox_protections : bool := false.

Definition restricted_decision (kind : FileSystemSandboxKind) (permissions : SandboxPermissions)
  : Decision :=
  match kind with
  | Unrestricted | ExternalSandbox => Allow
  | Restricted => if requests_sandbox_override permissions then Prompt else Allow
  end.

Section approval.
Context `{ShellParsers} `{ProcessEnv} `{PolicyText}.

Definition render_decision_for_unmatched_command (command : list string)
    (context : UnmatchedCommandContext) : Decision :=
  let approval_policy := uc_approval_policy context in
  if is_known_safe_command command && negb (uc_used_complex_parsing context)
     && (bool_decide (approval_policy = UnlessTrusted) || environment_lacks_sandbox_protections)
  then Allow
  else if command_might_be_dangerous command || environment_lacks_sandbox_protections then
    match approval_policy with
    | Never =>
        match uc_permission_profile context with
        | Disabled | External _ => Allow
        | Managed _ _ => Forbidden
        end
    | _ => Prompt
    end
  else
    match approval_policy with
    | Never | OnFailure => Allow
    | UnlessTrusted => Prompt
    | OnRequest | Granular _ =>
        restricted_decision (policy_kind (uc_file_system_sandbox_policy context))
          (uc_sandbox_permissions context)
    end.

(** ** The commands of a tool call *)

Record ExecPolicyCommands := {
  ec_commands : list (list string);
  ec_used_complex_parsing : bool
}.

Definition commands_for_exec_policy (command : list string) : ExecPolicyCommands :=
  match parse_shell_lc_plain_commands command with
  | Some ((_ :: _) as commands) =>
      {| ec_commands := commands; ec_used_complex_parsing := false |}
  | _ =>
      match parse_shell_lc_single_command_prefix command with
      | Some single_command =>
          {| ec_commands := [single_command]; ec_used_complex_parsing := true |}
      | None => {| ec_commands := [command]; ec_used_complex_parsing := false |}
      end
  end.

(** ** Amendments *)

Definition BANNED_PREFIX_SUGGESTIONS : list (list string) :=
  [["python3"]; ["python3"; "-"]; ["python3"; "-c"]; ["python"]; ["python"; "-"];
   ["python"; "-c"]; ["py"]; ["py"; "-3"]; ["pythonw"]; ["pyw"]; ["pypy"]; ["pypy3"]; ["git"];
   ["bash"]; ["bash"; "-lc"]; ["sh"]; ["sh"; "-c"]; ["sh"; "-lc"]; ["zsh"]; ["zsh"; "-lc"];
   ["/bin/zsh"]; ["/bin/zsh"; "-lc"]; ["/bin/bash"]; ["/bin/bash"; "-lc"]; ["pwsh"];
   ["pwsh"; "-Command"]; ["pwsh"; "-c"]; ["powershell"]; ["powershell"; "-Command"];
   ["powershell"; "-c"]; ["powershell.exe"]; ["powershell.exe"; "-Command"];
   ["powershell.exe"; "-c"]; ["env"]; ["sudo"]; ["node"]; ["node"; "-e"]; ["perl"];
   ["perl"; "-e"]; ["ruby"]; ["ruby"; "-e"]; ["php"]; ["php"; "-r"]; ["lua"]; ["lua"; "-e"];
   ["osascript"]].

Definition is_rule_with (d : Decision) (m : RuleMatch) : bool :=
  is_policy_match m && bool_decide (match_decision m = d).

(** The command of the first heuristic match with decision [d]. *)
Definition heuristic_command (d : Decision) (m : RuleMatch) : option (list string) :=
  match m with
  | HeuristicsRuleMatch command d' => if bool_decide (d' = d) then Some command else None
  | PrefixRuleMatch _ _ _ _ => None
  end.
Definition first_heuristic (d : Decision) (l : list RuleMatch) : option ExecPolicyAmendment :=
  (λ command, {| am_command := command |}) <$> head (omap (heuristic_command d) l).

Definition try_derive_execpolicy_amendment_for_prompt_rules (matched_rules : list RuleMatch)
  : option ExecPolicyAmendment :=
  if existsb (is_rule_with Prompt) matched_rules then None
  else first_heuristic Prompt matched_rules.

Definition try_derive_execpolicy_amendment_for_allow_rules (matched_rules : list RuleMatch)
  : option ExecPolicyAmendment :=
  if existsb is_policy_match matched_rules then None
  else first_heuristic Allow matched_rules.

Definition approves (e : option Evaluation) : bool :=
  match e with Some e => bool_decide (ev_decision e = Allow) | None => false end.

Definition prefix_rule_would_approve_all_commands (exec_policy : Policy)
    (prefix_rule : list string) (commands : list (list string))
    (exec_policy_fallback : list string → Decision) (match_options : MatchOptions) : bool :=
  match add_prefix_rule prefix_rule Allow exec_policy with
  | inl _ => false
  | inr policy_with_prefix_rule =>
      forallb (λ command,
        approves (check_with_options policy_with_prefix_rule command exec_policy_fallback
                    match_options)) commands
  end.

Definition derive_requested_execpolicy_amendment_from_prefix_rule
    (prefix_rule : option (list string)) (matched_rules : list RuleMatch) (exec_policy : Policy)
    (commands : list (list string)) (exec_policy_fallback : list string → Decision)
    (match_options : MatchOptions) : option ExecPolicyAmendment :=
  prefix_rule ← prefix_rule;
  if bool_decide (prefix_rule = []) then None
  else if bool_decide (prefix_rule ∈ BANNED_PREFIX_SUGGESTIONS) then None
  else if existsb is_policy_match matched_rules then None
  else if prefix_rule_would_approve_all_commands exec_policy prefix_rule commands
            exec_policy_fallback match_options
  then Some {| am_command := prefix_rule |} else None.

(** ** Reasons *)

Definition render_shlex_command (args : list string) : string :=
  default (join_with " " args) (shlex_try_join args).

(** [max_by_key]: the last of the greatest. *)
Definition longest (l : list (list string * option string))
  : option (list string * option string) :=
  match l with
  | [] => None
  | x :: l' =>
      Some (foldl (λ best y, if length (fst best) <=? length (fst y) then y else best) x l')
  end.

Definition rule_prefix (d : Decision) (m : RuleMatch) : option (list string * option string) :=
  match m with
  | PrefixRuleMatch matched_prefix d' _ justification =>
      if bool_decide (d' = d) then Some (matched_prefix, justification) else None
  | HeuristicsRuleMatch _ _ => None
  end.

Definition derive_prompt_reason (command_args : list string) (evaluation : Evaluation)
  : option string :=
  let command := render_shlex_command command_args in
  match longest (omap (rule_prefix Prompt) (matched_rules evaluation)) with
  | Some (_, Some justification) =>
      Some ("`" +:+ command +:+ "` requires approval: " +:+ justification)
  | Some (_, None) => Some ("`" +:+ command +:+ "` requires approval by policy")
  | None => None
  end.

Definition derive_forbidden_reason (command_args : list string) (evaluation : Evaluation)
  : string :=
  let command := render_shlex_command command_args in
  match longest (omap (rule_prefix Forbidden) (matched_rules evaluation)) with
  | Some (_, Some justification) => "`" +:+ command +:+ "` rejected: " +:+ justification
  | Some (matched_prefix, None) =>
      "`" +:+ command +:+ "` rejected: policy forbids commands starting with `"
      +:+ render_shlex_command matched_prefix +:+ "`"
  | None => "`" +:+ command +:+ "` rejected: blocked by policy"
  end.

(** ** The requirement for a command *)

Record ExecApprovalRequest := {
  rq_command : list string;
  rq_approval_policy : AskForApproval;
  rq_permission_profile : PermissionProfile;
  rq_file_system_sandbox_policy : FileSystemSandboxPolicy;
  rq_sandbox_permissions : SandboxPermissions;
  rq_prefix_rule : option (list string)
}.

Definition exec_policy_fallback (req : ExecApprovalRequest) (used_complex_parsing : bool)
    (cmd : list string) : Decision :=
  render_decision_for_unmatched_command cmd
    {| uc_approval_policy := rq_approval_policy req;
       uc_permission_profile := rq_permission_profile req;
       uc_file_system_sandbox_policy := rq_file_system_sandbox_policy req;
       uc_sandbox_permissions := rq_sandbox_permissions req;
       uc_used_complex_parsing := used_complex_parsing |}.

Definition match_options : MatchOptions := {| resolve_host_executables := true |}.

(** Every command segment is explicitly allowed by a rule. *)
Definition bypasses_sandbox (exec_policy : Policy) (commands : list (list string)) : bool :=
  forallb (λ command,
    existsb (is_rule_with Allow)
      (matches_for_command_with_options exec_policy command None match_options)) commands.

Definition requirement_of (req : ExecApprovalRequest) (exec_policy : Policy)
    (c : ExecPolicyCommands) (evaluation : Evaluation) : ExecApprovalRequirement :=
  let auto_amendment_allowed := negb (ec_used_complex_parsing c) in
  let requested_amendment :=
    if auto_amendment_allowed then
      derive_requested_execpolicy_amendment_from_prefix_rule (rq_prefix_rule req)
        (matched_rules evaluation) exec_policy (ec_commands c)
        (exec_policy_fallback req (ec_used_complex_parsing c)) match_options
    else None in
  match ev_decision evaluation with
  | Forbidden => ForbiddenRequirement (derive_forbidden_reason (rq_command req) evaluation)
  | Prompt =>
      let prompt_is_rule := existsb (is_rule_with Prompt) (matched_rules evaluation) in
      match prompt_is_rejected_by_policy (rq_approval_policy req) prompt_is_rule with
      | Some reason => ForbiddenRequirement reason
      | None =>
          NeedsApproval (derive_prompt_reason (rq_command req) evaluation)
            match requested_amendment with
            | Some a => Some a
            | None =>
                if auto_amendment_allowed
                then try_derive_execpolicy_amendment_for_prompt_rules (matched_rules evaluation)
                else None
            end
      end
  | Allow =>
      Skip (bypasses_sandbox exec_policy (ec_commands c))
        (if auto_amendment_allowed
         then try_derive_execpolicy_amendment_for_allow_rules (matched_rules evaluation)
         else None)
  end.

Definition create_exec_approval_requirement_for_command (exec_policy : Policy)
    (req : ExecApprovalRequest) : option ExecApprovalRequirement :=
  let c := commands_for_exec_policy (rq_command req) in
  evaluation ← check_multiple_with_options exec_policy (ec_commands c)
    (exec_policy_fallback req (ec_used_complex_parsing c)) match_options;
  Some (requirement_of req exec_policy c evaluation).

(** ** Amending the policy *)

Definition RULES_DIR_NAME : string := "rules".
Definition RULE_EXTENSION : string := "rules".
Definition DEFAULT_POLICY_FILE : string := "default.rules".

Definition default_policy_path (codex_home : path) : path :=
  join (join codex_home RULES_DIR_NAME) DEFAULT_POLICY_FILE.

Inductive ExecPolicyUpdateError :=
| AppendRule (p : path) (source : AmendError)
| AddRule (source : PolicyError).

(** The files and the policy of [ExecPolicyManager]. *)
Record policy_state := { st_fs : fsys; st_policy : Policy }.

Definition already_allowed (current_policy : Policy) (prefix : list string) : bool :=
  match check_multiple_with_options current_policy [prefix] (λ _, Forbidden) match_options with
  | Some e =>
      bool_decide (ev_decision e = Allow) && existsb (is_rule_with Allow) (matched_rules e)
  | None => false
  end.

Definition append_amendment_and_update (codex_home : path) (amendment : ExecPolicyAmendment)
    (s : policy_state) : (ExecPolicyUpdateError + unit) * policy_state :=
  let policy_path := default_policy_path codex_home in
  let prefix := am_command amendment in
  let (r, fs) := blocking_append_allow_prefix_rule policy_path prefix (st_fs s) in
  let s := {| st_fs := fs; st_policy := st_policy s |} in
  match r with
  | inl e => (inl (AppendRule policy_path e), s)
  | inr _ =>
      if already_allowed (st_policy s) prefix then (inr tt, s)
      else
        match add_prefix_rule prefix Allow (st_policy s) with
        | inl e => (inl (AddRule e), s)
        | inr updated_policy => (inr tt, {| st_fs := fs; st_policy := updated_policy |})
        end
  end.

Definition append_network_rule_and_update (codex_home : path) (host : string)
    (protocol : NetworkRuleProtocol) (decision : Decision) (justification : option string)
    (s : policy_state) : (ExecPolicyUpdateError + unit) * policy_state :=
  let policy_path := default_policy_path codex_home in
  let (r, fs) := blocking_append_network_rule policy_path host protocol decision justification
                   (st_fs s) in
  let s := {| st_fs := fs; st_policy := st_policy s |} in
  match r with
  | inl e => (inl (AppendRule policy_path e), s)
  | inr _ =>
      match add_network_rule host protocol decision justification (st_policy s) with
      | inl e => (inl (AddRule e), s)
      | inr updated_policy => (inr tt, {| st_fs := fs; st_policy := updated_policy |})
      end
  end.

(** ** Loading the policy *)

Inductive ConfigLayerSource :=
| Mdm (domain key : string)
| System (file : path)
| User (file : path) (profile : option string)
| Project (dot_codex_folder : path)
| SessionFlags
| LegacyManagedConfigTomlFromFile (file : path)
| LegacyManagedConfigTomlFromMdm.

Record ConfigLayerEntry := { layer_name : ConfigLayerSource; disabled_reason : option string }.

Definition config_folder (l : ConfigLayerEntry) : option path :=
  match layer_name l with
  | System file => abs_parent file
  | User file _ => abs_parent file
  | Project dot_codex_folder => Some dot_codex_folder
  | _ => None
  end.

(** The requirements of the stack hold the policy an administrator imposes. *)
Record ConfigLayerStack := {
  stack_layers : list ConfigLayerEntry;
  ignore_user_and_project_exec_policy_rules : bool;
  requirements_exec_policy : option Policy
}.

(** [get_layers(LowestPrecedenceFirst, include_disabled: false)]. *)
Definition enabled_layers (s : ConfigLayerStack) : list ConfigLayerEntry :=
  List.filter (λ l, match disabled_reason l with None => true | Some _ => false end)
    (stack_layers s).

Inductive ExecPolicyError :=
| ReadDir (dir : path) (source : io_kind)
| ReadFile (p : path) (source : io_kind)
| ParsePolicy (p : string) (source : PolicyError).

(** [path.extension() == "rules"]. *)
Definition has_rule_extension (name : string) : bool :=
  match strip_suffix ("." +:+ RULE_EXTENSION) name with
  | Some stem => negb (String.eqb stem "")
  | None => false
  end.

Definition collect_policy_files (dir : path) (fs : fsys) : ExecPolicyError + list path :=
  match fs_read_dir fs dir with
  | inl NotFound => inr []
  | inl k => inl (ReadDir dir k)
  | inr names =>
      let? found := try_fold (λ acc name,
        match lstat fs (dir ++ [name]) with
        | inl k => inl (ReadDir dir k)
        | inr file_type =>
            inr (match has_rule_extension name, file_type with
                 | true, File _ => acc ++ [name]
                 | _, _ => acc
                 end)
        end) [] names in
      inr (map (λ name, dir ++ [name]) (merge_sort String.le found))
  end.

Definition is_user_or_project (l : ConfigLayerEntry) : bool :=
  match layer_name l with User _ _ | Project _ => true | _ => false end.

Definition layer_policy_paths (s : ConfigLayerStack) (fs : fsys) (policy_paths : list path)
    (layer : ConfigLayerEntry) : ExecPolicyError + list path :=
  if ignore_user_and_project_exec_policy_rules s && is_user_or_project layer
  then inr policy_paths
  else
    match config_folder layer with
    | Some folder =>
        let? found := collect_policy_files (join folder RULES_DIR_NAME) fs in
        inr (policy_paths ++ found)
    | None => inr policy_paths
    end.

Definition parse_policy_file (fs : fsys) (b : PolicyBuilder) (policy_path : path)
  : ExecPolicyError + PolicyBuilder :=
  match fs_read_to_string fs policy_path with
  | inl k => inl (ReadFile policy_path k)
  | inr contents =>
      let identifier := display policy_path in
      match parse_policy identifier contents b with
      | (inl source, _) => inl (ParsePolicy identifier source)
      | (inr _, b') => inr b'
      end
  end.

Definition load_exec_policy (config_stack : ConfigLayerStack) (fs : fsys)
  : ExecPolicyError + Policy :=
  let? policy_paths :=
    try_fold (layer_policy_paths config_stack fs) [] (enabled_layers config_stack) in
  let? builder := try_fold (parse_policy_file fs) PolicyBuilder_new policy_paths in
  let policy := build builder in
  inr match requirements_exec_policy config_stack with
      | None => policy
      | Some requirements_policy => merge_overlay policy requirements_policy
      end.

Definition load_exec_policy_with_warning (config_stack : ConfigLayerStack) (fs : fsys)
  : ExecPolicyError + (Policy * option ExecPolicyError) :=
  match load_exec_policy config_stack fs with
  | inr policy => inr (policy, None)
  | inl (ParsePolicy p source) => inr (Policy_empty, Some (ParsePolicy p source))
  | inl e => inl e
  end.

Definition check_execpolicy_for_warnings (config_stack : ConfigLayerStack) (fs : fsys)
  : ExecPolicyError + option ExecPolicyError :=
  let? (_, warning) := load_exec_policy_with_warning config_stack fs in inr warning.
End approval.
