(* ===== verification/ExecPolicyProps.v ===== *)
(** * execpolicy: what evaluation decides

    The rules that apply to a command, as a relation, and the evaluation of
    commands against it: the strictest decision of the applicable rules, or of
    the heuristics for a command without one. *)

From S2P Require Import Prelude RustStr FsModel ExecFs ExecPolicy PolicyFile.

(** ** Patterns *)

(** The arguments a pattern takes, token by token, and the rest. *)
Definition rule_takes (r : PrefixRule) (cmd args : list string) : Prop :=
  ∃ rest, cmd = rule_program r :: args ++ rest ∧
    Forall2 (λ t w, w ∈ alternatives t) (pat_rest (pr_pattern r)) args.
Definition rule_accepts (r : PrefixRule) (cmd : list string) : Prop := ∃ args, rule_takes r cmd args.

Lemma token_matches_spec t w : token_matches t w = true ↔ w ∈ alternatives t.
Proof.
  destruct t as [e|l]; simpl.
  - rewrite String.eqb_eq, list_elem_of_singleton. naive_solver.
  - rewrite existsb_exists_elem. setoid_rewrite String.eqb_eq. naive_solver.
Qed.

Lemma tokens_match_spec ts ws :
  length ts = length ws →
  (forallb (λ '(t, w), token_matches t w) (zip ts ws) = true ↔
   Forall2 (λ t w, w ∈ alternatives t) ts ws).
Proof.
  revert ws. induction ts as [|t ts IH]; intros [|w ws] L; simplify_eq/=.
  - done.
  - rewrite andb_true_iff, token_matches_spec, (IH ws) by lia. split.
    + intros [? ?]. by constructor.
    + inversion 1. done.
Qed.

Lemma rule_takes_eq r cmd args :
  rule_takes r cmd args ↔
  length (pat_rest (pr_pattern r)) < length cmd ∧ cmd !! 0 = Some (rule_program r) ∧
  args = take (length (pat_rest (pr_pattern r))) (drop 1 cmd) ∧
  Forall2 (λ t w, w ∈ alternatives t) (pat_rest (pr_pattern r)) args.
Proof.
  split.
  - intros (rest & -> & F). pose proof (Forall2_length _ _ _ F) as L. simpl.
    rewrite drop_0, L, take_app_length, length_app. split_and!; [lia|done..].
  - intros (L & E & -> & F). destruct cmd as [|x cmd]; simplify_eq/=. rewrite drop_0 in F |- *.
    exists (drop (length (pat_rest (pr_pattern r))) cmd). by rewrite take_drop.
Qed.

Lemma rule_matches_Some cmd r m :
  rule_matches cmd r = Some m ↔
  ∃ args, rule_takes r cmd args ∧
    m = PrefixRuleMatch (rule_program r :: args) (pr_decision r) None (pr_justification r).
Proof.
  unfold rule_matches, matches_prefix, rule_program. setoid_rewrite rule_takes_eq.
  destruct r as [[first ts] d j]; simpl. rewrite Nat.add_sub.
  destruct (Nat.ltb_spec (length cmd) (length ts + 1)) as [L|L]; simpl.
  { split; [done|]. intros (args & (? & _) & _). lia. }
  destruct (bool_decide_reflect (cmd !! 0 = Some first)) as [E|E]; simpl.
  2:{ split; [done|]. intros (args & (_ & ? & _) & _). done. }
  destruct cmd as [|x cmd]; simplify_eq/=. rewrite drop_0.
  assert (Hl : length ts = length (take (length ts) cmd)) by (rewrite length_take; lia).
  pose proof (tokens_match_spec ts (take (length ts) cmd) Hl) as T.
  destruct (forallb _ _); simpl.
  - rewrite Nat.add_1_r; simpl. split.
    + intros [= <-]. eexists. split; [|done]. split_and!; [lia|done|done|by apply T].
    + intros (args & (_ & _ & -> & _) & ->). done.
  - split; [done|]. intros (args & (_ & _ & -> & F) & _). by apply T in F.
Qed.

Lemma omap_rule_matches cmd (rules : list PrefixRule) (m : RuleMatch) :
  m ∈ omap (rule_matches cmd) rules ↔
  ∃ r args, r ∈ rules ∧ rule_takes r cmd args ∧
    m = PrefixRuleMatch (rule_program r :: args) (pr_decision r) None (pr_justification r).
Proof.
  rewrite list_elem_of_omap. setoid_rewrite rule_matches_Some. naive_solver.
Qed.

(** ** The rules that apply to a command *)

Section applies.
Context `{ProcessEnv}.

Definition rules_of (p : Policy) (program : string) : list PrefixRule :=
  default [] (rules_by_program p !! program).

(** Filed under the first word of the command, which it accepts. *)
Definition applies_exactly (p : Policy) (cmd : list string) (r : PrefixRule) : Prop :=
  ∃ first, head cmd = Some first ∧ r ∈ rules_of p first ∧ rule_accepts r cmd.

(** The first word names an executable with the name [name], which the policy
    does not restrict to other paths. *)
Definition names_host_executable (p : Policy) (word name : string) : Prop :=
  ∃ program, from_absolute_path env_home env_current_dir word = Some program ∧
    file_name program = Some name ∧
    (∀ paths, host_executables_by_name p !! name = Some paths → program ∈ paths).

Definition applies_to_host (p : Policy) (cmd : list string) (r : PrefixRule) : Prop :=
  ∃ first name, head cmd = Some first ∧ names_host_executable p first name ∧
    r ∈ rules_of p name ∧ rule_accepts r (name :: tail cmd).

Definition applies (p : Policy) (options : MatchOptions) (cmd : list string) (r : PrefixRule)
  : Prop :=
  applies_exactly p cmd r ∨
  resolve_host_executables options = true ∧ (∀ r', ¬ applies_exactly p cmd r') ∧
  applies_to_host p cmd r.

Lemma exact_matches p cmd m :
  m ∈ default [] (match_exact_rules p cmd) ↔
  ∃ r args, applies_exactly p cmd r ∧ rule_takes r cmd args ∧
    m = PrefixRuleMatch (rule_program r :: args) (pr_decision r) None (pr_justification r).
Proof.
  unfold match_exact_rules, applies_exactly, rules_of. destruct cmd as [|x cmd]; simpl.
  { split; [by intros ?%elem_of_nil|]. naive_solver. }
  rewrite omap_rule_matches. unfold rule_accepts. naive_solver.
Qed.

Local Ltac no_match :=
  split; [by intros ?%elem_of_nil|];
  intros (? & ? & ? & ? & ? & ? & ? & ? & Hpaths & Hrule & ? & ?); simplify_eq/=;
  try (match goal with E : _ = None |- _ => rewrite E in Hrule end;
       by apply elem_of_nil in Hrule).

Lemma host_matches p cmd m :
  m ∈ match_host_executable_rules p cmd ↔
  ∃ r args first name program, head cmd = Some first ∧
    from_absolute_path env_home env_current_dir first = Some program ∧
    file_name program = Some name ∧
    (∀ paths, host_executables_by_name p !! name = Some paths → program ∈ paths) ∧
    r ∈ rules_of p name ∧ rule_takes r (name :: tail cmd) args ∧
    m = PrefixRuleMatch (rule_program r :: args) (pr_decision r) (Some program)
          (pr_justification r).
Proof.
  unfold match_host_executable_rules, executable_path_lookup_key, executable_lookup_key, rules_of.
  destruct (head cmd) as [first|]; [|no_match].
  destruct (from_absolute_path _ _ first) as [program|] eqn:Ea; [|no_match].
  destruct (file_name program) as [name|] eqn:En; simpl; [|no_match].
  destruct (rules_by_program p !! name) as [rules|] eqn:Er; [|no_match].
  assert (Hp : match host_executables_by_name p !! name with
               | Some paths => negb (bool_decide (program ∈ paths)) | None => false end = false
               ↔ ∀ paths, host_executables_by_name p !! name = Some paths → program ∈ paths).
  { destruct (host_executables_by_name p !! name) as [paths|]; [|naive_solver].
    rewrite negb_false_iff, bool_decide_eq_true. naive_solver. }
  destruct (match host_executables_by_name p !! name with
            | Some paths => negb (bool_decide (program ∈ paths)) | None => false end).
  { no_match. by apply Hp in Hpaths. }
  rewrite list_elem_of_fmap. setoid_rewrite omap_rule_matches. split.
  - intros (m' & -> & r & args & Hr & Ht & ->). exists r, args, first, name, program.
    rewrite Er. split_and!; try done. by apply Hp.
  - intros (r & args & ? & ? & ? & ? & ? & ? & ? & Hr & Ht & ->). simplify_eq/=.
    rewrite Er in Hr. eexists. split; [|exists r, args; split_and!; done]. done.
Qed.

(** ** The matches of a command *)

Definition policy_matches (p : Policy) (options : MatchOptions) (cmd : list string)
  : list RuleMatch := matches_for_command_with_options p cmd None options.

Lemma exact_nil p cmd :
  default [] (match_exact_rules p cmd) = [] ↔ ∀ r, ¬ applies_exactly p cmd r.
Proof.
  split.
  - intros E r A. pose proof A as (? & _ & _ & args & Ht).
    assert (M : PrefixRuleMatch (rule_program r :: args) (pr_decision r) None
                  (pr_justification r) ∈ default [] (match_exact_rules p cmd))
      by (apply exact_matches; eauto).
    rewrite E in M. by apply elem_of_nil in M.
  - intros N. apply elem_of_nil_inv. intros m (r & _ & A & _)%exact_matches. by apply (N r).
Qed.

Lemma policy_matches_eq p options cmd :
  policy_matches p options cmd =
    match default [] (match_exact_rules p cmd) with
    | [] => if resolve_host_executables options then match_host_executable_rules p cmd else []
    | l => l
    end.
Proof.
  unfold policy_matches, matches_for_command_with_options.
  destruct (match_exact_rules p cmd) as [[|]|]; simpl; [|done|];
    destruct (resolve_host_executables options); try done;
    by destruct (match_host_executable_rules p cmd).
Qed.

Lemma matches_fallback p options cmd fb :
  matches_for_command_with_options p cmd (Some fb) options =
    match policy_matches p options cmd with
    | [] => [HeuristicsRuleMatch cmd (fb cmd)]
    | l => l
    end.
Proof.
  unfold policy_matches, matches_for_command_with_options.
  by destruct (non_empty _), (resolve_host_executables options);
    simpl; repeat case_one.
Qed.

Lemma policy_matches_applies p options cmd m :
  m ∈ policy_matches p options cmd →
  ∃ r, applies p options cmd r ∧ match_decision m = pr_decision r ∧ is_policy_match m = true.
Proof.
  rewrite policy_matches_eq. destruct (default [] (match_exact_rules p cmd)) as [|m0 l] eqn:E.
  - destruct (resolve_host_executables options) eqn:Eo; [|by intros ?%elem_of_nil].
    intros (r & args & first & name & program & Hh & Ha & Hn & Hp & Hr & Ht & ->)%host_matches.
    exists r. split; [|done]. right. split; [done|]. split; [by apply exact_nil|].
    exists first, name. unfold names_host_executable, rule_accepts. eauto 10.
  - rewrite <- E. intros (r & args & A & Ht & ->)%exact_matches. exists r. split; [by left|done].
Qed.

Lemma applies_policy_matches p options cmd r :
  applies p options cmd r →
  ∃ m, m ∈ policy_matches p options cmd ∧ match_decision m = pr_decision r.
Proof.
  rewrite policy_matches_eq. intros [A|(Eo & N & A)].
  - pose proof A as (? & _ & _ & args & Ht).
    exists (PrefixRuleMatch (rule_program r :: args) (pr_decision r) None (pr_justification r)).
    split; [|done].
    assert (M : PrefixRuleMatch (rule_program r :: args) (pr_decision r) None
                  (pr_justification r) ∈ default [] (match_exact_rules p cmd))
      by (apply exact_matches; eauto).
    destruct (default [] _); [by apply elem_of_nil in M|done].
  - apply exact_nil in N. rewrite N, Eo.
    destruct A as (first & name & Hh & (program & Ha & Hn & Hp) & Hr & args & Ht).
    eexists. split; [apply host_matches; exists r, args, first, name, program; by split_and!|done].
Qed.

Lemma policy_matches_nil p options cmd :
  policy_matches p options cmd = [] ↔ ∀ r, ¬ applies p options cmd r.
Proof.
  split.
  - intros E r (m & M & _)%applies_policy_matches. rewrite E in M. by apply elem_of_nil in M.
  - intros N. apply elem_of_nil_inv. intros m (r & A & _)%policy_matches_applies. by apply (N r).
Qed.

(** ** Decisions *)

(** What one command contributes: the decisions of the rules that apply to it,
    or that of the heuristics. *)
Definition contributes (p : Policy) (options : MatchOptions) (fb : list string → Decision)
    (cmd : list string) (d : Decision) : Prop :=
  (∃ r, applies p options cmd r ∧ pr_decision r = d) ∨
  (∀ r, ¬ applies p options cmd r) ∧ fb cmd = d.

Lemma contributes_matches p options fb cmd d :
  contributes p options fb cmd d ↔
  ∃ m, m ∈ matches_for_command_with_options p cmd (Some fb) options ∧ match_decision m = d.
Proof.
  rewrite matches_fallback. unfold contributes. rewrite <- policy_matches_nil.
  destruct (policy_matches p options cmd) as [|m0 l] eqn:E.
  - setoid_rewrite list_elem_of_singleton. split; [|naive_solver].
    intros [(r & (m & M & _)%applies_policy_matches & _)|[_ <-]]; [|by eexists].
    rewrite E in M. by apply elem_of_nil in M.
  - rewrite <- E. split.
    + intros [(r & (m & M & Hd)%applies_policy_matches & <-)|[? _]]; [eauto|congruence].
    + intros (m & (r & A & Hd & _)%policy_matches_applies & <-). left. exists r.
      by rewrite Hd.
Qed.

Lemma severity_inj d d' : severity d = severity d' → d = d'.
Proof. by destruct d, d'. Qed.

(** The greatest element of a non-empty list of decisions. *)
Lemma foldl_max_spec ds : ∀ d x,
  severity x ≤ severity (foldl decision_max d ds) ↔ ∃ y, y ∈ d :: ds ∧ severity x ≤ severity y.
Proof.
  induction ds as [|y ds IH]; intros d x; simpl.
  - setoid_rewrite list_elem_of_singleton. naive_solver.
  - rewrite IH. unfold decision_max.
    destruct (Nat.leb_spec (severity d) (severity y)); split; intros (z & Hz & Hs);
      rewrite ?elem_of_cons in Hz; destruct_or! Hz; subst.
    all: first
      [ solve [eexists; split; [|exact Hs]; rewrite !elem_of_cons; auto]
      | exists y; split; [left|lia] | exists d; split; [left|lia] ].
Qed.

Lemma from_matches_spec ms :
  match from_matches ms with
  | None => ms = []
  | Some e =>
      matched_rules e = ms ∧ ms ≠ [] ∧
      ∀ x, severity x ≤ severity (ev_decision e) ↔
        ∃ m, m ∈ ms ∧ severity x ≤ severity (match_decision m)
  end.
Proof.
  destruct ms as [|m ms]; [done|]. simpl. split; [done|]. split; [done|]. intros x.
  rewrite foldl_max_spec. change (match_decision m :: map match_decision ms)
    with (match_decision <$> (m :: ms)).
  setoid_rewrite list_elem_of_fmap. naive_solver.
Qed.

Lemma strictest (p : Policy) (commands : list (list string))
    (fb : list string → Decision) (options : MatchOptions) :
  match check_multiple_with_options p commands fb options with
  | None => commands = []
  | Some e =>
      commands ≠ [] ∧
      (∃ cmd, cmd ∈ commands ∧ contributes p options fb cmd (ev_decision e)) ∧
      (∀ cmd d, cmd ∈ commands → contributes p options fb cmd d →
         severity d ≤ severity (ev_decision e))
  end.
Proof.
  unfold check_multiple_with_options.
  set (f := λ command, matches_for_command_with_options p command (Some fb) options).
  pose proof (from_matches_spec (concat (map f commands))) as S.
  assert (C : ∀ d, (∃ m, m ∈ concat (map f commands) ∧ match_decision m = d) ↔
                   ∃ cmd, cmd ∈ commands ∧ contributes p options fb cmd d).
  { intros d. setoid_rewrite contributes_matches. setoid_rewrite elem_of_concat_map. naive_solver. }
  destruct (from_matches _) as [e|].
  - destruct S as (_ & N & S). split; [by intros ->|]. split.
    + apply C. destruct (proj1 (S (ev_decision e))) as (m & M & L); [done|].
      exists m. split; [done|]. apply severity_inj. apply Nat.le_antisymm; [|done].
      apply S. eauto.
    + intros cmd d Hc Hd. destruct (proj2 (C d)) as (m & M & <-); [eauto|]. apply S. eauto.
  - destruct commands as [|cmd commands]; [done|]. simpl in S. exfalso.
    apply app_eq_nil in S as [S _]. unfold f in S. rewrite matches_fallback in S.
    by destruct (policy_matches _ _ _).
Qed.
(** Evaluating several commands panics only when there is none of them;
    otherwise the decision is the strictest of the rules that apply to one of them
    and of the heuristics for those to which no rule applies. *)
Theorem strictest_decision (p : Policy) (commands : list (list string))
    (fb : list string → Decision) (options : MatchOptions) :
  match check_multiple_with_options p commands fb options with
  | None => commands = []
  | Some e =>
      commands ≠ [] ∧
      (∃ cmd, cmd ∈ commands ∧ contributes p options fb cmd (ev_decision e)) ∧
      (∀ cmd d, cmd ∈ commands → contributes p options fb cmd d →
         severity d ≤ severity (ev_decision e))
  end.
Proof. exact (strictest p commands fb options). Qed.
End applies.
