(* ===== verification/ApprovalProps.v ===== *)
(** * core: what the approval of a command guarantees

    When a command runs without a prompt, when it is refused, and what an
    accepted amendment changes. *)

From S2P Require Import Prelude RustStr FsModel ShellCommand ExecFs ExecPolicy PolicyFile.
From S2P Require Import Permissions SandboxRoots Profiles FsxProps PermFacts ExecApproval.
From S2P Require Import ExecPolicyProps.

Section approvals.
Context `{ShellParsers} `{ProcessEnv} `{PolicyText}.
Implicit Types (p : Policy) (req : ExecApprovalRequest) (cmd : list string).

(** ** Commands without a rule *)

(** The settings let a command run for which there is no rule. *)
Definition runs_without_rule (req : ExecApprovalRequest) (complex : bool) (cmd : list string)
  : Prop :=
  let dangerous := command_might_be_dangerous cmd = true in
  match rq_approval_policy req with
  | UnlessTrusted => is_known_safe_command cmd = true ∧ complex = false
  | OnFailure => ¬ dangerous
  | OnRequest | Granular _ =>
      ¬ dangerous ∧
      (policy_kind (rq_file_system_sandbox_policy req) = Restricted →
       rq_sandbox_permissions req = UseDefault)
  | Never => dangerous → enforcement (rq_permission_profile req) ≠ EnforcementManaged
  end.

Lemma fallback_allow req complex cmd :
  exec_policy_fallback req complex cmd = Allow ↔ runs_without_rule req complex cmd.
Proof.
  unfold exec_policy_fallback, render_decision_for_unmatched_command, runs_without_rule,
    environment_lacks_sandbox_protections, restricted_decision, requests_sandbox_override.
  destruct req as [? ap pp [sk ? ?] sp ?]; simpl. rewrite !orb_false_r.
  destruct ap, (is_known_safe_command cmd), complex, (command_might_be_dangerous cmd); simpl;
    destruct pp, sk, sp; naive_solver.
Qed.

Lemma fallback_forbidden req complex cmd :
  exec_policy_fallback req complex cmd = Forbidden →
  rq_approval_policy req = Never ∧ command_might_be_dangerous cmd = true ∧
  enforcement (rq_permission_profile req) = EnforcementManaged.
Proof.
  unfold exec_policy_fallback, render_decision_for_unmatched_command,
    environment_lacks_sandbox_protections, restricted_decision, requests_sandbox_override.
  destruct req as [? ap pp [sk ? ?] sp ?]; simpl. rewrite !orb_false_r.
  destruct ap, (is_known_safe_command cmd), complex, (command_might_be_dangerous cmd); simpl;
    destruct pp, sk, sp; naive_solver.
Qed.

(** Under [Never] the heuristics do not prompt. *)
Lemma fallback_never req complex cmd :
  rq_approval_policy req = Never → exec_policy_fallback req complex cmd ≠ Prompt.
Proof.
  unfold exec_policy_fallback, render_decision_for_unmatched_command,
    environment_lacks_sandbox_protections.
  destruct req as [? ap pp [sk ? ?] sp ?]; simpl. intros ->. rewrite !orb_false_r, andb_false_r.
  destruct (command_might_be_dangerous cmd); [by destruct pp|done].
Qed.

(** ** The requirement *)

Definition segments (req : ExecApprovalRequest) : list (list string) :=
  ec_commands (commands_for_exec_policy (rq_command req)).
Definition complex (req : ExecApprovalRequest) : bool :=
  ec_used_complex_parsing (commands_for_exec_policy (rq_command req)).

Lemma segments_cons req : segments req ≠ [].
Proof.
  unfold segments, commands_for_exec_policy. by repeat case_one.
Qed.

(** The decision [d] is that of a rule, or of the heuristics. *)
Abbreviation decides p req := (contributes p match_options (exec_policy_fallback req (complex req))).

Lemma evaluation_spec p req :
  ∃ e, check_multiple_with_options p (segments req) (exec_policy_fallback req (complex req))
         match_options = Some e ∧
    create_exec_approval_requirement_for_command p req =
      Some (requirement_of req p (commands_for_exec_policy (rq_command req)) e) ∧
    (∃ cmd, cmd ∈ segments req ∧ decides p req cmd (ev_decision e)) ∧
    (∀ cmd d, cmd ∈ segments req → decides p req cmd d → severity d ≤ severity (ev_decision e)).
Proof.
  unfold create_exec_approval_requirement_for_command.
  pose proof (strictest p (segments req) (exec_policy_fallback req (complex req)) match_options)
    as S. unfold segments, complex in *.
  destruct (check_multiple_with_options _ _ _ _) as [e|] eqn:E.
  - exists e. by destruct S as (_ & S1 & S2).
  - by apply segments_cons in S.
Qed.

Lemma decides_total p req cmd : ∃ d, decides p req cmd d.
Proof.
  unfold contributes. destruct (policy_matches p match_options cmd) as [|m l] eqn:E.
  - eexists. right. split; [by apply policy_matches_nil|done].
  - destruct (policy_matches_applies p match_options cmd m) as (r & A & _);
      [rewrite E; left|]. eexists. left. eauto.
Qed.

Lemma evaluation_allow p req e :
  (∃ cmd, cmd ∈ segments req ∧ decides p req cmd (ev_decision e)) →
  (∀ cmd d, cmd ∈ segments req → decides p req cmd d → severity d ≤ severity (ev_decision e)) →
  ev_decision e = Allow ↔ ∀ cmd d, cmd ∈ segments req → decides p req cmd d → d = Allow.
Proof.
  intros (cmd & Hc & Hd) Hm. split.
  - intros E cmd' d Hc' Hd'. specialize (Hm cmd' d Hc' Hd'). rewrite E in Hm.
    by destruct d; simpl in Hm; [|lia..].
  - eauto.
Qed.

Definition is_skip (r : ExecApprovalRequirement) : Prop :=
  match r with Skip _ _ => True | _ => False end.
Definition is_forbidden (r : ExecApprovalRequirement) : Prop :=
  match r with ForbiddenRequirement _ => True | _ => False end.

Lemma bypasses_spec p commands :
  bypasses_sandbox p commands = true ↔
  ∀ cmd, cmd ∈ commands → ∃ r, applies p match_options cmd r ∧ pr_decision r = Allow.
Proof.
  unfold bypasses_sandbox. rewrite forallb_forall. setoid_rewrite <- list_elem_of_In.
  apply forall_proper. intros cmd. change (matches_for_command_with_options p cmd None match_options)
    with (policy_matches p match_options cmd).
  rewrite existsb_exists_elem. unfold is_rule_with. split; intros Hx Hc; specialize (Hx Hc).
  - destruct Hx as (m & (r & A & Hd & _)%policy_matches_applies & [_ E]%andb_true_iff).
    exists r. split; [done|]. apply bool_decide_eq_true in E. congruence.
  - destruct Hx as (r & A & Hd). destruct (applies_policy_matches _ _ _ _ A) as (m & M & Hm).
    exists m. split; [done|]. destruct (policy_matches_applies _ _ _ _ M) as (? & _ & _ & ->).
    by rewrite Hm, Hd.
Qed.

(** C12: Every command gets an approval requirement. It is a skip exactly when every
    rule that applies to one of its segments allows it and every segment without a
    rule is one the settings let run; a skip outside the sandbox needs an allow rule
    for every segment. A segment with a forbidding rule is refused, and under the
    never-ask setting nothing needs approval. *)
Theorem approval_requirement_sound p req :
  ∃ r, create_exec_approval_requirement_for_command p req = Some r ∧
    (is_skip r ↔ ∀ cmd, cmd ∈ segments req →
       (∀ rule, applies p match_options cmd rule → pr_decision rule = Allow) ∧
       ((∀ rule, ¬ applies p match_options cmd rule) →
          runs_without_rule req (complex req) cmd)) ∧
    (∀ a, r = Skip true a → ∀ cmd, cmd ∈ segments req →
       ∃ rule, applies p match_options cmd rule ∧ pr_decision rule = Allow) ∧
    (∀ cmd rule, cmd ∈ segments req → applies p match_options cmd rule →
       pr_decision rule = Forbidden → is_forbidden r) ∧
    (rq_approval_policy req = Never → is_skip r ∨ is_forbidden r).
Proof.
  destruct (evaluation_spec p req) as (e & _ & E & Hex & Hmax).
  pose proof (evaluation_allow p req e Hex Hmax) as Ha.
  eexists. split; [exact E|]. unfold requirement_of.
  change (ec_commands (commands_for_exec_policy (rq_command req))) with (segments req).
  split_and!.
  - transitivity (ev_decision e = Allow).
    { destruct (ev_decision e); [done| |done]. by destruct (prompt_is_rejected_by_policy _ _). }
    rewrite Ha. setoid_rewrite <- fallback_allow. unfold contributes. naive_solver.
  - intros a. destruct (ev_decision e); [|by destruct (prompt_is_rejected_by_policy _ _)|done].
    intros [= B _]. by apply bypasses_spec.
  - intros cmd rule Hc A F.
    assert (L : severity Forbidden ≤ severity (ev_decision e)).
    { apply (Hmax cmd); [done|]. left. eauto. }
    destruct (ev_decision e); simpl in L; [lia..|done].
  - intros N. destruct (ev_decision e); [by left| |by right]. rewrite N. by right.
Qed.

(** ** Names of executables *)

Lemma names_host_plain p word name :
  plain_current_dir → names_host_executable p word name → plain_name name = true.
Proof.
  intros Hd (program & Ha & Hn & _). unfold from_absolute_path, absolutize in Ha.
  assert (F : Forall (λ c, plain_name c = true) program).
  { destruct (is_absolute _) eqn:Eabs; simplify_eq.
    - apply normalize_plain, comps_plain.
    - apply fmap_Some in Ha as (cwd & Ec & ->). apply normalize_plain.
      unfold path_with_base, join. rewrite Eabs. apply Forall_app. split; [|apply comps_plain].
      apply Hd in Ec. eapply Forall_impl; [exact Ec|]. by right. }
  unfold file_name in Hn. destruct (last program) as [c|] eqn:El; [|done].
  destruct (String.eqb c ".."); simplify_eq. rewrite Forall_forall in F.
  apply F. by apply last_Some_elem_of.
Qed.

(** A bare name other than [~] is looked up in the current directory. *)
Lemma names_host_bare p word name :
  plain_name word = true → word ≠ "~" → names_host_executable p word name → name = word.
Proof.
  intros Hw Ht (program & Ha & Hn & _). unfold from_absolute_path in Ha.
  assert (E : maybe_expand_home_directory env_home word = word).
  { apply plain_name_inv in Hw as (_ & _ & _ & Hs). unfold maybe_expand_home_directory.
    destruct env_home; [|done].
    destruct word as [|[[] [] [] [] [] [] [] []] word]; try done.
    destruct word as [|[[] [] [] [] [] [] [] []] word]; try done.
    exfalso. apply Hs. simpl. right. left. }
  rewrite E in Ha. unfold absolutize in Ha.
  rewrite slash_free_relative in Ha by by apply plain_name_inv in Hw as (_ & _ & _ & ?).
  apply fmap_Some in Ha as (cwd & _ & ->). unfold absolutize_from, path_with_base in Hn.
  rewrite join_plain in Hn by done. unfold normalize_path in Hn. rewrite foldl_app in Hn.
  simpl in Hn. unfold normalize_step at 1 in Hn.
  pose proof (plain_not_dotdot _ Hw) as Hd. apply String.eqb_neq in Hd. rewrite Hd in Hn.
  unfold file_name in Hn. rewrite last_snoc, Hd in Hn. by simplify_eq.
Qed.

(** ** Adding an allow rule *)

(** The rule of a plain prefix accepts the commands that start with it. *)
Lemma prefix_rule_accepts first rest d cmd :
  rule_accepts (prefix_rule_of first rest d) cmd ↔ first :: rest `prefix_of` cmd.
Proof.
  unfold rule_accepts, rule_takes, prefix_rule_of, rule_program. simpl.
  assert (F : ∀ args, Forall2 (λ t w, w ∈ alternatives t) (map Single rest) args ↔ args = rest).
  { induction rest as [|x rest IH]; intros args; simpl.
    - split; [by inversion 1|by intros ->].
    - split.
      + inversion 1 as [|? y ? l Hy Hl]; subst. apply IH in Hl as ->.
        by apply list_elem_of_singleton in Hy as ->.
      + intros ->. constructor; [by left|]. by apply IH. }
  setoid_rewrite F. unfold prefix. naive_solver.
Qed.

Definition with_prefix first rest p : Policy :=
  set_rules (multi_insert first (prefix_rule_of first rest Allow) (rules_by_program p)) p.

Lemma rules_of_with_prefix first rest p program r :
  r ∈ rules_of (with_prefix first rest p) program ↔
  r ∈ rules_of p program ∨ program = first ∧ r = prefix_rule_of first rest Allow.
Proof.
  unfold rules_of, with_prefix, multi_insert. simpl.
  destruct (decide (program = first)) as [->|N].
  - rewrite lookup_insert_eq. simpl. rewrite elem_of_app, list_elem_of_singleton. naive_solver.
  - rewrite lookup_insert_ne by done. naive_solver.
Qed.

Lemma exactly_with_prefix first rest p cmd r :
  applies_exactly (with_prefix first rest p) cmd r ↔
  applies_exactly p cmd r ∨
  r = prefix_rule_of first rest Allow ∧ first :: rest `prefix_of` cmd.
Proof.
  unfold applies_exactly. setoid_rewrite rules_of_with_prefix. split.
  - intros (x & Hh & [Hr|[-> ->]] & A); [eauto|]. right. by apply prefix_rule_accepts in A.
  - intros [(x & Hh & Hr & A)|(-> & Hp)]; [eauto|]. exists first. split_and!.
    + by destruct Hp as (k & ->).
    + auto.
    + by apply prefix_rule_accepts.
Qed.

Lemma host_with_prefix first rest p cmd r :
  applies_to_host (with_prefix first rest p) cmd r ↔
  applies_to_host p cmd r ∨
  r = prefix_rule_of first rest Allow ∧ rest `prefix_of` tail cmd ∧
  ∃ word, head cmd = Some word ∧ names_host_executable p word first.
Proof.
  unfold applies_to_host. setoid_rewrite rules_of_with_prefix. split.
  - intros (x & name & Hh & Hn & [Hr|[-> ->]] & A); [left; eauto 10|right].
    apply prefix_rule_accepts in A as (k & [= Ek]). split_and!; [done|by exists k|eauto].
  - intros [(x & name & Hh & Hn & Hr & A)|(-> & (k & Ek) & word & Hh & Hn)]; [eauto 10|].
    exists word, first. split_and!; [done..|auto|]. apply prefix_rule_accepts. exists k.
    by rewrite Ek.
Qed.

(** A command is decided as before, or by the new rule. *)
Lemma decides_with_prefix first rest p req cmd d :
  decides (with_prefix first rest p) req cmd d → d = Allow ∨ decides p req cmd d.
Proof.
  unfold contributes, applies.
  setoid_rewrite exactly_with_prefix. setoid_rewrite host_with_prefix.
  intros [(r & [[A|[-> _]]|(Eo & N & [A|(-> & _)])] & <-)|[N Hd]].
  - right. left. eauto.
  - by left.
  - right. left. exists r. split; [|done]. right. split_and!; [done| |done].
    intros r' A'. apply (N r'). by left.
  - by left.
  - right. right. split; [|done]. intros r [A|(Eo & _ & A)]; apply (N r).
    + left. by left.
    + right. split_and!; [done| |by left]. intros r' A'. apply (N r'). by left.
Qed.

(** A new rule that accepts a command without exact rules decides it. *)
Lemma decides_new_rule first rest p req cmd d :
  (∀ r, ¬ applies p match_options cmd r) → first :: rest `prefix_of` cmd →
  decides (with_prefix first rest p) req cmd d → d = Allow.
Proof.
  intros N Hp. unfold contributes, applies. setoid_rewrite exactly_with_prefix.
  intros [(r & [[A|[-> _]]|(_ & N' & _)] & <-)|[N' _]].
  - destruct (N r). by left.
  - done.
  - by destruct (N' (prefix_rule_of first rest Allow)); right.
  - by destruct (N' (prefix_rule_of first rest Allow)); left; right.
Qed.

(** A command that starts with the new prefix, and that no other rule restricts,
    is allowed. *)
Lemma decides_started first rest p req cmd d :
  (∀ r, applies p match_options cmd r → pr_decision r = Allow) → first :: rest `prefix_of` cmd →
  decides (with_prefix first rest p) req cmd d → d = Allow.
Proof.
  intros A Hp Hd. destruct (decides_with_prefix _ _ _ _ _ _ Hd) as [|[(r & Hr & <-)|[N _]]];
    [done|by apply A|by eapply decides_new_rule].
Qed.

(** A command without a rule that the new rule makes allowed is one the new rule
    applies to. *)
Lemma new_rule_applies first rest p req cmd :
  (∀ r, ¬ applies p match_options cmd r) →
  exec_policy_fallback req (complex req) cmd ≠ Allow →
  (∀ d, decides (with_prefix first rest p) req cmd d → d = Allow) →
  first :: rest `prefix_of` cmd ∨
  rest `prefix_of` tail cmd ∧ ∃ word, head cmd = Some word ∧ names_host_executable p word first.
Proof.
  intros N Hf Hall. destruct (decides_total (with_prefix first rest p) req cmd) as (d & Hd).
  pose proof Hd as Hd'. apply Hall in Hd' as ->.
  destruct Hd as [(r & A & _)|[_ ?]]; [|done].
  unfold applies in A. rewrite exactly_with_prefix, host_with_prefix in A.
  destruct A as [[A|[_ A]]|(Eo & N' & [A|(_ & A)])]; [|by left| |by right].
  - destruct (N r). by left.
  - destruct (N r). right. split_and!; [done| |done]. intros r' A'. apply (N r'). by left.
Qed.

(** A rule for the prefix alone is one for the commands the prefix rule would
    apply to. *)
Lemma rule_for_prefix_applies first rest p cmd r :
  plain_current_dir → first ≠ "~" →
  applies p match_options (first :: rest) r →
  first :: rest `prefix_of` cmd ∨
  rest `prefix_of` tail cmd ∧ (∃ word, head cmd = Some word ∧ names_host_executable p word first) →
  ∃ r', applies p match_options cmd r'.
Proof.
  intros Hcwd Ht A Hc.
  assert (W : (∃ r', applies_exactly p cmd r' ∨ applies_to_host p cmd r') →
              ∃ r', applies p match_options cmd r').
  { intros (r' & A'). destruct (policy_matches p match_options cmd) as [|m l] eqn:E.
    - pose proof (proj1 (policy_matches_nil _ _ _) E) as N. exfalso. apply (N r').
      destruct A' as [A'|A']; [by left|right]. split_and!; [done| |done].
      intros r'' ?. apply (N r''). by left.
    - destruct (policy_matches_applies p match_options cmd m) as (r'' & ? & _);
        [rewrite E; left|eauto]. }
  apply W. clear W.
  assert (X : ∀ name l k, rule_accepts r (name :: l) → rule_accepts r (name :: l ++ k)).
  { intros name l k (args & rs & [= -> ->] & F). exists args, (rs ++ k). by rewrite <- app_assoc. }
  assert (B : (∃ word, head cmd = Some word ∧ names_host_executable p word first) →
    ∀ name, names_host_executable p first name → name = first).
  { intros (word & _ & Hn) name. apply names_host_bare; [|done]. by eapply names_host_plain. }
  destruct Hc as [(k & ->)|((k & Ek) & Hw)].
  - exists r. destruct A as [(x & [= ->] & Hr & A)|(_ & _ & x & name & [= ->] & Hn & Hr & A)].
    + left. exists x. split_and!; [done..|]. by apply X.
    + right. exists x, name. split_and!; [done..|]. by apply X.
  - exists r. right.
    assert (Hr : r ∈ rules_of p first ∧ rule_accepts r (first :: rest)).
    { destruct A as [(x & [= ->] & Hr & A)|(_ & _ & x & name & [= ->] & Hn & Hr & A)]; [done|].
      by rewrite (B Hw name Hn) in Hr, A. }
    destruct Hr as [Hr A'], Hw as (word & Hh & Hn). exists word, first. split_and!; [done..|].
    rewrite Ek. by apply X.
Qed.

(** ** Amendments *)

Lemma from_matches_allow ms :
  approves (from_matches ms) = true ↔ ms ≠ [] ∧ ∀ m, m ∈ ms → match_decision m = Allow.
Proof.
  pose proof (from_matches_spec ms) as S. destruct (from_matches ms) as [e|]; simpl.
  - destruct S as (_ & N & S). rewrite bool_decide_eq_true. split.
    + intros E. split; [done|]. intros m M. apply severity_inj.
      assert (L : severity (match_decision m) ≤ severity (ev_decision e)) by (apply S; eauto).
      rewrite E in L. simpl in *. lia.
    + intros [_ Hall]. destruct (proj1 (S (ev_decision e))) as (m & M & L); [done|].
      rewrite (Hall m M) in L. apply severity_inj. simpl in *. lia.
  - subst. naive_solver.
Qed.

Lemma approve_all p first rest req :
  prefix_rule_would_approve_all_commands p (first :: rest) (segments req)
    (exec_policy_fallback req (complex req)) match_options = true →
  ∀ cmd d, cmd ∈ segments req → decides (with_prefix first rest p) req cmd d → d = Allow.
Proof.
  unfold prefix_rule_would_approve_all_commands. simpl. rewrite forallb_forall.
  intros Hall cmd d Hc%list_elem_of_In Hd. apply Hall, from_matches_allow in Hc as [_ Hc].
  apply contributes_matches in Hd as (m & M & <-). by apply Hc.
Qed.

Lemma already_allowed_applies p prefix :
  already_allowed p prefix = true → ∃ r, applies p match_options prefix r.
Proof.
  unfold already_allowed, check_multiple_with_options. simpl. rewrite app_nil_r.
  pose proof (from_matches_spec (matches_for_command_with_options p prefix
    (Some (λ _, Forbidden)) match_options)) as S.
  destruct (from_matches _) as [e|]; [|done]. destruct S as (-> & _ & _).
  intros [_ (m & M & Hm)%existsb_exists_elem]%andb_true_iff. unfold is_rule_with in Hm.
  rewrite matches_fallback in M.
  destruct (policy_matches p match_options prefix) as [|m' l] eqn:E.
  - apply list_elem_of_singleton in M as ->. done.
  - destruct (policy_matches_applies p match_options prefix m') as (r & A & _);
      [rewrite E; left|eauto].
Qed.

(** A rule that applies to a segment is among the matches. *)
Lemma applied_rule_matched p req e cmd r :
  check_multiple_with_options p (segments req) (exec_policy_fallback req (complex req))
    match_options = Some e →
  cmd ∈ segments req → applies p match_options cmd r →
  ∃ m, m ∈ matched_rules e ∧ is_policy_match m = true ∧ match_decision m = pr_decision r.
Proof.
  unfold check_multiple_with_options. intros E Hc A.
  match type of E with from_matches ?ms = _ => pose proof (from_matches_spec ms) as S end.
  rewrite E in S. destruct S as (Em & _ & _). rewrite Em.
  destruct (applies_policy_matches _ _ _ _ A) as (m & M & Hm).
  destruct (policy_matches_applies _ _ _ _ M) as (_ & _ & _ & Hp).
  exists m. split_and!; [|done..]. apply elem_of_concat_map. exists cmd. split; [done|].
  rewrite matches_fallback. destruct (policy_matches _ _ _); [by apply elem_of_nil in M|done].
Qed.

(** An evaluation without a rule, and one without a prompting rule. *)
Lemma no_policy_match p req e cmd r :
  check_multiple_with_options p (segments req) (exec_policy_fallback req (complex req))
    match_options = Some e →
  existsb is_policy_match (matched_rules e) = false → cmd ∈ segments req →
  ¬ applies p match_options cmd r.
Proof.
  intros E N Hc A. destruct (applied_rule_matched _ _ _ _ _ E Hc A) as (m & M & Hp & _).
  rewrite existsb_false_elem in N. by rewrite (N m) in Hp.
Qed.
Lemma no_prompt_rule p req e cmd r :
  check_multiple_with_options p (segments req) (exec_policy_fallback req (complex req))
    match_options = Some e →
  existsb (is_rule_with Prompt) (matched_rules e) = false → cmd ∈ segments req →
  applies p match_options cmd r → pr_decision r ≠ Prompt.
Proof.
  intros E N Hc A Hr. destruct (applied_rule_matched _ _ _ _ _ E Hc A) as (m & M & Hp & Hd).
  rewrite existsb_false_elem in N. specialize (N m M). unfold is_rule_with in N.
  by rewrite Hp, Hd, Hr in N.
Qed.

Lemma first_heuristic_Some d ms a :
  first_heuristic d ms = Some a → HeuristicsRuleMatch (am_command a) d ∈ ms.
Proof.
  unfold first_heuristic. intros (cmd & Hh & ->)%fmap_Some. simpl.
  assert (Hin : cmd ∈ omap (heuristic_command d) ms)
    by (destruct (omap _ _); [done|]; simplify_eq/=; left).
  apply list_elem_of_omap in Hin as (m & M & Hm). destruct m as [|c d']; simplify_eq/=.
  by case_bool_decide; simplify_eq.
Qed.

Lemma heuristic_match p req e cmd d :
  check_multiple_with_options p (segments req) (exec_policy_fallback req (complex req))
    match_options = Some e →
  HeuristicsRuleMatch cmd d ∈ matched_rules e →
  cmd ∈ segments req ∧ (∀ r, ¬ applies p match_options cmd r) ∧
  exec_policy_fallback req (complex req) cmd = d.
Proof.
  unfold check_multiple_with_options. intros E M.
  match type of E with from_matches ?ms = _ => pose proof (from_matches_spec ms) as S end.
  rewrite E in S. destruct S as (Em & _ & _). rewrite Em in M. clear Em.
  apply elem_of_concat_map in M as (cmd' & Hc & M). rewrite matches_fallback in M.
  destruct (policy_matches p match_options cmd') as [|m l] eqn:Em.
  - apply list_elem_of_singleton in M. simplify_eq. split; [done|]. split; [|done].
    by apply policy_matches_nil.
  - rewrite <- Em in M. by apply policy_matches_applies in M as (_ & _ & _ & ?).
Qed.

(** What is known when a prompt proposes an amendment. *)
Lemma proposed_amendment p req reason a :
  create_exec_approval_requirement_for_command p req = Some (NeedsApproval reason (Some a)) →
  (∃ cmd, cmd ∈ segments req ∧ decides p req cmd Prompt) ∧
  (∀ cmd r, cmd ∈ segments req → applies p match_options cmd r → pr_decision r = Allow) ∧
  (rq_prefix_rule req = Some (am_command a) ∧
     (∀ cmd r, cmd ∈ segments req → ¬ applies p match_options cmd r) ∧
     prefix_rule_would_approve_all_commands p (am_command a) (segments req)
       (exec_policy_fallback req (complex req)) match_options = true ∨
   am_command a ∈ segments req ∧ (∀ r, ¬ applies p match_options (am_command a) r) ∧
     exec_policy_fallback req (complex req) (am_command a) = Prompt).
Proof.
  destruct (evaluation_spec p req) as (e & Ee & -> & Hex & Hmax). intros [= R].
  unfold requirement_of in R. destruct (ev_decision e) eqn:Ed; [done| |done]. split; [done|].
  destruct (prompt_is_rejected_by_policy _ _); [done|]. injection R as _ R.
  fold (segments req) (complex req) in R.
  destruct (negb (complex req)); [|done].
  unfold derive_requested_execpolicy_amendment_from_prefix_rule in R.
  match goal with |- ?rules ∧ (?asked ∨ ?derived) =>
    assert (D : try_derive_execpolicy_amendment_for_prompt_rules (matched_rules e) = Some a →
                rules ∧ (asked ∨ derived)) end.
  { unfold try_derive_execpolicy_amendment_for_prompt_rules.
    destruct (existsb (is_rule_with Prompt) (matched_rules e)) eqn:Er; [done|].
    intros Hf%first_heuristic_Some. split; [|right; by eapply heuristic_match].
    intros cmd r Hc A.
    assert (L : severity (pr_decision r) ≤ severity (ev_decision e)).
    { rewrite Ed. apply (Hmax cmd); [done|]. left. eauto. }
    destruct (pr_decision r) eqn:Dr; [done| |rewrite Ed in L; simpl in L; lia].
    by apply (no_prompt_rule _ _ _ _ _ Ee Er Hc) in A. }
  destruct (rq_prefix_rule req) as [prefix|]; simpl in R; [|by apply D].
  repeat case_bool_decide; try by apply D.
  destruct (existsb is_policy_match _) eqn:Ep; [by apply D|].
  destruct (prefix_rule_would_approve_all_commands _ _ _ _ _) eqn:Ew; [|by apply D].
  simplify_eq/=.
  assert (N : ∀ cmd r, cmd ∈ segments req → ¬ applies p match_options cmd r)
    by (intros cmd r; by eapply no_policy_match).
  split; [intros cmd r Hc A; by destruct (N cmd r)|]. left. by split.
Qed.

Lemma skip_when_allowed p req :
  (∀ cmd d, cmd ∈ segments req → decides p req cmd d → d = Allow) →
  ∃ b a, create_exec_approval_requirement_for_command p req = Some (Skip b a).
Proof.
  destruct (evaluation_spec p req) as (e & _ & -> & Hex & Hmax). intros Hall.
  apply (evaluation_allow p req e Hex Hmax) in Hall. unfold requirement_of. rewrite Hall. eauto.
Qed.

Lemma update_policy home a st st' :
  append_amendment_and_update home a st = (inr tt, st') →
  ∃ first rest, am_command a = first :: rest ∧
    st_policy st' = if already_allowed (st_policy st) (am_command a) then st_policy st
                    else with_prefix first rest (st_policy st).
Proof.
  unfold append_amendment_and_update, blocking_append_allow_prefix_rule.
  destruct (am_command a) as [|first rest]; [done|]. intros U. exists first, rest.
  split; [done|]. destruct (append_rule_line _ _ _) as [[|[]] fs]; [done|].
  simpl in U. destruct (already_allowed (st_policy st) (first :: rest)); by simplify_eq/=.
Qed.

(** C13: When a user accepts the amendment a prompt proposes and the update
    succeeds, no segment of the command is decided more strictly than before and a
    segment that needed a prompt is now allowed. The amendment is a segment of the
    command or the prefix the model asked for. The same command then runs without a
    prompt when it has one segment, when the amendment is not one of its segments,
    or when each of its segments was allowed before or starts with the amendment.
    Assumed: the first word of the amendment is not a lone tilde, and the names in
    the path of the current directory are ordinary ones. *)
Theorem amendment_accepted home reason a req (st st' : policy_state) :
  plain_current_dir →
  create_exec_approval_requirement_for_command (st_policy st) req =
    Some (NeedsApproval reason (Some a)) →
  head (am_command a) ≠ Some "~" →
  append_amendment_and_update home a st = (inr tt, st') →
  (∀ cmd d, decides (st_policy st') req cmd d → d = Allow ∨ decides (st_policy st) req cmd d) ∧
  (∃ cmd, cmd ∈ segments req ∧ decides (st_policy st) req cmd Prompt ∧
     ∀ d, decides (st_policy st') req cmd d → d = Allow) ∧
  (am_command a ∈ segments req ∨ rq_prefix_rule req = Some (am_command a)) ∧
  (length (segments req) = 1 ∨ am_command a ∉ segments req ∨
   (∀ cmd, cmd ∈ segments req →
      (∀ d, decides (st_policy st) req cmd d → d = Allow) ∨ am_command a `prefix_of` cmd) →
   ∃ b a', create_exec_approval_requirement_for_command (st_policy st') req =
     Some (Skip b a')).
Proof.
  intros Hcwd Hreq Ht U. apply update_policy in U as (first & rest & Ea & Ep).
  apply proposed_amendment in Hreq as ((cmd & Hc & Hp) & Rules & HA). rewrite Ea in *.
  assert (Ht' : first ≠ "~") by (by intros ->). set (p := st_policy st) in *.
  assert (K : ∃ cmd, cmd ∈ segments req ∧ decides p req cmd Prompt ∧
            already_allowed p (first :: rest) = false ∧
            ∀ d, decides (with_prefix first rest p) req cmd d → d = Allow).
  { destruct HA as [(_ & N & W)|(Hin & N & Hf)].
    - exists cmd. pose proof (approve_all _ _ _ _ W) as Hall. split_and!; [done..| |eauto].
      destruct (already_allowed _ _) eqn:Eal; [|done]. exfalso.
      apply already_allowed_applies in Eal as (r & A).
      destruct (rule_for_prefix_applies _ _ _ cmd _ Hcwd Ht' A) as (r' & A'); [|by eapply N].
      apply (new_rule_applies _ _ p req); [eauto| |eauto].
      destruct Hp as [(r' & A' & _)|[_ ->]]; [by destruct (N cmd r')|done].
    - exists (first :: rest). split_and!; [done|by right| |].
      + destruct (already_allowed _ _) eqn:Eal; [|done].
        apply already_allowed_applies in Eal as (r & A). by destruct (N r).
      + intros d. by apply decides_new_rule. }
  destruct K as (cmd' & Hc' & Hp' & Eal & K). rewrite Eal in Ep. rewrite Ep. split_and!.
  - intros ? ?. apply decides_with_prefix.
  - eauto.
  - destruct HA as [(? & _)|(? & _)]; auto.
  - intros Hone. apply skip_when_allowed. destruct Hone as [L|[Hn|Each]].
    + destruct (segments req) as [|x [|? ?]]; simplify_eq/=.
      apply list_elem_of_singleton in Hc' as ->.
      intros ? d ->%list_elem_of_singleton. apply K.
    + destruct HA as [(_ & _ & W)|(? & _)]; [by apply approve_all|done].
    + intros c d Hcs Hd. destruct (Each c Hcs) as [Old|Pre].
      * destruct (decides_with_prefix _ _ _ _ _ _ Hd) as [|Hd']; [done|by apply Old].
      * eapply decides_started; [by intros r; apply Rules|done|done].
Qed.
End approvals.
