(* ===== verification/PolicyProps.v ===== *)
(** * execpolicy: amendments and well-formed policies

    What an amendment writes to the policy file, and the invariant of every
    policy of a session. *)

From S2P Require Import Prelude RustStr FsModel FsFacts Frame FsxProps.
From S2P Require Import ActivityProps Progress ExecFs ExecPolicy PolicyFile.
From S2P Require Import ExecApproval ExecPolicyProps.

(** * execpolicy: what an amendment writes

    An appended rule is a line of the policy file, the rest of which is kept,
    and no other file changes; appending the rule again writes nothing. *)

(** ** Directories that exist *)

Section dirs.
Context (Z : path → Prop) (fs : fsys) (Hfs : fs_ok Z fs).

Lemma create_dir_clear p fs' :
  clear Z p → fs_create_dir fs p = inr fs' →
  fs_ok Z fs' ∧ ∀ q, file_of fs' q = file_of fs q.
Proof.
  unfold fs_create_dir. intros Hcl. destruct (lresolve fs p) as [|q] eqn:El; [done|].
  apply (lresolve_clear Z fs Hfs) in El as [-> Hpar]; [|done].
  destruct p as [|c p]; [done|]. destruct (look fs (c :: p)) eqn:Hl; [done|]. intros [= <-].
  rewrite look_ne in Hl by done. split.
  - split.
    + intros x q n Hx Hq Hqx Hq0. destruct (decide (x = c :: p)) as [->|N].
      * rewrite lookup_insert_ne by done. by apply Hpar.
      * rewrite lookup_insert_ne in Hx by done.
        assert (fs !! q = Some Dir) by (by apply (ok_tree Z fs Hfs x q n)).
        rewrite lookup_insert_ne; [done|]. intros <-. congruence.
    + intros x t. rewrite lookup_insert_Some. intros [[_ ?]|[_ ?]]; [done|].
      by apply (ok_links Z fs Hfs x t).
    + rewrite lookup_insert_ne by done. apply (ok_root Z fs Hfs).
  - intros q. apply (grows_dirs_file (c :: p)). intros x.
    destruct (decide (x = c :: p)) as [->|N].
    + right. by rewrite lookup_insert_eq.
    + left. by rewrite lookup_insert_ne.
Qed.

Lemma create_dir_exists p :
  clear Z p → p = [] ∨ fs !! p = Some Dir → fs_create_dir fs p = inl AlreadyExists.
Proof.
  unfold fs_create_dir. intros Hcl [->|Hd]; [done|].
  destruct p as [|c p _] using rev_ind; [done|].
  unfold lresolve. rewrite last_snoc, removelast_last.
  destruct (String.eqb_spec c "..") as [->|Hc].
  { destruct Hcl as [D _]. apply Forall_app in D as [_ D]. by inversion D. }
  assert (Hp : p = [] ∨ fs !! p = Some Dir).
  { destruct p as [|d p]; [by left|right]. apply (ok_tree Z fs Hfs ((d :: p) ++ [c]) _ Dir).
    - done.
    - by exists [c].
    - apply snoc_ne.
    - done. }
  assert (Hclp : clear Z p) by (by eapply clear_prefix; [|by exists [c]]).
  assert (Er : resolve fs p = inr p).
  { destruct Hp as [->|Hp]; [done|]. by eapply (resolve_present Z fs Hfs). }
  rewrite Er. assert (El : look fs p = Some Dir) by (by destruct Hp as [->|Hp]; [|destruct p]).
  rewrite El. rewrite look_ne by (by destruct p). by rewrite Hd.
Qed.
End dirs.

(** ** Appending a line *)

(** The text with its last line ended. *)
Definition ended (s : string) : string :=
  if negb (String.eqb s "") && negb (ends_with nl s) then s +:+ nl else s.
(** The text with one more line, unless it has it already. *)
Definition with_line (line s : string) : string :=
  if existsb (String.eqb line) (lines s) then s else ended s +:+ line +:+ nl.

(** A line of text that a file can hold. *)
Definition line_text (line : string) : Prop :=
  (newline ∉ bytes line) ∧ (cr ∉ bytes line) ∧ utf8_valid line = true.

Lemma lines_go_snoc l r : ∀ cur,
  newline ∉ r → (l = [] ∧ cur = []) ∨ last l = Some newline →
  lines_go cur (l ++ r ++ [newline]) = lines_go cur l ++ [strip_cr r].
Proof.
  intros cur N. revert cur. induction l as [|c l IH]; intros cur [[E ->]|E]; try done.
  - simpl. by rewrite lines_go_line.
  - cbn [app lines_go]. destruct l as [|c' l'].
    + injection E as ->. rewrite Ascii.eqb_refl. cbn [app lines_go].
      by rewrite lines_go_line.
    + destruct (Ascii.eqb newline c).
      * rewrite (IH []); [done|]. right. by rewrite last_cons_cons in E.
      * apply IH. right. by rewrite last_cons_cons in E.
Qed.

Lemma ends_with_nl s : ends_with nl s = true ↔ last (bytes s) = Some newline.
Proof.
  unfold ends_with, strip_suffix, rev_str. rewrite <- head_reverse.
  destruct (reverse (bytes s)) as [|c l]; [done|].
  change (strip_prefix (of_bytes (reverse (bytes nl))) (of_bytes (c :: l)))
    with (if Ascii.eqb newline c then Some (of_bytes l) else None).
  destruct (Ascii.eqb_spec newline c) as [->|N]; simpl; [done|]. split; [done|congruence].
Qed.

Lemma ended_last s : ended s = "" ∨ last (bytes (ended s)) = Some newline.
Proof.
  unfold ended. destruct (String.eqb_spec s "") as [->|N]; [by left|right]. simpl.
  destruct (ends_with nl s) eqn:E; simpl; [by apply ends_with_nl|].
  rewrite bytes_app. apply last_snoc.
Qed.

Lemma line_is_added line s : line_text line → line ∈ lines (with_line line s).
Proof.
  intros (Hn & Hc & _). unfold with_line. destruct (existsb _ _) eqn:E.
  - apply existsb_exists_elem in E as (x & Hx & ->%String.eqb_eq). done.
  - unfold lines. rewrite !bytes_app. change (bytes nl) with [newline].
    rewrite lines_go_snoc; [|done|].
    + rewrite map_app, strip_cr_id by done. simpl. rewrite of_bytes_bytes.
      apply elem_of_app. right. left.
    + destruct (ended_last s) as [->|]; [by left|by right].
Qed.

Lemma with_line_again line s :
  line_text line → with_line line (with_line line s) = with_line line s.
Proof.
  intros Hl. pose proof (line_is_added line s Hl) as Hin. unfold with_line at 1.
  assert (E : existsb (String.eqb line) (lines (with_line line s)) = true)
    by (apply existsb_exists_elem; exists line; by rewrite String.eqb_refl).
  by rewrite E.
Qed.

Lemma with_line_utf8 line s :
  line_text line → utf8_valid s = true → utf8_valid (with_line line s) = true.
Proof.
  intros (_ & _ & Hu) Hs. unfold with_line. destruct (existsb _ _); [done|].
  assert (utf8_valid nl = true) by done.
  apply utf8_valid_app; [|by apply utf8_valid_app]. unfold ended.
  destruct (_ && _); [by apply utf8_valid_app|done].
Qed.

(** ** The policy file *)

Section append.
Context (Z : path → Prop).

(** Appending to a clear path. *)
Lemma append_to_clear fs p s fs' :
  fs_ok Z fs → clear Z p → append_to p s fs = inr fs' →
  fs_ok Z fs' ∧ fs' = <[p := File (default "" (file_of fs p) +:+ s)]> fs.
Proof.
  intros Hfs Hcl. unfold append_to. destruct (fs_append fs p s) eqn:E; [done|].
  intros [= ->]. by apply (append_clear Z fs Hfs) in E as (_ & ? & ?).
Qed.

Lemma append_locked_line_spec fs p line fs' :
  fs_ok Z fs → clear Z p → append_locked_line p line fs = (inr tt, fs') →
  fs_ok Z fs' ∧ utf8_valid (default "" (file_of fs p)) = true ∧
  fs' = <[p := File (with_line line (default "" (file_of fs p)))]> fs.
Proof.
  intros Hfs Hcl. unfold append_locked_line.
  destruct (fs_append fs p "") as [|fs1] eqn:E1; [done|].
  apply (append_clear Z fs Hfs) in E1 as (_ & -> & Hfs1); [|done].
  rewrite str_app_nil_r in *. set (s := default "" (file_of fs p)) in *.
  set (fs1 := <[p := File s]> fs) in *.
  unfold fs_read_to_string. destruct (fs_read fs1 p) as [|t] eqn:Er; [done|].
  apply (read_clear Z fs1 Hfs1) in Er; [|done]. unfold fs1 in Er.
  rewrite file_of_insert_eq in Er. injection Er as <-.
  destruct (utf8_valid s) eqn:Eu; [|done]. unfold with_line, ended.
  destruct (existsb _ _); [by intros [= <-]|].
  set (cond := negb (String.eqb s "") && negb (ends_with nl s)).
  assert (K : ∀ fs2 t, fs_ok Z fs2 → fs2 = <[p := File t]> fs →
    match append_to p (line +:+ nl) fs2 with inl e => (inl e, fs2) | inr f => (inr tt, f) end =
      (inr tt, fs') → fs_ok Z fs' ∧ fs' = <[p := File (t +:+ line +:+ nl)]> fs).
  { intros fs2 t Hok ->. destruct (append_to _ _ _) eqn:Ea; [done|]. intros [= ->].
    apply append_to_clear in Ea as [? ->]; [|done..]. split; [done|].
    by rewrite file_of_insert_eq, insert_insert_eq. }
  destruct cond.
  - destruct (append_to p nl fs1) as [|fs2] eqn:Ea; [done|].
    apply append_to_clear in Ea as [Hok ->]; [|done..]. unfold fs1 in *.
    rewrite file_of_insert_eq, insert_insert_eq in *. simpl. intros F.
    apply (K _ (s +:+ nl)) in F as [? ->]; [|done|done]. done.
  - intros F. by apply (K _ s) in F as [? ->].
Qed.

Lemma append_rule_line_spec fs p line fs' :
  fs_ok Z fs → clear Z p → append_rule_line p line fs = (inr tt, fs') →
  fs_ok Z fs' ∧ utf8_valid (default "" (file_of fs p)) = true ∧
  file_of fs' p = Some (with_line line (default "" (file_of fs p))) ∧
  ∀ q, q ≠ p → file_of fs' q = file_of fs q.
Proof.
  intros Hfs Hcl. unfold append_rule_line. destruct (parent p) as [dir|] eqn:Ep; [|done].
  assert (Hdir : clear Z dir).
  { destruct p as [|c p _] using rev_ind; [done|]. rewrite parent_snoc in Ep.
    injection Ep as <-. by eapply clear_prefix; [|by exists [c]]. }
  assert (K : ∀ fs1, fs_ok Z fs1 → (∀ q, file_of fs1 q = file_of fs q) →
    append_locked_line p line fs1 = (inr tt, fs') →
    fs_ok Z fs' ∧ utf8_valid (default "" (file_of fs p)) = true ∧
    file_of fs' p = Some (with_line line (default "" (file_of fs p))) ∧
    ∀ q, q ≠ p → file_of fs' q = file_of fs q).
  { intros fs1 H1 H2 Ha. apply append_locked_line_spec in Ha as (? & ? & ->); [|done..].
    rewrite <- H2. split_and!; [done..|by rewrite file_of_insert_eq|].
    intros q N. by rewrite file_of_insert_ne. }
  destruct (fs_create_dir fs dir) as [[]|fs1] eqn:Ed; try done.
  - by apply K.
  - apply (create_dir_clear Z fs Hfs) in Ed as [? ?]; [|done]. by apply K.
Qed.

(** A rule that is in the file is not written again. *)
Lemma append_rule_line_again fs p line s :
  fs_ok Z fs → clear Z p → file_of fs p = Some s → utf8_valid s = true →
  line ∈ lines s → append_rule_line p line fs = (inr tt, fs).
Proof.
  intros Hfs Hcl Hs Hu Hin. unfold file_of in Hs.
  destruct (fs !! p) as [[s'| |]|] eqn:Ef; simplify_eq.
  unfold append_rule_line.
  destruct p as [|c p _] using rev_ind; [by rewrite (ok_root Z fs Hfs) in Ef|].
  rewrite parent_snoc.
  rewrite (create_dir_exists Z fs Hfs p).
  - unfold append_locked_line, fs_append.
    rewrite (resolve_present Z fs Hfs _ _ Hcl Ef), look_ne, Ef, str_app_nil_r by (by destruct p).
    rewrite insert_id by done. unfold fs_read_to_string.
    rewrite (proj2 (read_clear Z fs Hfs (p ++ [c]) s Hcl)) by (unfold file_of; by rewrite Ef).
    rewrite Hu. assert (E : existsb (String.eqb line) (lines s) = true)
      by (apply existsb_exists_elem; exists line; by rewrite String.eqb_refl).
    by rewrite E.
  - by eapply clear_prefix; [|by exists [c]].
  - destruct p as [|d p]; [by left|right]. apply (ok_tree Z fs Hfs ((d :: p) ++ [c]) _ (File s)).
    + done.
    + by exists [c].
    + apply snoc_ne.
    + done.
Qed.
End append.

(** ** The line of a rule *)

(** JSON escapes control characters and is text. *)
Class JsonText `{PolicyText} : Prop := { json_string_text s : line_text (json_string s) }.

Lemma line_text_app s t : line_text s → line_text t → line_text (s +:+ t).
Proof.
  intros (N1 & C1 & U1) (N2 & C2 & U2). unfold line_text. rewrite bytes_app, !not_elem_of_app.
  split_and!; try done. by apply utf8_valid_app.
Qed.

Definition line_textb (s : string) : bool :=
  forallb (λ c, negb (Ascii.eqb newline c) && negb (Ascii.eqb cr c)) (bytes s) && utf8_valid s.

Lemma line_textb_spec s : line_textb s = true → line_text s.
Proof.
  unfold line_textb. rewrite andb_true_iff, forallb_forall. intros [F U].
  split_and!; [| |done]; intros Hin%list_elem_of_In; apply F in Hin; by rewrite Ascii.eqb_refl,
    ?andb_false_r in Hin.
Qed.

Lemma join_with_text sep l :
  line_text sep → Forall line_text l → line_text (join_with sep l).
Proof.
  intros Hsep. induction 1 as [|s l Hs F IH]; [by apply line_textb_spec|].
  destruct l; [done|]. simpl in *. by repeat apply line_text_app.
Qed.

Lemma allow_rule_line_text `{JsonText} prefix : line_text (allow_rule_line prefix).
Proof.
  unfold allow_rule_line. repeat apply line_text_app; try by apply line_textb_spec.
  apply join_with_text; [by apply line_textb_spec|]. apply Forall_map, Forall_forall.
  intros. apply json_string_text.
Qed.

(** A successful amendment leaves the policy file with the line of its rule,
    after the old text whose last line is ended, or unchanged when it had that line
    already; it changes the content of no other file, and making it again succeeds
    and changes nothing. *)
Theorem amendment_written `{JsonText} (Z : path → Prop) (p : path) (prefix : list string)
    (fs fs' : fsys) :
  fs_ok Z fs → clear Z p →
  blocking_append_allow_prefix_rule p prefix fs = (inr tt, fs') →
  let old := default "" (file_of fs p) in
  let new := with_line (allow_rule_line prefix) old in
  file_of fs' p = Some new ∧ allow_rule_line prefix ∈ lines new ∧
  (∀ q, q ≠ p → file_of fs' q = file_of fs q) ∧
  blocking_append_allow_prefix_rule p prefix fs' = (inr tt, fs').
Proof.
  intros Hfs Hcl Ha. pose proof (allow_rule_line_text prefix) as Hl.
  unfold blocking_append_allow_prefix_rule in *. destruct prefix as [|w prefix]; [done|].
  apply (append_rule_line_spec Z) in Ha as (Hok & Hu & Hf & Ho); [|done..]. simpl.
  split_and!; [done|by apply line_is_added|done|].
  apply (append_rule_line_again Z _ _ _ _ Hok Hcl Hf); [by apply with_line_utf8|].
  by apply line_is_added.
Qed.

(** * execpolicy: well-formed policies

    The invariant of every policy that loading and amending produce, the
    domains its network rules allow and deny, and the examples of a policy
    file. *)

(** ** Network domains *)

(** The last rule for a host that allows or denies it. *)
Definition decisive (host : string) (p : Policy) : option NetworkRule :=
  last (filter (λ r, nr_host r = host ∧ nr_decision r ≠ Prompt) (network_rules p)).

Lemma elem_of_retain h host l : h ∈ retain_other host l ↔ h ∈ l ∧ h ≠ host.
Proof.
  unfold retain_other. rewrite !list_elem_of_In, filter_In, negb_true_iff, String.eqb_neq. done.
Qed.
Lemma elem_of_upsert h host l : h ∈ upsert_domain host l ↔ h ∈ l ∨ h = host.
Proof.
  unfold upsert_domain. rewrite elem_of_app, elem_of_retain, list_elem_of_singleton.
  destruct (decide (h = host)); naive_solver.
Qed.
Lemma retain_NoDup host l : NoDup l → NoDup (retain_other host l).
Proof. unfold retain_other. rewrite !NoDup_ListNoDup. apply List.NoDup_filter. Qed.
Lemma upsert_NoDup host l : NoDup l → NoDup (upsert_domain host l).
Proof.
  intros N. unfold upsert_domain. apply NoDup_app. split_and!.
  - by apply retain_NoDup.
  - intros h. rewrite elem_of_retain, list_elem_of_singleton. naive_solver.
  - apply NoDup_singleton.
Qed.

(** A host is among the allowed domains exactly when the last rule for it that does not
    prompt allows it, among the denied ones exactly when that rule denies it; neither list has
    duplicates. *)
Theorem last_network_rule_decides (p : Policy) :
  let (allowed, denied) := compiled_network_domains p in
  NoDup allowed ∧ NoDup denied ∧
  ∀ host,
    (host ∈ allowed ↔ nr_decision <$> decisive host p = Some Allow) ∧
    (host ∈ denied ↔ nr_decision <$> decisive host p = Some Forbidden).
Proof.
  unfold compiled_network_domains, decisive. destruct p as [? rules ?]; simpl.
  induction rules as [|r rules IH] using rev_ind.
  { split_and!; [constructor..|]. intros host. split; (split; [by intros ?%elem_of_nil|done]). }
  rewrite foldl_app. simpl. destruct (foldl network_step ([], []) rules) as [allowed denied].
  destruct IH as (Na & Nd & IH). unfold network_step.
  assert (K : ∀ host, filter (λ r, nr_host r = host ∧ nr_decision r ≠ Prompt) [r] =
    if decide (nr_host r = host ∧ nr_decision r ≠ Prompt) then [r] else []) by done.
  destruct (nr_decision r) eqn:Ed; split_and!; auto using retain_NoDup, upsert_NoDup;
    intros host; rewrite filter_app, K; destruct (IH host) as [Ha Hd]; clear IH K;
    destruct (decide (nr_host r = host)) as [<-|N];
    case_decide as D; rewrite ?app_nil_r, ?last_snoc, ?elem_of_upsert, ?elem_of_retain; simpl;
    rewrite ?Ed; try (clear Ha Hd; intuition congruence); rewrite ?Ha, ?Hd;
    clear Ha Hd; intuition congruence.
Qed.

(** ** Well-formed policies

    [n] is how many words a list of alternatives has at least. *)

Section well_formed.
Context (n : nat).

Definition token_wf (t : PatternToken) : Prop :=
  match t with Single _ => True | Alts l => n ≤ length l end.

Record rule_wf (program : string) (r : PrefixRule) : Prop := {
  rw_program : rule_program r = program;
  rw_tokens : Forall token_wf (pat_rest (pr_pattern r));
  rw_justified : empty_justification (pr_justification r) = false
}.

Record network_wf (r : NetworkRule) : Prop := {
  nw_host : nr_host r ≠ "";
  nw_specific : contains "*" (nr_host r) = false;
  nw_word : has_whitespace (nr_host r) = false;
  nw_lower : to_ascii_lowercase (nr_host r) = nr_host r;
  nw_justified : empty_justification (nr_justification r) = false
}.

(** The paths of a host executable have its name, and no [..]. *)
Record paths_wf (name : string) (paths : list path) : Prop := {
  hw_names : Forall (λ p, file_name p = Some name) paths;
  hw_normal : Forall no_dotdot paths;
  hw_unique : NoDup paths
}.

(** Every rule is filed under its program, and there are no empty lists. *)
Record rules_wf (m : gmap string (list PrefixRule)) : Prop := {
  rs_rules : ∀ k l r, m !! k = Some l → r ∈ l → rule_wf k r;
  rs_filled : ∀ k l, m !! k = Some l → l ≠ []
}.

Definition parts_wf (rules : gmap string (list PrefixRule)) (network : list NetworkRule)
    (hosts : gmap string (list path)) : Prop :=
  rules_wf rules ∧ Forall network_wf network ∧ map_Forall paths_wf hosts.

Definition policy_wf (p : Policy) : Prop :=
  parts_wf (rules_by_program p) (network_rules p) (host_executables_by_name p).
Definition builder_wf (b : PolicyBuilder) : Prop :=
  parts_wf (pb_rules_by_program b) (pb_network_rules b) (pb_host_executables b).

Lemma empty_wf : parts_wf ∅ [] ∅.
Proof.
  split_and!.
  - split; intros ? ?; rewrite lookup_empty; done.
  - constructor.
  - apply map_Forall_empty.
Qed.

Lemma multi_insert_wf m k r : rules_wf m → rule_wf k r → rules_wf (multi_insert k r m).
Proof.
  intros [Hm Hf] Hr. unfold multi_insert. split; intros k' l.
  - intros r'. destruct (decide (k = k')) as [<-|N].
    + rewrite lookup_insert_eq. intros [= <-] [Hi| ->%list_elem_of_singleton]%elem_of_app; [|done].
      destruct (m !! k) eqn:E; simpl in Hi; [eauto|by apply elem_of_nil in Hi].
    + rewrite lookup_insert_ne by done. eauto.
  - destruct (decide (k = k')) as [<-|N].
    + rewrite lookup_insert_eq. intros [= <-] E%(f_equal length).
      rewrite length_app in E. simpl in E. lia.
    + rewrite lookup_insert_ne by done. eauto.
Qed.

Lemma merge_overlay_wf p q : policy_wf p → policy_wf q → policy_wf (merge_overlay p q).
Proof.
  intros ([Rp Fp] & Np & Hp) ([Rq Fq] & Nq & Hq). split_and!; simpl.
  - split; intros k l.
    + intros r. rewrite lookup_union_with.
      destruct (rules_by_program p !! k) eqn:E1, (rules_by_program q !! k) eqn:E2; simpl;
        intros [= <-]; rewrite ?elem_of_app; intros Hi; destruct_or?; eauto.
    + rewrite lookup_union_with.
      destruct (rules_by_program p !! k) as [lp|] eqn:E1, (rules_by_program q !! k) eqn:E2; simpl;
        intros [= <-]; eauto.
      intros [-> _]%app_eq_nil. by eapply Fp.
  - by apply Forall_app.
  - intros k paths [Hk|[_ Hk]]%lookup_union_Some_raw; [by apply Hq|by apply Hp].
Qed.

End well_formed.
Arguments rw_program {n program r}.
Arguments rw_tokens {n program r}.
Arguments rw_justified {n program r}.

(** Longer lists of alternatives are fine. *)
Lemma policy_wf_mono n m p : m ≤ n → policy_wf n p → policy_wf m p.
Proof.
  intros L ([R F] & Nw & H). split; [|done]. split; [|done]. intros k l r E Hr.
  destruct (R k l r E Hr) as [P T J]. split; [done| |done].
  eapply Forall_impl; [exact T|]. intros [|alts]; simpl; [done|lia].
Qed.

(** ** Normalized hosts *)

Lemma normalize_host_wf raw host decision protocol j :
  normalize_network_rule_host raw = inr host → empty_justification j = false →
  network_wf {| nr_host := host; nr_protocol := protocol; nr_decision := decision;
                nr_justification := j |}.
Proof.
  unfold normalize_network_rule_host. intros Hn Hj.
  repeat case_one_in Hn; simplify_eq.
  apply and_then_inr in Hn as (h & _ & Hn). repeat case_one_in Hn; simplify_eq. to_prop.
  split; simpl; try done. apply to_ascii_lowercase_idemp.
Qed.

(** ** Parsing keeps policies well-formed *)

Section parsing.
Context `{PolicyText} `{ProcessEnv}.

Lemma parse_pattern_token_wf v t : parse_pattern_token v = inr t → token_wf 2 t.
Proof.
  destruct v as [s|l|]; simpl; [by intros [= <-]| |done].
  intros ([|x [|y ts]] & _ & Ht)%and_then_inr; simplify_eq/=; [done|lia].
Qed.

Lemma parse_pattern_wf vs ts : parse_pattern vs = inr ts → Forall (token_wf 2) ts.
Proof.
  unfold parse_pattern, collect. intros (l & Hf & Hl)%and_then_inr.
  assert (F : Forall (token_wf 2) l); [|by destruct l; simplify_eq].
  revert Hf. apply try_fold_inv; [|constructor].
  intros acc v acc' Ha (t & Ht%parse_pattern_token_wf & [= <-])%and_then_inr.
  apply Forall_app. by repeat constructor.
Qed.

Lemma add_rules_wf rules b :
  builder_wf 2 b → Forall (λ r, rule_wf 2 (rule_program r) r) rules → builder_wf 2 (foldl add_rule b rules).
Proof.
  intros Hb F. revert b Hb. induction F as [|r rules Hr F IH]; intros b (Hm & Hn & Hh); [done|].
  simpl. apply IH. split_and!; [|done..]. by apply multi_insert_wf.
Qed.

Lemma parse_justification_ok j j' :
  parse_justification j = inr j' → empty_justification j' = false.
Proof. unfold parse_justification. by destruct (empty_justification j) eqn:E; intros [= <-]. Qed.

Lemma prefix_rule_wf pattern d m n j loc b b' :
  builder_wf 2 b → prefix_rule pattern d m n j loc b = inr b' → builder_wf 2 b'.
Proof.
  intros Hb. unfold prefix_rule.
  intros (dec & _ & (j' & Hj & (ts & Ht & (ms & _ & (ns & _ & E)%and_then_inr)%and_then_inr)
    %and_then_inr)%and_then_inr)%and_then_inr.
  apply parse_pattern_wf in Ht. apply parse_justification_ok in Hj.
  destruct ts as [|t ts]; simplify_eq. apply add_rules_wf; [done|].
  apply Forall_map, Forall_forall. intros w _. inversion Ht. by split.
Qed.

Lemma network_rule_wf host protocol d j b b' :
  builder_wf 2 b → network_rule host protocol d j b = inr b' → builder_wf 2 b'.
Proof.
  intros (Hm & Hn & Hh). unfold network_rule.
  intros (pr & _ & (dec & _ & (j' & Hj & (h & Eh & [= <-])%and_then_inr)%and_then_inr)
    %and_then_inr)%and_then_inr.
  split_and!; [done| |done]. simpl. apply Forall_app. split; [done|]. constructor; [|done].
  eapply normalize_host_wf; [done|]. by eapply parse_justification_ok.
Qed.

Lemma from_absolute_path_normal s p :
  from_absolute_path env_home env_current_dir s = Some p → no_dotdot p.
Proof.
  unfold from_absolute_path, absolutize. destruct (is_absolute _).
  - intros [= <-]. apply normalize_no_dotdot.
  - intros (? & _ & ->)%fmap_Some. apply normalize_no_dotdot.
Qed.

Lemma host_executable_wf name paths b b' :
  builder_wf 2 b → host_executable name paths b = inr b' → builder_wf 2 b'.
Proof.
  intros (Hm & Hn & Hh). unfold host_executable.
  intros (_ & _ & (ps & Hf & [= <-])%and_then_inr)%and_then_inr.
  split_and!; [done..|]. apply map_Forall_insert_2; [|done]. revert Hf.
  apply try_fold_inv; [|by split; constructor]. clear.
  intros acc v acc' [F N U]. unfold add_host_path. destruct (unpack_str v); [|done].
  intros (p & Hp & E)%and_then_inr. unfold parse_literal_absolute_path in Hp.
  repeat case_one_in Hp; simplify_eq. case_bool_decide as En; [|done].
  case_bool_decide as Ei; simplify_eq; [done|].
  split.
  - apply Forall_app. split; [done|]. repeat constructor.
    unfold executable_path_lookup_key, executable_lookup_key in *.
    by destruct (file_name p); simplify_eq/=.
  - apply Forall_app. split; [done|]. repeat constructor. by eapply from_absolute_path_normal.
  - apply NoDup_app. split_and!; [done| |apply NoDup_singleton].
    by intros x Hx ->%list_elem_of_singleton.
Qed.

Lemma run_calls_wf calls b : builder_wf 2 b → builder_wf 2 (snd (run_calls calls b)).
Proof.
  revert b. induction calls as [|c calls IH]; intros b Hb; simpl; [done|].
  destruct (run_call b c) as [|b'] eqn:E; [done|]. apply IH. destruct c; simpl in E.
  - by eapply prefix_rule_wf.
  - by eapply network_rule_wf.
  - by eapply host_executable_wf.
Qed.

Lemma parse_policy_wf id contents b : builder_wf 2 b → builder_wf 2 (snd (parse_policy id contents b)).
Proof.
  intros Hb. unfold parse_policy, eval_module. destruct (starlark_eval id contents) as [calls e].
  pose proof (run_calls_wf calls b Hb). by destruct (run_calls calls b).
Qed.

(** ** The rules of the requirements *)

Definition all_decisions (P : Decision → Prop) (m : gmap string (list PrefixRule)) : Prop :=
  ∀ k l r, m !! k = Some l → r ∈ l → P (pr_decision r).

Lemma multi_insert_decisions P m k r :
  all_decisions P m → P (pr_decision r) → all_decisions P (multi_insert k r m).
Proof.
  intros Hm Hr k' l r'. unfold multi_insert. intros [[<- <-]|[_ E]]%lookup_insert_Some; [|by eapply Hm].
  intros [Hi| ->%list_elem_of_singleton]%elem_of_app; [|done].
  destruct (m !! k) as [l|] eqn:E; simpl in Hi; [by eapply Hm|by apply elem_of_nil in Hi].
Qed.

Lemma requirements_token_wf i indexed t : requirements_pattern_token i indexed = inr t → token_wf 1 t.
Proof.
  destruct indexed as [j [token any_of]]. unfold requirements_pattern_token. simpl.
  destruct token, any_of as [[|w alts]|]; try done; case_match; try done; intros [= <-]; [done|].
  simpl. lia.
Qed.

Lemma requirements_rule_wf m indexed m' :
  rules_wf 1 m ∧ all_decisions (.≠ Allow) m → requirements_rule m indexed = inr m' →
  rules_wf 1 m' ∧ all_decisions (.≠ Allow) m'.
Proof.
  destruct indexed as [i rule]. unfold requirements_rule. intros Hm.
  destruct (empty_justification (tr_justification rule)) eqn:J; [done|].
  case_bool_decide; [done|]. intros (ts & Ht & (d & Hd & E)%and_then_inr)%and_then_inr.
  assert (F : Forall (token_wf 1) ts).
  { revert Ht. unfold collect. apply try_fold_inv; [|constructor].
    intros acc x acc' Ha (t & Hx%requirements_token_wf & [= <-])%and_then_inr.
    apply Forall_app. by repeat constructor. }
  assert (Nd : d ≠ Allow) by by destruct (tr_decision rule) as [[]|]; simplify_eq/=.
  destruct ts as [|t ts]; [done|]. injection E as <-. inversion F as [|? ? _ F']; subst.
  revert m Hm. induction (alternatives t) as [|w ws IH]; intros m [Hw Hd']; [done|].
  simpl. apply IH. split; [by apply multi_insert_wf|by apply multi_insert_decisions].
Qed.

(** The policy an administrator imposes allows nothing. *)
Lemma to_policy_wf toml p :
  to_policy toml = inr p → policy_wf 1 p ∧ all_decisions (.≠ Allow) (rules_by_program p).
Proof.
  unfold to_policy. case_bool_decide; [done|]. intros (m & Hm & [= <-])%and_then_inr.
  assert (W : rules_wf 1 m ∧ all_decisions (.≠ Allow) m).
  { revert Hm. apply (try_fold_inv (λ m, rules_wf 1 m ∧ all_decisions (.≠ Allow) m));
      [apply requirements_rule_wf|].
    split; [apply empty_wf|]. intros k l r. by rewrite lookup_empty. }
  split; [|apply W]. split; [apply W|]. split; [constructor|apply map_Forall_empty].
Qed.

(** ** The policies of a session *)

(** A policy that is loaded, with the parse error [unparsed] of a policy file if
    there is one, and then amended by rules and network rules. *)
Inductive session_policy (config : ConfigLayerStack) (unparsed : option ExecPolicyError)
  : Policy → Prop :=
| policy_loaded fs p :
    load_exec_policy_with_warning config fs = inr (p, unparsed) → session_policy config unparsed p
| policy_amended st home amendment :
    session_policy config unparsed (st_policy st) →
    session_policy config unparsed (st_policy (snd (append_amendment_and_update home amendment st)))
| policy_network_amended st home host protocol decision justification :
    session_policy config unparsed (st_policy st) →
    session_policy config unparsed
      (st_policy (snd (append_network_rule_and_update home host protocol decision justification st))).

(** The requirements of the configuration were read from their rules. *)
Definition requirements_read (config : ConfigLayerStack) : Prop :=
  ∀ q, requirements_exec_policy config = Some q → ∃ toml, to_policy toml = inr q.

(** The requirements may give a list of one alternative. *)
Definition least_alternatives (config : ConfigLayerStack) : nat :=
  match requirements_exec_policy config with Some _ => 1 | None => 2 end.

(** The imposed rules are among those of the policy. *)
Definition keeps_imposed (config : ConfigLayerStack) (p : Policy) : Prop :=
  ∀ q program r, requirements_exec_policy config = Some q → r ∈ rules_of q program →
    r ∈ rules_of p program ∧ pr_decision r ≠ Allow.

Lemma load_wf config fs p :
  requirements_read config → load_exec_policy config fs = inr p →
  policy_wf (least_alternatives config) p ∧ keeps_imposed config p.
Proof.
  intros Hq. unfold load_exec_policy. intros (paths & _ & (b & Hb & [= <-])%and_then_inr)%and_then_inr.
  assert (W : builder_wf 2 b).
  { revert Hb. apply try_fold_inv; [|apply empty_wf]. clear.
    intros b file b' Hb. unfold parse_policy_file. destruct (fs_read_to_string fs file); [done|].
    pose proof (parse_policy_wf (display file) s b Hb).
    by destruct (parse_policy _ _ b) as [[] ?]; simplify_eq/=; intros [= <-]. }
  unfold least_alternatives, keeps_imposed. destruct (requirements_exec_policy config) as [q|] eqn:Eq;
    [|by split; [|intros ? ? ?]].
  destruct (Hq q Eq) as [toml [Wq Dq]%to_policy_wf]. split.
  - apply merge_overlay_wf; [|done]. apply (policy_wf_mono 2); [lia|done].
  - intros q' program r [= <-] Hr. unfold rules_of in *. simpl.
    destruct (rules_by_program q !! program) as [l|] eqn:E; simpl in Hr; [|by apply elem_of_nil in Hr].
    split; [|by eapply Dq]. rewrite lookup_union_with, E.
    destruct (pb_rules_by_program b !! program); simpl; [|done]. apply elem_of_app. by right.
Qed.

(** More rules keep the imposed ones. *)
Lemma imposed_grow config p p' :
  (∀ program r, r ∈ rules_of p program → r ∈ rules_of p' program) →
  keeps_imposed config p → keeps_imposed config p'.
Proof. intros G K q program r Eq Hr. destruct (K q program r Eq Hr). eauto. Qed.

Lemma add_prefix_rule_wf n prefix d p p' :
  policy_wf n p → add_prefix_rule prefix d p = inr p' →
  policy_wf n p' ∧ ∀ program r, r ∈ rules_of p program → r ∈ rules_of p' program.
Proof.
  intros (Hm & Hn & Hh). destruct prefix as [|w ws]; [done|]. intros [= <-]. split.
  - split_and!; [|done..]. simpl. apply multi_insert_wf; [done|]. split; [done| |done].
    apply Forall_map, Forall_forall. done.
  - intros program r. unfold rules_of, multi_insert. simpl.
    destruct (decide (w = program)) as [<-|N]; [|by rewrite lookup_insert_ne].
    rewrite lookup_insert_eq. simpl. intros Hr. apply elem_of_app. by left.
Qed.

Lemma add_network_rule_wf n host protocol d j p p' :
  policy_wf n p → add_network_rule host protocol d j p = inr p' →
  policy_wf n p' ∧ rules_by_program p' = rules_by_program p.
Proof.
  intros (Hm & Hn & Hh). unfold add_network_rule. intros (h & Eh & E)%and_then_inr.
  destruct (empty_justification j) eqn:Ej; simplify_eq. split; [|done]. split_and!; [done| |done].
  apply Forall_app. split; [done|]. constructor; [|done]. by eapply normalize_host_wf.
Qed.

(** C14: Every policy of a session is well-formed: each rule is filed under its
    program and no justification is blank; its lists of alternatives have at least
    two words, or one when an administrator's requirements, read from their rules,
    are merged in; the hosts of network rules are single lower-case words without
    wildcards, and the paths of a host executable are distinct normal paths with its
    name. When all policy files parse, every rule of the requirements is in force
    throughout the session, and none of them allows anything. *)
Theorem session_policy_wf config unparsed p :
  requirements_read config → session_policy config unparsed p →
  policy_wf (least_alternatives config) p ∧ (unparsed = None → keeps_imposed config p).
Proof.
  intros Hq. induction 1 as [fs p Hl|st home a _ [IH K]|st home host pr d j _ [IH K]].
  - unfold load_exec_policy_with_warning in Hl. destruct (load_exec_policy config fs) as [e|p'] eqn:E.
    + destruct e; simplify_eq. split; [apply empty_wf|done].
    + simplify_eq. apply load_wf in E as [? ?]; [by split|done].
  - unfold append_amendment_and_update. destruct (blocking_append_allow_prefix_rule _ _ _) as [[] fs];
      [done|]. simpl. destruct (already_allowed _ _); [done|].
    destruct (add_prefix_rule _ _ _) eqn:E; [done|]. apply (add_prefix_rule_wf _ _ _ _ _ IH) in E as [? G].
    split; [done|]. intros U. by eapply imposed_grow; [|apply K].
  - unfold append_network_rule_and_update.
    destruct (blocking_append_network_rule _ _ _ _ _ _) as [[] fs]; [done|]. simpl.
    destruct (add_network_rule _ _ _ _ _) eqn:E; [done|].
    apply (add_network_rule_wf _ _ _ _ _ _ _ IH) in E as [? G]. split; [done|].
    intros U. eapply imposed_grow; [|by apply K]. unfold rules_of. simpl. by rewrite G.
Qed.
End parsing.

(** ** The examples of a policy file *)

(** The words at the start of a command that a pattern accepts. *)
Definition pattern_accepts (ts : list PatternToken) (cmd : list string) : Prop :=
  ∃ args rest, cmd = args ++ rest ∧ Forall2 (λ t w, w ∈ alternatives t) ts args.

Section examples.
Context `{PolicyText} `{ProcessEnv}.

Lemma rules_accept t ts d j cmd :
  pattern_accepts (t :: ts) cmd ↔
  ∃ r, r ∈ map (rule_with_head ts d j) (alternatives t) ∧ rule_accepts r cmd.
Proof.
  unfold pattern_accepts, rule_accepts, rule_takes. setoid_rewrite list_elem_of_fmap. split.
  - intros (args & rest & -> & F). inversion F as [|? w ? args' Hw F']; subst.
    exists (rule_with_head ts d j w). split; [eauto|]. exists args', rest. done.
  - intros (r & (w & -> & Hw) & args & rest & -> & F). exists (w :: args), rest.
    split; [done|]. by constructor.
Qed.

(** The rules a builder files. *)
Lemma filed_rules_of (rules : list PrefixRule) m k :
  default [] (foldl (λ m rule, multi_insert (rule_program rule) rule m) m rules !! k)
  = default [] (m !! k) ++ filter (λ r, rule_program r = k) rules.
Proof.
  revert m. induction rules as [|r rules IH]; intros m; simpl; [by rewrite app_nil_r|].
  rewrite IH. unfold multi_insert. rewrite filter_cons.
  destruct (decide (rule_program r = k)) as [<-|N].
  - rewrite lookup_insert_eq. simpl. by rewrite <- app_assoc.
  - by rewrite lookup_insert_ne.
Qed.

Lemma add_rules_eq rules b :
  foldl add_rule b rules =
    {| pb_rules_by_program :=
         foldl (λ m rule, multi_insert (rule_program rule) rule m) (pb_rules_by_program b) rules;
       pb_network_rules := pb_network_rules b; pb_host_executables := pb_host_executables b;
       pb_pending := pb_pending b |}.
Proof.
  revert b. induction rules as [|r rules IH]; intros b; simpl; [by destruct b|]. by rewrite IH.
Qed.

(** The rules of a pending declaration are filed. *)
Definition filed (b : PolicyBuilder) (v : PendingExampleValidation) : Prop :=
  ∀ r, r ∈ pv_rules v → r ∈ rules_of (build b) (rule_program r).

(** What one call adds to the pending declarations; filed rules stay filed. *)
Lemma run_call_pending b c b' :
  run_call b c = inr b' →
  (∃ vs, pb_pending b' = pb_pending b ++ vs ∧ Forall (filed b') vs ∧
   ∀ pattern d m n j loc, c = Call_prefix_rule pattern d m n j loc →
     ∃ t ts ms ns v dec, parse_pattern pattern = inr (t :: ts) ∧ parse_examples m = inr ms ∧
       parse_examples n = inr ns ∧ vs = [v] ∧ pv_matches v = ms ∧ pv_not_matches v = ns ∧
       pv_rules v = map (rule_with_head ts dec j) (alternatives t)) ∧
  (∀ v, filed b v → filed b' v).
Proof.
  destruct c as [pattern d m n j loc|h pr d j|name paths]; simpl.
  - unfold prefix_rule, parse_justification. destruct (empty_justification j).
    { by intros (? & _ & (? & ? & _)%and_then_inr)%and_then_inr. }
    intros (dec & _ & (j' & [= <-] & (ts & Ht & (ms & Hm & (ns & Hn & E)%and_then_inr)
      %and_then_inr)%and_then_inr)%and_then_inr)%and_then_inr.
    destruct ts as [|t ts]; simplify_eq. rewrite add_rules_eq. split.
    + eexists. split; [done|]. split.
      * constructor; [|done]. intros r Hr. simpl in *. unfold rules_of; simpl.
        rewrite filed_rules_of, elem_of_app, list_elem_of_filter. auto.
      * intros ? ? ? ? ? ? [= <- <- <- <- <- <-]. by do 6 eexists; split_and!.
    + intros v Hv r Hr. apply Hv in Hr. unfold rules_of in *; simpl in *.
      rewrite filed_rules_of. apply elem_of_app. by left.
  - unfold network_rule. intros (? & _ & (? & _ & (? & _ & (? & _ & [= <-])%and_then_inr)
      %and_then_inr)%and_then_inr)%and_then_inr.
    split; [|done]. exists []. rewrite app_nil_r. by split_and!.
  - unfold host_executable. intros (? & _ & (? & _ & [= <-])%and_then_inr)%and_then_inr.
    split; [|done]. exists []. rewrite app_nil_r. by split_and!.
Qed.

Lemma run_calls_pending calls b b' :
  run_calls calls b = (inr tt, b') →
  (∃ vs, pb_pending b' = pb_pending b ++ vs ∧ Forall (filed b') vs ∧
   ∀ pattern d m n j loc, Call_prefix_rule pattern d m n j loc ∈ calls →
     ∃ t ts ms ns v dec, parse_pattern pattern = inr (t :: ts) ∧ parse_examples m = inr ms ∧
       parse_examples n = inr ns ∧ v ∈ vs ∧ pv_matches v = ms ∧ pv_not_matches v = ns ∧
       pv_rules v = map (rule_with_head ts dec j) (alternatives t)) ∧
  (∀ v, filed b v → filed b' v).
Proof.
  revert b. induction calls as [|c calls IH]; intros b; simpl.
  - intros [= <-]. split; [|done]. exists []. rewrite app_nil_r. split_and!; [done..|].
    by intros ? ? ? ? ? ? ?%elem_of_nil.
  - destruct (run_call b c) as [|b1] eqn:E1; [done|].
    apply run_call_pending in E1 as ((vs1 & P1 & F1 & C1) & K1).
    intros ((vs2 & P2 & F2 & C2) & K2)%IH. split; [|eauto]. exists (vs1 ++ vs2). split_and!.
    + by rewrite P2, P1, app_assoc.
    + apply Forall_app. split; [|done]. eapply Forall_impl; [done|]. apply K2.
    + intros pattern d m n j loc [<-|Hc]%elem_of_cons.
      * destruct (C1 _ _ _ _ _ _ eq_refl) as (t & ts & ms & ns & v & dec & ? & ? & ? & -> & ? & ? & ?).
        exists t, ts, ms, ns, v, dec. split_and!; try done. by left.
      * destruct (C2 _ _ _ _ _ _ Hc) as (t & ts & ms & ns & v & dec & ? & ? & ? & ? & ? & ? & ?).
        exists t, ts, ms, ns, v, dec. split_and!; try done. apply elem_of_app. by right.
Qed.

Lemma try_fold_all {E A : Type} (f : A → E + unit) l :
  try_fold (λ _ v, f v) tt l = inr tt → ∀ v, v ∈ l → f v = inr tt.
Proof.
  induction l as [|a l IH]; simpl; [by intros _ ? ?%elem_of_nil|].
  intros ([] & Ha & Hl)%and_then_inr v [->|Hv]%elem_of_cons; auto.
Qed.

Lemma map_err_inr {E F A : Type} (f : E → F) (m : E + A) a : map_err f m = inr a → m = inr a.
Proof. destruct m; simpl; congruence. Qed.

Lemma validate_one_spec b v :
  validate_one b v = inr tt →
  (∀ ex, ex ∈ pv_matches v → ∃ r, applies (validation_policy b v) example_options ex r) ∧
  (∀ ex r, ex ∈ pv_not_matches v → ¬ applies (validation_policy b v) example_options ex r).
Proof.
  unfold validate_one. intros ([] & Hn%map_err_inr & Hm%map_err_inr)%and_then_inr. split.
  - intros ex Hex. unfold validate_match_examples in Hm.
    destruct (List.filter _ _) as [|x l] eqn:E; [|done].
    destruct (policy_matches (validation_policy b v) example_options ex) as [|m l] eqn:Ep.
    + assert (X : ex ∈ []); [|by apply elem_of_nil in X]. rewrite <- E.
      apply list_elem_of_In, filter_In. split; [by apply list_elem_of_In|].
      by apply bool_decide_eq_true.
    + destruct (policy_matches_applies (validation_policy b v) example_options ex m)
        as (r & A & _); [rewrite Ep; left|eauto].
  - intros ex r Hex A. unfold validate_not_match_examples in Hn.
    apply (try_fold_all (λ example, match example_matches (validation_policy b v) example with
      | rule :: _ => inl (ExampleDidMatch (debug_match rule) (render_example example) None)
      | [] => inr tt end) _) with (v := ex) in Hn; [|done].
    apply applies_policy_matches in A as (m & M & _).
    change (policy_matches _ _ _) with (example_matches (validation_policy b v) ex) in M.
    destruct (example_matches _ _); [by apply elem_of_nil in M|done].
Qed.

(** A rule that applies among the rules of a declaration has one that applies
    in the whole policy. *)
Lemma validation_applies b v ex r :
  filed b v → applies (validation_policy b v) example_options ex r →
  ∃ r', applies (build b) example_options ex r'.
Proof.
  intros Hf A.
  assert (R : ∀ k, r ∈ rules_of (validation_policy b v) k → r ∈ rules_of (build b) k).
  { intros k. unfold rules_of at 1. simpl. rewrite filed_rules_of, lookup_empty. simpl.
    rewrite list_elem_of_filter. intros [<- Hr]. by apply Hf. }
  destruct A as [(w & Hh & Hr & A)|(Eo & _ & w & name & Hh & Hn & Hr & A)].
  - exists r. left. exists w. auto.
  - destruct (policy_matches (build b) example_options ex) as [|m l] eqn:E.
    + pose proof (proj1 (policy_matches_nil _ _ _) E) as N. exists r. right.
      split_and!; [done| |].
      * intros r' A'. apply (N r'). by left.
      * exists w, name. auto.
    + destruct (policy_matches_applies (build b) example_options ex m) as (r' & ? & _);
        [rewrite E; left|eauto].
Qed.

(** When a policy file parses, the examples of each of its prefix rules are
    valid: every command given as a match has a rule in the parsed policy that
    applies to it, and no command given as a non-match starts with words its pattern
    accepts. *)
Theorem policy_examples_hold id contents b b' pattern d m n j loc :
  parse_policy id contents b = (inr tt, b') →
  Call_prefix_rule pattern d m n j loc ∈ fst (starlark_eval id contents) →
  ∃ tokens matches not_matches,
    parse_pattern pattern = inr tokens ∧ parse_examples m = inr matches ∧
    parse_examples n = inr not_matches ∧
    (∀ ex, ex ∈ matches → ∃ r, applies (build b') example_options ex r) ∧
    (∀ ex, ex ∈ not_matches → ¬ pattern_accepts tokens ex).
Proof.
  unfold parse_policy, eval_module. destruct (starlark_eval id contents) as [calls e].
  destruct (run_calls calls b) as [r b1] eqn:Er. intros [= Hv <-] Hc. simpl in Hc.
  apply and_then_inr in Hv as (u & Hv1 & Hv2). apply and_then_inr in Hv1 as ([] & -> & _).
  apply run_calls_pending in Er as ((vs & P & F & C) & _).
  unfold validate_pending_examples_from in Hv2. rewrite P, drop_app_length in Hv2.
  destruct (C _ _ _ _ _ _ Hc) as (t & ts & ms & ns & v & dec & Ht & Hm & Hn & Hin & Em & En & Erules).
  exists (t :: ts), ms, ns. split_and!; [done..| |].
  all: rewrite Forall_forall in F; pose proof (F v Hin) as Fv.
  all: apply (try_fold_all _ _ Hv2), validate_one_spec in Hin as [Vm Vn]; subst ms ns.
  - intros ex Hex. destruct (Vm ex Hex) as (rr & A). by eapply validation_applies.
  - intros ex Hex A. apply (rules_accept t ts dec j) in A as (rr & Hr & args & Ht').
    apply (Vn ex rr Hex). left. exists (rule_program rr). rewrite <- Erules in Hr.
    split_and!.
    + by destruct Ht' as (rest & -> & _).
    + unfold rules_of. simpl. rewrite filed_rules_of, lookup_empty. simpl.
      by rewrite list_elem_of_filter.
    + by exists args.
Qed.
End examples.
