(* ===== verification/ExecDemo.v ===== *)
(** * Concrete policies: witnesses and findings of the execution policy

    Small concrete parsers, a JSON printer for text and a file system, at which
    the theorems on policies, approvals and amendments apply, and the
    behaviours of the code the findings of the development describe. *)

From S2P Require Import Prelude RustStr FsModel FsFacts ShellCommand ExecFs.
From S2P Require Import Permissions PermFacts SandboxRoots Profiles ExecPolicy.
From S2P Require Import PolicyFile ExecApproval ExecPolicyProps ApprovalProps.
From S2P Require Import PolicyProps.

(** ** Parameters *)

Definition hex_digit (n : N) : ascii := if (n <? 10)%N then ascii_of_N (48 + n) else ascii_of_N (87 + n).
Definition printable (c : ascii) : bool := (32 <=? code c)%N && (code c <=? 126)%N.
(** The JSON text of one byte of a string. *)
Definition json_char (c : ascii) : list ascii :=
  if (code c =? 34)%N || (code c =? 92)%N then [ascii_of_N 92; c]
  else if printable c then [c]
  else bytes "\u00" ++ [hex_digit (N.div (code c) 16); hex_digit (N.modulo (code c) 16)].
Definition demo_json (s : string) : string :=
  dquote +:+ of_bytes (concat (map json_char (bytes s))) +:+ dquote.

Lemma json_char_printable c : forallb printable (json_char c) = true.
Proof. destruct c as [[] [] [] [] [] [] [] []]; reflexivity. Qed.

Lemma printable_text s : forallb printable (bytes s) = true → line_text s.
Proof.
  rewrite forallb_forall. intros F. assert (F' : ∀ c, c ∈ bytes s → printable c = true)
    by (intros; by apply F, list_elem_of_In). clear F. split_and!.
  - by intros Hin%F'.
  - by intros Hin%F'.
  - unfold utf8_valid. induction (bytes s) as [|c l IH]; [done|]. cbn [utf8_valid_go].
    assert (Hs : utf8_step c l = inr 1).
    { assert (Hc : printable c = true) by (apply F'; left). unfold printable in Hc. to_prop.
      unfold utf8_step, utf8_in. replace (_ && _) with true; [done|]. symmetry.
      apply andb_true_iff. split; apply N.leb_le; lia. }
    rewrite Hs. apply IH. intros. apply F'. by right.
Qed.

#[export] Instance demo_shell : ShellParsers :=
  {| try_parse_shell := λ _, None; parse_with_powershell_ast := λ _ _, None |}.
#[export] Instance demo_env : ProcessEnv :=
  {| env_home := None; env_current_dir := Some ["work"]; env_tmpdir := None |}.

(** A policy file of one rule, whatever its text, unless it does not parse. *)
Definition demo_call : builtin_call :=
  Call_prefix_rule [VStr "git"; VList [VStr "status"; VStr "log"]] (Some "allow")
    (Some [VStr "git log"]) (Some [VList [VStr "git"; VStr "push"]]) None None.

#[export] Instance demo_text : PolicyText := {|
  json_string := demo_json;
  shlex_try_join := λ l, Some (join_with " " l);
  shlex_split := λ s, Some (split_char " " s);
  debug_rule := λ r, rule_program r;
  debug_match := λ _, "";
  starlark_eval := λ _ contents,
    if String.eqb contents "(" then ([], Some (StarlarkError "unexpected end of file" None))
    else ([demo_call], None);
  starlark_failure := λ e, e |}.

#[export] Instance demo_json_text : JsonText.
Proof.
  split. intros s. apply printable_text. simpl. unfold demo_json. rewrite !bytes_app.
  rewrite !forallb_app, bytes_of_bytes. simpl. rewrite andb_true_r. apply forallb_forall.
  intros c (l & Hl & Hc)%in_concat. apply in_map_iff in Hl as (x & <- & _).
  pose proof (json_char_printable x) as F. rewrite forallb_forall in F. auto.
Qed.

(** A home directory without rules. *)
Definition policy_fs : fsys := {[ ["home"] := Dir; ["work"] := Dir ]}.
Definition demo_state : policy_state := {| st_fs := policy_fs; st_policy := Policy_empty |}.

Lemma policy_fs_ok : fs_ok no_links policy_fs.
Proof.
  split.
  - intros p q n Hp Hq Hne Hn. unfold policy_fs in Hp.
    repeat (apply lookup_insert_Some in Hp as [[<- _]|[_ Hp]]);
      try (apply lookup_singleton_Some in Hp as [<- _]);
      destruct q as [|c q]; try done; destruct Hq as [k Hk];
      by destruct q; simplify_eq/=.
  - intros p t Hp. unfold policy_fs in Hp. 
    apply lookup_insert_Some in Hp as [[_ ?]|[_ Hp]]; [done|].
    by apply lookup_singleton_Some in Hp as [_ ?].
  - by vm_compute.
Qed.

(** ** Witnesses *)

Definition demo_request : ExecApprovalRequest := {|
  rq_command := ["cargo"; "build"]; rq_approval_policy := UnlessTrusted;
  rq_permission_profile := read_only_profile;
  rq_file_system_sandbox_policy := file_system_sandbox_policy read_only_profile;
  rq_sandbox_permissions := UseDefault; rq_prefix_rule := None |}.

Lemma demo_cwd : plain_current_dir.
Proof. intros cwd [= <-]. by repeat constructor. Qed.

Definition demo_amendment : ExecPolicyAmendment := {| am_command := ["cargo"; "build"] |}.

(** The user accepts [cargo build]; the next build runs without a prompt. *)
Lemma amendment_accepted_witness :
  ∃ b a, create_exec_approval_requirement_for_command
    (st_policy (snd (append_amendment_and_update ["home"] demo_amendment demo_state))) demo_request
    = Some (Skip b a).
Proof.
  refine (proj2 (proj2 (proj2 (amendment_accepted ["home"] None demo_amendment demo_request demo_state
    (snd (append_amendment_and_update ["home"] demo_amendment demo_state)) demo_cwd _ _ _))) _).
  - vm_compute. reflexivity.
  - discriminate.
  - vm_compute. reflexivity.
  - left. reflexivity.
Defined.

(** The rule reaches the file of the home directory. *)
Lemma amendment_written_witness :
  let p := ["home"; "rules"; "default.rules"] in
  file_of (snd (blocking_append_allow_prefix_rule p ["ls"; "-l"] policy_fs)) p =
    Some (with_line (allow_rule_line ["ls"; "-l"]) (default "" (file_of policy_fs p))).
Proof.
  refine (proj1 (amendment_written no_links ["home"; "rules"; "default.rules"] ["ls"; "-l"] policy_fs
    (snd (blocking_append_allow_prefix_rule ["home"; "rules"; "default.rules"] ["ls"; "-l"]
       policy_fs)) policy_fs_ok _ _)).
  - apply clear_no_links. by repeat constructor.
  - vm_compute. reflexivity.
Defined.

(** An administrator forbids [git push], and the home directory has a policy file. *)
Definition forbid_push : RequirementsExecPolicyToml := {| prefix_rules := [
  {| tr_pattern := [ {| pt_token := Some "git"; pt_any_of := None |};
                     {| pt_token := None; pt_any_of := Some ["push"] |} ];
     tr_decision := Some TomlForbidden; tr_justification := Some "ask first" |}] |}.
Definition imposed_policy : Policy := default Policy_empty (ok_of (to_policy forbid_push)).
Definition imposed_stack : ConfigLayerStack := {|
  stack_layers := [ {| layer_name := User ["home"; "config.toml"] None; disabled_reason := None |} ];
  ignore_user_and_project_exec_policy_rules := false;
  requirements_exec_policy := Some imposed_policy |}.
Definition rules_fs (contents : string) : fsys :=
  <[["home"; "rules"; "a.rules"] := File contents]> (<[["home"; "rules"] := Dir]> policy_fs).
Definition imposed_state : policy_state := {|
  st_fs := rules_fs "";
  st_policy := default Policy_empty (ok_of (load_exec_policy imposed_stack (rules_fs ""))) |}.

(** The user accepts [cargo build] in such a session; the rule on [git push],
    whose list has one word, stays. *)
Lemma session_policy_wf_witness :
  let p := st_policy (snd (append_amendment_and_update ["home"] demo_amendment imposed_state)) in
  policy_wf 1 p ∧ rule_with_head [Alts ["push"]] Forbidden (Some "ask first") "git" ∈ rules_of p "git" ∧
  rules_of p "cargo" = [prefix_rule_of "cargo" ["build"] Allow].
Proof.
  assert (W := session_policy_wf imposed_stack None
    (st_policy (snd (append_amendment_and_update ["home"] demo_amendment imposed_state)))).
  destruct W as [W K].
  - intros q [= <-]. exists forbid_push. vm_compute. reflexivity.
  - apply policy_amended, (policy_loaded _ _ (rules_fs "")). vm_compute. reflexivity.
  - split; [exact W|]. split; [|vm_compute; reflexivity].
    apply (proj1 (K eq_refl imposed_policy "git" _ eq_refl
      ltac:(change (rules_of imposed_policy "git") with
              [rule_with_head [Alts ["push"]] Forbidden (Some "ask first") "git"]; left))).
Defined.

Lemma policy_examples_hold_witness :
  ∃ tokens matches not_matches,
    parse_pattern [VStr "git"; VList [VStr "status"; VStr "log"]] = inr tokens ∧
    parse_examples (Some [VStr "git log"]) = inr matches ∧
    parse_examples (Some [VList [VStr "git"; VStr "push"]]) = inr not_matches ∧
    (∀ ex, ex ∈ matches → ∃ r, applies
       (build (snd (parse_policy "a.rules" "" PolicyBuilder_new))) example_options ex r) ∧
    (∀ ex, ex ∈ not_matches → ¬ pattern_accepts tokens ex).
Proof.
  refine (policy_examples_hold "a.rules" "" PolicyBuilder_new
    (snd (parse_policy "a.rules" "" PolicyBuilder_new)) _ (Some "allow") _ _ None None _ _).
  - vm_compute. reflexivity.
  - simpl. left.
Defined.

(** ** Findings *)

(** A relative program path matches a basename rule, through the current
    directory, although only absolute program paths are to. *)
Lemma relative_path_matches_basename :
  (p ← ok_of (add_prefix_rule ["git"] Allow Policy_empty);
   e ← check_with_options p ["./git"; "push"] (λ _, Prompt) match_options;
   Some (ev_decision e)) = Some Allow.
Proof. vm_compute. reflexivity. Qed.

(** A rule of a later layer that allows a command does not override one of an
    earlier layer that forbids it. *)
Lemma later_layer_cannot_allow :
  (p ← ok_of (add_prefix_rule ["git"; "push"] Forbidden Policy_empty);
   p ← ok_of (add_prefix_rule ["git"; "push"] Allow p);
   e ← check_with_options p ["git"; "push"] (λ _, Prompt) match_options;
   Some (ev_decision e)) = Some Forbidden.
Proof. vm_compute. reflexivity. Qed.

(** Commands that write or run others are known to be safe: [uniq] writes its
    second operand, [sed] runs a script its fourth argument gives, and the tree
    after [--attr-source] is taken for the subcommand. *)
Lemma unsafe_known_safe :
  Forall (λ cmd, is_known_safe_command cmd = true)
    [["uniq"; "in"; "out"]; ["sed"; "-n"; "1p"; "-ew /tmp/out"];
     ["git"; "--attr-source"; "diff"; "push"; "--force"]].
Proof. repeat constructor. Qed.

(** A normalized host can have another normal form: the rule that is kept in
    memory and the one read back from the file are for different hosts. *)
Lemma host_normalized_twice :
  normalize_network_rule_host "[a:1]" = inr "a:1" ∧ normalize_network_rule_host "a:1" = inr "a".
Proof. split; reflexivity. Qed.

(** One policy file that does not parse drops the rules an administrator imposes,
    along with all others. *)
Lemma unparsed_file_drops_requirements :
  (match load_exec_policy_with_warning imposed_stack (rules_fs "") with
   | inr (p, None) => Some (length (rules_of p "git")) | _ => None end) = Some 2 ∧
  (match load_exec_policy_with_warning imposed_stack (rules_fs "(") with
   | inr (p, Some _) => Some (rules_of p "git") | _ => None end) = Some [].
Proof. split; vm_compute; reflexivity. Qed.
