(* ===== verification/PatchApply.v ===== *)
(** * apply-patch: applying a patch

    [seek_sequence.rs] and [lib.rs] of [codex-rs/apply-patch]: locating the
    lines of a chunk, the replacements of a file, and the application of hunks
    through an [ExecutorFileSystem] with the delta of what was committed.
    Writers never fail; [stdout] and [stderr] are the texts written to them. *)

From S2P Require Import Prelude RustStr FsModel StreamText PatchFormat ExecFs.

(** ** seek_sequence.rs *)

(** The characters that are read as ASCII punctuation or a blank. *)
Definition normalise_char (c : list ascii) : list ascii :=
  match map code c with
  | [226; 128; z]%N =>
      if ((144 <=? z)%N && (z <=? 149)%N) then bytes "-"
      else if ((152 <=? z)%N && (z <=? 155)%N) then bytes "'"
      else if ((156 <=? z)%N && (z <=? 159)%N) then bytes dquote
      else if ((130 <=? z)%N && (z <=? 138)%N) || (z =? 175)%N then bytes " "
      else c
  | [226; 136; 146]%N => bytes "-"
  | [226; 129; 159]%N | [227; 128; 128]%N | [194; 160]%N => bytes " "
  | _ => c
  end.

Definition normalise (s : string) : string :=
  of_bytes (concat (map normalise_char (chars (bytes (trim s))))).

(** The lines from [i] on read like the pattern. *)
Definition matches_at (key : string → string) (l pattern : list string) (i : nat) : bool :=
  bool_decide (map key (take (length pattern) (drop i l)) = map key pattern).

(** One loop of [seek_sequence]: [for i in start..=stop]. *)
Definition seek_pass (key : string → string) (l pattern : list string) (start stop : nat)
  : option nat :=
  find_first (matches_at key l pattern) (seq start (S stop - start)).

(** The keys of the four passes, from the strictest on. *)
Definition seek_keys : list (string → string) := [id; trim_end; trim; normalise].

Fixpoint seek_passes (keys : list (string → string)) (l pattern : list string)
    (start stop : nat) : option nat :=
  match keys with
  | [] => None
  | key :: keys' =>
      match seek_pass key l pattern start stop with
      | Some i => Some i
      | None => seek_passes keys' l pattern start stop
      end
  end.

Definition seek_sequence (l pattern : list string) (start : nat) (eof : bool) : option nat :=
  match pattern with
  | [] => Some start
  | _ =>
      if length l <? length pattern then None else
      let search_start :=
        if eof && (length pattern <=? length l) then length l - length pattern else start in
      seek_passes seek_keys l pattern search_start (length l - length pattern)
  end.

(** ** Errors *)

Inductive ApplyPatchError :=
| ApplyParseError (e : ParseError)
| ApplyIoError (context : string) (source : string)
| ComputeReplacements (message : string)
| ImplicitInvocation.

Definition parse_error_text (e : ParseError) : string :=
  match e with
  | InvalidPatchError m => "invalid patch: " +:+ m
  | InvalidHunkError m n => "invalid hunk at line " +:+ pretty n +:+ ", " +:+ m
  end.

Definition apply_error_text (e : ApplyPatchError) : string :=
  match e with
  | ApplyParseError e => parse_error_text e
  | ApplyIoError context source => context +:+ ": " +:+ source
  | ComputeReplacements m => m
  | ImplicitInvocation =>
      "patch detected without explicit call to apply_patch. Rerun as [" +:+ dquote +:+
      "apply_patch" +:+ dquote +:+ ", " +:+ dquote +:+ "<patch>" +:+ dquote +:+ "]"
  end.

(** ** Replacements *)

Abbreviation replacement := (nat * nat * list string)%type.

Definition last_is_empty (l : list string) : bool :=
  match last l with Some s => String.eqb s "" | None => false end.

(** The position of the context line of a chunk, if it has one. *)
Definition seek_context (original_lines : list string) (path_text : string)
    (c : UpdateFileChunk) (line_index : nat) : ApplyPatchError + nat :=
  match change_context c with
  | None => inr line_index
  | Some ctx_line =>
      match seek_sequence original_lines [ctx_line] line_index false with
      | Some idx => inr (idx + 1)
      | None => inl (ComputeReplacements
                       ("Failed to find context '" +:+ ctx_line +:+ "' in " +:+ path_text))
      end
  end.

(** The search for the old lines, repeated without a final empty line. *)
Definition seek_old_lines (original_lines : list string) (c : UpdateFileChunk)
    (line_index : nat) : option (nat * list string * list string) :=
  match seek_sequence original_lines (old_lines c) line_index (is_end_of_file c) with
  | Some i => Some (i, old_lines c, new_lines c)
  | None =>
      if last_is_empty (old_lines c) then
        let pattern := removelast (old_lines c) in
        let new_slice :=
          if last_is_empty (new_lines c) then removelast (new_lines c) else new_lines c in
        (λ i, (i, pattern, new_slice)) <$>
          seek_sequence original_lines pattern line_index (is_end_of_file c)
      else None
  end.

(** One iteration of the loop over the chunks. *)
Definition replacement_step (original_lines : list string) (path_text : string)
    (acc : list replacement * nat) (c : UpdateFileChunk)
  : ApplyPatchError + (list replacement * nat) :=
  let (replacements, line_index) := acc in
  let? line_index := seek_context original_lines path_text c line_index in
  match old_lines c with
  | [] =>
      let insertion_idx :=
        if last_is_empty original_lines then length original_lines - 1
        else length original_lines in
      inr (replacements ++ [(insertion_idx, 0, new_lines c)], line_index)
  | _ =>
      match seek_old_lines original_lines c line_index with
      | Some (start_idx, pattern, new_slice) =>
          inr (replacements ++ [(start_idx, length pattern, new_slice)],
               start_idx + length pattern)
      | None =>
          inl (ComputeReplacements ("Failed to find expected lines in " +:+ path_text +:+ ":" +:+
                 nl +:+ join_with nl (old_lines c)))
      end
  end.

Definition replacement_le (a b : replacement) : bool := fst (fst a) <=? fst (fst b).

Definition compute_replacements (original_lines : list string) (path_text : string)
    (chunks : list UpdateFileChunk) : ApplyPatchError + list replacement :=
  let? acc := try_fold (replacement_step original_lines path_text) ([], 0) chunks in
  inr (sort_by replacement_le (fst acc)).

(** [Vec::remove] of the line at [i], as often as there is one. *)
Fixpoint remove_lines (n i : nat) (l : list string) : list string :=
  match n with
  | O => l
  | S n' =>
      remove_lines n' i (if i <? length l then take i l ++ drop (S i) l else l)
  end.

(** [Vec::insert]: panics ([None]) past the end. *)
Definition vec_insert (i : nat) (s : string) (l : list string) : option (list string) :=
  if i <=? length l then Some (take i l ++ s :: drop i l) else None.

Fixpoint insert_lines (i : nat) (new_segment l : list string) : option (list string) :=
  match new_segment with
  | [] => Some l
  | s :: new_segment' => l' ← vec_insert i s l; insert_lines (S i) new_segment' l'
  end.

Definition apply_replacement (l : option (list string)) (r : replacement)
  : option (list string) :=
  l ← l;
  let '(start_idx, old_len, new_segment) := r in
  insert_lines start_idx new_segment (remove_lines old_len start_idx l).

(** [apply_replacements]: from the last replacement to the first. *)
Definition apply_replacements (l : list string) (replacements : list replacement)
  : option (list string) :=
  foldl apply_replacement (Some l) (reverse replacements).

(** ** The new contents of a file *)

Record AppliedPatch := { original_contents : string; new_contents : string }.

Definition split_original (s : string) : list string :=
  let l := split_char newline s in
  if last_is_empty l then removelast l else l.

Definition finish_lines (l : list string) : string :=
  join_with nl (if last_is_empty l then l else l ++ [""]).

(** What follows the read; [None] where [Vec::insert] panics. *)
Definition derive_from_contents (original : string) (path_text : string)
    (chunks : list UpdateFileChunk) : option (ApplyPatchError + AppliedPatch) :=
  let original_lines := split_original original in
  match compute_replacements original_lines path_text chunks with
  | inl e => Some (inl e)
  | inr replacements =>
      (λ new_lines, inr {| original_contents := original; new_contents := finish_lines new_lines |})
        <$> apply_replacements original_lines replacements
  end.

(** ** Deltas *)

Inductive AppliedPatchFileChange :=
| AddChange (content : string) (overwritten_content : option string)
| DeleteChange (content : string)
| UpdateChange (move_path : option path) (old_content : string)
    (overwritten_move_content : option string) (new_content : string).

Record AppliedPatchChange := { apc_path : path; apc_change : AppliedPatchFileChange }.

Record AppliedPatchDelta := { delta_changes : list AppliedPatchChange; delta_exact : bool }.

Definition delta_empty : AppliedPatchDelta := {| delta_changes := []; delta_exact := true |}.
Definition delta_is_empty (d : AppliedPatchDelta) : bool :=
  match delta_changes d with [] => true | _ => false end.
Definition delta_append (d other : AppliedPatchDelta) : AppliedPatchDelta := {|
  delta_changes := delta_changes d ++ delta_changes other;
  delta_exact := delta_exact d && delta_exact other |}.

Definition push_delta_change (p : path) (c : AppliedPatchFileChange) (d : AppliedPatchDelta)
  : AppliedPatchDelta := {|
  delta_changes := delta_changes d ++ [{| apc_path := p; apc_change := c |}];
  delta_exact := delta_exact d |}.
Definition and_exact (b : bool) (d : AppliedPatchDelta) : AppliedPatchDelta := {|
  delta_changes := delta_changes d; delta_exact := delta_exact d && b |}.

Record AffectedPaths := {
  affected_added : list string;
  affected_modified : list string;
  affected_deleted : list string
}.

(** An [anyhow::Error]: its text and the [io::Error] inside, if any. *)
Record any_error := { ae_text : string; ae_io : option io_error }.

Definition any_io (e : io_error) : any_error := {| ae_text := etext e; ae_io := Some e |}.
(** [with_context]. *)
Definition any_context (context : string) (e : io_error) : any_error :=
  {| ae_text := context; ae_io := Some e |}.
Definition any_apply (e : ApplyPatchError) : any_error :=
  {| ae_text := apply_error_text e; ae_io := None |}.
