(* ===== verification/PatchHunks.v ===== *)
(** * apply-patch: applying the hunks of a patch

    [apply_patch], [apply_hunks] and what they call in [lib.rs] of
    [codex-rs/apply-patch], over an [ExecutorFileSystem].  A computation
    threads the file system and the delta, and keeps both when it fails or
    panics. *)

From S2P Require Import Prelude RustStr FsModel PatchFormat ExecFs PatchApply.

Section hunks.
Context {Ctx F : Type} `{ExecutorFileSystem Ctx F}.
Context (home : option string) (sandbox : option Ctx).

(** ** The monad of an application *)

Record patch_state := {
  ps_fs : F;
  ps_delta : AppliedPatchDelta;
  ps_affected : AffectedPaths
}.

Definition PM (A : Type) : Type := patch_state → outcome any_error A * patch_state.

Definition pret {A : Type} (a : A) : PM A := λ s, (Ok a, s).
Definition pfail {A : Type} (e : any_error) : PM A := λ s, (Err e, s).
Definition pbind {A B : Type} (m : PM A) (k : A → PM B) : PM B := λ s,
  match m s with
  | (Ok a, s') => k a s'
  | (Err e, s') => (Err e, s')
  | (Panic w, s') => (Panic w, s')
  end.
Notation "'do!' x <- m ; k" := (pbind m (λ x, k))
  (at level 10, x pattern, m at level 100, k at level 200).

(** A read, an effect, and a change of the delta. *)
Definition pread {A : Type} (r : F → A) : PM A := λ s, (Ok (r (ps_fs s)), s).
Definition peffect {A : Type} (r : F → A * F) : PM A := λ s,
  let (a, fs) := r (ps_fs s) in
  (Ok a, {| ps_fs := fs; ps_delta := ps_delta s; ps_affected := ps_affected s |}).
Definition on_delta (f : AppliedPatchDelta → AppliedPatchDelta) : PM unit := λ s,
  (Ok tt, {| ps_fs := ps_fs s; ps_delta := f (ps_delta s); ps_affected := ps_affected s |}).
Definition on_affected (f : AffectedPaths → AffectedPaths) : PM unit := λ s,
  (Ok tt, {| ps_fs := ps_fs s; ps_delta := ps_delta s; ps_affected := f (ps_affected s) |}).
Definition plift {A : Type} (r : any_error + A) : PM A :=
  match r with inl e => pfail e | inr a => pret a end.

(** ** Helpers *)

Definition note_existing_path_delta_support (p : path) : PM unit :=
  do! m <- pread (get_metadata p sandbox);
  on_delta (and_exact
    match m with
    | inr m => is_file m && negb (is_symlink m)
    | inl e => bool_decide (ek e = NotFound)
    end).

Definition read_optional_file_text_for_delta (p : path) : PM (option string) :=
  do! _ <- note_existing_path_delta_support p;
  do! r <- pread (read_file_text p sandbox);
  match r with
  | inr content => pret (Some content)
  | inl e =>
      if bool_decide (ek e = NotFound) then pret None
      else do! _ <- on_delta (and_exact false); pret None
  end.

Definition remove_failure_was_side_effect_free (p : path) (expected : option string) : PM bool :=
  match expected with
  | Some expected =>
      do! r <- pread (read_file_text p sandbox);
      pret match r with inr content => bool_decide (content = expected) | inl _ => false end
  | None => pret false
  end.

Definition ensure_not_directory (p : path) : PM (io_error + unit) :=
  do! m <- pread (get_metadata p sandbox);
  pret match m with
       | inl e => inl e
       | inr m =>
           if is_directory m then inl {| ek := InvalidInput; etext := "path is a directory" |}
           else inr tt
       end.

Definition write_context (p : path) : string := "Failed to write file " +:+ display p.

Definition write_file_with_missing_parent_retry (p : path) (contents : string)
  : PM (any_error + unit) :=
  do! r <- peffect (write_file p contents sandbox);
  match r with
  | inr _ => pret (inr tt)
  | inl e =>
      if bool_decide (ek e = NotFound) then
        do! c <- match abs_parent p with
                 | Some parent_abs => peffect (create_directory parent_abs true sandbox)
                 | None => pret (inr tt)
                 end;
        match c with
        | inl e => pret (inl (any_context ("Failed to create parent directories for " +:+
                                           display p) e))
        | inr _ =>
            do! w <- peffect (write_file p contents sandbox);
            pret (map_err (any_context (write_context p)) w)
        end
      else pret (inl (any_context (write_context p) e))
  end.

(** The macro [try_write!]: a failed write makes the delta inexact. *)
Definition try_write (m : PM (any_error + unit)) : PM unit :=
  do! r <- m;
  match r with
  | inr _ => pret tt
  | inl e => do! _ <- on_delta (and_exact false); pfail e
  end.

Definition derive_new_contents_from_chunks (p : path) (chunks : list UpdateFileChunk)
  : PM AppliedPatch :=
  do! r <- pread (read_file_text p sandbox);
  match r with
  | inl e => pfail (any_apply (ApplyIoError ("Failed to read file to update " +:+ display p)
                                 (etext e)))
  | inr original =>
      match derive_from_contents original (display p) chunks with
      | Some (inr a) => pret a
      | Some (inl e) => pfail (any_apply e)
      | None => λ s, (Panic "insertion index (is > len)", s)
      end
  end.

(** A removal that failed: the delta stays exact when the file is still what
    it was. *)
Definition remove_or_fail (p : path) (context : string) (expected : option string) : PM unit :=
  do! d <- ensure_not_directory p;
  match d with
  | inl e => pfail (any_context context e)
  | inr _ =>
      do! r <- peffect (remove p false false sandbox);
      match r with
      | inr _ => pret tt
      | inl e =>
          do! free <- remove_failure_was_side_effect_free p expected;
          do! _ <- on_delta (and_exact free);
          pfail (any_context context e)
      end
  end.

Definition note_added (p : string) : PM unit := on_affected (λ a, {|
  affected_added := affected_added a ++ [p]; affected_modified := affected_modified a;
  affected_deleted := affected_deleted a |}).
Definition note_modified (p : string) : PM unit := on_affected (λ a, {|
  affected_added := affected_added a; affected_modified := affected_modified a ++ [p];
  affected_deleted := affected_deleted a |}).
Definition note_deleted (p : string) : PM unit := on_affected (λ a, {|
  affected_added := affected_added a; affected_modified := affected_modified a;
  affected_deleted := affected_deleted a ++ [p] |}).

(** [Hunk::resolve_path]: the source of an update, not its destination. *)
Definition resolve_path (h : Hunk) (cwd : path) : path :=
  resolve_path_against_base home
    match h with UpdateFile p _ _ => p | AddFile _ _ | DeleteFile _ => hunk_path h end cwd.

Definition last_change (p : path) (c : AppliedPatchFileChange) (d : AppliedPatchDelta)
  : AppliedPatchDelta := {|
  delta_changes := removelast (delta_changes d) ++ [{| apc_path := p; apc_change := c |}];
  delta_exact := delta_exact d |}.

(** ** One hunk *)

Definition apply_add (path_abs : path) (contents affected_path : string) : PM unit :=
  do! overwritten_content <- read_optional_file_text_for_delta path_abs;
  do! _ <- try_write (write_file_with_missing_parent_retry path_abs contents);
  do! _ <- on_delta (push_delta_change path_abs (AddChange contents overwritten_content));
  note_added affected_path.

Definition apply_delete (path_abs : path) (affected_path : string) : PM unit :=
  do! _ <- note_existing_path_delta_support path_abs;
  do! r <- pread (read_file_text path_abs sandbox);
  let deleted_content := ok_of r in
  do! _ <- on_delta (and_exact match deleted_content with Some _ => true | None => false end);
  do! _ <- remove_or_fail path_abs ("Failed to delete file " +:+ display path_abs)
             deleted_content;
  do! _ <- match deleted_content with
           | Some content => on_delta (push_delta_change path_abs (DeleteChange content))
           | None => pret tt
           end;
  note_deleted affected_path.

Definition apply_move (path_abs dest_abs : path) (a : AppliedPatch) (affected_path : string)
  : PM unit :=
  do! overwritten <- read_optional_file_text_for_delta dest_abs;
  do! _ <- try_write (write_file_with_missing_parent_retry dest_abs (new_contents a));
  do! _ <- on_delta (push_delta_change dest_abs (AddChange (new_contents a) overwritten));
  do! _ <- remove_or_fail path_abs ("Failed to remove original " +:+ display path_abs)
             (Some (original_contents a));
  do! _ <- on_delta (last_change path_abs
             (UpdateChange (Some dest_abs) (original_contents a) overwritten (new_contents a)));
  note_modified affected_path.

Definition apply_in_place (path_abs : path) (a : AppliedPatch) (affected_path : string) : PM unit :=
  do! _ <- try_write
    (do! w <- peffect (write_file path_abs (new_contents a) sandbox);
     pret (map_err (any_context (write_context path_abs)) w));
  do! _ <- on_delta (push_delta_change path_abs
             (UpdateChange None (original_contents a) None (new_contents a)));
  note_modified affected_path.

Definition apply_hunk (cwd : path) (h : Hunk) : PM unit :=
  let affected_path := hunk_path h in
  let path_abs := resolve_path h cwd in
  match h with
  | AddFile _ contents => apply_add path_abs contents affected_path
  | DeleteFile _ => apply_delete path_abs affected_path
  | UpdateFile _ move_path chunks =>
      do! _ <- note_existing_path_delta_support path_abs;
      do! a <- derive_new_contents_from_chunks path_abs chunks;
      match move_path with
      | Some dest =>
          apply_move path_abs (resolve_path_against_base home dest cwd) a affected_path
      | None => apply_in_place path_abs a affected_path
      end
  end.

Fixpoint apply_hunks_loop (cwd : path) (hunks : list Hunk) : PM unit :=
  match hunks with
  | [] => pret tt
  | h :: hunks' => do! _ <- apply_hunk cwd h; apply_hunks_loop cwd hunks'
  end.

Definition apply_hunks_to_files (hunks : list Hunk) (cwd : path) : PM AffectedPaths :=
  match hunks with
  | [] => pfail {| ae_text := "No files were modified."; ae_io := None |}
  | _ =>
      do! _ <- apply_hunks_loop cwd hunks;
      λ s, (Ok (ps_affected s), s)
  end.

(** ** The whole application *)

Definition patch_start (fs : F) : patch_state := {|
  ps_fs := fs; ps_delta := delta_empty;
  ps_affected := {| affected_added := []; affected_modified := []; affected_deleted := [] |} |}.

(** The text [print_summary] writes. *)
Definition print_summary (a : AffectedPaths) : string :=
  "Success. Updated the following files:" +:+ nl +:+
  concat_str (map (λ p, "A " +:+ p +:+ nl) (affected_added a)) +:+
  concat_str (map (λ p, "M " +:+ p +:+ nl) (affected_modified a)) +:+
  concat_str (map (λ p, "D " +:+ p +:+ nl) (affected_deleted a)).

Record ApplyPatchFailure := { apf_error : ApplyPatchError; apf_delta : AppliedPatchDelta }.

(** The outcome, what was written to [stdout] and [stderr], and the file
    system afterwards. *)
Record patch_report := {
  pr_outcome : outcome ApplyPatchFailure AppliedPatchDelta;
  pr_stdout : string;
  pr_stderr : string;
  pr_fs : F
}.

(** The error reported for a failed hunk. *)
Definition failure_error (e : any_error) : ApplyPatchError :=
  match ae_io e with
  | Some io => ApplyIoError "I/O error" (etext io)
  | None => ApplyIoError (ae_text e) (ae_text e)
  end.

Definition apply_hunks (hunks : list Hunk) (cwd : path) (fs : F) : patch_report :=
  let (r, s) := apply_hunks_to_files hunks cwd (patch_start fs) in
  match r with
  | Ok affected_paths =>
      {| pr_outcome := Ok (ps_delta s); pr_stdout := print_summary affected_paths;
         pr_stderr := ""; pr_fs := ps_fs s |}
  | Err error =>
      {| pr_outcome := Err {| apf_error := failure_error error; apf_delta := ps_delta s |};
         pr_stdout := ""; pr_stderr := ae_text error +:+ nl; pr_fs := ps_fs s |}
  | Panic w =>
      {| pr_outcome := Panic w; pr_stdout := ""; pr_stderr := ""; pr_fs := ps_fs s |}
  end.

Definition parse_failure_text (e : ParseError) : string :=
  match e with
  | InvalidPatchError message => "Invalid patch: " +:+ message +:+ nl
  | InvalidHunkError message line_number =>
      "Invalid patch hunk on line " +:+ pretty line_number +:+ ": " +:+ message +:+ nl
  end.

Definition apply_patch (patch : string) (cwd : path) (fs : F) : patch_report :=
  match parse_patch patch with
  | inl e =>
      {| pr_outcome := Err {| apf_error := ApplyParseError e; apf_delta := delta_empty |};
         pr_stdout := ""; pr_stderr := parse_failure_text e; pr_fs := fs |}
  | inr source => apply_hunks (aa_hunks source) cwd fs
  end.
End hunks.
Arguments ps_fs {F} _.
Arguments ps_delta {F} _.
Arguments ps_affected {F} _.
Arguments pr_outcome {F} _.
Arguments pr_stdout {F} _.
Arguments pr_stderr {F} _.
Arguments pr_fs {F} _.
