(* ===== verification/PatchSeek.v ===== *)
(** * apply-patch: locating and replacing lines

    What the four passes of [seek_sequence] find, that the replacements of a
    file never run past its end, and that the chunks of a correct diff replace
    exactly the lines they describe. *)

From S2P Require Import Prelude RustStr PatchFormat PatchApply.

(** ** The passes *)

Lemma find_first_seq (f : nat → bool) (a n : nat) :
  match find_first f (seq a n) with
  | Some i => a ≤ i < a + n ∧ f i = true ∧ ∀ j, a ≤ j < i → f j = false
  | None => ∀ j, a ≤ j < a + n → f j = false
  end.
Proof.
  revert a. induction n as [|n IH]; intros a; simpl; [lia|].
  destruct (f a) eqn:E; [split_and!; [lia|lia|done|lia]|].
  specialize (IH (S a)). destruct (find_first f (seq (S a) n)) as [i|].
  - destruct IH as (I1 & I2 & I3). split_and!; [lia|lia|done|].
    intros j Hj. destruct (decide (j = a)) as [->|]; [done|]. apply I3. lia.
  - intros j Hj. destruct (decide (j = a)) as [->|]; [done|]. apply IH. lia.
Qed.

Lemma seek_pass_spec key (l pattern : list string) start stop :
  match seek_pass key l pattern start stop with
  | Some i => start ≤ i ≤ stop ∧ matches_at key l pattern i = true ∧
              ∀ j, start ≤ j < i → matches_at key l pattern j = false
  | None => ∀ j, start ≤ j ≤ stop → matches_at key l pattern j = false
  end.
Proof.
  unfold seek_pass. pose proof (find_first_seq (matches_at key l pattern) start (S stop - start)) as F.
  destruct (find_first _ _) as [i|].
  - destruct F as (F1 & F2 & F3). split_and!; [lia|lia|done|done].
  - intros j Hj. apply F. lia.
Qed.

(** The first place where the first of the keys that matches anywhere
    matches. *)
Definition best_match (keys : list (string → string)) (l pattern : list string)
    (start stop i : nat) : Prop :=
  start ≤ i ≤ stop ∧
  ∃ strict key loose, keys = strict ++ key :: loose ∧
    matches_at key l pattern i = true ∧
    (∀ j, start ≤ j < i → matches_at key l pattern j = false) ∧
    ∀ key' j, key' ∈ strict → start ≤ j ≤ stop → matches_at key' l pattern j = false.

Lemma seek_passes_spec keys (l pattern : list string) start stop :
  match seek_passes keys l pattern start stop with
  | Some i => best_match keys l pattern start stop i
  | None => ∀ key j, key ∈ keys → start ≤ j ≤ stop → matches_at key l pattern j = false
  end.
Proof.
  induction keys as [|key keys IH]; simpl.
  { by intros key j ?%elem_of_nil. }
  pose proof (seek_pass_spec key l pattern start stop) as P.
  destruct (seek_pass key l pattern start stop) as [i|].
  - destruct P as (P1 & P2 & P3). split; [done|]. exists [], key, keys.
    split_and!; [done..|]. by intros key' j ?%elem_of_nil.
  - destruct (seek_passes keys l pattern start stop) as [i|].
    + destruct IH as (I0 & strict & key' & loose & -> & I1 & I2 & I3). split; [done|].
      exists (key :: strict), key', loose. split_and!; [done..|].
      intros k j [->|Hk]%elem_of_cons Hj; [by apply P|by apply I3].
    + intros k j [->|Hk]%elem_of_cons Hj; [by apply P|by apply IH].
Qed.

(** ** Where a search ends *)

Lemma seek_sequence_bound (l pattern : list string) start eof i :
  seek_sequence l pattern start eof = Some i → start ≤ length l → i + length pattern ≤ length l.
Proof.
  unfold seek_sequence. destruct pattern as [|s pattern]; [intros [= ->]; simpl; lia|].
  destruct (Nat.ltb_spec (length l) (length (s :: pattern))) as [|L]; [done|].
  intros E. match type of E with seek_passes ?k ?a ?b ?c ?d = _ =>
    pose proof (seek_passes_spec k a b c d) as P end.
  rewrite E in P. destruct P as [P _]. lia.
Qed.

(** An exact match before which nothing matches exactly. *)
Lemma matches_exact (l pattern : list string) i :
  matches_at id l pattern i = true ↔ take (length pattern) (drop i l) = pattern.
Proof. unfold matches_at. rewrite bool_decide_eq_true. by rewrite !map_id. Qed.

Lemma seek_sequence_exact (l pattern : list string) start i (eof : bool) :
  pattern ≠ [] → i + length pattern ≤ length l →
  (if eof then i = length l - length pattern else start ≤ i) →
  take (length pattern) (drop i l) = pattern →
  (eof = false → ∀ j, start ≤ j < i → take (length pattern) (drop j l) ≠ pattern) →
  seek_sequence l pattern start eof = Some i.
Proof.
  intros N B S0 M F. unfold seek_sequence. destruct pattern as [|s pattern]; [done|].
  set (pat := s :: pattern) in *.
  destruct (Nat.ltb_spec (length l) (length pat)) as [|L]; [lia|].
  replace (eof && (length pat <=? length l)) with eof
    by (destruct eof; cbn [andb]; [symmetry; by apply Nat.leb_le|done]).
  set (from := if eof then _ else _). cbn [seek_passes seek_keys].
  pose proof (seek_pass_spec id l pat from (length l - length pat)) as P.
  assert (Hfrom : from ≤ i ≤ length l - length pat) by (unfold from; destruct eof; lia).
  destruct (seek_pass id l pat from (length l - length pat)) as [k|].
  - destruct P as (P1 & P2 & P3). f_equal. destruct (decide (k < i)) as [K|K].
    + exfalso. apply matches_exact in P2. destruct eof; unfold from in *; [lia|].
      apply (F eq_refl k); [lia|done].
    + destruct (decide (i < k)) as [K'|]; [|lia].
      specialize (P3 i ltac:(lia)). by rewrite (proj2 (matches_exact l pat i) M) in P3.
  - specialize (P i Hfrom). by rewrite (proj2 (matches_exact l pat i) M) in P.
Qed.

(** ** Removing and inserting *)

Lemma remove_lines_eq n i (l : list string) :
  i ≤ length l → remove_lines n i l = take i l ++ drop (i + n) l.
Proof.
  revert l. induction n as [|n IH]; intros l L; simpl.
  - by rewrite Nat.add_0_r, take_drop.
  - destruct (Nat.ltb_spec i (length l)) as [L1|L1].
    + rewrite IH by (rewrite length_app, length_take, length_drop; lia).
      rewrite take_app_le by (rewrite length_take; lia).
      rewrite take_take, Nat.min_id. f_equal.
      rewrite drop_app_ge by (rewrite length_take; lia).
      rewrite length_take, drop_drop. f_equal. lia.
    + rewrite IH by lia. f_equal. rewrite !drop_ge by lia. done.
Qed.

Lemma insert_lines_eq i (new l : list string) :
  i ≤ length l → insert_lines i new l = Some (take i l ++ new ++ drop i l).
Proof.
  revert i l. induction new as [|s new IH]; intros i l L; simpl.
  - by rewrite take_drop.
  - unfold vec_insert. rewrite (proj2 (Nat.leb_le i (length l)) L). simpl.
    rewrite IH by (rewrite length_app; simpl; rewrite length_take, length_drop; lia).
    f_equal. rewrite (take_app _ _ (S i)), (drop_app _ _ (S i)).
    rewrite length_take, Nat.min_l by lia. replace (S i - i) with 1 by lia.
    rewrite (take_ge (take i l)), (drop_ge (take i l)) by (rewrite length_take; lia).
    simpl. by rewrite take_0, drop_0, <- app_assoc.
Qed.

Lemma apply_replacement_eq (l new : list string) i n :
  i ≤ length l →
  apply_replacement (Some l) (i, n, new) = Some (take i l ++ new ++ drop (i + n) l).
Proof.
  intros L. simpl. rewrite remove_lines_eq by done.
  rewrite insert_lines_eq by (rewrite length_app, length_take; lia).
  rewrite (take_app_le (take i l)) by (rewrite length_take; lia).
  rewrite take_take, Nat.min_id. do 2 f_equal.
  rewrite drop_app, drop_ge by (rewrite length_take; lia).
  by rewrite length_take, Nat.min_l, Nat.sub_diag, drop_0 by lia.
Qed.

(** ** No replacement runs past the end *)

Definition start_of (r : replacement) : nat := fst (fst r).

#[local] Instance replacement_le_total : Total (λ x y, Is_true (replacement_le x y)) :=
  key_le_total _.
#[local] Instance replacement_le_trans : Transitive (λ x y, Is_true (replacement_le x y)) :=
  key_le_trans _.

Lemma apply_sorted_total (original : list string) (rs : list replacement) :
  StronglySorted (λ x y, Is_true (replacement_le x y)) rs →
  (∀ r, r ∈ rs → start_of r ≤ length original) →
  ∃ l, apply_replacements original rs = Some l ∧
       match rs with r :: _ => start_of r ≤ length l | [] => l = original end.
Proof.
  unfold apply_replacements. induction 1 as [|r rs S0 IH F]; intros B.
  - by exists original.
  - destruct IH as (l & E & L). { intros r' Hr'. apply B. by right. }
    rewrite reverse_cons, foldl_app. simpl (foldl _ _ [_]).
    change (Some original) with (Some original : option (list string)). rewrite E.
    destruct r as [[i n] new].
    assert (Li : i ≤ length l).
    { destruct rs as [|r' rs]; [subst; apply (B (i, n, new)); left|].
      inversion F as [|? ? R _]; subst. unfold replacement_le in R.
      apply Is_true_true, Nat.leb_le in R. simpl in R. unfold start_of in L. lia. }
    rewrite apply_replacement_eq by done. eexists. split; [done|]. unfold start_of. simpl.
    rewrite length_app, length_take. lia.
Qed.

Lemma replacement_step_bound (original : list string) path acc c acc' :
  replacement_step original path acc c = inr acc' →
  snd acc ≤ length original → (∀ r, r ∈ fst acc → start_of r ≤ length original) →
  snd acc' ≤ length original ∧ ∀ r, r ∈ fst acc' → start_of r ≤ length original.
Proof.
  destruct acc as [rs k]. simpl. intros E L B.
  destruct (seek_context original path c k) as [e|k'] eqn:C; [done|]. simpl in E.
  assert (L' : k' ≤ length original).
  { unfold seek_context in C. destruct (change_context c) as [s|]; [|by injection C as <-].
    destruct (seek_sequence original [s] k false) as [i|] eqn:S0; [|done].
    injection C as <-. by apply (seek_sequence_bound _ _ _ _ _ S0). }
  assert (snoc : ∀ i n new, i ≤ length original →
    ∀ r, r ∈ rs ++ [(i, n, new)] → start_of r ≤ length original).
  { intros i n new Hi r [Hr| ->%list_elem_of_singleton]%elem_of_app; [by apply B|done]. }
  destruct (old_lines c) as [|s old] eqn:O.
  - injection E as <-. simpl. split; [done|]. apply snoc. destruct (last_is_empty original); lia.
  - destruct (seek_old_lines original c k') as [[[i pat] new]|] eqn:S0; [|done].
    injection E as <-. simpl. unfold seek_old_lines in S0.
    assert (I : i + length pat ≤ length original).
    { destruct (seek_sequence original (old_lines c) k' _) as [j|] eqn:S1.
      - injection S0 as <- <- <-. by apply (seek_sequence_bound _ _ _ _ _ S1).
      - destruct (last_is_empty (old_lines c)); [|done].
        apply fmap_Some in S0 as (j & S2 & [= -> -> ->]).
        by apply (seek_sequence_bound _ _ _ _ _ S2). }
    split; [done|]. apply snoc. lia.
Qed.

Lemma compute_replacements_bound (original : list string) path chunks rs :
  compute_replacements original path chunks = inr rs →
  StronglySorted (λ x y, Is_true (replacement_le x y)) rs ∧
  ∀ r, r ∈ rs → start_of r ≤ length original.
Proof.
  unfold compute_replacements. intros (acc & E & [= <-])%and_then_inr.
  split; [apply sort_by_sorted; apply _|].
  intros r. rewrite sort_by_Permutation.
  assert (H : ∀ acc0, try_fold (replacement_step original path) acc0 chunks = inr acc →
    snd acc0 ≤ length original → (∀ r, r ∈ fst acc0 → start_of r ≤ length original) →
    ∀ r, r ∈ fst acc → start_of r ≤ length original).
  { clear E r. induction chunks as [|c cs IH]; intros acc0 E L B.
    - by injection E as <-.
    - simpl in E. apply and_then_inr in E as (acc1 & E1 & E2).
      destruct (replacement_step_bound _ _ _ _ _ E1 L B) as [L1 B1]. by eapply IH. }
  apply (H _ E); simpl; [lia|]. by intros r' ?%elem_of_nil.
Qed.

Lemma derive_total (original path : string) chunks :
  derive_from_contents original path chunks ≠ None.
Proof.
  unfold derive_from_contents.
  destruct (compute_replacements _ path chunks) as [e|rs] eqn:E; [done|].
  destruct (compute_replacements_bound _ _ _ _ E) as [S0 B].
  destruct (apply_sorted_total _ _ S0 B) as (l & -> & _). done.
Qed.

(** ** The chunks of a correct diff *)

(** The first place where the old lines stand, exactly, is after [mid]. *)
Definition first_block (old mid after : list string) : Prop :=
  ∀ u w, mid ++ old ++ after = u ++ old ++ w → length mid ≤ length u.

(** A chunk describes the lines between [before] and [after]. *)
Record describes (c : UpdateFileChunk) (before after : list string) : Prop := {
  ds_old : old_lines c ≠ [];
  ds_place : ∃ pre mid, before = pre ++ mid ∧
    match change_context c with
    | None => pre = []
    | Some s => ∃ above, pre = above ++ [s] ∧ s ∉ above
    end ∧
    if is_end_of_file c then after = [] else first_block (old_lines c) mid after
}.

(** [edits l cs r]: the chunks [cs] of a diff turn the lines [l] into [r]. *)
Inductive edits : list string → list UpdateFileChunk → list string → Prop :=
| edits_end l : edits l [] l
| edits_chunk before c after cs r :
    describes c before after → edits after cs r →
    edits (before ++ old_lines c ++ after) (c :: cs) (before ++ new_lines c ++ r).

Lemma take_block (l old after : list string) :
  take (length old) (drop (length l) (l ++ old ++ after)) = old.
Proof. by rewrite drop_app_length, take_app_length. Qed.

Lemma block_split (l old : list string) j :
  take (length old) (drop j l) = old → ∃ w, l = take j l ++ old ++ w.
Proof.
  intros E. exists (drop (length old) (drop j l)).
  rewrite <- E at 1. by rewrite take_drop, take_drop.
Qed.

Lemma seek_context_found (front pre mid rest : list string) path c :
  match change_context c with
  | None => pre = []
  | Some s => ∃ above, pre = above ++ [s] ∧ s ∉ above
  end →
  seek_context (front ++ pre ++ mid ++ rest) path c (length front) =
    inr (length front + length pre).
Proof.
  unfold seek_context. destruct (change_context c) as [s|]; [|intros ->; simpl; f_equal; lia].
  intros (above & -> & N). rewrite (seek_sequence_exact _ [s] _ (length front + length above)).
  - rewrite length_app. simpl. f_equal. lia.
  - done.
  - rewrite !length_app. simpl. lia.
  - lia.
  - change 1 with (length [s]). rewrite <- length_app.
    replace (front ++ (above ++ [s]) ++ mid ++ rest)
      with ((front ++ above) ++ [s] ++ mid ++ rest) by (by rewrite <- !app_assoc).
    apply take_block.
  - intros _ j Hj E. apply N. rewrite drop_app_ge in E by lia.
    rewrite <- app_assoc, drop_app_le in E by lia.
    destruct (drop (j - length front) above) as [|x k] eqn:D.
    + apply (f_equal length) in D. rewrite length_drop in D. simpl in D. lia.
    + simpl in E. injection E as ->. rewrite <- (take_drop (j - length front) above), D.
      apply elem_of_app. right. left.
Qed.

(** The step of the loop for a chunk that describes the lines at hand. *)
Lemma replacement_step_found (front before after : list string) path c rs :
  describes c before after →
  replacement_step (front ++ before ++ old_lines c ++ after) path (rs, length front) c =
    inr (rs ++ [(length front + length before, length (old_lines c), new_lines c)],
         length (front ++ before ++ old_lines c)).
Proof.
  intros [N (pre & mid & -> & C & P)]. unfold replacement_step.
  rewrite <- (app_assoc pre), seek_context_found by done. cbn [and_then].
  destruct (old_lines c) as [|s old] eqn:O; [done|]. rewrite <- O in *.
  set (l := front ++ pre ++ mid ++ old_lines c ++ after).
  assert (El : l = (front ++ pre ++ mid) ++ old_lines c ++ after)
    by (unfold l; by rewrite <- !app_assoc).
  assert (S1 : seek_sequence l (old_lines c) (length front + length pre) (is_end_of_file c) =
    Some (length front + length pre + length mid)).
  { apply seek_sequence_exact; [done| | | |].
    - rewrite El, !length_app. lia.
    - destruct (is_end_of_file c); [|lia]. subst after. rewrite El, !length_app. simpl. lia.
    - rewrite El. replace (length front + length pre + length mid)
        with (length (front ++ pre ++ mid)) by (rewrite !length_app; lia). apply take_block.
    - intros Eof j Hj M. rewrite Eof in P. rewrite El in M.
      destruct (block_split _ _ _ M) as [w E].
      specialize (P (drop (length front + length pre) (take j l)) w).
      assert (E' : mid ++ old_lines c ++ after =
        drop (length front + length pre) (take j l) ++ old_lines c ++ w).
      { assert (D : drop (length front + length pre) l = mid ++ old_lines c ++ after).
        { unfold l. rewrite <- length_app, (app_assoc front). apply drop_app_length. }
        rewrite <- El in E. rewrite <- D. rewrite E at 1.
        rewrite drop_app_le by (rewrite length_take, El, !length_app; lia). done. }
      apply P in E'. rewrite length_drop, length_take in E'. lia. }
  unfold seek_old_lines. rewrite S1. do 2 f_equal.
  - rewrite length_app. by rewrite Nat.add_assoc.
  - rewrite !length_app. lia.
Qed.

(** The replacements of a correct diff: increasing starts. *)
Fixpoint block_starts (k : nat) (rs : list replacement) : Prop :=
  match rs with
  | [] => True
  | (i, n, _) :: rs' => k ≤ i ∧ 0 < n ∧ block_starts (i + n) rs'
  end.

Lemma block_starts_ge k rs r : block_starts k rs → r ∈ rs → k ≤ start_of r.
Proof.
  revert k. induction rs as [|[[i n] new] rs IH]; intros k B; [by intros ?%elem_of_nil|].
  destruct B as (B1 & B2 & B3). intros [->|Hr]%elem_of_cons; [done|].
  pose proof (IH _ B3 Hr). lia.
Qed.

Lemma block_starts_distinct k rs r1 r2 :
  block_starts k rs → r1 ∈ rs → r2 ∈ rs → start_of r1 = start_of r2 → r1 = r2.
Proof.
  revert k. induction rs as [|[[i n] new] rs IH]; intros k B; [by intros ?%elem_of_nil|].
  destruct B as (B1 & B2 & B3).
  intros [->|H1]%elem_of_cons [->|H2]%elem_of_cons; try done; cbn [start_of fst].
  - intros E. pose proof (block_starts_ge _ _ _ B3 H2). unfold start_of in *. simpl in E. lia.
  - intros E. pose proof (block_starts_ge _ _ _ B3 H1). unfold start_of in *. simpl in E. lia.
  - by eapply IH.
Qed.

Lemma block_starts_sorted k rs :
  block_starts k rs → StronglySorted (λ x y, Is_true (replacement_le x y)) rs.
Proof.
  revert k. induction rs as [|[[i n] new] rs IH]; intros k B; [constructor|].
  destruct B as (B1 & B2 & B3). constructor; [by eapply IH|]. apply Forall_forall.
  intros r Hr. pose proof (block_starts_ge _ _ _ B3 Hr). unfold replacement_le.
  apply Is_true_true, Nat.leb_le. unfold start_of in *. simpl. lia.
Qed.

Lemma sort_blocks k rs : block_starts k rs → sort_by replacement_le rs = rs.
Proof.
  intros B. apply (StronglySorted_unique_strong (λ x y, Is_true (replacement_le x y))).
  - intros r1 r2 H1 H2 L1 L2. rewrite sort_by_Permutation in H1.
    eapply block_starts_distinct; [exact B|done|done|].
    unfold replacement_le in *. apply Is_true_true, Nat.leb_le in L1, L2.
    unfold start_of. lia.
  - apply sort_by_sorted; apply _.
  - by eapply block_starts_sorted.
  - apply sort_by_Permutation.
Qed.

Lemma edits_replacements l cs r path :
  edits l cs r → ∀ front rs0, ∃ rs k,
    try_fold (replacement_step (front ++ l) path) (rs0, length front) cs = inr (rs0 ++ rs, k) ∧
    block_starts (length front) rs ∧
    apply_replacements (front ++ l) rs = Some (front ++ r).
Proof.
  induction 1 as [l|before c after cs r D E IH]; intros front rs0.
  - exists [], (length front). rewrite app_nil_r. done.
  - destruct (IH (front ++ before ++ old_lines c)
      (rs0 ++ [(length front + length before, length (old_lines c), new_lines c)]))
      as (rs & k & T & B & A).
    rewrite <- !app_assoc in T, A.
    exists ((length front + length before, length (old_lines c), new_lines c) :: rs), k.
    split_and!.
    + cbn [try_fold]. rewrite replacement_step_found by done. cbn [and_then].
      by rewrite T.
    + cbn [block_starts]. rewrite !length_app in B.
      destruct D as [N _]. destruct (old_lines c); [done|]. simpl in *.
      split_and!; [lia|lia|]. by rewrite Nat.add_assoc in B.
    + unfold apply_replacements in A |- *. rewrite reverse_cons, foldl_app, A.
      cbn [foldl]. rewrite apply_replacement_eq by (rewrite !length_app; lia).
      f_equal. rewrite <- (app_assoc before), <- length_app, (app_assoc front before (old_lines c ++ r)).
      by rewrite take_app_length, drop_app_add, drop_app_length, <- app_assoc.
Qed.

(** A correct diff is applied as it reads. *)
Lemma derive_edits (original path : string) cs r :
  edits (split_original original) cs r →
  derive_from_contents original path cs =
    Some (inr {| original_contents := original; new_contents := finish_lines r |}).
Proof.
  intros E. destruct (edits_replacements _ _ _ path E [] []) as (rs & k & T & B & A).
  unfold derive_from_contents, compute_replacements. simpl in T. rewrite T. cbn [and_then fst].
  rewrite (sort_blocks 0) by exact B. simpl in A. by rewrite A.
Qed.
