(* ===== verification/PatchLaws.v ===== *)
(** * apply-patch: what applying a patch does to the files

    [FileLaws] is what the application relies on from an
    [ExecutorFileSystem]: an invariant of its states and the contents of its
    files as a function of the path.  Against it: a successful application has
    the effect of the hunks on the contents, and an exact delta undoes whatever
    was committed.  [DirectFileSystem] obeys it on file systems without
    symbolic links. *)

From S2P Require Import Prelude RustStr FsModel FsFacts Exec PatchFormat ExecFs.
From S2P Require Import PatchApply PatchHunks PatchSeek.

(** The contents of the files. *)
Abbreviation contents := (path → option string).
Definition same_contents : relation contents := λ v w, ∀ q, v q = w q.

#[export] Instance same_contents_equiv : Equivalence same_contents.
Proof. split; [by intros v q|by intros v w E q|intros u v w E1 E2 q; by rewrite E1]. Qed.

#[export] Instance fput_proper p o : Proper (same_contents ==> same_contents) (fput p o).
Proof. intros v w E q. unfold fput. destruct (decide (q = p)); [done|apply E]. Qed.

Class FileLaws (Ctx F : Type) `{ExecutorFileSystem Ctx F}
    (inv : F → Prop) (view : F → contents) : Prop := {
  law_read p fs s :
    inv fs → no_dotdot p → read_file p (None : option Ctx) fs = inr s → view fs p = Some s;
  law_read_missing p fs e :
    inv fs → no_dotdot p → read_file p (None : option Ctx) fs = inl e → ek e = NotFound →
    view fs p = None;
  law_write p s fs r fs' :
    inv fs → no_dotdot p → write_file p s (None : option Ctx) fs = (r, fs') →
    inv fs' ∧
    match r with
    | inr _ => same_contents (view fs') (fput p (Some s) (view fs))
    | inl e => ek e = NotFound → same_contents (view fs') (view fs)
    end;
  law_create p fs r fs' :
    inv fs → no_dotdot p → create_directory p true (None : option Ctx) fs = (r, fs') →
    inv fs' ∧ same_contents (view fs') (view fs);
  law_remove p fs m r fs' :
    inv fs → no_dotdot p →
    get_metadata p (None : option Ctx) fs = inr m → is_directory m = false →
    remove p false false (None : option Ctx) fs = (r, fs') →
    inv fs' ∧ (∀ q, q ≠ p → view fs' q = view fs q) ∧
    match r with inr _ => view fs' p = None | inl _ => True end
}.

(** ** The abstract specification *)

(** What a hunk does to the contents. *)
Definition spec_hunk (home : option string) (cwd : path) (v : contents) (h : Hunk)
  : option contents :=
  let p := resolve_path home h cwd in
  match h with
  | AddFile _ s => Some (fput p (Some s) v)
  | DeleteFile _ => Some (fput p None v)
  | UpdateFile _ move chunks =>
      s ← v p;
      match derive_from_contents s (display p) chunks with
      | Some (inr a) =>
          Some match move with
               | None => fput p (Some (new_contents a)) v
               | Some d =>
                   fput p None
                     (fput (resolve_path_against_base home d cwd) (Some (new_contents a)) v)
               end
      | _ => None
      end
  end.

Fixpoint spec_hunks (home : option string) (cwd : path) (v : contents) (hs : list Hunk)
  : option contents :=
  match hs with
  | [] => Some v
  | h :: hs' => v' ← spec_hunk home cwd v h; spec_hunks home cwd v' hs'
  end.

(** Taking a change back. *)
Definition undo_change (c : AppliedPatchChange) (v : contents) : contents :=
  match apc_change c with
  | AddChange _ overwritten => fput (apc_path c) overwritten v
  | DeleteChange s => fput (apc_path c) (Some s) v
  | UpdateChange None old _ _ => fput (apc_path c) (Some old) v
  | UpdateChange (Some d) old overwritten _ =>
      fput (apc_path c) (Some old) (fput d overwritten v)
  end.

(** The last change is taken back first. *)
Definition undo (cs : list AppliedPatchChange) (v : contents) : contents :=
  foldr undo_change v cs.

#[export] Instance undo_change_proper c : Proper (same_contents ==> same_contents) (undo_change c).
Proof.
  intros v w E. unfold undo_change. destruct (apc_change c) as [| |[d|]]; by rewrite E.
Qed.

#[export] Instance undo_proper cs : Proper (same_contents ==> same_contents) (undo cs).
Proof.
  intros v w E. induction cs as [|c cs IH]; [done|]. change (same_contents
    (undo_change c (undo cs v)) (undo_change c (undo cs w))). by rewrite IH.
Qed.

Lemma undo_app cs ds v : undo (cs ++ ds) v = undo cs (undo ds v).
Proof. unfold undo. apply foldr_app. Qed.

Lemma fput_fput p (o o' : option string) (v : contents) :
  same_contents (fput p o (fput p o' v)) (fput p o v).
Proof. intros q. unfold fput. by destruct (decide (q = p)). Qed.

Lemma fput_same p (o : option string) (v : contents) : v p = o → same_contents (fput p o v) v.
Proof. intros E q. unfold fput. destruct (decide (q = p)) as [->|]; done. Qed.

(** ** Runs of the application *)

Section laws.
Context {Ctx F : Type} `{FileLaws Ctx F inv view}.
Context (home : option string).

Implicit Types (s : patch_state (F:=F)).

Definition prun {A : Type} (P : patch_state (F:=F) → Prop) (m : PM A)
    (Q : A → patch_state (F:=F) → Prop) (R : patch_state (F:=F) → Prop) : Prop :=
  ∀ s, P s →
    match m s with
    | (Ok a, s') => Q a s'
    | (Err _, s') => R s'
    | (Panic _, _) => False
    end.

Lemma prun_bind {A B : Type} P (m : PM A) (k : A → PM B) Q Q' R :
  prun P m Q R → (∀ a, prun (Q a) (k a) Q' R) → prun P (pbind m k) Q' R.
Proof.
  intros Hm Hk s Hs. unfold pbind. specialize (Hm s Hs).
  destruct (m s) as [[a|e|w] s']; [by apply Hk|done|done].
Qed.

Lemma prun_conseq {A : Type} P P' (m : PM A) (Q Q' : A → patch_state → Prop) R R' :
  prun P' m Q' R' → (∀ s, P s → P' s) → (∀ a s, Q' a s → Q a s) → (∀ s, R' s → R s) →
  prun P m Q R.
Proof.
  intros Hm HP HQ HR s Hs. specialize (Hm s (HP s Hs)). destruct (m s) as [[a|e|w] s']; auto.
Qed.

Lemma prun_ret {A : Type} (P : patch_state → Prop) (a : A) (Q : A → patch_state → Prop) R :
  (∀ s, P s → Q a s) → prun P (pret a) Q R.
Proof. intros HQ s Hs. by apply HQ. Qed.

Lemma prun_fail {A : Type} P e (Q : A → patch_state → Prop) R :
  (∀ s, P s → R s) → prun P (pfail e) Q R.
Proof. intros HR s Hs. by apply HR. Qed.

Lemma prun_read {A : Type} P (r : F → A) (Q : A → patch_state → Prop) R :
  (∀ s, P s → Q (r (ps_fs s)) s) → prun P (pread r) Q R.
Proof. intros HQ s Hs. by apply HQ. Qed.

Lemma prun_pure {A : Type} (φ : Prop) P (m : PM A) Q R :
  (φ → prun P m Q R) → prun (λ s, φ ∧ P s) m Q R.
Proof. intros Hm s [Hφ Hs]. by apply Hm. Qed.

Lemma prun_exists {A B : Type} (P : B → patch_state → Prop) (m : PM A) Q R :
  (∀ b, prun (P b) m Q R) → prun (λ s, ∃ b, P b s) m Q R.
Proof. intros Hm s [b Hs]. by apply (Hm b). Qed.

(** ** What is known between two steps

    The files hold [w], the delta lists [cs], and [φ] holds if the delta is
    exact. *)
Definition track (cs : list AppliedPatchChange) (w : contents) (φ : Prop) s : Prop :=
  inv (ps_fs s) ∧ same_contents (view (ps_fs s)) w ∧ delta_changes (ps_delta s) = cs ∧
  (delta_exact (ps_delta s) = true → φ).

(** Taking the delta back gives [v0], if it is exact. *)
Definition tracked (v0 : contents) s : Prop :=
  ∃ cs w, track cs w (same_contents (undo cs w) v0) s.

Lemma track_impl cs w (φ ψ : Prop) s : (φ → ψ) → track cs w φ s → track cs w ψ s.
Proof. intros I (T1 & T2 & T3 & T4). split_and!; auto. Qed.

Lemma prun_delta cs w φ b (R : patch_state → Prop) :
  prun (track cs w φ) (on_delta (and_exact b)) (λ _, track cs w (φ ∧ b = true)) R.
Proof.
  intros s (T1 & T2 & T3 & T4). cbn. split_and!; [done..|]. cbn.
  intros [E1 E2]%andb_true_iff. auto.
Qed.

Lemma prun_push cs w φ p c (R : patch_state → Prop) :
  prun (track cs w φ) (on_delta (push_delta_change p c))
    (λ _, track (cs ++ [{| apc_path := p; apc_change := c |}]) w φ) R.
Proof. intros s (T1 & T2 & T3 & T4). cbn. split_and!; [done|done|by rewrite <- T3|done]. Qed.

Lemma prun_last cs w φ p c (R : patch_state → Prop) :
  prun (track cs w φ) (on_delta (last_change p c))
    (λ _, track (removelast cs ++ [{| apc_path := p; apc_change := c |}]) w φ) R.
Proof. intros s (T1 & T2 & T3 & T4). cbn. split_and!; [done|done|by rewrite <- T3|done]. Qed.

Lemma prun_affected cs w φ f (Q : unit → patch_state → Prop) (R : patch_state → Prop) :
  (∀ s, track cs w φ s → Q tt s) → prun (track cs w φ) (on_affected f) Q R.
Proof. intros HQ s T. by apply HQ. Qed.

Lemma prun_note cs w φ p (R : patch_state → Prop) :
  prun (track cs w φ) (note_existing_path_delta_support None p) (λ _, track cs w φ) R.
Proof.
  eapply prun_bind; [by apply (prun_read _ _ (λ _, track cs w φ))|]. intros m.
  eapply prun_conseq; [apply prun_delta|done| |done].
  intros u s. apply track_impl. tauto.
Qed.

Lemma read_text_inr fs p (t : string) :
  inv fs → no_dotdot p → read_file_text p (None : option Ctx) fs = inr t → view fs p = Some t.
Proof.
  intros I N (t' & E & U)%and_then_inr. destruct (utf8_valid t'); [|done]. injection U as ->.
  by eapply law_read.
Qed.

Lemma read_text_missing fs p e :
  inv fs → no_dotdot p → read_file_text p (None : option Ctx) fs = inl e → ek e = NotFound →
  view fs p = None.
Proof.
  intros I N E K. unfold read_file_text in E.
  destruct (read_file p None fs) as [e'|t] eqn:Er; simpl in E.
  - injection E as ->. by eapply law_read_missing.
  - destruct (utf8_valid t); [done|]. injection E as <-. done.
Qed.

Lemma prun_read_optional cs w φ p (R : patch_state → Prop) :
  no_dotdot p →
  prun (track cs w φ) (read_optional_file_text_for_delta None p)
    (λ o, track cs w (φ ∧ w p = o)) R.
Proof.
  intros N. eapply prun_bind; [apply prun_note|]. intros [].
  eapply (prun_bind _ _ _ (λ r s, track cs w φ s ∧
    match r with
    | inr t => w p = Some t
    | inl e => ek e = NotFound → w p = None
    end)).
  { apply prun_read. intros s T. split; [done|]. destruct T as (T1 & T2 & _).
    rewrite <- T2. destruct (read_file_text p None (ps_fs s)) as [e|t] eqn:E.
    - by eapply read_text_missing.
    - by eapply read_text_inr. }
  intros r. destruct r as [e|t].
  - case_bool_decide as K.
    + apply prun_ret. intros s [T M]. revert T. apply track_impl. auto.
    + eapply prun_bind.
      { eapply prun_conseq; [apply prun_delta|by intros s [T _]; exact T|done|done]. }
      intros []. apply prun_ret. intros s. apply track_impl. by intros [_ ?].
  - apply prun_ret. intros s [T M]. revert T. apply track_impl. auto.
Qed.

Lemma parent_no_dotdot p d : no_dotdot p → abs_parent p = Some d → no_dotdot d.
Proof.
  unfold abs_parent, parent, no_dotdot. destruct p as [|x p]; [done|]. intros N E.
  assert (d = removelast (x :: p)) as -> by congruence.
  rewrite removelast_firstn_len. by apply Forall_take.
Qed.

(** A write that fails leaves the delta inexact. *)
Definition written cs p t w φ (r : any_error + unit) s : Prop :=
  match r with
  | inr _ => track cs (fput p (Some t) w) φ s
  | inl _ => ∃ w', track cs w' φ s
  end.

Lemma prun_write_file cs w φ p t (R : patch_state → Prop) :
  no_dotdot p →
  prun (track cs w φ) (peffect (write_file p t (None : option Ctx)))
    (λ r s, match r with
            | inr _ => track cs (fput p (Some t) w) φ s
            | inl e => ∃ w', track cs w' φ s ∧ (ek e = NotFound → same_contents w' w)
            end) R.
Proof.
  intros N s (T1 & T2 & T3 & T4). unfold peffect.
  destruct (write_file p t None (ps_fs s)) as [r fs'] eqn:E.
  destruct (law_write p t (ps_fs s) r fs' T1 N E) as [I V]. destruct r as [e|u].
  - exists (view fs'). split; [by split_and!|]. intros K. cbn. rewrite V by done. done.
  - split_and!; [done| |done|done]. cbn. by rewrite V, T2.
Qed.

Lemma track_same cs w w' φ s : same_contents w w' → track cs w φ s → track cs w' φ s.
Proof. intros E (T1 & T2 & T3 & T4). split_and!; [done|by rewrite T2|done|done]. Qed.

Lemma prun_write_retry cs w φ p t (R : patch_state → Prop) :
  no_dotdot p →
  prun (track cs w φ) (write_file_with_missing_parent_retry None p t)
    (written cs p t w φ) R.
Proof.
  intros N. eapply prun_bind; [by apply prun_write_file|]. intros [e|u]; cbn beta iota.
  2: { apply prun_ret. done. }
  apply prun_exists. intros w'. case_bool_decide as K.
  - eapply (prun_bind _ _ _ (λ _, track cs w φ)).
    { intros s [T Sm]. apply (track_same _ _ _ _ _ (Sm K)) in T.
      destruct (abs_parent p) as [d|] eqn:P; [|done].
      destruct T as (T1 & T2 & T3 & T4). unfold peffect.
      destruct (create_directory d true None (ps_fs s)) as [r fs'] eqn:E.
      destruct (law_create d (ps_fs s) r fs' T1 (parent_no_dotdot _ _ N P) E) as [I V].
      split_and!; [done| |done|done]. cbn. by rewrite V. }
    intros [e'|[]]; [apply prun_ret; intros s T; by exists w|].
    eapply prun_bind; [by apply prun_write_file|]. intros [e'|[]]; apply prun_ret; [|done].
    intros s (w2 & T & _). by exists w2.
  - apply prun_ret. intros s [T _]. by exists w'.
Qed.

Lemma prun_try_write cs w φ p t (m : PM (any_error + unit)) v0 :
  prun (track cs w φ) m (written cs p t w φ) (tracked v0) →
  prun (track cs w φ) (try_write m) (λ _, track cs (fput p (Some t) w) φ) (tracked v0).
Proof.
  intros M. eapply prun_bind; [exact M|]. intros [e|[]]; cbn [written].
  - apply prun_exists. intros w'. eapply prun_bind; [apply prun_delta|]. intros u.
    apply prun_fail. intros s T. exists cs, w'. revert T. apply track_impl. by intros [_ ?].
  - by apply prun_ret.
Qed.

(** ** Removing a file *)

(** What is left when a removal fails: what was there, or at most [p] has
    changed and reads as expected. *)
Definition kept (p : path) (expected : option string) (w w' : contents) : Prop :=
  same_contents w' w ∨
  (∃ t, expected = Some t ∧ w' p = Some t) ∧ ∀ q, q ≠ p → w' q = w q.

Lemma prun_remove cs w φ p context expected v0 :
  no_dotdot p →
  (∀ w', φ → kept p expected w w' → same_contents (undo cs w') v0) →
  prun (track cs w φ) (remove_or_fail None p context expected)
    (λ _, track cs (fput p None w) φ) (tracked v0).
Proof.
  intros N U.
  eapply (prun_bind _ _ _ (λ d s, track cs w φ s ∧
    match d with
    | inr _ => ∃ m, get_metadata p (None : option Ctx) (ps_fs s) = inr m ∧ is_directory m = false
    | inl _ => True
    end)).
  { eapply prun_bind; [by apply (prun_read _ _ (λ m s, track cs w φ s ∧
      m = get_metadata p None (ps_fs s)))|].
    intros m. apply prun_ret. intros s [T Em]. split; [done|].
    destruct m as [e|m]; [done|]. destruct (is_directory m) eqn:D; [done|]. by exists m. }
  intros [e|[]]; cbn beta iota.
  { apply prun_fail. intros s [T _]. exists cs, w. revert T. apply track_impl.
    intros Hφ. apply U; [done|]. by left. }
  eapply (prun_bind _ _ _ (λ r s, match r with
    | inr _ => track cs (fput p None w) φ s
    | inl _ => ∃ w', track cs w' φ s ∧ ∀ q, q ≠ p → w' q = w q
    end)).
  { intros s [(T1 & T2 & T3 & T4) (m & Em & D)]. unfold peffect.
    destruct (remove p false false None (ps_fs s)) as [r fs'] eqn:E.
    destruct (law_remove p (ps_fs s) m r fs' T1 N Em D E) as (I & V & M). destruct r as [e|[]].
    - exists (view fs'). split; [by split_and!|]. intros q Hq. by rewrite V, T2.
    - split_and!; [done| |done|done]. cbn. intros q. unfold fput.
      destruct (decide (q = p)) as [->|Hq]; [done|]. by rewrite V, T2. }
  intros [e|[]]; [|by apply prun_ret].
  apply prun_exists. intros w'. eapply (prun_bind _ _ _ (λ free s, track cs w' φ s ∧
    (∀ q, q ≠ p → w' q = w q) ∧
    (free = true → ∃ t, expected = Some t ∧ w' p = Some t))).
  { unfold remove_failure_was_side_effect_free. destruct expected as [t|].
    - eapply prun_bind; [by apply (prun_read _ _ (λ r s, (track cs w' φ s ∧
        ∀ q, q ≠ p → w' q = w q) ∧ r = read_file_text p None (ps_fs s)))|].
      intros r. apply prun_ret. intros s [[T O] Er]. split_and!; [done|done|].
      destruct r as [e'|t']; [done|]. intros Et%bool_decide_eq_true. subst t'. exists t.
      split; [done|]. destruct T as (T1 & T2 & _). rewrite <- T2. symmetry in Er.
      by eapply read_text_inr.
    - apply prun_ret. by intros s [T O]. }
  intros free. eapply prun_bind.
  { eapply (prun_conseq _ (λ s, track cs w' φ s ∧ _)); [|done|..].
    - intros s [T O]. specialize (prun_delta cs w' φ free (tracked v0) s T).
      instantiate (2 := λ u s', track cs w' (φ ∧ free = true) s' ∧ _). simpl.
      intros T'. split; [exact T'|exact O].
    - done.
    - done. }
  intros u. apply prun_fail. intros s [T [O Fr]]. exists cs, w'. revert T. apply track_impl.
  intros [Hφ Hf]. apply U; [done|]. right. split; [by apply Fr|done].
Qed.

(** ** One hunk *)

Definition hunk_post (v0 v : contents) (cwd : path) (h : Hunk) s : Prop :=
  ∃ cs w, spec_hunk home cwd v h = Some w ∧ track cs w (same_contents (undo cs w) v0) s.

Lemma resolved_no_dotdot p cwd : no_dotdot (resolve_path_against_base home p cwd).
Proof. apply normalize_no_dotdot. Qed.

Lemma prun_add cs w v0 p t affected :
  no_dotdot p →
  prun (track cs w (same_contents (undo cs w) v0)) (apply_add None p t affected)
    (λ _ s, ∃ cs', track cs' (fput p (Some t) w)
       (same_contents (undo cs' (fput p (Some t) w)) v0) s)
    (tracked v0).
Proof.
  intros N. eapply prun_bind; [by apply prun_read_optional|]. intros o.
  eapply prun_bind; [by apply prun_try_write, prun_write_retry|]. intros u.
  eapply prun_bind; [apply prun_push|]. intros u'.
  apply prun_affected. intros s T. eexists. eapply track_impl; [|exact T]. intros [U Ho].
  rewrite undo_app. simpl. unfold undo_change. simpl.
  rewrite <- U. apply undo_proper. rewrite fput_fput. by apply fput_same.
Qed.

Lemma prun_delete cs w v0 p affected :
  no_dotdot p →
  prun (track cs w (same_contents (undo cs w) v0)) (apply_delete None p affected)
    (λ _ s, ∃ cs', track cs' (fput p None w) (same_contents (undo cs' (fput p None w)) v0) s)
    (tracked v0).
Proof.
  intros N. eapply prun_bind; [apply prun_note|]. intros u.
  eapply (prun_bind _ _ _ (λ r s, track cs w (same_contents (undo cs w) v0) s ∧
    ∀ t, r = inr t → w p = Some t)).
  { apply prun_read. intros s T. split; [done|]. intros t E. destruct T as (T1 & T2 & _).
    rewrite <- T2. by eapply read_text_inr. }
  intros r. set (o := ok_of r).
  set (φ := same_contents (undo cs w) v0 ∧ o = w p ∧ is_Some (w p)).
  apply (prun_bind _ _ _ (λ _, track cs w φ)).
  { intros s [T Hr].
    pose proof (prun_delta cs w _ (match o with Some _ => true | None => false end)
      (tracked v0) s T) as D. cbn in D |- *. revert D. apply track_impl. intros [U B].
    unfold φ, o in *. destruct r as [e|t]; [done|]. cbn. rewrite (Hr t eq_refl). eauto. }
  intros u'. apply (prun_bind _ _ _ (λ _, track cs (fput p None w) φ)).
  { apply prun_remove; [done|]. intros w' (U & Ho & _) [K|[(t & Et & Ew) K]].
    - by rewrite K.
    - rewrite <- U. apply undo_proper. intros q. destruct (decide (q = p)) as [->|Hq].
      + rewrite Ew, <- Ho. done.
      + by apply K. }
  intros u''. apply (prun_bind _ _ _ (λ _ s, ∃ cs', track cs' (fput p None w)
    (same_contents (undo cs' (fput p None w)) v0) s)).
  - destruct o as [t|] eqn:Eo.
    + eapply prun_conseq; [apply prun_push|done| |done]. intros [] s T. eexists. eapply track_impl; [|exact T]. intros (U & Ho & _). rewrite undo_app. simpl. unfold undo_change. simpl.
      rewrite <- U. apply undo_proper. rewrite fput_fput. by apply fput_same.
    + apply prun_ret. intros s T. exists cs. revert T. apply track_impl.
      intros (_ & Ho & [t Ht]). congruence.
  - intros []. apply prun_exists. intros cs'. apply prun_affected. intros s T. by exists cs'.
Qed.

Lemma prun_derive cs w φ p chunks v0 :
  no_dotdot p → (φ → same_contents (undo cs w) v0) →
  prun (track cs w φ) (derive_new_contents_from_chunks None p chunks)
    (λ a s, (w p = Some (original_contents a) ∧
             derive_from_contents (original_contents a) (display p) chunks = Some (inr a)) ∧
            track cs w φ s) (tracked v0).
Proof.
  intros N U. eapply (prun_bind _ _ _ (λ r s, track cs w φ s ∧ ∀ t, r = inr t → w p = Some t)).
  { apply prun_read. intros s T. split; [done|]. intros t E. destruct T as (T1 & T2 & _).
    rewrite <- T2. by eapply read_text_inr. }
  intros [e|t].
  - apply prun_fail. intros s [T _]. exists cs, w. revert T. by apply track_impl.
  - destruct (derive_from_contents t (display p) chunks) as [[e|a]|] eqn:D.
    + apply prun_fail. intros s [T _]. exists cs, w. revert T. by apply track_impl.
    + apply prun_ret. intros s [T Ht].
      assert (E : original_contents a = t).
      { unfold derive_from_contents in D. destruct (compute_replacements _ _ _); [done|].
        destruct (apply_replacements _ _); [|done]. by injection D as <-. }
      rewrite E. split; [|done]. split; [by apply Ht|done].
    + by apply derive_total in D.
Qed.

Lemma prun_move cs w v0 p d a affected :
  no_dotdot p → no_dotdot d → w p = Some (original_contents a) →
  let w' := fput p None (fput d (Some (new_contents a)) w) in
  prun (track cs w (same_contents (undo cs w) v0)) (apply_move None p d a affected)
    (λ _ s, ∃ cs', track cs' w' (same_contents (undo cs' w') v0) s)
    (tracked v0).
Proof.
  intros N Nd Ow w'. eapply prun_bind; [by apply prun_read_optional|]. intros o.
  eapply prun_bind; [by apply prun_try_write, prun_write_retry|]. intros u.
  eapply prun_bind; [apply prun_push|]. intros u'.
  eapply prun_bind.
  { apply prun_remove; [done|]. intros w2 [U Ho] K. rewrite undo_app. simpl.
    unfold undo_change. simpl. rewrite <- U. apply undo_proper.
    destruct K as [K|[(t & [= <-] & Et) K]].
    - rewrite K, fput_fput. by apply fput_same.
    - intros q. unfold fput. destruct (decide (q = d)) as [->|Hd]; [done|].
      destruct (decide (q = p)) as [->|Hp]; [congruence|]. rewrite K by done. by apply fput_ne. }
  intros u''. eapply prun_bind; [apply prun_last|]. intros u3.
  apply prun_affected. intros s T. eexists. eapply track_impl; [|exact T]. intros [U Ho].
  rewrite removelast_last, undo_app. simpl. unfold undo_change. simpl.
  rewrite <- U. apply undo_proper. intros q. unfold w', fput.
  destruct (decide (q = p)) as [->|Hp]; [done|].
  destruct (decide (q = d)) as [->|Hd]; [done|]. done.
Qed.

Lemma prun_in_place cs w v0 p a affected :
  no_dotdot p → w p = Some (original_contents a) →
  let w' := fput p (Some (new_contents a)) w in
  prun (track cs w (same_contents (undo cs w) v0)) (apply_in_place None p a affected)
    (λ _ s, ∃ cs', track cs' w' (same_contents (undo cs' w') v0) s)
    (tracked v0).
Proof.
  intros N Ow w'. eapply prun_bind.
  { apply (prun_try_write _ _ _ p (new_contents a)).
    eapply prun_bind; [by apply prun_write_file|]. intros [e|[]]; apply prun_ret; intros s T.
    - destruct T as (w2 & T & _). by exists w2.
    - exact T. }
  intros u. eapply prun_bind; [apply prun_push|]. intros u'.
  apply prun_affected. intros s T. eexists. eapply track_impl; [|exact T]. intros U.
  rewrite undo_app. simpl. unfold undo_change. simpl.
  rewrite <- U. apply undo_proper. unfold w'. rewrite fput_fput. by apply fput_same.
Qed.

Lemma prun_hunk cs w v0 cwd h :
  prun (track cs w (same_contents (undo cs w) v0)) (apply_hunk home None cwd h)
    (λ _, hunk_post v0 w cwd h) (tracked v0).
Proof.
  unfold hunk_post, apply_hunk. destruct h as [p t|p|p move chunks]; cbn [spec_hunk].
  - eapply prun_conseq; [by apply prun_add, resolved_no_dotdot|done| |done].
    intros u s [cs' T]. eauto.
  - eapply prun_conseq; [by apply prun_delete, resolved_no_dotdot|done| |done].
    intros u s [cs' T]. eauto.
  - set (q := resolve_path home (UpdateFile p move chunks) cwd).
    assert (Nq : no_dotdot q) by apply resolved_no_dotdot.
    eapply prun_bind; [apply prun_note|]. intros u.
    eapply prun_bind; [by apply prun_derive|]. intros a. apply prun_pure. intros [Ow D].
    rewrite Ow. cbn [mbind option_bind]. rewrite D. destruct move as [d|].
    + eapply prun_conseq; [apply prun_move; [done|apply resolved_no_dotdot|done]|done| |done].
      intros u' s [cs' T]. eauto.
    + eapply prun_conseq; [by apply prun_in_place|done| |done].
      intros u' s [cs' T]. eauto.
Qed.

Lemma prun_hunks cs w v0 cwd hs :
  prun (track cs w (same_contents (undo cs w) v0)) (apply_hunks_loop home None cwd hs)
    (λ _ s, ∃ cs' w', spec_hunks home cwd w hs = Some w' ∧
       track cs' w' (same_contents (undo cs' w') v0) s) (tracked v0).
Proof.
  revert cs w. induction hs as [|h hs IH]; intros cs w; cbn [apply_hunks_loop spec_hunks].
  - apply prun_ret. eauto.
  - eapply prun_bind; [apply prun_hunk|]. intros u.
    apply prun_exists. intros cs'. apply prun_exists. intros w'. apply prun_pure. intros E.
    rewrite E. cbn [mbind option_bind]. apply IH.
Qed.

(** ** The whole application *)

(** The delta of an outcome. *)
Definition outcome_delta (r : outcome ApplyPatchFailure AppliedPatchDelta) : AppliedPatchDelta :=
  match r with Ok d => d | Err f => apf_delta f | Panic _ => delta_empty end.

Lemma apply_hunks_laws (hs : list Hunk) cwd fs :
  inv fs →
  let r := apply_hunks home (None : option Ctx) hs cwd fs in
  inv (pr_fs r) ∧
  (∀ w, pr_outcome r ≠ Panic w) ∧
  (∀ d, pr_outcome r = Ok d → ∃ v, spec_hunks home cwd (view fs) hs = Some v ∧
     same_contents (view (pr_fs r)) v) ∧
  (delta_exact (outcome_delta (pr_outcome r)) = true →
   same_contents (undo (delta_changes (outcome_delta (pr_outcome r))) (view (pr_fs r))) (view fs)).
Proof.
  intros I. unfold apply_hunks, apply_hunks_to_files.
  assert (T0 : track [] (view fs) (same_contents (undo [] (view fs)) (view fs)) (patch_start fs))
    by (by split_and!).
  destruct hs as [|h hs]; [by split_and!|].
  pose proof (prun_hunks [] (view fs) (view fs) cwd (h :: hs) (patch_start fs) T0) as R.
  unfold pbind. destruct (apply_hunks_loop home None cwd (h :: hs) (patch_start fs))
    as [[u|e|w] s]; [| |done]; cbn.
  - destruct R as (cs & w & Sp & T1 & T2 & T3 & T4). split_and!; [done|done| |].
    + intros d _. by exists w.
    + intros E. rewrite T3, T2. by apply T4.
  - destruct R as (cs & w & T1 & T2 & T3 & T4). split_and!; [done|done|done|].
    intros E. rewrite T3, T2. by apply T4.
Qed.
End laws.
