(* ===== verification/PatchProps.v ===== *)
(** * Properties of apply-patch

    The direct file system obeys [FileLaws] where there are no symbolic links;
    the properties of parsing, locating lines and applying patches, each with
    a concrete instance. *)

From S2P Require Import Prelude RustStr FsModel FsFacts Exec Demo PatchFormat.
From S2P Require Import PatchStream PatchGrammar PatchStreamFacts ExecFs PatchApply.
From S2P Require Import PatchHunks PatchSeek PatchLaws.

(** ** The direct file system *)

Definition link_free : fsys → Prop := fs_ok no_links.

Lemma missing_file (fs : fsys) p k :
  link_free fs → no_dotdot p → stat fs p = inl k → file_of fs p = None.
Proof.
  intros Ok N E. destruct (file_of fs p) as [t|] eqn:F; [|done].
  apply (file_of_stat _ fs Ok p t (clear_no_links p N)) in F. congruence.
Qed.

Lemma missing_read (fs : fsys) p k :
  link_free fs → no_dotdot p → fs_read fs p = inl k → file_of fs p = None.
Proof.
  intros Ok N E. destruct (file_of fs p) as [t|] eqn:F; [|done].
  apply (read_clear _ fs Ok p t (clear_no_links p N)) in F. congruence.
Qed.

Lemma direct_metadata_not_dir {Ctx : Type} (fs : fsys) p m :
  link_free fs → no_dotdot p →
  direct_get_metadata p (None : option Ctx) fs = inr m → is_directory m = false →
  ∃ t, fs !! p = Some (File t).
Proof.
  intros Ok N E D. unfold direct_get_metadata in E. cbn [reject_sandbox_context and_then] in E.
  destruct (stat fs p) as [k|[q n]] eqn:St; [done|].
  destruct (stat_clear _ fs Ok p q n (clear_no_links p N) St) as [-> L].
  destruct (lstat fs p); [done|]. injection E as <-. cbn in D.
  apply bool_decide_eq_false in D. destruct p as [|c p]; cbn in L; [congruence|].
  destruct n as [t| |t]; [by exists t|done|]. by apply (ok_links _ _ Ok) in L.
Qed.

#[export] Instance direct_laws {Ctx : Type} : FileLaws Ctx fsys link_free file_of.
Proof.
  split.
  - intros p fs s Ok N. cbn. unfold direct_read_file. cbn [reject_sandbox_context and_then].
    destruct (stat fs p) as [k|[q n]]; [done|]. case_match; [done|].
    destruct (fs_read fs p) as [k|t] eqn:E; cbn; [done|]. intros [= ->].
    by apply (read_clear _ fs Ok p s (clear_no_links p N)).
  - intros p fs e Ok N. cbn. unfold direct_read_file. cbn [reject_sandbox_context and_then].
    destruct (stat fs p) as [k|[q n]] eqn:St.
    + intros _ _. by eapply missing_file.
    + case_match; [by intros [= <-]|].
      destruct (fs_read fs p) as [k|t] eqn:E; cbn; [|done]. intros _ _. by eapply missing_read.
  - intros p s fs r fs' Ok N. cbn. unfold direct_write_file, with_context, run_fs. cbn.
    destruct (fs_write fs p s) as [k|fs2] eqn:E; intros [= <- <-]; [done|].
    destruct (write_clear _ fs Ok p s fs2 (clear_no_links p N) E) as (_ & -> & Ok2).
    split; [done|]. intros q. unfold fput. destruct (decide (q = p)) as [->|Hq].
    + apply file_of_insert_eq.
    + by apply file_of_insert_ne.
  - intros p fs r fs' Ok N. cbn. unfold direct_create_directory, with_context, run_fs. cbn.
    destruct (fs_create_dir_all fs p) as [k|fs2] eqn:E; intros [= <- <-]; [done|].
    destruct (create_dir_all_clear _ fs p fs2 Ok (clear_no_links p N) E) as (G & Ok2 & _).
    split; [done|]. intros q. by eapply grows_dirs_file.
  - intros p fs m r fs' Ok N Em D. cbn.
    destruct (direct_metadata_not_dir (Ctx:=Ctx) fs p m Ok N Em D) as [t L].
    unfold direct_remove, with_context. cbn.
    rewrite (lstat_present _ fs Ok p (File t) (clear_no_links p N) L). unfold run_fs.
    destruct (fs_remove_file fs p) as [k|fs2] eqn:E; intros [= <- <-]; [done|].
    destruct (remove_clear _ fs Ok p fs2 (clear_no_links p N) E) as (-> & Ok2 & _).
    split_and!; [done| |apply file_of_delete_eq].
    intros q Hq. by apply file_of_delete_ne.
Qed.

(** ** A patch of every kind of hunk *)

Definition demo_patch : patch := {|
  p_environment := None;
  p_hunks :=
    [Add_hunk "new/a.txt" ["one"; ""; "+two"];
     Delete_hunk "old.txt";
     Update_hunk "b.txt" (Some "c.txt") false
       [{| ch_context := Some "head"; ch_lines := [Context_line "x"; Removed_line "y"; Added_line "z"];
           ch_eof := false |};
        {| ch_context := None; ch_lines := [Removed_line "end"; Added_line "END"]; ch_eof := true |}]]
|}.

Ltac solve_line :=
  repeat match goal with
  | |- name_ok _ => split; [split; [done|reflexivity]|no_newline]
  | |- line_ok _ => split; [no_newline|reflexivity]
  | |- Forall _ [] => constructor
  | |- Forall _ (_ :: _) => constructor
  end.

Lemma demo_patch_ok : patch_ok demo_patch.
Proof.
  split; [done|]. cbn [demo_patch p_hunks].
  constructor; [|constructor; [|constructor; [|done]]].
  - split; cbn; solve_line.
  - cbn. solve_line.
  - split; [solve_line|]. split; [intros d [= <-]; solve_line|]. split; [|done].
    constructor; [|constructor; [|done]]; (split; [|cbn; solve_line]).
    + intros s [= <-]. solve_line.
    + done.
Qed.

(** ** Parsing *)

(** C37: A patch of the documented grammar, written out, parses back to the hunks of
    its syntax tree, its environment id and its text, also when it is wrapped in a
    heredoc, if every update hunk has a change and every context line a change line
    below it; otherwise, although the grammar allows both, the parser fails. This is
    for names and contexts without white space at their ends, lines without a final
    carriage return, and a first change without a context line that does not start
    with a blank line. *)
Theorem patch_parsed (p : patch) :
  patch_ok p →
  if patch_accepted p
  then parse_patch (patch_text p) = inr (parsed p) ∧
       ∀ opener, opener ∈ heredoc_openers → parse_patch (heredoc opener p) = inr (parsed p)
  else (∃ e, parse_patch (patch_text p) = inl e) ∧
       ∀ opener, opener ∈ heredoc_openers → ∃ e, parse_patch (heredoc opener p) = inl e.
Proof.
  intros Ok. destruct (patch_accepted p) eqn:A; [by apply patch_read|by apply patch_rejected].
Qed.

(** A first change without a context line. *)
Definition bare_patch : patch := {|
  p_environment := Some "env";
  p_hunks := [Update_hunk "d.txt" None true
    [{| ch_context := None; ch_lines := [Removed_line "a"; Added_line "b"]; ch_eof := true |}]] |}.

Lemma bare_patch_ok : patch_ok bare_patch.
Proof.
  split; [intros e [= <-]; split; [solve_line|reflexivity]|]. cbn [bare_patch p_hunks].
  constructor; [|done]. split; [solve_line|]. split; [done|]. split; [|done].
  constructor; [|done]. split; [done|cbn; solve_line].
Qed.

(** A patch of the grammar that is refused. *)
Definition refused_patch : patch := {|
  p_environment := None;
  p_hunks := [Update_hunk "a.txt" None false
    [{| ch_context := Some "head"; ch_lines := []; ch_eof := false |};
     {| ch_context := Some "body"; ch_lines := [Added_line "x"]; ch_eof := false |}]] |}.

Lemma refused_patch_ok : patch_ok refused_patch.
Proof.
  split; [done|]. cbn [refused_patch p_hunks]. constructor; [|done].
  split; [solve_line|]. split; [done|]. split; [|done].
  constructor; [|constructor; [|done]]; (split; [intros s [= <-]; solve_line|cbn; solve_line]).
Qed.

Lemma patch_parsed_witness :
  parse_patch (patch_text demo_patch) = inr (parsed demo_patch) ∧
  parse_patch (patch_text bare_patch) = inr (parsed bare_patch) ∧
  ∃ e, parse_patch (patch_text refused_patch) = inl e.
Proof.
  assert (A : patch_accepted demo_patch = true) by (vm_compute; reflexivity).
  assert (B : patch_accepted bare_patch = true) by (vm_compute; reflexivity).
  assert (R : patch_accepted refused_patch = false) by (vm_compute; reflexivity).
  pose proof (patch_parsed demo_patch demo_patch_ok) as P. rewrite A in P.
  pose proof (patch_parsed bare_patch bare_patch_ok) as P'. rewrite B in P'.
  pose proof (patch_parsed refused_patch refused_patch_ok) as Q. rewrite R in Q.
  split; [exact (proj1 P)|]. split; [exact (proj1 P')|exact (proj1 Q)].
Defined.

(** C38: The streaming parser and the parser of complete patches agree on the
    patches of the documented grammar (with the same conditions on names and lines):
    however the text is cut into deltas, with or without a final line feed, the
    preview accepts each of them and ends with the hunks the complete parse gives,
    if every update hunk has a change and every context line a change line below it;
    otherwise both fail. *)
Theorem stream_agrees_with_batch (p : patch) (ds : list (list ascii)) :
  patch_ok p →
  concat ds = bytes (patch_text p) ∨ concat ds = bytes (patch_text p) ++ [newline] →
  if patch_accepted p
  then push_deltas ds StreamingPatchParser_default = inr (map hunk_of (p_hunks p)) ∧
       aa_hunks <$> ok_of (parse_patch (patch_text p)) = Some (map hunk_of (p_hunks p))
  else (∃ e, push_deltas ds StreamingPatchParser_default = inl e) ∧
       ∃ e, parse_patch (patch_text p) = inl e.
Proof.
  intros Ok E. destruct (patch_accepted p) eqn:A.
  - split; [by apply patch_streamed|]. by destruct (patch_read p Ok A) as [-> _].
  - split; [by eapply patch_stream_fails|]. exact (proj1 (patch_rejected p Ok A)).
Qed.

Lemma stream_agrees_with_batch_witness :
  let ds := [take 30 (bytes (patch_text demo_patch)); [];
             drop 30 (bytes (patch_text demo_patch))] in
  push_deltas ds StreamingPatchParser_default = inr (map hunk_of (p_hunks demo_patch)) ∧
  aa_hunks <$> ok_of (parse_patch (patch_text demo_patch)) =
    Some (map hunk_of (p_hunks demo_patch)).
Proof.
  intros ds. assert (A : patch_accepted demo_patch = true) by (vm_compute; reflexivity).
  assert (E : concat ds = bytes (patch_text demo_patch)) by (vm_compute; reflexivity).
  pose proof (stream_agrees_with_batch demo_patch ds demo_patch_ok (or_introl E)) as P.
  rewrite A in P. exact P.
Defined.

(** ** Locating and replacing *)

(** The search for a block of lines returns the first place in range at which
    the strictest comparison that matches anywhere matches, within the bounds of the
    file, and reports none only when no comparison matches at any place in range. *)
Theorem seek_sequence_finds (l pattern : list string) (start : nat) (eof : bool) :
  pattern ≠ [] → length pattern ≤ length l →
  let from := if eof then length l - length pattern else start in
  let stop := length l - length pattern in
  match seek_sequence l pattern start eof with
  | Some i => best_match seek_keys l pattern from stop i
  | None => ∀ key i, key ∈ seek_keys → from ≤ i ≤ stop → matches_at key l pattern i = false
  end.
Proof.
  intros N L. unfold seek_sequence. destruct pattern as [|s pattern]; [done|].
  set (pat := s :: pattern) in *. destruct (Nat.ltb_spec (length l) (length pat)); [lia|].
  replace (eof && (length pat <=? length l)) with eof
    by (destruct eof; cbn [andb]; [symmetry; by apply Nat.leb_le|done]).
  apply seek_passes_spec.
Qed.

Lemma seek_sequence_finds_witness :
  best_match seek_keys ["a"; " b"; "b "; "c"] ["b"] 0 3 2.
Proof.
  apply (seek_sequence_finds ["a"; " b"; "b "; "c"] ["b"] 0 false); [done|simpl; lia].
Defined.

(** Deriving the new contents of a file never panics, whatever the chunks: no
    replacement inserts past the end of the lines that are left. *)
Theorem update_never_panics (original path : string) (chunks : list UpdateFileChunk) :
  derive_from_contents original path chunks ≠ None.
Proof. apply derive_total. Qed.

(** When the chunks of an update describe an edit of the file, each with its
    context and old lines found where the edit has them and not earlier, deriving
    the new contents succeeds and gives exactly the edited lines. *)
Theorem correct_diff_applied (original path : string) cs r :
  edits (split_original original) cs r →
  derive_from_contents original path cs =
    Some (inr {| original_contents := original; new_contents := finish_lines r |}).
Proof. apply derive_edits. Qed.

Definition demo_chunk : UpdateFileChunk :=
  {| change_context := Some "fn b"; old_lines := ["x"]; new_lines := ["y"; "z"];
     is_end_of_file := false |}.

Lemma demo_describes : describes demo_chunk ["fn a"; "x"; "fn b"] ["x"; "x"].
Proof.
  split; [done|]. exists ["fn a"; "x"; "fn b"], []. split; [done|]. split.
  - exists ["fn a"; "x"]. split; [done|].
    apply (bool_decide_unpack ("fn b" ∉ ["fn a"; "x"])). reflexivity.
  - intros u w _. simpl. lia.
Qed.

Lemma correct_diff_applied_witness :
  derive_from_contents (join_with nl ["fn a"; "x"; "fn b"; "x"; "x"; "x"; ""]) "f" [demo_chunk] =
  Some (inr {| original_contents := join_with nl ["fn a"; "x"; "fn b"; "x"; "x"; "x"; ""];
               new_contents := join_with nl ["fn a"; "x"; "fn b"; "y"; "z"; "x"; "x"; ""] |}).
Proof.
  apply (correct_diff_applied (join_with nl ["fn a"; "x"; "fn b"; "x"; "x"; "x"; ""]) "f"
    [demo_chunk] ["fn a"; "x"; "fn b"; "y"; "z"; "x"; "x"]).
  apply (edits_chunk ["fn a"; "x"; "fn b"] demo_chunk ["x"; "x"] [] ["x"; "x"]).
  - apply demo_describes.
  - constructor.
Defined.

(** ** Applying *)

(** C35: On every executor file system that keeps the file laws, applying the hunks
    of a patch refines the specification on contents: when it reports success,
    exactly the files the hunks name have changed, to the contents the specification
    derives hunk by hunk. *)
Theorem patch_applied {Ctx F : Type} `{FileLaws Ctx F inv view} (home : option string)
    (hs : list Hunk) (cwd : path) (fs : F) (d : AppliedPatchDelta) :
  inv fs →
  pr_outcome (apply_hunks home (None : option Ctx) hs cwd fs) = Ok d →
  ∃ v, spec_hunks home cwd (view fs) hs = Some v ∧
    same_contents (view (pr_fs (apply_hunks home (None : option Ctx) hs cwd fs))) v.
Proof.
  intros I E.
  destruct (apply_hunks_laws (inv:=inv) (view:=view) home hs cwd fs I) as (_ & _ & S1 & _).
  by eapply S1.
Qed.

(** A directory with the three files of the demonstration patch. *)
Definition demo_fs : fsys :=
  <[["w"] := Dir]> (<[["w"; "old.txt"] := File ("gone" +:+ nl)]>
  (<[["w"; "b.txt"] := File (join_with nl ["head"; "x"; "y"; "end"; ""])]> ∅)).

Lemma demo_fs_ok : link_free demo_fs.
Proof. apply check_fs_ok. vm_compute. reflexivity. Qed.

Definition demo_run := apply_hunks None (None : option unit) (map hunk_of (p_hunks demo_patch))
  ["w"] demo_fs.

Lemma patch_applied_witness :
  ∃ v, spec_hunks None ["w"] (file_of demo_fs) (map hunk_of (p_hunks demo_patch)) = Some v ∧
    same_contents (file_of (pr_fs demo_run)) v.
Proof.
  apply (patch_applied (Ctx:=unit) (inv:=link_free) (view:=file_of) None
    (map hunk_of (p_hunks demo_patch)) ["w"] demo_fs
    (outcome_delta (pr_outcome demo_run))); [apply demo_fs_ok|].
  vm_compute. reflexivity.
Defined.

(** C36: On every executor file system that keeps the file laws (reading, writing or
    removing a path concerns the file of that path only, so no symbolic or hard link
    leads to another), however applying a patch ends, if the delta it leaves is
    marked exact, taking the recorded changes back from the last to the first gives
    every file the content it had before, also when applying stopped in the middle
    of a hunk. Through a dangling symbolic link an exact delta does not undo. *)
Theorem exact_delta_undoes {Ctx F : Type} `{FileLaws Ctx F inv view} (home : option string)
    (hs : list Hunk) (cwd : path) (fs : F) :
  inv fs →
  let r := apply_hunks home (None : option Ctx) hs cwd fs in
  delta_exact (outcome_delta (pr_outcome r)) = true →
  same_contents (undo (delta_changes (outcome_delta (pr_outcome r))) (view (pr_fs r))) (view fs).
Proof.
  intros I. by destruct (apply_hunks_laws (inv:=inv) (view:=view) home hs cwd fs I)
    as (_ & _ & _ & U).
Qed.

(** The second hunk fails: taking the delta back removes the first one's file. *)
Definition failing_hunks : list Hunk :=
  [AddFile "a" "new"; UpdateFile "b.txt" None [demo_chunk]].

Lemma exact_delta_undoes_witness :
  let r := apply_hunks None (None : option unit) failing_hunks ["w"] demo_fs in
  file_of (pr_fs r) ["w"; "a"] = Some "new" ∧
  same_contents (undo (delta_changes (outcome_delta (pr_outcome r))) (file_of (pr_fs r)))
    (file_of demo_fs).
Proof.
  split; [vm_compute; reflexivity|].
  apply (exact_delta_undoes (Ctx:=unit) (inv:=link_free) (view:=file_of) None failing_hunks
    ["w"] demo_fs); [apply demo_fs_ok|vm_compute; reflexivity].
Defined.
