(* ===== verification/PatchVerify.v ===== *)
(** * apply-patch: verification of a patch before it is applied *)

From S2P Require Import Prelude RustStr FsModel FsFacts Exec Demo PatchFormat.
From S2P Require Import PatchStream PatchStreamFacts ExecFs PatchApply PatchHunks.
From S2P Require Import PatchSeek PatchLaws PatchProps.

(** * apply-patch: recognising and verifying an invocation

    [invocation.rs] of [codex-rs/apply-patch]: whether a command invokes
    [apply_patch], and the changes the patch would make, computed before it is
    approved.  The bash grammar (a Tree-sitter query) and the [similar] crate's
    unified diff are parameters.  A verified patch whose hunks concern
    different paths does, when applied, what its changes say. *)

(** ** Commands *)

Definition APPLY_PATCH_COMMANDS : list string := ["apply_patch"; "applypatch"].

Inductive ApplyPatchShell := Unix | PowerShell | Cmd.

Inductive ExtractHeredocError :=
| CommandDidNotStartWithApplyPatch
| FailedToLoadBashGrammar
| HeredocNotUtf8
| FailedToParsePatchIntoAst
| FailedToFindHeredocBody.

Inductive MaybeApplyPatch :=
| PatchBody (args : ApplyPatchArgs)
| PatchShellParseError (e : ExtractHeredocError)
| PatchParseError (e : ParseError)
| NotApplyPatch.

Definition classify_shell_name (shell : string) : option string :=
  to_ascii_lowercase <$> file_stem (comps shell).

Definition eq_ignore_ascii_case (s t : string) : bool :=
  String.eqb (to_ascii_lowercase s) (to_ascii_lowercase t).

Definition classify_shell (shell flag : string) : option ApplyPatchShell :=
  name ← classify_shell_name shell;
  if existsb (String.eqb name) ["bash"; "zsh"; "sh"] && existsb (String.eqb flag) ["-lc"; "-c"]
  then Some Unix
  else if existsb (String.eqb name) ["pwsh"; "powershell"] && eq_ignore_ascii_case flag "-command"
  then Some PowerShell
  else if String.eqb name "cmd" && eq_ignore_ascii_case flag "/c" then Some Cmd
  else None.

Definition can_skip_flag (shell flag : string) : bool :=
  match classify_shell_name shell with
  | Some name =>
      existsb (String.eqb name) ["pwsh"; "powershell"] && eq_ignore_ascii_case flag "-noprofile"
  | None => false
  end.

Definition parse_shell_script (argv : list string) : option (ApplyPatchShell * string) :=
  match argv with
  | [shell; flag; script] => (λ t, (t, script)) <$> classify_shell shell flag
  | [shell; skip_flag; flag; script] =>
      if can_skip_flag shell skip_flag then (λ t, (t, script)) <$> classify_shell shell flag
      else None
  | _ => None
  end.

(** ** Changes *)

Inductive ApplyPatchFileChange :=
| AddFileChange (content : string)
| DeleteFileChange (content : string)
| UpdateFileChange (unified_diff : string) (move_path : option path) (new_content : string).

Record ApplyPatchAction := {
  action_changes : gmap path ApplyPatchFileChange;
  action_patch : string;
  action_cwd : path
}.

Inductive MaybeApplyPatchVerified :=
| VerifiedBody (action : ApplyPatchAction)
| VerifiedShellParseError (e : ExtractHeredocError)
| CorrectnessError (e : ApplyPatchError)
| VerifiedNotApplyPatch.

Record ApplyPatchFileUpdate := {
  afu_unified_diff : string;
  afu_original_content : string;
  afu_content : string
}.

Section verify.
Context (extract_apply_patch_from_bash :
  string → ExtractHeredocError + (string * option string)).
Context (unified_diff : nat → string → string → string).
Context {Ctx F : Type} `{ExecutorFileSystem Ctx F}.
Context (home : option string) (sandbox : option Ctx).

Definition extract_apply_patch_from_shell (shell : ApplyPatchShell) (script : string)
  : ExtractHeredocError + (string * option string) :=
  match shell with Unix | PowerShell | Cmd => extract_apply_patch_from_bash script end.

Definition set_workdir (d : option string) (a : ApplyPatchArgs) : ApplyPatchArgs := {|
  aa_patch := aa_patch a; aa_hunks := aa_hunks a; aa_workdir := d;
  aa_environment_id := aa_environment_id a |}.

Definition maybe_parse_shell (argv : list string) : MaybeApplyPatch :=
  match parse_shell_script argv with
  | None => NotApplyPatch
  | Some (shell, script) =>
      match extract_apply_patch_from_shell shell script with
      | inr (body, workdir) =>
          match parse_patch body with
          | inr source => PatchBody (set_workdir workdir source)
          | inl e => PatchParseError e
          end
      | inl CommandDidNotStartWithApplyPatch => NotApplyPatch
      | inl e => PatchShellParseError e
      end
  end.

Definition maybe_parse_apply_patch (argv : list string) : MaybeApplyPatch :=
  match argv with
  | [cmd; body] =>
      if existsb (String.eqb cmd) APPLY_PATCH_COMMANDS then
        match parse_patch body with
        | inr source => PatchBody source
        | inl e => PatchParseError e
        end
      else maybe_parse_shell argv
  | _ => maybe_parse_shell argv
  end.

(** [unified_diff_from_chunks_with_context]; [None] where it panics. *)
Definition unified_diff_from_chunks_with_context (p : path) (chunks : list UpdateFileChunk)
    (context : nat) (fs : F) : option (ApplyPatchError + ApplyPatchFileUpdate) :=
  match read_file_text p sandbox fs with
  | inl e => Some (inl (ApplyIoError ("Failed to read file to update " +:+ display p) (etext e)))
  | inr original =>
      r ← derive_from_contents original (display p) chunks;
      Some match r with
           | inl e => inl e
           | inr a => inr {| afu_unified_diff := unified_diff context (original_contents a)
                                                  (new_contents a);
                             afu_original_content := original_contents a;
                             afu_content := new_contents a |}
           end
  end.

Definition unified_diff_from_chunks (p : path) (chunks : list UpdateFileChunk) (fs : F) :=
  unified_diff_from_chunks_with_context p chunks 1 fs.

(** One iteration of the loop over the hunks.  The replacements of an update
    never panic ([PatchSeek.derive_total]), so the case [None] does not occur. *)
Definition verify_hunk (cwd : path) (fs : F) (changes : gmap path ApplyPatchFileChange)
    (h : Hunk) : ApplyPatchError + gmap path ApplyPatchFileChange :=
  let p := resolve_path home h cwd in
  match h with
  | AddFile _ contents => inr (<[p := AddFileChange contents]> changes)
  | DeleteFile _ =>
      match read_file_text p sandbox fs with
      | inl e => inl (ApplyIoError ("Failed to read " +:+ display p) (etext e))
      | inr content => inr (<[p := DeleteFileChange content]> changes)
      end
  | UpdateFile _ move_path chunks =>
      match unified_diff_from_chunks p chunks fs with
      | None => inl (ComputeReplacements "")
      | Some (inl e) => inl e
      | Some (inr u) =>
          inr (<[p := UpdateFileChange (afu_unified_diff u)
                        ((λ d, resolve_path_against_base home d cwd) <$> move_path)
                        (afu_content u)]> changes)
      end
  end.

Definition verify_apply_patch_args (args : ApplyPatchArgs) (cwd : path) (fs : F)
  : MaybeApplyPatchVerified :=
  let effective_cwd :=
    match aa_workdir args with
    | Some dir => resolve_path_against_base home dir cwd
    | None => cwd
    end in
  match try_fold (verify_hunk effective_cwd fs) ∅ (aa_hunks args) with
  | inl e => CorrectnessError e
  | inr changes => VerifiedBody {| action_changes := changes; action_patch := aa_patch args;
                                   action_cwd := effective_cwd |}
  end.

(** A patch without the command that applies it. *)
Definition implicit_invocation (argv : list string) : bool :=
  let is_patch s := match parse_patch s with inr _ => true | inl _ => false end in
  match argv with [body] => is_patch body | _ => false end ||
  match parse_shell_script argv with Some (_, script) => is_patch script | None => false end.

Definition maybe_parse_apply_patch_verified (argv : list string) (cwd : path) (fs : F)
  : MaybeApplyPatchVerified :=
  if implicit_invocation argv then CorrectnessError ImplicitInvocation else
  match maybe_parse_apply_patch argv with
  | PatchBody args => verify_apply_patch_args args cwd fs
  | PatchShellParseError e => VerifiedShellParseError e
  | PatchParseError e => CorrectnessError (ApplyParseError e)
  | NotApplyPatch => VerifiedNotApplyPatch
  end.
End verify.

(** ** A verified patch does what its changes say *)

(** The paths a hunk concerns. *)
Definition hunk_paths (home : option string) (cwd : path) (h : Hunk) : list path :=
  resolve_path home h cwd ::
  match h with
  | UpdateFile _ (Some d) _ => [resolve_path_against_base home d cwd]
  | _ => []
  end.

Definition patch_paths (home : option string) (cwd : path) (hs : list Hunk) : list path :=
  concat (map (hunk_paths home cwd) hs).

(** What a change says of the files before and after. *)
Definition change_holds (v0 v : contents) (p : path) (c : ApplyPatchFileChange) : Prop :=
  match c with
  | AddFileChange s => v p = Some s
  | DeleteFileChange s => v0 p = Some s ∧ v p = None
  | UpdateFileChange _ None s => v p = Some s
  | UpdateFileChange _ (Some d) s => v p = None ∧ v d = Some s
  end.

(** The paths of a change. *)
Definition change_paths (p : path) (c : ApplyPatchFileChange) : list path :=
  p :: match c with UpdateFileChange _ (Some d) _ => [d] | _ => [] end.

Lemma change_holds_ext v0 v w p c :
  (∀ q, q ∈ change_paths p c → w q = v q) → change_holds v0 v p c → change_holds v0 w p c.
Proof.
  unfold change_paths. intros E. destruct c as [s|s|u [d|] s]; simpl in *;
    rewrite ?E by set_solver; done.
Qed.

Section verified.
Context (unified_diff : nat → string → string → string).
Context {Ctx F : Type} `{FileLaws Ctx F inv view}.
Context (home : option string) (cwd : path) (fs : F) (I : inv fs).

(** The changes of the hunks so far hold, and other paths are as before. *)
Definition verified_so_far (changes : gmap path ApplyPatchFileChange) (v : contents)
    (done_ : list path) : Prop :=
  (∀ p c, changes !! p = Some c → change_holds (view fs) v p c ∧
     ∀ q, q ∈ change_paths p c → q ∈ done_) ∧
  ∀ q, q ∉ done_ → v q = view fs q.

Lemma spec_hunk_frame v v' h q :
  spec_hunk home cwd v h = Some v' → q ∉ hunk_paths home cwd h → v' q = v q.
Proof.
  unfold hunk_paths. intros E N. apply not_elem_of_cons in N as [N1 N2].
  destruct h as [p s|p|p move chunks]; cbn [spec_hunk] in E.
  - injection E as <-. by apply fput_ne.
  - injection E as <-. by apply fput_ne.
  - apply bind_Some in E as (s & _ & E). destruct (derive_from_contents _ _ _) as [[e|a]|]; [done| |done].
    injection E as <-. destruct move as [d|].
    + rewrite fput_ne by done. apply fput_ne. set_solver.
    + by apply fput_ne.
Qed.

(** The change recorded for a hunk, and its effect. *)
Lemma verify_hunk_effect changes changes' v v' h :
  verify_hunk unified_diff home (None : option Ctx) cwd fs changes h = inr changes' →
  spec_hunk home cwd v h = Some v' →
  (∀ q, q ∈ hunk_paths home cwd h → v q = view fs q) → NoDup (hunk_paths home cwd h) →
  ∃ c, changes' = <[resolve_path home h cwd := c]> changes ∧
       change_holds (view fs) v' (resolve_path home h cwd) c ∧
       change_paths (resolve_path home h cwd) c = hunk_paths home cwd h.
Proof.
  unfold hunk_paths, verify_hunk. intros E S0 V ND.
  set (p := resolve_path home h cwd) in *.
  assert (Np : no_dotdot p) by (unfold p, resolve_path; apply normalize_no_dotdot).
  destruct h as [x s|x|x move chunks]; cbn [spec_hunk] in S0; fold p in S0.
  - injection E as <-. injection S0 as <-. eexists. split; [done|]. split; [|done].
    simpl. apply fput_eq.
  - destruct (read_file_text p None fs) as [e|s] eqn:R; [done|]. injection E as <-.
    injection S0 as <-. eexists. split; [done|]. split; [|done]. simpl. split.
    + by eapply read_text_inr.
    + apply fput_eq.
  - unfold unified_diff_from_chunks, unified_diff_from_chunks_with_context in E.
    destruct (read_file_text p None fs) as [e|s] eqn:R; [done|].
    assert (Vp : v p = Some s).
    { rewrite V by set_solver. by eapply read_text_inr. }
    rewrite Vp in S0. cbn [mbind option_bind] in S0, E.
    destruct (derive_from_contents s (display p) chunks) as [[e|a]|]; [done| |done].
    cbn in E. injection E as <-. injection S0 as <-. eexists. split; [done|].
    destruct move as [d|]; simpl; (split; [|done]).
    + split; [apply fput_eq|]. apply NoDup_cons in ND as [ND _].
      rewrite fput_ne by set_solver. apply fput_eq.
    + apply fput_eq.
Qed.

Lemma verified_hunks hs changes changes' v v' done_ :
  try_fold (verify_hunk unified_diff home (None : option Ctx) cwd fs) changes hs = inr changes' →
  spec_hunks home cwd v hs = Some v' →
  NoDup (done_ ++ patch_paths home cwd hs) →
  verified_so_far changes v done_ →
  verified_so_far changes' v' (done_ ++ patch_paths home cwd hs).
Proof.
  unfold patch_paths. revert changes v done_. induction hs as [|h hs IH]; intros changes v done_ T S0 ND Ok.
  - injection T as <-. injection S0 as <-. by rewrite app_nil_r.
  - cbn [map concat] in *. apply and_then_inr in T as (changes1 & T1 & T2).
    apply bind_Some in S0 as (v1 & S1 & S2). rewrite app_assoc in ND |- *.
    apply (IH changes1 v1); [done|done|done|].
    apply NoDup_app in ND as (ND & _ & _). apply NoDup_app in ND as (_ & D & NDh).
    destruct Ok as [Ok1 Ok2].
    assert (Fr : ∀ q, q ∈ hunk_paths home cwd h → v q = view fs q).
    { intros q Hq. apply Ok2. intros Hd. by apply (D q). }
    destruct (verify_hunk_effect _ _ _ _ _ T1 S1 Fr NDh) as (c & -> & Hc & Pc). split.
    + intros p c' L. apply lookup_insert_Some in L as [[<- <-]|[Np L]].
      * split; [done|]. intros q Hq. rewrite Pc in Hq. apply elem_of_app. by right.
      * destruct (Ok1 p c' L) as [Hc' Pc']. split.
        -- revert Hc'. apply change_holds_ext. intros q Hq.
           apply (spec_hunk_frame _ _ _ _ S1). intros Hh. by apply (D q); [apply Pc'|].
        -- intros q Hq. apply elem_of_app. left. by apply Pc'.
    + intros q Hq. apply not_elem_of_app in Hq as [Hq1 Hq2].
      rewrite (spec_hunk_frame _ _ _ _ S1 Hq2). by apply Ok2.
Qed.
End verified.

(** * apply-patch: verified patches and findings

    What a verified patch does when it is applied, and closed examples of
    places where the code departs from its documentation. *)

(** C39: On every executor file system that keeps the file laws (reading, writing or
    removing a path concerns the file of that path only, so no symbolic or hard link
    leads to another), a verified patch that names no path twice does what its
    verified changes say when it is then applied to the same files and that
    succeeds: every added, updated or moved file has the verified content, every
    deleted one is gone, and no file the patch does not name has changed. *)
Theorem verified_patch_applies (unified_diff : nat → string → string → string)
    {Ctx F : Type} `{FileLaws Ctx F inv view} (home : option string)
    (args : ApplyPatchArgs) (cwd : path) (fs : F) (action : ApplyPatchAction)
    (d : AppliedPatchDelta) :
  inv fs →
  verify_apply_patch_args unified_diff home (None : option Ctx) args cwd fs = VerifiedBody action →
  NoDup (patch_paths home (action_cwd action) (aa_hunks args)) →
  let r := apply_hunks home (None : option Ctx) (aa_hunks args) (action_cwd action) fs in
  pr_outcome r = Ok d →
  (∀ p c, action_changes action !! p = Some c → change_holds (view fs) (view (pr_fs r)) p c) ∧
  (∀ q, q ∉ patch_paths home (action_cwd action) (aa_hunks args) → view (pr_fs r) q = view fs q).
Proof.
  intros I E ND r Ok. unfold verify_apply_patch_args in E.
  destruct (try_fold _ ∅ (aa_hunks args)) as [e|changes] eqn:T; [done|]. injection E as <-.
  cbn [action_cwd action_changes] in *. set (c := match aa_workdir args with Some _ => _ | None => _ end) in *.
  destruct (apply_hunks_laws (inv:=inv) (view:=view) home (aa_hunks args) c fs I)
    as (_ & _ & S1 & _).
  destruct (S1 d Ok) as (v & Sp & Ev).
  assert (V0 : verified_so_far (view:=view) fs ∅ (view fs) []).
  { split; [|done]. intros p x L. by rewrite lookup_empty in L. }
  destruct (verified_hunks unified_diff home c fs I _ _ _ _ _ [] T Sp ND V0) as [V1 V2].
  split.
  - intros p x L. destruct (V1 p x L) as [Hx _]. revert Hx. apply change_holds_ext.
    intros q _. apply Ev.
  - intros q Hq. etrans; [apply Ev|by apply V2].
Qed.

Definition no_diff : nat → string → string → string := λ _ _ _, "".

Definition demo_args : ApplyPatchArgs := {|
  aa_patch := ""; aa_hunks := map PatchGrammar.hunk_of (PatchGrammar.p_hunks demo_patch);
  aa_workdir := Some "../w/."; aa_environment_id := None |}.

Lemma verified_patch_applies_witness :
  ∃ action,
    verify_apply_patch_args no_diff None (None : option unit) demo_args ["w"] demo_fs =
      VerifiedBody action ∧
    (∀ p c, action_changes action !! p = Some c →
       change_holds (file_of demo_fs) (file_of (pr_fs demo_run)) p c) ∧
    (∀ q, q ∉ patch_paths None ["w"] (aa_hunks demo_args) →
       file_of (pr_fs demo_run) q = file_of demo_fs q).
Proof.
  destruct (verify_apply_patch_args no_diff None (None : option unit) demo_args ["w"] demo_fs)
    as [action|e|e|] eqn:E; [|exfalso; vm_compute in E; discriminate E..].
  assert (C : action_cwd action = ["w"]).
  { unfold verify_apply_patch_args in E. destruct (try_fold _ _ _); [done|].
    injection E as <-. reflexivity. }
  exists action. split; [done|].
  pose proof (verified_patch_applies no_diff (Ctx:=unit) (inv:=link_free) (view:=file_of) None
    demo_args ["w"] demo_fs action (outcome_delta (pr_outcome demo_run)) demo_fs_ok E) as V.
  rewrite C in V. apply V.
  - apply (bool_decide_unpack (NoDup _)). vm_compute. reflexivity.
  - vm_compute. reflexivity.
Defined.

(** ** Findings *)

(** The comment says that with [eof] the search falls back to [start]; only
    the last position is tried. *)
Lemma seek_eof_no_fallback :
  seek_sequence ["a"; "b"; "c"] ["a"] 0 true = None ∧
  seek_sequence ["a"; "b"; "c"] ["a"] 0 false = Some 0.
Proof. split; reflexivity. Qed.

Definition self_move : list Hunk :=
  [UpdateFile "b.txt" (Some "b.txt")
     [{| change_context := None; old_lines := ["x"]; new_lines := ["X"];
         is_end_of_file := false |}]].

(** Moving a file to itself deletes it and reports success. *)
Lemma move_to_itself_deletes :
  let r := apply_hunks None (None : option unit) self_move ["w"] demo_fs in
  is_ok (pr_outcome r) = true ∧ file_of (pr_fs r) ["w"; "b.txt"] = None.
Proof. vm_compute. split; reflexivity. Qed.

Definition dangling_fs : fsys := <[["w"] := Dir]> (<[["w"; "l"] := Link ["w"; "t"]]> ∅).

(** A file added through a dangling link: the delta counts as exact, and
    taking it back does not remove the file that was created. *)
Lemma dangling_link_delta_exact :
  let r := apply_hunks None (None : option unit) [AddFile "l" "new"] ["w"] dangling_fs in
  delta_exact (outcome_delta (pr_outcome r)) = true ∧
  file_of dangling_fs ["w"; "t"] = None ∧
  undo (delta_changes (outcome_delta (pr_outcome r))) (file_of (pr_fs r)) ["w"; "t"] = Some "new".
Proof. vm_compute. split_and!; reflexivity. Qed.

Definition blank_line_patch : string :=
  join_with nl ["*** Begin Patch"; "*** Update File: f"; ""; "@@"; "-x"; "+y"; "*** End Patch"].

(** A blank line after the header is skipped by the parser of complete
    patches and is a chunk of its own in the preview. *)
Lemma blank_line_divergence :
  let chunk old new := {| change_context := None; old_lines := [old]; new_lines := [new];
                          is_end_of_file := false |} in
  aa_hunks <$> ok_of (parse_patch blank_line_patch) = Some [UpdateFile "f" None [chunk "x" "y"]] ∧
  push_deltas [bytes blank_line_patch] StreamingPatchParser_default =
    inr [UpdateFile "f" None [chunk "" ""; chunk "x" "y"]].
Proof. vm_compute. split; reflexivity. Qed.

Definition two_updates : ApplyPatchArgs :=
  let chunk old new := {| change_context := None; old_lines := [old]; new_lines := [new];
                          is_end_of_file := false |} in
  {| aa_patch := ""; aa_hunks := [UpdateFile "b.txt" None [chunk "x" "y1"];
                                  UpdateFile "b.txt" None [chunk "y1" "z"]];
     aa_workdir := None; aa_environment_id := None |}.

(** Each hunk is verified against the original file: a patch with two hunks
    for one file is rejected although it applies. *)
Lemma verification_not_sequential :
  (∃ m, verify_apply_patch_args no_diff None (None : option unit) two_updates ["w"] demo_fs =
     CorrectnessError (ComputeReplacements m)) ∧
  is_ok (pr_outcome (apply_hunks None (None : option unit) (aa_hunks two_updates) ["w"] demo_fs))
    = true.
Proof. split; [eexists|]; vm_compute; reflexivity. Qed.
