(* ===== verification/SandboxManager.v ===== *)
(** * Choosing and building sandboxes, and approving patches

    [manager.rs] and [landlock.rs] of [codex-rs/sandboxing] on Linux, and
    [safety.rs] and [apply_patch.rs] of [codex-rs/core]: which sandbox a
    command runs in, its command line, and whether a patch is applied without
    asking.  The network proxy is opaque; the JSON of a profile (serde) and
    whether the system is WSL1 ([/proc/version]) are parameters. *)

From S2P Require Import Prelude RustStr FsModel ExecFs Permissions SandboxRoots Profiles.
From S2P Require Import ExecApproval PatchFormat PatchApply PatchHunks PatchVerify.

(** ** Sandboxes *)

Inductive SandboxType := NoSandbox | MacosSeatbelt | LinuxSeccomp | WindowsRestrictedToken.
Inductive SandboxablePreference := Auto | Require_ | Forbid.
Inductive WindowsSandboxLevel := LevelDisabled | LevelRestrictedToken | LevelElevated.

#[global] Instance SandboxType_eq_dec : EqDecision SandboxType.
Proof. solve_decision. Defined.
#[global] Instance WindowsSandboxLevel_eq_dec : EqDecision WindowsSandboxLevel.
Proof. solve_decision. Defined.

Definition as_metric_tag (s : SandboxType) : string :=
  match s with
  | NoSandbox => "none"
  | MacosSeatbelt => "seatbelt"
  | LinuxSeccomp => "seccomp"
  | WindowsRestrictedToken => "windows_sandbox"
  end.

(** On Linux. *)
Definition get_platform_sandbox (windows_sandbox_enabled : bool) : option SandboxType :=
  Some LinuxSeccomp.

Definition windows_sandbox_enabled (level : WindowsSandboxLevel) : bool :=
  negb (bool_decide (level = LevelDisabled)).

Definition select_initial (file_system_policy : FileSystemSandboxPolicy)
    (network_policy : NetworkSandboxPolicy) (pref : SandboxablePreference)
    (level : WindowsSandboxLevel) (has_managed_network_requirements : bool) : SandboxType :=
  match pref with
  | Forbid => NoSandbox
  | Require_ => default NoSandbox (get_platform_sandbox (windows_sandbox_enabled level))
  | Auto =>
      if should_require_platform_sandbox file_system_policy network_policy
           has_managed_network_requirements
      then default NoSandbox (get_platform_sandbox (windows_sandbox_enabled level))
      else NoSandbox
  end.

(** *** The command line of the Linux helper *)

Definition CODEX_LINUX_SANDBOX_ARG0 : string := "codex-linux-sandbox".
Definition allow_network_for_proxy (enforce_managed_network : bool) : bool :=
  enforce_managed_network.

Section transform.
Context (profile_json : PermissionProfile → string) {Proxy : Type}.

Definition create_linux_sandbox_command_args_for_permission_profile (command : list string)
    (command_cwd : path) (permission_profile : PermissionProfile) (sandbox_policy_cwd : os_path)
    (use_legacy_landlock allow_network_for_proxy : bool) : list string :=
  ["--sandbox-policy-cwd"; os_str sandbox_policy_cwd; "--command-cwd"; display command_cwd;
   "--permission-profile"; profile_json permission_profile] ++
  (if use_legacy_landlock then ["--use-legacy-landlock"] else []) ++
  (if allow_network_for_proxy then ["--allow-network-for-proxy"] else []) ++
  ["--"] ++ command.

Record SandboxCommand := {
  sc_program : string;
  sc_args : list string;
  sc_cwd : path;
  sc_env : gmap string string;
  sc_additional_permissions : option AdditionalPermissionProfile
}.

Record SandboxExecRequest := {
  se_command : list string;
  se_cwd : path;
  se_env : gmap string string;
  se_network : option Proxy;
  se_sandbox : SandboxType;
  se_windows_sandbox_level : WindowsSandboxLevel;
  se_windows_sandbox_private_desktop : bool;
  se_permission_profile : PermissionProfile;
  se_file_system_sandbox_policy : FileSystemSandboxPolicy;
  se_network_sandbox_policy : NetworkSandboxPolicy;
  se_arg0 : option string
}.

Record SandboxTransformRequest := {
  st_command : SandboxCommand;
  st_permissions : PermissionProfile;
  st_sandbox : SandboxType;
  st_enforce_managed_network : bool;
  st_network : option Proxy;
  st_sandbox_policy_cwd : os_path;
  st_codex_linux_sandbox_exe : option os_path;
  st_use_legacy_landlock : bool;
  st_windows_sandbox_level : WindowsSandboxLevel;
  st_windows_sandbox_private_desktop : bool
}.

Inductive SandboxTransformError :=
| MissingLinuxSandboxExecutable | Wsl1UnsupportedForBubblewrap | SeatbeltUnavailable.

Definition ensure_linux_bubblewrap_is_supported (policy : FileSystemSandboxPolicy)
    (use_legacy_landlock allow_network_for_proxy is_wsl1 : bool) : SandboxTransformError + unit :=
  let requires_bubblewrap :=
    negb use_legacy_landlock && (negb (has_full_disk_write_access policy) || allow_network_for_proxy) in
  if is_wsl1 && requires_bubblewrap then inl Wsl1UnsupportedForBubblewrap else inr tt.

Definition linux_sandbox_arg0_override (exe : os_path) : string :=
  if bool_decide (file_name (os_comps exe) = Some CODEX_LINUX_SANDBOX_ARG0)
  then os_str exe else CODEX_LINUX_SANDBOX_ARG0.

(** [SandboxManager::transform]. *)
Definition sandbox_argv (is_wsl1 : bool) (r : SandboxTransformRequest)
    (effective_permission_profile : PermissionProfile)
  : SandboxTransformError + (list string * option string) :=
  let argv := sc_program (st_command r) :: sc_args (st_command r) in
  match st_sandbox r with
  | NoSandbox | WindowsRestrictedToken => inr (argv, None)
  | MacosSeatbelt => inl SeatbeltUnavailable
  | LinuxSeccomp =>
      match st_codex_linux_sandbox_exe r with
      | None => inl MissingLinuxSandboxExecutable
      | Some exe =>
          let proxy := allow_network_for_proxy (st_enforce_managed_network r) in
          let? _ := ensure_linux_bubblewrap_is_supported
                      (file_system_sandbox_policy effective_permission_profile)
                      (st_use_legacy_landlock r) proxy is_wsl1 in
          inr (os_str exe ::
                 create_linux_sandbox_command_args_for_permission_profile argv
                   (sc_cwd (st_command r)) effective_permission_profile
                   (st_sandbox_policy_cwd r) (st_use_legacy_landlock r) proxy,
               Some (linux_sandbox_arg0_override exe))
      end
  end.

Definition transform (is_wsl1 : bool) (r : SandboxTransformRequest)
  : SandboxTransformError + SandboxExecRequest :=
  let profile :=
    effective_permission_profile (st_permissions r)
      (sc_additional_permissions (st_command r)) in
  let? argv := sandbox_argv is_wsl1 r profile in
  inr {|
    se_command := argv.1;
    se_cwd := sc_cwd (st_command r);
    se_env := sc_env (st_command r);
    se_network := st_network r;
    se_sandbox := st_sandbox r;
    se_windows_sandbox_level := st_windows_sandbox_level r;
    se_windows_sandbox_private_desktop := st_windows_sandbox_private_desktop r;
    se_permission_profile := profile;
    se_file_system_sandbox_policy := file_system_sandbox_policy profile;
    se_network_sandbox_policy := network_sandbox_policy profile;
    se_arg0 := argv.2 |}.
End transform.

(** *** Legacy policies for older clients *)

Section compatibility.
Context `{ProcessEnv} (fs : fsys).
Implicit Types (cwd : os_path).

Definition compatibility_workspace_write_policy (policy : FileSystemSandboxPolicy)
    (network : NetworkSandboxPolicy) cwd : SandboxPolicy :=
  let tmpdir :=
    tmpdir ← env_tmpdir;
    if String.eqb tmpdir "" then None else absolute (os_of tmpdir) in
  let tmpdir_writable :=
    match tmpdir with
    | Some d => can_write_path_with_cwd fs policy (as_path d) cwd
    | None => false
    end in
  let slash_tmp_writable :=
    fs_is_dir fs ["tmp"] && can_write_path_with_cwd fs policy (as_path ["tmp"]) cwd in
  WorkspaceWrite
    (List.filter (λ root, negb (bool_decide (absolute cwd = Some root)))
       (map wr_root (get_writable_roots_with_cwd fs policy cwd)))
    (is_enabled network) (negb tmpdir_writable) (negb slash_tmp_writable).

Definition compatibility_sandbox_policy_for_permission_profile (p : PermissionProfile)
    (policy : FileSystemSandboxPolicy) (network : NetworkSandboxPolicy) cwd : SandboxPolicy :=
  match profile_to_legacy fs p cwd with
  | inr legacy => legacy
  | inl _ => compatibility_workspace_write_policy policy network cwd
  end.

(** ** Whether a patch is applied without asking (core) *)

Definition PATCH_REJECTED_OUTSIDE_PROJECT_REASON : string :=
  "writing outside of the project; rejected by user approval settings".
Definition PATCH_REJECTED_READ_ONLY_REASON : string :=
  "writing is blocked by read-only sandbox; rejected by user approval settings".

Inductive SafetyCheck :=
| AutoApprove (sandbox_type : SandboxType) (user_explicitly_approved : bool)
| AskUser
| Reject (reason : string).

Definition patch_rejection_reason (p : PermissionProfile) (policy : FileSystemSandboxPolicy)
    (cwd : path) : string :=
  match p with
  | Managed _ _ =>
      if negb (has_full_disk_write_access policy) &&
         bool_decide (get_writable_roots_with_cwd fs policy (as_path cwd) = [])
      then PATCH_REJECTED_READ_ONLY_REASON else PATCH_REJECTED_OUTSIDE_PROJECT_REASON
  | Disabled | External _ => PATCH_REJECTED_OUTSIDE_PROJECT_REASON
  end.

(** The paths of a patch are absolute, so [resolve_path] returns them. *)
Definition is_patch_path_writable (policy : FileSystemSandboxPolicy) (cwd p : path) : bool :=
  can_write_path_with_cwd fs policy (as_path (normalize_path p)) (as_path cwd).

Definition is_change_writable (policy : FileSystemSandboxPolicy) (cwd : path)
    (e : path * ApplyPatchFileChange) : bool :=
  is_patch_path_writable policy cwd e.1 &&
  match e.2 with
  | UpdateFileChange _ (Some dest) _ => is_patch_path_writable policy cwd dest
  | _ => true
  end.

Definition is_write_patch_constrained_to_writable_paths (action : ApplyPatchAction)
    (policy : FileSystemSandboxPolicy) (cwd : path) : bool :=
  forallb (is_change_writable policy cwd) (map_to_list (action_changes action)).

Definition rejects_sandbox_approval (a : AskForApproval) : bool :=
  match a with
  | Never => true
  | Granular config => negb (sandbox_approval config)
  | _ => false
  end.

Definition assess_patch_safety (action : ApplyPatchAction) (a : AskForApproval)
    (p : PermissionProfile) (policy : FileSystemSandboxPolicy) (cwd : path)
    (level : WindowsSandboxLevel) : SafetyCheck :=
  if bool_decide (action_changes action = ∅) then Reject "empty patch" else
  if bool_decide (a = UnlessTrusted) then AskUser else
  let refuse :=
    if rejects_sandbox_approval a then Reject (patch_rejection_reason p policy cwd) else AskUser in
  if is_write_patch_constrained_to_writable_paths action policy cwd || bool_decide (a = OnFailure)
  then
    match p with
    | Disabled | External _ => AutoApprove NoSandbox false
    | Managed _ _ =>
        match get_platform_sandbox (windows_sandbox_enabled level) with
        | Some sandbox_type => AutoApprove sandbox_type false
        | None => refuse
        end
    end
  else refuse.

Record ApplyPatchRuntimeInvocation := {
  rt_action : ApplyPatchAction;
  rt_auto_approved : bool;
  rt_exec_approval_requirement : ExecApprovalRequirement
}.

Inductive InternalApplyPatchInvocation :=
| RespondToModel (error : string)
| DelegateToRuntime (invocation : ApplyPatchRuntimeInvocation).

(** [apply_patch] of [codex-rs/core]. *)
Definition invoke_apply_patch (a : AskForApproval) (p : PermissionProfile)
    (level : WindowsSandboxLevel) (policy : FileSystemSandboxPolicy) (action : ApplyPatchAction)
  : InternalApplyPatchInvocation :=
  match assess_patch_safety action a p policy (action_cwd action) level with
  | AutoApprove _ user_explicitly_approved =>
      DelegateToRuntime {| rt_action := action;
        rt_auto_approved := negb user_explicitly_approved;
        rt_exec_approval_requirement := Skip false None |}
  | AskUser =>
      DelegateToRuntime {| rt_action := action; rt_auto_approved := false;
        rt_exec_approval_requirement := NeedsApproval None None |}
  | Reject reason => RespondToModel ("patch rejected: " +:+ reason)
  end.
End compatibility.
