(* ===== verification/LinuxRun.v ===== *)
(** * linux-sandbox: running bubblewrap

    [linux_run_main.rs] of [codex-rs/linux-sandbox]: what the helper does with
    a policy, the command lines it builds, and the registry with which
    sandboxes that run at the same time agree on who removes the placeholders
    that bubblewrap leaves at its mount targets.  A panic is a [inl] with its
    message; forking, signals, pipes and the monitor thread are left out.
    Which processes are alive, the identity of files, the current executable
    and the JSON of a profile are parameters. *)

From S2P Require Import Prelude RustStr FsModel FsFacts FsxProps ExecFs Permissions PermFacts.
From S2P Require Import SandboxRoots Profiles SandboxManager Bwrap BwrapProps.

Implicit Types (fs : fsys) (p q dir : path) (pid : N) (name : string).
Implicit Types (targets : list SyntheticMountTarget).

(** ** The command lines *)

Definition bwrap_network_mode (network : NetworkSandboxPolicy) (allow_network_for_proxy : bool)
  : BwrapNetworkMode :=
  if allow_network_for_proxy then ProxyOnly
  else if is_enabled network then FullAccess else Isolated.

(** [Iterator::position]. *)
Fixpoint position {A : Type} (f : A → bool) (l : list A) : option nat :=
  match l with [] => None | x :: l' => if f x then Some 0 else S <$> position f l' end.

(** The name of the inner command, before the separator or in its place. *)
Definition apply_inner_command_argv0_for_launcher (argv : list string) (supports_argv0 : bool)
    (argv0_fallback_command : string) : string + list string :=
  match position (String.eqb "--") argv with
  | None => inl "bubblewrap argv is missing command separator '--'"
  | Some i =>
      if supports_argv0 then
        inr (take i argv ++ ["--argv0"; CODEX_LINUX_SANDBOX_ARG0] ++ drop i argv)
      else
        match argv !! S i with
        | None => inl "bubblewrap argv is missing inner command after '--'"
        | Some _ => inr (<[S i := argv0_fallback_command]> argv)
        end
  end.

Definition is_proc_mount_failure (stderr : string) : bool :=
  contains "Can't mount proc" stderr && contains "/newroot/proc" stderr &&
  (contains "Invalid argument" stderr || contains "Operation not permitted" stderr ||
   contains "Permission denied" stderr).

(** The commands of the helper ([LandlockCommand]). *)
Record LandlockCommand := {
  sandbox_policy_cwd : os_path;
  command_cwd : option os_path;
  permission_profile : option PermissionProfile;
  use_legacy_landlock : bool;
  apply_seccomp_then_exec : bool;
  allow_network_for_proxy : bool;
  proxy_route_spec : option string;
  no_proc : bool;
  command : list string
}.

(** What the helper finds around it: its executable, the JSON of profiles,
    the proxy routing of [proxy_routing.rs], the in-process restrictions of
    [landlock.rs] (their error), whether [/proc] can be mounted, the first
    argument it was called with, and whether bubblewrap knows [--argv0]. *)
Class RunEnv := {
  current_exe : string;
  profile_json : PermissionProfile → string;
  prepare_host_proxy_route_spec : string + string;
  activate_proxy_routes_in_netns : string → string + unit;
  apply_permission_profile_to_current_thread :
    PermissionProfile → os_path → bool → bool → bool → string + unit;
  preflight_stderr : list string → string;
  preferred_bwrap_supports_argv0 : bool;
  current_process_argv0 : string
}.

Section run.
Context `{ProcessEnv, BwrapEnv, Globset, RunEnv} (fs : fsys).

Definition build_inner_seccomp_command (policy_cwd : os_path) (command_cwd : option os_path)
    (profile : PermissionProfile) (allow_network_for_proxy : bool)
    (proxy_route_spec : option string) (command : list string) : string + list string :=
  let inner :=
    [current_exe; "--sandbox-policy-cwd"; os_str policy_cwd] ++
    match command_cwd with Some d => ["--command-cwd"; os_str d] | None => [] end ++
    ["--permission-profile"; profile_json profile; "--apply-seccomp-then-exec"] in
  let? inner :=
    if allow_network_for_proxy then
      match proxy_route_spec with
      | Some spec => inr (inner ++ ["--allow-network-for-proxy"; "--proxy-route-spec"; spec])
      | None => inl "managed proxy mode requires a proxy route spec"
      end
    else inr inner in
  inr (inner ++ ["--"] ++ command).

Definition build_bwrap_argv (inner : list string) (policy : FileSystemSandboxPolicy)
    (policy_cwd command_cwd : os_path) (o : BwrapOptions) : BwrapError + BwrapArgs string :=
  let? b := create_bwrap_command_args fs inner policy policy_cwd command_cwd o in
  inr {| args := "bwrap" :: args b; preserved_files := preserved_files b;
         synthetic_mount_targets := synthetic_mount_targets b;
         protected_create_targets := protected_create_targets b |}.

Definition resolve_true_command : string :=
  if fs_exists fs ["usr"; "bin"; "true"] then "/usr/bin/true"
  else if fs_exists fs ["bin"; "true"] then "/bin/true" else "true".

Definition options_with (mount_proc : bool) (m : BwrapNetworkMode) : BwrapOptions := {|
  mount_proc := mount_proc; network_mode := m; options_glob_scan_max_depth := None |}.

Definition preflight_proc_mount_support (policy_cwd command_cwd : os_path)
    (policy : FileSystemSandboxPolicy) (m : BwrapNetworkMode) : BwrapError + bool :=
  let? b := build_bwrap_argv [resolve_true_command] policy policy_cwd command_cwd
              (options_with true m) in
  inr (negb (is_proc_mount_failure (preflight_stderr (args b)))).

(** How the helper ends. *)
Inductive run_outcome :=
| Panicked (message : string)
| BuildError (e : BwrapError)
| ExecCommand (command : list string)
| RunBwrap (b : BwrapArgs string).

Definition run_bwrap_with_proc_fallback (policy_cwd : os_path) (command_cwd : option os_path)
    (policy : FileSystemSandboxPolicy) (network : NetworkSandboxPolicy) (inner : list string)
    (mount_proc allow_network_for_proxy : bool) : run_outcome :=
  let m := bwrap_network_mode network allow_network_for_proxy in
  let command_cwd := default policy_cwd command_cwd in
  match (if mount_proc then preflight_proc_mount_support policy_cwd command_cwd policy m
         else inr false) with
  | inl e => BuildError e
  | inr mount_proc =>
      match build_bwrap_argv inner policy policy_cwd command_cwd (options_with mount_proc m) with
      | inl e => BuildError e
      | inr b =>
          match apply_inner_command_argv0_for_launcher (args b) preferred_bwrap_supports_argv0
                  current_process_argv0 with
          | inl e => Panicked e
          | inr argv =>
              RunBwrap {| args := argv; preserved_files := preserved_files b;
                          synthetic_mount_targets := synthetic_mount_targets b;
                          protected_create_targets := protected_create_targets b |}
          end
      end
  end.

(** Restricting this process, then becoming the command. *)
Definition restrict_and_exec (profile : PermissionProfile) (policy_cwd : os_path)
    (apply_landlock_fs allow_network_for_proxy proxy_routed : bool) (error : string)
    (command : list string) : run_outcome :=
  match apply_permission_profile_to_current_thread profile policy_cwd apply_landlock_fs
          allow_network_for_proxy proxy_routed with
  | inl e => Panicked (error +:+ e)
  | inr _ => ExecCommand command
  end.

Definition run_main (c : LandlockCommand) : run_outcome :=
  if bool_decide (command c = []) then Panicked "No command specified to execute." else
  if apply_seccomp_then_exec c && use_legacy_landlock c then
    Panicked "--apply-seccomp-then-exec is incompatible with --use-legacy-landlock" else
  match permission_profile c with
  | None => Panicked "missing permission profile configuration"
  | Some profile =>
      let '(policy, network) := to_runtime_permissions profile in
      if use_legacy_landlock c &&
         needs_direct_runtime_enforcement fs policy network (sandbox_policy_cwd c) then
        Panicked "permission profiles requiring direct runtime enforcement are incompatible with --use-legacy-landlock"
      else if apply_seccomp_then_exec c then
        match (if allow_network_for_proxy c then
                 match proxy_route_spec c with
                 | None => inl "managed proxy mode requires --proxy-route-spec"
                 | Some spec =>
                     map_err (λ e, "error activating Linux proxy routing bridge: " +:+ e)
                       (activate_proxy_routes_in_netns spec)
                 end
               else inr tt) with
        | inl e => Panicked e
        | inr _ =>
            restrict_and_exec profile (sandbox_policy_cwd c) false (allow_network_for_proxy c)
              (allow_network_for_proxy c) "error applying Linux sandbox restrictions: " (command c)
        end
      else if has_full_disk_write_access policy && negb (allow_network_for_proxy c) then
        restrict_and_exec profile (sandbox_policy_cwd c) false (allow_network_for_proxy c) false
          "error applying Linux sandbox restrictions: " (command c)
      else if negb (use_legacy_landlock c) then
        match (if allow_network_for_proxy c then
                 let? spec := map_err (λ e, "failed to prepare host proxy routing bridge: " +:+ e)
                                prepare_host_proxy_route_spec in
                 inr (Some spec)
               else inr None) with
        | inl e => Panicked e
        | inr spec =>
            match build_inner_seccomp_command (sandbox_policy_cwd c) (command_cwd c) profile
                    (allow_network_for_proxy c) spec (command c) with
            | inl e => Panicked e
            | inr inner =>
                run_bwrap_with_proc_fallback (sandbox_policy_cwd c) (command_cwd c) policy network
                  inner (negb (no_proc c)) (allow_network_for_proxy c)
            end
        end
      else
        restrict_and_exec profile (sandbox_policy_cwd c) true (allow_network_for_proxy c) false
          "error applying legacy Linux sandbox restrictions: " (command c)
  end.
End run.

(** [exit_with_wait_status_or_policy_violation]: the status of a process that
    exited, or of one that a signal ended. *)
Inductive WaitStatus := Exited (code : Z) | Signaled (signal : Z) | OtherStatus.

Definition exit_with_wait_status (s : WaitStatus) : Z :=
  match s with Exited code => code | Signaled signal => (128 + signal)%Z | OtherStatus => 1%Z end.

Definition exit_with_wait_status_or_policy_violation (s : WaitStatus)
    (protected_create_violation : bool) : Z :=
  match s with
  | Exited 0 => if protected_create_violation then 1%Z else exit_with_wait_status s
  | _ => exit_with_wait_status s
  end.

(** ** The registry of mount targets

    Every sandbox leaves a marker file, named after its process, in the
    directory of each of its targets.  The functions run under the lock of
    the registry, one process at a time. *)

Definition SYNTHETIC_MOUNT_MARKER_SYNTHETIC : string := "synthetic" +:+ nl.
Definition SYNTHETIC_MOUNT_MARKER_EXISTING : string := "existing" +:+ nl.
Definition PROTECTED_CREATE_MARKER : string := "protected-create" +:+ nl.

(** [hash_path]: FNV-1a on 64 bits. *)
Definition fnv_step (hash : N) (byte : ascii) : N :=
  (N.lxor hash (N_of_ascii byte) * 1099511628211) mod 18446744073709551616.
Definition hash_path (p : path) : N := foldl fnv_step 14695981039346656037%N (bytes (display p)).

(** [{:016x}]. *)
Definition nibble (n : N) : ascii := ascii_of_N (if (n <? 10)%N then 48 + n else 87 + n).
Fixpoint hex_go (digits : nat) (n : N) (acc : list ascii) : list ascii :=
  match digits with
  | O => acc
  | S d => hex_go d (n / 16) (nibble (n mod 16) :: acc)
  end.
Definition hex16 (n : N) : string := of_bytes (hex_go 16 n []).

(** [str::parse::<libc::pid_t>], a 32-bit integer. *)
Definition parse_pid (s : string) : option Z :=
  match bytes s with
  | "-"%char :: ((c :: _) as l) =>
      if is_ascii_digit c then
        n ← digits_go 0 l;
        if (n <=? 2147483648)%N then Some (- Z.of_N n)%Z else None
      else None
  | _ => n ← parse_usize s; if (n <=? 2147483647)%N then Some (Z.of_N n) else None
  end.

Class RegistryEnv := { temp_dir : path; effective_uid : N }.

Record SyntheticMountTargetRegistration := {
  reg_target : SyntheticMountTarget;
  marker_file : path;
  marker_dir : path
}.
Record ProtectedCreateTargetRegistration := {
  pc_target : ProtectedCreateTarget;
  pc_marker_file : path;
  pc_marker_dir : path
}.

(** A run ends with a result or a panic, and has changed the files either way. *)
Definition run (A : Type) : Type := fsys → (string + A) * fsys.
Definition run_ret {A : Type} (a : A) : run A := λ fs, (inr a, fs).
Definition run_panic {A : Type} (message : string) : run A := λ fs, (inl message, fs).
Definition run_bind {A B : Type} (m : run A) (f : A → run B) : run B :=
  λ fs, match m fs with (inl e, fs') => (inl e, fs') | (inr a, fs') => f a fs' end.
Notation "'do!' x <- m 'in' k" := (run_bind m (λ x, k))
  (at level 10, x name, m at level 100, k at level 200).

(** An effect on the files that panics with a message when it fails. *)
Definition or_panic (f : fsys → io_kind + fsys) (message : string) : run unit :=
  λ fs, match f fs with
        | inl k => (inl (message +:+ ": " +:+ io_message k), fs)
        | inr fs' => (inr tt, fs')
        end.
(** The same, but some failures do not matter. *)
Definition or_ignore (ignored : list io_kind) (f : fsys → io_kind + fsys) (message : string)
  : run unit :=
  λ fs, match f fs with
        | inl k => if bool_decide (k ∈ ignored) then (inr tt, fs)
                   else (inl (message +:+ ": " +:+ io_message k), fs)
        | inr fs' => (inr tt, fs')
        end.

Fixpoint run_map {A B : Type} (f : A → run B) (l : list A) : run (list B) :=
  match l with
  | [] => run_ret []
  | x :: l' => do! y <- f x in do! ys <- run_map f l' in run_ret (y :: ys)
  end.
Fixpoint run_each {A : Type} (f : A → run unit) (l : list A) : run unit :=
  match l with [] => run_ret tt | x :: l' => do! _ <- f x in run_each f l' end.

Section registry.
Context `{RegistryEnv} (process_is_active : Z → bool) (pid : N).

Definition synthetic_mount_registry_root : path :=
  FsModel.join temp_dir ("codex-bwrap-synthetic-mount-targets-" +:+ pretty effective_uid).
Definition synthetic_mount_marker_dir (p : path) : path :=
  FsModel.join synthetic_mount_registry_root (hex16 (hash_path p)).
Definition marker_name : string := pretty pid.

(** The lock serializes what runs under it. *)
Definition with_synthetic_mount_registry_lock {A : Type} (f : run A) : run A :=
  do! _ <- or_panic (λ fs, fs_create_dir_all fs synthetic_mount_registry_root)
             ("failed to create synthetic bubblewrap mount registry " +:+
              display synthetic_mount_registry_root) in
  let lock_path := FsModel.join synthetic_mount_registry_root "lock" in
  do! _ <- or_panic (λ fs, fs_append fs lock_path "")
             ("failed to open synthetic bubblewrap mount registry lock " +:+ display lock_path) in
  f.

Definition synthetic_mount_marker_contents (t : SyntheticMountTarget) : string :=
  if preserves_pre_existing_path t then SYNTHETIC_MOUNT_MARKER_EXISTING
  else SYNTHETIC_MOUNT_MARKER_SYNTHETIC.

(** The markers of dead processes are removed on the way. *)
Fixpoint active_process_matching (dir : path) (matches_marker : path → run bool)
    (entries : list string) : run bool :=
  match entries with
  | [] => run_ret false
  | name :: entries' =>
      match parse_pid name with
      | None => active_process_matching dir matches_marker entries'
      | Some owner =>
          let p := FsModel.join dir name in
          if negb (process_is_active owner) then
            do! _ <- or_ignore [NotFound] (λ fs, fs_remove_file fs p)
                       ("failed to remove stale synthetic bubblewrap mount marker " +:+ display p) in
            active_process_matching dir matches_marker entries'
          else
            do! m <- matches_marker p in
            if m : bool then run_ret true else active_process_matching dir matches_marker entries'
      end
  end.
Definition synthetic_mount_marker_dir_has_active_process_matching (dir : path)
    (matches_marker : path → run bool) : run bool :=
  λ fs, match fs_read_dir fs dir with
        | inl NotFound => (inr false, fs)
        | inl k => (inl ("failed to read synthetic bubblewrap mount marker directory " +:+
                          display dir +:+ ": " +:+ io_message k), fs)
        | inr entries => active_process_matching dir matches_marker entries fs
        end.

Definition is_synthetic_marker (p : path) : run bool :=
  λ fs, match fs_read fs p with
        | inr contents => (inr (String.eqb contents SYNTHETIC_MOUNT_MARKER_SYNTHETIC), fs)
        | inl NotFound => (inr false, fs)
        | inl k => (inl ("failed to read synthetic bubblewrap mount marker " +:+ display p +:+
                          ": " +:+ io_message k), fs)
        end.
Definition synthetic_mount_marker_dir_has_active_synthetic_owner (dir : path) : run bool :=
  synthetic_mount_marker_dir_has_active_process_matching dir is_synthetic_marker.
Definition synthetic_mount_marker_dir_has_active_process (dir : path) : run bool :=
  synthetic_mount_marker_dir_has_active_process_matching dir (λ _, run_ret true).

(** A placeholder of another sandbox that looks like an existing path becomes
    a placeholder of this one, too. *)
Definition as_missing (t : SyntheticMountTarget) : SyntheticMountTarget :=
  match target_kind t with
  | EmptyFile => synthetic_missing (target_path t)
  | EmptyDirectory => synthetic_missing_empty_directory (target_path t)
  end.

Definition register_synthetic_mount_target (t : SyntheticMountTarget)
  : run SyntheticMountTargetRegistration :=
  let dir := synthetic_mount_marker_dir (target_path t) in
  do! _ <- or_panic (λ fs, fs_create_dir_all fs dir)
             ("failed to create synthetic bubblewrap mount marker directory " +:+ display dir) in
  do! owned <- (if preserves_pre_existing_path t
                then synthetic_mount_marker_dir_has_active_synthetic_owner dir else run_ret false) in
  let t := if owned : bool then as_missing t else t in
  let file := FsModel.join dir marker_name in
  do! _ <- or_panic (λ fs, fs_write fs file (synthetic_mount_marker_contents t))
             ("failed to register synthetic bubblewrap mount target " +:+ display (target_path t)) in
  run_ret {| reg_target := t; marker_file := file; marker_dir := dir |}.
Definition register_synthetic_mount_targets (targets : list SyntheticMountTarget)
  : run (list SyntheticMountTargetRegistration) :=
  with_synthetic_mount_registry_lock (run_map register_synthetic_mount_target targets).

Definition register_protected_create_target (t : ProtectedCreateTarget)
  : run ProtectedCreateTargetRegistration :=
  let dir := synthetic_mount_marker_dir (protected_path t) in
  do! _ <- or_panic (λ fs, fs_create_dir_all fs dir)
             ("failed to create protected create marker directory " +:+ display dir) in
  let file := FsModel.join dir marker_name in
  do! _ <- or_panic (λ fs, fs_write fs file PROTECTED_CREATE_MARKER)
             ("failed to register protected create target " +:+ display (protected_path t)) in
  run_ret {| pc_target := t; pc_marker_file := file; pc_marker_dir := dir |}.
Definition register_protected_create_targets (targets : list ProtectedCreateTarget)
  : run (list ProtectedCreateTargetRegistration) :=
  with_synthetic_mount_registry_lock (run_map register_protected_create_target targets).

(** *** Cleaning up

    [ids] identifies the files at the time of the cleanup.  A directory that
    is not empty makes [remove_dir] fail with [OtherIo]. *)
Context (ids : path → FileIdentity).

Definition remove_synthetic_mount_target (t : SyntheticMountTarget) : run unit :=
  λ fs,
    let p := target_path t in
    match lstat fs p with
    | inl NotFound => (inr tt, fs)
    | inl k => (inl ("failed to inspect synthetic bubblewrap mount target " +:+ display p +:+
                      ": " +:+ io_message k), fs)
    | inr n =>
        if negb (should_remove_after_bwrap t {| md_node := n; md_identity := ids p |})
        then (inr tt, fs) else
        let message := "failed to remove synthetic bubblewrap mount target " +:+ display p in
        match target_kind t with
        | EmptyFile => or_ignore [NotFound] (λ fs, fs_remove_file fs p) message fs
        | EmptyDirectory => or_ignore [NotFound; OtherIo] (λ fs, fs_remove_dir fs p) message fs
        end
    end.

Definition unregister_marker (file : path) (message : string) : run unit :=
  or_ignore [NotFound] (λ fs, fs_remove_file fs file) message.

Definition remove_marker_dir (dir : path) (message : string) : run unit :=
  or_ignore [NotFound; OtherIo] (λ fs, fs_remove_dir fs dir) message.

Definition cleanup_synthetic_mount_target (r : SyntheticMountTargetRegistration) : run unit :=
  do! active <- synthetic_mount_marker_dir_has_active_process (marker_dir r) in
  if active : bool then run_ret tt else
  do! _ <- remove_synthetic_mount_target (reg_target r) in
  remove_marker_dir (marker_dir r)
    ("failed to remove synthetic bubblewrap mount marker directory " +:+ display (marker_dir r)).
Definition cleanup_synthetic_mount_targets (targets : list SyntheticMountTargetRegistration)
  : run unit :=
  with_synthetic_mount_registry_lock
    (do! _ <- run_each (λ r, unregister_marker (marker_file r)
                ("failed to unregister synthetic bubblewrap mount target " +:+
                 display (target_path (reg_target r)))) (reverse targets) in
     run_each cleanup_synthetic_mount_target (reverse targets)).

Inductive ProtectedCreateRemoval := RemovedDirectory | RemovedOther.

Definition try_remove_protected_create_target (t : ProtectedCreateTarget) (fs : fsys)
  : (io_kind + option ProtectedCreateRemoval) * fsys :=
  let p := protected_path t in
  match lstat fs p with
  | inl NotFound => (inr None, fs)
  | inl k => (inl k, fs)
  | inr n =>
      let '(removal, result) :=
        match n with
        | Dir => (RemovedDirectory, fs_remove_dir_all fs p)
        | _ => (RemovedOther, fs_remove_file fs p)
        end in
      match result with
      | inr fs' => (inr (Some removal), fs')
      | inl NotFound => (inr None, fs)
      | inl k => (inl k, fs)
      end
  end.

(** A directory that another process fills is tried again. *)
Fixpoint remove_protected_create_go (attempts : nat) (t : ProtectedCreateTarget) : run bool :=
  λ fs,
    match try_remove_protected_create_target t fs with
    | (inr removal, fs') => (inr (match removal with Some _ => true | None => false end), fs')
    | (inl k, fs') =>
        let panic := (inl ("failed to remove protected create target " +:+
                            display (protected_path t) +:+ ": " +:+ io_message k), fs') in
        match attempts with
        | O => panic
        | S attempts' =>
            if bool_decide (k = OtherIo) then remove_protected_create_go attempts' t fs' else panic
        end
    end.
Definition remove_protected_create_target : ProtectedCreateTarget → run bool :=
  remove_protected_create_go 99.

Definition cleanup_protected_create_target (violation : bool)
    (r : ProtectedCreateTargetRegistration) : run bool :=
  do! active <- synthetic_mount_marker_dir_has_active_process (pc_marker_dir r) in
  if active : bool then
    λ fs, (inr (violation || fs_exists fs (protected_path (pc_target r))), fs)
  else
    do! removed <- remove_protected_create_target (pc_target r) in
    do! _ <- remove_marker_dir (pc_marker_dir r)
               ("failed to remove protected create marker directory " +:+ display (pc_marker_dir r)) in
    run_ret (violation || removed).
Fixpoint cleanup_protected_go (violation : bool) (targets : list ProtectedCreateTargetRegistration)
  : run bool :=
  match targets with
  | [] => run_ret violation
  | r :: targets' =>
      do! violation <- cleanup_protected_create_target violation r in
      cleanup_protected_go violation targets'
  end.
Definition cleanup_protected_create_targets (targets : list ProtectedCreateTargetRegistration)
  : run bool :=
  with_synthetic_mount_registry_lock
    (do! _ <- run_each (λ r, unregister_marker (pc_marker_file r)
                ("failed to unregister protected create target " +:+
                 display (protected_path (pc_target r)))) (reverse targets) in
     cleanup_protected_go false (reverse targets)).

(** [run_bwrap_in_child_with_synthetic_mount_cleanup].  [child] is what the
    command does until it ends: the files it leaves, its status and whether
    the monitor saw a protected path.  Then there is no final cleanup of the
    protected paths. *)
Definition run_bwrap_in_child (child : fsys → WaitStatus * bool * fsys) (b : BwrapArgs string)
  : run Z :=
  do! synthetic <- register_synthetic_mount_targets (synthetic_mount_targets b) in
  do! protected <- register_protected_create_targets (protected_create_targets b) in
  λ fs,
    let '(status, monitor_violation, fs) := child fs in
    (do! _ <- cleanup_synthetic_mount_targets synthetic in
     do! violation <- (if monitor_violation then run_ret true
                       else cleanup_protected_create_targets protected) in
     run_ret (exit_with_wait_status_or_policy_violation status violation)) fs.

(** [run_or_exec_bwrap]: without targets the helper becomes bubblewrap. *)
Definition run_or_exec_bwrap (child : fsys → WaitStatus * bool * fsys) (b : BwrapArgs string)
  : run (list string + Z) :=
  if bool_decide (synthetic_mount_targets b = []) && bool_decide (protected_create_targets b = [])
  then run_ret (inl (args b))
  else do! code <- run_bwrap_in_child child b in run_ret (inr code).
End registry.

(** ** Names in the registry *)

(** A check of the numbers below a bound covers them. *)
Lemma small_numbers (P : N → Prop) k n :
  (n < N.of_nat k)%N → Forall P (map N.of_nat (seq 0 k)) → P n.
Proof.
  intros L F. rewrite Forall_forall in F. apply F, list_elem_of_fmap. exists (N.to_nat n).
  split; [lia|]. apply elem_of_seq. lia.
Qed.

Lemma pretty_char_digit n :
  (n < 10)%N → is_ascii_digit (pretty_N_char n) = true ∧ digit_val (pretty_N_char n) = n.
Proof.
  intros L. apply (small_numbers (λ k, is_ascii_digit (pretty_N_char k) = true ∧
                                       digit_val (pretty_N_char k) = k) 10 n L).
  by repeat constructor.
Qed.

Lemma pretty_N_go_digits x : ∀ s,
  Forall (λ c, is_ascii_digit c = true) (bytes s) →
  Forall (λ c, is_ascii_digit c = true) (bytes (pretty_N_go x s)) ∧
  String.length s ≤ String.length (pretty_N_go x s) ∧
  ((0 < x)%N → String.length s < String.length (pretty_N_go x s)).
Proof.
  induction (N.lt_wf_0 x) as [x _ IH]. intros s F. destruct (decide (x = 0)%N) as [->|N].
  { rewrite pretty_N_go_0. split; [done|]. split; [done|lia]. }
  rewrite pretty_N_go_step by lia.
  destruct (IH (x `div` 10)%N) with (s := String (pretty_N_char (x `mod` 10)) s) as (F' & L & _).
  - apply N.div_lt; lia.
  - constructor; [|done]. apply pretty_char_digit. apply N.mod_lt. lia.
  - simpl in L. split; [done|]. split; lia.
Qed.

Lemma pretty_digits (n : N) :
  Forall (λ c, is_ascii_digit c = true) (bytes (pretty n)) ∧ pretty n ≠ "".
Proof.
  unfold pretty, pretty_N. case_decide as D; [by split; repeat constructor|].
  destruct (pretty_N_go_digits n "" ltac:(constructor)) as (F & _ & L). split; [done|].
  intros E. rewrite E in L. simpl in L. lia.
Qed.

Lemma digits_go_pretty x : (x ≤ u64_max)%N → (0 < x)%N → ∀ s,
  digits_go 0 (bytes (pretty_N_go x s)) = digits_go x (bytes s).
Proof.
  induction (N.lt_wf_0 x) as [x _ IH]. intros B Px s. rewrite pretty_N_go_step by done.
  assert (Dm : (10 * (x `div` 10) + x `mod` 10 = x)%N) by (symmetry; apply N.div_mod; lia).
  destruct (pretty_char_digit (x `mod` 10)) as [Dg Dv]; [apply N.mod_lt; lia|].
  assert (Step : digits_go (x `div` 10) (bytes (String (pretty_N_char (x `mod` 10)) s)) =
                 digits_go x (bytes s)).
  { simpl. rewrite Dg, Dv. replace ((x `div` 10) * 10 + x `mod` 10)%N with x by lia.
    by rewrite (proj2 (N.leb_le x u64_max) B). }
  destruct (decide (x `div` 10 = 0)%N) as [E|N].
  - rewrite E, pretty_N_go_0. by rewrite E in Step.
  - rewrite IH; [done|apply N.div_lt; lia|..|by apply N.neq_0_lt_0].
    etrans; [|exact B]. rewrite <- Dm at 2. lia.
Qed.

(** The name of a marker is the process that owns it. *)
Lemma parse_pid_pretty (n : N) : (n ≤ 2147483647)%N → parse_pid (pretty n) = Some (Z.of_N n).
Proof.
  intros B. destruct (pretty_digits n) as [F Ne].
  assert (D : digits_go 0 (bytes (pretty n)) = Some n).
  { unfold pretty, pretty_N. case_decide as D; [by subst|].
    rewrite digits_go_pretty; [done|unfold u64_max; lia|lia]. }
  unfold parse_pid, parse_usize. destruct (pretty n) as [|c s]; [done|]. simpl in *.
  inversion F as [|? ? Fc _]; subst.
  assert (Nc : c ≠ "-"%char ∧ (code c =? 43)%N = false).
  { unfold is_ascii_digit in Fc. apply andb_true_iff in Fc as [L _]. apply N.leb_le in L.
    split; [by intros ->|apply N.eqb_neq; lia]. }
  destruct Nc as [Nc ->]. rewrite D. simpl. rewrite (proj2 (N.leb_le _ _) B).
  destruct c as [[] [] [] [] [] [] [] []]; try done.
Qed.

Lemma digits_plain s :
  Forall (λ c, is_ascii_digit c = true) (bytes s) → s ≠ "" → plain_name s = true.
Proof.
  intros F N. destruct s as [|c s]; [done|]. simpl in F. inversion F as [|? ? Fc _]; subst.
  unfold plain_name. rewrite !andb_true_iff, !negb_true_iff, !String.eqb_neq, existsb_false_elem.
  assert (Nd : ∀ d, d ∈ bytes (String c s) → d ≠ "/"%char ∧ d ≠ "."%char).
  { intros d Hd. rewrite Forall_forall in F. apply F in Hd. by split; intros ->. }
  split_and!; [done|..].
  - intros E. destruct (Nd "."%char) as [_ ?]; [|done]. rewrite E. by left.
  - intros E. destruct (Nd "."%char) as [_ ?]; [|done]. rewrite E. by left.
  - intros d Hd. apply Ascii.eqb_neq. intros <-. by destruct (Nd _ Hd).
Qed.

Lemma hex_go_spec digits n acc :
  length (hex_go digits n acc) = digits + length acc ∧
  (Forall (λ c, c ≠ "/"%char ∧ c ≠ "."%char) acc →
   Forall (λ c, c ≠ "/"%char ∧ c ≠ "."%char) (hex_go digits n acc)).
Proof.
  revert n acc. induction digits as [|d IH]; intros n acc; [done|]. simpl.
  destruct (IH (n / 16)%N (nibble (n mod 16) :: acc)) as [L F]. split; [rewrite L; simpl; lia|].
  intros Fa. apply F. constructor; [|done].
  apply (small_numbers (λ k, nibble k ≠ "/"%char ∧ nibble k ≠ "."%char) 16);
    [pose proof (N.mod_lt n 16); lia|]. by repeat constructor.
Qed.

Lemma hex16_plain n : plain_name (hex16 n) = true.
Proof.
  destruct (hex_go_spec 16 n []) as [L F]. specialize (F ltac:(constructor)).
  change (16 + length []) with 16 in L. unfold plain_name. rewrite !andb_true_iff, !negb_true_iff, !String.eqb_neq, existsb_false_elem.
  assert (Lh : length (bytes (hex16 n)) = 16) by by unfold hex16; rewrite bytes_of_bytes, L.
  split_and!; try (intros E; by rewrite E in Lh).
  intros d Hd. apply Ascii.eqb_neq. intros <-. unfold hex16 in Hd. rewrite bytes_of_bytes in Hd.
  rewrite Forall_forall in F. by destruct (F _ Hd).
Qed.

Lemma digits_go_all acc l n :
  digits_go acc l = Some n → Forall (λ c, is_ascii_digit c = true) l.
Proof.
  revert acc. induction l as [|c l IH]; intros acc; simpl; [by constructor|].
  destruct (is_ascii_digit c) eqn:D; [|done]. case_match; [|done]. intros E. constructor; [done|by eapply IH].
Qed.

Lemma signed_digits_plain c s :
  c ≠ "/"%char → Forall (λ c, is_ascii_digit c = true) (bytes s) → s ≠ "" → plain_name (String c s) = true.
Proof.
  intros Nc F N. destruct s as [|d s]; [done|]. simpl in F. inversion F as [|? ? Fd _]; subst.
  unfold plain_name. rewrite !andb_true_iff, !negb_true_iff, !String.eqb_neq, existsb_false_elem.
  split_and!; [done|..].
  - intros [=].
  - intros [= _ -> _]. done.
  - intros x [->|Hx]%elem_of_cons; apply Ascii.eqb_neq; [done|]. intros <-.
    rewrite Forall_forall in F. by apply F in Hx.
Qed.

Lemma parse_pid_plain s o : parse_pid s = Some o → plain_name s = true.
Proof.
  intros E. destruct s as [|c s]; [done|].
  assert (C : c ≠ "/"%char ∧ Forall (λ c, is_ascii_digit c = true) (bytes s) ∧ s ≠ "" ∨
              Forall (λ c, is_ascii_digit c = true) (bytes (String c s))).
  { unfold parse_pid in E. simpl in E. destruct (decide (c = "-"%char)) as [->|Nm].
    - left. destruct s as [|d s]; simpl in E; [done|]. destruct (is_ascii_digit d) eqn:D; [|done].
      apply bind_Some in E as (n & E & _). split; [done|]. split; [|done].
      change (d :: list_ascii_of_string s) with (bytes (String d s)).
      apply (digits_go_all 0 _ n). simpl. by rewrite D.
    - assert (E' : is_Some (parse_usize (String c s))).
      { destruct c as [[] [] [] [] [] [] [] []]; try done; apply bind_Some in E as (n & E & _); eauto. }
      destruct E' as [n E']. unfold parse_usize in E'. simpl in E'.
      destruct (code c =? 43)%N eqn:P.
      + left. apply N.eqb_eq in P. destruct s as [|d s]; [done|].
        split; [by intros ->|]. split; [|done]. by apply (digits_go_all 0 _ n).
      + right. by apply (digits_go_all 0 _ n). }
  destruct C as [(N & F & Ne)|F]; [by apply signed_digits_plain|by apply digits_plain].
Qed.

(** ** What a run preserves *)

Definition holds (I : fsys → Prop) (R : fsys → fsys → Prop) {A : Type} (m : run A) : Prop :=
  ∀ fs r fs', I fs → m fs = (r, fs') → I fs' ∧ R fs fs'.

Section holds.
Context (I : fsys → Prop) (R : fsys → fsys → Prop) `{!PreOrder R}.

Lemma holds_ret {A : Type} (a : A) : holds I R (run_ret a).
Proof. intros fs r fs' Hi [= _ <-]. by split. Qed.

Lemma holds_bind {A B : Type} (m : run A) (f : A → run B) :
  holds I R m → (∀ a, holds I R (f a)) → holds I R (run_bind m f).
Proof.
  intros Hm Hf fs r fs' Hi. unfold run_bind. destruct (m fs) as [[e|a] fs1] eqn:E.
  - intros [= _ <-]. by eapply Hm.
  - intros E'. destruct (Hm _ _ _ Hi E) as [Hi1 R1]. destruct (Hf a _ _ _ Hi1 E') as [Hi2 R2].
    split; [done|by etrans].
Qed.

Lemma holds_each {A : Type} (f : A → run unit) l :
  (∀ x, x ∈ l → holds I R (f x)) → holds I R (run_each f l).
Proof.
  induction l as [|x l IH]; intros Hf; [apply holds_ret|]. simpl. apply holds_bind.
  - apply Hf. by left.
  - intros _. apply IH. intros y Hy. apply Hf. by right.
Qed.

Lemma holds_map {A B : Type} (f : A → run B) l :
  (∀ x, x ∈ l → holds I R (f x)) → holds I R (run_map f l).
Proof.
  induction l as [|x l IH]; intros Hf; [apply holds_ret|]. simpl. apply holds_bind.
  - apply Hf. by left.
  - intros y. apply holds_bind; [|intros; apply holds_ret]. apply IH. intros z Hz. apply Hf. by right.
Qed.

Lemma holds_or_ignore ignored f message :
  (∀ fs fs', I fs → f fs = inr fs' → I fs' ∧ R fs fs') → holds I R (or_ignore ignored f message).
Proof.
  intros Hf fs r fs' Hi. unfold or_ignore. destruct (f fs) as [k|fs1] eqn:E.
  - case_bool_decide; intros [= _ <-]; by split.
  - intros [= _ <-]. by apply Hf.
Qed.

Lemma holds_or_panic f message :
  (∀ fs fs', I fs → f fs = inr fs' → I fs' ∧ R fs fs') → holds I R (or_panic f message).
Proof.
  intros Hf fs r fs' Hi. unfold or_panic. destruct (f fs) as [k|fs1] eqn:E;
    intros [= _ <-]; [by split|by apply Hf].
Qed.
End holds.

(** ** What registering and cleaning up can change *)

Lemma remove_dir_clear fs p fs' :
  fs_ok no_links fs → plain_path p → fs_remove_dir fs p = inr fs' →
  fs' = delete p fs ∧ fs_ok no_links fs' ∧ fs !! p = Some Dir ∨ p = [] ∧ fs' = fs.
Proof.
  intros Hfs F. assert (C : clear no_links p) by by apply clear_no_links, plain_no_dotdot.
  unfold fs_remove_dir. destruct (lresolve fs p) as [|q] eqn:Lr; [done|].
  apply (lresolve_clear _ _ Hfs) in Lr as [-> _]; [|done].
  destruct (look fs p) as [[| |]|] eqn:L; try done. destruct (dir_empty fs p) eqn:De; [|done].
  intros [= <-]. destruct (decide (p = [])) as [->|Np].
  { right. split; [done|]. apply delete_id, (ok_root _ _ Hfs). }
  left. rewrite look_ne in L by done. split; [done|]. split; [|done]. split.
  - intros x q n Hx Pq Nq N0. apply lookup_delete_Some in Hx as [Nx Hx].
    rewrite lookup_delete_ne; [by eapply (ok_tree _ _ Hfs)|]. intros <-.
    unfold dir_empty in De. rewrite forallb_forall in De.
    specialize (De (x, n) ltac:(apply list_elem_of_In; by apply elem_of_map_to_list)). simpl in De.
    destruct Pq as [[|c k] ->]; [by rewrite app_nil_r in Nq|].
    by rewrite (proj2 (strip_path_Some p (p ++ c :: k) (c :: k))) in De.
  - intros x t Hx. apply lookup_delete_Some in Hx as [_ Hx]. by apply (ok_links _ _ Hfs) in Hx.
  - apply lookup_delete_None. right. apply (ok_root _ _ Hfs).
Qed.

(** What [remove_dir_all] leaves is what is not below the directory. *)
Lemma remove_dir_all_clear fs p fs' :
  fs_ok no_links fs → plain_path p → fs_remove_dir_all fs p = inr fs' →
  fs_ok no_links fs' ∧ ∀ x, ¬ p `prefix_of` x → fs' !! x = fs !! x.
Proof.
  intros Hfs F. assert (C : clear no_links p) by by apply clear_no_links, plain_no_dotdot.
  unfold fs_remove_dir_all. destruct (lresolve fs p) as [|q] eqn:Lr; [done|].
  apply (lresolve_clear _ _ Hfs) in Lr as [-> _]; [|done].
  destruct (look fs p) as [[| |]|]; try done. intros [= <-].
  assert (K : ∀ x n, filter (λ e : path * node, strip_path p e.1 = None) fs !! x = Some n ↔
                     fs !! x = Some n ∧ ¬ p `prefix_of` x).
  { intros x n. rewrite map_lookup_filter_Some. simpl. split; intros [L N]; split; try done.
    - intros [k ->]. by rewrite (proj2 (strip_path_Some p (p ++ k) k)) in N.
    - destruct (strip_path p x) eqn:E; [|done]. apply strip_path_Some in E as ->.
      by destruct N; apply prefix_app_r. }
  split; [split|].
  - intros x q n [Hx Nx]%K Pq Nq N0. apply K. split; [by eapply (ok_tree _ _ Hfs)|].
    intros P. apply Nx. by etrans.
  - intros x t [Hx _]%K. by apply (ok_links _ _ Hfs) in Hx.
  - apply eq_None_not_Some. intros [n [L _]%K]. by rewrite (ok_root _ _ Hfs) in L.
  - intros x N. destruct (fs !! x) as [n|] eqn:L; [by apply K|].
    apply eq_None_not_Some. intros [n [L' _]%K]. congruence.
Qed.

#[local] Opaque hash_path hex16.

Section registry_facts.
Context `{RegistryEnv} (Htemp : plain_path temp_dir).
Context (process_is_active : Z → bool) (pid : N).
Abbreviation registry_root := synthetic_mount_registry_root.

Lemma registry_name_plain : plain_name ("codex-bwrap-synthetic-mount-targets-" +:+ pretty effective_uid) = true.
Proof.
  destruct (pretty_digits effective_uid) as [F _]. unfold plain_name.
  rewrite !andb_true_iff, !negb_true_iff, !String.eqb_neq, existsb_false_elem.
  split_and!; try discriminate. intros c Hc. apply Ascii.eqb_neq. intros <-.
  rewrite bytes_app in Hc. apply elem_of_app in Hc as [Hc|Hc].
  - vm_compute in Hc. by repeat (apply elem_of_cons in Hc as [[=]|Hc]); apply elem_of_nil in Hc.
  - rewrite Forall_forall in F. by apply F in Hc.
Qed.

Lemma registry_root_plain : plain_path registry_root.
Proof.
  unfold registry_root. rewrite join_plain by apply registry_name_plain.
  apply Forall_app. split; [done|]. constructor; [apply registry_name_plain|done].
Qed.

Lemma marker_dir_eq t : synthetic_mount_marker_dir t = registry_root ++ [hex16 (hash_path t)].
Proof. apply join_plain, hex16_plain. Qed.

Lemma marker_dir_plain t : plain_path (synthetic_mount_marker_dir t).
Proof.
  rewrite marker_dir_eq. apply Forall_app. split; [apply registry_root_plain|].
  constructor; [apply hex16_plain|done].
Qed.

Lemma marker_name_plain n : plain_name (marker_name n) = true.
Proof. destruct (pretty_digits n). by apply digits_plain. Qed.

(** The directories of the registry and everything in it. *)
Definition in_registry (x : path) : Prop := registry_root `prefix_of` x ∨ x `prefix_of` registry_root.

(** The marker of another process that is alive. *)
Definition foreign_marker (x : path) : Prop :=
  ∃ d name owner, x = d ++ [name] ∧ name ≠ marker_name pid ∧ parse_pid name = Some owner ∧
                  process_is_active owner = true.

Definition keeps_markers (fs fs' : fsys) : Prop :=
  ∀ x c, foreign_marker x → c ≠ "" → fs !! x = Some (File c) → fs' !! x = Some (File c).

Context (ids : path → FileIdentity).

(** Nobody else alive has a marker in the directory of the target. *)
Definition last_user (fs : fsys) (x : path) : Prop :=
  ∀ y c, foreign_marker y → c ≠ "" → removelast y = synthetic_mount_marker_dir x →
         fs !! y ≠ Some (File c).

(** Outside of the registry only placeholders go away, when nobody else uses
    them. *)
Definition removes_placeholders (targets : list SyntheticMountTarget) (fs fs' : fsys) : Prop :=
  ∀ x, ¬ in_registry x → fs' !! x = fs !! x ∨
    fs' !! x = None ∧ last_user fs x ∧
    ∃ t n, t ∈ targets ∧ target_path t = x ∧ fs !! x = Some n ∧
      should_remove_after_bwrap t {| md_node := n; md_identity := ids x |} = true.

Definition registry_effect (targets : list SyntheticMountTarget) (fs fs' : fsys) : Prop :=
  keeps_markers fs fs' ∧ removes_placeholders targets fs fs'.

#[export] Instance registry_effect_preorder targets : PreOrder (registry_effect targets).
Proof.
  split.
  - intros fs. split; [by intros x c|]. intros x _. by left.
  - intros fs1 fs2 fs3 [K1 P1] [K2 P2]. split; [intros x c Fx N L; auto|].
    assert (Last : ∀ x, last_user fs2 x → last_user fs1 x).
    { intros x U y c Fy N E L. by apply (U y c Fy N E), K1. }
    intros x Nx. destruct (P1 x Nx) as [E1|(N1 & U1 & R1)], (P2 x Nx) as [E2|(N2 & U2 & R2)].
    + left. congruence.
    + right. split; [done|]. split; [by apply Last|]. by rewrite E1 in R2.
    + right. split; [congruence|done].
    + destruct R2 as (t & n & _ & _ & L & _). congruence.
Qed.

(** A change inside the registry that is not to a marker of another process. *)
Lemma local_effect targets fs fs' :
  (∀ x, fs' !! x ≠ fs !! x →
        in_registry x ∧ (foreign_marker x → ∀ c, c ≠ "" → fs !! x ≠ Some (File c))) →
  registry_effect targets fs fs'.
Proof.
  intros D. split.
  - intros x c Fx N L. destruct (decide (fs' !! x = fs !! x)) as [->|Ne]; [done|].
    by destruct (proj2 (D x Ne) Fx c N).
  - intros x Nx. left. destruct (decide (fs' !! x = fs !! x)) as [|Ne]; [done|].
    by destruct (D x Ne).
Qed.

Abbreviation ok := (holds (fs_ok no_links)).

Lemma in_root x : registry_root `prefix_of` x → in_registry x.
Proof. by left. Qed.

Lemma own_not_foreign d : ¬ foreign_marker (d ++ [marker_name pid]).
Proof. intros (d' & name & o & E & N & _). apply app_inj_tail in E as [_ E]. congruence. Qed.

Lemma create_dir_effect targets p message :
  plain_path p → p `prefix_of` registry_root ∨ registry_root `prefix_of` p →
  ok (registry_effect targets) (or_panic (λ fs, fs_create_dir_all fs p) message).
Proof.
  intros F P. apply holds_or_panic; [apply _|]. intros fs fs' Hfs E.
  apply create_dir_all_clear with (Z := no_links) in E as (G & Hfs' & _);
    [|done|by apply clear_no_links, plain_no_dotdot].
  split; [done|]. apply local_effect. intros x Ne.
  destruct (G x) as [|(N & _ & Px & _)]; [done|]. split; [|intros _ c _; congruence].
  destruct P as [P|P]; [right; by etrans|].
  by destruct (prefix_weak_total _ _ _ P Px); [left|right].
Qed.

Lemma own_file_effect (targets : list SyntheticMountTarget) (d : path) (name : string) fs (fs' : fsys) :
  registry_root `prefix_of` d → ¬ foreign_marker (d ++ [name]) →
  (∃ n, fs' = <[d ++ [name] := n]> fs) ∨ fs' = delete (d ++ [name]) fs →
  registry_effect targets fs fs'.
Proof.
  intros P Nf E. apply local_effect. intros x Ne.
  assert (x = d ++ [name]) as ->.
  { destruct (decide (x = d ++ [name])) as [|Nx]; [done|]. exfalso. apply Ne.
    destruct E as [[n ->]| ->]; [by rewrite lookup_insert_ne|by rewrite lookup_delete_ne]. }
  split; [|done]. apply in_root. by apply prefix_app_r.
Qed.

Lemma lock_effect targets message :
  ok (registry_effect targets)
    (or_panic (λ fs, fs_append fs (FsModel.join registry_root "lock") "") message).
Proof.
  rewrite join_plain by done. apply holds_or_panic; [apply _|]. intros fs fs' Hfs E.
  apply (append_clear _ _ Hfs) in E as (_ & -> & Hfs').
  - split; [done|]. eapply own_file_effect; [done| |left; by eexists].
    intros (d & name & o & E & _ & P & _). apply app_inj_tail in E as [_ <-]. done.
  - apply clear_no_links, plain_no_dotdot, Forall_app. split; [apply registry_root_plain|by constructor].
Qed.

Lemma locked_effect {A : Type} targets (m : run A) :
  ok (registry_effect targets) m → ok (registry_effect targets) (with_synthetic_mount_registry_lock m).
Proof.
  intros Hm. apply holds_bind; [apply _| |intros _; apply holds_bind; [apply _| |done]].
  - apply create_dir_effect; [apply registry_root_plain|by left].
  - apply lock_effect.
Qed.

(** *** Looking for live processes *)

Definition shrinks (fs fs' : fsys) : Prop := ∀ x, fs' !! x = fs !! x ∨ fs' !! x = None.
Definition scan_effect targets (fs fs' : fsys) : Prop :=
  registry_effect targets fs fs' ∧ shrinks fs fs'.

#[local] Instance scan_effect_preorder targets : PreOrder (scan_effect targets).
Proof.
  split.
  - intros fs. split; [reflexivity|]. by left.
  - intros fs1 fs2 fs3 [E1 S1] [E2 S2]. split; [by etrans|]. intros x.
    destruct (S2 x) as [-> | ->]; [apply S1|by right].
Qed.

Lemma scan_markers targets dir matches_marker entries :
  plain_path dir → registry_root `prefix_of` dir →
  (∀ p, ok (scan_effect targets) (matches_marker p)) →
  ok (scan_effect targets)
    (active_process_matching process_is_active dir matches_marker entries).
Proof.
  intros F P Hm. induction entries as [|name entries IH]; [apply holds_ret, _|]. simpl.
  destruct (parse_pid name) as [owner|] eqn:Pn; [|done].
  pose proof (parse_pid_plain _ _ Pn) as Fn. rewrite (join_plain dir name Fn).
  destruct (process_is_active owner) eqn:Act; simpl.
  - apply holds_bind; [apply _|apply Hm|]. intros [|]; [apply holds_ret, _|done].
  - apply holds_bind; [apply _| |by intros _]. apply holds_or_ignore; [apply _|].
    intros fs fs' Hfs E. apply (remove_clear _ _ Hfs) in E as (-> & Hfs' & _);
      [|by apply clear_no_links, plain_no_dotdot, Forall_app; split; [|constructor]].
    split; [done|]. split.
    + eapply own_file_effect; [done| |by right].
      intros (d & n & o & E & _ & P' & A'). apply app_inj_tail in E as [_ <-]. congruence.
    + intros x. destruct (decide (x = dir ++ [name])) as [->|N];
        [right; apply lookup_delete_eq|left; by rewrite lookup_delete_ne].
Qed.

Lemma has_active_effect targets dir matches_marker :
  plain_path dir → registry_root `prefix_of` dir →
  (∀ p, ok (scan_effect targets) (matches_marker p)) →
  ok (scan_effect targets)
    (synthetic_mount_marker_dir_has_active_process_matching process_is_active dir matches_marker).
Proof.
  intros F P Hm fs r fs' Hfs. unfold synthetic_mount_marker_dir_has_active_process_matching.
  destruct (fs_read_dir fs dir) as [k|entries] eqn:E.
  - by destruct k; intros [= _ <-].
  - by apply (scan_markers targets dir matches_marker entries F P Hm).
Qed.

Lemma scan_false dir entries fs fs' :
  active_process_matching process_is_active dir (λ _, run_ret true) entries fs = (inr false, fs') →
  ∀ name owner, name ∈ entries → parse_pid name = Some owner → process_is_active owner = false.
Proof.
  revert fs. induction entries as [|name entries IH]; intros fs E n o Hn Pn; [by apply elem_of_nil in Hn|].
  simpl in E. apply elem_of_cons in Hn as [->|Hn].
  - rewrite Pn in E. destruct (process_is_active o) eqn:A; [|done]. done.
  - destruct (parse_pid name) as [owner|]; [|by eapply IH].
    destruct (process_is_active owner); simpl in E; [done|]. unfold run_bind in E.
    destruct (or_ignore _ _ _ fs) as [[e|[]] fs1]; [done|]. by eapply IH.
Qed.

(** No live process in the directory: nobody else uses the target. *)
Lemma no_active_last_user t fs fs' :
  fs_ok no_links fs →
  synthetic_mount_marker_dir_has_active_process process_is_active (synthetic_mount_marker_dir t) fs
    = (inr false, fs') →
  last_user fs' t.
Proof.
  intros Hfs E.
  assert (Sh : shrinks fs fs').
  { eapply (has_active_effect [] _ (λ _, run_ret true)); [apply marker_dir_plain|..|done|exact E].
    - rewrite marker_dir_eq. by apply prefix_app_r.
    - intros p. apply holds_ret, _. }
  intros y c (d & name & o & -> & _ & Pn & Act) _ D L'. rewrite removelast_last in D. subst d.
  assert (L : fs !! (synthetic_mount_marker_dir t ++ [name]) = Some (File c))
    by (destruct (Sh (synthetic_mount_marker_dir t ++ [name])); congruence).
  assert (Dd : fs !! synthetic_mount_marker_dir t = Some Dir).
  { eapply (ok_tree _ _ Hfs); [exact L|by apply prefix_app_r|..].
    - intros Eq%(f_equal length). rewrite length_app in Eq. cbn [length] in Eq. lia.
    - rewrite marker_dir_eq. intros Z. apply app_nil in Z as [_ Z]. discriminate Z. }
  destruct (read_dir_ok fs Hfs (synthetic_mount_marker_dir t)) as [entries En];
    [right; split; [apply marker_dir_plain|done]|].
  unfold synthetic_mount_marker_dir_has_active_process,
    synthetic_mount_marker_dir_has_active_process_matching in E. rewrite En in E.
  pose proof (scan_false _ _ _ _ E name o) as Sf. rewrite Sf in Act; [done| |done].
  apply (elem_of_read_dir fs Hfs _ _ (marker_dir_plain t) En). by exists (File c).
Qed.

(** *** Registering *)

Lemma is_synthetic_effect targets p : ok (scan_effect targets) (is_synthetic_marker p).
Proof.
  intros fs r fs' Hfs. unfold is_synthetic_marker.
  destruct (fs_read fs p) as [[]|]; intros [= _ <-]; by split.
Qed.

Lemma scan_to_effect {A : Type} targets (m : run A) :
  ok (scan_effect targets) m → ok (registry_effect targets) m.
Proof. intros Hm fs r fs' Hfs E. by destruct (Hm _ _ _ Hfs E) as [? [? _]]. Qed.

Lemma in_marker_dir t : registry_root `prefix_of` synthetic_mount_marker_dir t.
Proof. rewrite marker_dir_eq. by apply prefix_app_r. Qed.

Lemma own_marker_plain t : plain_path (synthetic_mount_marker_dir t ++ [marker_name pid]).
Proof.
  apply Forall_app. split; [apply marker_dir_plain|]. constructor; [apply marker_name_plain|done].
Qed.

Lemma write_marker_effect targets t contents message :
  ok (registry_effect targets)
    (or_panic (λ fs, fs_write fs (FsModel.join (synthetic_mount_marker_dir t) (marker_name pid)) contents)
       message).
Proof.
  rewrite join_plain by apply marker_name_plain. apply holds_or_panic; [apply _|].
  intros fs fs' Hfs E. apply (write_clear _ _ Hfs) in E as (_ & -> & Hfs').
  - split; [done|]. eapply own_file_effect; [apply in_marker_dir|apply own_not_foreign|left; by eexists].
  - apply clear_no_links, plain_no_dotdot, own_marker_plain.
Qed.

Lemma register_effect targets target :
  ok (registry_effect targets) (register_synthetic_mount_target process_is_active pid target).
Proof.
  unfold register_synthetic_mount_target. apply holds_bind; [apply _| |intros _].
  - apply create_dir_effect; [apply marker_dir_plain|right; apply in_marker_dir].
  - apply holds_bind; [apply _| |intros owned].
    + destruct (preserves_pre_existing_path target); [|apply holds_ret, _].
      apply scan_to_effect, has_active_effect; [apply marker_dir_plain|apply in_marker_dir|].
      apply is_synthetic_effect.
    + apply holds_bind; [apply _| |intros _; apply holds_ret, _].
      destruct owned; apply write_marker_effect.
Qed.

Lemma register_all_effect targets new :
  ok (registry_effect targets) (register_synthetic_mount_targets process_is_active pid new).
Proof. apply locked_effect, holds_map; [apply _|]. intros t _. apply register_effect. Qed.

(** *** Cleaning up *)

(** A registration of this process. *)
Definition own_registration (r : SyntheticMountTargetRegistration) : Prop :=
  plain_path (target_path (reg_target r)) ∧
  marker_dir r = synthetic_mount_marker_dir (target_path (reg_target r)) ∧
  marker_file r = marker_dir r ++ [marker_name pid].

Lemma remove_target_effect targets t fs r fs' :
  t ∈ targets → plain_path (target_path t) → fs_ok no_links fs → last_user fs (target_path t) →
  remove_synthetic_mount_target ids t fs = (r, fs') →
  fs_ok no_links fs' ∧ registry_effect targets fs fs'.
Proof.
  intros Ht F Hfs U. unfold remove_synthetic_mount_target.
  assert (C : clear no_links (target_path t)) by by apply clear_no_links, plain_no_dotdot.
  destruct (lstat fs (target_path t)) as [k|n] eqn:L; [by destruct k; intros [= _ <-]|].
  apply (lstat_look _ _ Hfs) in L; [|done].
  destruct (should_remove_after_bwrap t _) eqn:S; simpl; [|by intros [= _ <-]].
  assert (Gone : ∀ fs', fs' = delete (target_path t) fs → target_path t ≠ [] →
                        registry_effect targets fs fs').
  { intros fs'' -> Np. rewrite look_ne in L by done. split.
    - intros x c _ Nc Lx. destruct (decide (x = target_path t)) as [->|]; [|by rewrite lookup_delete_ne].
      exfalso. assert (n = File c) as -> by congruence. unfold should_remove_after_bwrap in S. simpl in S.
      destruct (target_kind t); [|done]. apply andb_true_iff in S as [S _]. apply String.eqb_eq in S. done.
    - intros x Nx. destruct (decide (x = target_path t)) as [->|]; [|left; by rewrite lookup_delete_ne].
      right. rewrite lookup_delete_eq. split; [done|]. split; [done|]. by exists t, n. }
  unfold or_ignore. destruct (target_kind t) eqn:Tk.
  - destruct (fs_remove_file fs (target_path t)) as [k|fs1] eqn:E;
      [case_bool_decide; intros [= _ <-]; by split|]. intros [= _ <-].
    apply (remove_clear _ _ Hfs) in E as (-> & Hfs' & _); [|done]. split; [done|]. apply Gone; [done|].
    intros Np. rewrite Np in L. injection L as <-. unfold should_remove_after_bwrap in S.
    by rewrite Tk in S.
  - destruct (fs_remove_dir fs (target_path t)) as [k|fs1] eqn:E;
      [case_bool_decide; intros [= _ <-]; by split|]. intros [= _ <-].
    apply (remove_dir_clear _ _ _ Hfs F) in E as [(-> & Hfs' & D)|[_ ->]]; [|by split].
    split; [done|]. apply Gone; [done|]. intros Np. by rewrite Np, (ok_root _ _ Hfs) in D.
Qed.

Lemma remove_marker_dir_effect targets t message :
  ok (registry_effect targets) (remove_marker_dir (synthetic_mount_marker_dir t) message).
Proof.
  apply holds_or_ignore; [apply _|]. intros fs fs' Hfs E.
  apply (remove_dir_clear _ _ _ Hfs (marker_dir_plain t)) in E as [(-> & Hfs' & D)|[_ ->]]; [|by split].
  split; [done|]. apply local_effect. intros x Ne.
  destruct (decide (x = synthetic_mount_marker_dir t)) as [->|N]; [|by rewrite lookup_delete_ne in Ne].
  split; [apply in_root, in_marker_dir|]. intros _ c _. congruence.
Qed.

Lemma has_active_registry targets t :
  ok (registry_effect targets)
    (synthetic_mount_marker_dir_has_active_process process_is_active (synthetic_mount_marker_dir t)).
Proof.
  apply scan_to_effect, has_active_effect; [apply marker_dir_plain|apply in_marker_dir|].
  intros p. apply holds_ret, _.
Qed.

Lemma cleanup_target_effect targets r :
  own_registration r → reg_target r ∈ targets →
  ok (registry_effect targets) (cleanup_synthetic_mount_target process_is_active ids r).
Proof.
  intros (F & D & _) Ht fs a fs' Hfs. unfold cleanup_synthetic_mount_target, run_bind. rewrite D.
  destruct (synthetic_mount_marker_dir_has_active_process _ _ fs) as [[e|active] fs1] eqn:E1.
  - intros [= _ <-]. by eapply has_active_registry.
  - pose proof (has_active_registry targets _ _ _ _ Hfs E1) as S1.
    destruct active; [by intros [= _ <-]|]. destruct S1 as [Hfs1 R1].
    pose proof (no_active_last_user _ _ _ Hfs E1) as U.
    destruct (remove_synthetic_mount_target ids (reg_target r) fs1) as [[e|[]] fs2] eqn:E2.
    + intros [= _ <-]. destruct (remove_target_effect targets _ _ _ _ Ht F Hfs1 U E2).
      split; [done|by etrans].
    + destruct (remove_target_effect targets _ _ _ _ Ht F Hfs1 U E2) as [Hfs2 R2]. intros E3.
      destruct (remove_marker_dir_effect targets _ _ _ _ _ Hfs2 E3) as [Hfs3 R3].
      split; [done|]. etrans; [done|by etrans].
Qed.

Lemma cleanup_effect rs :
  Forall own_registration rs →
  ok (registry_effect (map reg_target rs)) (cleanup_synthetic_mount_targets process_is_active ids rs).
Proof.
  intros F. rewrite Forall_forall in F. apply locked_effect, holds_bind; [apply _| |intros _].
  - apply holds_each; [apply _|]. intros r Hr. rewrite elem_of_reverse in Hr.
    destruct (F r Hr) as (Ft & D & M). apply holds_or_ignore; [apply _|]. rewrite M, D.
    intros fs fs' Hfs E. apply (remove_clear _ _ Hfs) in E as (-> & Hfs' & _);
      [|apply clear_no_links, plain_no_dotdot, own_marker_plain].
    split; [done|]. eapply own_file_effect; [apply in_marker_dir|apply own_not_foreign|by right].
  - apply holds_each; [apply _|]. intros r Hr. rewrite elem_of_reverse in Hr.
    apply cleanup_target_effect; [by apply F|]. apply list_elem_of_fmap. by exists r.
Qed.
(** *** Protected paths *)

(** The registry's markers of the other live processes stay. *)
Definition keeps_registry (fs fs' : fsys) : Prop :=
  ∀ x c, registry_root `prefix_of` x → foreign_marker x → c ≠ "" →
    fs !! x = Some (File c) → fs' !! x = Some (File c).

#[local] Instance keeps_registry_preorder : PreOrder keeps_registry.
Proof. split; [by intros fs x c|]. intros fs1 fs2 fs3 K1 K2 x c P Fx N L. auto. Qed.

Lemma effect_keeps_registry {A : Type} targets (m : run A) : ok (registry_effect targets) m → ok keeps_registry m.
Proof.
  intros Hm fs r fs' Hfs E. destruct (Hm _ _ _ Hfs E) as [Hfs' [K _]]. split; [done|].
  intros x c _. apply K.
Qed.

(** A registration of this process for a path apart from the registry. *)
Definition own_protected (r : ProtectedCreateTargetRegistration) : Prop :=
  plain_path (protected_path (pc_target r)) ∧ ¬ in_registry (protected_path (pc_target r)) ∧
  pc_marker_dir r = synthetic_mount_marker_dir (protected_path (pc_target r)) ∧
  pc_marker_file r = pc_marker_dir r ++ [marker_name pid].

Lemma outside_keeps_registry p fs fs' :
  ¬ in_registry p → (∀ x, ¬ p `prefix_of` x → fs' !! x = fs !! x) → keeps_registry fs fs'.
Proof.
  intros N K x c P _ _ L. rewrite K; [done|]. intros Px. apply N.
  destruct (prefix_weak_total _ _ _ P Px); [by left|by right].
Qed.

Lemma try_remove_protected_keeps t fs r fs' :
  fs_ok no_links fs → plain_path (protected_path t) → ¬ in_registry (protected_path t) →
  try_remove_protected_create_target t fs = (r, fs') → fs_ok no_links fs' ∧ keeps_registry fs fs'.
Proof.
  intros Hfs F N. unfold try_remove_protected_create_target.
  assert (C : clear no_links (protected_path t)) by by apply clear_no_links, plain_no_dotdot.
  assert (File : ∀ fs1, fs_remove_file fs (protected_path t) = inr fs1 →
                        fs_ok no_links fs1 ∧ keeps_registry fs fs1).
  { intros fs1 E. apply (remove_clear _ _ Hfs) in E as (-> & Hfs1 & _); [|done]. split; [done|].
    apply (outside_keeps_registry (protected_path t)); [done|]. intros x Px.
    apply lookup_delete_ne. by intros <-. }
  assert (All : ∀ fs1, fs_remove_dir_all fs (protected_path t) = inr fs1 →
                       fs_ok no_links fs1 ∧ keeps_registry fs fs1).
  { intros fs1 E. destruct (remove_dir_all_clear _ _ _ Hfs F E) as [Hfs1 K]. split; [done|].
    by apply (outside_keeps_registry (protected_path t)). }
  destruct (lstat fs (protected_path t)) as [[]|[]]; try by intros [= _ <-]; split.
  1,3: destruct (fs_remove_file fs (protected_path t)) as [[]|fs1] eqn:E; intros [= _ <-]; by auto.
  destruct (fs_remove_dir_all fs (protected_path t)) as [[]|fs1] eqn:E; intros [= _ <-]; by auto.
Qed.

Lemma remove_protected_keeps attempts t :
  plain_path (protected_path t) → ¬ in_registry (protected_path t) →
  ok keeps_registry (remove_protected_create_go attempts t).
Proof.
  intros F N. induction attempts as [|attempts IH]; intros fs r fs' Hfs E;
    unfold remove_protected_create_go in E; fold remove_protected_create_go in E;
    destruct (try_remove_protected_create_target t fs) as [[k|removal] fs1] eqn:Et;
    destruct (try_remove_protected_keeps _ _ _ _ Hfs F N Et) as [Hfs1 K1];
    try by injection E as _ <-.
  case_bool_decide; [|by injection E as _ <-].
  destruct (IH fs1 r fs' Hfs1 E) as [Hfs' K]. split; [done|by etrans].
Qed.

Lemma cleanup_protected_target_keeps violation r :
  own_protected r → ok keeps_registry (cleanup_protected_create_target process_is_active violation r).
Proof.
  intros (F & N & D & _). unfold cleanup_protected_create_target. rewrite D.
  apply holds_bind; [apply _|by apply (effect_keeps_registry []), has_active_registry|].
  intros [|]; [intros fs r' fs' Hfs [= _ <-]; by split|].
  apply holds_bind; [apply _|by apply remove_protected_keeps|intros removed].
  apply holds_bind; [apply _|by apply (effect_keeps_registry []), remove_marker_dir_effect|intros _].
  apply holds_ret, _.
Qed.

Lemma cleanup_protected_keeps rs :
  Forall own_protected rs → ok keeps_registry (cleanup_protected_create_targets process_is_active rs).
Proof.
  intros F. rewrite Forall_forall in F.
  assert (Go : ∀ violation l, (∀ r, r ∈ l → own_protected r) →
                 ok keeps_registry (cleanup_protected_go process_is_active violation l)).
  { intros violation l. revert violation. induction l as [|r l IH]; intros violation Hl; [apply holds_ret, _|].
    simpl. apply holds_bind; [apply _|apply cleanup_protected_target_keeps, Hl; by left|].
    intros v. apply IH. intros r' Hr'. apply Hl. by right. }
  intros fs x fs' Hfs E. unfold cleanup_protected_create_targets in E.
  assert (L : ok keeps_registry (with_synthetic_mount_registry_lock
    (run_bind (run_each (λ r, unregister_marker (pc_marker_file r)
       ("failed to unregister protected create target " +:+ display (protected_path (pc_target r))))
       (reverse rs)) (λ _, cleanup_protected_go process_is_active false (reverse rs))))).
  { apply holds_bind; [apply _| |intros _; apply holds_bind; [apply _| |intros _]].
    - apply (effect_keeps_registry []), create_dir_effect; [apply registry_root_plain|by left].
    - apply (effect_keeps_registry []), lock_effect.
    - apply holds_bind; [apply _| |intros _; apply Go; intros r Hr; rewrite elem_of_reverse in Hr; auto].
      apply holds_each; [apply _|]. intros r Hr. rewrite elem_of_reverse in Hr.
      destruct (F r Hr) as (_ & _ & D & M). apply (effect_keeps_registry []), holds_or_ignore; [apply _|].
      rewrite M, D. intros fs1 fs2 Hfs1 E1. apply (remove_clear _ _ Hfs1) in E1 as (-> & Hfs2 & _);
        [|apply clear_no_links, plain_no_dotdot, own_marker_plain].
      split; [done|]. eapply own_file_effect; [apply in_marker_dir|apply own_not_foreign|by right]. }
  by eapply L.
Qed.
End registry_facts.

(** ** Sandboxes that run at the same time

    The host has its files, the processes that are alive and the registrations
    of those that run a sandbox.  What one process does under the lock of the
    registry is one step; anything else may change the files outside of the
    registry at any time, and a process may end without cleaning up.  All of
    them have one temporary directory and one user, so one registry, and the
    host has no symbolic links. *)

Record host := {
  files : fsys;
  live : gset N;
  registered : gmap N (list SyntheticMountTargetRegistration)
}.

Section hosts.
Context `{RegistryEnv} (Htemp : plain_path temp_dir).
(** [kill] with a number that is not positive asks about a process group. *)
Context (group_is_active : Z → bool).

Definition is_live (h : host) (owner : Z) : bool :=
  if (0 <? owner)%Z then bool_decide (Z.to_N owner ∈ live h) else group_is_active owner.

Definition with_files (h : host) (fs : fsys) : host :=
  {| files := fs; live := live h; registered := registered h |}.
Definition exit_process (h : host) (pid : N) : host :=
  {| files := files h; live := live h ∖ {[pid]}; registered := delete pid (registered h) |}.
Definition unregister (h : host) (pid : N) : host :=
  {| files := files h; live := live h; registered := delete pid (registered h) |}.

Inductive host_step (h : host) : host → Prop :=
| step_spawn pid :
    (0 < pid ≤ 2147483647)%N → pid ∉ live h →
    host_step h {| files := files h; live := {[pid]} ∪ live h; registered := registered h |}
| step_register pid targets rs fs' :
    pid ∈ live h → registered h !! pid = None →
    Forall (λ t, plain_path (target_path t)) targets →
    register_synthetic_mount_targets (is_live h) pid targets (files h) = (inr rs, fs') →
    host_step h {| files := fs'; live := live h; registered := <[pid := rs]> (registered h) |}
| step_register_panic pid targets message fs' :
    pid ∈ live h → registered h !! pid = None →
    register_synthetic_mount_targets (is_live h) pid targets (files h) = (inl message, fs') →
    host_step h (exit_process (with_files h fs') pid)
| step_cleanup pid rs ids result fs' :
    registered h !! pid = Some rs →
    cleanup_synthetic_mount_targets (is_live h) ids rs (files h) = (result, fs') →
    host_step h (unregister (with_files h fs') pid)
| step_protect pid (protected : list ProtectedCreateTarget) result fs' :
    pid ∈ live h →
    register_protected_create_targets pid protected (files h) = (result, fs') →
    host_step h match result with
                | inr _ => with_files h fs'
                | inl _ => exit_process (with_files h fs') pid
                end
| step_unprotect pid (protected : list ProtectedCreateTargetRegistration) result fs' :
    pid ∈ live h → registered h !! pid = None → Forall (own_protected pid) protected →
    cleanup_protected_create_targets (is_live h) protected (files h) = (result, fs') →
    host_step h (with_files h fs')
| step_die pid : host_step h (exit_process h pid)
| step_other fs' :
    fs_ok no_links fs' →
    (∀ x, synthetic_mount_registry_root `prefix_of` x → fs' !! x = files h !! x) →
    host_step h (with_files h fs').

Definition host_start (h : host) : Prop :=
  fs_ok no_links (files h) ∧ set_Forall (λ pid, 0 < pid ≤ 2147483647)%N (live h) ∧ registered h = ∅.

Definition marked (fs : fsys) (r : SyntheticMountTargetRegistration) : Prop :=
  ∃ c, c ≠ "" ∧ fs !! marker_file r = Some (File c).

(** Every registered sandbox is alive and its markers are in the registry. *)
Definition host_inv (h : host) : Prop :=
  fs_ok no_links (files h) ∧ set_Forall (λ pid, 0 < pid ≤ 2147483647)%N (live h) ∧
  map_Forall (λ pid rs, pid ∈ live h ∧
    Forall (λ r, own_registration pid r ∧ marked (files h) r) rs) (registered h).

(** *** The markers of a registration *)

Lemma marker_name_inj (p q : N) :
  (p ≤ 2147483647)%N → (q ≤ 2147483647)%N → marker_name p = marker_name q → p = q.
Proof.
  intros Bp Bq E%(f_equal parse_pid). unfold marker_name in E.
  rewrite !parse_pid_pretty in E by done. by injection E as ?%N2Z.inj.
Qed.

(** A marker of any process that is alive stays one. *)
Definition keeps_live (alive : Z → bool) (fs fs' : fsys) : Prop :=
  ∀ d name owner c, parse_pid name = Some owner → alive owner = true → c ≠ "" →
    fs !! (d ++ [name]) = Some (File c) →
    ∃ c', c' ≠ "" ∧ fs' !! (d ++ [name]) = Some (File c').

#[local] Instance keeps_live_preorder alive : PreOrder (keeps_live alive).
Proof.
  split; [by intros fs d name owner c; eauto|].
  intros fs1 fs2 fs3 K1 K2 d name owner c Pn Al Nc L.
  destruct (K1 d name owner c Pn Al Nc L) as (c' & Nc' & L'). by apply (K2 d name owner c').
Qed.

(** What keeps the markers of others, whoever runs it, keeps all of them. *)
Lemma keeps_live_any alive {A : Type} (m : run A) :
  (∀ q : N, holds (fs_ok no_links) (registry_effect alive q (λ _, {| dev := 0; ino := 0 |}) []) m) →
  holds (fs_ok no_links) (keeps_live alive) m.
Proof.
  intros Hm fs r fs' Hfs E. split; [by apply (Hm 0%N fs r fs' Hfs E)|].
  intros d name owner c Pn Al Nc L. exists c. split; [done|].
  assert (Q : ∃ q : N, name ≠ marker_name q).
  { destruct (decide (name = marker_name 0)) as [->|]; [exists 1%N; done|by exists 0%N]. }
  destruct Q as [q Nq]. destruct (Hm q fs r fs' Hfs E) as (_ & K & _).
  apply K; [|done|done]. by exists d, name, owner.
Qed.

Section registering.
Context (alive : Z → bool) (pid : N) (Bpid : (pid ≤ 2147483647)%N) (Live : alive (Z.of_N pid) = true).
Abbreviation ok := (holds (fs_ok no_links)).

Definition registration_of (target : SyntheticMountTarget) (r : SyntheticMountTargetRegistration)
  : Prop := own_registration pid r ∧ target_path (reg_target r) = target_path target.

Lemma keeps_marked fs fs' r :
  own_registration pid r → keeps_live alive fs fs' → marked fs r → marked fs' r.
Proof.
  intros (_ & _ & M) K (c & Nc & L). unfold marked. rewrite M in *. eapply K; [|exact Live|done|done].
  by apply parse_pid_pretty.
Qed.

Lemma contents_ne target : synthetic_mount_marker_contents target ≠ "".
Proof. unfold synthetic_mount_marker_contents. by destruct (preserves_pre_existing_path target). Qed.

Lemma before_write_keeps target :
  ok (keeps_live alive)
    (do! _ <- or_panic (λ fs, fs_create_dir_all fs (synthetic_mount_marker_dir (target_path target)))
               ("failed to create synthetic bubblewrap mount marker directory " +:+
                display (synthetic_mount_marker_dir (target_path target))) in
     if preserves_pre_existing_path target
     then synthetic_mount_marker_dir_has_active_synthetic_owner alive
            (synthetic_mount_marker_dir (target_path target))
     else run_ret false).
Proof.
  apply keeps_live_any. intros q. apply holds_bind; [apply _| |intros _].
  - apply create_dir_effect; [by apply marker_dir_plain|right; apply in_marker_dir].
  - destruct (preserves_pre_existing_path target); [|apply holds_ret, _].
    apply scan_to_effect, has_active_effect; [by apply marker_dir_plain|apply in_marker_dir|].
    apply is_synthetic_effect.
Qed.

Lemma register_marks target fs r fs' :
  fs_ok no_links fs → plain_path (target_path target) →
  register_synthetic_mount_target alive pid target fs = (inr r, fs') →
  fs_ok no_links fs' ∧ keeps_live alive fs fs' ∧ registration_of target r ∧ marked fs' r.
Proof.
  intros Hfs F E. pose proof (before_write_keeps target fs) as B.
  unfold register_synthetic_mount_target in E. unfold run_bind in E, B.
  destruct (or_panic (λ fs, fs_create_dir_all _ _) _ fs) as [[e|[]] fs1]; [done|].
  revert E B. destruct ((if preserves_pre_existing_path target
    then synthetic_mount_marker_dir_has_active_synthetic_owner alive
           (synthetic_mount_marker_dir (target_path target))
    else run_ret false) fs1) as [[e|owned] fs2]; intros E B; [done|].
  destruct (B _ _ Hfs eq_refl) as [Hfs2 K2]. clear B.
  set (t := if owned then as_missing target else target) in E. rewrite (join_plain _ (marker_name pid)) in E
    by apply marker_name_plain.
  unfold or_panic in E. destruct (fs_write fs2 _ _) as [k|fs3] eqn:W; [done|].
  injection E as <- <-. apply (write_clear _ _ Hfs2) in W as (_ & -> & Hfs3);
    [|by apply clear_no_links, plain_no_dotdot, own_marker_plain].
  split; [done|]. split_and!.
  - etrans; [exact K2|]. intros d name owner c _ _ Nc L.
    destruct (decide (d ++ [name] = synthetic_mount_marker_dir (target_path target) ++ [marker_name pid]))
      as [->|N]; [exists (synthetic_mount_marker_contents t); rewrite lookup_insert_eq; split; [apply contents_ne|done]|].
    exists c. by rewrite lookup_insert_ne.
  - assert (Tp : target_path t = target_path target)
      by (unfold t, as_missing; destruct owned; [by destruct (target_kind target)|done]).
    repeat split; simpl; rewrite ?Tp; done.
  - exists (synthetic_mount_marker_contents t). split; [apply contents_ne|]. apply lookup_insert_eq.
Qed.

Lemma register_all_marks targets fs rs fs' :
  fs_ok no_links fs → Forall (λ t, plain_path (target_path t)) targets →
  register_synthetic_mount_targets alive pid targets fs = (inr rs, fs') →
  Forall2 registration_of targets rs ∧ Forall (marked fs') rs.
Proof.
  intros Hfs F E. unfold register_synthetic_mount_targets in E.
  assert (Each : ∀ fs rs, fs_ok no_links fs →
    run_map (register_synthetic_mount_target alive pid) targets fs = (inr rs, fs') →
    keeps_live alive fs fs' ∧ Forall2 registration_of targets rs ∧ Forall (marked fs') rs).
  { clear Hfs E fs rs. induction F as [|t targets Ft F IH]; intros fs rs Hfs E.
    - injection E as <- <-. by split.
    - simpl in E. unfold run_bind in E at 1.
      destruct (register_synthetic_mount_target alive pid t fs) as [[e|r] fs1] eqn:E1; [done|].
      unfold run_bind in E. destruct (run_map _ targets fs1) as [[e|rs'] fs2] eqn:E2; [done|].
      injection E as <- <-. apply register_marks in E1 as (Hfs1 & K1 & R1 & M1); [|done|done].
      destruct (IH fs1 rs' Hfs1 E2) as (K2 & R2 & M2). split; [by etrans|].
      split; [by constructor|]. constructor; [|done]. eapply keeps_marked; [apply R1|exact K2|done]. }
  assert (L : ∀ r fs1, with_synthetic_mount_registry_lock (run_ret tt) fs = (r, fs1) → fs_ok no_links fs1).
  { intros r fs1 E1.
    eapply (locked_effect Htemp alive 0 (λ _, {| dev := 0; ino := 0 |}) []);
      [apply holds_ret, _|exact Hfs|exact E1]. }
  unfold with_synthetic_mount_registry_lock, run_bind in E, L.
  destruct (or_panic (λ fs, fs_create_dir_all _ _) _ fs) as [[e|[]] fs1]; [done|].
  destruct (or_panic (λ fs, fs_append _ _ _) _ fs1) as [[e|[]] fs2]; [done|].
  apply (Each fs2); [by eapply L|done].
Qed.
Lemma register_protected_keeps protected :
  ok (keeps_live alive) (register_protected_create_targets pid protected).
Proof.
  apply holds_bind; [apply _| |intros _; apply holds_bind; [apply _| |intros _]].
  - apply keeps_live_any. intros q. apply create_dir_effect; [by apply registry_root_plain|by left].
  - apply keeps_live_any. intros q. by apply lock_effect.
  - apply holds_map; [apply _|]. intros t _. unfold register_protected_create_target.
    apply holds_bind; [apply _| |intros _; apply holds_bind; [apply _| |intros _; apply holds_ret, _]].
    + apply keeps_live_any. intros q.
      apply create_dir_effect; [by apply marker_dir_plain|right; apply in_marker_dir].
    + rewrite join_plain by apply marker_name_plain. apply holds_or_panic; [apply _|].
      intros fs fs' Hfs E. apply (write_clear _ _ Hfs) in E as (_ & -> & Hfs');
        [|by apply clear_no_links, plain_no_dotdot, own_marker_plain].
      split; [done|]. intros d name owner c _ _ Nc L.
      destruct (decide (d ++ [name] = synthetic_mount_marker_dir (protected_path t) ++ [marker_name pid]))
        as [->|N]; [exists PROTECTED_CREATE_MARKER; by rewrite lookup_insert_eq|].
      exists c. by rewrite lookup_insert_ne.
Qed.
End registering.

(** *** The invariant *)

Lemma is_live_pid h (pid : N) : (0 < pid)%N → pid ∈ live h → is_live h (Z.of_N pid) = true.
Proof.
  intros P L. unfold is_live. rewrite (proj2 (Z.ltb_lt _ _)) by lia.
  rewrite N2Z.id. by apply bool_decide_eq_true.
Qed.

(** A registration of another live process has a marker that is not ours. *)
Lemma registration_foreign h (pid q : N) r :
  host_inv h → (pid ≤ 2147483647)%N → q ≠ pid → q ∈ live h → own_registration q r →
  foreign_marker (is_live h) pid (marker_file r).
Proof.
  intros (_ & B & _) Bp N L (_ & _ & M). apply B in L as Bq. simpl in Bq. rewrite M.
  exists (marker_dir r), (marker_name q), (Z.of_N q). split_and!; [done|..].
  - intros E%marker_name_inj; [done|apply Bq|done].
  - apply parse_pid_pretty, Bq.
  - apply is_live_pid; [apply Bq|done].
Qed.

Lemma keeps_registrations h (pid q : N) ids targets fs' rs :
  host_inv h → pid ∈ live h → q ≠ pid → registered h !! q = Some rs →
  registry_effect (is_live h) pid ids targets (files h) fs' →
  q ∈ live h ∧ Forall (λ r, own_registration q r ∧ marked fs' r) rs.
Proof.
  intros Inv Lp N R [K _]. destruct Inv as (Hfs & B & M). destruct (M q rs R) as [Lq F].
  split; [done|]. eapply Forall_impl; [exact F|]. intros r [O (c & Nc & L)]. split; [done|].
  exists c. split; [done|]. apply K; [|done|done].
  eapply registration_foreign; [by split|by apply B|done..].
Qed.

(** The other registrations of a process keep their markers. *)
Definition others_marked (h : host) (pid : N) (fs' : fsys) : Prop :=
  ∀ (q : N) rs, q ≠ pid → registered h !! q = Some rs →
    q ∈ live h ∧ Forall (λ r, own_registration q r ∧ marked fs' r) rs.

(** A process that ends after a change that keeps the other markers, or that
    has unregistered its targets. *)
Lemma exit_inv h (pid : N) fs' :
  host_inv h → fs_ok no_links fs' → others_marked h pid fs' →
  host_inv (exit_process (with_files h fs') pid) ∧ host_inv (unregister (with_files h fs') pid).
Proof.
  intros (_ & B & _) Hfs' K. split; (split; [done|]; split; [|]).
  1, 3: intros q Hq; apply B; simpl in Hq; set_solver.
  all: intros q rs Hq; simpl in Hq; apply lookup_delete_Some in Hq as [N Hq];
    destruct (K q rs) as [L F]; [done..|]; split; [simpl; set_solver|done].
Qed.

(** Registering protected paths keeps the markers of all, the process included. *)
Lemma protect_keeps h (pid : N) protected result fs' :
  host_inv h → pid ∈ live h →
  register_protected_create_targets pid protected (files h) = (result, fs') →
  host_inv (with_files h fs').
Proof.
  intros Inv L E. pose proof Inv as (Hfs & B & M). pose proof (B _ L) as Bp. simpl in Bp.
  destruct (register_protected_keeps (is_live h) pid protected _ _ _ Hfs E) as [Hfs' K].
  split; [done|]. split; [done|]. intros q rs Hq. destruct (M q rs Hq) as [Lq F]. split; [done|].
  eapply Forall_impl; [exact F|]. intros r [O Mk]. split; [done|]. pose proof (B _ Lq) as Bq. simpl in Bq.
  eapply keeps_marked; [apply Bq| |exact O|exact K|exact Mk]. apply is_live_pid; [apply Bq|done].
Qed.

(** Removing protected paths keeps the markers of the other processes. *)
Lemma unprotect_keeps h (pid : N) protected result fs' :
  host_inv h → pid ∈ live h → registered h !! pid = None → Forall (own_protected pid) protected →
  cleanup_protected_create_targets (is_live h) protected (files h) = (result, fs') →
  host_inv (with_files h fs').
Proof.
  intros Inv L Nr F E. pose proof Inv as (Hfs & B & M).
  destruct (cleanup_protected_keeps Htemp (is_live h) pid (λ _, {| dev := 0; ino := 0 |}) protected F
    _ _ _ Hfs E) as [Hfs' K].
  split; [done|]. split; [done|]. intros q rs Hq. simpl in Hq. destruct (M q rs Hq) as [Lq Fq]. split; [done|].
  eapply Forall_impl; [exact Fq|]. intros r [O (c & Nc & Lr)]. split; [done|]. exists c. split; [done|].
  apply K; [| |done|done].
  - destruct O as (_ & D & ->). rewrite D. etrans; [apply in_marker_dir|]. by apply prefix_app_r.
  - eapply registration_foreign; [done|by apply B| |exact Lq|exact O]. intros ->. congruence.
Qed.

Lemma cleanup_registry h pid rs ids result fs' :
  host_inv h → registered h !! pid = Some rs →
  cleanup_synthetic_mount_targets (is_live h) ids rs (files h) = (result, fs') →
  fs_ok no_links fs' ∧ registry_effect (is_live h) pid ids (map reg_target rs) (files h) fs'.
Proof.
  intros (Hfs & B & M) R E. destruct (M pid rs R) as [L F].
  eapply (cleanup_effect Htemp); [|exact Hfs|exact E].
  eapply Forall_impl; [exact F|]. by intros r [O _].
Qed.

Lemma host_inv_step h h' : host_inv h → host_step h h' → host_inv h'.
Proof.
  intros Inv St. pose proof Inv as (Hfs & B & M).
  destruct St as [pid Bp Np|pid targets rs fs' L Nr F E|pid targets message fs' L Nr E
                 |pid rs ids result fs' R E|pid protected result fs' L E
                 |pid protected result fs' L Nr F E|pid|fs' Hfs' Same].
  - split; [done|]. split; [intros q; simpl; intros [->%elem_of_singleton|Hq]%elem_of_union; [done|by apply B]|].
    intros q rs Hq. destruct (M q rs Hq). split; [simpl; set_solver|done].
  - destruct (register_all_effect Htemp (is_live h) pid (λ _, {| dev := 0; ino := 0 |}) [] targets
      _ _ _ Hfs E) as [Hfs' Ef].
    split; [done|]. split; [done|]. simpl.
    intros q rs' [[<- <-]|[N Hq]]%lookup_insert_Some; simpl.
    + split; [done|]. apply B in L as Bp. simpl in Bp.
      destruct (register_all_marks (is_live h) pid) with (targets := targets) (fs := files h) (rs := rs)
        (fs' := fs') as [R Mk]; [apply Bp|apply is_live_pid; [apply Bp|done]|done..|].
      rewrite Forall_forall in *. intros r Hr. split; [|by apply Mk].
      apply list_elem_of_lookup in Hr as [i Hi].
      by destruct (Forall2_lookup_r _ _ _ _ _ R Hi) as (t & _ & O & _).
    + by eapply keeps_registrations.
  - destruct (register_all_effect Htemp (is_live h) pid (λ _, {| dev := 0; ino := 0 |}) [] targets
      _ _ _ Hfs E) as [Hfs' Ef].
    apply exit_inv; [done..|]. intros q rs N Hq. by eapply keeps_registrations.
  - destruct (cleanup_registry _ _ _ _ _ _ Inv R E) as [Hfs' Ef].
    apply exit_inv; [done..|]. intros q rs' N Hq. destruct (M pid rs R). by eapply keeps_registrations.
  - pose proof (protect_keeps _ _ _ _ _ Inv L E) as (Hfs' & _ & M').
    destruct result; [|by eapply protect_keeps]. apply exit_inv; [done..|].
    intros q rs _ Hq. by apply M'.
  - by eapply unprotect_keeps.
  - change (exit_process h pid) with (exit_process (with_files h (files h)) pid).
    apply exit_inv; [done..|]. intros q rs _ Hq. by apply M.
  - split; [done|]. split; [done|]. intros q rs Hq. destruct (M q rs Hq) as [L F]. split; [done|].
    eapply Forall_impl; [exact F|]. intros r [O (c & Nc & Lr)]. split; [done|]. exists c. split; [done|].
    simpl. rewrite Same; [done|]. destruct O as (_ & D & ->). rewrite D. etrans; [apply in_marker_dir|].
    by apply prefix_app_r.
Qed.

Lemma host_inv_reachable h0 h : host_start h0 → rtc host_step h0 h → host_inv h.
Proof.
  intros (Hfs & B & E) R. assert (Inv : host_inv h0).
  { split; [done|]. split; [done|]. rewrite E. apply map_Forall_empty. }
  clear Hfs B E. induction R as [|h0 h1 h S _ IH]; [done|]. apply IH. by eapply host_inv_step.
Qed.

(** *** What a cleanup may remove *)

Lemma removed_placeholder t m :
  should_remove_after_bwrap t m = true →
  md_node m = match target_kind t with EmptyFile => File "" | EmptyDirectory => Dir end ∧
  pre_existing_path t ≠ Some (md_identity m).
Proof.
  intros [K P]%andb_true_iff. split.
  - destruct (target_kind t), (md_node m) as [content| |]; try done.
    by apply String.eqb_eq in K as ->.
  - destruct (pre_existing_path t) as [i|]; [|done]. apply negb_true_iff, bool_decide_eq_false in P.
    by intros [= ->].
Qed.

(** C29: In any history of sandboxes on one host without symbolic links, with one
    user and one temporary directory, in which processes start, register mount
    targets and protected paths, clean up, panic or are killed, and anything else
    changes the files outside of the registry, cleaning up mount targets changes
    nothing outside of the registry except for removing placeholders: an empty file
    or a directory at a target of the process that cleans up, of the kind that its
    registration expects, other than the object which the registration recorded as
    there before, and never a target of another sandbox that is still running.
    Nothing is recorded for a path that did not exist, or that was a placeholder of
    another running sandbox: the last one of them removes it. *)
Theorem cleanup_keeps_used_targets h0 h pid rs ids result fs' x :
  host_start h0 → rtc host_step h0 h → registered h !! pid = Some rs →
  cleanup_synthetic_mount_targets (is_live h) ids rs (files h) = (result, fs') →
  ¬ in_registry x → fs' !! x ≠ files h !! x →
  fs' !! x = None ∧
  (∃ r, r ∈ rs ∧ target_path (reg_target r) = x ∧
     files h !! x = Some match target_kind (reg_target r) with EmptyFile => File "" | EmptyDirectory => Dir end ∧
     pre_existing_path (reg_target r) ≠ Some (ids x)) ∧
  (∀ (q : N) rs' r, q ≠ pid → registered h !! q = Some rs' → r ∈ rs' → target_path (reg_target r) ≠ x).
Proof.
  intros St R Rp E Nx Ne. pose proof (host_inv_reachable _ _ St R) as Inv.
  destruct (cleanup_registry _ _ _ _ _ _ Inv Rp E) as (_ & _ & P).
  destruct (P x Nx) as [?|(N & U & t & n & Ht & Tp & L & S)]; [done|]. split; [done|]. split.
  - apply list_elem_of_fmap in Ht as (r & -> & Hr). exists r. split; [done|]. split; [done|].
    apply removed_placeholder in S as [<- Np]. by split.
  - intros q rs' r Nq Rq Hr Tx. destruct Inv as (Hfs & B & M). destruct (M q rs' Rq) as [Lq F].
    rewrite Forall_forall in F. destruct (F r Hr) as [O (c & Nc & Lr)].
    apply (U (marker_file r) c); [|done| |done].
    + eapply registration_foreign; [by split| |done..]. apply B, (M pid rs Rp).
    + destruct O as (_ & D & ->). by rewrite removelast_last, D, Tx.
Qed.
End hosts.
