(* ===== verification/SafetyProps.v ===== *)
(** * When a command or a patch runs without a sandbox or without asking

    A command that needs no sandbox may do everything anyway, and a patch that
    is applied without asking changes only files the policy lets be written. *)

From S2P Require Import Prelude RustStr FsModel FsFacts FsxProps ExecFs Permissions PermFacts.
From S2P Require Import SandboxRoots Profiles PermProps ExecApproval PatchFormat PatchApply.
From S2P Require Import PatchHunks PatchSeek PatchLaws PatchProps PatchVerify SandboxManager.

(** ** Sandboxes *)

(** C24: While /tmp is a directory, a command whose sandbox is chosen automatically
    runs without one only when the sandbox is left to an external caller, or when
    the network is open, no managed network rules apply and the policy lets every
    path be read and written. Without /tmp a policy can pass for one with full write
    access that does not let /tmp be written. *)
Theorem unsandboxed_only_with_full_access `{ProcessEnv} (fs : fsys)
    (policy : FileSystemSandboxPolicy) (network : NetworkSandboxPolicy)
    (level : WindowsSandboxLevel) (managed : bool) :
  fs_is_dir fs ["tmp"] = true →
  select_initial policy network Auto level managed = NoSandbox →
  managed = false ∧
  (policy_kind policy = ExternalSandbox ∨
   is_enabled network = true ∧
   ∀ p cwd d target, absolute cwd = Some d → resolve_candidate_path p cwd = Some target →
     can_read_path_with_cwd fs policy p cwd = true ∧ can_write_path_with_cwd fs policy p cwd = true).
Proof.
  intros T S. unfold select_initial, should_require_platform_sandbox in S.
  destruct managed; [done|]. split; [done|].
  assert (Full : is_enabled network = true → has_full_disk_write_access policy = true →
    is_enabled network = true ∧
    ∀ p cwd d target, absolute cwd = Some d → resolve_candidate_path p cwd = Some target →
      can_read_path_with_cwd fs policy p cwd = true ∧
      can_write_path_with_cwd fs policy p cwd = true).
  { intros En Fl. split; [done|]. intros p cwd d target A C.
    destruct (full_disk_write_sound fs policy p cwd d target T Fl A C) as [E W].
    split; [|done]. unfold can_read_path_with_cwd. by rewrite E. }
  destruct (is_enabled network) eqn:En; simpl in S.
  - destruct (policy_kind policy) eqn:K; [right|right|by left]; apply Full; try done.
    + by destruct (has_full_disk_write_access policy).
    + unfold has_full_disk_write_access. by rewrite K.
  - destruct (policy_kind policy); [done|done|by left].
Qed.

(** ** Patches *)

Section covered.
Context (unified_diff : nat → string → string → string).
Context {Ctx F : Type} `{ExecutorFileSystem Ctx F}.
Context (home : option string) (sandbox : option Ctx) (cwd : path) (fs : F).

(** Every hunk is recorded with its paths. *)
Lemma verify_hunk_paths changes changes' h :
  verify_hunk unified_diff home sandbox cwd fs changes h = inr changes' →
  ∃ c, changes' = <[resolve_path home h cwd := c]> changes ∧
       change_paths (resolve_path home h cwd) c = hunk_paths home cwd h.
Proof.
  unfold verify_hunk, hunk_paths. intros E. destruct h as [x s|x|x move chunks].
  - injection E as <-. by eexists.
  - destruct (read_file_text _ _ _); [done|]. injection E as <-. by eexists.
  - destruct (unified_diff_from_chunks _ _ _ _ _) as [[e|u]|]; [done| |done]. injection E as <-.
    eexists. split; [done|]. by destruct move.
Qed.

(** When no path is named twice, no change replaces another. *)
Lemma verified_covers hs changes changes' done_ :
  try_fold (verify_hunk unified_diff home sandbox cwd fs) changes hs = inr changes' →
  NoDup (done_ ++ patch_paths home cwd hs) →
  (∀ p, is_Some (changes !! p) → p ∈ done_) →
  (∀ q, q ∈ done_ → ∃ p c, changes !! p = Some c ∧ q ∈ change_paths p c) →
  ∀ q, q ∈ done_ ++ patch_paths home cwd hs →
       ∃ p c, changes' !! p = Some c ∧ q ∈ change_paths p c.
Proof.
  unfold patch_paths. revert changes done_. induction hs as [|h hs IH]; intros changes done_ T ND Dom Cov.
  - injection T as <-. by rewrite app_nil_r.
  - cbn [map concat] in *. apply and_then_inr in T as (changes1 & T1 & T2).
    rewrite app_assoc in ND |- *.
    apply verify_hunk_paths in T1 as (c & -> & P).
    assert (New : changes !! resolve_path home h cwd = None).
    { apply eq_None_not_Some. intros S. apply Dom in S.
      apply NoDup_app in ND as (ND & _ & _). apply NoDup_app in ND as (_ & D & _).
      apply (D _ S). unfold hunk_paths. set_solver. }
    apply (IH (<[resolve_path home h cwd := c]> changes)); [done|done| |].
    + intros p S. apply elem_of_app. apply lookup_insert_is_Some in S as [<-|[_ S]].
      * right. unfold hunk_paths. set_solver.
      * left. by apply Dom.
    + intros q [Hq|Hq]%elem_of_app.
      * destruct (Cov q Hq) as (p & c' & L & Hc). exists p, c'. split; [|done].
        rewrite lookup_insert_ne; [done|]. intros <-. congruence.
      * exists (resolve_path home h cwd), c. rewrite lookup_insert_eq. split; [done|].
        by rewrite P.
Qed.
End covered.

Lemma patch_paths_no_dotdot home cwd hs q : q ∈ patch_paths home cwd hs → no_dotdot q.
Proof.
  unfold patch_paths. intros (h & _ & Hq)%elem_of_concat_map.
  assert (R : ∀ s, no_dotdot (resolve_path_against_base home s cwd))
    by (intros; apply normalize_no_dotdot).
  unfold hunk_paths, resolve_path in Hq. apply elem_of_cons in Hq as [->|Hq]; [apply R|].
  destruct h as [| |x [m|] cs]; [set_solver..| |set_solver].
  apply list_elem_of_singleton in Hq as ->. apply R.
Qed.

(** What a constrained patch may touch. *)
Lemma constrained_path `{ProcessEnv} fs action policy cwd p c q :
  is_write_patch_constrained_to_writable_paths fs action policy cwd = true →
  action_changes action !! p = Some c → q ∈ change_paths p c →
  is_patch_path_writable fs policy cwd q = true.
Proof.
  unfold is_write_patch_constrained_to_writable_paths. rewrite forallb_forall. intros W L Hq.
  assert (Hin : In (p, c) (map_to_list (action_changes action)))
    by by apply list_elem_of_In, elem_of_map_to_list.
  specialize (W _ Hin). unfold is_change_writable in W. simpl in W. apply andb_true_iff in W as [W1 W2].
  unfold change_paths in Hq. apply elem_of_cons in Hq as [->|Hq]; [done|].
  destruct c as [s|s|u [dest|] s]; try by apply elem_of_nil in Hq.
  by apply list_elem_of_singleton in Hq as ->.
Qed.

Lemma auto_approved_constrained `{ProcessEnv} fs a p level policy action i :
  invoke_apply_patch fs a p level policy action = DelegateToRuntime i →
  rt_auto_approved i = true → a ≠ OnFailure →
  is_write_patch_constrained_to_writable_paths fs action policy (action_cwd action) = true.
Proof.
  unfold invoke_apply_patch, assess_patch_safety. intros E A N.
  rewrite (bool_decide_eq_false_2 (a = OnFailure)), orb_false_r in E by done.
  destruct (is_write_patch_constrained_to_writable_paths _ _ _ _); [done|exfalso].
  repeat case_match; simplify_eq/=; done.
Qed.

Lemma changed_path_in_patch {Ctx F : Type} `{FileLaws Ctx F inv view} unified_diff home args cwd0
    (efs : F) action d q :
  inv efs →
  verify_apply_patch_args unified_diff home (None : option Ctx) args cwd0 efs = VerifiedBody action →
  NoDup (patch_paths home (action_cwd action) (aa_hunks args)) →
  let r := apply_hunks home (None : option Ctx) (aa_hunks args) (action_cwd action) efs in
  pr_outcome r = Ok d → view (pr_fs r) q ≠ view efs q →
  no_dotdot q ∧ ∃ p c, action_changes action !! p = Some c ∧ q ∈ change_paths p c.
Proof.
  intros I E ND r Ok Ch. unfold verify_apply_patch_args in E.
  destruct (try_fold _ ∅ (aa_hunks args)) as [e|changes] eqn:T; [done|]. injection E as <-.
  cbn [action_cwd action_changes] in *. set (c := match aa_workdir args with Some _ => _ | None => _ end) in *.
  destruct (apply_hunks_laws (inv:=inv) (view:=view) home (aa_hunks args) c efs I) as (_ & _ & S1 & _).
  destruct (S1 d Ok) as (v & Sp & Ev).
  assert (V0 : verified_so_far (view:=view) efs ∅ (view efs) []).
  { split; [|done]. intros p x L. by rewrite lookup_empty in L. }
  destruct (verified_hunks unified_diff home c efs I _ _ _ _ _ [] T Sp ND V0) as [_ V2].
  assert (Hq : q ∈ [] ++ patch_paths home c (aa_hunks args)).
  { destruct (decide (q ∈ [] ++ patch_paths home c (aa_hunks args))) as [|N]; [done|exfalso].
    apply Ch. etrans; [apply Ev|by apply V2]. }
  split; [by eapply patch_paths_no_dotdot|].
  apply (verified_covers unified_diff home None c efs _ _ _ [] T ND); [| |done].
  - intros p [x L]. by rewrite lookup_empty in L.
  - by intros ? ?%elem_of_nil.
Qed.

(** C25: On every executor file system that keeps the file laws (reading, writing or
    removing a path concerns the file of that path only, so no symbolic or hard link
    leads to another), a verified patch that names no path twice and is applied
    without asking the user (under any approval setting but on-failure, which
    approves every patch) changes, when it is applied and that succeeds, only files
    that the file-system policy lets be written. *)
Theorem auto_approved_patch_confined `{ProcessEnv} {Ctx F : Type} `{FileLaws Ctx F inv view}
    (fs : fsys) (unified_diff : nat → string → string → string) (args : ApplyPatchArgs)
    (cwd : path) (efs : F) (action : ApplyPatchAction) (a : AskForApproval)
    (profile : PermissionProfile) (level : WindowsSandboxLevel) (policy : FileSystemSandboxPolicy)
    (i : ApplyPatchRuntimeInvocation) (d : AppliedPatchDelta) :
  inv efs →
  verify_apply_patch_args unified_diff env_home (None : option Ctx) args cwd efs =
    VerifiedBody action →
  NoDup (patch_paths env_home (action_cwd action) (aa_hunks args)) →
  invoke_apply_patch fs a profile level policy action = DelegateToRuntime i →
  rt_auto_approved i = true → a ≠ OnFailure →
  let r := apply_hunks env_home (None : option Ctx) (aa_hunks args) (action_cwd action) efs in
  pr_outcome r = Ok d →
  ∀ q, view (pr_fs r) q ≠ view efs q →
    can_write_path_with_cwd fs policy (as_path q) (as_path (action_cwd action)) = true.
Proof.
  intros I E ND Ap Au N r Ok q Ch.
  destruct (changed_path_in_patch unified_diff env_home args cwd efs action d q I E ND Ok Ch)
    as (Nq & p & c & L & Hq).
  pose proof (auto_approved_constrained fs a profile level policy action i Ap Au N) as W.
  pose proof (constrained_path fs action policy _ p c q W L Hq) as Wq.
  unfold is_patch_path_writable in Wq. by rewrite normalize_id in Wq.
Qed.
