(* ===== verification/PermDemo.v ===== *)
(** * Concrete permissions: witnesses and findings

    A small file system, policies on it at which the theorems on permissions
    and approved patches apply, and the behaviours of the code that the findings of
    the development describe. *)

From S2P Require Import Prelude RustStr FsModel FsFacts Exec Demo ExecFs Permissions PermFacts.
From S2P Require Import SandboxRoots Profiles PermProps SandboxProps ExecApproval PatchFormat.
From S2P Require Import PatchApply PatchHunks PatchSeek PatchLaws PatchProps PatchVerify.
From S2P Require Import SandboxManager SafetyProps Bwrap BwrapProps LinuxRun.

(** ** Parameters *)

#[local] Instance perm_env : ProcessEnv :=
  {| env_home := None; env_current_dir := Some ["w"]; env_tmpdir := None |}.

(** A pattern is a path text or, with an opening brace, an error. *)
#[local] Instance perm_globs : Globset := {|
  build_glob_matcher g :=
    if starts_with "/{" g then inl "unclosed alternate group"
    else inr (λ p, bool_decide (os_str p = g)) |}.

Lemma perm_cwd : plain_current_dir.
Proof. intros d [= <-]. by repeat constructor. Qed.

Definition work : os_path := as_path ["w"].
Definition perm_fs : fsys := <[["tmp"] := Dir]> (<[["w"] := Dir]> ∅).

Lemma perm_fs_ok : fs_ok no_links perm_fs.
Proof. apply check_fs_ok. vm_compute. reflexivity. Qed.

Definition workspace : FileSystemSandboxEntry := Entry (Special (ProjectRoots None)) AccessWrite.

(** The policy of the unit test: documents are read-only, their private part is
    denied, and its public part is writable. *)
Definition docs_policy : FileSystemSandboxPolicy := restricted [
  workspace;
  Entry (PathEntry ["w"; "docs"]) AccessRead;
  Entry (PathEntry ["w"; "docs"; "private"]) AccessNone;
  Entry (PathEntry ["w"; "docs"; "private"; "public"]) AccessWrite].

(** ** Witnesses *)

Lemma access_most_specific_witness :
  resolve_access_with_cwd perm_fs docs_policy (as_path ["w"; "docs"; "private"; "x"]) work
    = AccessNone ∧
  resolve_access_with_cwd perm_fs (restricted (rev (policy_entries docs_policy)))
    (as_path ["w"; "docs"; "private"; "x"]) work = AccessNone.
Proof.
  destruct (access_most_specific perm_fs docs_policy (as_path ["w"; "docs"; "private"; "x"]) work
              ["w"; "docs"; "private"; "x"]) as [E P].
  - reflexivity.
  - vm_compute. reflexivity.
  - split; [rewrite E; vm_compute; reflexivity|]. rewrite P.
    + rewrite E. vm_compute. reflexivity.
    + reflexivity.
    + symmetry. apply Permutation_rev.
Defined.

Lemma protected_metadata_unwritable_witness :
  can_write_path_with_cwd perm_fs (workspace_write perm_fs [] true true)
    (os_of ".git/config") work = false ∧
  ∃ m, forbidden_agent_metadata_write perm_fs (os_of ".git/config") work
         (workspace_write perm_fs [] true true) = Some m ∧
       m ∈ PROTECTED_METADATA_PATH_NAMES ∧ m ∈ ["w"; ".git"; "config"].
Proof.
  apply (protected_metadata_unwritable perm_fs _ _ _ _ ["w"] ".git").
  - apply perm_cwd.
  - reflexivity.
  - vm_compute. reflexivity.
  - vm_compute. reflexivity.
  - apply has_entry_spec. vm_compute. reflexivity.
  - by left.
  - by exists ["config"].
  - intros w c Hw Hc. apply elem_of_resolved in Hw as (entry & He & R & A).
    assert (w = ["w"]) as ->.
    { vm_compute in He. repeat (apply elem_of_cons in He as [->|He]; [vm_compute in R, A; by simplify_eq|]).
      by apply elem_of_nil in He. }
    apply list_elem_of_singleton in Hc as ->. apply (bool_decide_unpack (_ ∉ _)). vm_compute. reflexivity.
Defined.

Lemma denied_paths_stay_denied_witness :
  resolve_access_with_cwd perm_fs (preserve_deny_read_restrictions_from unrestricted docs_policy)
    (os_of "docs/private") work = AccessNone ∧
  resolve_access_with_cwd perm_fs
    (from_legacy_sandbox_policy_preserving_deny_entries perm_fs (WorkspaceWrite [] false true true)
       work docs_policy) (os_of "docs/private") work = AccessNone.
Proof.
  destruct (denied_paths_stay_denied perm_fs unrestricted docs_policy
              (WorkspaceWrite [] false true true) None [] work (os_of "docs/private")
              ["w"; "docs"; "private"] (Entry (PathEntry ["w"; "docs"; "private"]) AccessNone))
    as (P & L & _).
  - reflexivity.
  - right. right. left.
  - reflexivity.
  - reflexivity.
  - vm_compute. reflexivity.
  - split; [apply P; discriminate|apply L; reflexivity].
Defined.

Lemma additional_roots_only_add_witness :
  resolve_access_with_cwd perm_fs
    (with_additional_writable_roots perm_fs docs_policy work [["w"; "docs"]; ["out"]])
    (as_path ["out"]) work = AccessWrite ∧
  can_write_path_with_cwd perm_fs
    (with_additional_writable_roots perm_fs docs_policy work [["w"; "docs"]; ["out"]])
    (as_path ["w"; "a"]) work = true.
Proof.
  destruct (additional_roots_only_add perm_fs docs_policy work (as_path ["w"; "a"])
              [["w"; "docs"]; ["out"]]) as (_ & _ & W & R).
  - reflexivity.
  - by repeat constructor.
  - split.
    + apply R; [right; left|]. rewrite <- has_entry_spec. vm_compute. discriminate.
    + apply W. vm_compute. reflexivity.
Defined.

Lemma docs_plain : plain_entries perm_fs docs_policy work.
Proof.
  intros [r a] He. apply elem_of_resolved in He as (entry & He & R & _). simpl resolved_path in *.
  cbv [docs_policy restricted policy_of policy_entries] in He.
  repeat (apply elem_of_cons in He as [->|He];
          [vm_compute in R; injection R as <-; by repeat constructor|]).
  by apply elem_of_nil in He.
Qed.

Lemma writable_roots_sound_witness :
  ∃ w, w ∈ get_writable_roots_with_cwd perm_fs docs_policy work ∧
       is_path_writable w ["w"; "src"] = true ∧
       resolve_access_with_cwd perm_fs docs_policy (as_path ["w"; "src"]) work = AccessWrite.
Proof.
  exists (writable_root_of perm_fs docs_policy work ["w"]).
  assert (Hw : writable_root_of perm_fs docs_policy work ["w"] ∈
               get_writable_roots_with_cwd perm_fs docs_policy work).
  { apply (bool_decide_unpack (_ ∈ _)). vm_compute. reflexivity. }
  split; [exact Hw|]. split; [vm_compute; reflexivity|].
  apply (writable_roots_sound perm_fs perm_fs_ok docs_policy work _ ["w"; "src"]
           (eq_refl : policy_kind docs_policy = Restricted) docs_plain Hw).
  - by repeat constructor.
  - vm_compute. reflexivity.
Defined.

Lemma denied_reads_exact_witness :
  ∃ m, read_deny_matcher_new perm_fs docs_policy work = Some (Some m) ∧
       is_read_denied perm_fs m (os_of "docs/private/key") = true.
Proof.
  destruct (read_deny_matcher_new perm_fs docs_policy work) as [[m|]|] eqn:E;
    [|vm_compute in E; discriminate E..].
  exists m. split; [done|]. apply (denied_reads_exact perm_fs docs_policy work m _ E).
  right. exists (as_path ["w"; "docs"; "private"; "key"]). split.
  - apply (bool_decide_unpack (_ ∈ _)). vm_compute. reflexivity.
  - left. exists ["w"; "docs"; "private"], (as_path ["w"; "docs"; "private"]). split_and!.
    + apply (bool_decide_unpack (_ ∈ _)). vm_compute. reflexivity.
    + apply (bool_decide_unpack (_ ∈ _)). vm_compute. reflexivity.
    + reflexivity.
    + by exists ["key"].
Defined.

Definition requested_docs : FileSystemPermissions := {|
  fsp_entries := [workspace; Entry (PathEntry ["w"; "secret"]) AccessNone];
  fsp_glob_scan_max_depth := None |}.
Definition granted_all : FileSystemPermissions := {|
  fsp_entries := [Entry (PathEntry ["w"]) AccessRead]; fsp_glob_scan_max_depth := None |}.
Definition intersected : FileSystemPermissions := {|
  fsp_entries := [Entry (PathEntry ["w"]) AccessRead; Entry (PathEntry ["w"; "secret"]) AccessNone];
  fsp_glob_scan_max_depth := None |}.
Definition only_files (f : FileSystemPermissions) : AdditionalPermissionProfile :=
  {| ap_network := Some enabled_network; ap_file_system := Some f |}.

Lemma intersection_within_both_witness :
  can_read_path_with_cwd perm_fs (policy_of_permissions requested_docs) (os_of "a") work = true ∧
  can_read_path_with_cwd perm_fs (policy_of_permissions granted_all) (os_of "a") work = true.
Proof.
  apply (intersection_within_both perm_fs work ["w"] (only_files requested_docs)
           (only_files granted_all) (only_files intersected) requested_docs granted_all intersected
           (os_of "a") ["w"; "a"]).
  - apply perm_cwd.
  - reflexivity.
  - reflexivity.
  - reflexivity.
  - reflexivity.
  - intros entry q He E. cbv [requested_docs granted_all fsp_entries] in He.
    repeat (apply elem_of_cons in He as [->|He]; [simplify_eq/=; by repeat constructor|]).
    by apply elem_of_nil in He.
  - intros entry q He E. cbv [requested_docs granted_all fsp_entries] in He.
    repeat (apply elem_of_cons in He as [->|He]; [simplify_eq/=; by repeat constructor|]).
    by apply elem_of_nil in He.
  - vm_compute. reflexivity.
  - reflexivity.
  - vm_compute. reflexivity.
  - vm_compute. reflexivity.
Defined.

Lemma unsandboxed_only_with_full_access_witness :
  can_write_path_with_cwd perm_fs (restricted [Entry (Special Root) AccessWrite])
    (as_path ["etc"; "passwd"]) work = true.
Proof.
  destruct (unsandboxed_only_with_full_access perm_fs (restricted [Entry (Special Root) AccessWrite])
              NetworkEnabled LevelDisabled false) as [_ [E|[_ W]]].
  - vm_compute. reflexivity.
  - reflexivity.
  - discriminate E.
  - apply (W _ _ ["w"] ["etc"; "passwd"]); reflexivity.
Defined.

(** The patch of [PatchProps], applied in a writable workspace. *)
Lemma auto_approved_patch_confined_witness :
  ∃ action i,
    verify_apply_patch_args no_diff None (None : option unit) demo_args ["w"] demo_fs =
      VerifiedBody action ∧
    invoke_apply_patch demo_fs OnRequest read_only_profile LevelDisabled (restricted [workspace])
      action = DelegateToRuntime i ∧
    rt_auto_approved i = true ∧
    ∀ q, file_of (pr_fs demo_run) q ≠ file_of demo_fs q →
      can_write_path_with_cwd demo_fs (restricted [workspace]) (as_path q) work = true.
Proof.
  destruct (verify_apply_patch_args no_diff None (None : option unit) demo_args ["w"] demo_fs)
    as [action|e|e|] eqn:E; [|exfalso; vm_compute in E; discriminate E..].
  assert (C : action_cwd action = ["w"]).
  { unfold verify_apply_patch_args in E. destruct (try_fold _ _ _); [done|].
    injection E as <-. reflexivity. }
  assert (W : is_write_patch_constrained_to_writable_paths demo_fs action (restricted [workspace])
                (action_cwd action) = true).
  { rewrite C. vm_compute in E. injection E as <-. vm_compute. reflexivity. }
  assert (N : action_changes action ≠ ∅).
  { vm_compute in E. injection E as <-. intros X. vm_compute in X. discriminate X. }
  eexists action, _. split; [done|].
  assert (A : invoke_apply_patch demo_fs OnRequest read_only_profile LevelDisabled
                (restricted [workspace]) action =
              DelegateToRuntime {| rt_action := action; rt_auto_approved := true;
                                   rt_exec_approval_requirement := Skip false None |}).
  { unfold invoke_apply_patch, assess_patch_safety.
    rewrite bool_decide_eq_false_2 by done. by rewrite W. }
  split; [exact A|]. split; [reflexivity|]. intros q Ch.
  pose proof (auto_approved_patch_confined (Ctx:=unit) (inv:=link_free) (view:=file_of) demo_fs
    no_diff demo_args ["w"] demo_fs action OnRequest read_only_profile LevelDisabled
    (restricted [workspace]) {| rt_action := action; rt_auto_approved := true;
      rt_exec_approval_requirement := Skip false None |} (outcome_delta (pr_outcome demo_run)) demo_fs_ok E) as V.
  rewrite C in V. apply V; [|exact A|reflexivity|discriminate| |exact Ch].
  - apply (bool_decide_unpack (NoDup _)). vm_compute. reflexivity.
  - vm_compute. reflexivity.
Defined.

(** ** Findings *)

(** Which of two writable directories protects its metadata depends on the
    order of the entries. *)
Lemma metadata_depends_on_order :
  let modules := Entry (PathEntry ["w"; ".git"; "m"]) AccessWrite in
  let target := as_path ["w"; ".git"; "m"; ".git"; "config"] in
  can_write_path_with_cwd perm_fs (restricted [workspace; modules]) target work = true ∧
  can_write_path_with_cwd perm_fs (restricted [modules; workspace]) target work = false.
Proof. split; vm_compute; reflexivity. Qed.

(** The protected metadata of a nested writable directory is writable through
    the outer writable root. *)
Lemma nested_metadata_writable :
  let policy := restricted [workspace; Entry (PathEntry ["w"; "sub"]) AccessWrite] in
  let target := ["w"; "sub"; ".git"; "config"] in
  can_write_path_with_cwd perm_fs policy (as_path target) work = false ∧
  existsb (λ w, is_path_writable w target) (get_writable_roots_with_cwd perm_fs policy work) = true.
Proof. split; vm_compute; reflexivity. Qed.

(** A read-only directory inside a requested writable one is lost when the
    request is intersected with a grant of the whole. *)
Lemma intersection_drops_read_only :
  let requested := {| fsp_entries := [workspace; Entry (PathEntry ["w"; "ro"]) AccessRead];
                      fsp_glob_scan_max_depth := None |} in
  let granted := {| fsp_entries := [workspace]; fsp_glob_scan_max_depth := None |} in
  resolve_access_with_cwd perm_fs (policy_of_permissions requested) (os_of "ro/x") work
    = AccessRead ∧
  ∃ f, intersect_file_systems perm_fs requested granted work = Some f ∧
       resolve_access_with_cwd perm_fs (policy_of_permissions f) (os_of "ro/x") work = AccessWrite.
Proof. split; [vm_compute; reflexivity|]. eexists. split; vm_compute; reflexivity. Qed.

(** A missing file below a denied directory that is named through a link at the
    top level is not denied. *)
Lemma missing_alias_not_denied :
  let fs := <[["alias"] := Link ["real"]]> (<[["real"] := Dir]>
              (<[["real"; "secret"] := Dir]> perm_fs)) in
  let policy := restricted [Entry (Special Root) AccessRead;
                            Entry (PathEntry ["alias"; "secret"]) AccessNone] in
  ∃ m, read_deny_matcher_new fs policy work = Some (Some m) ∧
       is_read_denied fs m (as_path ["alias"; "secret"]) = true ∧
       is_read_denied fs m (as_path ["alias"; "secret"; "new"]) = false.
Proof.
  intros fs policy. destruct (read_deny_matcher_new fs policy work) as [[m|]|] eqn:E;
    [|vm_compute in E; discriminate E..].
  exists m. split; [done|]. vm_compute in E. injection E as <-. by vm_compute.
Qed.

(** Full write access is claimed although a path is read-only. *)
Lemma full_access_without_tmp :
  let policy := restricted [Entry (Special Root) AccessWrite; Entry (PathEntry ["tmp"]) AccessRead;
                            Entry (Special SlashTmp) AccessWrite] in
  has_full_disk_write_access policy = true ∧
  resolve_access_with_cwd ∅ policy (as_path ["tmp"]) work = AccessRead.
Proof. split; vm_compute; reflexivity. Qed.

(** A read-only subpath of a writable root lies outside it. *)
Lemma read_only_subpath_outside :
  let fs := <[["w"; ".git"] := File "gitdir: /main/.git"]> (<[["main"] := Dir]>
              (<[["main"; ".git"] := Dir]> perm_fs)) in
  existsb (λ w, existsb (λ p, negb (path_starts_with (wr_root w) p)) (read_only_subpaths w))
    (get_writable_roots_with_cwd fs (restricted [workspace]) work) = true.
Proof. vm_compute. reflexivity. Qed.

(** Two hunks for one file: the second replaces the first in the changes that
    are approved, but both are applied, and the first one moves the file out of
    the workspace. *)
Lemma approval_misses_replaced_change :
  let fs := <[["w"; "a"] := File ("old" +:+ nl)]> (<[["out"] := Dir]> perm_fs) in
  let args := {| aa_patch := ""; aa_hunks := [UpdateFile "a" (Some "/out/b") []; AddFile "a" "new"];
                 aa_workdir := None; aa_environment_id := None |} in
  ∃ action i,
    verify_apply_patch_args no_diff None (None : option unit) args ["w"] fs = VerifiedBody action ∧
    invoke_apply_patch fs Never read_only_profile LevelDisabled (restricted [workspace]) action =
      DelegateToRuntime i ∧ rt_auto_approved i = true ∧
    can_write_path_with_cwd fs (restricted [workspace]) (as_path ["out"; "b"]) work = false ∧
    file_of (pr_fs (apply_hunks None (None : option unit) (aa_hunks args) ["w"] fs)) ["out"; "b"]
      = Some ("old" +:+ nl).
Proof.
  set (action := {| action_changes := {[ ["w"; "a"] := AddFileChange "new" ]};
                    action_patch := ""; action_cwd := ["w"] |}).
  exists action, {| rt_action := action; rt_auto_approved := true;
                    rt_exec_approval_requirement := Skip false None |}.
  split_and!; vm_compute; reflexivity.
Qed.

(** ** The mounts of a sandbox *)

(** A host without [rg]. *)
#[local] Instance perm_bwrap : BwrapEnv := {|
  dev_null := inr 3%N;
  file_identity p := {| dev := 1; ino := N.of_nat (length p) |};
  run_rg _ := RgError (os_error NotFound);
  glob_set_error _ := None |}.

Definition docs_fs : fsys :=
  <[["w"; "docs"; "private"; "public"] := Dir]> (<[["w"; "docs"; "private"] := Dir]>
    (<[["w"; "docs"; "guide.md"] := File "guide"]> (<[["w"; "docs"] := Dir]>
      (<[["w"; "src"] := Dir]> perm_fs)))).

Lemma docs_fs_ok : fs_ok no_links docs_fs.
Proof. apply check_fs_ok. vm_compute. reflexivity. Qed.

Lemma docs_fs_plain : plain_entries docs_fs docs_policy work.
Proof.
  intros [r a] He. apply elem_of_resolved in He as (entry & He & R & _). simpl resolved_path in *.
  cbv [docs_policy restricted policy_of policy_entries] in He.
  repeat (apply elem_of_cons in He as [->|He];
          [vm_compute in R; injection R as <-; by repeat constructor|]).
  by apply elem_of_nil in He.
Qed.

Definition docs_args : BwrapArgs bwrap_flag :=
  match create_filesystem_args docs_fs docs_policy work None with
  | inr b => b
  | inl _ => args_only []
  end.

(** The documents are mounted read-only, their private part is hidden, and its
    public part is mounted again. *)
Example docs_shown :
  map (shown (args docs_args))
    [["w"; "src"]; ["w"; ".git"]; ["w"; "docs"; "guide.md"]; ["w"; "docs"; "private"; "key"];
     ["w"; "docs"; "private"; "public"; "page"]; ["out"]] =
  [Host ["w"] ["w"; "src"] true; NotHost; Host ["w"; "docs"] ["w"; "docs"; "guide.md"] false; NotHost;
   Host ["w"; "docs"; "private"; "public"] ["w"; "docs"; "private"; "public"; "page"] true; NotHost].
Proof. vm_compute. reflexivity. Qed.

Lemma bwrap_writes_within_policy_witness :
  resolve_access_with_cwd docs_fs docs_policy (as_path ["w"; "src"; "new"]) work = AccessWrite ∨
  ∃ k, as_path k ∈ missing_auto_metadata_read_only_project_root_subpaths docs_fs docs_policy work ∧
       k `prefix_of` ["w"; "src"; "new"].
Proof.
  destruct (bwrap_writes_within_policy docs_fs docs_fs_ok docs_policy work None work default_options docs_args
              ["w"; "src"; "new"] ["w"] ["w"; "src"; "new"]) as (_ & W & _).
  - reflexivity.
  - exact docs_fs_plain.
  - by repeat constructor.
  - vm_compute. reflexivity.
  - vm_compute. reflexivity.
  - exact W.
Defined.

Lemma docs_masks_below : masks_below docs_fs docs_policy work.
Proof.
  intros w s Hw Hs. apply path_starts_with_spec.
  assert (B : forallb (λ w, forallb (path_starts_with (wr_root w)) (read_only_subpaths w))
                (get_writable_roots_with_cwd docs_fs docs_policy work) = true)
    by (vm_compute; reflexivity).
  rewrite forallb_forall in B. apply list_elem_of_In in Hw, Hs. specialize (B w Hw).
  rewrite forallb_forall in B. by apply B.
Qed.

Lemma bwrap_hides_denied_witness :
  ∃ w, w ∈ get_writable_roots_with_cwd docs_fs docs_policy work ∧
       ["w"; "docs"; "private"] `prefix_of` wr_root w.
Proof.
  destruct (bwrap_hides_denied docs_fs docs_fs_ok docs_policy work ["w"] None docs_args
              ["w"; "docs"; "private"; "public"] ["w"; "docs"; "private"; "public"]
              ["w"; "docs"; "private"; "public"] true) as (_ & R & _).
  - reflexivity.
  - exact docs_fs_plain.
  - vm_compute. reflexivity.
  - exact docs_masks_below.
  - by repeat constructor.
  - vm_compute. reflexivity.
  - vm_compute. reflexivity.
  - vm_compute. reflexivity.
  - destruct (R [] ["w"; "docs"; "private"]) as (w & Hw & P & _).
    + vm_compute. reflexivity.
    + left. apply (bool_decide_unpack (_ ∈ _)). vm_compute. reflexivity.
    + by exists ["public"].
    + by exists w.
Defined.

Lemma bwrap_keeps_access_witness :
  ∃ mount, shown (flags_around docs_fs docs_args work default_options) ["w"; "src"] =
           Host mount ["w"; "src"] true.
Proof.
  destruct (bwrap_keeps_access docs_fs docs_fs_ok docs_policy work None work default_options docs_args
              ["w"; "src"]) as [W _].
  - reflexivity.
  - exact docs_fs_plain.
  - exact docs_masks_below.
  - by repeat constructor.
  - vm_compute. reflexivity.
  - vm_compute. reflexivity.
  - intros matches u E Hu. vm_compute in E. injection E as <-. destruct Hu as [Hu|Hu]; [|by apply elem_of_nil in Hu].
    apply path_starts_with_false.
    assert (B : forallb (λ u, negb (path_starts_with u ["w"; "src"]))
                  (get_unreadable_roots_with_cwd docs_fs docs_policy work) = true)
      by (vm_compute; reflexivity).
    rewrite forallb_forall in B. apply list_elem_of_In, B in Hu. by apply negb_true_iff.
  - apply W; [vm_compute; discriminate|]. intros w Hw.
    assert (B : forallb (λ w, is_path_writable w ["w"; "src"])
       (List.filter (λ w, path_starts_with (wr_root w) ["w"; "src"])
          (get_writable_roots_with_cwd docs_fs docs_policy work)) = true) by (vm_compute; reflexivity).
    rewrite forallb_forall in B. by apply B, list_elem_of_In.
Defined.

Lemma glob_files_finds_witness :
  ∃ paths, glob_files docs_fs ["w"] ["docs/guide.md"] (Some 2%N) = inr paths ∧
           ["w"; "docs"; "guide.md"] ∈ paths.
Proof.
  destruct (glob_files_finds docs_fs docs_fs_ok ["w"] ["docs/guide.md"]
              [λ p, bool_decide (os_str p = "docs/guide.md")] (Some 2%N)) as (paths & E & S).
  - assert (B : map_Forall (λ q _, plain_path q) docs_fs)
      by (apply (bool_decide_unpack _); vm_compute; reflexivity).
    intros q n L. exact (B q n L).
  - right. reflexivity.
  - by repeat constructor.
  - reflexivity.
  - reflexivity.
  - exists paths. split; [exact E|]. apply S.
    exists ["docs"; "guide.md"], (File "guide"), (λ p, bool_decide (os_str p = "docs/guide.md")).
    split_and!; [reflexivity|reflexivity|discriminate|vm_compute; lia|left|reflexivity].
Defined.

(** *** Two sandboxes on one host *)

#[local] Instance demo_registry : RegistryEnv := {| temp_dir := ["tmp"]; effective_uid := 1000 |}.

Definition no_groups : Z → bool := λ _, false.
Definition demo_ids : path → FileIdentity := λ _, {| dev := 1; ino := 1 |}.
Definition git_a : path := ["w"; "a"; ".git"].
Definition git_b : path := ["w"; "b"; ".git"].
Definition placeholders : list path → list SyntheticMountTarget := map synthetic_missing_empty_directory.

Definition two_fs : fsys := <[["w"; "b"] := Dir]> (<[["w"; "a"] := Dir]> perm_fs).
Definition two_start : host := {| files := two_fs; live := {[101; 102]}%N; registered := ∅ |}.

(** What a run gave, and the files after it. *)
Definition run_value {A : Type} (m : (string + list A) * fsys) : list A :=
  match m.1 with inr a => a | inl _ => [] end.
Definition registering (h : host) (pid : N) (targets : list path) : host :=
  let m := register_synthetic_mount_targets (is_live no_groups h) pid (placeholders targets) (files h) in
  {| files := m.2; live := live h; registered := <[pid := run_value m]> (registered h) |}.
Definition mounting (h : host) (targets : list path) : host :=
  with_files h (foldr (λ p fs, <[p := Dir]> fs) (files h) targets).
Definition cleaning (h : host) (pid : N) : (string + unit) * fsys :=
  cleanup_synthetic_mount_targets (is_live no_groups h) demo_ids
    (default [] (registered h !! pid)) (files h).

(** Both use [a/.git], the second one [b/.git] as well. *)
Definition two_running : host :=
  mounting (registering (registering two_start 101 [git_a]) 102 [git_b; git_a]) [git_a; git_b].

(** The first keeps the placeholder that the second one uses, the second one
    removes both. *)
Example two_cleanups :
  (cleaning two_running 101).1 = inr tt ∧ (cleaning two_running 101).2 !! git_a = Some Dir ∧
  let h := unregister (with_files two_running (cleaning two_running 101).2) 101 in
  (cleaning h 102).1 = inr tt ∧ (cleaning h 102).2 !! git_a = None ∧ (cleaning h 102).2 !! git_b = None.
Proof. vm_compute. done. Qed.

Lemma run_value_ok {A : Type} (m : (string + list A) * fsys) :
  match m.1 with inr _ => true | inl _ => false end = true → m = (inr (run_value m), m.2).
Proof. unfold run_value. by destruct m as [[|] ?]. Qed.

Lemma registering_step h pid targets :
  bool_decide (pid ∈ live h) = true → registered h !! pid = None → Forall (λ p, plain_path p) targets →
  match (register_synthetic_mount_targets (is_live no_groups h) pid (placeholders targets) (files h)).1 with
  | inr _ => true | inl _ => false end = true →
  host_step no_groups h (registering h pid targets).
Proof.
  intros L N F O. eapply step_register; [by eapply bool_decide_eq_true|done| |by apply run_value_ok].
  by apply Forall_fmap.
Qed.

Lemma two_reachable : rtc (host_step no_groups) two_start two_running.
Proof.
  eapply rtc_l; [apply (registering_step two_start 101 [git_a]); [reflexivity|reflexivity|by repeat constructor|vm_compute; reflexivity]|].
  eapply rtc_l; [apply (registering_step _ 102 [git_b; git_a]); [vm_compute; reflexivity|vm_compute; reflexivity|by repeat constructor|vm_compute; reflexivity]|].
  apply rtc_once, step_other; [apply check_fs_ok; vm_compute; reflexivity|].
  intros x P. unfold git_a, git_b. simpl foldr.
  rewrite !lookup_insert_ne; [done|..]; intros <-; destruct P as [k E]; vm_compute in E; discriminate E.
Qed.

Lemma two_start_ok : host_start two_start.
Proof. split; [apply check_fs_ok; vm_compute; reflexivity|]. split; [|done]. apply (bool_decide_unpack _). vm_compute. reflexivity. Qed.

Lemma cleanup_keeps_used_targets_witness :
  (cleaning two_running 102).2 !! git_b = None ∧
  ∀ rs r, registered two_running !! 101%N = Some rs → r ∈ rs → target_path (reg_target r) ≠ git_b.
Proof.
  assert (R : ∃ rs, registered two_running !! 102%N = Some rs ∧
    cleaning two_running 102 = cleanup_synthetic_mount_targets (is_live no_groups two_running)
      demo_ids rs (files two_running)).
  { unfold two_running at 1, registering at 1, mounting. cbn [with_files registered files].
    rewrite lookup_insert_eq. eexists. split; [reflexivity|]. reflexivity. }
  destruct R as (rs & R & E). destruct (cleaning two_running 102) as [result fs'] eqn:C. symmetry in E.
  assert (G : fs' !! git_b = None).
  { replace fs' with (cleaning two_running 102).2 by by rewrite C. vm_compute. reflexivity. }
  assert (Ht : plain_path temp_dir) by by repeat constructor.
  assert (Nr : ¬ in_registry git_b) by (intros [[k P]|[k P]]; vm_compute in P; discriminate P).
  assert (Ne : fs' !! git_b ≠ files two_running !! git_b) by (rewrite G; vm_compute; discriminate).
  split; [exact G|]. intros rs' r R' Hr.
  apply (proj2 (proj2 (cleanup_keeps_used_targets Ht no_groups two_start two_running 102 rs demo_ids result
                  fs' git_b two_start_ok two_reachable R E Nr Ne)) 101%N rs' r).
  - discriminate.
  - exact R'.
  - exact Hr.
Defined.

(** *** Findings *)

Definition shown_in (fs : fsys) (policy : FileSystemSandboxPolicy) (cwd : os_path) (p : path)
  : option view :=
  match create_filesystem_args fs policy cwd None with
  | inr b => Some (shown (args b) p)
  | inl _ => None
  end.

(** Missing metadata of the project below a broader writable root is neither
    masked nor watched. *)
Lemma missing_metadata_unprotected :
  let fs := <[["w"; "project"] := Dir]> perm_fs in
  let cwd := as_path ["w"; "project"] in
  let policy := restricted [Entry (PathEntry ["w"]) AccessWrite;
                            Entry (Special (ProjectRoots (Some (os_of ".git")))) AccessRead] in
  resolve_access_with_cwd fs policy (as_path ["w"; "project"; ".git"; "config"]) cwd = AccessRead ∧
  shown_in fs policy cwd ["w"; "project"; ".git"; "config"] =
    Some (Host ["w"] ["w"; "project"; ".git"; "config"] true) ∧
  protected_create_targets <$> ok_of (create_filesystem_args fs policy cwd None) = Some [].
Proof. split_and!; vm_compute; reflexivity. Qed.

(** A writable root that does not exist yet is not mounted, and its metadata is
    not protected: the command can create both below the root around it. *)
Lemma missing_root_metadata_writable :
  let policy := restricted [workspace; Entry (PathEntry ["w"; "sub"]) AccessWrite] in
  let hook := ["w"; "sub"; ".git"; "config"] in
  can_write_path_with_cwd perm_fs policy (as_path hook) work = false ∧
  shown_in perm_fs policy work hook = Some (Host ["w"] hook true).
Proof. split_and!; vm_compute; reflexivity. Qed.

(** A [.git] file that points above a denied path of another writable root
    shows the denied path again. *)
Lemma gitdir_reopens_denied :
  let fs := <[["a"; ".git"] := File "gitdir: /b/repo"]> (<[["a"] := Dir]> (<[["b"] := Dir]>
              (<[["b"; "repo"] := Dir]> (<[["b"; "repo"; "secret"] := Dir]> perm_fs)))) in
  let policy := restricted [Entry (PathEntry ["b"]) AccessWrite;
                            Entry (PathEntry ["b"; "repo"; "secret"]) AccessNone;
                            Entry (PathEntry ["a"]) AccessWrite] in
  let key := ["b"; "repo"; "secret"; "key"] in
  can_read_path_with_cwd fs policy (as_path key) work = false ∧
  shown_in fs policy work key = Some (Host ["b"; "repo"] key false).
Proof. split_and!; vm_compute; reflexivity. Qed.

(** A readable path below a denied one stays hidden. *)
Lemma readable_below_denied_hidden :
  let fs := <[["w"; "a"; "b"] := Dir]> (<[["w"; "a"] := Dir]> perm_fs) in
  let policy := restricted [workspace; Entry (PathEntry ["w"; "a"]) AccessNone;
                            Entry (PathEntry ["w"; "a"; "b"]) AccessRead] in
  can_read_path_with_cwd fs policy (as_path ["w"; "a"; "b"]) work = true ∧
  shown_in fs policy work ["w"; "a"; "b"] = Some NotHost.
Proof. split_and!; vm_compute; reflexivity. Qed.

(** A protected path behind a writable link is an error. *)
Lemma protected_link_refused :
  let fs := <[["w"; ".codex"] := Link ["out"]]> (<[["out"] := Dir]> perm_fs) in
  create_filesystem_args fs (restricted [workspace]) work None =
    inl (crosses_writable_symlink "read-only" ["w"; ".codex"] ["w"; ".codex"]).
Proof. vm_compute. reflexivity. Qed.

(** Once the monitor has seen a protected path, the path is not removed at the
    end: what is created after the last look of the monitor stays. *)
Lemma created_after_violation_remains :
  let b := {| args := []; preserved_files := []; synthetic_mount_targets := [];
              protected_create_targets := [{| protected_path := git_a |}] |} in
  let result monitor_violation :=
    run_bwrap_in_child (is_live no_groups two_start) 101 demo_ids
      (λ fs, (Exited 0, monitor_violation, <[git_a := Dir]> fs)) b two_fs in
  ((result false).1, (result false).2 !! git_a) = (inr 1%Z, None) ∧
  ((result true).1, (result true).2 !! git_a) = (inr 1%Z, Some Dir).
Proof. vm_compute. done. Qed.
