(* ===== verification/NetPolicy.v ===== *)
(** * network-proxy: which hosts a command may reach

    [policy.rs], [config.rs], [state.rs], [runtime.rs], [network_policy.rs] and
    [connect_policy.rs] of [codex-rs/network-proxy]: hosts and their patterns,
    the configuration of the proxy and what managed configuration permits, the
    decision for a host, and the shared state.  [std::net::IpAddr] is defined
    here; globs, the [url] crate, name resolution, the reloader and the
    decider are parameters. *)

From S2P Require Import Prelude RustStr FsModel ExecFs Permissions SandboxRoots.

(** ** IP addresses ([std::net]) *)

(** Octets, most significant first. *)
Definition Ipv4Addr : Type := N * N * N * N.

(** An IPv6 address is its eight 16-bit segments. *)
Inductive IpAddr := V4 (ip : Ipv4Addr) | V6 (segments : list N).

#[global] Instance IpAddr_eq_dec : EqDecision IpAddr.
Proof. solve_decision. Defined.

Definition u32_max : N := 4294967295.
Definition u32_of (ip : Ipv4Addr) : N :=
  let '(a, b, c, d) := ip in (a * 16777216 + b * 65536 + c * 256 + d)%N.

(** The parser of [Ipv4Addr] and [Ipv6Addr]: each function takes what is left
    of the text, and takes nothing when it fails. *)
Definition to_digit (radix : N) (c : ascii) : option N :=
  let digit := if is_ascii_digit c then (code c - 48)%N
               else if ((97 <=? code c) && (code c <=? 102))%N then (code c - 87)%N
               else if ((65 <=? code c) && (code c <=? 70))%N then (code c - 55)%N else 16%N in
  if (digit <? radix)%N then Some digit else None.

Fixpoint read_digits (radix : N) (max_digits count : nat) (acc : N) (l : list ascii)
  : option (N * nat * list ascii) :=
  match l with
  | c :: l' =>
      match to_digit radix c with
      | Some digit =>
          if S count <=? max_digits then read_digits radix max_digits (S count) (acc * radix + digit) l'
          else None
      | None => Some (acc, count, l)
      end
  | [] => Some (acc, count, [])
  end.

Definition read_number (radix bound : N) (max_digits : nat) (allow_zero_prefix : bool)
    (l : list ascii) : option (N * list ascii) :=
  let has_leading_zero := match l with c :: _ => Ascii.eqb c "0" | [] => false end in
  '(value, count, rest) ← read_digits radix max_digits 0 0 l;
  if count =? 0 then None
  else if negb allow_zero_prefix && has_leading_zero && (1 <? count) then None
  else if (value <=? bound)%N then Some (value, rest) else None.

Definition read_separator {A : Type} (sep : ascii) (index : nat)
    (inner : list ascii → option (A * list ascii)) (l : list ascii) : option (A * list ascii) :=
  if index =? 0 then inner l else
  match l with c :: l' => if Ascii.eqb c sep then inner l' else None | [] => None end.

Definition read_octet (index : nat) : list ascii → option (N * list ascii) :=
  read_separator "." index (read_number 10 255 3 false).

Definition read_ipv4_addr (l : list ascii) : option (Ipv4Addr * list ascii) :=
  '(a, l) ← read_octet 0 l;
  '(b, l) ← read_octet 1 l;
  '(c, l) ← read_octet 2 l;
  '(d, l) ← read_octet 3 l;
  Some ((a, b, c, d), l).

(** At most [limit] groups; whether the last two are an embedded IPv4 address. *)
Fixpoint read_groups (limit slots index : nat) (l : list ascii) : list N * bool * list ascii :=
  match slots with
  | O => ([], false, l)
  | S slots =>
      match (if S index <? limit then read_separator ":" index read_ipv4_addr l else None) with
      | Some ((one, two, three, four), l) => ([one * 256 + two; three * 256 + four]%N, true, l)
      | None =>
          match read_separator ":" index (read_number 16 65535 4 true) l with
          | Some (group, l) =>
              let '(groups, ipv4, l) := read_groups limit slots (S index) l in
              (group :: groups, ipv4, l)
          | None => ([], false, l)
          end
      end
  end.

Definition read_ipv6_addr (l : list ascii) : option (list N * list ascii) :=
  let '(head, head_ipv4, l) := read_groups 8 8 0 l in
  if length head =? 8 then Some (head, l)
  else if head_ipv4 then None
  else match l with
       | ":"%char :: ":"%char :: l =>
           let limit := 8 - (length head + 1) in
           let '(tail, _, l) := read_groups limit limit 0 l in
           Some (head ++ replicate (8 - length head - length tail) 0%N ++ tail, l)
       | _ => None
       end.

(** [str::parse::<IpAddr>]. *)
Definition parse_ip (s : string) : option IpAddr :=
  match read_ipv4_addr (bytes s) with
  | Some (ip, []) => Some (V4 ip)
  | Some _ => None
  | None => match read_ipv6_addr (bytes s) with Some (ip, []) => Some (V6 ip) | _ => None end
  end.
Definition is_ip (s : string) : bool := match parse_ip s with Some _ => true | None => false end.

(** [to_ipv4]: the compatible and the mapped addresses. *)
Definition to_ipv4 (segments : list N) : option Ipv4Addr :=
  match segments with
  | [0; 0; 0; 0; 0; m; ab; cd] =>
      if (m =? 0) || (m =? 65535) then Some (ab / 256, ab mod 256, cd / 256, cd mod 256) else None
  | _ => None
  end%N.

Definition v4_is_loopback (ip : Ipv4Addr) : bool := let '(a, _, _, _) := ip in (a =? 127)%N.
Definition v4_is_private (ip : Ipv4Addr) : bool :=
  let '(a, b, _, _) := ip in
  ((a =? 10) || (a =? 172) && (16 <=? b) && (b <=? 31) || (a =? 192) && (b =? 168))%N.
Definition v4_is_link_local (ip : Ipv4Addr) : bool :=
  let '(a, b, _, _) := ip in ((a =? 169) && (b =? 254))%N.
Definition v4_is_unspecified (ip : Ipv4Addr) : bool := (u32_of ip =? 0)%N.
Definition v4_is_multicast (ip : Ipv4Addr) : bool :=
  let '(a, _, _, _) := ip in ((224 <=? a) && (a <=? 239))%N.
Definition v4_is_broadcast (ip : Ipv4Addr) : bool := (u32_of ip =? u32_max)%N.

Definition first_segment (segments : list N) : N := default 0%N (head segments).
Definition v6_is_loopback (segments : list N) : bool :=
  bool_decide (segments = [0; 0; 0; 0; 0; 0; 0; 1]%N).
Definition v6_is_unspecified (segments : list N) : bool :=
  bool_decide (segments = [0; 0; 0; 0; 0; 0; 0; 0]%N).
Definition v6_is_multicast (segments : list N) : bool :=
  (N.land (first_segment segments) 65280 =? 65280)%N.
Definition v6_is_unique_local (segments : list N) : bool :=
  (N.land (first_segment segments) 65024 =? 64512)%N.
Definition v6_is_unicast_link_local (segments : list N) : bool :=
  (N.land (first_segment segments) 65472 =? 65152)%N.

Definition ip_is_loopback (ip : IpAddr) : bool :=
  match ip with V4 ip => v4_is_loopback ip | V6 segments => v6_is_loopback segments end.

(** ** policy.rs: addresses that are not public *)

(** [u32::MAX << n] keeps 32 bits. *)
Definition ipv4_in_cidr (ip base : Ipv4Addr) (prefix : N) : bool :=
  let mask := if (prefix =? 0)%N then 0%N else N.land (N.shiftl u32_max (32 - prefix)) u32_max in
  (N.land (u32_of ip) mask =? N.land (u32_of base) mask)%N.

Definition is_non_public_ipv4 (ip : Ipv4Addr) : bool :=
  v4_is_loopback ip || v4_is_private ip || v4_is_link_local ip || v4_is_unspecified ip ||
  v4_is_multicast ip || v4_is_broadcast ip ||
  ipv4_in_cidr ip (0, 0, 0, 0)%N 8 || ipv4_in_cidr ip (100, 64, 0, 0)%N 10 ||
  ipv4_in_cidr ip (192, 0, 0, 0)%N 24 || ipv4_in_cidr ip (192, 0, 2, 0)%N 24 ||
  ipv4_in_cidr ip (198, 18, 0, 0)%N 15 || ipv4_in_cidr ip (198, 51, 100, 0)%N 24 ||
  ipv4_in_cidr ip (203, 0, 113, 0)%N 24 || ipv4_in_cidr ip (240, 0, 0, 0)%N 4.

Definition is_non_public_ipv6 (segments : list N) : bool :=
  match to_ipv4 segments with
  | Some v4 => is_non_public_ipv4 v4 || v6_is_loopback segments
  | None =>
      v6_is_loopback segments || v6_is_unspecified segments || v6_is_multicast segments ||
      v6_is_unique_local segments || v6_is_unicast_link_local segments
  end.

Definition is_non_public_ip (ip : IpAddr) : bool :=
  match ip with V4 ip => is_non_public_ipv4 ip | V6 segments => is_non_public_ipv6 segments end.

(** ** policy.rs: hosts and patterns *)

Definition normalize_ip_literal (host : string) : option string :=
  if is_ip host then Some host else
  let scoped delimiter :=
    '(ip, scope) ← split_once_str delimiter host;
    if is_ip ip then Some (ip +:+ "%" +:+ scope) else None in
  match scoped "%25" with Some s => Some s | None => scoped "%" end.

Definition normalize_dns_host_or_ip_literal (host : string) : string :=
  let host := trim_end_char "." (to_ascii_lowercase host) in
  default host (normalize_ip_literal host).

(** The text in brackets, when there are some; otherwise what precedes the
    only colon. *)
Definition normalize_host (host : string) : string :=
  let host := trim host in
  let bracketed :=
    rest ← strip_prefix "[" host;
    fst <$> split_once "]" rest in
  match bracketed with
  | Some literal => normalize_dns_host_or_ip_literal literal
  | None =>
      if count_char ":" host =? 1 then normalize_dns_host_or_ip_literal (before_first ":" host)
      else normalize_dns_host_or_ip_literal host
  end.

(** A [Host] is the text of a normalized, non-empty host. *)
Definition Host_parse (input : string) : string + string :=
  let normalized := normalize_host input in
  if String.eqb normalized "" then inl "host is empty" else inr normalized.

Definition unscoped_ip_literal (host : string) : option string :=
  '(ip, _) ← split_once "%" host;
  if is_ip ip then Some ip else None.

Definition is_loopback_host (host : string) : bool :=
  let host := default host (unscoped_ip_literal host) in
  String.eqb host "localhost" ||
  match parse_ip host with Some ip => ip_is_loopback ip | None => false end.

Definition normalize_pattern (pattern : string) : string :=
  let pattern := trim pattern in
  if String.eqb pattern "*" then "*" else
  let '(prefix, remainder) :=
    match strip_prefix "**." pattern with
    | Some domain => ("**.", domain)
    | None =>
        match strip_prefix "*." pattern with
        | Some domain => ("*.", domain)
        | None => ("", pattern)
        end
    end in
  prefix +:+ normalize_host remainder.

Inductive DomainPattern :=
| ApexAndSubdomains (domain : string)
| SubdomainsOnly (domain : string)
| Exact (domain : string).

Definition parse_domain (domain : string) (build : string → DomainPattern) : DomainPattern :=
  let domain := trim domain in
  if String.eqb domain "" then Exact "" else build domain.

Definition DomainPattern_parse (input : string) : DomainPattern :=
  let input := trim input in
  if String.eqb input "" then Exact "" else
  match strip_prefix "**." input with
  | Some domain => parse_domain domain ApexAndSubdomains
  | None =>
      match strip_prefix "*." input with
      | Some domain => parse_domain domain SubdomainsOnly
      | None => Exact input
      end
  end.

Definition expand_domain_pattern (pattern : string) : list string :=
  match DomainPattern_parse pattern with
  | Exact domain => [domain]
  | SubdomainsOnly domain => ["?*." +:+ domain]
  | ApexAndSubdomains domain => [domain; "?*." +:+ domain]
  end.

Definition is_global_wildcard_domain_pattern (pattern : string) : bool :=
  existsb (String.eqb "*") (expand_domain_pattern (normalize_pattern pattern)).

Definition normalize_domain (domain : string) : string :=
  to_ascii_lowercase (trim_end_char "." domain).
Definition domain_eq (left right : string) : bool :=
  String.eqb (normalize_domain left) (normalize_domain right).
Definition is_subdomain_or_equal (child parent : string) : bool :=
  let child := normalize_domain child in
  let parent := normalize_domain parent in
  String.eqb child parent || ends_with ("." +:+ parent) child.
Definition is_strict_subdomain (child parent : string) : bool :=
  let child := normalize_domain child in
  let parent := normalize_domain parent in
  negb (String.eqb child parent) && ends_with ("." +:+ parent) child.

(** [DomainPattern::allows]. *)
Definition pattern_allows (pattern candidate : DomainPattern) : bool :=
  match pattern, candidate with
  | Exact domain, Exact candidate => domain_eq candidate domain
  | Exact _, _ => false
  | SubdomainsOnly domain, Exact candidate => is_strict_subdomain candidate domain
  | SubdomainsOnly domain, SubdomainsOnly candidate => is_subdomain_or_equal candidate domain
  | SubdomainsOnly domain, ApexAndSubdomains candidate => is_strict_subdomain candidate domain
  | ApexAndSubdomains domain, Exact candidate
  | ApexAndSubdomains domain, SubdomainsOnly candidate
  | ApexAndSubdomains domain, ApexAndSubdomains candidate => is_subdomain_or_equal candidate domain
  end.

(** [GlobBuilder::new(glob).case_insensitive(true)], the error of a set of
    globs, [url::Host::parse], the [Debug] text of a list of strings, whether
    interception of TLS can be set up, and [lookup_host] within its time. *)
Class NetEnv := {
  host_glob : string → string + (string → bool);
  host_glob_set_error : list string → option string;
  url_host : string → option string;
  debug_strings : list string → string;
  mitm_error : option string;
  lookup_host : string → N → option (list IpAddr)
}.

(** A set of globs matches what one of them matches. *)
Definition GlobSet : Type := list (string → bool).
Definition glob_set_is_match (set : GlobSet) (host : string) : bool :=
  existsb (λ m, m host) set.

Inductive GlobalWildcard := WildcardAllow | WildcardReject.

#[global] Instance GlobalWildcard_eq_dec : EqDecision GlobalWildcard.
Proof. solve_decision. Defined.

Section patterns.
Context `{NetEnv}.

Definition global_wildcard_error : string :=
  "unsupported global wildcard domain pattern " +:+ dquote +:+ "*" +:+ dquote +:+
  "; use exact hosts or scoped wildcards like *.example.com or **.example.com".

Definition add_candidate (acc : list string * GlobSet) (candidate : string)
  : string + (list string * GlobSet) :=
  if bool_decide (candidate ∈ acc.1) then inr acc else
  match host_glob candidate with
  | inr matcher => inr (acc.1 ++ [candidate], acc.2 ++ [matcher])
  | inl _ => inl ("invalid glob pattern: " +:+ candidate)
  end.

Definition add_pattern (global_wildcard : GlobalWildcard) (acc : list string * GlobSet)
    (pattern : string) : string + (list string * GlobSet) :=
  if bool_decide (global_wildcard = WildcardReject) && is_global_wildcard_domain_pattern pattern
  then inl global_wildcard_error
  else try_fold add_candidate acc (expand_domain_pattern (normalize_pattern pattern)).

Definition compile_globset_with_policy (patterns : list string) (global_wildcard : GlobalWildcard)
  : string + GlobSet :=
  let? acc := try_fold (add_pattern global_wildcard) ([], []) patterns in
  match host_glob_set_error acc.1 with Some e => inl e | None => inr acc.2 end.
Definition compile_allowlist_globset (patterns : list string) : string + GlobSet :=
  compile_globset_with_policy patterns WildcardAllow.
Definition compile_denylist_globset (patterns : list string) : string + GlobSet :=
  compile_globset_with_policy patterns WildcardReject.

Definition parse_domain_for_constraints (domain : string) : string :=
  let domain := trim_end_char "." (trim domain) in
  if String.eqb domain "" then "" else
  let host := if starts_with "[" domain && ends_with "]" domain
              then String.substring 1 (String.length domain - 2) domain else domain in
  if contains "*" host || contains "?" host || contains "%" host then domain
  else default "" (url_host host).

Definition parse_for_constraints (input : string) : DomainPattern :=
  let input := trim input in
  if String.eqb input "" then Exact "" else
  match strip_prefix "**." input with
  | Some domain => ApexAndSubdomains (parse_domain_for_constraints domain)
  | None =>
      match strip_prefix "*." input with
      | Some domain => SubdomainsOnly (parse_domain_for_constraints domain)
      | None => Exact (parse_domain_for_constraints input)
      end
  end.
End patterns.

(** ** config.rs *)

(** In the order of precedence for equal patterns. *)
Inductive NetworkDomainPermission := PermNone | PermAllow | PermDeny.

#[global] Instance NetworkDomainPermission_eq_dec : EqDecision NetworkDomainPermission.
Proof. solve_decision. Defined.

Definition permission_rank (p : NetworkDomainPermission) : nat :=
  match p with PermNone => 0 | PermAllow => 1 | PermDeny => 2 end.

Record NetworkDomainPermissionEntry := { pattern : string; permission : NetworkDomainPermission }.

#[global] Instance NetworkDomainPermissionEntry_eq_dec : EqDecision NetworkDomainPermissionEntry.
Proof. solve_decision. Defined.

(** The patterns in the order they come, each with its greatest permission. *)
Fixpoint add_effective (entry : NetworkDomainPermissionEntry)
    (entries : list NetworkDomainPermissionEntry) : list NetworkDomainPermissionEntry :=
  match entries with
  | [] => [entry]
  | e :: entries' =>
      if String.eqb (pattern e) (pattern entry) then
        (if permission_rank (permission e) <? permission_rank (permission entry) then entry else e)
          :: entries'
      else e :: add_effective entry entries'
  end.
Definition effective_entries (entries : list NetworkDomainPermissionEntry)
  : list NetworkDomainPermissionEntry := foldl (λ acc e, add_effective e acc) [] entries.

Inductive NetworkUnixSocketPermission := SocketAllow | SocketNone.

#[global] Instance NetworkUnixSocketPermission_eq_dec : EqDecision NetworkUnixSocketPermission.
Proof. solve_decision. Defined.

Inductive NetworkMode := Limited | Full.

#[global] Instance NetworkMode_eq_dec : EqDecision NetworkMode.
Proof. solve_decision. Defined.

Definition allows_method (m : NetworkMode) (method : string) : bool :=
  match m with
  | Full => true
  | Limited => existsb (String.eqb method) ["GET"; "HEAD"; "OPTIONS"]
  end.

(** The map of sockets is sorted by path. *)
Record NetworkProxySettings := {
  enabled : bool;
  proxy_url : string;
  enable_socks5 : bool;
  socks_url : string;
  enable_socks5_udp : bool;
  allow_upstream_proxy : bool;
  dangerously_allow_non_loopback_proxy : bool;
  dangerously_allow_all_unix_sockets : bool;
  mode : NetworkMode;
  domains : option (list NetworkDomainPermissionEntry);
  unix_sockets : option (list (string * NetworkUnixSocketPermission));
  allow_local_binding : bool;
  mitm : bool
}.

#[global] Instance NetworkProxySettings_eq_dec : EqDecision NetworkProxySettings.
Proof. solve_decision. Defined.

Definition default_settings : NetworkProxySettings := {|
  enabled := false; proxy_url := "http://127.0.0.1:3128"; enable_socks5 := true;
  socks_url := "http://127.0.0.1:8081"; enable_socks5_udp := true; allow_upstream_proxy := true;
  dangerously_allow_non_loopback_proxy := false; dangerously_allow_all_unix_sockets := false;
  mode := Full; domains := None; unix_sockets := None; allow_local_binding := false; mitm := false |}.

Definition with_mode (m : NetworkMode) (s : NetworkProxySettings) : NetworkProxySettings := {|
  enabled := enabled s; proxy_url := proxy_url s; enable_socks5 := enable_socks5 s;
  socks_url := socks_url s; enable_socks5_udp := enable_socks5_udp s;
  allow_upstream_proxy := allow_upstream_proxy s;
  dangerously_allow_non_loopback_proxy := dangerously_allow_non_loopback_proxy s;
  dangerously_allow_all_unix_sockets := dangerously_allow_all_unix_sockets s;
  mode := m; domains := domains s; unix_sockets := unix_sockets s;
  allow_local_binding := allow_local_binding s; mitm := mitm s |}.
Definition with_domains (d : option (list NetworkDomainPermissionEntry))
    (s : NetworkProxySettings) : NetworkProxySettings := {|
  enabled := enabled s; proxy_url := proxy_url s; enable_socks5 := enable_socks5 s;
  socks_url := socks_url s; enable_socks5_udp := enable_socks5_udp s;
  allow_upstream_proxy := allow_upstream_proxy s;
  dangerously_allow_non_loopback_proxy := dangerously_allow_non_loopback_proxy s;
  dangerously_allow_all_unix_sockets := dangerously_allow_all_unix_sockets s;
  mode := mode s; domains := d; unix_sockets := unix_sockets s;
  allow_local_binding := allow_local_binding s; mitm := mitm s |}.

Definition domain_entries (s : NetworkProxySettings) (p : NetworkDomainPermission)
  : option (list string) :=
  entries ← domains s;
  match map pattern (List.filter (λ e, bool_decide (permission e = p)) (effective_entries entries)) with
  | [] => None
  | patterns => Some patterns
  end.
Definition allowed_domains (s : NetworkProxySettings) : option (list string) :=
  domain_entries s PermAllow.
Definition denied_domains (s : NetworkProxySettings) : option (list string) :=
  domain_entries s PermDeny.

Definition allow_unix_sockets (s : NetworkProxySettings) : list string :=
  match unix_sockets s with
  | Some sockets => map fst (List.filter (λ '(_, p), bool_decide (p = SocketAllow)) sockets)
  | None => []
  end.

Definition some_entries {A : Type} (l : list A) : option (list A) :=
  match l with [] => None | _ => Some l end.

Definition upsert_domain_permission (host : string) (p : NetworkDomainPermission)
    (normalize : string → string) (s : NetworkProxySettings) : NetworkProxySettings :=
  let entries := List.filter (λ e, negb (String.eqb (normalize (pattern e)) (normalize host)))
                   (default [] (domains s)) in
  with_domains (some_entries (entries ++ [{| pattern := host; permission := p |}])) s.

Definition push_domain_entry (p : NetworkDomainPermission)
    (entries : list NetworkDomainPermissionEntry) (entry : string)
  : list NetworkDomainPermissionEntry :=
  if existsb (λ e, String.eqb (pattern e) entry && bool_decide (permission e = p)) entries then entries
  else entries ++ [{| pattern := entry; permission := p |}].
Definition set_domain_entries (new : list string) (p : NetworkDomainPermission)
    (s : NetworkProxySettings) : NetworkProxySettings :=
  let kept := List.filter (λ e, negb (bool_decide (permission e = p))) (default [] (domains s)) in
  with_domains (some_entries (foldl (push_domain_entry p) kept new)) s.
Definition set_allowed_domains (new : list string) : NetworkProxySettings → NetworkProxySettings :=
  set_domain_entries new PermAllow.
Definition set_denied_domains (new : list string) : NetworkProxySettings → NetworkProxySettings :=
  set_domain_entries new PermDeny.

(** *** The addresses the proxy listens on *)

Definition SocketAddr : Type := IpAddr * N.
Definition loopback_addr (addr : SocketAddr) : SocketAddr := (V4 (127, 0, 0, 1)%N, addr.2).

Definition clamp_non_loopback (addr : SocketAddr) (allow_non_loopback : bool) : SocketAddr :=
  if ip_is_loopback addr.1 then addr
  else if allow_non_loopback then addr else loopback_addr addr.

Definition clamp_bind_addrs (http_addr socks_addr : SocketAddr) (cfg : NetworkProxySettings)
  : SocketAddr * SocketAddr :=
  let http_addr := clamp_non_loopback http_addr (dangerously_allow_non_loopback_proxy cfg) in
  let socks_addr := clamp_non_loopback socks_addr (dangerously_allow_non_loopback_proxy cfg) in
  if bool_decide (allow_unix_sockets cfg = []) && negb (dangerously_allow_all_unix_sockets cfg)
  then (http_addr, socks_addr)
  else (loopback_addr http_addr, loopback_addr socks_addr).

(** On Unix, an absolute path is a native one. *)
Definition parse_unix_socket_path `{ProcessEnv} (socket_path : string) : string + path :=
  if is_absolute socket_path then
    match absolute (os_of socket_path) with
    | Some p => inr p
    | None => inl ("failed to normalize unix socket path " +:+ dquote +:+ socket_path +:+ dquote)
    end
  else inl ("expected an absolute path, got " +:+ dquote +:+ socket_path +:+ dquote).

Definition validate_unix_socket_allowlist_paths `{ProcessEnv} (cfg : NetworkProxySettings)
  : string + unit :=
  try_fold (λ _ '(index, socket_path),
    match parse_unix_socket_path socket_path with
    | inr _ => inr tt
    | inl _ => inl ("invalid network.allow_unix_sockets[" +:+ pretty index +:+ "]")
    end) tt (imap (λ i s, (N.of_nat i, s)) (allow_unix_sockets cfg)).

(** ** state.rs: what managed configuration permits *)

Record NetworkProxyConstraints := {
  max_enabled : option bool;
  max_mode : option NetworkMode;
  managed_upstream_proxy : option bool;
  managed_non_loopback_proxy : option bool;
  managed_all_unix_sockets : option bool;
  managed_allowed_domains : option (list string);
  allowlist_expansion_enabled : option bool;
  managed_denied_domains : option (list string);
  denylist_expansion_enabled : option bool;
  managed_unix_sockets : option (list string);
  managed_local_binding : option bool
}.

#[global] Instance NetworkProxyConstraints_eq_dec : EqDecision NetworkProxyConstraints.
Proof. solve_decision. Defined.

Definition unconstrained : NetworkProxyConstraints := {|
  max_enabled := None; max_mode := None; managed_upstream_proxy := None;
  managed_non_loopback_proxy := None; managed_all_unix_sockets := None;
  managed_allowed_domains := None; allowlist_expansion_enabled := None;
  managed_denied_domains := None; denylist_expansion_enabled := None;
  managed_unix_sockets := None; managed_local_binding := None |}.

(** [InvalidValue]. *)
Record NetworkProxyConstraintError := { field_name : string; candidate : string; allowed : string }.

Definition constraint_error_text (e : NetworkProxyConstraintError) : string :=
  "invalid value for " +:+ field_name e +:+ ": " +:+ candidate e +:+ " (allowed " +:+ allowed e
  +:+ ")".

Definition network_mode_rank (m : NetworkMode) : nat := match m with Limited => 0 | Full => 1 end.
Definition mode_debug (m : NetworkMode) : string :=
  match m with Limited => "Limited" | Full => "Full" end.

Definition require (holds : bool) (field_name candidate allowed : string)
  : NetworkProxyConstraintError + unit :=
  if holds then inr tt
  else inl {| field_name := field_name; candidate := candidate; allowed := allowed |}.

Definition disabled_by_managed : string := "false (disabled by managed config)".

Definition validate_non_global_wildcard_domain_patterns (field_name : string)
    (patterns : list string) : NetworkProxyConstraintError + unit :=
  match List.find is_global_wildcard_domain_pattern patterns with
  | Some pattern =>
      inl {| field_name := field_name; candidate := trim pattern;
             allowed := "exact hosts or scoped wildcards like *.example.com or **.example.com" |}
  | None => inr tt
  end.

(** Sets of lowercased entries, as lists. *)
Definition lowercased (l : list string) : list string := map to_ascii_lowercase l.
Definition in_set (l : list string) (s : string) : bool := bool_decide (s ∈ l).
Definition same_set (l k : list string) : bool := forallb (in_set k) l && forallb (in_set l) k.

Section constraints.
Context `{NetEnv}.

(** The allowlist against the managed one.  [denied] are the lowercased
    denied entries of the configuration. *)
Definition validate_allowed_domains (managed denied candidate : list string) (expansion : option bool)
  : NetworkProxyConstraintError + unit :=
  match expansion with
  | Some true =>
      let missing := List.filter (λ e, negb (in_set (lowercased candidate) e) && negb (in_set denied e))
                       (lowercased managed) in
      require (bool_decide (missing = [])) "network.allowed_domains"
        "missing managed allowed_domains entries" (debug_strings missing)
  | Some false =>
      let expected := List.filter (λ e, negb (in_set denied e)) (lowercased managed) in
      require (same_set (lowercased candidate) expected) "network.allowed_domains"
        (debug_strings candidate) "must match managed allowed_domains"
  | None =>
      let managed_patterns := map parse_for_constraints managed in
      let invalid := List.filter (λ e, negb (existsb (λ m, pattern_allows m (parse_for_constraints e))
                                               managed_patterns)) candidate in
      require (bool_decide (invalid = [])) "network.allowed_domains" (debug_strings invalid)
        "subset of managed allowed_domains"
  end.

Definition validate_denied_domains (managed candidate : list string) (expansion : option bool)
  : NetworkProxyConstraintError + unit :=
  match expansion with
  | Some false =>
      require (same_set (lowercased candidate) (lowercased managed)) "network.denied_domains"
        (debug_strings candidate) "must match managed denied_domains"
  | _ =>
      let missing := List.filter (λ e, negb (in_set (lowercased candidate) e)) (lowercased managed) in
      require (bool_decide (missing = [])) "network.denied_domains"
        "missing managed denied_domains entries" (debug_strings missing)
  end.

Definition validate_policy_against_constraints (cfg : NetworkProxySettings)
    (c : NetworkProxyConstraints) : NetworkProxyConstraintError + unit :=
  let config_allowed := default [] (allowed_domains cfg) in
  let config_denied := default [] (denied_domains cfg) in
  let? _ := validate_non_global_wildcard_domain_patterns "network.denied_domains" config_denied in
  let? _ := match max_enabled c with
            | Some m => require (negb (enabled cfg && negb m)) "network.enabled" "true" disabled_by_managed
            | None => inr tt
            end in
  let? _ := match max_mode c with
            | Some m => require (network_mode_rank (mode cfg) <=? network_mode_rank m) "network.mode"
                          (mode_debug (mode cfg)) (mode_debug m +:+ " or more restrictive")
            | None => inr tt
            end in
  let? _ := require (negb (allow_upstream_proxy cfg && negb (default true (managed_upstream_proxy c))))
              "network.allow_upstream_proxy" "true" disabled_by_managed in
  let? _ := require (negb (dangerously_allow_non_loopback_proxy cfg &&
                           negb (default true (managed_non_loopback_proxy c))))
              "network.dangerously_allow_non_loopback_proxy" "true" disabled_by_managed in
  let allow_all_unix_sockets :=
    default (bool_decide (managed_unix_sockets c = None)) (managed_all_unix_sockets c) in
  let? _ := require (negb (dangerously_allow_all_unix_sockets cfg && negb allow_all_unix_sockets))
              "network.dangerously_allow_all_unix_sockets" "true" disabled_by_managed in
  let? _ := match managed_local_binding c with
            | Some b => require (negb (allow_local_binding cfg && negb b)) "network.allow_local_binding"
                          "true" disabled_by_managed
            | None => inr tt
            end in
  let? _ := match managed_allowed_domains c with
            | Some managed =>
                let? _ := validate_non_global_wildcard_domain_patterns "network.allowed_domains" managed in
                validate_allowed_domains managed (lowercased config_denied) config_allowed
                  (allowlist_expansion_enabled c)
            | None => inr tt
            end in
  let? _ := match managed_denied_domains c with
            | Some managed =>
                let? _ := validate_non_global_wildcard_domain_patterns "network.denied_domains" managed in
                validate_denied_domains managed config_denied (denylist_expansion_enabled c)
            | None => inr tt
            end in
  match managed_unix_sockets c with
  | Some managed =>
      let invalid := List.filter (λ e, negb (in_set (lowercased managed) (to_ascii_lowercase e)))
                       (allow_unix_sockets cfg) in
      require (bool_decide (invalid = [])) "network.allow_unix_sockets" (debug_strings invalid)
        "subset of managed allow_unix_sockets"
  | None => inr tt
  end.
End constraints.

(** ** runtime.rs: the decision for a host *)

Inductive HostBlockReason := Denied | NotAllowed | NotAllowedLocal.
Inductive HostBlockDecision := Allowed | Blocked (reason : HostBlockReason).

Definition block_reason_text (r : HostBlockReason) : string :=
  match r with
  | Denied => "denied" | NotAllowed => "not_allowed" | NotAllowedLocal => "not_allowed_local"
  end.

Record BlockedRequest := {
  br_host : string;
  br_reason : string;
  br_client : option string;
  br_method : option string;
  br_mode : option NetworkMode;
  br_protocol : string;
  br_decision : option string;
  br_source : option string;
  br_port : option N;
  br_timestamp : Z
}.

Record ConfigState := {
  config : NetworkProxySettings;
  allow_set : GlobSet;
  deny_set : GlobSet;
  mitm_enabled : bool;
  constraints : NetworkProxyConstraints;
  blocked : list BlockedRequest;
  blocked_total : N
}.

Definition with_blocked (l : list BlockedRequest) (total : N) (s : ConfigState) : ConfigState := {|
  config := config s; allow_set := allow_set s; deny_set := deny_set s;
  mitm_enabled := mitm_enabled s; constraints := constraints s; blocked := l; blocked_total := total |}.
Definition with_config (cfg : NetworkProxySettings) (s : ConfigState) : ConfigState := {|
  config := cfg; allow_set := allow_set s; deny_set := deny_set s; mitm_enabled := mitm_enabled s;
  constraints := constraints s; blocked := blocked s; blocked_total := blocked_total s |}.

Definition MAX_BLOCKED_EVENTS : nat := 200.

Section runtime.
Context `{ProcessEnv, NetEnv} (fs : fsys).

(** [build_config_state] of [state.rs]. *)
Definition build_config_state (cfg : NetworkProxySettings) (c : NetworkProxyConstraints)
  : string + ConfigState :=
  let? _ := validate_unix_socket_allowlist_paths cfg in
  let allowed := default [] (allowed_domains cfg) in
  let denied := default [] (denied_domains cfg) in
  let? _ := map_err constraint_error_text
              (validate_non_global_wildcard_domain_patterns "network.denied_domains" denied) in
  let? deny := compile_denylist_globset denied in
  let? allow := compile_allowlist_globset allowed in
  let? _ := match (if mitm cfg then mitm_error else None) with Some e => inl e | None => inr tt end in
  inr {| config := cfg; allow_set := allow; deny_set := deny; mitm_enabled := mitm cfg;
         constraints := c; blocked := []; blocked_total := 0%N |}.

Definition globset_matches_host_or_unscoped (set : GlobSet) (host : string) : bool :=
  glob_set_is_match set host ||
  match unscoped_ip_literal host with Some ip => glob_set_is_match set ip | None => false end.

Definition is_explicit_local_allowlisted (allowed : list string) (host : string) : bool :=
  let unscoped_host := unscoped_ip_literal host in
  existsb (λ pattern,
    let pattern := trim pattern in
    if String.eqb pattern "*" || starts_with "*." pattern || starts_with "**." pattern then false
    else if contains "*" pattern || contains "?" pattern then false
    else
      let normalized_pattern := normalize_host pattern in
      String.eqb normalized_pattern host ||
      match unscoped_host with Some ip => String.eqb normalized_pattern ip | None => false end) allowed.

(** A lookup that fails or takes too long counts as not public. *)
Definition host_resolves_to_non_public_ip (host : string) (port : N) : bool :=
  match parse_ip host with
  | Some ip => is_non_public_ip ip
  | None =>
      match lookup_host host port with
      | None => true
      | Some addrs => existsb is_non_public_ip addrs
      end
  end.

Definition is_local_literal (host : string) : bool :=
  is_loopback_host host ||
  match parse_ip (default host (unscoped_ip_literal host)) with
  | Some ip => is_non_public_ip ip
  | None => false
  end.

(** [host_blocked], on the state after [reload_if_needed]. *)
Definition host_blocked (s : ConfigState) (host : string) (port : N) : HostBlockDecision :=
  match Host_parse host with
  | inl _ => Blocked NotAllowed
  | inr host =>
      let allowed_entries := allowed_domains (config s) in
      if globset_matches_host_or_unscoped (deny_set s) host then Blocked Denied else
      let is_allowlisted := globset_matches_host_or_unscoped (allow_set s) host in
      let local :=
        if allow_local_binding (config s) then false
        else if is_local_literal host
             then negb (is_explicit_local_allowlisted (default [] allowed_entries) host)
             else host_resolves_to_non_public_ip host port in
      if local then Blocked NotAllowedLocal
      else if bool_decide (allowed_entries = None) || negb is_allowlisted then Blocked NotAllowed
      else Allowed
  end.

(** The log of blocked requests keeps the last ones. *)
Definition record_blocked (entry : BlockedRequest) (s : ConfigState) : ConfigState :=
  let entries := blocked s ++ [entry] in
  with_blocked (drop (length entries - MAX_BLOCKED_EVENTS) entries) (u64_sat_add (blocked_total s) 1) s.
Definition blocked_snapshot (s : ConfigState) : list BlockedRequest := blocked s.
Definition drain_blocked (s : ConfigState) : list BlockedRequest * ConfigState :=
  (blocked s, with_blocked [] (blocked_total s) s).

(** Sockets are supported on macOS only. *)
Definition is_unix_socket_allowed (supported : bool) (s : ConfigState) (socket_path : string) : bool :=
  if negb supported then false
  else if negb (is_absolute socket_path) then false
  else if dangerously_allow_all_unix_sockets (config s) then true
  else match absolute (os_of socket_path) with
       | None => false
       | Some requested =>
           let requested_canonical := fs_canonicalize fs (as_path requested) in
           existsb (λ entry,
             match parse_unix_socket_path entry with
             | inl _ => false
             | inr allowed_path =>
                 bool_decide (allowed_path = requested) ||
                 match requested_canonical, fs_canonicalize fs (as_path allowed_path) with
                 | Some r, Some a => bool_decide (a = r)
                 | _, _ => false
                 end
             end) (allow_unix_sockets (config s))
       end.

(** *** Updates

    What a reload finds is given with the operation.  The three ways to
    install a new state keep what has been recorded differently. *)

Definition reload_if_needed (reload : string + option ConfigState) (s : ConfigState)
  : string + ConfigState :=
  let? found := reload in
  inr match found with
      | None => s
      | Some new_state => with_blocked (blocked s) (blocked_total s) new_state
      end.
Definition force_reload (reload : string + ConfigState) (s : ConfigState) : string + ConfigState :=
  let? new_state := reload in inr (with_blocked (blocked s) (blocked_total new_state) new_state).
Definition replace_config_state (new_state s : ConfigState) : ConfigState :=
  with_blocked (blocked s) (blocked_total s) new_state.

Inductive DomainListKind := AllowList | DenyList.

Definition list_permission (k : DomainListKind) : NetworkDomainPermission :=
  match k with AllowList => PermAllow | DenyList => PermDeny end.
Definition list_name (k : DomainListKind) : string :=
  match k with AllowList => "allowlist" | DenyList => "denylist" end.
Definition constraint_field (k : DomainListKind) : string :=
  match k with AllowList => "network.allowed_domains" | DenyList => "network.denied_domains" end.
Definition list_entries (k : DomainListKind) (s : NetworkProxySettings) : list string :=
  default [] (match k with AllowList => allowed_domains s | DenyList => denied_domains s end).
Definition opposite_entries (k : DomainListKind) (s : NetworkProxySettings) : list string :=
  default [] (match k with AllowList => denied_domains s | DenyList => allowed_domains s end).

(** One round of an update: it is prepared on the state it read and is
    installed if the state has the same configuration when it is written. *)
Inductive update_round := Unchanged | Retry | Install (s : ConfigState).

Definition update_domain_round (host : string) (k : DomainListKind) (read write : ConfigState)
  : string + update_round :=
  let has entries := existsb (λ e, String.eqb (normalize_host e) host) entries in
  if has (list_entries k (config read)) && negb (has (opposite_entries k (config read)))
  then inr Unchanged else
  let candidate := upsert_domain_permission host (list_permission k) normalize_host (config read) in
  let? _ := map_err (λ _, constraint_field k +:+ " constrained by managed config")
              (validate_policy_against_constraints candidate (constraints read)) in
  let? new_state := map_err (λ _, "failed to compile updated network " +:+ list_name k)
                      (build_config_state candidate (constraints read)) in
  if bool_decide (constraints write = constraints read) && bool_decide (config write = config read)
  then inr (Install (with_blocked (blocked read) (blocked_total read) new_state))
  else inr Retry.

Definition set_mode_round (m : NetworkMode) (read write : ConfigState) : string + update_round :=
  let? _ := map_err (λ _, "network.mode constrained by managed config")
              (validate_policy_against_constraints (with_mode m (config read)) (constraints read)) in
  if bool_decide (constraints write = constraints read)
  then inr (Install (with_config (with_mode m (config write)) write))
  else inr Retry.

(** The loop over the states that its rounds read and write; [None] while it
    has not ended. *)
Fixpoint update_loop (round : ConfigState → ConfigState → string + update_round)
    (states : list (ConfigState * ConfigState)) : option (string + ConfigState) :=
  match states with
  | [] => None
  | (read, write) :: states' =>
      match round read write with
      | inl e => Some (inl e)
      | inr Unchanged => Some (inr read)
      | inr (Install s) => Some (inr s)
      | inr Retry => update_loop round states'
      end
  end.

Definition update_domain_list (host : string) (k : DomainListKind)
    (states : list (ConfigState * ConfigState)) : option (string + ConfigState) :=
  match Host_parse host with
  | inl _ => Some (inl "invalid network host")
  | inr host => update_loop (update_domain_round host k) states
  end.
Definition add_allowed_domain (host : string) := update_domain_list host AllowList.
Definition add_denied_domain (host : string) := update_domain_list host DenyList.
Definition set_network_mode (m : NetworkMode) := update_loop (set_mode_round m).

(** ** network_policy.rs *)

Inductive NetworkProtocol := ProtoHttp | ProtoHttpsConnect | ProtoSocks5Tcp | ProtoSocks5Udp.
Definition as_policy_protocol (p : NetworkProtocol) : string :=
  match p with
  | ProtoHttp => "http" | ProtoHttpsConnect => "https_connect"
  | ProtoSocks5Tcp => "socks5_tcp" | ProtoSocks5Udp => "socks5_udp"
  end.

Inductive NetworkPolicyDecision := PolicyDeny | PolicyAsk.
Definition policy_decision_text (d : NetworkPolicyDecision) : string :=
  match d with PolicyDeny => "deny" | PolicyAsk => "ask" end.

Inductive NetworkDecisionSource := BaselinePolicy | ModeGuard | ProxyState | Decider.
Definition source_text (s : NetworkDecisionSource) : string :=
  match s with
  | BaselinePolicy => "baseline_policy" | ModeGuard => "mode_guard"
  | ProxyState => "proxy_state" | Decider => "decider"
  end.

Record NetworkPolicyRequest := {
  req_protocol : NetworkProtocol;
  req_host : string;
  req_port : N;
  req_client_addr : option string;
  req_method : option string;
  req_command : option string;
  req_exec_policy_hint : option string
}.

Inductive NetworkDecision :=
| Allow
| Deny (reason : string) (source : NetworkDecisionSource) (decision : NetworkPolicyDecision).

Definition or_policy_denied (reason : string) : string :=
  if String.eqb reason "" then "policy_denied" else reason.
Definition deny_with_source (reason : string) (source : NetworkDecisionSource) : NetworkDecision :=
  Deny (or_policy_denied reason) source PolicyDeny.
Definition ask_with_source (reason : string) (source : NetworkDecisionSource) : NetworkDecision :=
  Deny (or_policy_denied reason) source PolicyAsk.

Definition map_decider_decision (d : NetworkDecision) : NetworkDecision :=
  match d with Allow => Allow | Deny reason _ decision => Deny reason Decider decision end.

(** The fields of the audit event that depend on the decision. *)
Record PolicyAuditEvent := {
  audit_decision : string;
  audit_source : string;
  audit_reason : string;
  audit_protocol : string;
  audit_server_address : string;
  audit_server_port : N;
  audit_method : string;
  audit_client : string;
  audit_override : bool
}.

Definition evaluate_host_policy (s : ConfigState)
    (decider : option (NetworkPolicyRequest → NetworkDecision)) (request : NetworkPolicyRequest)
  : NetworkDecision * PolicyAuditEvent :=
  let '(decision, policy_override) :=
    match host_blocked s (req_host request) (req_port request) with
    | Allowed => (Allow, false)
    | Blocked NotAllowed =>
        match decider with
        | Some decide =>
            let d := map_decider_decision (decide request) in
            (d, match d with Allow => true | Deny _ _ _ => false end)
        | None => (deny_with_source (block_reason_text NotAllowed) BaselinePolicy, false)
        end
    | Blocked reason => (deny_with_source (block_reason_text reason) BaselinePolicy, false)
    end in
  let '(policy_decision, source, reason) :=
    match decision with
    | Allow => ("allow", if policy_override then Decider else BaselinePolicy,
                if policy_override then block_reason_text NotAllowed else "allow")
    | Deny reason source d => (policy_decision_text d, source, reason)
    end in
  (decision,
   {| audit_decision := policy_decision; audit_source := source_text source; audit_reason := reason;
      audit_protocol := as_policy_protocol (req_protocol request);
      audit_server_address := req_host request; audit_server_port := req_port request;
      audit_method := default "none" (req_method request);
      audit_client := default "unknown" (req_client_addr request);
      audit_override := policy_override |}).

(** ** connect_policy.rs: the address that is connected to in the end *)
Definition connect_allowed (local_binding : bool) (addr : SocketAddr) : bool :=
  local_binding || negb (is_non_public_ip addr.1).
End runtime.
