(* ===== verification/NetProps.v ===== *)
(** * network-proxy: what a policy keeps a command from reaching

    Addresses that are not public, as ranges; the sets of globs match the
    languages of their patterns; a managed allowlist confines the configured
    one; and the states of a proxy keep denied hosts blocked, however they are
    updated.  Ends with concrete states, witnesses and findings. *)

From S2P Require Import Prelude RustStr FsModel ExecFs Permissions SandboxRoots NetPolicy.

Implicit Types (h d p : string) (state : ConfigState).

(** ** Addresses *)

Lemma land_mask (x k : N) :
  (x < 2 ^ 32)%N → (k ≤ 32)%N →
  N.land x (N.land (N.shiftl u32_max k) u32_max) = N.shiftl (N.shiftr x k) k.
Proof.
  intros B K. change u32_max with (N.ones 32). apply N.bits_inj. intros i.
  rewrite !N.land_spec. destruct (N.lt_ge_cases i k) as [L|G].
  - rewrite !N.shiftl_spec_low by done. by rewrite andb_false_r.
  - rewrite !N.shiftl_spec_high' by done. rewrite N.shiftr_spec'.
    replace (i - k + k)%N with i by lia. destruct (N.lt_ge_cases i 32) as [L|G'].
    + rewrite !N.ones_spec_low by lia. by rewrite andb_true_r.
    + rewrite (N.ones_spec_high 32 i) by lia. rewrite !andb_false_r.
      symmetry. destruct (decide (x = 0)%N) as [->|N0]; [apply N.bits_0|].
      apply N.bits_above_log2. apply N.log2_lt_pow2; [lia|]. eapply N.lt_le_trans; [exact B|].
      apply N.pow_le_mono_r; lia.
Qed.

Definition octets (ip : Ipv4Addr) : Prop :=
  let '(a, b, c, d) := ip in (a < 256 ∧ b < 256 ∧ c < 256 ∧ d < 256)%N.

Lemma u32_bound ip : octets ip → (u32_of ip < 2 ^ 32)%N.
Proof. destruct ip as [[[a b] c] d]. unfold octets, u32_of. lia. Qed.

(** An address is in a network when it agrees with it above the host bits. *)
Lemma in_cidr ip base (prefix first next : N) :
  octets ip → octets base → (0 < prefix ≤ 32)%N →
  let size := (2 ^ (32 - prefix))%N in
  (first = u32_of base / size * size)%N → next = (first + size)%N →
  ipv4_in_cidr ip base prefix = true ↔ (first ≤ u32_of ip < next)%N.
Proof.
  intros Ho Hb P size -> ->. unfold ipv4_in_cidr. rewrite (proj2 (N.eqb_neq prefix 0)) by lia.
  rewrite !land_mask by (by apply u32_bound || lia). rewrite !N.shiftl_mul_pow2, !N.shiftr_div_pow2.
  fold size. assert (0 < size)%N by (apply N.neq_0_lt_0, N.pow_nonzero; lia).
  rewrite N.eqb_eq. clearbody size. generalize (u32_of base), (u32_of ip). intros b x. split.
  - intros E. apply N.mul_cancel_r in E; [|lia]. rewrite <- E.
    pose proof (N.div_mod x size ltac:(lia)). pose proof (N.mod_lt x size ltac:(lia)).
    generalize dependent (x `mod` size)%N. generalize (x / size)%N. clear. intros q r -> L. nia.
  - intros [L U]. f_equal. symmetry. apply (N.div_unique _ _ _ (x - b / size * size)%N);
      revert L U; generalize (b / size)%N; clear; intros; nia.
Qed.

(** The first address of each range that is not public, and the one after its
    last (RFC 1122, 1918, 2544, 3927, 5737, 6598, 6890, and multicast). *)
Definition non_public_ranges : list (Ipv4Addr * Ipv4Addr) :=
  [((0, 0, 0, 0), (1, 0, 0, 0)); ((10, 0, 0, 0), (11, 0, 0, 0)); ((100, 64, 0, 0), (100, 128, 0, 0));
   ((127, 0, 0, 0), (128, 0, 0, 0)); ((169, 254, 0, 0), (169, 255, 0, 0));
   ((172, 16, 0, 0), (172, 32, 0, 0)); ((192, 0, 0, 0), (192, 0, 1, 0));
   ((192, 0, 2, 0), (192, 0, 3, 0)); ((192, 168, 0, 0), (192, 169, 0, 0));
   ((198, 18, 0, 0), (198, 20, 0, 0)); ((198, 51, 100, 0), (198, 51, 101, 0));
   ((203, 0, 113, 0), (203, 0, 114, 0)); ((224, 0, 0, 0), (256, 0, 0, 0))]%N.

(** C33: The check of IPv4 addresses, a mixture of tests of octets and of masked
    networks, blocks exactly the ranges that are not public: this network, the
    private networks, shared addresses, loopback, link-local, protocol assignments,
    the three documentation networks, benchmarking, and everything from multicast to
    the broadcast address. *)
Theorem non_public_ipv4_ranges ip :
  octets ip →
  is_non_public_ipv4 ip = true ↔
    Exists (λ '(first, next), (u32_of first ≤ u32_of ip < u32_of next)%N) non_public_ranges.
Proof.
  intros Ho. unfold is_non_public_ipv4. rewrite !orb_true_iff.
  rewrite (in_cidr _ _ 8 0 16777216), (in_cidr _ _ 10 1681915904 1686110208),
    (in_cidr _ _ 24 3221225472 3221225728), (in_cidr _ _ 24 3221225984 3221226240),
    (in_cidr _ _ 15 3323068416 3323199488), (in_cidr _ _ 24 3325256704 3325256960),
    (in_cidr _ _ 24 3405803776 3405804032), (in_cidr _ _ 4 4026531840 4294967296)
    by (done || reflexivity || (unfold octets; lia)).
  destruct ip as [[[a b] c] d]. unfold octets in Ho.
  unfold v4_is_loopback, v4_is_private, v4_is_link_local, v4_is_unspecified, v4_is_multicast,
    v4_is_broadcast. rewrite !orb_true_iff, !andb_true_iff, !N.eqb_eq, !N.leb_le.
  unfold non_public_ranges. rewrite !Exists_cons, Exists_nil.
  unfold u32_of, u32_max. lia.
Qed.

(** ** Texts *)

Definition is_lower h : Prop := to_ascii_lowercase h = h.

Lemma lowercase_lower (s : string) : is_lower (to_ascii_lowercase s).
Proof. apply to_ascii_lowercase_idemp. Qed.

Lemma lowercase_app (s t : string) :
  to_ascii_lowercase (s +:+ t) = to_ascii_lowercase s +:+ to_ascii_lowercase t.
Proof. unfold to_ascii_lowercase. by rewrite bytes_app, map_app, of_bytes_app. Qed.

Lemma rev_str_app (s t : string) : rev_str (s +:+ t) = rev_str t +:+ rev_str s.
Proof. unfold rev_str. by rewrite bytes_app, reverse_app, of_bytes_app. Qed.

Lemma rev_str_rev (s : string) : rev_str (rev_str s) = s.
Proof. unfold rev_str. by rewrite bytes_of_bytes, reverse_involutive, of_bytes_bytes. Qed.

Lemma ends_with_spec (s t : string) : ends_with t s = true ↔ ∃ x, s = x +:+ t.
Proof.
  unfold ends_with, strip_suffix. split.
  - destruct (strip_prefix _ _) as [r|] eqn:E; [|done]. intros _.
    apply strip_prefix_Some in E. exists (rev_str r).
    by rewrite <- (rev_str_rev s), E, rev_str_app, rev_str_rev.
  - intros [x ->]. by rewrite rev_str_app, strip_prefix_app.
Qed.

(** ** The language of a pattern *)

Definition subdomain_of d h : Prop := ∃ x : string, x ≠ "" ∧ h = x +:+ "." +:+ d.

Definition lang (p : DomainPattern) h : Prop :=
  match p with
  | Exact d => h = d
  | SubdomainsOnly d => subdomain_of d h
  | ApexAndSubdomains d => h = d ∨ subdomain_of d h
  end.

Definition pattern_domain (p : DomainPattern) : string :=
  match p with Exact d | SubdomainsOnly d | ApexAndSubdomains d => d end.

Definition is_glob_char (c : ascii) : bool :=
  existsb (Ascii.eqb c) ["*"; "?"; "["; "]"; "{"; "}"; "\"]%char.

(** A domain in lower case, without final dots, a leading dot or characters
    that mean something in a glob. *)
Definition plain_domain d : Prop :=
  normalize_domain d = d ∧ starts_with "." d = false ∧
  Forall (λ c, is_glob_char c = false) (bytes d).

#[global] Instance plain_domain_dec d : Decision (plain_domain d).
Proof. unfold plain_domain. apply _. Defined.

Definition policy_pattern p : DomainPattern := DomainPattern_parse (normalize_pattern p).
Definition plain_pattern p : Prop := plain_domain (pattern_domain (policy_pattern p)).

Lemma plain_lower d : plain_domain d → is_lower d.
Proof. intros (N & _). rewrite <- N. apply lowercase_lower. Qed.

(** The documented meaning of the globs the proxy builds: a text without
    special characters, and [?*.] in front of one, whatever the case. *)
Class HostGlobLaws `{NetEnv} := {
  glob_literal d : Forall (λ c, is_glob_char c = false) (bytes d) →
    ∃ m, host_glob d = inr m ∧
         ∀ h, m h = true ↔ to_ascii_lowercase h = to_ascii_lowercase d;
  glob_subdomain d : Forall (λ c, is_glob_char c = false) (bytes d) →
    ∃ m, host_glob ("?*." +:+ d) = inr m ∧
         ∀ h, m h = true ↔ subdomain_of (to_ascii_lowercase d) (to_ascii_lowercase h)
}.

(** A pattern that another one allows has a smaller language. *)
Lemma pattern_allows_lang q c h :
  plain_domain (pattern_domain q) → plain_domain (pattern_domain c) →
  pattern_allows q c = true → lang c h → lang q h.
Proof.
  intros (Nq & _) (Nc & Dot & _).
  assert (Sub : ends_with ("." +:+ pattern_domain q) (pattern_domain c) = true →
                subdomain_of (pattern_domain q) (pattern_domain c)).
  { intros [x E]%ends_with_spec. exists x. split; [|done]. intros ->. simpl in E. by rewrite E in Dot. }
  assert (Trans : ∀ d d', subdomain_of d d' → subdomain_of d' h → subdomain_of d h).
  { intros d d' (x & Nx & ->) (y & Ny & ->). exists (y +:+ "." +:+ x). split; [by destruct y|].
    by rewrite !str_app_assoc. }
  destruct q as [d|d|d], c as [c|c|c]; simpl in *; unfold domain_eq, is_subdomain_or_equal, is_strict_subdomain;
    rewrite ?Nq, ?Nc; try done.
  all: rewrite ?orb_true_iff, ?andb_true_iff, ?String.eqb_eq.
  all: naive_solver.
Qed.

(** ** What a compiled set matches *)

Section globs.
Context `{NetEnv, !HostGlobLaws}.

Definition compiled (acc : list string * GlobSet) : Prop :=
  Forall2 (λ c m, host_glob c = inr m) acc.1 acc.2.

Lemma add_candidate_spec acc c acc' :
  compiled acc → add_candidate acc c = inr acc' →
  compiled acc' ∧ ∀ x, x ∈ acc'.1 ↔ x ∈ acc.1 ∨ x = c.
Proof.
  intros C. unfold add_candidate. case_bool_decide as Hin.
  - intros [= <-]. split; [done|]. naive_solver.
  - destruct (host_glob c) as [|m] eqn:E; [done|]. intros [= <-]. split.
    + apply Forall2_app; [done|]. by constructor.
    + intros x. simpl. rewrite elem_of_app, list_elem_of_singleton. done.
Qed.

Lemma add_candidates_spec cs acc acc' :
  compiled acc → try_fold add_candidate acc cs = inr acc' →
  compiled acc' ∧ ∀ x, x ∈ acc'.1 ↔ x ∈ acc.1 ∨ x ∈ cs.
Proof.
  revert acc. induction cs as [|c cs IH]; intros acc C; simpl.
  - intros [= <-]. split; [done|]. intros x. rewrite elem_of_nil. naive_solver.
  - intros E. apply and_then_inr in E as (acc1 & E1 & E2).
    apply add_candidate_spec in E1 as [C1 S1]; [|done]. apply IH in E2 as [C2 S2]; [|done].
    split; [done|]. intros x. rewrite S2, S1, elem_of_cons. naive_solver.
Qed.

Definition candidates (patterns : list string) : list string :=
  concat (map (λ p, expand_domain_pattern (normalize_pattern p)) patterns).

Lemma add_patterns_spec w patterns acc acc' :
  compiled acc → try_fold (add_pattern w) acc patterns = inr acc' →
  compiled acc' ∧ ∀ x, x ∈ acc'.1 ↔ x ∈ acc.1 ∨ x ∈ candidates patterns.
Proof.
  revert acc. induction patterns as [|p patterns IH]; intros acc C; simpl.
  - intros [= <-]. split; [done|]. intros x. rewrite elem_of_nil. naive_solver.
  - intros E. apply and_then_inr in E as (acc1 & E1 & E2). unfold add_pattern in E1.
    case_match; [done|]. apply add_candidates_spec in E1 as [C1 S1]; [|done].
    apply IH in E2 as [C2 S2]; [|done]. split; [done|]. intros x.
    rewrite S2, S1. unfold candidates. simpl. rewrite elem_of_app. naive_solver.
Qed.

Lemma compile_matches w patterns set h :
  compile_globset_with_policy patterns w = inr set →
  glob_set_is_match set h = true ↔
    ∃ c m, c ∈ candidates patterns ∧ host_glob c = inr m ∧ m h = true.
Proof.
  unfold compile_globset_with_policy. intros E. apply and_then_inr in E as (acc & E & E').
  case_match; [done|]. injection E' as <-.
  apply add_patterns_spec in E as [C S]; [|by constructor]. unfold glob_set_is_match.
  rewrite existsb_exists. split.
  - intros (m & Hm & M). apply list_elem_of_In, list_elem_of_lookup in Hm as [i Hi].
    destruct (Forall2_lookup_r _ _ _ _ _ C Hi) as (c & Hc & G). exists c, m. split; [|done].
    apply list_elem_of_lookup_2 in Hc. apply S in Hc as [Hc|Hc]; [by apply elem_of_nil in Hc|done].
  - intros (c & m & Hc & G & M). assert (Hc' : c ∈ acc.1) by (apply S; by right).
    apply list_elem_of_lookup in Hc' as [i Hi].
    destruct (Forall2_lookup_l _ _ _ _ _ C Hi) as (m' & Hm & G'). exists m'. split.
    + apply list_elem_of_In. by eapply list_elem_of_lookup_2.
    + congruence.
Qed.

(** The globs of a plain pattern match its language. *)
Lemma candidate_lang p h :
  plain_pattern p → is_lower h →
  (∃ c m, c ∈ expand_domain_pattern (normalize_pattern p) ∧ host_glob c = inr m ∧ m h = true) ↔
  lang (policy_pattern p) h.
Proof.
  unfold plain_pattern, policy_pattern, expand_domain_pattern. intros P L.
  pose proof (plain_lower _ P) as Ld. destruct P as (_ & _ & F).
  destruct (glob_literal _ F) as (ml & El & Ml), (glob_subdomain _ F) as (ms & Es & Ms).
  unfold is_lower in *.
  destruct (DomainPattern_parse (normalize_pattern p)) as [d|d|d]; simpl in *;
    specialize (Ml h); specialize (Ms h); rewrite L, Ld in Ml, Ms; split.
  - intros (c & m & Hc & G & M). apply elem_of_cons in Hc as [->|Hc];
      [left|right; apply list_elem_of_singleton in Hc as ->].
    + apply Ml. congruence.
    + apply Ms. congruence.
  - intros [E|E]; [exists d, ml|exists ("?*." +:+ d), ms]; (split; [|split; [done|]]).
    + by left.
    + by apply Ml.
    + by right; left.
    + by apply Ms.
  - intros (c & m & ->%list_elem_of_singleton & G & M). apply Ms. congruence.
  - intros E. exists ("?*." +:+ d), ms. split; [by left|]. split; [done|]. by apply Ms.
  - intros (c & m & ->%list_elem_of_singleton & G & M). apply Ml. congruence.
  - intros E. exists d, ml. split; [by left|]. split; [done|]. by apply Ml.
Qed.

(** A set of plain patterns matches no more than their languages. *)
Lemma set_matches_only w patterns set h :
  compile_globset_with_policy patterns w = inr set → Forall plain_pattern patterns → is_lower h →
  glob_set_is_match set h = true → ∃ p, p ∈ patterns ∧ lang (policy_pattern p) h.
Proof.
  intros E F L (c & m & Hc & G & M)%(compile_matches _ _ _ _ E).
  unfold candidates in Hc. apply list_elem_of_In, in_concat in Hc as (cs & Hcs & Hc).
  apply in_map_iff in Hcs as (p & <- & Hp). apply list_elem_of_In in Hp, Hc. exists p. split; [done|].
  rewrite Forall_forall in F. apply candidate_lang; [by apply F|done|]. by exists c, m.
Qed.

(** *** What managed configuration confines *)

(** The constraint check and the compiled set read the pattern alike. *)
Definition read_alike p : Prop :=
  plain_pattern p ∧ parse_for_constraints p = policy_pattern p.

Lemma require_ok b name c a u : require b name c a = inr u ↔ b = true.
Proof. destruct u. unfold require. by destruct b. Qed.

Lemma validate_managed_allowlist cfg c managed u :
  validate_policy_against_constraints cfg c = inr u →
  managed_allowed_domains c = Some managed → allowlist_expansion_enabled c = None →
  ∀ p, p ∈ default [] (allowed_domains cfg) →
    ∃ q, q ∈ managed ∧ pattern_allows (parse_for_constraints q) (parse_for_constraints p) = true.
Proof.
  unfold validate_policy_against_constraints. intros E Hm He p Hp. rewrite Hm, He in E.
  cbv beta iota in E.
  repeat (apply and_then_inr in E as (? & ? & E)).
  match goal with Hv : and_then _ (λ _, validate_allowed_domains _ _ _ _) = _ |- _ => rename Hv into V end.
  apply and_then_inr in V as (? & _ & V). simpl in V. apply require_ok, bool_decide_eq_true in V.
  destruct (existsb (λ m, pattern_allows m (parse_for_constraints p)) (map parse_for_constraints managed))
    eqn:X.
  - apply existsb_exists in X as (m & Hm' & A). apply in_map_iff in Hm' as (q & <- & Hq).
    exists q. split; [by apply list_elem_of_In|done].
  - exfalso. assert (I : p ∈ @nil string); [|by apply elem_of_nil in I].
    rewrite <- V. apply list_elem_of_In, List.filter_In. split; [by apply list_elem_of_In|]. by rewrite X.
Qed.

(** C31: When managed configuration gives an allowlist and leaves expansion alone,
    every host that a configuration valid under it allows is in the language of a
    managed pattern: the host itself, or a host below its domain for a wildcard.
    This is for patterns that the check of the constraints and the compiled sets
    read alike. *)
Theorem managed_allowlist_confines `{ProcessEnv} cfg c managed s h :
  validate_policy_against_constraints cfg c = inr tt → build_config_state cfg c = inr s →
  managed_allowed_domains c = Some managed → allowlist_expansion_enabled c = None →
  Forall read_alike (default [] (allowed_domains cfg)) → Forall read_alike managed →
  is_lower h → glob_set_is_match (allow_set s) h = true →
  ∃ q, q ∈ managed ∧ lang (policy_pattern q) h.
Proof.
  intros V B Hm He Fc Fm L M. unfold build_config_state in B.
  repeat (apply and_then_inr in B as (? & ? & B)). injection B as <-. simpl in M.
  match goal with Hc : compile_allowlist_globset _ = _ |- _ => rename Hc into C end.
  rewrite Forall_forall in Fc, Fm.
  destruct (set_matches_only _ _ _ h C) as (p & Hp & Lp); [|done..|].
  { apply Forall_forall. intros p Hp. by apply Fc. }
  destruct (validate_managed_allowlist _ _ _ _ V Hm He p Hp) as (q & Hq & A).
  destruct (Fc p Hp) as [Pp Ep], (Fm q Hq) as [Pq Eq]. rewrite Ep, Eq in A.
  exists q. split; [done|]. by apply (pattern_allows_lang _ (policy_pattern p)).
Qed.
End globs.

(** ** Normalized hosts are in lower case *)

Lemma is_lower_bytes (s : string) : is_lower s ↔ Forall (λ c, lower c = c) (bytes s).
Proof.
  unfold is_lower, to_ascii_lowercase. split.
  - intros E%(f_equal bytes). rewrite bytes_of_bytes in E.
    induction (bytes s) as [|c l IH]; [constructor|]. simpl in E. injection E as E1 E2.
    constructor; [done|]. by apply IH.
  - intros F. rewrite <- (of_bytes_bytes s) at 2. f_equal.
    induction F as [|c l E F IH]; [done|]. simpl. by rewrite E, IH.
Qed.

Lemma is_lower_app (s t : string) : is_lower (s +:+ t) ↔ is_lower s ∧ is_lower t.
Proof. by rewrite !is_lower_bytes, bytes_app, Forall_app. Qed.

Lemma drop_char_Forall (P : ascii → Prop) c l : Forall P l → Forall P (drop_char c l).
Proof. induction 1; simpl; [constructor|]. case_match; [done|by constructor]. Qed.

Lemma trim_end_char_lower c (s : string) : is_lower s → is_lower (trim_end_char c s).
Proof.
  rewrite !is_lower_bytes. unfold trim_end_char. rewrite bytes_of_bytes. intros F.
  apply Forall_reverse, drop_char_Forall. by apply Forall_reverse.
Qed.

Lemma split_once_str_Some p (s a b : string) : split_once_str p s = Some (a, b) → s = a +:+ p +:+ b.
Proof.
  revert a. induction s as [|c s IH]; intros a; simpl.
  - destruct (strip_prefix p "") as [r|] eqn:E; [|done]. intros [= <- <-]. by apply strip_prefix_Some in E.
  - destruct (strip_prefix p (String c s)) as [r|] eqn:E.
    + intros [= <- <-]. by apply strip_prefix_Some in E.
    + destruct (split_once_str p s) as [[a' b']|] eqn:E'; [|done]. intros [= <- <-]. simpl.
      by rewrite (IH a').
Qed.

Lemma split_once_Some c (s a b : string) : split_once c s = Some (a, b) → s = a +:+ String c b.
Proof.
  unfold split_once. assert (G : ∀ pre a, split_once_go c pre s = Some (a, b) →
    of_bytes (reverse pre) +:+ s = a +:+ String c b); [|by apply (G [])].
  clear a. induction s as [|d s IH]; intros pre a; simpl; [done|].
  destruct (Ascii.eqb_spec c d) as [->|_]; [by intros [= -> ->]|].
  intros E%IH. rewrite reverse_cons, of_bytes_app in E. rewrite <- E, <- str_app_assoc. done.
Qed.

Lemma dns_host_lower (s : string) : is_lower (normalize_dns_host_or_ip_literal s).
Proof.
  unfold normalize_dns_host_or_ip_literal.
  assert (L : is_lower (trim_end_char "." (to_ascii_lowercase s)))
    by apply trim_end_char_lower, lowercase_lower.
  set (t := trim_end_char "." (to_ascii_lowercase s)) in *. clearbody t. unfold normalize_ip_literal.
  destruct (is_ip t); [done|].
  assert (Scoped : ∀ delimiter r,
    ('(ip, scope) ← split_once_str delimiter t;
     if is_ip ip then Some (ip +:+ "%" +:+ scope) else None) = Some r → is_lower r).
  { intros delimiter r E. apply bind_Some in E as ([ip scope] & E & E').
    apply split_once_str_Some in E as ->. destruct (is_ip ip); [|done]. injection E' as <-.
    rewrite !is_lower_app in *. by destruct L as (? & ? & ?). }
  destruct (_ ≫= _) as [r|] eqn:E; [by apply (Scoped _ _ E)|].
  destruct ('(_, _) ← split_once_str "%" t; _) as [r|] eqn:E'; [by apply (Scoped _ _ E')|done].
Qed.

Lemma normalize_host_lower (s : string) : is_lower (normalize_host s).
Proof. unfold normalize_host. repeat case_match; apply dns_host_lower. Qed.

Lemma Host_parse_lower (input : string) h : Host_parse input = inr h → is_lower h.
Proof. unfold Host_parse. case_match; [done|]. intros [= <-]. apply normalize_host_lower. Qed.

Lemma unscoped_lower h ip : is_lower h → unscoped_ip_literal h = Some ip → is_lower ip.
Proof.
  unfold unscoped_ip_literal. intros L E. apply bind_Some in E as ([a b] & E & E').
  apply split_once_Some in E as ->. destruct (is_ip a); [|done]. injection E' as <-.
  by apply is_lower_app in L as [? _].
Qed.

(** ** The states of a proxy *)

Section proxy.
Context `{ProcessEnv, NetEnv, !HostGlobLaws}.

(** What any of the tasks that share the state may do to it.  A round of an
    update may have been prepared on an older state. *)
Inductive proxy_step (state : ConfigState) : ConfigState → Prop :=
| step_reload cfg c new state' :
    build_config_state cfg c = inr new → reload_if_needed (inr (Some new)) state = inr state' →
    proxy_step state state'
| step_force_reload cfg c new state' :
    build_config_state cfg c = inr new → force_reload (inr new) state = inr state' →
    proxy_step state state'
| step_replace cfg c new :
    build_config_state cfg c = inr new → proxy_step state (replace_config_state new state)
| step_record entry : proxy_step state (record_blocked entry state)
| step_drain : proxy_step state (drain_blocked state).2
| step_domain host k read state' :
    update_domain_round host k read state = inr (Install state') → proxy_step state state'
| step_mode m read state' :
    set_mode_round m read state = inr (Install state') → proxy_step state state'.

(** The sets are those of the configuration. *)
Definition consistent state : Prop :=
  compile_denylist_globset (default [] (denied_domains (config state))) = inr (deny_set state) ∧
  compile_allowlist_globset (default [] (allowed_domains (config state))) = inr (allow_set state).

Lemma build_inv cfg c state :
  build_config_state cfg c = inr state →
  consistent state ∧ config state = cfg ∧ constraints state = c.
Proof.
  unfold build_config_state. intros E. repeat (apply and_then_inr in E as (? & ? & E)).
  injection E as <-. done.
Qed.

Lemma domain_round_inv host k read state state' :
  update_domain_round host k read state = inr (Install state') →
  consistent state' ∧
  config state' = upsert_domain_permission host (list_permission k) normalize_host (config state) ∧
  constraints state' = constraints state ∧
  validate_policy_against_constraints (config state') (constraints state) = inr tt.
Proof.
  unfold update_domain_round. case_match; [done|]. intros E.
  apply and_then_inr in E as (u & V & E). apply and_then_inr in E as (new & B & E).
  case_match eqn:D; [|done]. injection E as <-.
  apply andb_true_iff in D as [D1 D2]. apply bool_decide_eq_true in D1, D2.
  destruct (build_config_state _ _) as [|new'] eqn:B'; [done|]. injection B as ->.
  destruct (build_inv _ _ _ B') as (C & Ec & Ek). rewrite D1, D2.
  split; [done|]. split; [exact Ec|]. split; [exact Ek|]. simpl. rewrite Ec.
  by destruct (validate_policy_against_constraints _ _) as [|[]].
Qed.

Lemma consistent_step state state' : consistent state → proxy_step state state' → consistent state'.
Proof.
  intros C S. destruct S as [cfg c new state' B E|cfg c new state' B E|cfg c new B|entry| |host k read state' E
                            |m read state' E].
  - injection E as <-. by apply build_inv in B as [? _].
  - injection E as <-. by apply build_inv in B as [? _].
  - by apply build_inv in B as [? _].
  - done.
  - done.
  - by apply domain_round_inv in E as [? _].
  - unfold set_mode_round in E. apply and_then_inr in E as (? & _ & E). case_match; [|done].
    by injection E as <-.
Qed.

Lemma consistent_reachable cfg c state0 state :
  build_config_state cfg c = inr state0 → rtc proxy_step state0 state → consistent state.
Proof.
  intros B%build_inv. destruct B as [C _]. intros R.
  induction R as [|s1 s2 s3 S R IH]; [done|]. apply IH. by eapply consistent_step.
Qed.

(** A host, or the address in it, is in the language of a pattern. *)
Definition host_in_lang p h : Prop :=
  lang (policy_pattern p) h ∨ ∃ ip, unscoped_ip_literal h = Some ip ∧ lang (policy_pattern p) ip.

(** One of the globs a pattern is compiled to matches the host, or the address
    in it. *)
Definition covered p h : Prop :=
  ∃ c m, c ∈ expand_domain_pattern (normalize_pattern p) ∧ host_glob c = inr m ∧
    (m h = true ∨ ∃ ip, unscoped_ip_literal h = Some ip ∧ m ip = true).

Lemma candidates_elem c patterns :
  c ∈ candidates patterns ↔ ∃ p, p ∈ patterns ∧ c ∈ expand_domain_pattern (normalize_pattern p).
Proof.
  unfold candidates. rewrite list_elem_of_In, in_concat. setoid_rewrite in_map_iff.
  setoid_rewrite list_elem_of_In. naive_solver.
Qed.

(** A set matches exactly the hosts that its patterns cover. *)
Lemma set_covers w patterns set h :
  compile_globset_with_policy patterns w = inr set →
  globset_matches_host_or_unscoped set h = true ↔ ∃ p, p ∈ patterns ∧ covered p h.
Proof.
  intros E. unfold globset_matches_host_or_unscoped, covered.
  rewrite orb_true_iff, (compile_matches _ _ _ h E). split.
  - intros [(c & m & (p & Hp & Hc)%candidates_elem & G & M)|M].
    { exists p. split; [done|]. exists c, m. by eauto. }
    destruct (unscoped_ip_literal h) as [ip|] eqn:U; [|done]. apply (compile_matches _ _ _ ip E) in M as (c & m & (p & Hp & Hc)%candidates_elem & G & M).
    exists p. split; [done|]. exists c, m. split_and!; [done..|]. right. by exists ip.
  - assert (C : ∀ p c, p ∈ patterns → c ∈ expand_domain_pattern (normalize_pattern p) →
      c ∈ candidates patterns) by (intros p c Hp Hc; apply candidates_elem; eauto).
    intros (p & Hp & c & m & Hc & G & [M|(ip & -> & M)]); [left|right; apply (compile_matches _ _ _ ip E)];
      exists c, m; eauto.
Qed.

(** A plain pattern covers its language. *)
Lemma covered_plain p h : plain_pattern p → is_lower h → covered p h ↔ host_in_lang p h.
Proof.
  intros P L. unfold covered, host_in_lang. rewrite <- (candidate_lang p h P L). split.
  - intros (c & m & Hc & G & [M|(ip & U & M)]); [left; eauto|right]. exists ip. split; [done|].
    apply candidate_lang; [done|by eapply unscoped_lower|eauto].
  - intros [(c & m & Hc & G & M)|(ip & U & (c & m & Hc & G & M)%candidate_lang)];
      [| |done|by eapply unscoped_lower]; exists c, m; (split; [done|split; [done|]]); [by left|].
    right. by exists ip.
Qed.

(** A host that a denied pattern covers is denied, and no decider is asked. *)
Lemma denied_host_denied state p h (host : string) (port : N) :
  consistent state → p ∈ default [] (denied_domains (config state)) →
  Host_parse host = inr h → covered p h → host_blocked state host port = Blocked Denied.
Proof.
  intros [D _] Hp Hh Hc. unfold host_blocked. rewrite Hh.
  by rewrite (proj2 (set_covers _ _ _ _ D)) by eauto.
Qed.

Lemma evaluate_allow state decider request event :
  evaluate_host_policy state decider request = (Allow, event) →
  host_blocked state (req_host request) (req_port request) = Allowed ∨
  host_blocked state (req_host request) (req_port request) = Blocked NotAllowed ∧ is_Some decider.
Proof.
  unfold evaluate_host_policy. destruct (host_blocked _ _ _) as [|[]]; try done; [by left|].
  destruct decider as [decide|]; [|done]. by right.
Qed.

(** The host is an explicit entry of the allowlist, not covered by a wildcard. *)
Definition explicit_entry (allowed : list string) h : Prop :=
  ∃ p, p ∈ allowed ∧ contains "*" (trim p) = false ∧ contains "?" (trim p) = false ∧
    (normalize_host (trim p) = h ∨ unscoped_ip_literal h = Some (normalize_host (trim p))).

Lemma is_explicit_spec allowed h :
  is_explicit_local_allowlisted allowed h = true → explicit_entry allowed h.
Proof.
  unfold is_explicit_local_allowlisted. rewrite existsb_exists. intros (p & Hp & E).
  case_match; [done|]. destruct (contains "*" (trim p)) eqn:Ca, (contains "?" (trim p)) eqn:Cq; try done.
  exists p. split; [by apply list_elem_of_In|]. split; [done|]. split; [done|].
  apply orb_true_iff in E as [E|E]; [left; by apply String.eqb_eq|right].
  case_match; [|done]. apply String.eqb_eq in E. by subst.
Qed.

(** Where a request may go when local addresses are not allowed. *)
Definition reaches_public_only (allowed : list string) h (port : N) : Prop :=
  if is_local_literal h then explicit_entry allowed h
  else match parse_ip h with
       | Some ip => is_non_public_ip ip = false
       | None => ∃ addrs, lookup_host h port = Some addrs ∧
                          Forall (λ ip, is_non_public_ip ip = false) addrs
       end.

Lemma local_check allowed h port :
  (if is_local_literal h then negb (is_explicit_local_allowlisted allowed h)
   else host_resolves_to_non_public_ip h port) = false →
  reaches_public_only allowed h port.
Proof.
  unfold reaches_public_only. destruct (is_local_literal h).
  - intros E%negb_false_iff. by apply is_explicit_spec.
  - unfold host_resolves_to_non_public_ip. destruct (parse_ip h); [done|].
    destruct (lookup_host h port) as [addrs|]; [|done]. intros E. exists addrs. split; [done|].
    apply Forall_forall. intros ip Hi. destruct (is_non_public_ip ip) eqn:X; [|done].
    exfalso. rewrite <- not_true_iff_false, existsb_exists in E. apply E. exists ip.
    split; [by apply list_elem_of_In|done].
Qed.

(** C30: However the state of the proxy came about, by reloads and updates in any
    order, and whatever the decider says, a request that is allowed names no host
    that a denied pattern covers, and without a decider an allowed pattern covers
    it: one of the globs the pattern is compiled to matches the host, or the address
    in front of its zone. For a plain pattern (a domain in lower case without glob
    characters, alone or behind a wildcard for what is below it) these are the
    domain itself or the hosts below it, if the globs match as documented. Unless
    local addresses are allowed, the host is an explicit entry of the allowlist, or
    its address, or every address it resolves to, is one that is_non_public_ip takes
    for public; of the IPv6 addresses these include some that are not routed. *)
Theorem allowed_request_confined cfg c state0 state decider request event h :
  build_config_state cfg c = inr state0 → rtc proxy_step state0 state →
  evaluate_host_policy state decider request = (Allow, event) →
  Host_parse (req_host request) = inr h →
  let allowed := default [] (allowed_domains (config state)) in
  (∀ p, p ∈ default [] (denied_domains (config state)) → ¬ covered p h) ∧
  (decider = None → ∃ p, p ∈ allowed ∧ covered p h) ∧
  (∀ p, plain_pattern p → covered p h ↔ host_in_lang p h) ∧
  (allow_local_binding (config state) = false → reaches_public_only allowed h (req_port request)).
Proof.
  intros B R E Hh allowed. pose proof (consistent_reachable _ _ _ _ B R) as C.
  apply evaluate_allow in E. split_and!.
  - intros p Hp Hc. rewrite (denied_host_denied _ _ _ _ _ C Hp Hh Hc) in E. naive_solver.
  - intros ->. destruct E as [E|[_ [? [=]]]]. unfold host_blocked in E. rewrite Hh in E.
    destruct (globset_matches_host_or_unscoped (deny_set state) h); [done|].
    destruct (if allow_local_binding (config state) then false else _); [done|].
    destruct (globset_matches_host_or_unscoped (allow_set state) h) eqn:M;
      [|by rewrite orb_true_r in E].
    by apply (set_covers _ _ _ _ (proj2 C)).
  - intros p P. apply covered_plain; [done|]. by eapply Host_parse_lower.
  - intros Nl. apply local_check. unfold host_blocked in E. rewrite Hh, Nl in E.
    destruct (globset_matches_host_or_unscoped (deny_set state) h); [naive_solver|].
    fold allowed in E. by destruct (if is_local_literal h then _ else _); [naive_solver|].
Qed.

(** *** Updates *)

(** What an update that has ended did: one of its rounds found nothing to do,
    or installed its state on one with the configuration it had read. *)
Lemma update_loop_ends round states r :
  update_loop round states = Some r →
  ∃ read write, (read, write) ∈ states ∧
    match r with
    | inl e => round read write = inl e
    | inr state => round read write = inr Unchanged ∧ state = read ∨
                   round read write = inr (Install state)
    end.
Proof.
  induction states as [|[read write] states IH]; simpl; [done|].
  destruct (round read write) as [e|[| |s]] eqn:E.
  - intros [= <-]. exists read, write. split; [by left|done].
  - intros [= <-]. exists read, write. split; [by left|by left].
  - intros (read' & write' & Hin & M)%IH. exists read', write'. split; [by right|done].
  - intros [= <-]. exists read, write. split; [by left|by right].
Qed.

Implicit Types (e : NetworkDomainPermissionEntry).
Abbreviation rank e := (permission_rank (permission e)).

Lemma entry_eq e1 e2 : pattern e1 = pattern e2 → rank e1 = rank e2 → e1 = e2.
Proof. destruct e1 as [p1 []], e2 as [p2 []]; simpl; by intros -> [=]. Qed.

(** Every entry with the pattern of [e] has at most its permission. *)
Definition greatest (entries : list NetworkDomainPermissionEntry) e : Prop :=
  e ∈ entries ∧ ∀ e', e' ∈ entries → pattern e' = pattern e → rank e' ≤ rank e.

Lemma add_effective_elem e entries x :
  NoDup (map pattern entries) →
  NoDup (map pattern (add_effective e entries)) ∧
  (∀ y, y ∈ map pattern (add_effective e entries) ↔ y = pattern e ∨ y ∈ map pattern entries) ∧
  (x ∈ add_effective e entries ↔
   x ∈ entries ∧ (pattern x = pattern e → rank e ≤ rank x) ∨
   x = e ∧ ∀ y, y ∈ entries → pattern y = pattern e → rank y ≤ rank e).
Proof.
  induction entries as [|a entries IH]; simpl; intros Nd.
  - split; [by apply NoDup_singleton|]. set_solver.
  - apply NoDup_cons in Nd as [Na Nd]. destruct (IH Nd) as (Nd' & Ps & Xs).
    assert (Uniq : ∀ y, y ∈ entries → pattern y ≠ pattern a).
    { intros y Hy E. apply Na. rewrite <- E. by apply list_elem_of_fmap_2. }
    destruct (String.eqb_spec (pattern a) (pattern e)) as [E|N]; simpl.
    + destruct (rank a <? rank e) eqn:L; [apply Nat.ltb_lt in L|apply Nat.ltb_ge in L]; simpl.
      * rewrite <- E. split; [by constructor|]. split; [intros; rewrite !elem_of_cons; naive_solver|].
        rewrite !elem_of_cons. setoid_rewrite elem_of_cons. split.
        -- intros [->|Hx]; [right|left].
           ++ split; [done|]. intros y [->|Hy]; [lia|]. intros Ey. by destruct (Uniq y Hy).
           ++ split; [by right|]. intros Ex. by destruct (Uniq x Hx).
        -- intros [[[->|Hx] R]|[-> _]]; [|by right|by left]. specialize (R eq_refl). lia.
      * split; [by constructor|]. split; [intros; rewrite !elem_of_cons, E; naive_solver|].
        rewrite !elem_of_cons. setoid_rewrite elem_of_cons. split.
        -- intros [->|Hx]; left; [by split; [left|]|]. split; [by right|].
           intros Ex. rewrite <- E in Ex. by destruct (Uniq x Hx).
        -- intros [[Hx _]|[-> R]]; [done|]. left. apply entry_eq; [done|].
           specialize (R a (or_introl eq_refl) E). lia.
    + split; [|split].
      * constructor; [|done]. intros Hin. apply Ps in Hin as [Hin|Hin]; done.
      * intros y. rewrite !elem_of_cons, Ps. naive_solver.
      * rewrite !elem_of_cons, Xs. setoid_rewrite elem_of_cons. naive_solver.
Qed.

Lemma greatest_above entries e :
  e ∈ entries → ∃ g, greatest entries g ∧ pattern g = pattern e ∧ rank e ≤ rank g.
Proof.
  remember (2 - rank e) as n eqn:N. revert e N. induction (lt_wf n) as [n _ IH]. intros e N He.
  destruct (decide (Exists (λ y, pattern y = pattern e ∧ rank e < rank y) entries)) as [Y|Y].
  - apply Exists_exists in Y as (y & Hy & Py & Ry).
    destruct (IH (2 - rank y)) with (e := y) as (g & G & Pg & Rg); [|done|done|].
    + subst n. destruct y as [? []]; simpl in *; lia.
    + exists g. split; [done|]. split; [congruence|lia].
  - exists e. split; [|done]. split; [done|]. intros y Hy Py.
    destruct (decide (rank e < rank y)) as [L|]; [|lia]. destruct Y. apply Exists_exists. eauto.
Qed.

(** The effective entries are the greatest ones of each pattern. *)
Lemma effective_spec entries e : e ∈ effective_entries entries ↔ greatest entries e.
Proof.
  assert (G : NoDup (map pattern (effective_entries entries)) ∧
              ∀ x, x ∈ effective_entries entries ↔ greatest entries x); [|apply G].
  clear e. induction entries as [|e entries [Nd IH]] using rev_ind.
  - split; [constructor|]. intros x. unfold greatest. rewrite !elem_of_nil. naive_solver.
  - unfold effective_entries. rewrite foldl_app. simpl. fold (effective_entries entries).
    split; [by apply (add_effective_elem e _ e Nd)|]. intros x.
    destruct (add_effective_elem e _ x Nd) as (_ & _ & ->). rewrite IH. unfold greatest.
    setoid_rewrite elem_of_app. setoid_rewrite list_elem_of_singleton. split.
    + intros [[[Hx Gx] R]|[-> R]].
      * split; [by left|]. intros e' [He'| ->] Ep; [by apply Gx|]. by apply R.
      * split; [by right|]. intros e' [He'| ->] Ep; [|done].
        destruct (greatest_above _ _ He') as (g & Gg & Pg & Rg). etrans; [exact Rg|].
        apply R; [by apply IH|congruence].
    + intros [[Hx| ->] G]; [left|right].
      * split; [split; [done|]|]; intros; apply G; eauto.
      * split; [done|]. intros y [Hy _]%IH Ey. apply G; eauto.
Qed.

Lemma domain_entries_spec cfg perm p :
  p ∈ default [] (domain_entries cfg perm) ↔
  ∃ e, greatest (default [] (domains cfg)) e ∧ pattern e = p ∧ permission e = perm.
Proof.
  unfold domain_entries. destruct (domains cfg) as [entries|]; simpl;
    [|unfold greatest; set_solver].
  assert (M : p ∈ map pattern (List.filter (λ e, bool_decide (permission e = perm)) (effective_entries entries)) ↔
              ∃ e, greatest entries e ∧ pattern e = p ∧ permission e = perm).
  { rewrite list_elem_of_fmap. setoid_rewrite list_elem_of_In. setoid_rewrite List.filter_In.
    setoid_rewrite <- list_elem_of_In. setoid_rewrite effective_spec. setoid_rewrite bool_decide_eq_true.
    naive_solver. }
  rewrite <- M. by destruct (map pattern _).
Qed.

(** The entries of the updated domain are replaced by one, the others stay. *)
Lemma upsert_greatest cfg host perm e :
  greatest (default [] (domains (upsert_domain_permission host perm normalize_host cfg))) e ↔
  e = {| pattern := host; permission := perm |} ∨
  normalize_host (pattern e) ≠ normalize_host host ∧ greatest (default [] (domains cfg)) e.
Proof.
  set (new := {| pattern := host; permission := perm |}).
  set (old := default [] (domains cfg)).
  assert (M : ∀ x, x ∈ default [] (domains (upsert_domain_permission host perm normalize_host cfg)) ↔
                   x = new ∨ x ∈ old ∧ normalize_host (pattern x) ≠ normalize_host host).
  { intros x. unfold upsert_domain_permission. simpl. fold old. fold new.
    assert (S : ∀ l : list NetworkDomainPermissionEntry, default [] (some_entries l) = l) by by intros [].
    rewrite S, elem_of_app, list_elem_of_singleton, list_elem_of_In, List.filter_In, <- list_elem_of_In,
      negb_true_iff, String.eqb_neq. naive_solver. }
  unfold greatest. setoid_rewrite M. split.
  - intros [[->|[He Ne]] G]; [by left|right]. split; [done|]. split; [done|]. intros y Hy Py.
    apply G; [right|done]. split; [done|]. by rewrite Py.
  - intros [->|(Ne & He & G)].
    + split; [by left|]. intros y [->|[_ Ny]] Py; [done|]. by rewrite Py in Ny.
    + split; [by right|]. intros y [->|[Hy _]] Py; [|by apply G]. simpl in Py. by rewrite <- Py in Ne.
Qed.

(** The entries of a configuration that count. *)
Definition entries_of (cfg : NetworkProxySettings) : NetworkDomainPermissionEntry → Prop :=
  greatest (default [] (domains cfg)).

Lemma list_entries_spec k cfg p :
  p ∈ list_entries k cfg ↔ entries_of cfg {| pattern := p; permission := list_permission k |}.
Proof.
  assert (S : list_entries k cfg = default [] (domain_entries cfg (list_permission k))) by by destruct k.
  rewrite S, domain_entries_spec. unfold entries_of. split; [|by intros G; eexists].
  by intros ([p' perm] & G & <- & <-).
Qed.

Lemma opposite_entries_spec k cfg p :
  p ∈ opposite_entries k cfg ↔
  entries_of cfg {| pattern := p;
    permission := list_permission match k with AllowList => DenyList | DenyList => AllowList end |}.
Proof. rewrite <- list_entries_spec. by destruct k. Qed.

Lemma has_host entries h :
  existsb (λ p, String.eqb (normalize_host p) h) entries = true ↔
  ∃ p, p ∈ entries ∧ normalize_host p = h.
Proof.
  rewrite existsb_exists. setoid_rewrite <- list_elem_of_In. by setoid_rewrite String.eqb_eq.
Qed.

(** C32: When an update of a list of domains ends successfully, then either nothing
    had to be done, since the list has an entry for the host and the opposite list
    has none, or the state that one of its rounds finds is replaced: the host is
    entered in the list, the opposite list has no entry that normalizes to what the
    host does, every entry for another host is as it was in the configuration that
    is replaced, whatever other tasks did to it between the rounds, and the new
    configuration is valid under the managed one, with sets compiled from it. A host
    is normalized when it is read and again when entries are compared, which can
    change it again: [example.com:443] is read as example.com:443 and compared as
    example.com. Blocked requests that other tasks record meanwhile are not covered. *)
Theorem domain_update_exact input h k states state :
  Host_parse input = inr h → update_domain_list input k states = Some (inr state) →
  ∃ read write, (read, write) ∈ states ∧
    (state = read ∧
     (∃ p, p ∈ list_entries k (config state) ∧ normalize_host p = h) ∧
     (∀ p, p ∈ opposite_entries k (config state) → normalize_host p ≠ h) ∨
     consistent state ∧ constraints state = constraints write ∧
     validate_policy_against_constraints (config state) (constraints write) = inr tt ∧
     h ∈ list_entries k (config state) ∧
     (∀ p, p ∈ opposite_entries k (config state) → normalize_host p ≠ normalize_host h) ∧
     ∀ e, normalize_host (pattern e) ≠ normalize_host h →
       entries_of (config state) e ↔ entries_of (config write) e).
Proof.
  unfold update_domain_list. intros Hh. rewrite Hh.
  intros (read & write & Hin & [[E ->]|E])%update_loop_ends; exists read, write; (split; [done|]).
  - left. split; [done|]. unfold update_domain_round in E. case_match eqn:D.
    + apply andb_true_iff in D as [D1 D2]. split; [by apply has_host|].
      intros p Hp Np. apply negb_true_iff in D2. rewrite <- not_true_iff_false, has_host in D2. eauto.
    + apply and_then_inr in E as (? & _ & E). apply and_then_inr in E as (? & _ & E). by case_match.
  - right. apply domain_round_inv in E as (C & Ec & Ek & V). rewrite Ec in *. split_and!; try done.
    + apply list_entries_spec, upsert_greatest. by left.
    + intros p Hp. apply opposite_entries_spec, upsert_greatest in Hp as [Hp|[Np _]]; [|done].
      exfalso. injection Hp as _ Hp. by destruct k.
    + intros e Ne. unfold entries_of. rewrite upsert_greatest. naive_solver.
Qed.
End proxy.

(** ** A concrete proxy *)

(** Globs without classes and alternatives, whatever the case. *)
Fixpoint wild (p : list ascii) : list ascii → bool :=
  match p with
  | [] => λ l, match l with [] => true | _ => false end
  | c :: p' =>
      if Ascii.eqb c "?" then λ l, match l with [] => false | _ :: l' => wild p' l' end
      else if Ascii.eqb c "*" then
        fix star (l : list ascii) : bool :=
          wild p' l || match l with [] => false | _ :: l' => star l' end
      else λ l, match l with [] => false | d :: l' => Ascii.eqb (lower c) (lower d) && wild p' l' end
  end.

Lemma wild_literal (d l : list ascii) :
  Forall (λ c, is_glob_char c = false) d → wild d l = true ↔ map lower l = map lower d.
Proof.
  intros F. revert l. induction F as [|c d Fc F IH]; intros l; simpl; [by destruct l|].
  destruct (Ascii.eqb_spec c "?") as [->|_]; [done|]. destruct (Ascii.eqb_spec c "*") as [->|_]; [done|].
  destruct l as [|x l]; [done|]. simpl. rewrite andb_true_iff, Ascii.eqb_eq, IH. split.
  - by intros [-> ->].
  - by intros [= -> ->].
Qed.

Lemma wild_star (p l : list ascii) :
  wild ("*"%char :: p) l = true ↔ ∃ a b, l = a ++ b ∧ wild p b = true.
Proof.
  simpl. induction l as [|x l IH]; rewrite orb_true_iff.
  - split; [intros [W|[=]]; by exists [], []|]. intros (a & b & E & W).
    symmetry in E. apply app_eq_nil in E as [_ ->]. by left.
  - rewrite IH. split.
    + intros [W|(a & b & -> & W)]; [by exists [], (x :: l)|by exists (x :: a), b].
    + intros ([|y a] & b & E & W); simpl in E; [subst; by left|]. injection E as -> ->. right. eauto.
Qed.

#[local] Instance demo_net : NetEnv := {|
  host_glob glob := inr (λ h, wild (bytes glob) (bytes h));
  host_glob_set_error _ := None;
  url_host s :=
    if forallb (λ c, is_ascii_digit c || (97 <=? code (lower c))%N && (code (lower c) <=? 122)%N ||
                     Ascii.eqb c "." || Ascii.eqb c "-") (bytes s)
    then Some (to_ascii_lowercase s) else None;
  debug_strings _ := "";
  mitm_error := None;
  lookup_host h _ := Some [V4 (93, 184, 216, 34)%N] |}.

#[local] Instance demo_laws : HostGlobLaws.
Proof.
  split; intros d F; eexists; (split; [reflexivity|]); intros h; unfold to_ascii_lowercase.
  - rewrite wild_literal by done. split; [by intros ->|]. intros E%(f_equal bytes).
    by rewrite !bytes_of_bytes in E.
  - change (bytes ("?*." +:+ d)) with ("?"%char :: "*"%char :: "."%char :: bytes d).
    change (wild ("?"%char :: "*"%char :: "."%char :: bytes d) (bytes h))
      with (match bytes h with [] => false | _ :: l' => wild ("*"%char :: "."%char :: bytes d) l' end).
    assert (Tail : ∀ b, wild ("."%char :: bytes d) b = true ↔ map lower b = "."%char :: map lower (bytes d))
      by (intros b; rewrite wild_literal; [done|by constructor]).
    unfold subdomain_of. split.
    + destruct (bytes h) as [|c l]; [done|]. rewrite wild_star. intros (a & b & -> & W%Tail).
      exists (of_bytes (map lower (c :: a))). split; [done|].
      change (c :: a ++ b) with ((c :: a) ++ b). by rewrite map_app, W, of_bytes_app.
    + intros (x & Nx & E%(f_equal bytes)). rewrite bytes_of_bytes, !bytes_app, bytes_of_bytes in E.
      apply map_eq_app in E as (a & b & E & Ea & Eb). rewrite E.
      destruct a as [|c a]; [by destruct x|].
      change (wild ("*"%char :: "."%char :: bytes d) (a ++ b) = true). apply wild_star. exists a, b. split; [done|].
      by apply Tail.
Qed.

#[local] Instance demo_process : ProcessEnv :=
  {| env_home := None; env_current_dir := Some []; env_tmpdir := None |}.

Definition entry (p : string) (perm : NetworkDomainPermission) : NetworkDomainPermissionEntry :=
  {| pattern := p; permission := perm |}.
Definition settings_of (l : list NetworkDomainPermissionEntry) : NetworkProxySettings :=
  with_domains (some_entries l) default_settings.
Definition managed_allowlist (l : list string) : NetworkProxyConstraints := {|
  max_enabled := None; max_mode := None; managed_upstream_proxy := None;
  managed_non_loopback_proxy := None; managed_all_unix_sockets := None;
  managed_allowed_domains := Some l; allowlist_expansion_enabled := None;
  managed_denied_domains := None; denylist_expansion_enabled := None;
  managed_unix_sockets := None; managed_local_binding := None |}.
Definition request_to (host : string) : NetworkPolicyRequest := {|
  req_protocol := ProtoHttpsConnect; req_host := host; req_port := 443; req_client_addr := None;
  req_method := None; req_command := None; req_exec_policy_hint := None |}.
Definition state_of (m : string + ConfigState) : ConfigState :=
  match m with
  | inr state => state
  | inl _ => {| config := default_settings; allow_set := []; deny_set := []; mitm_enabled := false;
                constraints := unconstrained; blocked := []; blocked_total := 0 |}
  end.

Lemma state_of_ok (m : string + ConfigState) :
  match m with inr _ => true | inl _ => false end = true → m = inr (state_of m).
Proof. by destruct m. Qed.

(** Parsing as [IpAddr] does. *)
Example parse_ip_examples :
  map parse_ip ["127.0.0.1"; "01.2.3.4"; "256.0.0.1"; "::1"; "::ffff:10.0.0.1"; "1::2::3"; "fe80::1%eth0";
                "1:2:3:4:5:6:7:8"; "1:2:3:4:5:6:7::"; "::"; "1.2.3.4.5"; ":1"] =
  [Some (V4 (127, 0, 0, 1)%N); None; None; Some (V6 [0; 0; 0; 0; 0; 0; 0; 1]%N);
   Some (V6 [0; 0; 0; 0; 0; 65535; 2560; 1]%N); None; None;
   Some (V6 [1; 2; 3; 4; 5; 6; 7; 8]%N); Some (V6 [1; 2; 3; 4; 5; 6; 7; 0]%N);
   Some (V6 [0; 0; 0; 0; 0; 0; 0; 0]%N); None; None].
Proof. vm_compute. reflexivity. Qed.

Lemma non_public_ipv4_ranges_witness :
  octets (100, 64, 0, 1)%N ∧ is_non_public_ipv4 (100, 64, 0, 1)%N = true.
Proof.
  split; [by repeat split; apply N.ltb_lt; reflexivity|]. apply non_public_ipv4_ranges.
  - by repeat split; apply N.ltb_lt; reflexivity.
  - right. right. left. split; [apply N.leb_le|apply N.ltb_lt]; reflexivity.
Defined.

Definition confined : NetworkProxySettings :=
  settings_of [entry "api.example.com" PermAllow; entry "*.build.example.com" PermAllow].

Lemma managed_allowlist_confines_witness :
  ∃ q, q ∈ ["*.example.com"] ∧ lang (policy_pattern q) "ci.build.example.com".
Proof.
  apply (managed_allowlist_confines confined (managed_allowlist ["*.example.com"]) ["*.example.com"]
           (state_of (build_config_state confined (managed_allowlist ["*.example.com"])))).
  - vm_compute. reflexivity.
  - apply state_of_ok. vm_compute. reflexivity.
  - reflexivity.
  - reflexivity.
  - repeat constructor; try (apply (bool_decide_unpack _); vm_compute; reflexivity).
  - repeat constructor; try (apply (bool_decide_unpack _); vm_compute; reflexivity).
  - reflexivity.
  - vm_compute. reflexivity.
Defined.

Definition open_cfg : NetworkProxySettings := settings_of [entry "*.example.com" PermAllow].
Definition open_state : ConfigState := state_of (build_config_state open_cfg unconstrained).

Lemma open_state_built : build_config_state open_cfg unconstrained = inr open_state.
Proof. apply state_of_ok. vm_compute. reflexivity. Qed.

(** Denying a host, after a first round that raced with a blocked request and
    a change of the mode. *)
Definition blocked_entry : BlockedRequest := {|
  br_host := "evil.org"; br_reason := "not_allowed"; br_client := None; br_method := None;
  br_mode := None; br_protocol := "http"; br_decision := None; br_source := None; br_port := None;
  br_timestamp := 0 |}.
Definition limited_state : ConfigState := with_config (with_mode Limited open_cfg) open_state.
Definition installed (r : string + update_round) : ConfigState :=
  match r with inr (Install state) => state | _ => state_of (inl "") end.

Lemma installed_ok r :
  match r with inr (Install _) => true | _ => false end = true → r = inr (Install (installed r)).
Proof. by destruct r as [|[]]. Qed.

Definition denied_state : ConfigState :=
  installed (update_domain_round "bad.example.com" DenyList limited_state limited_state).

Lemma denied_state_installed :
  update_domain_round "bad.example.com" DenyList limited_state limited_state =
  inr (Install denied_state).
Proof. apply installed_ok. vm_compute. reflexivity. Qed.

Lemma denied_state_reached :
  add_denied_domain "Bad.example.com" [(open_state, limited_state); (limited_state, limited_state)] =
  Some (inr denied_state).
Proof.
  assert (Hh : Host_parse "Bad.example.com" = inr "bad.example.com") by (vm_compute; reflexivity).
  assert (R : update_domain_round "bad.example.com" DenyList open_state limited_state = inr Retry)
    by (vm_compute; reflexivity).
  unfold add_denied_domain, update_domain_list. rewrite Hh. cbn [update_loop].
  by rewrite R, denied_state_installed.
Qed.

Lemma domain_update_exact_witness :
  ∃ read write, (read, write) ∈ [(open_state, limited_state); (limited_state, limited_state)] ∧
    (denied_state = read ∧
     (∃ p, p ∈ list_entries DenyList (config denied_state) ∧ normalize_host p = "bad.example.com") ∧
     (∀ p, p ∈ opposite_entries DenyList (config denied_state) → normalize_host p ≠ "bad.example.com") ∨
     consistent denied_state ∧ constraints denied_state = constraints write ∧
     validate_policy_against_constraints (config denied_state) (constraints write) = inr tt ∧
     "bad.example.com" ∈ list_entries DenyList (config denied_state) ∧
     (∀ p, p ∈ opposite_entries DenyList (config denied_state) →
           normalize_host p ≠ normalize_host "bad.example.com") ∧
     ∀ e, normalize_host (pattern e) ≠ normalize_host "bad.example.com" →
       entries_of (config denied_state) e ↔ entries_of (config write) e).
Proof.
  apply (domain_update_exact "Bad.example.com" "bad.example.com" DenyList
           [(open_state, limited_state); (limited_state, limited_state)]).
  - vm_compute. reflexivity.
  - exact denied_state_reached.
Defined.

Lemma denied_state_steps : rtc proxy_step open_state denied_state.
Proof.
  apply (rtc_l _ _ limited_state).
  - apply (step_mode _ Limited open_state). unfold set_mode_round, limited_state.
    assert (V : validate_policy_against_constraints (with_mode Limited (config open_state))
                  (constraints open_state) = inr tt) by (vm_compute; reflexivity).
    assert (C : config open_state = open_cfg) by (vm_compute; reflexivity).
    rewrite V, C. cbn [map_err and_then]. by rewrite bool_decide_eq_true_2 by reflexivity.
  - apply rtc_once, (step_domain _ "bad.example.com" DenyList limited_state).
    exact denied_state_installed.
Qed.

Lemma allowed_request_confined_witness :
  ¬ covered "bad.example.com" "www.example.com" ∧
  (∃ p, p ∈ ["*.example.com"] ∧ covered p "www.example.com") ∧
  reaches_public_only ["*.example.com"] "www.example.com" 443.
Proof.
  destruct (evaluate_host_policy denied_state None (request_to "www.example.com")) as [d event] eqn:E.
  assert (D : d = Allow)
    by (replace d with (evaluate_host_policy denied_state None (request_to "www.example.com")).1
          by (by rewrite E); vm_compute; reflexivity).
  subst d.
  assert (Al : default [] (allowed_domains (config denied_state)) = ["*.example.com"])
    by (vm_compute; reflexivity).
  assert (De : default [] (denied_domains (config denied_state)) = ["bad.example.com"])
    by (vm_compute; reflexivity).
  destruct (allowed_request_confined open_cfg unconstrained open_state denied_state None
              (request_to "www.example.com") event "www.example.com") as (Dn & Ok & _ & Pub).
  - exact open_state_built.
  - exact denied_state_steps.
  - exact E.
  - vm_compute. reflexivity.
  - rewrite Al in Pub, Ok. rewrite De in Dn. split_and!.
    + apply Dn. by left.
    + by apply Ok.
    + apply Pub. vm_compute. reflexivity.
Defined.

(** ** Findings *)

(** The check of the managed allowlist reads a pattern with a wildcard as it
    is; the compiled set drops what follows the only colon.  So a pattern
    below a managed domain can allow every host. *)
Lemma managed_allowlist_bypassed :
  let managed := managed_allowlist ["*.example.com"] in
  let cfg := settings_of [entry "*:.example.com" PermAllow] in
  validate_policy_against_constraints cfg managed = inr tt ∧
  host_blocked (state_of (build_config_state cfg managed)) "evil.org" 443 = Allowed ∧
  (evaluate_host_policy (state_of (build_config_state cfg managed)) None (request_to "evil.org")).1 = Allow.
Proof. split_and!; vm_compute; reflexivity. Qed.

(** Addresses that are not routed, or that embed a local IPv4 address, count
    as public: NAT64, 6to4, documentation and discard addresses. *)
Lemma unrouted_ipv6_public :
  map (λ s, is_non_public_ip <$> parse_ip s)
    ["64:ff9b::127.0.0.1"; "2002:7f00:1::"; "2001:db8::1"; "100::1"; "fec0::1"] =
  [Some false; Some false; Some false; Some false; Some false].
Proof. vm_compute. reflexivity. Qed.

(** A request that is blocked between the rounds of an update is forgotten;
    its number still counts in a reload, but not in a forced one. *)
Lemma update_forgets_blocked :
  let write := record_blocked blocked_entry open_state in
  match update_domain_round "bad.example.com" DenyList open_state write with
  | inr (Install state) => (length (blocked write), blocked_total write, blocked state, blocked_total state)
                           = (1, 1%N, [], 0%N)
  | _ => False
  end.
Proof. vm_compute. reflexivity. Qed.

Lemma force_reload_forgets_total :
  let state := record_blocked blocked_entry open_state in
  (λ s, (length (blocked s), blocked_total s)) <$> ok_of (reload_if_needed (inr (Some open_state)) state)
    = Some (1, 1%N) ∧
  (λ s, (length (blocked s), blocked_total s)) <$> ok_of (force_reload (inr open_state) state)
    = Some (1, 0%N).
Proof. split; vm_compute; reflexivity. Qed.

(** What an update leaves of a bracketed text: the entry of another host is
    replaced, and no entry normalizes to the host that was to be denied. *)
Lemma bracketed_host_replaces_another :
  Host_parse "[www.example.com:443]" = inr "www.example.com:443" ∧
  match add_denied_domain "[www.example.com:443]"
          [(state_of (build_config_state (settings_of [entry "www.example.com" PermAllow]) unconstrained),
            state_of (build_config_state (settings_of [entry "www.example.com" PermAllow]) unconstrained))] with
  | Some (inr state) =>
      allowed_domains (config state) = None ∧
      denied_domains (config state) = Some ["www.example.com:443"] ∧
      map normalize_host (list_entries DenyList (config state)) = ["www.example.com"]
  | _ => False
  end.
Proof. vm_compute. repeat split; reflexivity. Qed.
